(* ===== verification/_CoqProject ===== *)
-Q . S2P
Prelude.v
Config.v
Varint.v
BinaryArchive.v
IntUtil.v
Limbs.v
ScalarOps.v
Primes.v
FieldOps.v
Group.v
Edwards.v
GroupOps.v
ScalarMult.v
CurveTables.v
CurveOrder.v
HashToPoint.v
Keccak.v
KeccakSpec.v
Blake2b.v
Crypto.v
Signatures.v
RctTables.v
Generators.v
Base58.v
TreeHash.v
RctTypes.v
RctOps.v
RingWalk.v
Clsag.v
RangeProof.v
Mlsag.v
TxFormat.v
RctSigs.v
FormatUtils.v
HardFork.v
MergeMining.v
Difficulty.v
BasicImpl.v
Pruning.v
Median.v
BlockWeight.v
BlockRules.v
