(* ===== verification/Prelude.v ===== *)
(** * Verification of the consensus core of a Monero node

    The node keeps a block chain.  A peer's blob is decoded into a block and
    its transactions; a block is accepted if its proof of work meets the
    difficulty, its version follows the hard fork schedule, its time, weight,
    miner transaction and fees obey the rules of the fork in force, and the
    Merkle root of its transactions is the one that was hashed; a transaction
    is accepted if its range proofs and ring signatures verify.  This library
    models the parts of that path that are functions of data: the byte format,
    the hashes, the curve, the signatures and commitments, the arithmetic, the
    medians and the rules.  Each part is a file, whose definitions carry the
    names of the source and translate it branch by branch; the theorems follow
    in the same file.

    ** Files and sources (paths under [src/])

    Data, from the bottom:
    - [Prelude]: machine integers, bytes, loops with fuel, windows and sorted
      lists; tactics.  No code of the node.
    - [Config]: constants of [src/cryptonote_config.h].
    - [Varint]: [src/common/varint.h].
    - [BinaryArchive]: [src/serialization/*.h], the description of a type that
      yields its writer and reader, with laws as type classes ([CodecOk],
      [Exact], [Strict]) that each type of [RctTypes] and [TxFormat]
      discharges.
    - [IntUtil]: [contrib/epee/include/int-util.h], 128-bit words.
    - [Base58]: [src/common/base58.cpp].
    - [RctTypes]: [src/ringct/rctTypes.h], the data of ring signatures.
    - [TxFormat]: [src/cryptonote_basic/cryptonote_basic.h], transactions and
      blocks.
    - [FormatUtils]: amounts, fees, weights and offsets of
      [src/cryptonote_basic/cryptonote_format_utils.cpp].

    The curve and what is built on it:
    - [Limbs], [ScalarOps], [FieldOps], [GroupOps], [ScalarMult],
      [HashToPoint]: [src/crypto/crypto-ops.c] on its limbs of 21, 25 and 26
      bits, every product and carry on machine words.
    - [CurveTables]: the tables of [src/crypto/crypto-ops-data.c].
    - [Primes], [Group], [Edwards], [CurveOrder]: mathematics and no code.
      Primality certificates, multiples in a commutative group (class
      [AbGroup]), the Edwards curve as such a group, and its order.
    - [Keccak]: [src/crypto/keccak.c], [hash.c].  Components over a hash are
      proved for any function of 32 bytes (class [Hash32]), of which
      [cn_fast_hash] is an instance.  [KeccakSpec] is the definition of Keccak
      on bits that the code is compared with.
    - [Blake2b]: [src/crypto/blake2b.c].
    - [TreeHash]: [src/crypto/tree-hash.c].
    - [Crypto]: keys, derivations, key images, hashing to the curve and random
      scalars of [src/crypto/crypto.cpp] and [random.c].
    - [Signatures]: the signatures of [src/crypto/crypto.cpp]: Schnorr,
      transaction proofs, rings.
    - [RctTables], [Generators]: the tables of multiples of [H] in
      [src/ringct/rctTypes.h] and [rctOps.cpp]; [src/crypto/generators.cpp].
    - [RctOps]: [src/ringct/rctOps.cpp], [rctCryptoOps.c] and the amount
      conversions of [rctTypes.cpp].
    - [RingWalk]: the loop round a ring that the signers share and the one the
      verifiers share; [Clsag] and [Mlsag] instantiate both.
    - [Clsag], [Mlsag], [RangeProof], [RctSigs]: [src/ringct/rctSigs.cpp] with
      the signing steps of [src/device/device_default.cpp].

    The rules:
    - [HardFork]: [src/cryptonote_basic/hardfork.cpp] and the schedules of
      [src/hardforks/hardforks.cpp].  The state is the record [HardFork]; the
      chain is the record [BlockchainDB] of the versions it reads and writes.
    - [MergeMining]: [src/cryptonote_basic/merge_mining.cpp].
    - [Difficulty]: [src/cryptonote_basic/difficulty.cpp].
    - [BasicImpl]: reward, addresses and hash templates of
      [src/cryptonote_basic/cryptonote_basic_impl.cpp].
    - [Pruning]: [src/common/pruning.cpp].
    - [Median]: [contrib/epee/include/misc_language.h] and
      [rolling_median.h].
    - [BlockWeight], [BlockRules]: rules of [src/cryptonote_core/blockchain.cpp].
      The members of [Blockchain] about weights are the record [weight_state];
      the database is the list of what the rules read of each block.

    ** How the code is translated

    An unsigned [w]-bit integer is a [Z] in its range and every operation that
    can leave it is written with its wrap-around ([u32], [u64], ...); a signed
    operation that would overflow, a failed assertion and an index outside its
    container give [None], so that a theorem with [Some] says they do not
    happen.  Bytes are integers below 256.  A function that can fail or divide
    by zero returns an [option]; one that can throw is in the monad [exc] of
    [RctOps]; an object is a record passed in and returned.  Random numbers
    are a list of blocks the code takes from.  [assert] is guarded by an
    argument [debug] where both builds are of interest.

    A loop is a fold, structural recursion or [while_fuel]; for each fuel there
    is a lemma that it is enough for every input of the type: 32 or 64 rounds
    where a word is shifted, 20 where a 64-bit number loses a decimal digit,
    the length of the input in [Keccak], the size of the heap in [Median], the
    number of popped blocks in [HardFork], the size of the ring in [RingWalk].
    Code outside the repository is an argument: SHA-256 of the merge mining
    slot, the random byte of a stripe, the clock.  The address functions are
    proved for any test of a public key and used with that of [Crypto].

    ** What is shown

    - Formats: a transaction or block that is written reads back as itself
      ([tx_blob_roundtrip], [block_blob_roundtrip]); a blob that is read is the
      one that is written, except for a varint cut off by the end of the blob
      ([tx_blob_canonical], [read_varint_canonical], and
      [block_blob_malleable], the ten blobs of one block); the same
      for base58 and addresses ([base58_roundtrip], [base58_decode_canonical],
      [address_roundtrip], [address_canonical]), varints, merge mining words
      and ring member offsets.
    - Hashing: the in-place tree code computes the tree, every leaf has a
      branch that verifies, and two branches with one root are one branch or
      collide at a level ([merkle_branch_complete], [merkle_branch_binding]);
      the permutation and the sponge are those Keccak defines
      ([keccak_definition_correct]); the incremental
      Keccak and BLAKE2b are the one-shot ones
      ([keccak_incremental_correct], [blake2b_streaming_correct]).
    - The curve: limbs never overflow and represent the field and scalar
      results ([field_arithmetic_correct], [scalar_arithmetic_correct]); the
      formulas are the group law, the tables are the multiples they stand for,
      the windowed multiplications are multiples ([group_operations_correct],
      [base_tables_correct], [scalarmult_correct],
      [double_scalarmult_correct]); the group has order [8 ell]
      ([group_order_correct]); a point has one encoding
      ([point_encoding_correct]); hashing to the curve is total, lands in the
      subgroup, and gives the generators ([hash_to_ec_correct],
      [generators_correct]).
    - Signatures: each verifier accepts, of all bytes, exactly the solutions of
      its equation, and refuses the rest (with an assertion or an exception
      only for a key that is no point); each signer returns once it has enough random
      blocks, and its signature verifies ([signature_complete],
      [check_signature_correct], [tx_proof_correct],
      [ring_signature_complete], [clsag_verify_correct], [clsag_complete],
      [mlsag_verify_correct], [mg_simple_complete], [mg_full_complete]).  That
      only the owner of a key can sign is a computational statement and is not
      shown, beyond the extraction of a key from two answers in
      [check_signature_correct].
    - Confidential amounts: commitments add up ([commitments_correct]), amounts
      encode and decode ([ecdh_roundtrip]), range proofs verify
      ([range_proof_correct]), a full transaction that balances is made,
      verifies and is decoded by its receivers ([rct_full_complete]), and
      decoding reports only what the commitment opens to
      ([decodeRct_correct]).
    - Arithmetic: word-level products and quotients are those of integers; the
      hash test in words and in wide integers is [hash * difficulty < 2^256]
      ([check_hash_correct]); retargeting and reward follow their formulas,
      the reward with the wrap-around of medians above 2^32
      ([next_difficulty_correct], [block_reward_correct]).
    - Hard forks: what [add] checks and records, that no sequence of blocks,
      pops and rescans fails or leaves the schedule, that the window is the votes of the last blocks and
      is rebuilt by a reorganisation ([hard_fork_add_correct],
      [hard_fork_on_schedule], [hard_fork_window_correct],
      [hard_fork_reorganize_correct]); the shipped tables load.
    - Weights: the rolling median is the median of the last values
      ([rolling_median_correct]), the cached long term median is that of the
      chain through any growth and reorganisation ([long_term_cache_correct]),
      the limits follow ([weight_limit_correct], [long_term_weight_clamped]).
    - Rules: what a miner may claim and when it unlocks, fees and their
      estimate, block times, transaction types per fork
      ([miner_reward_correct], [coinbase_unlock_correct], [check_fee_correct],
      [fee_estimate_correct], [block_timestamp_correct], [tx_types_correct]).
    - Pruning: the height searches return the nearest height of the kind.

    ** What is not modelled

    Bulletproofs and the multi-exponentiation they use
    ([src/ringct/bulletproofs*.cc], [multiexp.cc]), and with them simple
    transactions of [rctSigs.cpp], which are made and verified through them;
    subaddresses and hardware devices; proof of work hashes; the transaction
    pool, checkpoints and the chain's reorganisation; network, storage, wallet,
    RPC and the daemon, which are input and output around the modelled parts.
    Of the modelled files: locks, logging, wiping of memory, caches of hashes
    and sizes in transactions, JSON and debug archives.  The thread pool of the
    verifiers runs jobs that share nothing, here one after the other.  Memory
    safety is modelled only where an index can leave its container. *)

From stdpp Require Export base numbers list list_numbers sorting.
From Stdlib Require Export ZArith Lia.

#[global] Open Scope Z_scope.

(** ** Machine integers

    A [w]-bit unsigned integer is a [Z] in [[0, 2^w)]; an operation of the
    source that can leave the range is written with the wrap-around of its
    type ([u8], [u32], [u64], ...) around it. *)

Definition wrapu (w x : Z) : Z := x mod 2 ^ w.

Abbreviation u8 := (wrapu 8).
Abbreviation u16 := (wrapu 16).
Abbreviation u32 := (wrapu 32).
Abbreviation u64 := (wrapu 64).
Abbreviation u128 := (wrapu 128).

Definition is_uint (w x : Z) : Prop := 0 <= x < 2 ^ w.

Abbreviation is_u8 := (is_uint 8).
Abbreviation is_u32 := (is_uint 32).
Abbreviation is_u64 := (is_uint 64).
Abbreviation is_u128 := (is_uint 128).

(** Two's complement reading of a [w]-bit pattern ([static_cast<int8_t>] etc). *)
Definition sint (w x : Z) : Z :=
  let y := x mod 2 ^ w in if y <? 2 ^ (w - 1) then y else y - 2 ^ w.

Definition UINT64_MAX : Z := 2 ^ 64 - 1.

#[global] Instance is_uint_dec w x : Decision (is_uint w x).
Proof. unfold is_uint. apply _. Defined.

(** Bytes: a [char] buffer is a list of values of [[0, 256)]. *)

Definition bytes_ok (l : list Z) : Prop := Forall is_u8 l.

#[global] Instance bytes_ok_dec l : Decision (bytes_ok l).
Proof. unfold bytes_ok. apply _. Defined.

(** Little- and big-endian value of a byte buffer and its inverse. *)
Fixpoint le_value (l : list Z) : Z :=
  match l with [] => 0 | b :: l' => b + 256 * le_value l' end.

Fixpoint le_bytes (n : nat) (x : Z) : list Z :=
  match n with O => [] | S n' => x mod 256 :: le_bytes n' (x / 256) end.

Definition be_value (l : list Z) : Z := le_value (rev l).
Definition be_bytes (n : nat) (x : Z) : list Z := rev (le_bytes n x).

(** What the rest of the program relies on in a 32-byte hash function. *)
Class Hash32 (H : list Z -> list Z) : Prop := {
  hash32_len : forall l, length (H l) = 32%nat;
  hash32_ok : forall l, bytes_ok (H l);
}.

(** ** Loops

    A [while] loop runs under fuel; [None] means the fuel ran out.  The rule
    [while_fuel_total] is how a loop of the source is shown to terminate: a
    measure that decreases on the invariant bounds the fuel it needs. *)
Section While.
Context {S : Type} (cond : S -> bool) (body : S -> S).

Fixpoint while_fuel (fuel : nat) (s : S) : option S :=
  if cond s
  then match fuel with O => None | Datatypes.S fuel' => while_fuel fuel' (body s) end
  else Some s.

Lemma while_fuel_total (I : S -> Prop) (m : S -> nat) :
  (forall s, I s -> cond s = true -> I (body s) /\ (m (body s) < m s)%nat) ->
  forall fuel s, I s -> (m s <= fuel)%nat ->
  exists s', while_fuel fuel s = Some s' /\ I s' /\ cond s' = false.
Proof.
  intros Hstep fuel; induction fuel as [|fuel IH]; intros s HI Hm; simpl;
    destruct (cond s) eqn:Hc; eauto;
    destruct (Hstep s HI Hc) as [HI' Hlt]; [lia|].
  apply IH; [done|lia].
Qed.

Lemma while_fuel_mono fuel fuel' s s' :
  (fuel <= fuel')%nat -> while_fuel fuel s = Some s' -> while_fuel fuel' s = Some s'.
Proof.
  revert fuel' s; induction fuel as [|fuel IH]; intros fuel' s Hle; simpl;
    destruct fuel' as [|fuel']; simpl; destruct (cond s); try done; [lia|].
  apply IH; lia.
Qed.

Lemma while_fuel_inv (I : S -> Prop) :
  (forall s, I s -> cond s = true -> I (body s)) ->
  forall fuel s s', I s -> while_fuel fuel s = Some s' -> I s' /\ cond s' = false.
Proof.
  intros Hstep fuel; induction fuel as [|fuel IH]; intros s s' HI; simpl;
    destruct (cond s) eqn:Hc; intros; simplify_eq; eauto.
Qed.
End While.

(** Two loops in lock step through a projection of their states. *)
Lemma while_fuel_map {S T} (f : S -> T) (c : S -> bool) (b : S -> S) (c' : T -> bool) (b' : T -> T) :
  (forall s, c' (f s) = c s) -> (forall s, b' (f s) = f (b s)) ->
  forall fuel s, while_fuel c' b' fuel (f s) = f <$> while_fuel c b fuel s.
Proof.
  intros Hc Hb fuel; induction fuel as [|fuel IH]; intros s; simpl; rewrite Hc;
    destruct (c s); try done. by rewrite Hb, IH.
Qed.

Lemma foldl_map_sim {A S T} (f : S -> T) (g : S -> A -> S) (h : T -> A -> T) (l : list A) s :
  (forall s a, h (f s) a = f (g s a)) -> foldl h (f s) l = f (foldl g s l).
Proof. intros H. revert s; induction l as [|a l IH]; intros s; simpl; [done|]. by rewrite H, IH. Qed.

(** ** Automation *)

Create HintDb uint.

(** Arithmetic with [mod] and [div] by constants. *)
Ltac zdm := unfold is_uint, wrapu, UINT64_MAX in *; Z.div_mod_to_equations; lia.

(** Turn the boolean comparisons of a goal or a hypothesis into cases with
    the corresponding inequalities. *)
Ltac bcase :=
  match goal with
  | |- context [Z.leb ?a ?b] => destruct (Z.leb_spec a b)
  | |- context [Z.ltb ?a ?b] => destruct (Z.ltb_spec a b)
  | |- context [Z.eqb ?a ?b] => destruct (Z.eqb_spec a b)
  | |- context [Nat.ltb ?a ?b] => destruct (Nat.ltb_spec a b)
  | |- context [Nat.leb ?a ?b] => destruct (Nat.leb_spec a b)
  | |- context [Nat.eqb ?a ?b] => destruct (Nat.eqb_spec a b)
  | H : context [Z.leb ?a ?b] |- _ => destruct (Z.leb_spec a b)
  | H : context [Z.ltb ?a ?b] |- _ => destruct (Z.ltb_spec a b)
  | H : context [Z.eqb ?a ?b] |- _ => destruct (Z.eqb_spec a b)
  | H : context [Nat.ltb ?a ?b] |- _ => destruct (Nat.ltb_spec a b)
  | H : context [Nat.leb ?a ?b] |- _ => destruct (Nat.leb_spec a b)
  | H : context [Nat.eqb ?a ?b] |- _ => destruct (Nat.eqb_spec a b)
  end.

Ltac bcases := repeat (bcase; simpl in *; try lia; try done).

(** ** Integer lemmas *)

Lemma wrapu_range w x : 0 <= w -> is_uint w (wrapu w x).
Proof. intros. unfold is_uint, wrapu. apply Z.mod_pos_bound. lia. Qed.

Lemma wrapu_small w x : is_uint w x -> wrapu w x = x.
Proof. unfold is_uint, wrapu. intros. by apply Z.mod_small. Qed.

Lemma is_uint_mono w w' x : 0 <= w <= w' -> is_uint w x -> is_uint w' x.
Proof.
  unfold is_uint. intros Hw Hx. pose proof (Z.pow_le_mono_r 2 w w'). lia.
Qed.

(** Bit masks, shifts and disjoint ors as arithmetic. *)
Lemma land_mask n x : 0 <= n -> Z.land x (2 ^ n - 1) = x mod 2 ^ n.
Proof.
  intros. rewrite <- Z.land_ones by lia. by rewrite Z.ones_equiv, Z.sub_1_r.
Qed.

Lemma shiftr_div n x : 0 <= n -> Z.shiftr x n = x / 2 ^ n.
Proof. apply Z.shiftr_div_pow2. Qed.

Lemma shiftl_mul n x : 0 <= n -> Z.shiftl x n = x * 2 ^ n.
Proof. apply Z.shiftl_mul_pow2. Qed.

Lemma lor_disjoint a b n :
  0 <= n -> 0 <= a < 2 ^ n -> Z.lor a (b * 2 ^ n) = a + b * 2 ^ n.
Proof.
  intros Hn Ha.
  assert (Z.land a (b * 2 ^ n) = 0) as Hland.
  { apply Z.bits_inj'. intros i Hi. rewrite Z.land_spec, Z.bits_0.
    destruct (decide (i < n)).
    - by rewrite Z.mul_pow2_bits_low, andb_false_r by lia.
    - destruct (decide (a = 0)) as [->|]; [by rewrite Z.bits_0|].
      rewrite (Z.bits_above_log2 a i); [done|lia|].
      apply Z.log2_lt_pow2; [lia|]. apply Z.lt_le_trans with (2 ^ n); [lia|].
      apply Z.pow_le_mono_r; lia. }
  rewrite Z.add_nocarry_lxor by done. by rewrite Z.lxor_lor.
Qed.

Lemma lor_disjoint_r a b n :
  0 <= n -> 0 <= a < 2 ^ n -> Z.lor (b * 2 ^ n) a = b * 2 ^ n + a.
Proof. intros. rewrite Z.lor_comm, lor_disjoint by done. lia. Qed.

Lemma div_pow2_bound x w n :
  0 <= n <= w -> is_uint w x -> is_uint (w - n) (x / 2 ^ n).
Proof.
  unfold is_uint. intros Hn Hx. split; [apply Z.div_pos; lia|].
  apply Z.div_lt_upper_bound; [lia|]. rewrite <- Z.pow_add_r by lia.
  replace (n + (w - n)) with w by lia. lia.
Qed.

(** Bitwise operations stay in range. *)
Lemma is_uint_bits w x :
  0 <= w -> is_uint w x <-> 0 <= x /\ forall i, w <= i -> Z.testbit x i = false.
Proof.
  intros Hw. split.
  - intros [Hx Hlt]. split; [done|]. intros i Hi.
    destruct (decide (x = 0)) as [->|]; [apply Z.bits_0|].
    apply Z.bits_above_log2; [done|]. apply Z.log2_lt_pow2; [lia|].
    apply Z.lt_le_trans with (2 ^ w); [done|]. apply Z.pow_le_mono_r; lia.
  - intros [Hx Hbits]. split; [done|].
    destruct (decide (x < 2 ^ w)); [done|].
    destruct (decide (x = 0)) as [->|]; [lia|].
    assert (w <= Z.log2 x) by (apply Z.log2_le_pow2; lia).
    pose proof (Hbits (Z.log2 x) ltac:(done)) as Hf.
    rewrite Z.bit_log2 in Hf by lia. done.
Qed.

Lemma is_uint_lxor w x y : 0 <= w -> is_uint w x -> is_uint w y -> is_uint w (Z.lxor x y).
Proof.
  intros Hw. rewrite !is_uint_bits by done. intros [Hx Bx] [Hy By].
  split; [by apply Z.lxor_nonneg|]. intros i Hi. by rewrite Z.lxor_spec, Bx, By.
Qed.

Lemma is_uint_land w x y : 0 <= w -> 0 <= x -> is_uint w y -> is_uint w (Z.land x y).
Proof.
  intros Hw Hx. rewrite !is_uint_bits by done. intros [Hy By].
  split; [apply Z.land_nonneg; by left|]. intros i Hi. by rewrite Z.land_spec, By, andb_false_r.
Qed.

Lemma is_uint_lor w x y : 0 <= w -> is_uint w x -> is_uint w y -> is_uint w (Z.lor x y).
Proof.
  intros Hw. rewrite !is_uint_bits by done. intros [Hx Bx] [Hy By].
  split; [by apply Z.lor_nonneg|]. intros i Hi. by rewrite Z.lor_spec, Bx, By.
Qed.

Lemma is_uint_shiftr w x n : 0 <= w -> 0 <= n -> is_uint w x -> is_uint w (Z.shiftr x n).
Proof.
  intros Hw Hn. rewrite !is_uint_bits by done. intros [Hx Bx].
  split; [by apply Z.shiftr_nonneg|]. intros i Hi.
  rewrite Z.shiftr_spec by lia. apply Bx. lia.
Qed.

#[export] Hint Resolve wrapu_range wrapu_small is_uint_lxor is_uint_lor is_uint_shiftr : uint.

(** ** Lists *)

Lemma rev_replicate {A} n (x : A) : rev (replicate n x) = replicate n x.
Proof. rewrite rev_alt. apply reverse_replicate. Qed.

(** Cutting a list in chunks of [k] elements. *)
Definition chunk {A} (k : nat) (l : list A) (i : nat) : list A := take k (drop (i * k) l).

Lemma length_concat_uniform {A} (f : nat -> list A) k n :
  (forall i, (i < n)%nat -> length (f i) = k) ->
  length (concat (map f (seq 0 n))) = (n * k)%nat.
Proof.
  induction n as [|n IH]; intros Hf; [done|].
  rewrite seq_S, map_app, concat_app, length_app. cbn [map concat].
  rewrite IH by auto with lia. rewrite app_nil_r. cbn [Nat.add]. rewrite Hf by lia. lia.
Qed.

Lemma concat_chunks {A} (l : list A) k n :
  concat (map (chunk k l) (seq 0 n)) = take (n * k) l.
Proof.
  induction n as [|n IH]; [done|].
  rewrite seq_S, map_app, concat_app, IH. cbn [map concat Nat.add].
  rewrite app_nil_r. unfold chunk. rewrite take_take_drop. f_equal. lia.
Qed.

Lemma chunk_concat {A} (f : nat -> list A) k n t i :
  (forall j, (j < n)%nat -> length (f j) = k) -> (i < n)%nat ->
  chunk k (concat (map f (seq 0 n)) ++ t) i = f i.
Proof.
  intros Hf Hi. unfold chunk.
  replace n with (i + S (n - S i))%nat by lia.
  rewrite seq_app, map_app, concat_app. cbn [Nat.add seq map concat].
  rewrite <- !app_assoc.
  rewrite drop_app_length' by (rewrite (length_concat_uniform f k); auto with lia).
  apply take_app_length'. symmetry. apply Hf. done.
Qed.

Lemma length_chunk {A} k (l : list A) i :
  ((i + 1) * k <= length l)%nat -> length (chunk k l i) = k.
Proof. intros. unfold chunk. rewrite length_take, length_drop. lia. Qed.

(** ** Bytes *)

Lemma le_bytes_S n x : le_bytes (S n) x = x mod 256 :: le_bytes n (x / 256).
Proof. done. Qed.

Lemma le_value_cons b l : le_value (b :: l) = b + 256 * le_value l.
Proof. done. Qed.

Lemma length_le_bytes n x : length (le_bytes n x) = n.
Proof. revert x; induction n as [|n IH]; intros x; simpl; [done|]. by rewrite IH. Qed.

Lemma le_bytes_ok n x : bytes_ok (le_bytes n x).
Proof.
  revert x; induction n as [|n IH]; intros x; simpl; constructor; [zdm|apply IH].
Qed.

Lemma le_value_range l : bytes_ok l -> 0 <= le_value l < 256 ^ Z.of_nat (length l).
Proof.
  induction 1 as [|b l Hb Hl IH]; [simpl; lia|].
  cbn [le_value length]. rewrite Nat2Z.inj_succ, Z.pow_succ_r by lia.
  unfold is_uint in Hb. lia.
Qed.

Lemma le_value_bytes n x : 0 <= x < 256 ^ Z.of_nat n -> le_value (le_bytes n x) = x.
Proof.
  revert x; induction n as [|n IH]; intros x Hx; [simpl in *; lia|].
  cbn [le_value le_bytes]. rewrite Nat2Z.inj_succ, Z.pow_succ_r in Hx by lia.
  rewrite IH; [zdm|].
  split; [apply Z.div_pos; lia|]. apply Z.div_lt_upper_bound; lia.
Qed.

Lemma le_bytes_value l : bytes_ok l -> le_bytes (length l) (le_value l) = l.
Proof.
  induction 1 as [|b l Hb Hl IH]; [done|]. cbn [le_value le_bytes length].
  assert ((b + 256 * le_value l) / 256 = le_value l) as -> by zdm.
  rewrite IH. f_equal. zdm.
Qed.

Lemma length_be_bytes n x : length (be_bytes n x) = n.
Proof. unfold be_bytes. by rewrite length_rev, length_le_bytes. Qed.

Lemma bytes_ok_rev l : bytes_ok l -> bytes_ok (rev l).
Proof. unfold bytes_ok. apply Forall_rev. Qed.

Lemma be_bytes_ok n x : bytes_ok (be_bytes n x).
Proof. apply bytes_ok_rev, le_bytes_ok. Qed.

Lemma be_value_range l : bytes_ok l -> 0 <= be_value l < 256 ^ Z.of_nat (length l).
Proof.
  intros Hl. unfold be_value. rewrite <- (length_rev l).
  by apply le_value_range, bytes_ok_rev.
Qed.

Lemma be_value_bytes n x : 0 <= x < 256 ^ Z.of_nat n -> be_value (be_bytes n x) = x.
Proof. unfold be_value, be_bytes. rewrite rev_involutive. apply le_value_bytes. Qed.

Lemma be_bytes_value l : bytes_ok l -> be_bytes (length l) (be_value l) = l.
Proof.
  intros Hl. unfold be_value, be_bytes. rewrite <- (length_rev l).
  rewrite le_bytes_value by (by apply bytes_ok_rev). apply rev_involutive.
Qed.

(** A decidable property of one byte is proved by running it on all 256. *)
Lemma byte_forall (P : Z -> bool) :
  forallb P (seqZ 0 256) = true -> forall b, is_u8 b -> P b = true.
Proof.
  intros H b Hb. rewrite forallb_forall in H. apply H.
  apply list_elem_of_In, elem_of_seqZ. unfold is_uint in Hb. lia.
Qed.

(** ** Bitwise operations on byte buffers

    Masks, ors and shifts by whole bytes of a little-endian value act on the
    buffer byte by byte, which turns an endianness routine into a list
    computation. *)

Lemma testbit_split a b n i :
  0 <= n -> 0 <= a < 2 ^ n -> 0 <= i ->
  Z.testbit (a + b * 2 ^ n) i = if i <? n then Z.testbit a i else Z.testbit b (i - n).
Proof.
  intros Hn Ha Hi. rewrite <- lor_disjoint by done. rewrite Z.lor_spec.
  destruct (Z.ltb_spec i n).
  - by rewrite Z.mul_pow2_bits_low, orb_false_r by lia.
  - rewrite Z.mul_pow2_bits by lia.
    destruct (decide (a = 0)) as [->|]; [by rewrite Z.bits_0|].
    rewrite (Z.bits_above_log2 a i); [done|lia|].
    apply Z.log2_lt_pow2; [lia|]. apply Z.lt_le_trans with (2 ^ n); [lia|].
    apply Z.pow_le_mono_r; lia.
Qed.

Lemma land_split a b c d n :
  0 <= n -> 0 <= a < 2 ^ n -> 0 <= c < 2 ^ n ->
  Z.land (a + b * 2 ^ n) (c + d * 2 ^ n) = Z.land a c + Z.land b d * 2 ^ n.
Proof.
  intros Hn Ha Hc.
  assert (0 <= Z.land a c < 2 ^ n) as Hac.
  { rewrite <- (Z.mod_small a (2 ^ n)), <- Z.land_ones by done.
    rewrite <- Z.land_assoc, (Z.land_comm _ c), Z.land_assoc, Z.land_ones by done.
    apply Z.mod_pos_bound. lia. }
  apply Z.bits_inj'. intros i Hi. rewrite Z.land_spec, !testbit_split by done.
  bcase; by rewrite Z.land_spec.
Qed.

Lemma lor_split a b c d n :
  0 <= n -> 0 <= a < 2 ^ n -> 0 <= c < 2 ^ n ->
  Z.lor (a + b * 2 ^ n) (c + d * 2 ^ n) = Z.lor a c + Z.lor b d * 2 ^ n.
Proof.
  intros Hn Ha Hc.
  assert (0 <= Z.lor a c < 2 ^ n) as Hac.
  { rewrite <- (Z.mod_small a (2 ^ n)), <- (Z.mod_small c (2 ^ n)) by done.
    rewrite <- !Z.land_ones, <- Z.land_lor_distr_l, Z.land_ones by done.
    apply Z.mod_pos_bound. lia. }
  apply Z.bits_inj'. intros i Hi. rewrite Z.lor_spec, !testbit_split by done.
  bcase; by rewrite Z.lor_spec.
Qed.

Lemma le_value_land l m :
  bytes_ok l -> bytes_ok m -> length l = length m ->
  Z.land (le_value l) (le_value m) = le_value (zip_with Z.land l m).
Proof.
  intros Hl; revert m; induction Hl as [|b l Hb Hl IH]; intros m Hm Hlen;
    destruct Hm as [|c m Hc Hm]; try done.
  cbn [le_value zip_with]. rewrite !(Z.mul_comm 256). change 256 with (2 ^ 8).
  rewrite land_split by (done || lia). rewrite IH by (done || (simpl in *; lia)). lia.
Qed.

Lemma le_value_lor l m :
  bytes_ok l -> bytes_ok m -> length l = length m ->
  Z.lor (le_value l) (le_value m) = le_value (zip_with Z.lor l m).
Proof.
  intros Hl; revert m; induction Hl as [|b l Hb Hl IH]; intros m Hm Hlen;
    destruct Hm as [|c m Hc Hm]; try done.
  cbn [le_value zip_with]. rewrite !(Z.mul_comm 256). change 256 with (2 ^ 8).
  rewrite lor_split by (done || lia). rewrite IH by (done || (simpl in *; lia)). lia.
Qed.

Lemma le_value_app l m :
  le_value (l ++ m) = le_value l + 256 ^ Z.of_nat (length l) * le_value m.
Proof.
  induction l as [|b l IH]; cbn [le_value app length]; [lia|].
  rewrite IH, Nat2Z.inj_succ, Z.pow_succ_r by lia. ring.
Qed.

Lemma le_value_zeros n : le_value (replicate n 0) = 0.
Proof. induction n as [|n IH]; simpl; [done|]. by rewrite IH. Qed.

Lemma pow256 n : 256 ^ Z.of_nat n = 2 ^ (8 * Z.of_nat n).
Proof. by rewrite Z.pow_mul_r by lia. Qed.

Lemma le_value_shiftl l k :
  Z.shiftl (le_value l) (8 * Z.of_nat k) = le_value (replicate k 0 ++ l).
Proof.
  rewrite shiftl_mul by lia. rewrite le_value_app, le_value_zeros, length_replicate.
  rewrite pow256. lia.
Qed.

Lemma le_value_take_drop l k : (k <= length l)%nat ->
  le_value l = le_value (take k l) + 256 ^ Z.of_nat k * le_value (drop k l).
Proof.
  intros. rewrite <- (take_drop k l) at 1. rewrite le_value_app, length_take.
  by rewrite Nat.min_l by done.
Qed.

Lemma le_value_shiftr l k : bytes_ok l -> (k <= length l)%nat ->
  Z.shiftr (le_value l) (8 * Z.of_nat k) = le_value (drop k l).
Proof.
  intros Hl Hk. rewrite shiftr_div by lia. rewrite <- pow256.
  rewrite (le_value_take_drop l k Hk).
  pose proof (le_value_range (take k l) (Forall_take _ _ _ Hl)) as Hr.
  rewrite length_take, Nat.min_l in Hr by done.
  symmetry. apply Z.div_unique with (le_value (take k l)); lia.
Qed.

Lemma le_value_wrap l k : bytes_ok l -> (k <= length l)%nat ->
  wrapu (8 * Z.of_nat k) (le_value l) = le_value (take k l).
Proof.
  intros Hl Hk. unfold wrapu. rewrite <- pow256.
  rewrite (le_value_take_drop l k Hk) at 1.
  pose proof (le_value_range (take k l) (Forall_take _ _ _ Hl)) as Hr.
  rewrite length_take, Nat.min_l in Hr by done.
  symmetry. apply Z.mod_unique with (le_value (drop k l)); lia.
Qed.

Arguments le_value : simpl never.
Arguments le_bytes : simpl never.

(** ** Windows *)

(** The last [n] elements. *)
Definition lastn {A} (n : nat) (l : list A) : list A := drop (length l - n) l.

Lemma length_lastn {A} n (l : list A) : length (lastn n l) = Nat.min n (length l).
Proof. unfold lastn. rewrite length_drop. lia. Qed.

Lemma lastn_snoc {A} n (l : list A) x : lastn (S n) (l ++ [x]) = lastn n l ++ [x].
Proof.
  unfold lastn. rewrite length_app. cbn [length].
  rewrite drop_app_le by lia. f_equal. f_equal. lia.
Qed.

Lemma lastn_app_lastn {A} n (l m : list A) :
  (length m <= n)%nat -> lastn n (lastn n l ++ m) = lastn n (l ++ m).
Proof.
  intros Hm. unfold lastn. rewrite !length_app, length_drop.
  rewrite !drop_app. f_equal.
  - rewrite drop_drop. f_equal. lia.
  - f_equal. rewrite length_drop. lia.
Qed.

Lemma lastn_idem {A} n (l : list A) : lastn n (lastn n l) = lastn n l.
Proof. unfold lastn at 1. rewrite length_lastn. by replace (Nat.min n (length l) - n)%nat with 0%nat by lia. Qed.

Lemma lastn_nil {A} n (l : list A) : (0 < n)%nat -> lastn n l = [] -> l = [].
Proof. intros Hn E%(f_equal length). rewrite length_lastn in E. destruct l; [done|cbn in E; lia]. Qed.

Lemma lastn_min {A} n (l : list A) : lastn (Nat.min n (length l)) l = lastn n l.
Proof. unfold lastn. f_equal. lia. Qed.

Lemma map_lastn {A B} (f : A -> B) n l : map f (lastn n l) = lastn n (map f l).
Proof. unfold lastn. by rewrite length_map, skipn_map. Qed.

(** ** Sorted lists *)

Lemma sorted_nth (R : Z -> Z -> Prop) l i j :
  StronglySorted R l -> (i < j < length l)%nat -> R (nth i l 0) (nth j l 0).
Proof.
  intros Hl; revert i j; induction Hl as [|x l Hl IH Hx]; intros i j Hij; simpl in *; [lia|].
  destruct j as [|j]; [lia|]. destruct i as [|i].
  - rewrite Forall_forall in Hx. apply Hx, list_elem_of_In, nth_In. lia.
  - apply IH. lia.
Qed.

Lemma merge_sort_strongly l : StronglySorted Z.le (merge_sort Z.le l).
Proof. apply StronglySorted_merge_sort; apply _. Qed.

Lemma merge_sort_perm l l' : Permutation l l' -> merge_sort Z.le l = merge_sort Z.le l'.
Proof.
  intros Hp. apply (StronglySorted_unique Z.le); try apply merge_sort_strongly.
  by rewrite !merge_sort_Permutation.
Qed.

Lemma merge_sort_sorted l : StronglySorted Z.le l -> merge_sort Z.le l = l.
Proof.
  intros Hl. apply (StronglySorted_unique Z.le); [apply merge_sort_strongly|done|].
  apply merge_sort_Permutation.
Qed.

Lemma nth_insert {A} (l : list A) i j x d : (i < length l)%nat -> nth j (<[i := x]> l) d = if decide (i = j) then x else nth j l d.
Proof.
  intros Hi. rewrite !nth_lookup. destruct (decide (i = j)) as [->|Hne]; [by rewrite list_lookup_insert_eq|by rewrite list_lookup_insert_ne].
Qed.
