(* ===== verification/Config.v ===== *)
(** * Protocol constants

    The constants of [src/cryptonote_config.h] the modelled components use,
    with the names of the source. *)

From S2P Require Import Prelude.

(** ** Definitions *)

Definition CRYPTONOTE_MAX_BLOCK_NUMBER : Z := 500000000.
Definition CRYPTONOTE_MAX_TX_SIZE : Z := 1000000.
Definition CRYPTONOTE_MINED_MONEY_UNLOCK_WINDOW : Z := 60.
Definition CRYPTONOTE_BLOCK_FUTURE_TIME_LIMIT : Z := 60 * 60 * 2.
Definition CRYPTONOTE_DEFAULT_TX_SPENDABLE_AGE : Z := 10.
Definition BLOCKCHAIN_TIMESTAMP_CHECK_WINDOW : nat := 60.

Definition MONEY_SUPPLY : Z := 2 ^ 64 - 1.
Definition EMISSION_SPEED_FACTOR_PER_MINUTE : Z := 20.
Definition FINAL_SUBSIDY_PER_MINUTE : Z := 300000000000.

Definition CRYPTONOTE_REWARD_BLOCKS_WINDOW : Z := 100.
Definition CRYPTONOTE_BLOCK_GRANTED_FULL_REWARD_ZONE_V2 : Z := 60000.
Definition CRYPTONOTE_BLOCK_GRANTED_FULL_REWARD_ZONE_V1 : Z := 20000.
Definition CRYPTONOTE_BLOCK_GRANTED_FULL_REWARD_ZONE_V5 : Z := 300000.
Definition CRYPTONOTE_LONG_TERM_BLOCK_WEIGHT_WINDOW_SIZE : Z := 100000.
Definition CRYPTONOTE_SHORT_TERM_BLOCK_WEIGHT_SURGE_FACTOR : Z := 50.
Definition CRYPTONOTE_COINBASE_BLOB_RESERVED_SIZE : Z := 600.

Definition FEE_PER_KB : Z := 2000000000.
Definition FEE_PER_BYTE : Z := 300000.
Definition DYNAMIC_FEE_PER_KB_BASE_FEE : Z := 2000000000.
Definition DYNAMIC_FEE_PER_KB_BASE_BLOCK_REWARD : Z := 10000000000000.
Definition DYNAMIC_FEE_PER_KB_BASE_FEE_V5 : Z :=
  2000000000 * CRYPTONOTE_BLOCK_GRANTED_FULL_REWARD_ZONE_V2
    / CRYPTONOTE_BLOCK_GRANTED_FULL_REWARD_ZONE_V5.
Definition DYNAMIC_FEE_REFERENCE_TRANSACTION_WEIGHT : Z := 3000.

Definition DIFFICULTY_TARGET_V2 : Z := 120.
Definition DIFFICULTY_TARGET_V1 : Z := 60.
Definition DIFFICULTY_WINDOW : nat := 720.
Definition DIFFICULTY_LAG : nat := 15.
Definition DIFFICULTY_CUT : nat := 60.
Definition DIFFICULTY_BLOCKS_COUNT : nat := DIFFICULTY_WINDOW + DIFFICULTY_LAG.

Definition CRYPTONOTE_LOCKED_TX_ALLOWED_DELTA_BLOCKS : Z := 1.
Definition CRYPTONOTE_LOCKED_TX_ALLOWED_DELTA_SECONDS_V1 : Z :=
  DIFFICULTY_TARGET_V1 * CRYPTONOTE_LOCKED_TX_ALLOWED_DELTA_BLOCKS.
Definition CRYPTONOTE_LOCKED_TX_ALLOWED_DELTA_SECONDS_V2 : Z :=
  DIFFICULTY_TARGET_V2 * CRYPTONOTE_LOCKED_TX_ALLOWED_DELTA_BLOCKS.

Definition CRYPTONOTE_MEMPOOL_TX_LIVETIME : Z := 86400 * 3.
Definition CRYPTONOTE_MEMPOOL_TX_FROM_ALT_BLOCK_LIVETIME : Z := 604800.
Definition DEFAULT_TXPOOL_MAX_WEIGHT : Z := 648000000.

Definition HF_VERSION_DYNAMIC_FEE : Z := 4.
Definition HF_VERSION_PER_BYTE_FEE : Z := 8.
Definition HF_VERSION_LONG_TERM_BLOCK_WEIGHT : Z := 10.
Definition HF_VERSION_MIN_V2_COINBASE_TX : Z := 12.
Definition HF_VERSION_REJECT_SIGS_IN_COINBASE : Z := 12.
Definition HF_VERSION_EFFECTIVE_SHORT_TERM_MEDIAN_IN_PENALTY : Z := 12.
Definition HF_VERSION_EXACT_COINBASE : Z := 13.
Definition HF_VERSION_DETERMINISTIC_UNLOCK_TIME : Z := 13.
Definition HF_VERSION_SMALLER_BP : Z := 10.
Definition HF_VERSION_CLSAG : Z := 13.
Definition HF_VERSION_BULLETPROOF_PLUS : Z := 15.
Definition HF_VERSION_VIEW_TAGS : Z := 15.
Definition HF_VERSION_2021_SCALING : Z := 15.

Definition PER_KB_FEE_QUANTIZATION_DECIMALS : Z := 8.
Definition CRYPTONOTE_SCALING_2021_FEE_ROUNDING_PLACES : Z := 2.

Definition BULLETPROOF_MAX_OUTPUTS : Z := 16.
Definition BULLETPROOF_PLUS_MAX_OUTPUTS : Z := 16.

Definition CRYPTONOTE_PRUNING_STRIPE_SIZE : Z := 4096.
Definition CRYPTONOTE_PRUNING_LOG_STRIPES : Z := 3.
Definition CRYPTONOTE_PRUNING_TIP_BLOCKS : Z := 5500.

Definition MAX_TX_EXTRA_SIZE : Z := 1060.
Definition BASE_REWARD_CLAMP_THRESHOLD : Z := 100000000.
