(* ===== verification/Varint.v ===== *)
(** * Variable-length integers

    [src/common/varint.h]: the base-128 encoding every serialised integer of
    the program goes through.  [write_varint], [get_varint_data], the
    [read_varint] template and [get_varint_byte_size] are translated loop by
    loop; the theorems give the round trip, canonicity (the decoder only
    accepts the encoder's output, or input that ends within a number) and the size function. *)

From S2P Require Import Prelude.

Definition EVARINT_OVERFLOW : Z := -1.
Definition EVARINT_REPRESENT : Z := -2.

(** ** Definitions *)

(** [write_varint(dest, i)]: the state is the output so far and [i]. *)
Definition write_varint_step (s : list Z * Z) : list Z * Z :=
  let '(dest, i) := s in
  (dest ++ [Z.lor (Z.land (u8 i) 0x7f) 0x80], Z.shiftr i 7).

Definition write_varint_more (s : list Z * Z) : bool := 0x80 <=? snd s.

(** The loop shifts by 7 each round, so [Z.log2 i] rounds are enough
    ([write_varint_total]). *)
Definition write_varint (i : Z) : option (list Z) :=
  match while_fuel write_varint_more write_varint_step (Z.to_nat (Z.log2 i)) ([], i) with
  | Some (dest, i') => Some (dest ++ [u8 i'])
  | None => None
  end.

Definition get_varint_data (v : Z) : option (list Z) := write_varint v.

(** [read_varint<bits>(first, last, write)] for a [T] of [digits] binary
    digits: the return code, the value written and the input left. *)
Fixpoint read_varint_loop (bits digits shift read write : Z) (input : list Z)
    : Z * Z * list Z :=
  match input with
  | [] => (read, write, [])
  | byte :: rest =>
      let read := read + 1 in
      if (bits <=? shift + 7) && (Z.shiftl 1 (bits - shift) <=? byte)
      then (EVARINT_OVERFLOW, write, rest)
      else if (byte =? 0) && negb (shift =? 0)
      then (EVARINT_REPRESENT, write, rest)
      else
        let write := Z.lor write (wrapu digits (Z.shiftl (Z.land byte 0x7f) shift)) in
        if Z.land byte 0x80 =? 0
        then (read, write, rest)
        else read_varint_loop bits digits (shift + 7) read write rest
  end.

Definition read_varint_bits (bits digits : Z) (input : list Z) : Z * Z * list Z :=
  read_varint_loop bits digits 0 0 0 input.

Definition read_varint (digits : Z) (input : list Z) : Z * Z * list Z :=
  read_varint_bits digits digits input.

(** [get_varint_byte_size(val)]: a [do ... while (val)] loop. *)
Definition get_varint_byte_size (val : Z) : option Z :=
  let step (s : Z * Z) := let '(bytes, val) := s in (bytes + 1, Z.shiftr val 7) in
  match while_fuel (fun s : Z * Z => negb (snd s =? 0)) step
          (Z.to_nat (Z.log2 val)) (step (0, val)) with
  | Some (bytes, _) => Some bytes
  | None => None
  end.

(** The reference encoding: base-128 digits, least significant first, with
    the continuation bit on every digit but the last. *)
Fixpoint varint_spec (fuel : nat) (i : Z) : list Z :=
  match fuel with
  | O => [i]
  | S fuel' => if i <? 128 then [i] else (i mod 128 + 128) :: varint_spec fuel' (i / 128)
  end.

Definition varint_ref (i : Z) : list Z := varint_spec (Z.to_nat (Z.log2 i)) i.

(** The value of a varint without its end: only digits with the continuation
    bit. *)
Definition cut_value (c : list Z) : Z := foldr (fun b v => b - 128 + 128 * v) 0 c.

(** ** The writer *)

Lemma log2_shift7 i : 128 <= i -> Z.log2 (i / 128) = Z.log2 i - 7.
Proof.
  intros Hi. change 128 with (2 ^ 7). rewrite <- Z.shiftr_div_pow2 by lia.
  rewrite Z.log2_shiftr by lia.
  assert (7 <= Z.log2 i) by (apply Z.log2_le_pow2; simpl; lia). lia.
Qed.

Lemma write_byte_eq i : Z.lor (Z.land (u8 i) 0x7f) 0x80 = i mod 128 + 128.
Proof.
  change 0x7f with (2 ^ 7 - 1). rewrite land_mask by lia.
  change 0x80 with (1 * 2 ^ 7). rewrite lor_disjoint by zdm. zdm.
Qed.

Lemma write_varint_loop_spec fuel dest i :
  0 <= i -> (Z.to_nat (Z.log2 i) <= fuel)%nat ->
  match while_fuel write_varint_more write_varint_step fuel (dest, i) with
  | Some (dest', i') => dest' ++ [u8 i'] = dest ++ varint_spec fuel i
  | None => False
  end.
Proof.
  revert dest i; induction fuel as [|fuel IH]; intros dest i Hi Hf; simpl;
    unfold write_varint_more at 1; simpl.
  - assert (i < 128).
    { destruct (decide (i < 128)); [done|].
      assert (7 <= Z.log2 i) by (apply Z.log2_le_pow2; simpl; lia). lia. }
    bcases. f_equal. f_equal. zdm.
  - destruct (Z.leb_spec 128 i), (Z.ltb_spec i 128); try lia.
    + rewrite write_byte_eq, shiftr_div by lia. change (2 ^ 7) with 128.
      specialize (IH (dest ++ [i mod 128 + 128]) (i / 128)).
      rewrite log2_shift7 in IH by lia.
      specialize (IH ltac:(zdm) ltac:(lia)).
      destruct (while_fuel _ _ _ _) as [[]|]; [|done]. by rewrite IH, <- app_assoc.
    + f_equal. f_equal. zdm.
Qed.

Lemma write_varint_ref i : 0 <= i -> write_varint i = Some (varint_ref i).
Proof.
  intros Hi. unfold write_varint, varint_ref.
  pose proof (write_varint_loop_spec (Z.to_nat (Z.log2 i)) [] i Hi (le_n _)) as H.
  destruct (while_fuel _ _ _ _) as [[]|]; [|done]. simpl in H. by rewrite H.
Qed.

(** ** The reader *)

Lemma byte_msb_clear b : is_u8 b -> (Z.land b 0x80 =? 0) = (b <? 128).
Proof.
  intros Hb. apply Bool.eqb_prop.
  by apply (byte_forall (fun b => Bool.eqb (Z.land b 0x80 =? 0) (b <? 128))).
Qed.

(** One round of the reader on a byte that passes both checks. *)
Lemma read_varint_loop_step bits digits shift read w b rest :
  is_u8 b -> 0 <= shift -> 0 <= w < 2 ^ shift -> bits <= digits ->
  shift < bits ->
  (bits <= shift + 7 -> b < 2 ^ (bits - shift)) -> (shift <> 0 -> b <> 0) ->
  read_varint_loop bits digits shift read w (b :: rest) =
    if b <? 128 then (read + 1, w + b * 2 ^ shift, rest)
    else read_varint_loop bits digits (shift + 7) (read + 1) (w + (b - 128) * 2 ^ shift) rest.
Proof.
  intros Hb Hs Hw Hd Hsb Hov Hz. cbn [read_varint_loop].
  rewrite shiftl_mul, Z.mul_1_l, byte_msb_clear by (done || lia).
  assert (b mod 128 * 2 ^ shift < 2 ^ digits) as Hfit.
  { destruct (decide (bits <= shift + 7)) as [Hle|Hgt].
    - specialize (Hov Hle).
      assert (2 ^ bits = 2 ^ (bits - shift) * 2 ^ shift) as Hp
        by (rewrite <- Z.pow_add_r by lia; f_equal; lia).
      pose proof (Z.pow_le_mono_r 2 bits digits). assert (b mod 128 <= b) by zdm. nia.
    - pose proof (Z.pow_le_mono_r 2 (shift + 7) digits) as Hp.
      rewrite Z.pow_add_r in Hp by lia. assert (b mod 128 < 2 ^ 7) by zdm. nia. }
  replace ((bits <=? shift + 7) && (2 ^ (bits - shift) <=? b)) with false
    by (symmetry; apply andb_false_iff; bcases; lia).
  replace ((b =? 0) && negb (shift =? 0)) with false
    by (symmetry; apply andb_false_iff; rewrite negb_false_iff; bcases; lia).
  change 0x7f with (2 ^ 7 - 1). rewrite land_mask, shiftl_mul by lia.
  change (2 ^ 7) with 128.
  rewrite wrapu_small by (unfold is_uint; split; [|done]; zdm).
  rewrite lor_disjoint by done.
  destruct (Z.ltb_spec b 128); do 2 f_equal; f_equal; f_equal; zdm.
Qed.

(** What a decoded prefix means: the bytes consumed are the encoding of the
    value they denote, at a position [shift] bits up. *)
Lemma read_varint_spec fuel bits digits shift read w i rest :
  0 <= i -> (Z.to_nat (Z.log2 i) <= fuel)%nat ->
  0 <= shift -> 0 <= w < 2 ^ shift -> bits <= digits -> shift < bits ->
  (shift <> 0 -> i <> 0) -> i < 2 ^ (bits - shift) ->
  read_varint_loop bits digits shift read w (varint_spec fuel i ++ rest) =
    (read + Z.of_nat (length (varint_spec fuel i)), w + i * 2 ^ shift, rest).
Proof.
  revert shift read w i; induction fuel as [|fuel IH];
    intros shift read w i Hi Hf Hs Hw Hd Hsb Hz Hfit; cbn [varint_spec].
  - assert (i < 128).
    { destruct (decide (i < 128)); [done|].
      assert (7 <= Z.log2 i) by (apply Z.log2_le_pow2; simpl; lia). lia. }
    cbn [app length]. rewrite read_varint_loop_step by (done || zdm). bcases.
  - destruct (Z.ltb_spec i 128).
    { cbn [app length]. rewrite read_varint_loop_step by (done || zdm). bcases. }
    assert (7 < bits - shift) as Hroom.
    { destruct (decide (bits - shift <= 7)); [|lia].
      pose proof (Z.pow_le_mono_r 2 (bits - shift) 7). lia. }
    cbn [app length]. rewrite read_varint_loop_step by (done || zdm).
    replace (i mod 128 + 128 <? 128) with false by (symmetry; zdm).
    rewrite IH; try (done || zdm).
    + f_equal. f_equal; [lia|]. rewrite Z.pow_add_r by lia.
      assert (i = 128 * (i / 128) + i mod 128) by zdm. nia.
    + rewrite log2_shift7 by lia. lia.
    + rewrite Z.pow_add_r by lia. assert (0 <= i mod 128 < 128) by zdm. nia.
    + replace (bits - (shift + 7)) with (bits - shift - 7) by lia.
      apply Z.div_lt_upper_bound; [lia|]. change 128 with (2 ^ 7).
      rewrite <- Z.pow_add_r by lia. by replace (7 + (bits - shift - 7)) with (bits - shift) by lia.
Qed.

(** The reference encoding does not depend on the fuel. *)
Lemma varint_spec_ref fuel i :
  0 <= i -> (Z.to_nat (Z.log2 i) <= fuel)%nat -> varint_spec fuel i = varint_ref i.
Proof.
  intros Hi Hf.
  pose proof (write_varint_loop_spec fuel [] i Hi Hf) as H1.
  pose proof (write_varint_loop_spec (Z.to_nat (Z.log2 i)) [] i Hi (le_n _)) as H2.
  destruct (while_fuel _ _ (Z.to_nat _) _) as [[]|] eqn:Hw; [|done].
  rewrite (while_fuel_mono _ _ _ _ _ _ Hf Hw) in H1. unfold varint_ref.
  simpl in H1, H2. congruence.
Qed.

Lemma varint_ref_small i : 0 <= i < 128 -> varint_ref i = [i].
Proof.
  intros Hi. unfold varint_ref. destruct (Z.to_nat (Z.log2 i)); simpl; [done|].
  by destruct (Z.ltb_spec i 128); [|lia].
Qed.

Lemma varint_ref_big i :
  128 <= i -> varint_ref i = (i mod 128 + 128) :: varint_ref (i / 128).
Proof.
  intros Hi. unfold varint_ref at 1.
  assert (7 <= Z.log2 i) by (apply Z.log2_le_pow2; simpl; lia).
  destruct (Z.to_nat (Z.log2 i)) as [|fuel] eqn:Hf; [lia|]. simpl.
  destruct (Z.ltb_spec i 128); [lia|].
  rewrite varint_spec_ref; [done|zdm|]. rewrite log2_shift7; lia.
Qed.

Lemma read_varint_loop_inv bits digits shift read w input n v rest :
  bytes_ok input -> 0 <= shift -> 0 <= w < 2 ^ shift -> bits <= digits -> shift < bits ->
  0 <= read -> read_varint_loop bits digits shift read w input = (n, v, rest) -> 0 <= n ->
  exists c i, input = c ++ rest /\ n = read + Z.of_nat (length c) /\
    v = w + i * 2 ^ shift /\ 0 <= i < 2 ^ (bits - shift) /\
    ((c = varint_ref i /\ (shift <> 0 -> i <> 0)) \/
     (rest = [] /\ Forall (Z.le 128) c /\ i = cut_value c /\ shift + 7 * Z.of_nat (length c) < bits)).
Proof.
  revert shift read w; induction input as [|b input IH];
    intros shift read w Hin Hs Hw Hd Hsb Hr Hrd Hn.
  { simpl in Hrd. simplify_eq. exists [], 0. simpl. split_and!; try lia; try done. right. split_and!; [done|done|done|lia]. }
  inversion Hin as [|? ? Hb Hin']; subst.
  destruct (decide (bits <= shift + 7 /\ 2 ^ (bits - shift) <= b)) as [[H1 H2]|Hov].
  { cbn [read_varint_loop] in Hrd. rewrite shiftl_mul, Z.mul_1_l in Hrd by lia.
    rewrite (proj2 (Z.leb_le _ _) H1), (proj2 (Z.leb_le _ _) H2) in Hrd.
    simpl in Hrd. unfold EVARINT_OVERFLOW in *. simplify_eq; lia. }
  destruct (decide (b = 0 /\ shift <> 0)) as [[-> Hs0]|Hz].
  { cbn [read_varint_loop] in Hrd. rewrite shiftl_mul, Z.mul_1_l in Hrd by lia.
    rewrite (proj2 (Z.leb_gt (2 ^ (bits - shift)) 0)), andb_false_r in Hrd by lia.
    rewrite (proj2 (Z.eqb_neq shift 0) Hs0) in Hrd.
    simpl in Hrd. unfold EVARINT_REPRESENT in *. simplify_eq; lia. }
  rewrite read_varint_loop_step in Hrd by (done || lia).
  destruct (Z.ltb_spec b 128) as [Hlt|Hge].
  - simplify_eq. exists [b], b. rewrite varint_ref_small by zdm. split_and!; try (done || zdm).
    + destruct (decide (bits <= shift + 7)); [lia|].
      pose proof (Z.pow_le_mono_r 2 7 (bits - shift)). lia.
    + left. split; [done|]. intros ? ->. apply Hz. lia.
  - assert (shift + 7 < bits) as Hroom.
    { destruct (decide (bits <= shift + 7)); [|lia].
      pose proof (Z.pow_le_mono_r 2 (bits - shift) 7). lia. }
    assert (0 <= b - 128 < 128) as Hb7 by zdm.
    assert (0 < 2 ^ shift) by lia.
    apply IH in Hrd as (c & i & -> & -> & -> & Hi & Hc); try (done || lia).
    2: { rewrite Z.pow_add_r by lia. nia. }
    exists (b :: c), (b - 128 + 128 * i).
    rewrite Z.pow_add_r in * by lia. change (2 ^ 7) with 128 in *.
    replace (2 ^ (bits - shift)) with (128 * 2 ^ (bits - (shift + 7)))
      by (change 128 with (2 ^ 7); rewrite <- Z.pow_add_r by lia; f_equal; lia).
    split_and!; try (done || nia); [simpl; lia|].
    destruct Hc as [[-> Hi0]|(-> & Hc & -> & Hl)]; [left|right; cbn [cut_value foldr length]; split_and!; [done|by constructor|done|lia]].
    specialize (Hi0 ltac:(lia)). split; [|lia].
    rewrite (varint_ref_big (b - 128 + 128 * i)) by lia. f_equal; [zdm|]. f_equal. zdm.
Qed.

(** ** The size function *)

Lemma byte_size_loop fuel bytes val :
  0 <= val -> (Z.to_nat (Z.log2 val) <= fuel)%nat ->
  while_fuel (fun s : Z * Z => negb (snd s =? 0))
    (fun s : Z * Z => let '(bytes, val) := s in (bytes + 1, Z.shiftr val 7)) fuel
    (bytes + 1, Z.shiftr val 7)
  = Some (bytes + Z.of_nat (length (varint_ref val)), 0).
Proof.
  revert bytes val; induction fuel as [|fuel IH]; intros bytes val Hv Hf;
    rewrite shiftr_div by lia; change (2 ^ 7) with 128;
    destruct (decide (val < 128)) as [Hlt|Hge];
    try (rewrite Z.div_small, varint_ref_small by lia; done).
  - assert (7 <= Z.log2 val) by (apply Z.log2_le_pow2; simpl; lia). lia.
  - cbn [while_fuel snd]. replace (val / 128 =? 0) with false by (symmetry; zdm).
    cbn [negb]. rewrite IH; [|zdm|rewrite log2_shift7; lia].
    rewrite (varint_ref_big val) by lia. cbn [length]. f_equal. f_equal. lia.
Qed.

(** ** The codec on the reference encoding, for the components that use it *)

Lemma varint_ref_ok i : 0 <= i -> bytes_ok (varint_ref i).
Proof.
  intros Hi. induction (Z.lt_wf 0 i) as [i _ IH].
  destruct (decide (i < 128)).
  - rewrite varint_ref_small by lia. constructor; [zdm|constructor].
  - rewrite varint_ref_big by lia. constructor; [zdm|]. apply IH; zdm.
Qed.

(** The last digit has no continuation bit, and is 0 only for 0. *)
Lemma varint_ref_last i : 0 <= i -> exists e d, varint_ref i = e ++ [d] /\ 0 <= d < 128 /\ (d = 0 -> i = 0).
Proof.
  intros Hi. induction (Z.lt_wf 0 i) as [i _ IH]. destruct (decide (i < 128)).
  - exists [], i. rewrite varint_ref_small by lia. split; [done|]. split; [lia|done].
  - rewrite varint_ref_big by lia. destruct (IH (i / 128)) as (e & d & -> & Hd & Hz); [zdm|zdm|].
    exists ((i mod 128 + 128) :: e), d. split; [done|]. split; [done|]. intros Hd0. specialize (Hz Hd0). zdm.
Qed.

Lemma varint_ref_nonempty i : (0 < length (varint_ref i))%nat.
Proof.
  unfold varint_ref. destruct (Z.to_nat (Z.log2 i)); simpl; [lia|]. case_match; simpl; lia.
Qed.

Lemma read_varint_ref digits i rest :
  0 < digits -> is_uint digits i ->
  read_varint digits (varint_ref i ++ rest) = (Z.of_nat (length (varint_ref i)), i, rest) /\
  write_varint i = Some (varint_ref i).
Proof.
  intros Hd [Hi Hlt]. split; [|by apply write_varint_ref].
  unfold read_varint, read_varint_bits. rewrite <- (varint_spec_ref _ i Hi (le_n _)).
  rewrite read_varint_spec by (done || lia || (rewrite Z.sub_0_r; done)).
  by rewrite Z.pow_0_r, Z.mul_1_r.
Qed.

Lemma read_varint_consumed digits input n v rest :
  0 < digits -> bytes_ok input -> read_varint digits input = (n, v, rest) -> 0 < n ->
  is_uint digits v /\
  exists c, input = c ++ rest /\ Z.of_nat (length c) = n /\
    (c = varint_ref v \/ (rest = [] /\ Forall (Z.le 128) c /\ v = cut_value c /\ 7 * Z.of_nat (length c) < digits)).
Proof.
  intros Hd Hin Hr Hn.
  apply read_varint_loop_inv in Hr as (c & i & -> & -> & -> & Hi & Hc);
    try (done || lia).
  rewrite Z.pow_0_r, Z.mul_1_r, Z.sub_0_r in *. split; [done|].
  exists c. split_and!; try (done || lia).
  destruct Hc as [[-> _]|]; [by left|by right].
Qed.

(** ** Properties *)

(** Varint round trip: what [write_varint] emits for a value of an unsigned
    type of [digits] bits, [read_varint] reads back in full, consuming
    exactly those bytes. *)
Theorem varint_roundtrip digits i rest :
  0 < digits -> is_uint digits i ->
  exists enc, write_varint i = Some enc /\
    read_varint digits (enc ++ rest) = (Z.of_nat (length enc), i, rest).
Proof.
  intros Hd Hi. exists (varint_ref i). by destruct (read_varint_ref digits i rest).
Qed.

Lemma varint_roundtrip_witness :
  exists enc, write_varint 300 = Some enc /\
    read_varint 64 (enc ++ [7]) = (Z.of_nat (length enc), 300, [7]).
Proof. apply (varint_roundtrip 64 300 [7]); [lia|by vm_compute]. Defined.

(** Canonicity: whenever [read_varint] reports [n > 0] bytes read, the value
    fits the type, the [n] bytes are a prefix of the input, and they are the
    one encoding [write_varint] produces for the value unless the input ended
    before a byte without a continuation bit. *)
Theorem read_varint_canonical digits input n v rest :
  0 < digits -> bytes_ok input -> read_varint digits input = (n, v, rest) -> 0 < n ->
  is_uint digits v /\
  exists c, input = c ++ rest /\ Z.of_nat (length c) = n /\
    (write_varint v = Some c \/ (rest = [] /\ Forall (Z.le 128) c)).
Proof.
  intros Hd Hin Hr Hn.
  destruct (read_varint_consumed digits input n v rest Hd Hin Hr Hn) as (Hv & c & -> & Hl & Hc).
  split; [done|]. exists c. split_and!; try done.
  destruct Hc as [->|(-> & Hc & _)]; [left|by right]. apply write_varint_ref. unfold is_uint in Hv. lia.
Qed.

Lemma read_varint_canonical_witness :
  is_uint 64 300 /\
  exists c, [172; 2; 9] = c ++ [9] /\ Z.of_nat (length c) = 2 /\
    (write_varint 300 = Some c \/ ([9] = [] /\ Forall (Z.le 128) c)).
Proof.
  apply (read_varint_canonical 64 [172; 2; 9] 2 300 [9]);
    [lia | by vm_compute; repeat constructor | by vm_compute | lia].
Defined.

(** [get_varint_byte_size] terminates and returns the number of bytes
    [write_varint] emits. *)
Theorem get_varint_byte_size_spec val :
  0 <= val ->
  exists enc, write_varint val = Some enc /\
    get_varint_byte_size val = Some (Z.of_nat (length enc)).
Proof.
  intros Hv. exists (varint_ref val). split; [by apply write_varint_ref|].
  unfold get_varint_byte_size. rewrite byte_size_loop by (done || lia).
  done.
Qed.

Lemma get_varint_byte_size_witness :
  exists enc, write_varint 16384 = Some enc /\
    get_varint_byte_size 16384 = Some (Z.of_nat (length enc)).
Proof. apply (get_varint_byte_size_spec 16384). lia. Defined.
