(* ===== verification/BinaryArchive.v ===== *)
(** * Binary archives

    [src/serialization]: the byte format of consensus objects.  A C++ type
    describes its format once ([BEGIN_SERIALIZE ... FIELD ... END_SERIALIZE],
    a function template over the direction), and the description is run by
    [binary_archive<true>] to write and by [binary_archive<false>] to read.
    A [codec] is such a description: the writer and the reader it yields,
    and what survives of a value that is written and read back (a few
    members are not serialized and are rebuilt by the caller).

    [good_] is never set again once it is false, and every composite reader
    tests it before it returns, so a failed archive is [None]. *)

From S2P Require Import Prelude Varint.

(** ** Definitions *)

Record codec (A : Type) := Codec {
  enc : A -> option (list Z);
  dec : list Z -> option (A * list Z);
  norm : A -> A;
}.
Arguments Codec {A}.
Arguments enc {A}.
Arguments dec {A}.
Arguments norm {A}.

(** *** Primitives

    A value outside the C++ type (a key that is not 32 bytes, a number out
    of range) has no encoding. *)

(** [serialize_blob] of [n] bytes. *)
Definition serialize_blob (n : nat) : codec (list Z) := {|
  enc buf := if decide (length buf = n /\ bytes_ok buf) then Some buf else None;
  dec bytes :=
    if (length bytes <? n)%nat then None else Some (take n bytes, drop n bytes);
  norm buf := buf;
|}.

(** [serialize_uint] of a type of [n] bytes, little endian. *)
Fixpoint put_uint (n : nat) (v : Z) : list Z :=
  match n with O => [] | S n' => Z.land v 0xff :: put_uint n' (Z.shiftr v 8) end.

Definition serialize_uint (n : nat) : codec Z := {|
  enc v := if decide (is_uint (8 * Z.of_nat n) v) then Some (put_uint n v) else None;
  dec bytes :=
    if (length bytes <? n)%nat then None else Some (le_value (take n bytes), drop n bytes);
  norm v := v;
|}.

(** [serialize_uvarint] of a type of [w] bits. *)
Definition serialize_varint (w : Z) : codec Z := {|
  enc v := if decide (is_uint w v) then write_varint v else None;
  dec bytes :=
    let '(read, v, current) := read_varint w bytes in
    if 1 <=? read then Some (v, current) else None;
  norm v := v;
|}.

(** *** Combinators *)

(** Nothing to do. *)
Definition c_unit : codec unit := {|
  enc _ := Some []; dec bytes := Some (tt, bytes); norm _ := tt
|}.

(** One field, then the rest, whose format may depend on the field. *)
Definition c_dep {A B} (ca : codec A) (cb : A -> codec B) : codec (A * B) := {|
  enc ab := x ← enc ca (fst ab); y ← enc (cb (fst ab)) (snd ab); Some (x ++ y);
  dec bytes := '(a, bytes) ← dec ca bytes; '(b, bytes) ← dec (cb a) bytes; Some ((a, b), bytes);
  norm ab := (norm ca (fst ab), norm (cb (fst ab)) (snd ab));
|}.

Definition c_pair {A B} (ca : codec A) (cb : codec B) : codec (A * B) := c_dep ca (fun _ => cb).

(** The members of a struct as a tuple: [to] lists them, [mk] builds the
    struct read.  [to] is partial where the struct is one case of a variant. *)
Definition c_map {A B} (to : B -> option A) (mk : A -> B) (c : codec A) : codec B := {|
  enc b := a ← to b; enc c a;
  dec bytes := '(a, bytes) ← dec c bytes; Some (mk a, bytes);
  norm b := match to b with Some a => mk (norm c a) | None => b end;
|}.

(** [if (!p) return false]. *)
Definition c_guard {A} (p : A -> bool) (c : codec A) : codec A := {|
  enc a := if p a then enc c a else None;
  dec bytes := '(a, bytes) ← dec c bytes; if p a then Some (a, bytes) else None;
  norm := norm c;
|}.

(** A value whose format is chosen by a part of it that is written first:
    the tag of a variant. *)
Definition c_bind {A B} (get : B -> A) (ca : codec A) (cb : A -> codec B) : codec B := {|
  enc b := x ← enc ca (get b); y ← enc (cb (get b)) b; Some (x ++ y);
  dec bytes := '(a, bytes) ← dec ca bytes; dec (cb a) bytes;
  norm b := norm (cb (get b)) b;
|}.

(** No such case of a variant: [ar.set_fail(); return false]. *)
Definition c_fail {A} : codec A := {|
  enc _ := None; dec _ := None; norm a := a
|}.

(** [n] elements in a row, the vector resized to [n] before it is read and
    its size tested before it is written. *)
Fixpoint enc_list {A} (c : codec A) (l : list A) : option (list Z) :=
  match l with
  | [] => Some []
  | a :: l' => x ← enc c a; y ← enc_list c l'; Some (x ++ y)
  end.

Fixpoint dec_list {A} (c : codec A) (n : nat) (bytes : list Z) : option (list A * list Z) :=
  match n with
  | O => Some ([], bytes)
  | S n' =>
      '(a, bytes) ← dec c bytes; '(l, bytes) ← dec_list c n' bytes; Some (a :: l, bytes)
  end.

Definition c_array {A} (n : nat) (c : codec A) : codec (list A) := {|
  enc l := if (length l =? n)%nat then enc_list c l else None;
  dec := dec_list c n;
  norm := map (norm c);
|}.

(** [do_serialize_container]: the count, the sanity check of the reader
    against the bytes that remain, the elements. *)
Definition do_serialize_container {A} (c : codec A) : codec (list A) := {|
  enc v :=
    x ← enc (serialize_varint 64) (Z.of_nat (length v)); y ← enc_list c v; Some (x ++ y);
  dec bytes :=
    '(cnt, bytes) ← dec (serialize_varint 64) bytes;
    if Z.of_nat (length bytes) <? cnt then None else dec_list c (Z.to_nat cnt) bytes;
  norm := map (norm c);
|}.

(** [serialization::dump_binary] and [serialization::parse_binary]: the whole
    blob has to be consumed. *)
Definition dump_binary {A} (c : codec A) (v : A) : option (list Z) := enc c v.

Definition parse_binary {A} (c : codec A) (blob : list Z) : option A :=
  match dec c blob with Some (v, []) => Some v | _ => None end.

(** ** Laws

    Reading back what was written gives the value, less the members that are
    not serialized, and leaves the bytes that follow.  Conversely the bytes
    a reader consumes are the encoding of the value it returns, unless the
    input ends inside a varint: [read_varint] accepts a varint whose last
    byte has the continuation bit when the input ends there.

    [cut_off bytes bs]: the bytes end in one to nine such digits, in the place
    where the encoding [bs] has the whole varint of their value. *)
Definition cut_off (bytes bs : list Z) : Prop :=
  exists p c e, bytes = p ++ c /\ c <> [] /\ (length c <= 9)%nat /\ Forall (Z.le 128) c /\
    write_varint (cut_value c) = Some e /\ bs = p ++ e.

Class CodecOk {A} (c : codec A) : Prop := {
  codec_rt a bs : enc c a = Some bs ->
    bytes_ok bs /\ forall rest, dec c (bs ++ rest) = Some (norm c a, rest);
  codec_canon s a rest : bytes_ok s -> dec c s = Some (a, rest) ->
    norm c a = a /\ exists p bs, s = p ++ rest /\ enc c a = Some bs /\
      (p = bs \/ rest = [] /\ cut_off p bs);
  codec_stable a bs : enc c a = Some bs -> enc c (norm c a) = Some bs;
}.

(** Every member is serialized. *)
Class Exact {A} (c : codec A) : Prop := exact_norm a : norm c a = a.

(** At least one byte per value, which the sanity check of a container
    relies on. *)
Class Produces {A} (c : codec A) : Prop :=
  produces a bs : enc c a = Some bs -> (0 < length bs)%nat.

Lemma cut_off_app p q y : cut_off q y -> cut_off (p ++ q) (p ++ y).
Proof. intros (q' & c & e & -> & Hc & Hl & Ha & He & ->). exists (p ++ q'), c, e. by rewrite <- !app_assoc. Qed.

Lemma cut_off_nil y : ~ cut_off [] y.
Proof. intros (p & c & e & E & Hc & _). symmetry in E. by apply app_eq_nil in E as [_ ->]. Qed.

(** Only bytes 128 stand for a final 0. *)
Lemma cut_value_zero c : Forall (Z.le 128) c -> cut_value c = 0 -> c = replicate (length c) 128.
Proof.
  induction 1 as [|b c Hb Hc IH]; [done|]. cbn [cut_value foldr length replicate]. fold (cut_value c). intros E.
  assert (0 <= cut_value c) by (clear -Hc; induction Hc as [|b c Hb _ IH]; cbn [cut_value foldr]; [lia|fold (cut_value c); lia]).
  f_equal; [lia|]. apply IH. lia.
Qed.

Lemma cut_off_zero blob p : cut_off blob (p ++ [0]) -> exists k, (1 <= k <= 9)%nat /\ blob = p ++ replicate k 128.
Proof.
  intros (q & c & e & -> & Hc & Hl & Ha & He & E). assert (0 <= cut_value c) as Hv.
  { clear -Ha. induction Ha as [|b c Hb _ IH]; cbn [cut_value foldr]; [lia|fold (cut_value c); lia]. }
  rewrite (write_varint_ref _ Hv) in He. injection He as <-. destruct (varint_ref_last (cut_value c) Hv) as (e & d & Ed & Hd & Hz).
  rewrite Ed, app_assoc in E. apply app_inj_tail in E as [-> <-]. specialize (Hz eq_refl). exists (length c).
  rewrite Hz, varint_ref_small in Ed by lia. destruct e as [|? [|]]; [|discriminate Ed|discriminate Ed]. rewrite app_nil_r.
  split; [destruct c; [done|cbn [length] in *; lia]|]. f_equal. by apply cut_value_zero.
Qed.

Lemma bytes_ok_app l m : bytes_ok (l ++ m) <-> bytes_ok l /\ bytes_ok m.
Proof. apply Forall_app. Qed.

(** *** Primitives *)

#[export] Instance serialize_blob_ok n : CodecOk (serialize_blob n).
Proof.
  split; cbn [enc dec norm serialize_blob].
  - intros a bs. case_decide as Ha; [|done]. intros [= <-]. destruct Ha as [Hl Hok].
    split; [done|]. intros rest. rewrite length_app.
    destruct (Nat.ltb_spec (length a + length rest) n); [lia|].
    by rewrite take_app_length', drop_app_length' by done.
  - intros s a rest Hs. destruct (Nat.ltb_spec (length s) n); [done|]. intros [= <- <-].
    split; [done|]. exists (take n s), (take n s). rewrite take_drop. split; [done|].
    rewrite decide_True; [by eauto|]. split; [rewrite length_take; lia|by apply Forall_take].
  - done.
Qed.

Lemma put_uint_le_bytes n v : put_uint n v = le_bytes n v.
Proof.
  revert v; induction n as [|n IH]; intros v; [done|]. rewrite le_bytes_S. cbn [put_uint].
  change 0xff with (2 ^ 8 - 1). rewrite land_mask, shiftr_div by lia. by rewrite IH.
Qed.

#[export] Instance serialize_uint_ok n : CodecOk (serialize_uint n).
Proof.
  split; cbn [enc dec norm serialize_uint].
  - intros a bs. case_decide as Ha; [|done]. intros [= <-]. rewrite put_uint_le_bytes.
    split; [apply le_bytes_ok|]. intros rest. rewrite length_app, length_le_bytes.
    destruct (Nat.ltb_spec (n + length rest) n); [lia|].
    rewrite take_app_length', drop_app_length' by (by rewrite length_le_bytes).
    rewrite le_value_bytes; [done|]. by rewrite pow256.
  - intros s a rest Hs. destruct (Nat.ltb_spec (length s) n) as [|Hn]; [done|]. intros [= <- <-].
    split; [done|]. assert (bytes_ok (take n s)) as Hok by (by apply Forall_take).
    assert (length (take n s) = n) as Hl by (rewrite length_take; lia).
    exists (take n s), (take n s). rewrite take_drop. split; [done|].
    pose proof (le_value_range _ Hok) as Hr. rewrite Hl, pow256 in Hr.
    rewrite decide_True by exact Hr. rewrite put_uint_le_bytes.
    pose proof (le_bytes_value _ Hok) as Hv. rewrite Hl in Hv. rewrite Hv. by eauto.
  - done.
Qed.

Lemma serialize_varint_ok w : 0 < w <= 64 -> CodecOk (serialize_varint w).
Proof.
  intros [Hw Hw64]. split; cbn [enc dec norm serialize_varint].
  - intros a bs. case_decide as Ha; [|done].
    destruct (read_varint_ref w a [] Hw Ha) as [_ ->]. intros [= <-].
    unfold is_uint in Ha. split; [apply varint_ref_ok; lia|]. intros rest.
    destruct (read_varint_ref w a rest Hw Ha) as [-> _].
    pose proof (varint_ref_nonempty a). destruct (Z.leb_spec 1 (Z.of_nat (length (varint_ref a)))); [done|lia].
  - intros s a rest Hs. destruct (read_varint w s) as [[n v] cur] eqn:Hr.
    destruct (Z.leb_spec 1 n); [|done]. intros [= -> ->]. split; [done|].
    destruct (read_varint_consumed w s n a rest Hw Hs Hr ltac:(lia)) as (Ha & p & -> & Hl & Hp).
    exists p, (varint_ref a). split; [done|]. rewrite decide_True by done.
    destruct (read_varint_ref w a [] Hw Ha) as [_ Ew]. rewrite Ew. split; [done|].
    destruct Hp as [->|(-> & Hp & -> & H7)]; [by left|right]. split; [done|].
    exists [], p, (varint_ref (cut_value p)). split_and!; try done; [intros ->; simpl in *; lia|lia].
  - done.
Qed.

#[export] Instance varint64_ok : CodecOk (serialize_varint 64).
Proof. by apply serialize_varint_ok. Qed.
#[export] Instance varint32_ok : CodecOk (serialize_varint 32).
Proof. by apply serialize_varint_ok. Qed.
#[export] Instance varint8_ok : CodecOk (serialize_varint 8).
Proof. by apply serialize_varint_ok. Qed.

#[export] Instance c_unit_ok : CodecOk c_unit.
Proof.
  split; cbn [enc dec norm c_unit].
  - intros _ bs [= <-]. split; [constructor|done].
  - intros s [] rest _ [= <-]. split; [done|]. exists [], []. by eauto.
  - done.
Qed.

#[export] Instance c_fail_ok A : CodecOk (@c_fail A).
Proof. by split. Qed.

(** *** Combinators *)

Lemma c_dep_stable {A B} (ca : codec A) (cb : A -> codec B) ab bs :
  CodecOk ca -> (forall a, CodecOk (cb a)) ->
  (forall a x, enc ca a = Some x -> cb (norm ca a) = cb a) ->
  enc (c_dep ca cb) ab = Some bs -> enc (c_dep ca cb) (norm (c_dep ca cb) ab) = Some bs.
Proof.
  intros Ha Hb Hn. destruct ab as [a b]. cbn [enc dec norm c_dep fst snd].
  destruct (enc ca a) as [x|] eqn:Ex; [|done]. cbn [mbind option_bind].
  destruct (enc (cb a) b) as [y|] eqn:Ey; [|done]. intros [= <-].
  rewrite (codec_stable _ _ Ex). cbn [mbind option_bind].
  by rewrite (Hn a x Ex), (codec_stable _ _ Ey).
Qed.

(** The bytes of two readers in a row. *)
Lemma canon_seq (s p rest x : list Z) q rest' y :
  s = p ++ rest -> rest = q ++ rest' ->
  (p = x \/ rest = [] /\ cut_off p x) -> (q = y \/ rest' = [] /\ cut_off q y) ->
  s = (p ++ q) ++ rest' /\ (p ++ q = x ++ y \/ rest' = [] /\ cut_off (p ++ q) (x ++ y)).
Proof.
  intros -> -> Hp Hq. rewrite <- app_assoc. split; [done|].
  destruct Hp as [->|[Hnil Hp]].
  - destruct Hq as [->|[-> Hq]]; [by left|right]. split; [done|by apply cut_off_app].
  - apply app_eq_nil in Hnil as [-> ->]. right. destruct Hq as [<-|[_ Hq]]; [|by apply cut_off_nil in Hq].
    by rewrite !app_nil_r.
Qed.

Lemma c_dep_rt {A B} (ca : codec A) (cb : A -> codec B) ab bs :
  CodecOk ca -> (forall a, CodecOk (cb a)) ->
  (forall a x, enc ca a = Some x -> cb (norm ca a) = cb a) ->
  enc (c_dep ca cb) ab = Some bs ->
  bytes_ok bs /\ forall rest, dec (c_dep ca cb) (bs ++ rest) = Some (norm (c_dep ca cb) ab, rest).
Proof.
  intros Ha Hb Hn. destruct ab as [a b]. cbn [enc dec norm c_dep fst snd].
  destruct (enc ca a) as [x|] eqn:Ex; [|done]. cbn [mbind option_bind].
  destruct (enc (cb a) b) as [y|] eqn:Ey; [|done]. intros [= <-].
  destruct (codec_rt _ _ Ex) as [Hx Rx], (codec_rt _ _ Ey) as [Hy Ry].
  split; [by apply bytes_ok_app|]. intros rest.
  rewrite <- app_assoc, Rx. cbn [mbind option_bind]. rewrite (Hn a x Ex), Ry. done.
Qed.

Lemma c_dep_canon {A B} (ca : codec A) (cb : A -> codec B) s ab rest :
  CodecOk ca -> (forall a, CodecOk (cb a)) ->
  bytes_ok s -> dec (c_dep ca cb) s = Some (ab, rest) ->
  norm (c_dep ca cb) ab = ab /\ exists p bs, s = p ++ rest /\ enc (c_dep ca cb) ab = Some bs /\
    (p = bs \/ rest = [] /\ cut_off p bs).
Proof.
  intros Ha Hb Hs. cbn [enc dec norm c_dep].
  destruct (dec ca s) as [[a s']|] eqn:Ea; [|done]. cbn [mbind option_bind].
  destruct (dec (cb a) s') as [[b s'']|] eqn:Eb; [|done]. intros [= <- <-]. cbn [fst snd].
  destruct (codec_canon _ _ _ Hs Ea) as (Na & p & x & Hp & Hx & Cp).
  assert (bytes_ok s') as Hs' by (rewrite Hp in Hs; by apply bytes_ok_app in Hs as [_ ?]).
  destruct (codec_canon _ _ _ Hs' Eb) as (Nb & q & y & Hq & Hy & Cq).
  rewrite Na, Nb. split; [done|].
  destruct (canon_seq _ _ _ _ _ _ _ Hp Hq Cp Cq) as [Hpq Cpq].
  exists (p ++ q), (x ++ y). split; [done|]. rewrite Hx. cbn [mbind option_bind]. by rewrite Hy.
Qed.

#[export] Instance c_dep_ok {A B} (ca : codec A) (cb : A -> codec B) :
  CodecOk ca -> Exact ca -> (forall a, CodecOk (cb a)) -> CodecOk (c_dep ca cb).
Proof.
  intros Ha He Hb. split.
  - intros ab bs. apply c_dep_rt; try done. intros a x _. by rewrite exact_norm.
  - intros s ab rest. by apply c_dep_canon.
  - intros ab bs. apply c_dep_stable; try done. intros a x _. by rewrite exact_norm.
Qed.

#[export] Instance c_pair_ok {A B} (ca : codec A) (cb : codec B) :
  CodecOk ca -> CodecOk cb -> CodecOk (c_pair ca cb).
Proof.
  intros Ha Hb. split.
  - intros ab bs. by apply c_dep_rt.
  - intros s ab rest. by apply c_dep_canon.
  - intros ab bs. by apply c_dep_stable.
Qed.

Lemma c_map_ok {A B} (to : B -> option A) (mk : A -> B) (c : codec A) :
  CodecOk c -> (forall a bs, enc c a = Some bs -> to (mk a) = Some a) ->
  CodecOk (c_map to mk c).
Proof.
  intros Hc Hmk. split; cbn [enc dec norm c_map].
  - intros b bs. destruct (to b) as [a|]; [|done]. cbn [mbind option_bind]. intros Ea.
    destruct (codec_rt _ _ Ea) as [Hok Hrt]. split; [done|]. intros rest. by rewrite Hrt.
  - intros s b rest Hs. destruct (dec c s) as [[a s']|] eqn:Ea; [|done].
    cbn [mbind option_bind]. intros [= <- <-].
    destruct (codec_canon _ _ _ Hs Ea) as (Na & p & bs & Hp & Hbs & Cp).
    rewrite (Hmk a bs Hbs), Na. split; [done|]. exists p, bs. done.
  - intros b bs. destruct (to b) as [a|]; [|done]. cbn [mbind option_bind]. intros Ea.
    pose proof (codec_stable _ _ Ea) as Es. by rewrite (Hmk _ _ Es).
Qed.

Lemma c_guard_ok {A} (p : A -> bool) (c : codec A) :
  CodecOk c -> (forall a, p (norm c a) = p a) -> CodecOk (c_guard p c).
Proof.
  intros Hc Hp. split; cbn [enc dec norm c_guard].
  - intros a bs. destruct (p a) eqn:Pa; [|done]. intros Ea.
    destruct (codec_rt _ _ Ea) as [Hok Hrt]. split; [done|]. intros rest.
    rewrite Hrt. cbn [mbind option_bind]. by rewrite Hp, Pa.
  - intros s a rest Hs. destruct (dec c s) as [[a' s']|] eqn:Ea; [|done].
    cbn [mbind option_bind]. destruct (p a') eqn:Pa; [|done]. intros [= -> ->].
    rewrite Pa. by apply codec_canon.
  - intros a bs. rewrite Hp. destruct (p a); [|done]. apply codec_stable.
Qed.

#[export] Instance c_guard_exact_ok {A} (p : A -> bool) (c : codec A) :
  CodecOk c -> Exact c -> CodecOk (c_guard p c).
Proof. intros Hc He. apply c_guard_ok; [done|]. intros a. by rewrite exact_norm. Qed.

Lemma c_bind_ok {A B} (get : B -> A) (ca : codec A) (cb : A -> codec B) :
  CodecOk ca -> Exact ca -> (forall a, CodecOk (cb a)) ->
  (forall a b bs, enc (cb a) b = Some bs -> get b = a) ->
  CodecOk (c_bind get ca cb).
Proof.
  intros Ha He Hb Hget. split; cbn [enc dec norm c_bind].
  - intros b bs. destruct (enc ca (get b)) as [x|] eqn:Ex; [|done]. cbn [mbind option_bind].
    destruct (enc (cb (get b)) b) as [y|] eqn:Ey; [|done]. intros [= <-].
    destruct (codec_rt _ _ Ex) as [Hx Rx], (codec_rt _ _ Ey) as [Hy Ry].
    split; [by apply bytes_ok_app|]. intros rest.
    rewrite <- app_assoc, Rx. cbn [mbind option_bind]. by rewrite exact_norm, Ry.
  - intros s b rest Hs. destruct (dec ca s) as [[a s']|] eqn:Ea; [|done].
    cbn [mbind option_bind]. intros Eb.
    destruct (codec_canon _ _ _ Hs Ea) as (_ & p & x & Hp & Hx & Cp).
    assert (bytes_ok s') as Hs' by (rewrite Hp in Hs; by apply bytes_ok_app in Hs as [_ ?]).
    destruct (codec_canon _ _ _ Hs' Eb) as (Nb & q & y & Hq & Hy & Cq).
    rewrite (Hget _ _ _ Hy), Nb. split; [done|].
    destruct (canon_seq _ _ _ _ _ _ _ Hp Hq Cp Cq) as [Hpq Cpq].
    exists (p ++ q), (x ++ y). split; [done|]. rewrite Hx. cbn [mbind option_bind]. by rewrite Hy.
  - intros b bs. destruct (enc ca (get b)) as [x|] eqn:Ex; [|done]. cbn [mbind option_bind].
    destruct (enc (cb (get b)) b) as [y|] eqn:Ey; [|done]. intros [= <-].
    pose proof (codec_stable _ _ Ey) as Es. rewrite (Hget _ _ _ Es), Ex.
    cbn [mbind option_bind]. by rewrite Es.
Qed.

Lemma enc_list_stable {A} (c : codec A) l bs : CodecOk c -> enc_list c l = Some bs ->
  enc_list c (map (norm c) l) = Some bs.
Proof.
  intros Hc. revert bs; induction l as [|a l IH]; intros bs; cbn [enc_list map]; [done|].
  destruct (enc c a) as [x|] eqn:Ex; [|done]. cbn [mbind option_bind].
  destruct (enc_list c l) as [y|] eqn:Ey; [|done]. intros [= <-].
  rewrite (codec_stable _ _ Ex). cbn [mbind option_bind]. by rewrite (IH y eq_refl).
Qed.

Lemma enc_list_rt {A} (c : codec A) l bs : CodecOk c -> enc_list c l = Some bs ->
  bytes_ok bs /\ forall rest, dec_list c (length l) (bs ++ rest) = Some (map (norm c) l, rest).
Proof.
  intros Hc. revert bs; induction l as [|a l IH]; intros bs; cbn [enc_list dec_list length map].
  - intros [= <-]. split; [constructor|done].
  - destruct (enc c a) as [x|] eqn:Ex; [|done]. cbn [mbind option_bind].
    destruct (enc_list c l) as [y|] eqn:Ey; [|done]. intros [= <-].
    destruct (codec_rt _ _ Ex) as [Hx Rx], (IH y eq_refl) as [Hy Ry].
    split; [by apply bytes_ok_app|]. intros rest.
    rewrite <- app_assoc, Rx. cbn [mbind option_bind]. by rewrite Ry.
Qed.

Lemma dec_list_canon {A} (c : codec A) n s l rest : CodecOk c ->
  bytes_ok s -> dec_list c n s = Some (l, rest) ->
  length l = n /\ map (norm c) l = l /\
  exists p bs, s = p ++ rest /\ enc_list c l = Some bs /\ (p = bs \/ rest = [] /\ cut_off p bs).
Proof.
  intros Hc. revert s l; induction n as [|n IH]; intros s l Hs; cbn [dec_list].
  - intros [= <- <-]. split; [done|]. split; [done|]. exists [], []. by eauto.
  - destruct (dec c s) as [[a s']|] eqn:Ea; [|done]. cbn [mbind option_bind].
    destruct (dec_list c n s') as [[l' s'']|] eqn:Eb; [|done]. intros [= <- <-].
    destruct (codec_canon _ _ _ Hs Ea) as (Na & p & x & Hp & Hx & Cp).
    assert (bytes_ok s') as Hs' by (rewrite Hp in Hs; by apply bytes_ok_app in Hs as [_ ?]).
    destruct (IH _ _ Hs' Eb) as (Hn & Nb & q & y & Hq & Hy & Cq).
    cbn [length map enc_list]. rewrite Hn, Na, Nb. split; [done|]. split; [done|].
    destruct (canon_seq _ _ _ _ _ _ _ Hp Hq Cp Cq) as [Hpq Cpq].
    exists (p ++ q), (x ++ y). split; [done|]. rewrite Hx. cbn [mbind option_bind]. by rewrite Hy.
Qed.

#[export] Instance c_array_ok {A} n (c : codec A) : CodecOk c -> CodecOk (c_array n c).
Proof.
  intros Hc. split; cbn [enc dec norm c_array].
  - intros l bs. destruct (Nat.eqb_spec (length l) n) as [<-|]; [|done]. by apply enc_list_rt.
  - intros s l rest Hs Hd. destruct (dec_list_canon _ _ _ _ _ Hc Hs Hd) as (<- & Hn & Hex).
    rewrite Nat.eqb_refl. done.
  - intros l bs. rewrite length_map. destruct (length l =? n)%nat; [|done]. by apply enc_list_stable.
Qed.

Lemma enc_list_length {A} (c : codec A) l bs : Produces c -> enc_list c l = Some bs ->
  (length l <= length bs)%nat.
Proof.
  intros Hp. revert bs; induction l as [|a l IH]; intros bs; cbn [enc_list]; [intros [= <-]; simpl; lia|].
  destruct (enc c a) as [x|] eqn:Ex; [|done]. cbn [mbind option_bind].
  destruct (enc_list c l) as [y|] eqn:Ey; [|done]. intros [= <-].
  pose proof (produces _ _ Ex). pose proof (IH _ eq_refl). rewrite length_app. simpl. lia.
Qed.

#[export] Instance do_serialize_container_ok {A} (c : codec A) :
  CodecOk c -> Produces c -> CodecOk (do_serialize_container c).
Proof.
  intros Hc Hp. split; cbn [enc dec norm do_serialize_container].
  - intros l bs. destruct (enc (serialize_varint 64) _) as [x|] eqn:Ex; [|done].
    cbn [mbind option_bind]. destruct (enc_list c l) as [y|] eqn:Ey; [|done]. intros [= <-].
    destruct (codec_rt _ _ Ex) as [Hx Rx], (enc_list_rt _ _ _ Hc Ey) as [Hy Ry].
    split; [by apply bytes_ok_app|]. intros rest.
    rewrite <- app_assoc, Rx. cbn [mbind option_bind norm serialize_varint].
    pose proof (enc_list_length _ _ _ Hp Ey). rewrite length_app.
    destruct (Z.ltb_spec (Z.of_nat (length y + length rest)) (Z.of_nat (length l))); [lia|].
    by rewrite Nat2Z.id, Ry.
  - intros s l rest Hs. destruct (dec (serialize_varint 64) s) as [[cnt s']|] eqn:Ea; [|done].
    cbn [mbind option_bind]. case_match eqn:Hcnt; [done|]. intros Eb.
    destruct (codec_canon _ _ _ Hs Ea) as (_ & p & x & Hpe & Hx & Cp).
    assert (bytes_ok s') as Hs' by (rewrite Hpe in Hs; by apply bytes_ok_app in Hs as [_ ?]).
    destruct (dec_list_canon _ _ _ _ _ Hc Hs' Eb) as (Hn & Nb & q & y & Hq & Hy & Cq).
    split; [done|].
    destruct (canon_seq _ _ _ _ _ _ _ Hpe Hq Cp Cq) as [Hpq Cpq].
    exists (p ++ q), (x ++ y). split; [done|].
    assert (0 <= cnt) as Hpos.
    { cbn [enc serialize_varint] in Hx. case_decide as Hu; [|done]. unfold is_uint in Hu. lia. }
    rewrite Hn, Z2Nat.id, Hx by done. cbn [mbind option_bind]. by rewrite Hy.
  - intros l bs. rewrite length_map. destruct (enc (serialize_varint 64) _) as [x|]; [|done].
    cbn [mbind option_bind]. destruct (enc_list c l) as [y|] eqn:Ey; [|done]. intros [= <-].
    by rewrite (enc_list_stable _ _ _ Hc Ey).
Qed.

(** *** Exactness and progress *)

#[export] Instance serialize_blob_exact n : Exact (serialize_blob n).
Proof. done. Qed.
#[export] Instance serialize_uint_exact n : Exact (serialize_uint n).
Proof. done. Qed.
#[export] Instance serialize_varint_exact w : Exact (serialize_varint w).
Proof. done. Qed.
#[export] Instance c_unit_exact : Exact c_unit.
Proof. by intros []. Qed.
#[export] Instance c_fail_exact A : Exact (@c_fail A).
Proof. done. Qed.
#[export] Instance c_dep_exact {A B} (ca : codec A) (cb : A -> codec B) :
  Exact ca -> (forall a, Exact (cb a)) -> Exact (c_dep ca cb).
Proof. intros Ha Hb [a b]. cbn. by rewrite !exact_norm. Qed.
#[export] Instance c_pair_exact {A B} (ca : codec A) (cb : codec B) :
  Exact ca -> Exact cb -> Exact (c_pair ca cb).
Proof. intros Ha Hb. unfold c_pair. apply _. Qed.
#[export] Instance c_guard_exact {A} p (c : codec A) : Exact c -> Exact (c_guard p c).
Proof. intros Hc a. apply Hc. Qed.
#[export] Instance c_bind_exact {A B} (get : B -> A) (ca : codec A) (cb : A -> codec B) :
  (forall a, Exact (cb a)) -> Exact (c_bind get ca cb).
Proof. intros Hb b. apply Hb. Qed.

Lemma map_exact {A} (c : codec A) l : Exact c -> map (norm c) l = l.
Proof. intros Hc. induction l as [|a l IH]; simpl; [done|]. by rewrite exact_norm, IH. Qed.

#[export] Instance c_array_exact {A} n (c : codec A) : Exact c -> Exact (c_array n c).
Proof. intros Hc l. by apply map_exact. Qed.
#[export] Instance do_serialize_container_exact {A} (c : codec A) :
  Exact c -> Exact (do_serialize_container c).
Proof. intros Hc l. by apply map_exact. Qed.

Lemma c_map_exact {A B} (to : B -> option A) (mk : A -> B) (c : codec A) :
  Exact c -> (forall b a, to b = Some a -> mk a = b) -> Exact (c_map to mk c).
Proof.
  intros Hc Hmk b. cbn. destruct (to b) as [a|] eqn:Hb; [|done].
  rewrite exact_norm. by apply Hmk.
Qed.

Lemma serialize_blob_produces n : (0 < n)%nat -> Produces (serialize_blob n).
Proof. intros Hn a bs. cbn. case_decide as H; [|done]. intros [= <-]. lia. Qed.

#[export] Instance blob_produces_S n : Produces (serialize_blob (S n)).
Proof. apply serialize_blob_produces. lia. Qed.

#[export] Instance uint_produces_S n : Produces (serialize_uint (S n)).
Proof. intros a bs. cbn. case_decide; [|done]. intros [= <-]. simpl. lia. Qed.

#[export] Instance varint_produces w : Produces (serialize_varint w).
Proof.
  intros a bs. cbn. case_decide as Ha; [|done]. unfold is_uint in Ha.
  rewrite write_varint_ref by lia. intros [= <-]. apply varint_ref_nonempty.
Qed.

#[export] Instance c_dep_produces {A B} (ca : codec A) (cb : A -> codec B) :
  Produces ca -> Produces (c_dep ca cb).
Proof.
  intros Ha [a b] bs. cbn. destruct (enc ca a) as [x|] eqn:Ex; [|done]. cbn.
  destruct (enc (cb a) b) as [y|]; [|done]. intros [= <-].
  pose proof (produces _ _ Ex). rewrite length_app. lia.
Qed.

#[export] Instance c_pair_produces {A B} (ca : codec A) (cb : codec B) :
  Produces ca -> Produces (c_pair ca cb).
Proof. intros Ha. apply c_dep_produces, Ha. Qed.

#[export] Instance c_bind_produces {A B} (get : B -> A) (ca : codec A) (cb : A -> codec B) :
  Produces ca -> Produces (c_bind get ca cb).
Proof.
  intros Ha b bs. cbn. destruct (enc ca (get b)) as [x|] eqn:Ex; [|done]. cbn.
  destruct (enc (cb (get b)) b) as [y|]; [|done]. intros [= <-].
  pose proof (produces _ _ Ex). rewrite length_app. lia.
Qed.

#[export] Instance c_map_produces {A B} (to : B -> option A) (mk : A -> B) (c : codec A) :
  Produces c -> Produces (c_map to mk c).
Proof. intros Hc b bs. cbn. destruct (to b) as [a|]; [|done]. apply Hc. Qed.

#[export] Instance c_guard_produces {A} p (c : codec A) : Produces c -> Produces (c_guard p c).
Proof. intros Hc a bs. cbn. destruct (p a); [|done]. apply Hc. Qed.

#[export] Instance container_produces {A} (c : codec A) : Produces (do_serialize_container c).
Proof.
  intros l bs. cbn [enc do_serialize_container].
  destruct (enc (serialize_varint 64) _) as [x|] eqn:Ex; [|done]. cbn [mbind option_bind].
  destruct (enc_list c l); [|done]. intros [= <-]. pose proof (produces _ _ Ex).
  rewrite length_app. lia.
Qed.

(** *** Whole blobs *)

Lemma dec_pair {A B} (ca : codec A) (cb : codec B) s a s' b s'' :
  dec ca s = Some (a, s') -> dec cb s' = Some (b, s'') -> dec (c_pair ca cb) s = Some ((a, b), s'').
Proof. intros Ha Hb. cbn [dec c_pair c_dep]. rewrite Ha. cbn [mbind option_bind]. by rewrite Hb. Qed.

Lemma dec_map {A B} (to : B -> option A) mk (c : codec A) s a s' :
  dec c s = Some (a, s') -> dec (c_map to mk c) s = Some (mk a, s').
Proof. intros H. cbn [dec c_map]. by rewrite H. Qed.

Lemma dec_empty {A} (c : codec A) s : dec (serialize_varint 64) s = Some (0, []) -> dec (do_serialize_container c) s = Some ([], []).
Proof.
  intros H. transitivity ('(cnt, bytes) ← dec (serialize_varint 64) s; if Z.of_nat (length bytes) <? cnt then None else dec_list c (Z.to_nat cnt) bytes); [done|].
  by rewrite H.
Qed.

Lemma parse_dump {A} (c : codec A) v blob : CodecOk c ->
  dump_binary c v = Some blob ->
  parse_binary c blob = Some (norm c v) /\ dump_binary c (norm c v) = Some blob.
Proof.
  unfold dump_binary, parse_binary. intros Hc He. destruct (codec_rt _ _ He) as [_ Hrt].
  pose proof (Hrt []) as Hd. rewrite app_nil_r in Hd. rewrite Hd.
  split; [done|]. by apply codec_stable.
Qed.

Lemma dump_parse {A} (c : codec A) v blob : CodecOk c -> bytes_ok blob ->
  parse_binary c blob = Some v ->
  norm c v = v /\ exists bs, dump_binary c v = Some bs /\ (blob = bs \/ cut_off blob bs).
Proof.
  unfold dump_binary, parse_binary. intros Hc Hb.
  destruct (dec c blob) as [[v' rest]|] eqn:Hd; [|done].
  destruct rest; [|done]. intros [= ->].
  destruct (codec_canon _ _ _ Hb Hd) as (Hn & p & bs & -> & He & Hp).
  rewrite app_nil_r. split; [done|]. exists bs. split; [done|].
  destruct Hp as [->|[_ Hp]]; [by left|by right].
Qed.

(** ** Struct descriptions *)

(** A member that is not serialized: it is left as its constructor sets it. *)
Definition c_skip {A} (init : A) : codec A := {|
  enc _ := Some []; dec bytes := Some (init, bytes); norm _ := init
|}.

#[export] Instance c_skip_ok {A} (init : A) : CodecOk (c_skip init).
Proof.
  split; cbn [enc dec norm c_skip].
  - intros _ bs [= <-]. split; [constructor|done].
  - intros s a rest _ [= <- <-]. split; [done|]. exists [], []. by eauto.
  - done.
Qed.

(** A size as a [nat]. *)
Definition c_size (c : codec Z) : codec nat := c_map (fun n => Some (Z.of_nat n)) Z.to_nat c.

#[export] Instance varint_size_ok w : CodecOk (serialize_varint w) -> CodecOk (c_size (serialize_varint w)).
Proof.
  intros Hc. apply c_map_ok; [done|]. intros a bs. cbn. case_decide as Ha; [|done].
  unfold is_uint in Ha. intros _. by rewrite Z2Nat.id by lia.
Qed.

#[export] Instance uint_size_ok n : CodecOk (c_size (serialize_uint n)).
Proof.
  apply c_map_ok; [apply _|]. intros a bs. cbn. case_decide as Ha; [|done].
  unfold is_uint in Ha. intros _. by rewrite Z2Nat.id by lia.
Qed.

#[export] Instance c_size_exact c : Exact c -> Exact (c_size c).
Proof. intros Hc. apply c_map_exact; [done|]. intros b a [= <-]. apply Nat2Z.id. Qed.

(** A vector whose size is a field of its own. *)
Definition c_counted {A} (cn : codec nat) (c : codec A) : codec (list A) :=
  c_bind length cn (fun n => c_array n c).

#[export] Instance c_counted_ok {A} cn (c : codec A) :
  CodecOk cn -> Exact cn -> CodecOk c -> CodecOk (c_counted cn c).
Proof.
  intros Hn He Hc. apply c_bind_ok; try apply _. intros n l bs. cbn.
  destruct (Nat.eqb_spec (length l) n); [done|discriminate].
Qed.

(** A dependent sequence whose first part may drop members, as long as the
    format of the second does not depend on them. *)
Lemma c_dep_ok_norm {A B} (ca : codec A) (cb : A -> codec B) :
  CodecOk ca -> (forall a, CodecOk (cb a)) -> (forall a, cb (norm ca a) = cb a) ->
  CodecOk (c_dep ca cb).
Proof.
  intros Ha Hb Hn. split.
  - intros ab bs. apply c_dep_rt; by auto.
  - intros s ab rest. by apply c_dep_canon.
  - intros ab bs. apply c_dep_stable; by auto.
Qed.

(** Laws of the description of a struct: all the members, in one tuple. *)
Ltac codec_record :=
  apply c_map_ok; [apply _ | intros; repeat match goal with p : (_ * _)%type |- _ => destruct p end; done].
Ltac codec_record_exact :=
  apply c_map_exact; [apply _ | intros []; by intros ? [= <-]].

(** ** Formats without an open end

    A description whose last member is not a varint has exactly one encoding
    per value. *)
Class Strict {A} (c : codec A) : Prop :=
  codec_strict s a rest : bytes_ok s -> dec c s = Some (a, rest) ->
    exists bs, s = bs ++ rest /\ enc c a = Some bs.

#[export] Instance serialize_blob_strict n : Strict (serialize_blob n).
Proof.
  intros s a rest Hs. cbn [enc dec serialize_blob]. destruct (Nat.ltb_spec (length s) n); [done|]. intros [= <- <-].
  exists (take n s). rewrite take_drop. split; [done|].
  rewrite decide_True; [done|]. split; [rewrite length_take; lia|by apply Forall_take].
Qed.

#[export] Instance serialize_uint_strict n : Strict (serialize_uint n).
Proof.
  intros s a rest Hs Hd. destruct (codec_canon _ _ _ Hs Hd) as (_ & p & bs & -> & He & Hp).
  exists bs. split; [|done]. f_equal. destruct Hp as [->|[-> _]]; [done|].
  rewrite app_nil_r in *. revert Hd He. cbn [enc dec serialize_uint].
  destruct (Nat.ltb_spec (length p) n); [done|]. intros [= <- Hnil].
  case_decide; [|done]. intros [= <-].
  apply (f_equal length) in Hnil. rewrite length_drop in Hnil. cbn [length] in Hnil.
  rewrite take_ge, put_uint_le_bytes by lia. replace n with (length p) by lia.
  symmetry. by apply le_bytes_value.
Qed.

(** A member that takes at least a byte shows that the input did not end
    inside the one before. *)
Lemma c_dep_strict {A B} (ca : codec A) (cb : A -> codec B) :
  CodecOk ca -> (forall a, Strict (cb a)) -> (Strict ca \/ forall a, Produces (cb a)) ->
  Strict (c_dep ca cb).
Proof.
  intros Ha Hb Hor s ab rest Hs. cbn [enc dec c_dep].
  destruct (dec ca s) as [[a s']|] eqn:Ea; [|done]. cbn [mbind option_bind].
  destruct (dec (cb a) s') as [[b s'']|] eqn:Eb; [|done]. intros [= <- <-]. cbn [fst snd].
  assert (exists x, s = x ++ s' /\ enc ca a = Some x) as (x & -> & Hx).
  { destruct Hor as [Hstrict|Hprod]; [by apply Hstrict|].
    destruct (codec_canon _ _ _ Hs Ea) as (_ & p & x & -> & Hx & [->|[-> _]]); [by eauto|].
    destruct (codec_strict _ _ _ (Forall_nil_2 _) Eb) as (y & Hy & Ey).
    apply Hprod in Ey. symmetry in Hy. apply app_eq_nil in Hy as [-> _]. simpl in Ey. lia. }
  apply bytes_ok_app in Hs as [_ Hs'].
  destruct (codec_strict _ _ _ Hs' Eb) as (y & -> & Hy).
  exists (x ++ y). rewrite <- app_assoc. split; [done|]. rewrite Hx. cbn [mbind option_bind]. by rewrite Hy.
Qed.

#[export] Instance c_pair_strict {A B} (ca : codec A) (cb : codec B) :
  CodecOk ca -> Strict ca -> Strict cb -> Strict (c_pair ca cb).
Proof. intros Ha Hsa Hb. apply c_dep_strict; [done..|by left]. Qed.

Lemma c_map_strict {A B} (to : B -> option A) (mk : A -> B) (c : codec A) :
  Strict c -> (forall a bs, enc c a = Some bs -> to (mk a) = Some a) -> Strict (c_map to mk c).
Proof.
  intros Hc Hmk s b rest Hs. cbn [enc dec c_map].
  destruct (dec c s) as [[a s']|] eqn:Ea; [|done]. cbn [mbind option_bind]. intros [= <- <-].
  destruct (codec_strict _ _ _ Hs Ea) as (bs & -> & He). exists bs.
  split; [done|]. by rewrite (Hmk a bs He).
Qed.

Lemma dump_parse_strict {A} (c : codec A) v blob : Strict c -> bytes_ok blob ->
  parse_binary c blob = Some v -> dump_binary c v = Some blob.
Proof.
  unfold dump_binary, parse_binary. intros Hc Hb.
  destruct (dec c blob) as [[v' [|]]|] eqn:Hd; [|done..]. intros [= ->].
  destruct (codec_strict _ _ _ Hb Hd) as (bs & -> & He). by rewrite app_nil_r.
Qed.
