(* ===== verification/IntUtil.v ===== *)
(** * Wide integer arithmetic

    [contrib/epee/include/int-util.h] and [contrib/epee/src/int-util.cpp]:
    128-bit products and quotients built from 64-bit words, clamped
    addition and subtraction, rotations and byte swaps.  Every routine is
    related to the arithmetic it stands for. *)

From S2P Require Import Prelude.

(** ** Definitions *)

(** [x << (r & 31)] and [x >> (-r & 31)] on a [uint32_t]. *)
Definition rol32 (x r : Z) : Z :=
  Z.lor (u32 (Z.shiftl x (Z.land r 31))) (Z.shiftr x (Z.land (- r) 31)).

Definition rol64 (x r : Z) : Z :=
  Z.lor (u64 (Z.shiftl x (Z.land r 63))) (Z.shiftr x (Z.land (- r) 63)).

Definition hi_dword (val : Z) : Z := Z.shiftr val 32.
Definition lo_dword (val : Z) : Z := Z.land val 0xFFFFFFFF.

(** [mul128]: the low word of the product and [*product_hi]. *)
Definition mul128 (multiplier multiplicand : Z) : Z * Z :=
  let a := hi_dword multiplier in
  let b := lo_dword multiplier in
  let c := hi_dword multiplicand in
  let d := lo_dword multiplicand in
  let ac := u64 (a * c) in
  let ad := u64 (a * d) in
  let bc := u64 (b * c) in
  let bd := u64 (b * d) in
  let adbc := u64 (ad + bc) in
  let adbc_carry := if adbc <? ad then 1 else 0 in
  let product_lo := u64 (bd + u64 (Z.shiftl adbc 32)) in
  let product_lo_carry := if product_lo <? bd then 1 else 0 in
  let product_hi :=
    u64 (ac + Z.shiftr adbc 32 + u64 (Z.shiftl adbc_carry 32) + product_lo_carry) in
  (product_lo, product_hi).

(** [div_with_reminder]: the quotient and the updated [*remainder]. *)
Definition div_with_reminder (dividend divisor remainder : Z) : Z * Z :=
  let dividend := Z.lor dividend (u64 (Z.shiftl remainder 32)) in
  (dividend / divisor, u32 (dividend mod divisor)).

(** [div128_32]: [(remainder, quotient_hi, quotient_lo)]. *)
Definition div128_32 (dividend_hi dividend_lo divisor : Z) : Z * Z * Z :=
  let remainder := 0 in
  let '(q3, remainder) := div_with_reminder (hi_dword dividend_hi) divisor remainder in
  let quotient_hi := u64 (Z.shiftl q3 32) in
  let '(q2, remainder) := div_with_reminder (lo_dword dividend_hi) divisor remainder in
  let quotient_hi := Z.lor quotient_hi q2 in
  let '(q1, remainder) := div_with_reminder (hi_dword dividend_lo) divisor remainder in
  let quotient_lo := u64 (Z.shiftl q1 32) in
  let '(q0, remainder) := div_with_reminder (lo_dword dividend_lo) divisor remainder in
  let quotient_lo := Z.lor quotient_lo q0 in
  (remainder, quotient_hi, quotient_lo).

(** [div128_64]: [((quotient_hi, quotient_lo), (remainder_hi, remainder_lo))].
    [divide_qr] of Boost's [uint128_t] throws on a zero divisor: [None]. *)
Definition div128_64 (dividend_hi dividend_lo divisor : Z) : option ((Z * Z) * (Z * Z)) :=
  let dividend := Z.lor (u128 (Z.shiftl dividend_hi 64)) dividend_lo in
  if divisor =? 0 then None
  else
    let q := dividend / divisor in
    let r := dividend mod divisor in
    Some ((Z.land (Z.shiftr q 64) 0xffffffffffffffff, Z.land q 0xffffffffffffffff),
          (Z.land (Z.shiftr r 64) 0xffffffffffffffff, Z.land r 0xffffffffffffffff)).

Definition add64clamp (value add : Z) : Z :=
  if UINT64_MAX - add <? value then UINT64_MAX else u64 (value + add).

Definition sub64clamp (value sub : Z) : Z :=
  if value <? sub then 0 else u64 (value - sub).

Definition swap16 (x : Z) : Z :=
  u16 (Z.lor (Z.shiftl (Z.land x 0x00ff) 8) (Z.shiftr (Z.land x 0xff00) 8)).

Definition swap32 (x : Z) : Z :=
  let x := Z.lor (u32 (Z.shiftl (Z.land x 0x00ff00ff) 8))
                 (Z.shiftr (Z.land x 0xff00ff00) 8) in
  Z.lor (u32 (Z.shiftl x 16)) (Z.shiftr x 16).

Definition swap64 (x : Z) : Z :=
  let x := Z.lor (u64 (Z.shiftl (Z.land x 0x00ff00ff00ff00ff) 8))
                 (Z.shiftr (Z.land x 0xff00ff00ff00ff00) 8) in
  let x := Z.lor (u64 (Z.shiftl (Z.land x 0x0000ffff0000ffff) 16))
                 (Z.shiftr (Z.land x 0xffff0000ffff0000) 16) in
  Z.lor (u64 (Z.shiftl x 32)) (Z.shiftr x 32).

(** The [SWAP64] macro, the byte-by-byte form. *)
Definition SWAP64 (x : Z) : Z :=
  let x := u64 x in
  Z.lor (Z.lor (Z.lor (Z.lor (Z.lor (Z.lor (Z.lor
    (u64 (Z.shiftl (Z.land x 0x00000000000000ff) 56))
    (u64 (Z.shiftl (Z.land x 0x000000000000ff00) 40)))
    (u64 (Z.shiftl (Z.land x 0x0000000000ff0000) 24)))
    (u64 (Z.shiftl (Z.land x 0x00000000ff000000) 8)))
    (Z.shiftr (Z.land x 0x000000ff00000000) 8))
    (Z.shiftr (Z.land x 0x0000ff0000000000) 24))
    (Z.shiftr (Z.land x 0x00ff000000000000) 40))
    (Z.shiftr (Z.land x 0xff00000000000000) 56).

(** [mem_inplace_swap64] and [memcpy_swap64] over an array of words. *)
Fixpoint mem_inplace_swap64 (mem : list Z) (n : nat) : list Z :=
  match n, mem with
  | S n', x :: mem' => swap64 x :: mem_inplace_swap64 mem' n'
  | _, _ => mem
  end.

Fixpoint memcpy_swap64 (dst src : list Z) (n : nat) : list Z :=
  match n, dst, src with
  | S n', _ :: dst', x :: src' => swap64 x :: memcpy_swap64 dst' src' n'
  | _, _, _ => dst
  end.

(** ** Products *)

Lemma hi_dword_eq x : hi_dword x = x / 2 ^ 32.
Proof. apply shiftr_div; lia. Qed.

Lemma lo_dword_eq x : lo_dword x = x mod 2 ^ 32.
Proof. unfold lo_dword. change 0xFFFFFFFF with (2 ^ 32 - 1). apply land_mask; lia. Qed.

Lemma mul32_bound a b : 0 <= a < 2 ^ 32 -> 0 <= b < 2 ^ 32 ->
  0 <= a * b <= (2 ^ 32 - 1) * (2 ^ 32 - 1).
Proof. nia. Qed.

Lemma hi_lo_dword x : is_u64 x ->
  exists h l, hi_dword x = h /\ lo_dword x = l /\ x = h * 2 ^ 32 + l /\
    0 <= h < 2 ^ 32 /\ 0 <= l < 2 ^ 32.
Proof.
  intros Hx. exists (x / 2 ^ 32), (x mod 2 ^ 32).
  rewrite hi_dword_eq, lo_dword_eq. split_and!; zdm.
Qed.

Lemma mul128_words P Q R T :
  0 <= P <= (2 ^ 32 - 1) * (2 ^ 32 - 1) -> 0 <= Q <= (2 ^ 32 - 1) * (2 ^ 32 - 1) ->
  0 <= R <= (2 ^ 32 - 1) * (2 ^ 32 - 1) -> 0 <= T <= (2 ^ 32 - 1) * (2 ^ 32 - 1) ->
  P * 2 ^ 64 + (Q + R) * 2 ^ 32 + T < 2 ^ 128 ->
  let adbc := u64 (u64 Q + u64 R) in
  let carry := if adbc <? u64 Q then 1 else 0 in
  let lo := u64 (u64 T + u64 (adbc * 2 ^ 32)) in
  let lo_carry := if lo <? u64 T then 1 else 0 in
  let hi := u64 (u64 P + adbc / 2 ^ 32 + u64 (carry * 2 ^ 32) + lo_carry) in
  is_u64 lo /\ is_u64 hi /\ P <= hi /\
  hi * 2 ^ 64 + lo = P * 2 ^ 64 + (Q + R) * 2 ^ 32 + T.
Proof.
  intros HP HQ HR HT Hsum.
  rewrite !(wrapu_small 64 P), !(wrapu_small 64 Q), !(wrapu_small 64 R),
    !(wrapu_small 64 T) by (unfold is_uint; lia).
  cbv zeta.
  set (adbc := u64 (Q + R)).
  assert (exists c, (c = 0 \/ c = 1) /\ Q + R = adbc + c * 2 ^ 64 /\
    0 <= adbc < 2 ^ 64 /\ (if adbc <? Q then 1 else 0) = c) as (c & Hc & HQR & Hadbc & ->).
  { exists ((Q + R) / 2 ^ 64). subst adbc. split_and!; [zdm|zdm|zdm|zdm|]. bcase; zdm. }
  assert (adbc = adbc / 2 ^ 32 * 2 ^ 32 + adbc mod 2 ^ 32 /\ 0 <= adbc mod 2 ^ 32 < 2 ^ 32)
    as [Hsplit Hlow] by zdm.
  set (ah := adbc / 2 ^ 32) in *. set (al := adbc mod 2 ^ 32) in *.
  assert (u64 (adbc * 2 ^ 32) = al * 2 ^ 32) as -> by zdm.
  set (lo := u64 (T + al * 2 ^ 32)).
  assert (exists k, (k = 0 \/ k = 1) /\ T + al * 2 ^ 32 = lo + k * 2 ^ 64 /\
    0 <= lo < 2 ^ 64 /\ (if lo <? T then 1 else 0) = k) as (k & Hk & HTl & Hlo & ->).
  { exists ((T + al * 2 ^ 32) / 2 ^ 64). subst lo. split_and!; [zdm|zdm|zdm|zdm|]. bcase; zdm. }
  assert (0 <= ah < 2 ^ 32) by zdm.
  rewrite (wrapu_small 64 (c * 2 ^ 32)) by (unfold is_uint; lia).
  assert (0 <= P + ah + c * 2 ^ 32 + k < 2 ^ 64) by lia.
  rewrite (wrapu_small 64 (_ + k)) by (unfold is_uint; lia).
  unfold is_uint. lia.
Qed.

Lemma mul128_spec a b :
  is_u64 a -> is_u64 b ->
  is_u64 (fst (mul128 a b)) /\ is_u64 (snd (mul128 a b)) /\
  snd (mul128 a b) * 2 ^ 64 + fst (mul128 a b) = a * b.
Proof.
  intros Ha Hb. unfold mul128. cbv zeta.
  destruct (hi_lo_dword a Ha) as (ah & al & -> & -> & Ea & Hah & Hal).
  destruct (hi_lo_dword b Hb) as (bh & bl & -> & -> & Eb & Hbh & Hbl).
  rewrite !shiftl_mul, !shiftr_div by lia. cbn [fst snd].
  destruct (mul128_words (ah * bh) (ah * bl) (al * bh) (al * bl)) as (H1 & H2 & _ & H3);
    try (by apply mul32_bound).
  { subst a b. unfold is_uint in *. nia. }
  split_and!; [done..|]. rewrite H3. subst a b. ring.
Qed.

(** ** Quotients *)

Lemma div_with_reminder_spec d divisor r :
  0 <= d < 2 ^ 32 -> 0 < divisor < 2 ^ 32 -> 0 <= r < divisor ->
  exists q r', div_with_reminder d divisor r = (q, r') /\
    r * 2 ^ 32 + d = q * divisor + r' /\ 0 <= q < 2 ^ 32 /\ 0 <= r' < divisor.
Proof.
  intros Hd Hv Hr. unfold div_with_reminder. rewrite shiftl_mul by lia.
  rewrite wrapu_small by (unfold is_uint; lia). rewrite lor_disjoint by lia.
  set (n := d + r * 2 ^ 32).
  pose proof (Z.div_mod n divisor ltac:(lia)) as Hdm.
  pose proof (Z.mod_pos_bound n divisor ltac:(lia)) as Hm.
  exists (n / divisor), (n mod divisor). rewrite wrapu_small by (unfold is_uint; lia).
  split_and!; try (done || lia).
  - apply Z.div_pos; lia.
  - apply Z.div_lt_upper_bound; [lia|]. subst n. nia.
Qed.

Lemma div128_32_spec hi lo divisor :
  is_u64 hi -> is_u64 lo -> 0 < divisor < 2 ^ 32 ->
  exists r qh ql, div128_32 hi lo divisor = (r, qh, ql) /\
    is_u64 qh /\ is_u64 ql /\ 0 <= r < divisor /\
    hi * 2 ^ 64 + lo = (qh * 2 ^ 64 + ql) * divisor + r.
Proof.
  intros Hhi Hlo Hv. unfold div128_32.
  destruct (hi_lo_dword hi Hhi) as (w3 & w2 & -> & -> & Eh & H3 & H2).
  destruct (hi_lo_dword lo Hlo) as (w1 & w0 & -> & -> & El & H1 & H0).
  destruct (div_with_reminder_spec w3 divisor 0) as (q3 & r3 & -> & E3 & Hq3 & Hr3); [lia..|].
  destruct (div_with_reminder_spec w2 divisor r3) as (q2 & r2 & -> & E2 & Hq2 & Hr2); [lia..|].
  destruct (div_with_reminder_spec w1 divisor r2) as (q1 & r1 & -> & E1 & Hq1 & Hr1); [lia..|].
  destruct (div_with_reminder_spec w0 divisor r1) as (q0 & r0 & -> & E0 & Hq0 & Hr0); [lia..|].
  rewrite !shiftl_mul, !wrapu_small by (unfold is_uint; lia).
  rewrite !lor_disjoint_r by lia.
  eexists _, _, _. split; [reflexivity|]. unfold is_uint.
  split_and!; subst hi lo; nia.
Qed.

Lemma div128_64_spec hi lo divisor :
  is_u64 hi -> is_u64 lo -> 0 < divisor -> is_u64 divisor ->
  exists qh ql rh rl, div128_64 hi lo divisor = Some ((qh, ql), (rh, rl)) /\
    is_u64 qh /\ is_u64 ql /\ rh = 0 /\ 0 <= rl < divisor /\
    qh * 2 ^ 64 + ql = (hi * 2 ^ 64 + lo) / divisor /\
    rl = (hi * 2 ^ 64 + lo) mod divisor.
Proof.
  intros Hhi Hlo Hv Hd. unfold div128_64.
  destruct (Z.eqb_spec divisor 0) as [|_]; [lia|].
  rewrite shiftl_mul, wrapu_small by (unfold is_uint in *; lia).
  rewrite lor_disjoint_r by (unfold is_uint in *; lia).
  set (n := hi * 2 ^ 64 + lo).
  assert (0 <= n < 2 ^ 128) by (unfold is_uint in *; lia).
  change 0xffffffffffffffff with (2 ^ 64 - 1). rewrite !land_mask, !shiftr_div by lia.
  pose proof (Z.mod_pos_bound n divisor Hv).
  assert (0 <= n / divisor <= n).
  { split; [apply Z.div_pos; lia|]. apply Z.div_le_upper_bound; nia. }
  assert (n mod divisor / 2 ^ 64 = 0) as E by (apply Z.div_small; unfold is_uint in *; lia).
  eexists _, _, _, _. split; [reflexivity|]. rewrite E.
  rewrite (Z.mod_small (n mod divisor)) by (unfold is_uint in *; lia).
  split_and!; try (done || lia); [zdm..|].
  rewrite (Z.mod_small (n / divisor / 2 ^ 64)) by zdm. zdm.
Qed.

(** ** Byte order *)

Lemma land_255 b : is_u8 b -> Z.land b 255 = b.
Proof. intros. change 255 with (2 ^ 8 - 1). rewrite land_mask by lia. zdm. Qed.

(** [le_value] of a list padded with high zeros. *)
Lemma le_value_pad l n : le_value (l ++ replicate n 0) = le_value l.
Proof. rewrite le_value_app, le_value_zeros. lia. Qed.

Lemma le_value_shiftr_pad l k : bytes_ok l -> (k <= length l)%nat ->
  Z.shiftr (le_value l) (8 * Z.of_nat k) = le_value (drop k l ++ replicate k 0).
Proof. rewrite le_value_pad. apply le_value_shiftr. Qed.

(** Symbolic execution of masks, ors, shifts and truncations on [le_value] of
    an explicit buffer. *)
Ltac le_bytes_ok := solve [repeat constructor; first [assumption | zdm] | done].

Ltac le_step :=
  match goal with
  | |- context [Z.land (le_value ?l) (le_value ?m)] =>
      rewrite (le_value_land l m) by le_bytes_ok
  | |- context [Z.lor (le_value ?l) (le_value ?m)] =>
      rewrite (le_value_lor l m) by le_bytes_ok
  | |- context [Z.shiftl (le_value ?l) ?n] =>
      let k := eval vm_compute in (Z.to_nat (n / 8)) in
      change (Z.shiftl (le_value l) n) with (Z.shiftl (le_value l) (8 * Z.of_nat k));
      rewrite (le_value_shiftl l k)
  | |- context [Z.shiftr (le_value ?l) ?n] =>
      let k := eval vm_compute in (Z.to_nat (n / 8)) in
      change (Z.shiftr (le_value l) n) with (Z.shiftr (le_value l) (8 * Z.of_nat k));
      rewrite (le_value_shiftr_pad l k) by first [le_bytes_ok | simpl; lia]
  | |- context [wrapu ?n (le_value ?l)] =>
      let k := eval vm_compute in (Z.to_nat (n / 8)) in
      change (wrapu n (le_value l)) with (wrapu (8 * Z.of_nat k) (le_value l));
      rewrite (le_value_wrap l k) by first [le_bytes_ok | simpl; lia]
  end;
  cbn [zip_with app replicate take drop];
  rewrite ?land_255, ?Z.land_0_r, ?Z.lor_0_r, ?Z.lor_0_l by done.

Lemma swap64_le_value l :
  bytes_ok l -> length l = 8%nat -> swap64 (le_value l) = be_value l.
Proof.
  intros Hl Hlen. do 8 (destruct l as [|? l]; [discriminate Hlen|]).
  destruct l; [|discriminate Hlen].
  unfold bytes_ok in Hl. repeat (apply Forall_cons in Hl as [? Hl]).
  unfold swap64, be_value. cbn [rev app]. cbv zeta.
  change 0x00ff00ff00ff00ff with (le_value [255; 0; 255; 0; 255; 0; 255; 0]).
  change 0xff00ff00ff00ff00 with (le_value [0; 255; 0; 255; 0; 255; 0; 255]).
  change 0x0000ffff0000ffff with (le_value [255; 255; 0; 0; 255; 255; 0; 0]).
  change 0xffff0000ffff0000 with (le_value [0; 0; 255; 255; 0; 0; 255; 255]).
  repeat le_step. done.
Qed.

Lemma SWAP64_le_value l :
  bytes_ok l -> length l = 8%nat -> SWAP64 (le_value l) = be_value l.
Proof.
  intros Hl Hlen. do 8 (destruct l as [|? l]; [discriminate Hlen|]).
  destruct l; [|discriminate Hlen].
  unfold bytes_ok in Hl. repeat (apply Forall_cons in Hl as [? Hl]).
  unfold SWAP64, be_value. cbn [rev app]. cbv zeta.
  change 0x00000000000000ff with (le_value [255; 0; 0; 0; 0; 0; 0; 0]).
  change 0x000000000000ff00 with (le_value [0; 255; 0; 0; 0; 0; 0; 0]).
  change 0x0000000000ff0000 with (le_value [0; 0; 255; 0; 0; 0; 0; 0]).
  change 0x00000000ff000000 with (le_value [0; 0; 0; 255; 0; 0; 0; 0]).
  change 0x000000ff00000000 with (le_value [0; 0; 0; 0; 255; 0; 0; 0]).
  change 0x0000ff0000000000 with (le_value [0; 0; 0; 0; 0; 255; 0; 0]).
  change 0x00ff000000000000 with (le_value [0; 0; 0; 0; 0; 0; 255; 0]).
  change 0xff00000000000000 with (le_value [0; 0; 0; 0; 0; 0; 0; 255]).
  repeat le_step. done.
Qed.

(** ** Properties *)

(** [mul128] computes the full 128-bit product of two 64-bit words: the
    returned low word and [*product_hi] are 64-bit values with
    [product_hi * 2^64 + product_lo = multiplier * multiplicand]. *)
Theorem mul128_correct a b :
  is_u64 a -> is_u64 b ->
  is_u64 (fst (mul128 a b)) /\ is_u64 (snd (mul128 a b)) /\
  snd (mul128 a b) * 2 ^ 64 + fst (mul128 a b) = a * b.
Proof. apply mul128_spec. Qed.

Lemma mul128_correct_witness :
  let a := 0xfedcba9876543210 in let b := 0xffffffffffffffff in
  is_u64 (fst (mul128 a b)) /\ is_u64 (snd (mul128 a b)) /\
  snd (mul128 a b) * 2 ^ 64 + fst (mul128 a b) = a * b.
Proof.
  apply (mul128_correct 0xfedcba9876543210 0xffffffffffffffff); by vm_compute.
Defined.

(** The two long divisions: [div128_32] (base 2^32, word by word) and
    [div128_64] (through a 128-bit integer) return the quotient and the
    remainder of the 128-bit dividend, and agree with each other on a
    32-bit divisor. *)
Theorem div128_agree hi lo divisor :
  is_u64 hi -> is_u64 lo -> 0 < divisor < 2 ^ 32 ->
  exists qh ql r,
    div128_32 hi lo divisor = (r, qh, ql) /\
    div128_64 hi lo divisor = Some ((qh, ql), (0, r)) /\
    qh * 2 ^ 64 + ql = (hi * 2 ^ 64 + lo) / divisor /\
    r = (hi * 2 ^ 64 + lo) mod divisor.
Proof.
  intros Hhi Hlo Hv.
  destruct (div128_32_spec hi lo divisor Hhi Hlo Hv)
    as (r & qh & ql & -> & Hqh & Hql & Hr & Hq).
  destruct (div128_64_spec hi lo divisor Hhi Hlo) as (qh' & ql' & rh & rl & -> & Hqh' & Hql' & -> & Hrl & Hq' & Hr');
    [lia|unfold is_uint; lia|].
  assert (qh * 2 ^ 64 + ql = (hi * 2 ^ 64 + lo) / divisor) as Eq.
  { apply Z.div_unique with r; lia. }
  assert (r = (hi * 2 ^ 64 + lo) mod divisor) as Er.
  { apply Z.mod_unique with (qh * 2 ^ 64 + ql); lia. }
  unfold is_uint in *. assert (qh = qh' /\ ql = ql') as [-> ->] by lia.
  exists qh', ql', r. split_and!; try done. congruence.
Qed.

Lemma div128_agree_witness :
  exists qh ql r,
    div128_32 7 12345 1000000007 = (r, qh, ql) /\
    div128_64 7 12345 1000000007 = Some ((qh, ql), (0, r)) /\
    qh * 2 ^ 64 + ql = (7 * 2 ^ 64 + 12345) / 1000000007 /\
    r = (7 * 2 ^ 64 + 12345) mod 1000000007.
Proof. apply (div128_agree 7 12345 1000000007); [by vm_compute|by vm_compute|lia]. Defined.

(** The three-round [swap64] and the byte-by-byte [SWAP64] macro are the same
    function on 64-bit words, they reverse the eight bytes, and so are
    their own inverse. *)
Theorem swap64_correct x :
  is_u64 x ->
  swap64 x = SWAP64 x /\ swap64 x = be_value (le_bytes 8 x) /\ swap64 (swap64 x) = x.
Proof.
  intros Hx. pose proof (le_bytes_ok 8 x) as Hok.
  pose proof (length_le_bytes 8 x) as Hlen.
  assert (x = le_value (le_bytes 8 x)) as E.
  { rewrite le_value_bytes; [done|]. unfold is_uint in Hx. lia. }
  assert (swap64 x = be_value (le_bytes 8 x)) as Hs
    by (rewrite E at 1; by apply swap64_le_value).
  split_and!; [|done|].
  - rewrite Hs. rewrite E at 2. symmetry. by apply SWAP64_le_value.
  - rewrite Hs. unfold be_value at 1.
    rewrite swap64_le_value by (by apply bytes_ok_rev || (by rewrite length_rev)).
    unfold be_value. by rewrite rev_involutive, <- E.
Qed.

Lemma swap64_correct_witness :
  let x := 0x0123456789abcdef in
  swap64 x = SWAP64 x /\ swap64 x = be_value (le_bytes 8 x) /\ swap64 (swap64 x) = x.
Proof. apply (swap64_correct 0x0123456789abcdef). by vm_compute. Defined.
