(* ===== verification/Limbs.v ===== *)
(** * Limb arithmetic

    The big number code of [src/crypto/crypto-ops.c] keeps a number as signed
    limbs in fixed-width variables and works on them by straight-line carries
    and folds.  A signed operation that overflows is undefined in C: here it
    is [None] ([chk]).  (Shifts of negative numbers are arithmetic, as every
    compiler of the project makes them.)

    The operations are data ([op]) so that one checker decides, for ranges of
    the limbs, that no operation of a sequence overflows and that the number
    the limbs stand for does not change modulo [m]. *)

From S2P Require Import Prelude.

(** ** Definitions *)

(** A signed [w]-bit result. *)
Definition chk (w x : Z) : option Z :=
  if (- 2 ^ (w - 1) <=? x) && (x <? 2 ^ (w - 1)) then Some x else None.

Definition limb (s : list Z) (i : nat) : Z := nth i s 0.

Inductive op :=
  (** [s_dst += s_k * c] (or [-= s_k * (-c)] for [c < 0]) for each target. *)
  | Fold (k : nat) (targets : list (nat * Z))
  (** [s_k = 0]. *)
  | Zero (k : nat)
  (** [carry = (s_src + (1 << (bits - 1))) >> bits; s_dst += carry * mul;
      s_src -= carry << bits], without the rounding term unless [round]. *)
  | Carry (src dst : nat) (bits : Z) (round : bool) (mul : Z).

Definition accumulate (w x : Z) (s : list Z) (t : nat * Z) : option (list Z) :=
  let '(dst, c) := t in
  p ← chk w (x * Z.abs c);
  v ← chk w (if c <? 0 then limb s dst - p else limb s dst + p);
  Some (<[dst := v]> s).

Fixpoint accumulate_all (w x : Z) (s : list Z) (ts : list (nat * Z)) : option (list Z) :=
  match ts with
  | [] => Some s
  | t :: ts => s ← accumulate w x s t; accumulate_all w x s ts
  end.

Definition exec (w : Z) (s : list Z) (o : op) : option (list Z) :=
  match o with
  | Fold k ts => accumulate_all w (limb s k) s ts
  | Zero k => Some (<[k := 0]> s)
  | Carry src dst bits round mul =>
      t ← (if round : bool then chk w (limb s src + 2 ^ (bits - 1)) else Some (limb s src));
      let carry := Z.shiftr t bits in
      m ← chk w (carry * mul);
      d ← chk w (limb s dst + m);
      let s := <[dst := d]> s in
      sh ← chk w (Z.shiftl carry bits);
      x ← chk w (limb s src - sh);
      Some (<[src := x]> s)
  end.

Fixpoint run (w : Z) (s : list Z) (os : list op) : option (list Z) :=
  match os with
  | [] => Some s
  | o :: os => s ← exec w s o; run w s os
  end.

(** A sum of terms, added from the left. *)
Fixpoint sum_from (w acc : Z) (l : list Z) : option Z :=
  match l with
  | [] => Some acc
  | x :: l => acc ← chk w (acc + x); sum_from w acc l
  end.
Definition sum_checked (w : Z) (l : list Z) : option Z :=
  match l with [] => Some 0 | x :: l => sum_from w x l end.

(** ** Ranges *)

Lemma chk_some w x : - 2 ^ (w - 1) <= x < 2 ^ (w - 1) -> chk w x = Some x.
Proof. intros Hx. unfold chk. replace (_ && _) with true; [done|]. symmetry. lia. Qed.

Definition within (x : Z) (b : Z * Z) : Prop := fst b <= x <= snd b.
Definition in_box (s : list Z) (B : list (Z * Z)) : Prop := Forall2 within s B.
Definition side_of (B : list (Z * Z)) (i : nat) : Z * Z := nth i B (0, 0).

(** The range of a checked result. *)
Definition fits (w : Z) (b : Z * Z) : bool := (- 2 ^ (w - 1) <=? fst b) && (snd b <? 2 ^ (w - 1)).

Definition range_add (a b : Z * Z) : Z * Z := (fst a + fst b, snd a + snd b).
Definition range_sub (a b : Z * Z) : Z * Z := (fst a - snd b, snd a - fst b).
Definition range_scale (c : Z) (a : Z * Z) : Z * Z := (fst a * c, snd a * c).
Definition range_map (f : Z -> Z) (a : Z * Z) : Z * Z := (f (fst a), f (snd a)).

Lemma chk_fits w x b : within x b -> fits w b = true -> chk w x = Some x.
Proof. unfold within, fits. intros Hx [? ?]%andb_true_iff. apply chk_some. lia. Qed.

Lemma in_box_length s B : in_box s B -> length s = length B.
Proof. apply Forall2_length. Qed.

Lemma in_box_limb s B i : in_box s B -> within (limb s i) (side_of B i).
Proof.
  intros Hb. revert i. unfold limb, side_of. induction Hb as [|x b s B Hx _ IH]; intros [|i]; cbn [nth];
    [done..|done|apply IH].
Qed.

Lemma in_box_insert s B i x b : in_box s B -> within x b -> in_box (<[i := x]> s) (<[i := b]> B).
Proof. intros. by apply Forall2_insert. Qed.

Lemma limb_insert s i j x : (i < length s)%nat -> limb (<[i := x]> s) j = if decide (i = j) then x else limb s j.
Proof.
  unfold limb. revert i j; induction s as [|y s IH]; intros [|i] [|j] Hi; cbn [length nth list_insert] in *; try lia;
    try (by destruct (decide _)); try done.
  change (<[S i:=x]> (y :: s)) with (y :: <[i:=x]> s). cbn [nth]. rewrite IH by lia.
  by destruct (decide (i = j)), (decide (S i = S j)); try lia.
Qed.

(** ** The checker *)

Definition accumulate_range (w : Z) (x : Z * Z) (B : list (Z * Z)) (t : nat * Z) : option (list (Z * Z)) :=
  let '(dst, c) := t in
  let p := range_scale (Z.abs c) x in
  let v := if c <? 0 then range_sub (side_of B dst) p else range_add (side_of B dst) p in
  if fits w p && fits w v then Some (<[dst := v]> B) else None.

Fixpoint accumulate_ranges (w : Z) (x : Z * Z) (B : list (Z * Z)) (ts : list (nat * Z)) : option (list (Z * Z)) :=
  match ts with
  | [] => Some B
  | t :: ts => B ← accumulate_range w x B t; accumulate_ranges w x B ts
  end.

(** What is left of a limb after its carry. *)
Definition rest_range (bits : Z) (round : bool) : Z * Z :=
  if round then (- 2 ^ (bits - 1), 2 ^ (bits - 1) - 1) else (0, 2 ^ bits - 1).

Definition exec_range (w : Z) (B : list (Z * Z)) (o : op) : option (list (Z * Z)) :=
  match o with
  | Fold k ts => accumulate_ranges w (side_of B k) B ts
  | Zero k => Some (<[k := (0, 0)]> B)
  | Carry src dst bits round mul =>
      let t := if round : bool then range_map (Z.add (2 ^ (bits - 1))) (side_of B src) else side_of B src in
      let carry := range_map (fun x => Z.shiftr x bits) t in
      let m := range_scale mul carry in
      let d := range_add (side_of B dst) m in
      let sh := range_map (fun x => Z.shiftl x bits) carry in
      let x := rest_range bits round in
      if (0 <? bits) && (0 <=? mul) && negb (src =? dst)%nat && (src <? length B)%nat && (dst <? length B)%nat
         && fits w t && fits w m && fits w d && fits w sh && fits w x
      then Some (<[src := x]> (<[dst := d]> B)) else None
  end.

Fixpoint run_range (w : Z) (B : list (Z * Z)) (os : list op) : option (list (Z * Z)) :=
  match os with
  | [] => Some B
  | o :: os => B ← exec_range w B o; run_range w B os
  end.

Lemma within_scale c x b : 0 <= c -> within x b -> within (x * c) (range_scale c b).
Proof. unfold within. cbn. nia. Qed.
Lemma within_add x y a b : within x a -> within y b -> within (x + y) (range_add a b).
Proof. unfold within. cbn. lia. Qed.
Lemma within_sub x y a b : within x a -> within y b -> within (x - y) (range_sub a b).
Proof. unfold within. cbn. lia. Qed.

Lemma accumulate_sound w x xb s B t B' : within x xb -> in_box s B ->
  accumulate_range w xb B t = Some B' -> exists s', accumulate w x s t = Some s' /\ in_box s' B'.
Proof.
  destruct t as [dst c]. unfold accumulate_range, accumulate. intros Hx Hs. case_match eqn:E; [|done].
  intros [= <-]. apply andb_true_iff in E as [E1 E2].
  pose proof (within_scale (Z.abs c) x xb (Z.abs_nonneg c) Hx) as Hp. rewrite (chk_fits _ _ _ Hp E1). cbn [mbind option_bind].
  pose proof (in_box_limb s B dst Hs) as Hd.
  set (v := if c <? 0 then range_sub _ _ else _) in *.
  assert (within (if c <? 0 then limb s dst - x * Z.abs c else limb s dst + x * Z.abs c) v) as Hv.
  { unfold v. destruct (c <? 0); [by apply within_sub|by apply within_add]. }
  rewrite (chk_fits _ _ _ Hv E2). cbn [mbind option_bind]. eexists. split; [done|]. by apply in_box_insert.
Qed.

Lemma accumulate_all_sound w x xb ts s B B' : within x xb -> in_box s B ->
  accumulate_ranges w xb B ts = Some B' -> exists s', accumulate_all w x s ts = Some s' /\ in_box s' B'.
Proof.
  intros Hx. revert s B; induction ts as [|t ts IH]; intros s B Hs; cbn [accumulate_ranges accumulate_all].
  { intros [= <-]. by exists s. }
  destruct (accumulate_range w xb B t) as [B1|] eqn:E; [|done]. cbn [mbind option_bind].
  destruct (accumulate_sound _ _ _ _ _ _ _ Hx Hs E) as (s1 & -> & Hs1). by apply IH.
Qed.

Lemma shiftr_within b x r : 0 <= b -> within x r -> within (Z.shiftr x b) (range_map (fun x => Z.shiftr x b) r).
Proof. unfold within. cbn. intros Hb Hx. rewrite !shiftr_div by done. split; apply Z.div_le_mono; lia. Qed.
Lemma shiftl_within b x r : 0 <= b -> within x r -> within (Z.shiftl x b) (range_map (fun x => Z.shiftl x b) r).
Proof. unfold within. cbn. intros Hb Hx. rewrite !shiftl_mul by done. nia. Qed.

(** [s_src] without its carry. *)
Lemma carry_rest bits (round : bool) x : 0 < bits ->
  within (x - Z.shiftl (Z.shiftr (if round then x + 2 ^ (bits - 1) else x) bits) bits) (rest_range bits round).
Proof.
  intros Hb. rewrite shiftr_div, shiftl_mul by lia. unfold rest_range, within.
  assert (2 ^ bits = 2 * 2 ^ (bits - 1)) as E by (rewrite <- Z.pow_succ_r by lia; f_equal; lia).
  pose proof (Z.pow_pos_nonneg 2 (bits - 1) ltac:(lia) ltac:(lia)). set (h := 2 ^ (bits - 1)) in *.
  set (q := 2 ^ bits) in *. set (y := if round then x + h else x).
  pose proof (Z.div_mod y q ltac:(lia)). pose proof (Z.mod_pos_bound y q ltac:(lia)).
  destruct round; cbn; subst y; lia.
Qed.

Lemma exec_sound w s B o B' : in_box s B -> exec_range w B o = Some B' ->
  exists s', exec w s o = Some s' /\ in_box s' B'.
Proof.
  intros Hs. destruct o as [k ts|k|src dst bits round mul]; cbn [exec exec_range].
  - apply accumulate_all_sound; [by apply in_box_limb|done].
  - intros [= <-]. eexists. split; [done|]. by apply in_box_insert.
  - case_match eqn:E; [|done]. intros [= <-]. rewrite !andb_true_iff, negb_true_iff in E.
    destruct E as [[[[[[[[[Hb Hm] Hne] Hls] Hld] Ft] Fm] Fd] Fsh] Fx].
    rewrite Nat.eqb_neq, !Nat.ltb_lt in *. pose proof (in_box_length _ _ Hs) as Hlen.
    pose proof (in_box_limb s B src Hs) as Hsrc. pose proof (in_box_limb s B dst Hs) as Hdst.
    set (t := if round then limb s src + 2 ^ (bits - 1) else limb s src).
    assert (within t (if round then range_map (Z.add (2 ^ (bits - 1))) (side_of B src) else side_of B src)) as Ht.
    { unfold t, within in *. destruct round; cbn in *; lia. }
    assert ((if round then chk w (limb s src + 2 ^ (bits - 1)) else Some (limb s src)) = Some t) as ->.
    { unfold t. destruct round; [|done]. by eapply chk_fits; [exact Ht|]. }
    cbn [mbind option_bind]. pose proof (shiftr_within bits t _ ltac:(lia) Ht) as Hc. set (c := Z.shiftr t bits) in *.
    pose proof (within_scale mul c _ ltac:(lia) Hc) as Hcm. rewrite (chk_fits _ _ _ Hcm Fm). cbn [mbind option_bind].
    pose proof (within_add _ _ _ _ Hdst Hcm) as Hd. rewrite (chk_fits _ _ _ Hd Fd). cbn [mbind option_bind].
    pose proof (shiftl_within bits c _ ltac:(lia) Hc) as Hsh. rewrite (chk_fits _ _ _ Hsh Fsh). cbn [mbind option_bind].
    rewrite limb_insert by lia. destruct (decide (dst = src)); [lia|].
    assert (within (limb s src - Z.shiftl c bits) (rest_range bits round)) as Hx by (apply carry_rest; lia).
    rewrite (chk_fits _ _ _ Hx Fx). cbn [mbind option_bind]. eexists. split; [done|]. by repeat apply in_box_insert.
Qed.

Lemma run_sound w os s B B' : in_box s B -> run_range w B os = Some B' ->
  exists s', run w s os = Some s' /\ in_box s' B'.
Proof.
  revert s B; induction os as [|o os IH]; intros s B Hs; cbn [run run_range].
  { intros [= <-]. by exists s. }
  destruct (exec_range w B o) as [B1|] eqn:E; [|done]. cbn [mbind option_bind].
  destruct (exec_sound _ _ _ _ _ Hs E) as (s1 & -> & Hs1). by apply IH.
Qed.

(** ** The value of the limbs *)

Definition value (wts s : list Z) : Z := foldr Z.add 0 (zip_with Z.mul wts s).

Lemma value_cons a x wts s : value (a :: wts) (x :: s) = a * x + value wts s.
Proof. done. Qed.

Lemma value_insert wts s i x : length wts = length s -> (i < length s)%nat ->
  value wts (<[i := x]> s) = value wts s + limb wts i * (x - limb s i).
Proof.
  revert s i; induction wts as [|a wts IH]; intros [|y s] [|i] Hl Hi; cbn [length] in *; try lia.
  - change (<[0%nat:=x]> (y :: s)) with (x :: s). rewrite !value_cons. unfold limb. cbn [nth]. lia.
  - change (<[S i:=x]> (y :: s)) with (y :: <[i:=x]> s). rewrite !value_cons, IH by lia. unfold limb. cbn [nth]. lia.
Qed.

Lemma value_comm wts s : value wts s = value s wts.
Proof.
  revert s; induction wts as [|a wts IH]; intros [|y s]; try done. rewrite !value_cons, IH. lia.
Qed.

Lemma value_weight wts s i a : length wts = length s -> (i < length s)%nat ->
  value (<[i := a]> wts) s = value wts s + (a - limb wts i) * limb s i.
Proof. intros Hl Hi. rewrite value_comm, value_insert, (value_comm s) by lia. lia. Qed.

(** ** Preserving the value modulo [m] *)

Definition divides (m x : Z) : bool := x mod m =? 0.

Lemma divides_sound m x : divides m x = true -> (m | x).
Proof.
  unfold divides. intros E%Z.eqb_eq. destruct (decide (m = 0)) as [->|]; [|by apply Z.mod_divide].
  rewrite Z.mod_0_r in E. subst x. apply Z.divide_refl.
Qed.

Definition targets_value (wts : list Z) (ts : list (nat * Z)) : Z :=
  foldr (fun '(dst, c) v => c * limb wts dst + v) 0 ts.

(** The weights after an operation: a folded limb no longer counts, a zeroed
    one counts again with its weight in [base]. *)
Definition exec_weight (m : Z) (base wts : list Z) (o : op) : option (list Z) :=
  match o with
  | Fold k ts =>
      if (k <? length wts)%nat && forallb (fun '(dst, _) => negb (dst =? k)%nat && (dst <? length wts)%nat) ts
         && divides m (targets_value wts ts - limb wts k)
      then Some (<[k := 0]> wts) else None
  | Zero k => if (k <? length wts)%nat && (limb wts k =? 0) then Some (<[k := limb base k]> wts) else None
  | Carry src dst bits _ mul =>
      if (src <? length wts)%nat && (dst <? length wts)%nat && negb (src =? dst)%nat && (0 <=? bits)
         && divides m (mul * limb wts dst - 2 ^ bits * limb wts src)
      then Some wts else None
  end.

Fixpoint run_weight (m : Z) (base wts : list Z) (os : list op) : option (list Z) :=
  match os with
  | [] => Some wts
  | o :: os => wts ← exec_weight m base wts o; run_weight m base wts os
  end.

Lemma chk_inv w x y : chk w x = Some y -> y = x.
Proof. unfold chk. case_match; congruence. Qed.

Lemma accumulate_all_value w x ts k wts s s' : length wts = length s ->
  forallb (fun '(dst, _) => negb (dst =? k)%nat && (dst <? length wts)%nat) ts = true ->
  accumulate_all w x s ts = Some s' ->
  length s' = length s /\ limb s' k = limb s k /\ value wts s' = value wts s + x * targets_value wts ts.
Proof.
  revert s; induction ts as [|[dst c] ts IH]; intros s Hl Hts; cbn [accumulate_all].
  { intros [= <-]. unfold targets_value. cbn. split_and!; [done..|lia]. }
  cbn [forallb] in Hts. rewrite !andb_true_iff, negb_true_iff, Nat.eqb_neq, Nat.ltb_lt in Hts. destruct Hts as [[Hne Hlt] Hts].
  unfold accumulate. destruct (chk w (x * Z.abs c)) as [p|] eqn:Ep; [|done]. apply chk_inv in Ep as ->. cbn [mbind option_bind].
  match goal with |- context [chk w ?e] => destruct (chk w e) as [v|] eqn:Ev end; [|done]. apply chk_inv in Ev. cbn [mbind option_bind].
  intros Hs'. apply IH in Hs' as (Hl' & Hk & Hv); [|by rewrite length_insert|done]. rewrite length_insert in Hl'.
  split; [done|]. rewrite limb_insert in Hk by lia. destruct (decide (dst = k)); [lia|]. split; [done|].
  rewrite Hv, value_insert by lia. unfold targets_value at 2. cbn [foldr]. fold (targets_value wts ts).
  destruct (Z.ltb_spec c 0); subst v; nia.
Qed.

Lemma exec_value w m base wts s o s' wts' : length wts = length s -> exec w s o = Some s' ->
  exec_weight m base wts o = Some wts' ->
  length wts' = length s' /\ (m | value wts' s' - value wts s).
Proof.
  intros Hl He Hw. destruct o as [k ts|k|src dst bits round mul]; cbn [exec exec_weight] in *.
  - case_match eqn:E; [|done]. injection Hw as <-. rewrite !andb_true_iff, Nat.ltb_lt in E. destruct E as [[Hk Hts] Hd].
    apply divides_sound in Hd. destruct (accumulate_all_value _ _ _ k wts _ _ Hl Hts He) as (Hl' & Hk' & Hv).
    rewrite length_insert. split; [lia|]. rewrite value_weight, Hv, Hk' by lia.
    replace (_ - _) with (limb s k * (targets_value wts ts - limb wts k)) by lia. by apply Z.divide_mul_r.
  - case_match eqn:E; [|done]. injection Hw as <-. injection He as <-. rewrite andb_true_iff, Nat.ltb_lt, Z.eqb_eq in E.
    rewrite !length_insert. split; [done|]. rewrite value_insert, value_weight by (rewrite ?length_insert; lia).
    rewrite limb_insert by lia. destruct (decide (k = k)); [|done]. destruct E as [_ ->]. exists 0. lia.
  - case_match eqn:E; [|done]. injection Hw as <-. rewrite !andb_true_iff, negb_true_iff, Nat.eqb_neq, !Nat.ltb_lt in E.
    destruct E as [[[[Hs Hd] Hne] Hb] Hdiv]. apply divides_sound in Hdiv.
    set (t := if round then limb s src + 2 ^ (bits - 1) else limb s src).
    assert ((if round then chk w (limb s src + 2 ^ (bits - 1)) else Some (limb s src)) = Some t
            \/ (if round then chk w (limb s src + 2 ^ (bits - 1)) else Some (limb s src)) = None) as [Et|Et].
    { unfold t, chk. destruct round; [case_match; auto|auto]. }
    2:{ rewrite Et in He. done. }
    rewrite Et in He. cbn [mbind option_bind] in He.
    destruct (chk w (Z.shiftr t bits * mul)) as [cm|] eqn:Ecm; [|done]. apply chk_inv in Ecm as ->. cbn [mbind option_bind] in He.
    destruct (chk w (limb s dst + _)) as [d|] eqn:Ed; [|done]. apply chk_inv in Ed as ->. cbn [mbind option_bind] in He.
    destruct (chk w (Z.shiftl _ _)) as [sh|] eqn:Esh; [|done]. apply chk_inv in Esh as ->. cbn [mbind option_bind] in He.
    destruct (chk w (_ - _)) as [x|] eqn:Ex; [|done]. apply chk_inv in Ex as ->. cbn [mbind option_bind] in He.
    injection He as <-. rewrite !length_insert. split; [done|].
    rewrite !value_insert, !limb_insert by (rewrite ?length_insert; lia). destruct (decide (dst = src)); [lia|].
    rewrite shiftl_mul by lia. set (c := Z.shiftr t bits).
    replace (_ - value wts s) with (c * (mul * limb wts dst - 2 ^ bits * limb wts src)) by lia. by apply Z.divide_mul_r.
Qed.

Lemma run_value w m base os wts s s' wts' : length wts = length s -> run w s os = Some s' ->
  run_weight m base wts os = Some wts' ->
  length wts' = length s' /\ (m | value wts' s' - value wts s).
Proof.
  revert wts s; induction os as [|o os IH]; intros wts s Hl; cbn [run run_weight].
  { intros [= <-] [= <-]. split; [done|]. exists 0. lia. }
  destruct (exec w s o) as [s1|] eqn:E; [|done]. cbn [mbind option_bind]. intros Hr.
  destruct (exec_weight m base wts o) as [wts1|] eqn:Ew; [|done]. cbn [mbind option_bind]. intros Hw.
  destruct (exec_value _ _ _ _ _ _ _ _ Hl E Ew) as [Hl1 H1]. destruct (IH _ _ Hl1 Hr Hw) as [Hl' H2].
  split; [done|]. replace (_ - _) with ((value wts' s' - value wts1 s1) + (value wts1 s1 - value wts s)) by lia.
  by apply Z.divide_add_r.
Qed.

(** Both checks together. *)
Lemma run_checked w m base os wts s B B' wts' : length wts = length s -> in_box s B ->
  run_range w B os = Some B' -> run_weight m base wts os = Some wts' ->
  exists s', run w s os = Some s' /\ in_box s' B' /\ length wts' = length s' /\ (m | value wts' s' - value wts s).
Proof.
  intros Hl Hb HB HW. destruct (run_sound _ _ _ _ _ Hb HB) as (s' & E & Hb').
  exists s'. split; [done|]. split; [done|]. by apply (run_value w m base os).
Qed.

Lemma run_app w os os' s : run w s (os ++ os') = s ← run w s os; run w s os'.
Proof.
  revert s; induction os as [|o os IH]; intros s; cbn [run app]; [done|].
  destruct (exec w s o); cbn [mbind option_bind]; [apply IH|done].
Qed.

(** Range of a value. *)
Definition value_range (wts : list Z) (B : list (Z * Z)) : Z * Z :=
  (value wts (map fst B), value wts (map snd B)).

Lemma value_within wts s B : Forall (Z.le 0) wts -> in_box s B -> within (value wts s) (value_range wts B).
Proof.
  intros Hw. revert s B; induction Hw as [|a wts Ha _ IH]; intros s B Hb; [done|].
  destruct Hb as [|x b s B Hx Hb]; [done|]. specialize (IH _ _ Hb). unfold value_range, within in *. cbn [map fst snd] in *.
  rewrite !value_cons. nia.
Qed.

(** ** Sums *)

Definition total (l : list Z) : Z := foldr Z.add 0 l.

Lemma total_bound M l : Forall (fun x => Z.abs x <= M) l -> Z.abs (total l) <= Z.of_nat (length l) * M.
Proof.
  induction 1 as [|x l Hx _ IH]; [done|]. unfold total in *. cbn [foldr length]. rewrite Nat2Z.inj_succ. lia.
Qed.

Lemma sum_from_some w M l acc : Forall (fun x => Z.abs x <= M) l -> 0 <= M ->
  Z.abs acc + Z.of_nat (length l) * M < 2 ^ (w - 1) -> sum_from w acc l = Some (acc + total l).
Proof.
  intros Hl HM. revert acc; induction Hl as [|x l Hx _ IH]; intros acc Hacc; cbn [sum_from].
  { unfold total. cbn. f_equal. lia. }
  cbn [length] in Hacc. rewrite Nat2Z.inj_succ in Hacc.
  rewrite chk_some by nia. cbn [mbind option_bind]. rewrite IH by nia. unfold total. cbn [foldr]. f_equal. lia.
Qed.

Lemma sum_checked_some w M l : Forall (fun x => Z.abs x <= M) l -> 0 <= M ->
  Z.of_nat (length l) * M < 2 ^ (w - 1) -> sum_checked w l = Some (total l).
Proof.
  intros Hl HM Hb. destruct Hl as [|x l Hx Hl]; [done|]. cbn [length] in Hb. rewrite Nat2Z.inj_succ in Hb.
  cbn [sum_checked]. rewrite (sum_from_some w M) by (done || lia). done.
Qed.

Lemma mapM_chk {A} w (f : A -> Z) l : Forall (fun x => - 2 ^ (w - 1) <= f x < 2 ^ (w - 1)) l ->
  mapM (fun x => chk w (f x)) l = Some (map f l).
Proof.
  induction 1 as [|x l Hx _ IH]; [done|]. cbn [mapM map]. rewrite chk_some by done. cbn [mbind option_bind].
  by rewrite IH.
Qed.

Lemma mapM_map {A B} (f : A -> option B) (g : A -> B) l : Forall (fun x => f x = Some (g x)) l ->
  mapM f l = Some (map g l).
Proof. induction 1 as [|x l Hx _ IH]; [done|]. cbn [mapM map]. rewrite Hx. cbn [mbind option_bind]. by rewrite IH. Qed.

(** ** Results of checked computations *)

(** The computation has a result (nothing overflowed), and it satisfies [P]. *)
Definition returns {A} (m : option A) (P : A -> Prop) : Prop := exists a, m = Some a /\ P a.

Lemma returns_some {A} (a : A) (P : A -> Prop) : P a -> returns (Some a) P.
Proof. intros Ha. by exists a. Qed.

Lemma returns_bind {A B} (m : option A) (k : A -> option B) (P : A -> Prop) (Q : B -> Prop) :
  returns m P -> (forall a, P a -> returns (k a) Q) -> returns (m ≫= k) Q.
Proof. intros (a & -> & Ha) Hk. by apply Hk. Qed.

Lemma returns_fmap {A B} (m : option A) (k : A -> B) (Q : B -> Prop) : returns m (fun a => Q (k a)) -> returns (k <$> m) Q.
Proof. intros (a & -> & Ha). by exists (k a). Qed.

Lemma returns_mono {A} (m : option A) (P Q : A -> Prop) : returns m P -> (forall a, P a -> Q a) -> returns m Q.
Proof. intros (a & -> & Ha) HPQ. exists a. auto. Qed.

Lemma returns_eq {A} (m : option A) x : m = Some x <-> returns m (eq x).
Proof. split; [by intros ->; exists x|by intros (a & -> & ->)]. Qed.
