(* ===== verification/ScalarOps.v ===== *)
(** * Scalars modulo the group order

    The [sc_*] routines of [src/crypto/crypto-ops.c] on 32-byte little-endian
    numbers: 12 (or 24) limbs of 21 bits, schoolbook products, carries, and
    folds of [2^252] onto its six-limb remainder modulo the group order.  The
    theorems say that every routine returns the reduced result for all
    32-byte inputs and that no 64-bit operation on the way overflows. *)

From S2P Require Import Prelude Limbs.

(** ** Definitions *)

(** [l = 2^252 + 27742317777372353535851937790883648493]. *)
Definition ell : Z := 2 ^ 252 + 27742317777372353535851937790883648493.

Definition byte (s : list Z) (i : nat) : Z := nth i s 0.

Definition load_3 (s : list Z) (i : nat) : Z :=
  Z.lor (Z.lor (byte s i) (u64 (Z.shiftl (byte s (i + 1)) 8))) (u64 (Z.shiftl (byte s (i + 2)) 16)).

Definition load_4 (s : list Z) (i : nat) : Z :=
  Z.lor (Z.lor (Z.lor (byte s i) (u64 (Z.shiftl (byte s (i + 1)) 8))) (u64 (Z.shiftl (byte s (i + 2)) 16)))
        (u64 (Z.shiftl (byte s (i + 3)) 24)).

(** The limbs of 32 bytes ([a0] to [a11]). *)
Definition load_limbs (s : list Z) : list Z := [
  Z.land 2097151 (load_3 s 0);
  Z.land 2097151 (Z.shiftr (load_4 s 2) 5);
  Z.land 2097151 (Z.shiftr (load_3 s 5) 2);
  Z.land 2097151 (Z.shiftr (load_4 s 7) 7);
  Z.land 2097151 (Z.shiftr (load_4 s 10) 4);
  Z.land 2097151 (Z.shiftr (load_3 s 13) 1);
  Z.land 2097151 (Z.shiftr (load_4 s 15) 6);
  Z.land 2097151 (Z.shiftr (load_3 s 18) 3);
  Z.land 2097151 (load_3 s 21);
  Z.land 2097151 (Z.shiftr (load_4 s 23) 5);
  Z.land 2097151 (Z.shiftr (load_3 s 26) 2);
  Z.shiftr (load_4 s 28) 7].

(** The limbs of 64 bytes ([s0] to [s23] of [sc_reduce]). *)
Definition load_wide (s : list Z) : list Z := [
  Z.land 2097151 (load_3 s 0);
  Z.land 2097151 (Z.shiftr (load_4 s 2) 5);
  Z.land 2097151 (Z.shiftr (load_3 s 5) 2);
  Z.land 2097151 (Z.shiftr (load_4 s 7) 7);
  Z.land 2097151 (Z.shiftr (load_4 s 10) 4);
  Z.land 2097151 (Z.shiftr (load_3 s 13) 1);
  Z.land 2097151 (Z.shiftr (load_4 s 15) 6);
  Z.land 2097151 (Z.shiftr (load_3 s 18) 3);
  Z.land 2097151 (load_3 s 21);
  Z.land 2097151 (Z.shiftr (load_4 s 23) 5);
  Z.land 2097151 (Z.shiftr (load_3 s 26) 2);
  Z.land 2097151 (Z.shiftr (load_4 s 28) 7);
  Z.land 2097151 (Z.shiftr (load_4 s 31) 4);
  Z.land 2097151 (Z.shiftr (load_3 s 34) 1);
  Z.land 2097151 (Z.shiftr (load_4 s 36) 6);
  Z.land 2097151 (Z.shiftr (load_3 s 39) 3);
  Z.land 2097151 (load_3 s 42);
  Z.land 2097151 (Z.shiftr (load_4 s 44) 5);
  Z.land 2097151 (Z.shiftr (load_3 s 47) 2);
  Z.land 2097151 (Z.shiftr (load_4 s 49) 7);
  Z.land 2097151 (Z.shiftr (load_4 s 52) 4);
  Z.land 2097151 (Z.shiftr (load_3 s 55) 1);
  Z.land 2097151 (Z.shiftr (load_4 s 57) 6);
  Z.shiftr (load_4 s 60) 3].

(** [s[0] = s0 >> 0; ...]: the bytes of the limbs. *)
Definition store_limbs (s : list Z) : list Z :=
  let hi i n := Z.shiftr (limb s i) n in
  let lo i n := Z.shiftl (limb s i) n in
  map u8 [
    hi 0%nat 0; hi 0%nat 8; Z.lor (hi 0%nat 16) (lo 1%nat 5);
    hi 1%nat 3; hi 1%nat 11; Z.lor (hi 1%nat 19) (lo 2%nat 2);
    hi 2%nat 6; Z.lor (hi 2%nat 14) (lo 3%nat 7);
    hi 3%nat 1; hi 3%nat 9; Z.lor (hi 3%nat 17) (lo 4%nat 4);
    hi 4%nat 4; hi 4%nat 12; Z.lor (hi 4%nat 20) (lo 5%nat 1);
    hi 5%nat 7; Z.lor (hi 5%nat 15) (lo 6%nat 6);
    hi 6%nat 2; hi 6%nat 10; Z.lor (hi 6%nat 18) (lo 7%nat 3);
    hi 7%nat 5; hi 7%nat 13;
    hi 8%nat 0; hi 8%nat 8; Z.lor (hi 8%nat 16) (lo 9%nat 5);
    hi 9%nat 3; hi 9%nat 11; Z.lor (hi 9%nat 19) (lo 10%nat 2);
    hi 10%nat 6; Z.lor (hi 10%nat 14) (lo 11%nat 7);
    hi 11%nat 1; hi 11%nat 9; hi 11%nat 17].

(** [carry_k = (s_k + (1<<20)) >> 21; s_{k+1} += carry_k; s_k -= carry_k << 21]. *)
Definition round (k : nat) : op := Carry k (S k) 21 true 1.
(** [carry_k = s_k >> 21; ...]. *)
Definition carry (k : nat) : op := Carry k (S k) 21 false 1.
(** [s_{k-12} += s_k * 666643; ... s_{k-7} -= s_k * 683901]. *)
Definition fold_targets (k : nat) : list (nat * Z) :=
         [((k - 12)%nat, 666643); ((k - 11)%nat, 470296); ((k - 10)%nat, 654183);
          ((k - 9)%nat, -997805); ((k - 8)%nat, 136657); ((k - 7)%nat, -683901)].
Definition fold (k : nat) : op := Fold k (fold_targets k).

(** The end of every routine, from limbs [s0] to [s12]. *)
Definition tail_ops : list op :=
  map round [0; 2; 4; 6; 8; 10; 1; 3; 5; 7; 9; 11]%nat ++ [fold 12; Zero 12]
  ++ map carry [0; 1; 2; 3; 4; 5; 6; 7; 8; 9; 10; 11]%nat
  ++ [fold 12] ++ map carry [0; 1; 2; 3; 4; 5; 6; 7; 8; 9; 10]%nat.

(** From 24 limbs. *)
Definition reduce_ops : list op :=
  map fold [23; 22; 21; 20; 19; 18]%nat ++ map round [6; 8; 10; 12; 14; 16; 7; 9; 11; 13; 15]%nat
  ++ map fold [17; 16; 15; 14; 13; 12]%nat ++ [Zero 12] ++ tail_ops.

(** From the 24 limbs of a product. *)
Definition product_ops : list op :=
  map round [0; 2; 4; 6; 8; 10; 12; 14; 16; 18; 20; 22; 1; 3; 5; 7; 9; 11; 13; 15; 17; 19; 21]%nat
  ++ reduce_ops.

Definition finish (ops : list op) (s : list Z) : option (list Z) := store_limbs <$> run 64 s ops.

Definition sc_0 : list Z := replicate 32 0.
Definition sc_1 : list Z := 1 :: replicate 31 0.

Definition sc_reduce (s : list Z) : option (list Z) := finish reduce_ops (load_wide s).
Definition sc_reduce32 (s : list Z) : option (list Z) := finish tail_ops (load_limbs s ++ [0]).

Definition sc_add (a b : list Z) : option (list Z) :=
  s ← mapM (fun '(x, y) => chk 64 (x + y)) (zip (load_limbs a) (load_limbs b));
  finish tail_ops (s ++ [0]).

Definition sc_sub (a b : list Z) : option (list Z) :=
  s ← mapM (fun '(x, y) => chk 64 (x - y)) (zip (load_limbs a) (load_limbs b));
  finish tail_ops (s ++ [0]).

(** [a_i*b_{k-i} + ...], from the least [i] on. *)
Definition product_limb (a b : list Z) (k : nat) : option Z :=
  ps ← mapM (fun i => chk 64 (limb a i * limb b (k - i))) (seq (k - 11) (Nat.min k 11 + 1 - (k - 11)));
  sum_checked 64 ps.

Definition product_limbs (a b : list Z) : option (list Z) :=
  mapM (product_limb (load_limbs a) (load_limbs b)) (seq 0 23).

Definition sc_mul (a b : list Z) : option (list Z) :=
  s ← product_limbs a b;
  finish product_ops (s ++ [0]).

Definition sc_muladd (a b c : list Z) : option (list Z) :=
  ps ← product_limbs a b;
  s ← mapM (fun '(c, p) => chk 64 (c + p)) (zip (load_limbs c) (take 12 ps));
  finish product_ops (s ++ drop 12 ps ++ [0]).

(** [c - ab]. *)
Definition sc_mulsub (a b c : list Z) : option (list Z) :=
  ps ← product_limbs a b;
  s ← mapM (fun '(c, p) => chk 64 (c - p)) (zip (load_limbs c) (take 12 ps));
  t ← mapM (fun p => chk 64 (- p)) (drop 12 ps);
  finish product_ops (s ++ t ++ [0]).

Definition signum (a : Z) : Z := if 0 <? a then 1 else if a <? 0 then -1 else 0.

Definition sc_check (s : list Z) : Z :=
  let w i := load_4 s (4 * i) in
  - Z.b2z (signum (1559614444 - w 0%nat)
           + Z.shiftl (signum (1477600026 - w 1%nat)) 1
           + Z.shiftl (signum (2734136534 - w 2%nat)) 2
           + Z.shiftl (signum (350157278 - w 3%nat)) 3
           + Z.shiftl (signum (- w 4%nat)) 4
           + Z.shiftl (signum (- w 5%nat)) 5
           + Z.shiftl (signum (- w 6%nat)) 6
           + Z.shiftl (signum (268435456 - w 7%nat)) 7 <? 0).

Definition sc_isnonzero (s : list Z) : Z :=
  Z.shiftr (foldl Z.lor (byte s 0) (map (byte s) (seq 1 31)) - 1) 8 + 1.

(** ** Loading *)

Lemma byte_ok s i : bytes_ok s -> is_u8 (byte s i).
Proof.
  intros Hs. unfold byte. destruct (decide (i < length s)%nat) as [Hi|Hi].
  - unfold bytes_ok in Hs. rewrite Forall_forall in Hs. apply Hs, list_elem_of_In, nth_In. done.
  - rewrite nth_overflow by lia. by vm_compute.
Qed.

Lemma le_value_byte s i : bytes_ok s -> le_value (drop i s) = byte s i + 256 * le_value (drop (S i) s).
Proof.
  intros Hs. unfold byte. destruct (decide (i < length s)%nat) as [Hi|Hi].
  - destruct (lookup_lt_is_Some_2 s i Hi) as [b Hb]. rewrite (drop_S _ _ _ Hb). cbn [le_value].
    by rewrite (nth_lookup_Some _ _ _ _ Hb).
  - rewrite !drop_ge, nth_overflow by lia. done.
Qed.

Lemma le_value_drop_nonneg s i : bytes_ok s -> 0 <= le_value (drop i s).
Proof. intros Hs. apply le_value_range. by apply Forall_drop. Qed.

Lemma or_byte x b k : is_u8 b -> 0 <= k <= 24 -> 0 <= x < 2 ^ k -> Z.lor x (u64 (Z.shiftl b k)) = x + 2 ^ k * b.
Proof.
  intros [Hb0 Hb] Hk Hx. rewrite shiftl_mul by lia.
  assert (2 ^ k <= 2 ^ 24) by (apply Z.pow_le_mono_r; lia). assert (0 < 2 ^ k) by (apply Z.pow_pos_nonneg; lia).
  rewrite wrapu_small by (unfold is_uint; nia). rewrite lor_disjoint by lia. lia.
Qed.

Lemma load_3_value s i : bytes_ok s -> load_3 s i = le_value (drop i s) mod 2 ^ 24.
Proof.
  intros Hs. unfold load_3. pose proof (byte_ok s i Hs) as [B0 B0']. pose proof (byte_ok s (i + 1) Hs) as H1.
  pose proof (byte_ok s (i + 2) Hs) as H2. pose proof H1 as [B1 B1']. pose proof H2 as [B2 B2'].
  rewrite (or_byte _ _ 8), (or_byte _ _ 16) by (try done; lia).
  rewrite (le_value_byte s i), (le_value_byte s (S i)), (le_value_byte s (S (S i))) by done.
  replace (S (S i)) with (i + 2)%nat by lia. replace (S i) with (i + 1)%nat by lia. zdm.
Qed.

Lemma load_4_value s i : bytes_ok s -> load_4 s i = le_value (drop i s) mod 2 ^ 32.
Proof.
  intros Hs. unfold load_4. fold (load_3 s i). rewrite load_3_value by done. pose proof (byte_ok s (i + 3) Hs) as H3.
  pose proof (Z.mod_pos_bound (le_value (drop i s)) (2 ^ 24)). rewrite (or_byte _ _ 24) by (try done; lia).
  pose proof (byte_ok s i Hs). pose proof (byte_ok s (S i) Hs). pose proof (byte_ok s (S (S i)) Hs).
  rewrite (le_value_byte s i), (le_value_byte s (S i)), (le_value_byte s (S (S i))), (le_value_byte s (S (S (S i)))) by done.
  replace (S (S (S i))) with (i + 3)%nat by lia. zdm.
Qed.

Lemma le_value_drop_div s i : bytes_ok s -> le_value (drop i s) = le_value s / 2 ^ (8 * Z.of_nat i).
Proof.
  intros Hs. destruct (decide (i <= length s)%nat) as [Hi|Hi].
  - rewrite <- le_value_shiftr, shiftr_div by (done || lia). done.
  - rewrite drop_ge by lia. symmetry. pose proof (le_value_range s Hs) as Hr. apply Z.div_small. split; [lia|].
    eapply Z.lt_le_trans; [apply Hr|]. rewrite pow256. apply Z.pow_le_mono_r; lia.
Qed.

Lemma div_pow_div x a b : 0 <= a -> 0 <= b -> x / 2 ^ a / 2 ^ b = x / 2 ^ (a + b).
Proof. intros. rewrite Z.div_div, Z.pow_add_r by (try apply Z.pow_nonzero; try apply Z.pow_pos_nonneg; lia). done. Qed.

(** Bits [r] up to [r + n] of a word of [k >= r + n] bits. *)
Lemma word_bits y k r n : 0 <= r -> 0 <= n -> r + n <= k -> (y mod 2 ^ k / 2 ^ r) mod 2 ^ n = (y / 2 ^ r) mod 2 ^ n.
Proof.
  intros Hr Hn Hk. assert (2 ^ k = 2 ^ (k - r - n) * 2 ^ n * 2 ^ r) as Ek by (rewrite <- !Z.pow_add_r by lia; f_equal; lia).
  pose proof (Z.pow_pos_nonneg 2 r ltac:(lia) Hr). pose proof (Z.pow_pos_nonneg 2 n ltac:(lia) Hn).
  assert (2 ^ k <> 0) by (apply Z.pow_nonzero; lia).
  rewrite (Z.div_mod y (2 ^ k)) at 2 by done. rewrite Ek at 2.
  replace (_ * 2 ^ r * (y / 2 ^ k) + y mod 2 ^ k)
    with (y mod 2 ^ k + 2 ^ (k - r - n) * (y / 2 ^ k) * 2 ^ n * 2 ^ r) by ring.
  rewrite Z.div_add, Z.mod_add by lia. done.
Qed.

Lemma load_bits_3 s i r : bytes_ok s -> 0 <= r <= 3 ->
  Z.land 2097151 (Z.shiftr (load_3 s i) r) = (le_value s / 2 ^ (8 * Z.of_nat i + r)) mod 2 ^ 21.
Proof.
  intros Hs Hr. rewrite Z.land_comm. change 2097151 with (2 ^ 21 - 1).
  rewrite land_mask, shiftr_div, load_3_value, word_bits, le_value_drop_div, div_pow_div by (done || lia). done.
Qed.

Lemma load_bits_4 s i r : bytes_ok s -> 0 <= r <= 11 ->
  Z.land 2097151 (Z.shiftr (load_4 s i) r) = (le_value s / 2 ^ (8 * Z.of_nat i + r)) mod 2 ^ 21.
Proof.
  intros Hs Hr. rewrite Z.land_comm. change 2097151 with (2 ^ 21 - 1).
  rewrite land_mask, shiftr_div, load_4_value, word_bits, le_value_drop_div, div_pow_div by (done || lia). done.
Qed.

(** The top limb. *)
Lemma load_top s i r : bytes_ok s -> length s = (i + 4)%nat -> 0 <= r ->
  Z.shiftr (load_4 s i) r = le_value s / 2 ^ (8 * Z.of_nat i + r).
Proof.
  intros Hs Hl Hr. rewrite shiftr_div, load_4_value by done.
  pose proof (le_value_range (drop i s) (Forall_drop _ _ _ Hs)) as Hd. rewrite length_drop, Hl, pow256 in Hd.
  replace (8 * Z.of_nat (i + 4 - i)) with 32 in Hd by lia.
  rewrite Z.mod_small, le_value_drop_div, div_pow_div by (done || lia). done.
Qed.

(** The limbs of [x], [n] of them below the top one. *)
Fixpoint limbs_of (n : nat) (x : Z) : list Z :=
  match n with O => [x] | S n => x mod 2 ^ 21 :: limbs_of n (x / 2 ^ 21) end.

(** [2^(21 i)]. *)
Definition weights (n : nat) : list Z := map (fun i => 2 ^ (21 * Z.of_nat i)) (seq 0 n).

Lemma value_scale c wts s : value (map (Z.mul c) wts) s = c * value wts s.
Proof.
  revert s; induction wts as [|a wts IH]; intros [|x s]; cbn [map]; rewrite ?value_cons, ?IH; unfold value; cbn; lia.
Qed.

Lemma weights_S n : weights (S n) = 1 :: map (Z.mul (2 ^ 21)) (weights n).
Proof.
  unfold weights. cbn [seq map]. f_equal. rewrite <- seq_shift, !map_map. apply map_ext. intros i.
  rewrite <- Z.pow_add_r by lia. f_equal. lia.
Qed.

Lemma limbs_of_value n x : value (weights (S n)) (limbs_of n x) = x.
Proof.
  revert x; induction n as [|n IH]; intros x; rewrite weights_S; cbn [limbs_of]; rewrite value_cons.
  - unfold value. cbn. lia.
  - rewrite value_scale, IH. pose proof (Z.div_mod x (2 ^ 21)). lia.
Qed.

Lemma load_limbs_value s : bytes_ok s -> length s = 32%nat -> load_limbs s = limbs_of 11 (le_value s).
Proof.
  intros Hs Hl. unfold load_limbs. rewrite <- (Z.shiftr_0_r (load_3 s 0)), <- (Z.shiftr_0_r (load_3 s 21)).
  rewrite !load_bits_3, !load_bits_4, load_top by (done || lia).
  cbn [limbs_of]. rewrite !div_pow_div by lia. by rewrite Z.div_1_r.
Qed.

Lemma load_wide_value s : bytes_ok s -> length s = 64%nat -> load_wide s = limbs_of 23 (le_value s).
Proof.
  intros Hs Hl. unfold load_wide.
  rewrite <- (Z.shiftr_0_r (load_3 s 0)), <- (Z.shiftr_0_r (load_3 s 21)), <- (Z.shiftr_0_r (load_3 s 42)).
  rewrite !load_bits_3, !load_bits_4, load_top by (done || lia).
  cbn [limbs_of]. rewrite !div_pow_div by lia. by rewrite Z.div_1_r.
Qed.

(** ** Storing *)

Lemma le_bytes_nth n x : le_bytes n x = map (fun k => (x / 2 ^ (8 * Z.of_nat k)) mod 256) (seq 0 n).
Proof.
  revert x; induction n as [|n IH]; intros x; [done|]. cbn [seq map]. rewrite le_bytes_S, IH, <- seq_shift, map_map.
  rewrite Z.div_1_r. f_equal. apply map_ext. intros k. change 256 with (2 ^ 8) at 1. rewrite div_pow_div by lia.
  do 2 f_equal. f_equal. lia.
Qed.

Lemma store_1 V o x y w r : 0 <= o -> 0 <= r -> r + 8 <= w -> V / 2 ^ o = x + 2 ^ w * y ->
  u8 (Z.shiftr x r) = (V / 2 ^ (o + r)) mod 256.
Proof.
  intros Ho Hr Hw E. rewrite <- div_pow_div, E, shiftr_div by lia. unfold wrapu. change 256 with (2 ^ 8).
  replace (2 ^ w) with (2 ^ (w - r - 8) * 2 ^ 8 * 2 ^ r) by (rewrite <- !Z.pow_add_r by lia; f_equal; lia).
  replace (x + _) with (x + 2 ^ (w - r - 8) * y * 2 ^ 8 * 2 ^ r) by ring.
  by rewrite Z.div_add, Z.mod_add by (try apply Z.pow_nonzero; lia).
Qed.

Lemma store_2 V o x x' y w r : 0 <= o -> 0 <= r <= w -> 0 <= x < 2 ^ w -> V / 2 ^ o = x + 2 ^ w * (x' + 2 ^ 8 * y) ->
  u8 (Z.lor (Z.shiftr x r) (Z.shiftl x' (w - r))) = (V / 2 ^ (o + r)) mod 256.
Proof.
  intros Ho Hr Hx E. rewrite <- div_pow_div, E, shiftr_div, shiftl_mul by lia.
  assert (0 < 2 ^ r) by (apply Z.pow_pos_nonneg; lia). assert (0 < 2 ^ (w - r)) by (apply Z.pow_pos_nonneg; lia).
  assert (2 ^ w = 2 ^ (w - r) * 2 ^ r) as Ew by (rewrite <- Z.pow_add_r by lia; f_equal; lia).
  assert (0 <= x / 2 ^ r < 2 ^ (w - r)) by (split; [apply Z.div_pos; lia|apply Z.div_lt_upper_bound; lia]).
  rewrite lor_disjoint by lia. rewrite Ew. unfold wrapu. change 256 with (2 ^ 8).
  replace (x + _) with (x + (x' * 2 ^ (w - r) + 2 ^ (w - r) * y * 2 ^ 8) * 2 ^ r) by ring.
  rewrite Z.div_add by lia. rewrite Z.add_assoc, Z.mod_add by lia. done.
Qed.

(** Cutting off the low limb. *)
Lemma tail_limb V o x y : 0 <= o -> V / 2 ^ o = x + 2 ^ 21 * y -> 0 <= x < 2 ^ 21 -> V / 2 ^ (o + 21) = y.
Proof. intros Ho E Hx. rewrite <- div_pow_div, E by lia. zdm. Qed.

Lemma value_drop s n i : length s = n -> (i < n)%nat ->
  value (weights (n - i)) (drop i s) = limb s i + 2 ^ 21 * value (weights (n - S i)) (drop (S i) s).
Proof.
  intros Hl Hi. destruct (lookup_lt_is_Some_2 s i ltac:(lia)) as [x Hx]. rewrite (drop_S _ _ _ Hx).
  replace (n - i)%nat with (S (n - S i)) by lia. rewrite weights_S, value_cons, value_scale.
  unfold limb. rewrite (nth_lookup_Some _ _ _ _ Hx). lia.
Qed.

Lemma store_limbs_value s : length s = 12%nat -> (forall i, (i < 11)%nat -> 0 <= limb s i < 2 ^ 21) ->
  0 <= limb s 11 < 2 ^ 25 -> store_limbs s = le_bytes 32 (value (weights 12) s).
Proof.
  intros Hl Hs Ht. unfold store_limbs. rewrite le_bytes_nth. set (V := value (weights 12) s).
  assert (forall i, (i < 12)%nat -> V / 2 ^ (21 * Z.of_nat i) = value (weights (12 - i)) (drop i s)) as Hd.
  { intros i. induction i as [|i IH]; intros Hi; [by rewrite Z.div_1_r|].
    replace (21 * Z.of_nat (S i)) with (21 * Z.of_nat i + 21) by lia.
    eapply (tail_limb V _ (limb s i)); [lia| |apply Hs; lia]. rewrite IH by lia. apply value_drop; [done|lia]. }
  assert (forall i, (i < 12)%nat -> V / 2 ^ (21 * Z.of_nat i) = limb s i + 2 ^ 21 * value (weights (12 - S i)) (drop (S i) s)) as H1.
  { intros i Hi. rewrite Hd by done. apply value_drop; [done|lia]. }
  assert (forall i, (i < 11)%nat -> V / 2 ^ (21 * Z.of_nat i) =
    limb s i + 2 ^ 21 * (limb s (S i) + 2 ^ 8 * (2 ^ 13 * value (weights (12 - S (S i))) (drop (S (S i)) s)))) as H2.
  { intros i Hi. rewrite H1 by lia. rewrite (value_drop s 12 (S i)) by (done || lia). lia. }
  assert (forall (i : nat) r k, (i < 11)%nat -> 0 <= r -> r + 8 <= 21 -> 8 * Z.of_nat k = 21 * Z.of_nat i + r ->
    u8 (Z.shiftr (limb s i) r) = (V / 2 ^ (8 * Z.of_nat k)) mod 256) as G1.
  { intros i r k Hi Hr Hr' ->. eapply store_1; [lia|done|done|]. apply H1. lia. }
  assert (forall (i : nat) r r' k, (i < 11)%nat -> 0 <= r <= 21 -> r' = 21 - r -> 8 * Z.of_nat k = 21 * Z.of_nat i + r ->
    u8 (Z.lor (Z.shiftr (limb s i) r) (Z.shiftl (limb s (S i)) r')) = (V / 2 ^ (8 * Z.of_nat k)) mod 256) as G2.
  { intros i r r' k Hi Hr -> ->. eapply store_2; [lia|done|by apply Hs|]. by apply H2. }
  assert (forall r k, 0 <= r <= 17 -> 8 * Z.of_nat k = 21 * Z.of_nat 11 + r ->
    u8 (Z.shiftr (limb s 11) r) = (V / 2 ^ (8 * Z.of_nat k)) mod 256) as G3.
  { intros r k Hr ->. apply (store_1 _ _ _ 0 25); [lia..|]. rewrite H1 by lia. rewrite (drop_ge s) by lia. done. }
  cbn [map seq]. repeat f_equal.
  all: first [apply G1; lia|apply G2; lia|apply G3; lia].
Qed.

(** ** Reducing *)

(** Weights of 12 or 13 limbs of [n]; the others are dead. *)
Definition live (k n : nat) : list Z := weights k ++ replicate (n - k) 0.

Lemma value_nil_r w : value w [] = 0.
Proof. by rewrite value_comm. Qed.

Lemma value_app a b s : value (a ++ b) s = value a s + value b (drop (length a) s).
Proof.
  revert s; induction a as [|x a IH]; intros s; cbn [length app]; [by rewrite drop_0|].
  destruct s as [|y s]; [by rewrite drop_nil, !value_nil_r|]. rewrite !value_cons, IH. cbn [drop]. lia.
Qed.

Lemma value_zeroes k s : value (replicate k 0) s = 0.
Proof. revert s; induction k as [|k IH]; intros [|x s]; try done. cbn [replicate]. rewrite value_cons, IH. lia. Qed.

Lemma live_value k n s : value (live k n) s = value (weights k) s.
Proof. unfold live. rewrite value_app, value_zeroes. lia. Qed.

Lemma length_weights n : length (weights n) = n.
Proof. unfold weights. by rewrite length_map, length_seq. Qed.

Lemma value_take w s : value w s = value w (take (length w) s).
Proof. revert s; induction w as [|a w IH]; intros [|x s]; try done. cbn [length take]. by rewrite !value_cons, IH. Qed.

Lemma value_snoc n s : value (weights (S n)) s = value (weights n) s + 2 ^ (21 * Z.of_nat n) * limb s n.
Proof.
  unfold weights. rewrite seq_S, map_app, value_app, length_map, length_seq. cbn [map Nat.add]. f_equal.
  unfold limb. destruct (drop n s) as [|x t] eqn:E.
  - rewrite nth_overflow; [cbn; lia|]. apply (f_equal length) in E. rewrite length_drop in E. cbn in E. lia.
  - rewrite <- (take_drop n s), E. assert (length (take n s) = n) as Ht.
    { rewrite length_take. apply (f_equal length) in E. rewrite length_drop in E. cbn in E. lia. }
    rewrite app_nth2, Ht, Nat.sub_diag by lia. unfold value. cbn. destruct t; cbn; lia.
Qed.

Lemma limb_take n s i : (i < n)%nat -> limb (take n s) i = limb s i.
Proof. intros Hi. unfold limb. rewrite !nth_lookup. by rewrite lookup_take_lt. Qed.

Lemma store_take s : store_limbs s = store_limbs (take 12 s).
Proof.
  unfold store_limbs. by rewrite !limb_take by lia.
Qed.

(** Limbs a tail starts from: 12 of at most 58 bits, and [s12 = 0]. *)
Definition tail_box (n : nat) : list (Z * Z) :=
  replicate 12 (- 2 ^ 58, 2 ^ 58) ++ (0, 0) :: replicate (n - 13) (- 2 ^ 62, 2 ^ 62).

Definition two_252 : Z := 2 ^ 252.

(** The last fold: a number of [(-2^252, 2^252)] in canonical limbs, with its
    sign in [s12]. *)
Lemma last_fold x y c : - two_252 < x < two_252 -> x = y + two_252 * c -> 0 <= y < two_252 -> -1 <= c <= 0 ->
  y + c * (two_252 - ell) = x mod ell.
Proof.
  intros Hx E Hy Hc. assert (two_252 < ell) by (by vm_compute).
  assert (c = 0 \/ c = -1) as [Ec|Ec] by lia; subst c.
  - rewrite Z.mod_small; lia.
  - apply Z.mod_unique with (q := -1); lia.
Qed.

Lemma value_bounds wts s B lo hi : forallb (Z.leb 0) wts = true ->
  (lo <? fst (value_range wts B)) && (snd (value_range wts B) <? hi) = true -> in_box s B -> lo < value wts s < hi.
Proof.
  intros Hw Hr Hs. apply (value_within wts) in Hs.
  - unfold within in Hs. lia.
  - apply Forall_forall. intros x Hx%list_elem_of_In. rewrite forallb_forall in Hw. specialize (Hw x Hx). lia.
Qed.

Lemma in_box_side s B i b : in_box s B -> side_of B i = b -> within (limb s i) b.
Proof. intros Hb <-. by apply in_box_limb. Qed.

Ltac computed := vm_compute; reflexivity.

(** The four parts of the tail. *)
Definition tail_a : list op := map round [0; 2; 4; 6; 8; 10; 1; 3; 5; 7; 9; 11]%nat ++ [fold 12; Zero 12].
Definition tail_b : list op := map carry [0; 1; 2; 3; 4; 5; 6; 7; 8; 9; 10; 11]%nat.
Definition tail_d : list op := map carry [0; 1; 2; 3; 4; 5; 6; 7; 8; 9; 10]%nat.

Lemma tail_parts s : run 64 s tail_ops =
  s ← run 64 s tail_a; s ← run 64 s tail_b; s ← exec 64 s (fold 12); run 64 s tail_d.
Proof.
  change tail_ops with (tail_a ++ tail_b ++ fold 12 :: tail_d). rewrite run_app.
  destruct (run 64 s tail_a) as [s1|]; [|done]. cbn [mbind option_bind]. by rewrite run_app.
Qed.

(** What the checker finds out about them. *)
Lemma tail_checks n : (n = 13 \/ n = 24)%nat -> exists B1 B2 B3 B4,
  run_range 64 (tail_box n) tail_a = Some B1 /\ run_weight ell (weights n) (live 13 n) tail_a = Some (live 13 n) /\
  (forall s, in_box s B1 -> - two_252 < value (live 13 n) s < two_252) /\
  run_range 64 B1 tail_b = Some B2 /\ run_weight 0 (weights n) (live 13 n) tail_b = Some (live 13 n) /\
  take 12 B2 = replicate 12 (0, 2 ^ 21 - 1) /\ side_of B2 12 = (-1, 0) /\
  exec_range 64 B2 (fold 12) = Some B3 /\ run_range 64 B3 tail_d = Some B4 /\
  run_weight 0 (weights n) (live 12 n) tail_d = Some (live 12 n) /\ take 11 B4 = replicate 11 (0, 2 ^ 21 - 1).
Proof.
  intros [E|E]; subst n; do 4 eexists; (split; [computed|]); (split; [computed|]);
    (split; [intros s' Hs'; eapply value_bounds; [| |exact Hs']; by vm_compute|]);
    repeat (split; [computed|]); computed.
Qed.

Lemma length_live k n : (k <= n)%nat -> length (live k n) = n.
Proof. intros. unfold live. rewrite length_app, length_weights, length_replicate. lia. Qed.

Lemma fold_value n s s' : (n = 13 \/ n = 24)%nat -> length s = n -> exec 64 s (fold 12) = Some s' ->
  length s' = n /\ value (weights 12) s' = value (weights 12) s + limb s 12 * (two_252 - ell).
Proof.
  intros Hn Hl E.
  destruct (accumulate_all_value 64 (limb s 12) (fold_targets 12) 12 (live 12 n) s s') with (3 := E) as (Hl' & _ & V).
  - rewrite length_live; lia.
  - destruct Hn as [En|En]; by rewrite En.
  - split; [lia|]. rewrite !live_value in V. by rewrite V.
Qed.

Lemma in_box_take k s B : in_box s B -> in_box (take k s) (take k B).
Proof. apply Forall2_take. Qed.

Lemma canonical_limbs k s : (forall i, (i < k)%nat -> 0 <= limb s i < 2 ^ 21) ->
  0 <= value (weights k) s < 2 ^ (21 * Z.of_nat k).
Proof.
  induction k as [|k IH]; intros Hi; [done|]. rewrite value_snoc.
  replace (21 * Z.of_nat (S k)) with (21 + 21 * Z.of_nat k) by lia. rewrite Z.pow_add_r by lia.
  pose proof (Hi k ltac:(lia)). assert (0 <= value (weights k) s < 2 ^ (21 * Z.of_nat k)) by (apply IH; intros i ?; apply Hi; lia).
  nia.
Qed.

Lemma box_limbs k s B : in_box s B -> take k B = replicate k (0, 2 ^ 21 - 1) ->
  forall i, (i < k)%nat -> 0 <= limb s i < 2 ^ 21.
Proof.
  intros Hb Ht i Hi. pose proof (in_box_limb s B i Hb) as Hw.
  assert (side_of B i = (0, 2 ^ 21 - 1)) as E; [|rewrite E in Hw; unfold within in Hw; cbn in *; lia].
  unfold side_of. rewrite nth_lookup, <- (lookup_take_lt _ k), Ht by done. by rewrite lookup_replicate_2.
Qed.

Lemma tail_spec n s : (n = 13 \/ n = 24)%nat -> in_box s (tail_box n) ->
  exists s', run 64 s tail_ops = Some s' /\ store_limbs s' = le_bytes 32 (value (weights 12) s mod ell).
Proof.
  intros Hn Hb. destruct (tail_checks n Hn) as (B1 & B2 & B3 & B4 & R1 & W1 & V1 & R2 & W2 & T2 & S2 & R3 & R4 & W4 & T4).
  assert (length s = n) as Hl by (rewrite (in_box_length _ _ Hb); by destruct Hn as [E|E]; subst n).
  destruct (run_checked 64 ell (weights n) tail_a (live 13 n) s _ _ _ ltac:(rewrite length_live; lia) Hb R1 W1)
    as (s1 & E1 & Hb1 & Hl1 & D1).
  destruct (run_checked 64 0 (weights n) tail_b (live 13 n) s1 _ _ _ Hl1 Hb1 R2 W2) as (s2 & E2 & Hb2 & Hl2 & D2).
  destruct (exec_sound 64 s2 B2 (fold 12) B3 Hb2 R3) as (s3 & E3 & Hb3). rewrite length_live in Hl2 by lia.
  destruct (fold_value n s2 s3 Hn ltac:(lia) E3) as [Hl3 V3].
  destruct (run_checked 64 0 (weights n) tail_d (live 12 n) s3 _ _ _ ltac:(rewrite length_live; lia) Hb3 R4 W4)
    as (s4 & E4 & Hb4 & Hl4 & D4).
  exists s4. rewrite tail_parts, E1. cbn [mbind option_bind]. rewrite E2. cbn [mbind option_bind]. rewrite E3. cbn [mbind option_bind].
  split; [exact E4|]. rewrite length_live in Hl4 by lia. specialize (V1 s1 Hb1). rewrite !live_value in *.
  apply Z.divide_0_l in D2. apply Z.divide_0_l in D4.
  pose proof (canonical_limbs 12 s2 (box_limbs 12 s2 B2 Hb2 T2)) as Y2.
  pose proof (box_limbs 11 s4 B4 Hb4 T4) as L4. pose proof (canonical_limbs 11 s4 L4) as Y4.
  pose proof (in_box_side s2 B2 12 _ Hb2 S2) as C2. pose proof (in_box_side s _ 12 (0, 0) Hb eq_refl) as Hz.
  unfold within in C2, Hz. cbn [fst snd] in C2, Hz. rewrite (value_snoc 12 s), (value_snoc 12 s2) in *.
  change (2 ^ (21 * Z.of_nat 12)) with two_252 in *.
  assert (value (weights 12) s4 = value (weights 12) s mod ell) as V4.
  { assert (limb s 12 = 0) as Z12 by lia. rewrite Z12, Z.mul_0_r, Z.add_0_r in D1.
    replace (value (weights 12) s4) with (value (weights 13) s1 mod ell).
    - destruct D1 as [q D1]. replace (value (weights 13) s1) with (value (weights 12) s + q * ell) by lia.
      by apply Z.mod_add.
    - rewrite <- (last_fold (value (weights 13) s1) (value (weights 12) s2) (limb s2 12)); lia. }
  assert (0 <= value (weights 12) s4 < ell) as R4' by (rewrite V4; by apply Z.mod_pos_bound).
  rewrite store_take, store_limbs_value, <- V4; rewrite ?limb_take by lia.
  - by rewrite (value_take _ s4), length_weights.
  - rewrite length_take. lia.
  - intros i Hi. rewrite limb_take by lia. by apply L4.
  - rewrite (value_snoc 11 s4) in R4'. change (2 ^ (21 * Z.of_nat 11)) with (2 ^ 231) in *.
    assert (ell < 2 ^ 253) by (by vm_compute). lia.
Qed.

Definition box_sub (B B' : list (Z * Z)) : bool :=
  (length B =? length B')%nat
  && forallb (fun '(b, b') => (fst b' <=? fst b) && (snd b <=? snd b')) (zip B B').

Lemma in_box_sub s B B' : box_sub B B' = true -> in_box s B -> in_box s B'.
Proof.
  unfold box_sub. intros [Hl Hz]%andb_true_iff Hb. apply Nat.eqb_eq in Hl. revert B' Hl Hz.
  induction Hb as [|x b s B Hx _ IH]; intros [|b' B'] Hl Hz; cbn in *; try lia; [constructor|].
  apply andb_true_iff in Hz as [Hb' Hz]. constructor; [unfold within in *; lia|]. apply IH; [lia|done].
Qed.

Lemma reduce_spec P s B B' : length B = 24%nat -> in_box s B -> run_range 64 B P = Some B' -> box_sub B' (tail_box 24) = true ->
  run_weight ell (weights 24) (weights 24) P = Some (live 13 24) ->
  finish (P ++ tail_ops) s = Some (le_bytes 32 (value (weights 24) s mod ell)).
Proof.
  intros HlB Hb HB Hsub HW. pose proof (in_box_length _ _ Hb) as Hl. rewrite HlB in Hl.
  destruct (run_sound _ _ _ _ _ Hb HB) as (s1 & E1 & Hb1). apply (in_box_sub _ _ _ Hsub) in Hb1.
  destruct (run_value 64 ell (weights 24) P (weights 24) s s1 (live 13 24)) as [_ D1]; [by rewrite length_weights|done|done|].
  destruct (tail_spec 24 s1 ltac:(by right) Hb1) as (s2 & E2 & Hs2).
  unfold finish. rewrite run_app, E1. cbn [mbind option_bind]. rewrite E2. cbn [fmap option_fmap option_map]. rewrite Hs2. do 2 f_equal.
  rewrite live_value, value_snoc in D1. pose proof (in_box_side s1 _ 12 (0, 0) Hb1 eq_refl) as Hz. unfold within in Hz. cbn in Hz.
  destruct D1 as [q D1]. replace (value (weights 12) s1) with (value (weights 24) s + q * ell) by lia. by apply Z.mod_add.
Qed.

Definition pre_reduce : list op :=
  map fold [23; 22; 21; 20; 19; 18]%nat ++ map round [6; 8; 10; 12; 14; 16; 7; 9; 11; 13; 15]%nat
  ++ map fold [17; 16; 15; 14; 13; 12]%nat ++ [Zero 12].
Definition pre_product : list op :=
  map round [0; 2; 4; 6; 8; 10; 12; 14; 16; 18; 20; 22; 1; 3; 5; 7; 9; 11; 13; 15; 17; 19; 21]%nat ++ pre_reduce.

Lemma wide_spec s : in_box s (replicate 24 (0, 2 ^ 29 - 1)) ->
  finish reduce_ops s = Some (le_bytes 32 (value (weights 24) s mod ell)).
Proof. intros Hb. eapply (reduce_spec pre_reduce); [|exact Hb|..]; computed. Qed.

Lemma product_spec s : in_box s (replicate 23 (- 2 ^ 55, 2 ^ 55) ++ [(0, 0)]) ->
  finish product_ops s = Some (le_bytes 32 (value (weights 24) s mod ell)).
Proof. intros Hb. eapply (reduce_spec pre_product); [|exact Hb|..]; computed. Qed.

(** ** Products *)

(** Limbs of at most 25 bits. *)
Definition small_limbs (a : list Z) : Prop := length a = 12%nat /\ Forall (fun x => 0 <= x < 2 ^ 25) a.

Definition convolution (a b : list Z) (k : nat) : Z :=
  total (map (fun i => limb a i * limb b (k - i)) (seq (k - 11) (Nat.min k 11 + 1 - (k - 11)))).

Lemma small_limb a i : small_limbs a -> 0 <= limb a i < 2 ^ 25.
Proof.
  intros [_ Ha]. unfold limb. destruct (decide (i < length a)%nat) as [Hi|Hi].
  - rewrite Forall_forall in Ha. apply Ha, list_elem_of_In, nth_In. done.
  - rewrite nth_overflow by lia. done.
Qed.

Lemma product_limb_spec a b k : small_limbs a -> small_limbs b -> product_limb a b k = Some (convolution a b k) /\
  0 <= convolution a b k <= 2 ^ 54 - 2 ^ 50.
Proof.
  intros Ha Hb. unfold product_limb, convolution. set (l := seq _ _).
  assert (length l <= 12)%nat as Hl by (unfold l; rewrite length_seq; lia).
  assert (forall i, 0 <= limb a i * limb b (k - i) < 2 ^ 50) as Hp.
  { intros i. pose proof (small_limb a i Ha). pose proof (small_limb b (k - i) Hb). nia. }
  rewrite mapM_chk by (apply Forall_forall; intros i _; specialize (Hp i); lia). cbn [mbind option_bind].
  assert (Forall (fun x => Z.abs x <= 2 ^ 50) (map (fun i => limb a i * limb b (k - i)) l)) as Hf.
  { apply Forall_fmap, Forall_forall. intros i _. cbn. specialize (Hp i). lia. }
  rewrite (sum_checked_some 64 (2 ^ 50)) by (try done; rewrite length_map; lia).
  split; [done|]. apply total_bound in Hf as Ht. rewrite length_map in Ht.
  assert (0 <= total (map (fun i => limb a i * limb b (k - i)) l)); [|lia].
  clear -Hp. induction l as [|i l IH]; [done|]. unfold total in *. cbn [map foldr]. specialize (Hp i). lia.
Qed.

Lemma product_value a b : small_limbs a -> small_limbs b ->
  value (weights 23) (map (convolution a b) (seq 0 23)) = value (weights 12) a * value (weights 12) b.
Proof.
  intros [Ha _] [Hb _].
  do 12 (destruct a as [|?x a]; [done|]). destruct a; [|done].
  do 12 (destruct b as [|?y b]; [done|]). destruct b; [|done].
  let w := eval vm_compute in (weights 23) in change (weights 23) with w.
  let w := eval vm_compute in (weights 12) in change (weights 12) with w.
  cbv [convolution limb nth total foldr map seq Nat.sub Nat.min Nat.add value zip_with]. ring.
Qed.

(** ** Routines *)

Definition is_key (s : list Z) : Prop := length s = 32%nat /\ bytes_ok s.

Lemma key_range s : is_key s -> 0 <= le_value s < 2 ^ 256.
Proof. intros [Hl Hs]. pose proof (le_value_range s Hs) as Hr. rewrite Hl in Hr. exact Hr. Qed.

Lemma limbs_of_small n x : 0 <= x < 2 ^ (21 * Z.of_nat n + 25) -> Forall (fun y => 0 <= y < 2 ^ 25) (limbs_of n x).
Proof.
  revert x; induction n as [|n IH]; intros x Hx; cbn [limbs_of].
  { by apply Forall_singleton. }
  replace (21 * Z.of_nat (S n) + 25) with (21 + (21 * Z.of_nat n + 25)) in Hx by lia. rewrite Z.pow_add_r in Hx by lia.
  constructor; [zdm|]. apply IH. split; [apply Z.div_pos; lia|apply Z.div_lt_upper_bound; lia].
Qed.

Lemma length_limbs_of n x : length (limbs_of n x) = S n.
Proof. revert x; induction n as [|n IH]; intros x; [done|]. cbn [limbs_of length]. by rewrite IH. Qed.

Lemma load_small s : is_key s -> small_limbs (load_limbs s) /\ value (weights 12) (load_limbs s) = le_value s.
Proof.
  intros Hk. pose proof Hk as [Hl Hs]. rewrite load_limbs_value by done. split; [split; [done|]|apply limbs_of_value].
  apply limbs_of_small. by apply key_range.
Qed.

Lemma in_box_uniform s b n : length s = n -> Forall (fun x => within x b) s -> in_box s (replicate n b).
Proof. intros <- Hs. induction Hs; cbn; constructor; done. Qed.

(** Twelve limbs of at most 55 bits through the tail. *)
Lemma narrow_spec s : length s = 12%nat -> Forall (fun x => - 2 ^ 55 <= x <= 2 ^ 55) s ->
  finish tail_ops (s ++ [0]) = Some (le_bytes 32 (value (weights 12) s mod ell)).
Proof.
  intros Hl Hs. destruct (tail_spec 13 (s ++ [0])) as (s' & E & Hs'); [by left| |].
  - apply Forall2_app; [|by repeat constructor]. apply in_box_uniform; [done|].
    eapply Forall_impl; [exact Hs|]. unfold within. cbn. lia.
  - unfold finish. rewrite E. cbn [fmap option_fmap option_map]. rewrite Hs'. do 3 f_equal.
    by rewrite value_take, length_weights, take_app_length'.
Qed.

Lemma value_zip (f : Z -> Z -> Z) (g : Z) w a b :
  (forall x y, f x y = x + g * y) -> length a = length b -> 
  value w (map (fun '(x, y) => f x y) (zip a b)) = value w a + g * value w b.
Proof.
  intros Hf. revert w b; induction a as [|x a IH]; intros w [|y b] Hl; cbn in Hl; try lia.
  - cbn. rewrite value_nil_r. lia.
  - destruct w as [|c w]; [unfold value; cbn; lia|]. cbn [zip_with map]. rewrite !value_cons. 
    change (zip_with pair a b) with (zip a b). rewrite IH, Hf by lia. lia.
Qed.

(** Limb-wise sums and differences. *)
Lemma zip_chk (f : Z -> Z -> Z) a b M : (forall x y, 0 <= x <= M -> 0 <= y <= M -> - 2 ^ 55 <= f x y <= 2 ^ 55) ->
  Forall (fun x => 0 <= x <= M) a -> Forall (fun x => 0 <= x <= M) b ->
  mapM (fun '(x, y) => chk 64 (f x y)) (zip a b) = Some (map (fun '(x, y) => f x y) (zip a b)) /\
  Forall (fun x => - 2 ^ 55 <= x <= 2 ^ 55) (map (fun '(x, y) => f x y) (zip a b)).
Proof.
  intros Hf Ha Hb. assert (Forall (fun '(x, y) => - 2 ^ 55 <= f x y <= 2 ^ 55) (zip a b)) as Hz.
  { revert b Hb; induction Ha as [|x a Hx _ IH]; intros b Hb; [constructor|]. destruct Hb as [|y b Hy Hb]; [constructor|].
    cbn. constructor; [by apply Hf|by apply IH]. }
  split.
  - apply mapM_map. eapply Forall_impl; [exact Hz|]. intros [x y] H. apply chk_some. lia.
  - apply Forall_fmap. eapply Forall_impl; [exact Hz|]. by intros [x y].
Qed.

Lemma small_le a : small_limbs a -> Forall (fun x => 0 <= x <= 2 ^ 54) a.
Proof. intros [_ Ha]. eapply Forall_impl; [exact Ha|]. cbn. lia. Qed.

Lemma length_zip_map (f : Z -> Z -> Z) a b n : length a = n -> length b = n ->
  length (map (fun '(x, y) => f x y) (zip a b)) = n.
Proof. intros. rewrite length_map, length_zip_with. lia. Qed.

Lemma sc_add_eq a b : is_key a -> is_key b -> sc_add a b = Some (le_bytes 32 ((le_value a + le_value b) mod ell)).
Proof.
  intros Ha Hb. destruct (load_small a Ha) as [Sa Va], (load_small b Hb) as [Sb Vb]. unfold sc_add.
  destruct (zip_chk Z.add (load_limbs a) (load_limbs b) (2 ^ 54)) as [-> Hr]; [intros; lia|by apply small_le..|].
  cbn [mbind option_bind]. rewrite narrow_spec; [|by apply length_zip_map|done].
  rewrite (value_zip Z.add 1), Va, Vb by (done || lia). do 3 f_equal. lia.
Qed.

Lemma sc_sub_eq a b : is_key a -> is_key b -> sc_sub a b = Some (le_bytes 32 ((le_value a - le_value b) mod ell)).
Proof.
  intros Ha Hb. destruct (load_small a Ha) as [Sa Va], (load_small b Hb) as [Sb Vb]. unfold sc_sub.
  destruct (zip_chk Z.sub (load_limbs a) (load_limbs b) (2 ^ 54)) as [-> Hr]; [intros; lia|by apply small_le..|].
  cbn [mbind option_bind]. rewrite narrow_spec; [|by apply length_zip_map|done].
  rewrite (value_zip Z.sub (-1)), Va, Vb by (done || lia). do 3 f_equal.
Qed.

Lemma sc_reduce32_eq a : is_key a -> sc_reduce32 a = Some (le_bytes 32 (le_value a mod ell)).
Proof.
  intros Ha. destruct (load_small a Ha) as [Sa Va]. unfold sc_reduce32. rewrite narrow_spec, Va; [done|done|].
  apply small_le in Sa. eapply Forall_impl; [exact Sa|]. cbn. lia.
Qed.

Lemma product_limbs_eq a b : is_key a -> is_key b -> exists ps, product_limbs a b = Some ps /\ length ps = 23%nat /\
  Forall (fun x => 0 <= x <= 2 ^ 54 - 2 ^ 50) ps /\ value (weights 23) ps = le_value a * le_value b.
Proof.
  intros Ha Hb. destruct (load_small a Ha) as [Sa Va], (load_small b Hb) as [Sb Vb].
  exists (map (convolution (load_limbs a) (load_limbs b)) (seq 0 23)).
  split; [|split; [done|split]].
  - apply mapM_map, Forall_forall. intros k _. by apply product_limb_spec.
  - apply Forall_fmap, Forall_forall. intros k _. by apply product_limb_spec.
  - by rewrite product_value, Va, Vb by done.
Qed.

(** The limbs of a product, from twelve low and eleven high ones. *)
Lemma product_finish s t : length s = 12%nat -> length t = 11%nat ->
  Forall (fun x => - 2 ^ 55 <= x <= 2 ^ 55) (s ++ t) ->
  finish product_ops (s ++ t ++ [0]) = Some (le_bytes 32 (value (weights 23) (s ++ t) mod ell)).
Proof.
  intros Hs Ht Hb. rewrite app_assoc, product_spec.
  - do 3 f_equal. rewrite value_snoc. unfold limb. rewrite app_nth2 by (rewrite length_app; lia).
    rewrite length_app, Hs, Ht. cbn [Nat.add Nat.sub nth]. rewrite Z.mul_0_r, Z.add_0_r.
    by rewrite value_take, length_weights, take_app_length' by (rewrite length_app; lia).
  - apply Forall2_app; [|by repeat constructor]. apply in_box_uniform; [rewrite length_app; lia|done].
Qed.

Lemma sc_mul_eq a b : is_key a -> is_key b -> sc_mul a b = Some (le_bytes 32 ((le_value a * le_value b) mod ell)).
Proof.
  intros Ha Hb. destruct (product_limbs_eq a b Ha Hb) as (ps & E & Hl & Hr & V). unfold sc_mul. rewrite E. cbn [mbind option_bind].
  rewrite <- (take_drop 12 ps), <- app_assoc, product_finish, take_drop, V; [done|rewrite length_take; lia|rewrite length_drop; lia|].
  rewrite take_drop. eapply Forall_impl; [exact Hr|]. cbn. lia.
Qed.

Lemma value_split a b : length a = 12%nat ->
  value (weights 23) (a ++ b) = value (weights 12) a + value (drop 12 (weights 23)) b.
Proof.
  intros Ha. rewrite <- (take_drop 12 (weights 23)) at 1. rewrite value_app.
  replace (take 12 (weights 23)) with (weights 12) by computed. rewrite length_weights, drop_app_length' by done.
  by rewrite (value_take (weights 12)), length_weights, take_app_length' by done.
Qed.

Lemma key_limbs c : is_key c -> length (load_limbs c) = 12%nat /\ Forall (fun x => 0 <= x <= 2 ^ 54 - 2 ^ 50) (load_limbs c).
Proof.
  intros Hc. destruct (load_small c Hc) as [[Hl Hs] _]. split; [done|]. eapply Forall_impl; [exact Hs|]. cbn. lia.
Qed.

Lemma bound_54 l : Forall (fun x => 0 <= x <= 2 ^ 54 - 2 ^ 50) l -> Forall (fun x => 0 <= x <= 2 ^ 54) l.
Proof. intros Hl. eapply Forall_impl; [exact Hl|]. cbn. lia. Qed.

Lemma value_opp w l : value w (map Z.opp l) = - value w l.
Proof.
  revert l; induction w as [|c w IH]; intros [|x l]; try done. cbn [map]. rewrite !value_cons, IH. lia.
Qed.

Lemma sc_muladd_eq a b c : is_key a -> is_key b -> is_key c ->
  sc_muladd a b c = Some (le_bytes 32 ((le_value c + le_value a * le_value b) mod ell)).
Proof.
  intros Ha Hb Hc. destruct (product_limbs_eq a b Ha Hb) as (ps & E & Hl & Hr & V). unfold sc_muladd. rewrite E. cbn [mbind option_bind].
  destruct (key_limbs c Hc) as [Hlc Hrc]. destruct (load_small c Hc) as [_ Vc].
  assert (length (take 12 ps) = 12%nat) as Ht by (rewrite length_take; lia).
  destruct (zip_chk Z.add (load_limbs c) (take 12 ps) (2 ^ 54)) as [-> Hz]; [intros; lia|by eapply bound_54|by eapply bound_54, Forall_take|].
  cbn [mbind option_bind]. rewrite product_finish; [|by apply length_zip_map|rewrite length_drop; lia|].
  - rewrite value_split by (by apply length_zip_map). rewrite (value_zip Z.add 1) by (lia || done).
    rewrite <- (take_drop 12 ps), value_split in V by done. rewrite Vc. do 3 f_equal. lia.
  - apply Forall_app. split; [done|]. eapply Forall_impl; [apply Forall_drop, Hr|]. cbn. lia.
Qed.

Lemma sc_mulsub_eq a b c : is_key a -> is_key b -> is_key c ->
  sc_mulsub a b c = Some (le_bytes 32 ((le_value c - le_value a * le_value b) mod ell)).
Proof.
  intros Ha Hb Hc. destruct (product_limbs_eq a b Ha Hb) as (ps & E & Hl & Hr & V). unfold sc_mulsub. rewrite E. cbn [mbind option_bind].
  destruct (key_limbs c Hc) as [Hlc Hrc]. destruct (load_small c Hc) as [_ Vc].
  assert (length (take 12 ps) = 12%nat) as Ht by (rewrite length_take; lia).
  destruct (zip_chk Z.sub (load_limbs c) (take 12 ps) (2 ^ 54)) as [-> Hz]; [intros; lia|by eapply bound_54|by eapply bound_54, Forall_take|].
  cbn [mbind option_bind]. pose proof (Forall_drop _ 12 _ Hr) as Hd. rewrite mapM_chk by (eapply Forall_impl; [exact Hd|]; cbn; lia).
  cbn [mbind option_bind]. rewrite product_finish; [|by apply length_zip_map|rewrite length_map, length_drop; lia|].
  - rewrite value_split by (by apply length_zip_map). rewrite (value_zip Z.sub (-1)) by (lia || done).
    rewrite value_opp. rewrite <- (take_drop 12 ps), value_split in V by done. rewrite Vc. do 3 f_equal. lia.
  - apply Forall_app. split; [done|]. apply Forall_fmap. eapply Forall_impl; [exact Hd|]. cbn. lia.
Qed.

Lemma sc_reduce_eq s : length s = 64%nat -> bytes_ok s -> sc_reduce s = Some (le_bytes 32 (le_value s mod ell)).
Proof.
  intros Hl Hs. unfold sc_reduce. rewrite load_wide_value by done. rewrite wide_spec, limbs_of_value; [done|].
  apply in_box_uniform; [apply length_limbs_of|]. pose proof (le_value_range s Hs) as Hr. rewrite Hl in Hr.
  cbn [limbs_of]. rewrite !div_pow_div by lia. repeat constructor; cbn [fst snd]; zdm.
Qed.

(** ** Comparison *)

(** [S] has the sign of [C - V]. *)
Definition compares (j S V C : Z) : Prop :=
  (S < 0 <-> C < V) /\ (S = 0 <-> C = V) /\ - 2 ^ j < S < 2 ^ j /\ 0 <= V < 2 ^ (32 * j) /\ 0 <= C < 2 ^ (32 * j).

Lemma compares_step j S V C w c : 0 <= j -> compares j S V C -> 0 <= w < 2 ^ 32 -> 0 <= c < 2 ^ 32 ->
  compares (j + 1) (S + Z.shiftl (signum (c - w)) j) (V + 2 ^ (32 * j) * w) (C + 2 ^ (32 * j) * c).
Proof.
  unfold compares. intros Hj (H1 & H2 & HS & HV & HC) Hw Hc. rewrite shiftl_mul by done.
  replace (32 * (j + 1)) with (32 * j + 32) by lia. rewrite !Z.pow_add_r by lia. change (2 ^ 1) with 2.
  set (P := 2 ^ j) in *. set (Q := 2 ^ (32 * j)) in *. unfold signum.
  destruct (Z.ltb_spec 0 (c - w)), (Z.ltb_spec (c - w) 0); try lia.
  - assert (Q * w + Q <= Q * c) by nia. assert (Q * c <= Q * (2 ^ 32 - 1)) by nia. assert (0 <= Q * w) by nia. lia.
  - assert (Q * c + Q <= Q * w) by nia. assert (Q * w <= Q * (2 ^ 32 - 1)) by nia. assert (0 <= Q * c) by nia. lia.
  - assert (c = w) as -> by lia. assert (0 <= Q * w) by nia. assert (Q * w <= Q * (2 ^ 32 - 1)) by nia. lia.
Qed.

Lemma load_word s i : bytes_ok s -> 0 <= load_4 s i < 2 ^ 32.
Proof. intros Hs. rewrite load_4_value by done. by apply Z.mod_pos_bound. Qed.

Lemma word_step s i : bytes_ok s -> le_value (drop i s) = load_4 s i + 2 ^ 32 * le_value (drop (i + 4) s).
Proof.
  intros Hs. rewrite load_4_value, !le_value_drop_div by done.
  replace (8 * Z.of_nat (i + 4)) with (8 * Z.of_nat i + 32) by lia. rewrite <- div_pow_div by lia.
  pose proof (Z.div_mod (le_value s / 2 ^ (8 * Z.of_nat i)) (2 ^ 32)). lia.
Qed.

Lemma sc_check_eq s : is_key s -> sc_check s = if le_value s <? ell then 0 else -1.
Proof.
  intros [Hl Hs]. unfold sc_check. cbn [Nat.mul Nat.add].
  pose proof (fun i => load_word s i Hs) as Hw.
  assert (compares 1 (signum (1559614444 - load_4 s 0)) (load_4 s 0) 1559614444) as H.
  { specialize (Hw 0%nat). unfold compares, signum. change (2 ^ (32 * 1)) with (2 ^ 32). change (2 ^ 1) with 2. repeat bcase; lia. }
  apply (compares_step 1 _ _ _ (load_4 s 4) 1477600026) in H; [|lia|apply Hw|lia].
  apply (compares_step 2 _ _ _ (load_4 s 8) 2734136534) in H; [|lia|apply Hw|lia].
  apply (compares_step 3 _ _ _ (load_4 s 12) 350157278) in H; [|lia|apply Hw|lia].
  apply (compares_step 4 _ _ _ (load_4 s 16) 0) in H; [|lia|apply Hw|lia].
  apply (compares_step 5 _ _ _ (load_4 s 20) 0) in H; [|lia|apply Hw|lia].
  apply (compares_step 6 _ _ _ (load_4 s 24) 0) in H; [|lia|apply Hw|lia].
  apply (compares_step 7 _ _ _ (load_4 s 28) 268435456) in H; [|lia|apply Hw|lia].
  destruct H as [H _]. rewrite !Z.sub_0_l in H.
  change (2 ^ (32 * 1)) with (2 ^ 32) in H. change (2 ^ (32 * 2)) with (2 ^ 64) in H. change (2 ^ (32 * 3)) with (2 ^ 96) in H. change (2 ^ (32 * 4)) with (2 ^ 128) in H. change (2 ^ (32 * 5)) with (2 ^ 160) in H. change (2 ^ (32 * 6)) with (2 ^ 192) in H. change (2 ^ (32 * 7)) with (2 ^ 224) in H. set (S := signum _ + _ + _ + _ + _ + _ + _ + _) in *.
  assert (le_value s = load_4 s 0 + 2 ^ 32 * load_4 s 4 + 2 ^ 64 * load_4 s 8 + 2 ^ 96 * load_4 s 12
    + 2 ^ 128 * load_4 s 16 + 2 ^ 160 * load_4 s 20 + 2 ^ 192 * load_4 s 24 + 2 ^ 224 * load_4 s 28) as V.
  { pose proof (fun i => word_step s i Hs) as W. pose proof (W 0%nat) as W0. pose proof (W 4%nat) as W1.
    pose proof (W 8%nat) as W2. pose proof (W 12%nat) as W3. pose proof (W 16%nat) as W4. pose proof (W 20%nat) as W5.
    pose proof (W 24%nat) as W6. pose proof (W 28%nat) as W7. cbn [Nat.add] in *. rewrite (drop_ge s 32) in W7 by lia.
    rewrite drop_0 in W0. change (le_value []) with 0 in W7. clear -W0 W1 W2 W3 W4 W5 W6 W7. lia. }
  rewrite <- V in H. destruct (Z.ltb_spec S 0) as [Hneg|Hpos], (Z.ltb_spec (le_value s) ell) as [Hlt|Hge]; cbn [Z.b2z]; try done.
  - apply H in Hneg. unfold ell in Hlt. lia.
  - unfold ell in Hge. lia.
Qed.

Lemma lor_zero x y : Z.lor x y = 0 <-> x = 0 /\ y = 0.
Proof. apply Z.lor_eq_0_iff. Qed.

Lemma foldl_lor x l : is_u8 x -> Forall is_u8 l -> is_u8 (foldl Z.lor x l) /\ (foldl Z.lor x l = 0 <-> Forall (eq 0) (x :: l)).
Proof.
  intros Hx Hl. revert x Hx; induction Hl as [|y l Hy Hl IH]; intros x Hx; cbn [foldl].
  { split; [done|]. rewrite Forall_singleton. split; congruence. }
  destruct (IH (Z.lor x y)) as [H1 H2]; [by apply is_uint_lor|]. split; [done|]. rewrite H2, !Forall_cons.
  split; [intros [E F]; symmetry in E; by apply lor_zero in E as [-> ->]|by intros (<- & <- & F)].
Qed.

Lemma le_value_zero s : bytes_ok s -> le_value s = 0 <-> Forall (eq 0) s.
Proof.
  induction 1 as [|b s [Hb0 Hb] Hs IH]; [done|]. rewrite le_value_cons, Forall_cons, <- IH.
  pose proof (le_value_range s Hs). lia.
Qed.

Lemma sc_isnonzero_eq s : is_key s -> sc_isnonzero s = if le_value s =? 0 then 0 else 1.
Proof.
  intros [Hl Hs]. unfold sc_isnonzero.
  destruct (foldl_lor (byte s 0) (map (byte s) (seq 1 31))) as [[Hr0 Hr] Hz];
    [by apply byte_ok|apply Forall_fmap, Forall_forall; intros i _; by apply byte_ok|].
  assert (byte s 0 :: map (byte s) (seq 1 31) = s) as E.
  { do 32 (destruct s as [|? s]; [done|]). by destruct s. }
  rewrite E, <- le_value_zero in Hz by done. set (x := foldl _ _ _) in *. rewrite shiftr_div by lia.
  destruct (Z.eqb_spec (le_value s) 0) as [H0|H0]; [apply Hz in H0; rewrite H0; done|].
  assert (x <> 0) by tauto. rewrite Z.div_small by lia. done.
Qed.

(** ** Properties *)

(** C30: Scalar arithmetic.  On all 32-byte inputs (64 bytes for [sc_reduce]),
    reduced or not, the limb routines return the 32 little-endian bytes of
    the result reduced modulo the group order [ell]; no signed 64-bit
    operation of the limb products, carries and folds overflows. *)
Theorem scalar_arithmetic_correct a b c s :
  is_key a -> is_key b -> is_key c -> length s = 64%nat -> bytes_ok s ->
  sc_reduce32 a = Some (le_bytes 32 (le_value a mod ell)) /\
  sc_reduce s = Some (le_bytes 32 (le_value s mod ell)) /\
  sc_add a b = Some (le_bytes 32 ((le_value a + le_value b) mod ell)) /\
  sc_sub a b = Some (le_bytes 32 ((le_value a - le_value b) mod ell)) /\
  sc_mul a b = Some (le_bytes 32 ((le_value a * le_value b) mod ell)) /\
  sc_muladd a b c = Some (le_bytes 32 ((le_value c + le_value a * le_value b) mod ell)) /\
  sc_mulsub a b c = Some (le_bytes 32 ((le_value c - le_value a * le_value b) mod ell)).
Proof.
  intros Ha Hb Hc Hl Hs. split_and!; [by apply sc_reduce32_eq|by apply sc_reduce_eq|by apply sc_add_eq|by apply sc_sub_eq
    |by apply sc_mul_eq|by apply sc_muladd_eq|by apply sc_mulsub_eq].
Qed.

(** [sc_check] accepts exactly the reduced scalars and [sc_isnonzero]
    tells zero apart, for all 32-byte inputs. *)
Theorem sc_check_correct s : is_key s ->
  (sc_check s = 0 <-> le_value s < ell) /\ (sc_check s = 0 \/ sc_check s = -1) /\
  (sc_isnonzero s = 0 <-> le_value s = 0) /\ (sc_isnonzero s = 0 \/ sc_isnonzero s = 1).
Proof. intros Hs. rewrite sc_check_eq, sc_isnonzero_eq by done. repeat bcase; lia. Qed.

(** *** Instances *)

Definition scalar_sample (n : Z) : list Z := le_bytes 32 n.

Lemma scalar_sample_key n : is_key (scalar_sample n).
Proof. split; [apply length_le_bytes|apply le_bytes_ok]. Qed.

Lemma scalar_arithmetic_witness :
  sc_mulsub (scalar_sample (2 ^ 256 - 1)) (scalar_sample (2 ^ 256 - 1)) (scalar_sample 5) =
    Some (scalar_sample ((5 - (2 ^ 256 - 1) * (2 ^ 256 - 1)) mod ell)).
Proof.
  destruct (scalar_arithmetic_correct (scalar_sample (2 ^ 256 - 1)) (scalar_sample (2 ^ 256 - 1)) (scalar_sample 5)
    (le_bytes 64 7)) as (_ & _ & _ & _ & _ & _ & H);
    [apply scalar_sample_key..|apply length_le_bytes|apply le_bytes_ok|]. rewrite H. by vm_compute.
Defined.

Lemma sc_check_witness : sc_check (scalar_sample (ell - 1)) = 0 /\ sc_check (scalar_sample ell) = -1.
Proof.
  split; [|by vm_compute]. apply (sc_check_correct (scalar_sample (ell - 1)) (scalar_sample_key _)). by vm_compute.
Defined.
