(* ===== verification/Primes.v ===== *)
(** * The field and group orders are prime

    Pocklington's criterion, and its certificates for the two primes of
    [src/crypto/crypto-ops.c]: [2^255 - 19] and the order of the base point. *)

From Stdlib Require Import Znumtheory Zpow_facts Zdivisibility Zmod Zstar.
From S2P Require Import Prelude.

(** ** Prime divisors *)

Lemma prime_divisor m : 1 < m -> exists r, Z.prime r /\ (r | m).
Proof.
  intros Hm. assert (0 <= m) as H0 by lia. revert m H0 Hm. apply (Z_lt_induction (fun m => 1 < m -> exists r, Z.prime r /\ (r | m))).
  intros m IH Hm. destruct (prime_dec m) as [Hp|Hp].
  - exists m. split; [by apply prime_alt|apply Z.divide_refl].
  - destruct (not_prime_divide m Hm Hp) as (n & Hn & Hd). destruct (IH n) as (r & Hr & Hrn); [lia..|].
    exists r. split; [done|]. by eapply Z.divide_trans.
Qed.

(** A composite number has a prime divisor up to its square root. *)
Lemma composite_divisor n : 1 < n -> ~ Z.prime n -> exists r, Z.prime r /\ (r | n) /\ r * r <= n.
Proof.
  intros Hn Hp. rewrite prime_alt in Hp. destruct (not_prime_divide n Hn Hp) as (d & Hd & [k Hk]).
  assert (exists m, 1 < m /\ (m | n) /\ m * m <= n) as (m & Hm & Hmn & Hmm).
  { destruct (decide (d <= k)).
    - exists d. split; [lia|]. split; [by exists k|nia].
    - exists k. assert (0 < k) by nia. split; [nia|]. split; [exists d; lia|nia]. }
  destruct (prime_divisor m Hm) as (r & Hr & Hrm). exists r. split; [done|].
  assert (r <= m) by (apply Z.divide_pos_le; [lia|done]). pose proof (Z.prime_ge_2 r Hr).
  split; [by eapply Z.divide_trans|nia].
Qed.

(** ** Pocklington *)

Lemma of_Z_1_iff r x : 1 < r -> Zmod.of_Z r x = Zmod.one <-> (r | x - 1).
Proof.
  intros Hr. unfold Zmod.one. rewrite Zmod.of_Z_inj. split; intros H.
  - apply Z.mod_divide; [lia|]. by rewrite Zminus_mod, H, Z.sub_diag, Z.mod_0_l by lia.
  - destruct H as [k E]. replace x with (1 + k * r) by lia. by apply Z.mod_add; lia.
Qed.

(** A prime [q] dividing [n - 1] divides [r - 1] for every prime [r] dividing
    [n], when [a] witnesses it. *)
Lemma pocklington_step n r q a : Z.prime r -> Z.prime q -> (r | n) -> 1 < n -> (q | n - 1) ->
  (n | a ^ (n - 1) - 1) -> Z.gcd (a ^ ((n - 1) / q) - 1) n = 1 -> (q | r - 1).
Proof.
  intros Hr Hq Hrn Hn [m Hm] Ha Hg. pose proof (Z.prime_ge_2 r Hr). pose proof (Z.prime_ge_2 q Hq).
  destruct (Z.BoolSpec_divide q (r - 1)) as [Hd|Hd]; [done|exfalso].
  rewrite Hm, Z.div_mul in Hg by lia. assert (0 < m) by nia.
  assert (r | a ^ (n - 1) - 1) as Har by (by eapply Z.divide_trans).
  assert (Z.coprime a r) as Hc.
  { symmetry. apply Z.coprime_prime_l; [done|]. intros Hra. assert (r | 1) as Hr1.
    { replace 1 with (a ^ (n - 1) - (a ^ (n - 1) - 1)) by lia. apply Z.divide_sub_r; [|done].
      eapply Z.divide_trans; [exact Hra|]. exists (a ^ (n - 2)). rewrite <- (Z.pow_1_r a) at 3. rewrite <- Z.pow_add_r by lia. f_equal. lia. }
    apply Z.divide_pos_le in Hr1; lia. }
  assert (Z.coprime (Zmod.to_Z (Zmod.of_Z r a)) r) as Hc' by (rewrite Zmod.to_Z_of_Z; by apply Z.coprime_mod_l_iff).
  set (x := Zstar.of_Zmod (Zmod.of_Z r a)).
  assert (forall e, 0 <= e -> (r | a ^ e - 1) <-> Zstar.pow x e = Zstar.one) as Hx.
  { intros e He. rewrite <- of_Z_1_iff by lia. rewrite Zmod.of_Z_pow by done. rewrite <- Zstar.to_Zmod_inj_iff, Zstar.to_Zmod_pow, Zstar.to_Zmod_1.
    unfold x. by rewrite Zstar.to_Zmod_of_Zmod. }
  apply Z.coprime_prime_l in Hd; [|done]. apply Z.Bezout_coprime in Hd as (u & v & Huv).
  assert (Zstar.pow x m = Zstar.one) as Hxm.
  { replace m with ((n - 1) * u + (r - 1) * (v * m)) by (rewrite Hm; nia).
    rewrite Zstar.pow_add_r, !Zstar.pow_mul_r. rewrite (proj1 (Hx (n - 1) ltac:(lia)) Har).
    replace (r - 1) with (Z.pred r) by lia. rewrite Zstar.fermat, !Zstar.pow_1_l by done. apply Zstar.mul_1_l. }
  apply Hx in Hxm; [|lia]. assert (r | 1) as Hr1 by (rewrite <- Hg; by apply Z.gcd_greatest).
  apply Z.divide_pos_le in Hr1; lia.
Qed.

Definition product (l : list Z) : Z := foldr Z.mul 1 l.

Lemma product_pos qs : Forall Z.prime qs -> 0 < product qs.
Proof. induction 1 as [|q qs Hq _ IH]; cbn; [lia|]. pose proof (Z.prime_ge_2 q Hq). unfold product in IH. nia. Qed.

Lemma prime_divides_product q qs : Z.prime q -> Forall Z.prime qs -> (q | product qs) -> q ∈ qs.
Proof.
  intros Hq. induction 1 as [|q' qs Hq' _ IH]; cbn; intros Hd.
  - pose proof (Z.prime_ge_2 q Hq). apply Z.divide_pos_le in Hd; lia.
  - apply Z.divide_prime_mul in Hd as [Hd|Hd]; [| |done]; [|by right; apply IH].
    apply Z.divide_prime_prime in Hd as ->; [by left|done..].
Qed.

Lemma product_divides qs x : Forall Z.prime qs -> NoDup qs -> Forall (fun q => (q | x)) qs -> (product qs | x).
Proof.
  intros Hp Hn Hd. induction Hp as [|q qs Hq Hqs IH]; [apply Z.divide_1_l|].
  apply NoDup_cons in Hn as [Hni Hn]. apply Forall_cons in Hd as [Hdq Hd]. cbn.
  destruct (IH Hn Hd) as [k E]. rewrite E in Hdq. rewrite E. rewrite Z.mul_comm in Hdq. apply Z.gauss in Hdq as [j ->].
  - exists j. unfold product. lia.
  - apply Z.coprime_prime_l; [done|]. intros Hdp. by apply Hni, prime_divides_product.
Qed.

(** *** Powers of 2 modulo [n]

    [w :: 2w :: 4w :: ...] modulo [n], and the reduction of a number by adding
    up the entries of its high bits. *)
Fixpoint powers_table (len : nat) (w n : Z) : list Z :=
  match len with O => [] | S len => w :: powers_table len ((2 * w) mod n) n end.

Fixpoint fold_bits (h : positive) (t : list Z) (acc : Z) {struct t} : option Z :=
  match t with
  | [] => None
  | w :: t =>
      match h with
      | xH => Some (acc + w)
      | xO h => fold_bits h t acc
      | xI h => fold_bits h t (acc + w)
      end
  end.

Definition reduce (k : Z) (t : list Z) (x : Z) : option Z :=
  match Z.shiftr x k with
  | Zpos h => fold_bits h t (Z.land x (Z.ones k))
  | Z0 => Some x
  | Zneg _ => None
  end.

Fixpoint pow2_mod (k : Z) (t : list Z) (e : positive) : option Z :=
  match e with
  | xH => Some 2
  | xO e => z ← pow2_mod k t e; z ← reduce k t (z * z); reduce k t z
  | xI e => z ← pow2_mod k t e; z ← reduce k t (2 * (z * z)); reduce k t z
  end.

Lemma fold_bits_sound n h len w acc r : 0 < n -> fold_bits h (powers_table len w n) acc = Some r -> (n | r - (acc + Zpos h * w)).
Proof.
  intros Hn. revert h w acc; induction len as [|len IH]; intros h w acc; cbn [powers_table fold_bits]; [done|].
  assert (n | (2 * w) mod n - 2 * w) as [k Hk].
  { exists (- (2 * w / n)). pose proof (Z.div_mod (2 * w) n). lia. }
  destruct h as [h|h|].
  - intros [q E]%IH. exists (q + Zpos h * k). rewrite Pos2Z.inj_xI. nia.
  - intros [q E]%IH. exists (q + Zpos h * k). rewrite Pos2Z.inj_xO. nia.
  - intros [= <-]. exists 0. lia.
Qed.

Lemma reduce_sound n k len x r : 0 < n -> 0 <= k -> reduce k (powers_table len (2 ^ k mod n) n) x = Some r -> (n | r - x).
Proof.
  intros Hn Hk. unfold reduce. destruct (Z.shiftr x k) as [|h|h] eqn:E; [by intros [= <-]; exists 0; lia| |done].
  intros [q F]%fold_bits_sound; [|done]. rewrite Z.land_ones in F by done. rewrite shiftr_div in E by done.
  pose proof (Z.div_mod x (2 ^ k) ltac:(apply Z.pow_nonzero; lia)) as Ex. rewrite E in Ex.
  pose proof (Z.div_mod (2 ^ k) n ltac:(lia)) as Ek. exists (q - Zpos h * (2 ^ k / n)). nia.
Qed.

Lemma pow2_mod_sound n k len e r : 0 < n -> 0 <= k -> pow2_mod k (powers_table len (2 ^ k mod n) n) e = Some r ->
  (n | r - 2 ^ Zpos e).
Proof.
  intros Hn Hk. revert r; induction e as [e IH|e IH|]; intros r; cbn [pow2_mod]; [| |by intros [= <-]; exists 0].
  all: destruct (pow2_mod _ _ e) as [z|]; [|done]; cbn [mbind option_bind]; destruct (IH z eq_refl) as [a Ea];
    destruct (reduce k _ (_ * _)) as [z'|] eqn:E1; [|done]; cbn [mbind option_bind]; intros E2;
    apply reduce_sound in E1 as [b Eb]; [|done..]; apply reduce_sound in E2 as [c Ec]; [|done..].
  - rewrite (Pos2Z.inj_xI e), Z.pow_add_r, (Z.mul_comm 2), Z.pow_mul_r, Z.pow_1_r, Z.pow_2_r by lia.
    exists (b + c + 2 * a * (z + 2 ^ Zpos e)). nia.
  - rewrite (Pos2Z.inj_xO e), (Z.mul_comm 2), Z.pow_mul_r, Z.pow_2_r by lia. exists (b + c + a * (z + 2 ^ Zpos e)). nia.
Qed.

(** [2^e = r] modulo [n]. *)
Definition pow2_eqm (n e r : Z) : bool :=
  let k := Z.log2 n + 1 in
  match pow2_mod k (powers_table (Z.to_nat k + 8) (2 ^ k mod n) n) (Z.to_pos e) with
  | Some b => (b - r) mod n =? 0
  | None => false
  end.

Lemma pow2_eqm_sound n e r : 0 < n -> 0 < e -> pow2_eqm n e r = true -> (n | 2 ^ e - r).
Proof.
  intros Hn He. unfold pow2_eqm. destruct (pow2_mod _ _ _) as [b|] eqn:E; [|done]. intros Hb%Z.eqb_eq.
  apply pow2_mod_sound in E as [j Ej]; [|done|pose proof (Z.log2_nonneg n); lia]. rewrite Z2Pos.id in Ej by done.
  apply Z.mod_divide in Hb as [i Ei]; [|lia]. exists (i - j). lia.
Qed.

(** A prime [q] dividing [n - 1] and the inverse of [2^((n-1)/q) - 1]. *)
Definition witnessed (n k : Z) (t : list Z) (c : Z * Z) : bool :=
  let '(q, u) := c in
  ((n - 1) mod q =? 0)
  && match pow2_mod k t (Z.to_pos ((n - 1) / q)) with Some b => (b - 1) * u mod n =? 1 | None => false end.

(** The certificate of [n]: distinct such primes, with a product above the
    square root of [n]. *)
Definition certificate (n : Z) (qs : list (Z * Z)) : bool :=
  let P := product (map fst qs) in
  let k := Z.log2 n + 1 in
  (2 <? n) && bool_decide (NoDup (map fst qs)) && (n <? (P + 1) * (P + 1)) && pow2_eqm n (n - 1) 1
  && forallb (witnessed n k (powers_table (Z.to_nat k + 8) (2 ^ k mod n) n)) qs.

Lemma mod_1_divide n x : 1 < n -> x mod n = 1 -> (n | x - 1).
Proof. intros Hn E. apply Z.mod_divide; [lia|]. by rewrite Zminus_mod, E, (Z.mod_small 1), Z.sub_diag, Z.mod_0_l by lia. Qed.

Lemma witnessed_sound n k len q u : 2 < n -> 0 <= k -> Z.prime q -> witnessed n k (powers_table len (2 ^ k mod n) n) (q, u) = true ->
  (q | n - 1) /\ Z.gcd (2 ^ ((n - 1) / q) - 1) n = 1.
Proof.
  intros Hn Hk Hq. pose proof (Z.prime_ge_2 q Hq). unfold witnessed. rewrite !andb_true_iff, !Z.eqb_eq.
  intros [Hd Hu]. apply Z.mod_divide in Hd; [|lia]. split; [done|]. destruct Hd as [m Hm]. rewrite Hm, Z.div_mul in * by lia.
  assert (0 < m) by nia. destruct (pow2_mod _ _ _) as [b|] eqn:E; [|done]. apply pow2_mod_sound in E as [j Ej]; [|lia..].
  rewrite Z2Pos.id in Ej by done. apply Z.eqb_eq, mod_1_divide in Hu as [i Ei]; [|lia].
  apply Z.bezout_1_gcd. exists u, (j * u - i). nia.
Qed.

Theorem pocklington n qs : Forall (fun c => Z.prime (fst c)) qs -> certificate n qs = true -> Z.prime n.
Proof.
  unfold certificate. rewrite !andb_true_iff, bool_decide_eq_true, forallb_forall. intros Hp [[[[Hn Hnd] Hs] Hb] Hw].
  set (k := Z.log2 n + 1) in *. assert (0 <= k) as Hk by (pose proof (Z.log2_nonneg n); lia).
  apply pow2_eqm_sound in Hb as Ha; [|lia..].
  destruct (prime_dec n) as [Hpn|Hpn]; [by apply prime_alt|exfalso]. rewrite <- prime_alt in Hpn.
  destruct (composite_divisor n ltac:(lia) Hpn) as (r & Hr & Hrn & Hrr). pose proof (Z.prime_ge_2 r Hr).
  assert (Forall Z.prime (map fst qs)) as Hp' by (by apply Forall_fmap).
  assert (product (map fst qs) | r - 1) as Hdp.
  { apply product_divides; [done..|]. apply Forall_fmap, Forall_forall. intros [q u] Hq.
    assert (Z.prime q) as Hqp by (rewrite Forall_forall in Hp; by apply (Hp (q, u))).
    apply list_elem_of_In in Hq. destruct (witnessed_sound n k _ q u ltac:(lia) Hk Hqp (Hw _ Hq)) as (Hd & Hg).
    apply (pocklington_step n r q 2); [done..|lia|done|done|done]. }
  apply Z.divide_pos_le in Hdp; [|lia]. pose proof (product_pos _ Hp'). nia.
Qed.

(** ** Certificates *)

(** Trial division, for the small primes the certificates end in. *)
Definition trial (n : Z) : bool :=
  (1 <? n) && forallb (fun k => negb (n mod Z.of_nat k =? 0)) (seq 2 (Z.to_nat (Z.sqrt n) - 1)).

Lemma trial_prime n : trial n = true -> Z.prime n.
Proof.
  unfold trial. rewrite andb_true_iff, forallb_forall. intros [Hn Ht].
  destruct (prime_dec n) as [Hpn|Hpn]; [by apply prime_alt|exfalso]. rewrite <- prime_alt in Hpn.
  destruct (composite_divisor n ltac:(lia) Hpn) as (r & Hr & Hrn & Hrr). pose proof (Z.prime_ge_2 r Hr).
  assert (r <= Z.sqrt n) by (apply Z.sqrt_le_square; lia).
  specialize (Ht (Z.to_nat r)). rewrite in_seq, Z2Nat.id, negb_true_iff, Z.eqb_neq in Ht by lia.
  apply Ht; [lia|]. apply Z.mod_divide; [lia|done].
Qed.

(** A chain of certificates: the primes of each are small or certified before. *)
Fixpoint check_chain (known : list Z) (cs : list (Z * list (Z * Z))) : bool :=
  match cs with
  | [] => true
  | (n, qs) :: cs =>
      forallb (fun '(q, _) => if q <? 10 ^ 6 then trial q else existsb (Z.eqb q) known) qs && certificate n qs
      && check_chain (n :: known) cs
  end.

Lemma check_chain_sound known cs : Forall Z.prime known -> check_chain known cs = true -> Forall (fun c => Z.prime (fst c)) cs.
Proof.
  revert known; induction cs as [|[n qs] cs IH]; intros known Hk Hc; [constructor|]. cbn [check_chain] in Hc.
  rewrite !andb_true_iff, forallb_forall in Hc. destruct Hc as [[Hq Hn] Hc].
  assert (Z.prime n) as Hp.
  { apply (pocklington n qs); [|done]. apply Forall_forall. intros [q u] Hin%list_elem_of_In. specialize (Hq _ Hin). cbn in *.
    destruct (q <? 10 ^ 6); [by apply trial_prime|].
    apply existsb_exists in Hq as (q' & Hq' & ->%Z.eqb_eq). rewrite Forall_forall in Hk. by apply Hk, list_elem_of_In. }
  constructor; [done|]. apply (IH (n :: known)); [by constructor|done].
Qed.

Definition field_chain : list (Z * list (Z * Z)) := [
  (8574133,
   [(991, 1014251); (103, 3531099)]);
  (1919519569386763,
   [(8574133, 1290547218147893); (127, 1870148777187772)]);
  (2773320623,
   [(569003, 2440407146)]);
  (72106336199,
   [(2773320623, 8149528284)]);
  (75445702479781427272750846543864801,
   [(1919519569386763, 74602835786463724888147869570305675); (72106336199, 55965016733432503242248684386325671)]);
  (31757755568855353,
   [(430751, 15419847897348699); (4153, 25117532289192573)]);
  (74058212732561358302231226437062788676166966415465897661863160754340907,
   [(75445702479781427272750846543864801, 70463328703800545008217672123162676565183935400628861884889913886334520); (31757755568855353, 18232248056023258384404751131439975669387062239511397558448549501188471)]);
  (2 ^ 255 - 19,
   [(74058212732561358302231226437062788676166966415465897661863160754340907, 55540832096118778044507775605005710249233119951144946814680141076505643269084)])].

Definition group_chain : list (Z * list (Z * Z)) := [
  (1224481,
   [(2551, 1100631)]);
  (1257559732178653,
   [(1224481, 790900187493841); (531581, 212927577457398)]);
  (4434155615661930479,
   [(1257559732178653, 1010501025739283171)]);
  (172054593956031949258510691,
   [(4434155615661930479, 154275350521713489305385904)]);
  (19757330305831588566944191468367130476339,
   [(172054593956031949258510691, 16371654433361644093796961727196399386194)]);
  (276602624281642239937218680557139826668747,
   [(19757330305831588566944191468367130476339, 94074944912245044309966580483695483989395)]);
  (2 ^ 252 + 27742317777372353535851937790883648493,
   [(276602624281642239937218680557139826668747, 2233364593245673852815932892735013076939656528578070433728021143254617821614)])].

Lemma chain_prime cs n : check_chain [] cs = true -> fst (List.last cs (0, [])) = n -> cs <> [] -> Z.prime n.
Proof.
  intros Hc <- Hne. apply check_chain_sound in Hc; [|constructor]. rewrite Forall_forall in Hc.
  apply Hc, list_elem_of_In. destruct (exists_last Hne) as (l & x & ->). rewrite last_last. apply in_or_app. right. by left.
Qed.

Lemma prime_field : Z.prime (2 ^ 255 - 19).
Proof. apply (chain_prime field_chain); [vm_compute; reflexivity|done|done]. Qed.

Lemma prime_group : Z.prime (2 ^ 252 + 27742317777372353535851937790883648493).
Proof. apply (chain_prime group_chain); [vm_compute; reflexivity|done|done]. Qed.
