(* ===== verification/FieldOps.v ===== *)
(** * The field of the curve

    The [fe_*] routines of [src/crypto/crypto-ops.c] on numbers modulo
    [2^255 - 19], kept as ten signed 32-bit limbs of 26 and 25 bits in turn.
    The theorems give every routine's result in the field [Zmod p25519] with
    the bounds on the limbs, and say that no 32-bit or 64-bit operation on the
    way overflows. *)

From Stdlib Require Import Zmod.
From S2P Require Import Prelude Limbs ScalarOps Primes.

(** ** Definitions *)

Definition p25519 : Z := 2 ^ 255 - 19.

(** [typedef int32_t fe[10]]. *)
Abbreviation fe := (list Z).

Definition fe_0 : fe := [0; 0; 0; 0; 0; 0; 0; 0; 0; 0].
Definition fe_1 : fe := [1; 0; 0; 0; 0; 0; 0; 0; 0; 0].

(** Ten limb-wise 32-bit operations. *)
Definition fe_map2 (o : Z -> Z -> Z) (f g : fe) : option fe :=
  mapM (fun i => chk 32 (o (limb f i) (limb g i))) (seq 0 10).

Definition fe_add (f g : fe) : option fe := fe_map2 Z.add f g.
Definition fe_sub (f g : fe) : option fe := fe_map2 Z.sub f g.
Definition fe_neg (f : fe) : option fe := mapM (fun i => chk 32 (- limb f i)) (seq 0 10).
Definition fe_copy (f : fe) : fe := map (limb f) (seq 0 10).

(** [x = f ^ g; x &= -b; f ^ x]. *)
Definition fe_cmov (f g : fe) (b : Z) : fe :=
  let b := u32 (- b) in
  map (fun i => let x := Z.lxor (limb f i) (limb g i) in
                let x := sint 32 (Z.land (u32 x) b) in
                Z.lxor (limb f i) x) (seq 0 10).

(** A term [(a * f_i) * (int64_t) (b * g_j)]; the factors are 32-bit. *)
Definition fe_term (f g : fe) (t : nat * Z * nat * Z) : option Z :=
  let '(i, a, j, b) := t in
  x ← chk 32 (a * limb f i);
  y ← chk 32 (b * limb g j);
  chk 64 (x * y).

Definition fe_row (f g : fe) (ts : list (nat * Z * nat * Z)) : option Z :=
  ps ← mapM (fe_term f g) ts;
  sum_checked 64 ps.

(** The terms of [h0] to [h9] in [fe_mul]: [f_i * g_j] with [i + j = k] modulo
    10, the [_2] form of [f_i] where both are odd, the [_19] form of [g_j] where
    [i + j] wraps around. *)
Definition mul_row (k : nat) : list (nat * Z * nat * Z) :=
  map (fun i => let j := ((k + 10 - i) mod 10)%nat in
                (i, if Nat.odd i && Nat.odd j then 2 else 1, j, if (k <? i)%nat then 19 else 1)) (seq 0 10).

(** Those of [fe_sq] and [fe_sq2]. *)
Definition sq_rows : list (list (nat * Z * nat * Z)) := [
  [(0%nat, 1, 0%nat, 1); (1%nat, 2, 9%nat, 38); (2%nat, 2, 8%nat, 19); (3%nat, 2, 7%nat, 38); (4%nat, 2, 6%nat, 19); (5%nat, 1, 5%nat, 38)];
  [(0%nat, 2, 1%nat, 1); (2%nat, 1, 9%nat, 38); (3%nat, 2, 8%nat, 19); (4%nat, 1, 7%nat, 38); (5%nat, 2, 6%nat, 19)];
  [(0%nat, 2, 2%nat, 1); (1%nat, 2, 1%nat, 1); (3%nat, 2, 9%nat, 38); (4%nat, 2, 8%nat, 19); (5%nat, 2, 7%nat, 38); (6%nat, 1, 6%nat, 19)];
  [(0%nat, 2, 3%nat, 1); (1%nat, 2, 2%nat, 1); (4%nat, 1, 9%nat, 38); (5%nat, 2, 8%nat, 19); (6%nat, 1, 7%nat, 38)];
  [(0%nat, 2, 4%nat, 1); (1%nat, 2, 3%nat, 2); (2%nat, 1, 2%nat, 1); (5%nat, 2, 9%nat, 38); (6%nat, 2, 8%nat, 19); (7%nat, 1, 7%nat, 38)];
  [(0%nat, 2, 5%nat, 1); (1%nat, 2, 4%nat, 1); (2%nat, 2, 3%nat, 1); (6%nat, 1, 9%nat, 38); (7%nat, 2, 8%nat, 19)];
  [(0%nat, 2, 6%nat, 1); (1%nat, 2, 5%nat, 2); (2%nat, 2, 4%nat, 1); (3%nat, 2, 3%nat, 1); (7%nat, 2, 9%nat, 38); (8%nat, 1, 8%nat, 19)];
  [(0%nat, 2, 7%nat, 1); (1%nat, 2, 6%nat, 1); (2%nat, 2, 5%nat, 1); (3%nat, 2, 4%nat, 1); (8%nat, 1, 9%nat, 38)];
  [(0%nat, 2, 8%nat, 1); (1%nat, 2, 7%nat, 2); (2%nat, 2, 6%nat, 1); (3%nat, 2, 5%nat, 2); (4%nat, 1, 4%nat, 1); (9%nat, 1, 9%nat, 38)];
  [(0%nat, 2, 9%nat, 1); (1%nat, 2, 8%nat, 1); (2%nat, 2, 7%nat, 1); (3%nat, 2, 6%nat, 1); (4%nat, 2, 5%nat, 1)]].

Definition fe_bits (k : nat) : Z := if Nat.even k then 26 else 25.

(** [carry_k = (h_k + (1<<25)) >> 26; h_{k+1} += carry_k; h_k -= carry_k << 26]
    (25 bits for an odd [k]); [carry9] goes to [h0] times 19. *)
Definition fe_round (k : nat) : op :=
  if (k =? 9)%nat then Carry 9 0 25 true 19 else Carry k (S k) (fe_bits k) true 1.

Definition fe_mul_ops : list op := map fe_round [0; 4; 1; 5; 2; 6; 3; 7; 4; 8; 9; 0]%nat.

(** Carries on 64-bit limbs, and the stores into 32-bit ones. *)
Definition fe_finish (ops : list op) (h : list Z) : option fe :=
  h ← run 64 h ops;
  mapM (chk 32) h.

Definition fe_mul (f g : fe) : option fe :=
  h ← mapM (fun k => fe_row f g (mul_row k)) (seq 0 10);
  fe_finish fe_mul_ops h.

Definition fe_sq (f : fe) : option fe :=
  h ← mapM (fe_row f f) sq_rows;
  fe_finish fe_mul_ops h.

Definition fe_sq2 (f : fe) : option fe :=
  h ← mapM (fe_row f f) sq_rows;
  h ← mapM (fun x => chk 64 (x + x)) h;
  fe_finish fe_mul_ops h.

(** The quotient [q] of [fe_tobytes]. *)
Definition fe_quotient (h : fe) : option Z :=
  m ← chk 32 (19 * limb h 9);
  t ← chk 32 (m + 2 ^ 24);
  foldl (fun q i => q ← q; t ← chk 32 (limb h i + q); Some (Z.shiftr t (fe_bits i)))
        (Some (Z.shiftr t 25)) (seq 0 10).

(** [carry_k = h_k >> 26; ...]; the last carry goes to [h10]. *)
Definition fe_tobytes_ops : list op := map (fun k => Carry k (S k) (fe_bits k) false 1) (seq 0 10).

Definition fe_store (h : list Z) : list Z :=
  let hi i n := Z.shiftr (limb h i) n in
  let lo i n := Z.shiftl (limb h i) n in
  map u8 [
    hi 0%nat 0; hi 0%nat 8; hi 0%nat 16; Z.lor (hi 0%nat 24) (lo 1%nat 2);
    hi 1%nat 6; hi 1%nat 14; Z.lor (hi 1%nat 22) (lo 2%nat 3);
    hi 2%nat 5; hi 2%nat 13; Z.lor (hi 2%nat 21) (lo 3%nat 5);
    hi 3%nat 3; hi 3%nat 11; Z.lor (hi 3%nat 19) (lo 4%nat 6);
    hi 4%nat 2; hi 4%nat 10; hi 4%nat 18;
    hi 5%nat 0; hi 5%nat 8; hi 5%nat 16; Z.lor (hi 5%nat 24) (lo 6%nat 1);
    hi 6%nat 7; hi 6%nat 15; Z.lor (hi 6%nat 23) (lo 7%nat 3);
    hi 7%nat 5; hi 7%nat 13; Z.lor (hi 7%nat 21) (lo 8%nat 4);
    hi 8%nat 4; hi 8%nat 12; Z.lor (hi 8%nat 20) (lo 9%nat 6);
    hi 9%nat 2; hi 9%nat 10; hi 9%nat 18].

Definition fe_tobytes (h : fe) : option (list Z) :=
  q ← fe_quotient h;
  m ← chk 32 (19 * q);
  h0 ← chk 32 (limb h 0 + m);
  h ← run 32 (<[0%nat := h0]> h ++ [0]) fe_tobytes_ops;
  Some (fe_store h).

(** [h0] to [h9] of [fe_frombytes_vartime], for the word [top] of the last
    three bytes. *)
Definition fe_load (s : list Z) (top : Z) : list Z := [
  load_4 s 0;
  u64 (Z.shiftl (load_3 s 4) 6);
  u64 (Z.shiftl (load_3 s 7) 5);
  u64 (Z.shiftl (load_3 s 10) 3);
  u64 (Z.shiftl (load_3 s 13) 2);
  load_4 s 16;
  u64 (Z.shiftl (load_3 s 20) 7);
  u64 (Z.shiftl (load_3 s 23) 5);
  u64 (Z.shiftl (load_3 s 26) 4);
  u64 (Z.shiftl top 2)].

Definition fe_from_ops : list op := map fe_round [9; 1; 3; 5; 7; 0; 2; 4; 6; 8]%nat.

(** The test that refuses [2^255 - 19] up to [2^255 - 1]. *)
Definition fe_noncanonical (h : list Z) : bool :=
  (limb h 9 =? 33554428) && (limb h 8 =? 268435440) && (limb h 7 =? 536870880) && (limb h 6 =? 2147483520)
  && (limb h 5 =? 4294967295) && (limb h 4 =? 67108860) && (limb h 3 =? 134217720) && (limb h 2 =? 536870880)
  && (limb h 1 =? 1073741760) && (4294967277 <=? limb h 0).

(** [Some None] is the return value -1. *)
Definition fe_frombytes_vartime (s : list Z) : option (option fe) :=
  let h := fe_load s (Z.land (load_3 s 29) 8388607) in
  if fe_noncanonical h then Some None else Some <$> fe_finish fe_from_ops h.

(** [crypto_verify_32] is libsodium's comparison: 0 for equal arrays, else -1. *)
Definition fe_equals (crypto_verify_32 : list Z -> list Z -> Z) (a b : fe) : option bool :=
  x ← fe_tobytes a; y ← fe_tobytes b; Some (crypto_verify_32 x y =? 0).

Definition fe_isnonzero (f : fe) : option Z := s ← fe_tobytes f; Some (sc_isnonzero s).

Definition fe_isnegative (f : fe) : option Z := s ← fe_tobytes f; Some (Z.land (byte s 0) 1).

Definition fe_reduce_vartime (f : fe) : option (option fe) := s ← fe_tobytes f; fe_frombytes_vartime s.

(** [for (i = 0; i < n; ++i) fe_sq(t, t)]. *)
Fixpoint fe_sq_times (n : nat) (t : fe) : option fe :=
  match n with O => Some t | S n => t ← fe_sq t; fe_sq_times n t end.

Definition fe_invert (z : fe) : option fe :=
  t0 ← fe_sq z;
  t1 ← fe_sq t0;
  t1 ← fe_sq t1;
  t1 ← fe_mul z t1;
  t0 ← fe_mul t0 t1;
  t2 ← fe_sq t0;
  t1 ← fe_mul t1 t2;
  t2 ← fe_sq t1; t2 ← fe_sq_times 4 t2;
  t1 ← fe_mul t2 t1;
  t2 ← fe_sq t1; t2 ← fe_sq_times 9 t2;
  t2 ← fe_mul t2 t1;
  t3 ← fe_sq t2; t3 ← fe_sq_times 19 t3;
  t2 ← fe_mul t3 t2;
  t2 ← fe_sq t2; t2 ← fe_sq_times 9 t2;
  t1 ← fe_mul t2 t1;
  t2 ← fe_sq t1; t2 ← fe_sq_times 49 t2;
  t2 ← fe_mul t2 t1;
  t3 ← fe_sq t2; t3 ← fe_sq_times 99 t3;
  t2 ← fe_mul t3 t2;
  t2 ← fe_sq t2; t2 ← fe_sq_times 49 t2;
  t1 ← fe_mul t2 t1;
  t1 ← fe_sq t1; t1 ← fe_sq_times 4 t1;
  fe_mul t1 t0.

(** [fe_pow22523], inlined in [fe_divpowm1]. *)
Definition fe_pow22523 (z : fe) : option fe :=
  t0 ← fe_sq z;
  t1 ← fe_sq t0;
  t1 ← fe_sq t1;
  t1 ← fe_mul z t1;
  t0 ← fe_mul t0 t1;
  t0 ← fe_sq t0;
  t0 ← fe_mul t1 t0;
  t1 ← fe_sq t0; t1 ← fe_sq_times 4 t1;
  t0 ← fe_mul t1 t0;
  t1 ← fe_sq t0; t1 ← fe_sq_times 9 t1;
  t1 ← fe_mul t1 t0;
  t2 ← fe_sq t1; t2 ← fe_sq_times 19 t2;
  t1 ← fe_mul t2 t1;
  t1 ← fe_sq_times 10 t1;
  t0 ← fe_mul t1 t0;
  t1 ← fe_sq t0; t1 ← fe_sq_times 49 t1;
  t1 ← fe_mul t1 t0;
  t2 ← fe_sq t1; t2 ← fe_sq_times 99 t2;
  t1 ← fe_mul t2 t1;
  t1 ← fe_sq_times 50 t1;
  t0 ← fe_mul t1 t0;
  t0 ← fe_sq t0;
  t0 ← fe_sq t0;
  fe_mul t0 z.

Definition fe_divpowm1 (u v : fe) : option fe :=
  v3 ← fe_sq v;
  v3 ← fe_mul v3 v;
  uv7 ← fe_sq v3;
  uv7 ← fe_mul uv7 v;
  uv7 ← fe_mul uv7 u;
  t0 ← fe_pow22523 uv7;
  t0 ← fe_mul t0 v3;
  fe_mul t0 u.

(** The forward products of [fe_batch_invert]: [out[i] = out[i-1] * in[i]]. *)
Fixpoint fe_products (acc : fe) (l : list fe) : option (list fe) :=
  match l with
  | [] => Some [acc]
  | x :: l => y ← fe_mul acc x; ys ← fe_products y l; Some (acc :: ys)
  end.

(** The backward loop: [out[i-1] = a * out[i-2]; a = a * in[i-1]] for [i]
    down to 2, then [out[0] = a]. *)
Fixpoint fe_backward (i : nat) (input out : list fe) (a : fe) : option (list fe) :=
  match i with
  | O => Some out
  | S O => Some (<[0%nat := fe_copy a]> out)
  | S (S j as k) =>
      o ← fe_mul a (nth j out []);
      a ← fe_mul a (nth k input []);
      fe_backward k input (<[k := o]> out) a
  end.

(** The return value and [out]. *)
Definition fe_batch_invert (input : list fe) : option (Z * list fe) :=
  match input with
  | [] => Some (0, [])
  | x :: l =>
      out ← fe_products (fe_copy x) l;
      nz ← fe_isnonzero (nth (length l) out []);
      if nz =? 0 then Some (-1, out)
      else
        a ← fe_invert (nth (length l) out []);
        out ← fe_backward (length input) input out a;
        Some (0, out)
  end.

(** ** The value of an element *)

Definition fe_weights : list Z := map (fun e => 2 ^ e) [0; 26; 51; 77; 102; 128; 153; 179; 204; 230].

Abbreviation F := (Zmod p25519).
Definition ev (f : fe) : F := Zmod.of_Z p25519 (value fe_weights f).

Lemma of_Z_congr a b : (p25519 | a - b) -> Zmod.of_Z p25519 a = Zmod.of_Z p25519 b.
Proof.
  intros [q E]. apply Zmod.of_Z_inj. replace a with (b + q * p25519) by lia. by apply Z.mod_add.
Qed.

Lemma of_Z_divide a b : Zmod.of_Z p25519 a = Zmod.of_Z p25519 b -> (p25519 | a - b).
Proof.
  intros E%Zmod.of_Z_inj. apply Z.mod_divide; [done|]. rewrite Zminus_mod, E, Z.sub_diag. done.
Qed.

(** ** Bounds

    [bounded c f] is the sources' [|f| bounded by c/100*2^25, c/100*2^24, ...]. *)
Definition fe_bound (c : Z) : list Z :=
  map (fun i => if Nat.even i then c * 2 ^ 25 / 100 else c * 2 ^ 24 / 100) (seq 0 10).
Definition sym_box (b : list Z) : list (Z * Z) := map (fun x => (- x, x)) b.
Definition bounded (c : Z) (f : fe) : Prop := in_box f (sym_box (fe_bound c)).

Lemma bounded_limb c f i : bounded c f -> Z.abs (limb f i) <= limb (fe_bound c) i.
Proof.
  intros Hb. pose proof (in_box_limb f _ i Hb) as Hw. unfold within, side_of, sym_box, limb in *.
  rewrite (map_nth (fun x => (- x, x)) _ 0) in Hw. cbn [fst snd] in Hw. lia.
Qed.

Lemma in_box_sym b f : length f = length b -> (forall i, Z.abs (limb f i) <= limb b i) -> in_box f (sym_box b).
Proof.
  unfold limb. revert b; induction f as [|x f IH]; intros [|y b] Hl Hi; cbn [length] in Hl; try lia; constructor.
  - specialize (Hi 0%nat). cbn in Hi. unfold within. cbn. lia.
  - apply IH; [lia|]. intros i. apply (Hi (S i)).
Qed.

Lemma bounded_intro c f : length f = 10%nat -> (forall i, Z.abs (limb f i) <= limb (fe_bound c) i) -> bounded c f.
Proof. intros. by apply in_box_sym. Qed.

Lemma bounded_length c f : bounded c f -> length f = 10%nat.
Proof. intros Hb. apply (in_box_length _ _ Hb). Qed.

Lemma fe_bound_limb c i : limb (fe_bound c) i =
  if (i <? 10)%nat then if Nat.even i then c * 2 ^ 25 / 100 else c * 2 ^ 24 / 100 else 0.
Proof. do 10 (destruct i as [|i]; [done|]). by destruct i. Qed.

Lemma fe_bound_mono c c' i : c <= c' -> limb (fe_bound c) i <= limb (fe_bound c') i.
Proof. intros. rewrite !fe_bound_limb. repeat case_match; try apply Z.div_le_mono; lia. Qed.

Lemma bounded_mono c c' f : c <= c' -> bounded c f -> bounded c' f.
Proof.
  intros Hc Hb. apply bounded_intro; [by eapply bounded_length|]. intros i.
  pose proof (bounded_limb c f i Hb). pose proof (fe_bound_mono c c' i Hc). lia.
Qed.

(** ** Rows of products *)

Lemma sum_from_abs w l acc : Z.abs acc + total (map Z.abs l) < 2 ^ (w - 1) -> sum_from w acc l = Some (acc + total l).
Proof.
  revert acc; induction l as [|x l IH]; intros acc Hs; cbn [sum_from].
  { unfold total. cbn. f_equal. lia. }
  unfold total in *. cbn [map foldr] in *. 
  assert (0 <= foldr Z.add 0 (map Z.abs l)) by (clear; induction l; cbn; lia).
  rewrite chk_some by lia. cbn [mbind option_bind]. rewrite IH by lia. f_equal. lia.
Qed.

Lemma sum_checked_abs w l : total (map Z.abs l) < 2 ^ (w - 1) -> sum_checked w l = Some (total l).
Proof. destruct l as [|x l]; [done|]. intros Hs. cbn [sum_checked]. by rewrite sum_from_abs. Qed.

Lemma total_abs l : Z.abs (total l) <= total (map Z.abs l).
Proof. unfold total. induction l as [|x l IH]; cbn [map foldr]; lia. Qed.

Definition term_value (f g : fe) (t : nat * Z * nat * Z) : Z :=
  let '(i, a, j, b) := t in (a * limb f i) * (b * limb g j).

(** The checker of a row: the factors fit 32 bits, the sum of the terms'
    bounds fits 64. *)
Definition row_fits (b b' : list Z) (ts : list (nat * Z * nat * Z)) : bool :=
  forallb (fun '(i, c, j, c') => (0 <=? c) && (0 <=? c') && (c * limb b i <? 2 ^ 31) && (c' * limb b' j <? 2 ^ 31)) ts
  && (total (map (term_value b b') ts) <? 2 ^ 63).

Lemma term_bound b b' f g t : (forall i, Z.abs (limb f i) <= limb b i) -> (forall i, Z.abs (limb g i) <= limb b' i) ->
  (let '(i, c, j, c') := t in (0 <=? c) && (0 <=? c') && (c * limb b i <? 2 ^ 31) && (c' * limb b' j <? 2 ^ 31)) = true ->
  fe_term f g t = Some (term_value f g t) /\ Z.abs (term_value f g t) <= term_value b b' t.
Proof.
  intros Hf Hg. destruct t as [[[i c] j] c']. cbn. intros H. specialize (Hf i). specialize (Hg j).
  rewrite (chk_some 32) by (change (2 ^ (32 - 1)) with (2 ^ 31); nia). cbn [mbind option_bind].
  rewrite (chk_some 32) by (change (2 ^ (32 - 1)) with (2 ^ 31); nia). cbn [mbind option_bind].
  assert (Z.abs (c * limb f i) <= c * limb b i) as H1 by nia. assert (Z.abs (c' * limb g j) <= c' * limb b' j) as H2 by nia.
  split; [apply chk_some|rewrite Z.abs_mul; nia]. change (2 ^ (64 - 1)) with (2 ^ 31 * 2 ^ 32). nia.
Qed.

Lemma row_spec b b' f g ts : (forall i, Z.abs (limb f i) <= limb b i) -> (forall i, Z.abs (limb g i) <= limb b' i) ->
  row_fits b b' ts = true ->
  fe_row f g ts = Some (total (map (term_value f g) ts)) /\
  Z.abs (total (map (term_value f g) ts)) <= total (map (term_value b b') ts).
Proof.
  intros Hf Hg [Hts Ht]%andb_true_iff. rewrite forallb_forall in Hts. unfold fe_row.
  assert (Forall (fun t => fe_term f g t = Some (term_value f g t) /\ Z.abs (term_value f g t) <= term_value b b' t) ts) as HF.
  { apply Forall_forall. intros t Ht'%list_elem_of_In. apply term_bound; [done..|]. by apply Hts. }
  rewrite (mapM_map _ (term_value f g)) by (eapply Forall_impl; [exact HF|]; by intros t [? _]). cbn [mbind option_bind].
  assert (total (map Z.abs (map (term_value f g) ts)) <= total (map (term_value b b') ts)) as Hs.
  { clear -HF. unfold total. induction HF as [|t ts [_ H] _ IH]; cbn [map foldr]; lia. }
  pose proof (total_abs (map (term_value f g) ts)). split; [apply sum_checked_abs; change (2 ^ (64 - 1)) with (2 ^ 63); lia|lia].
Qed.

Lemma rows_spec b b' f g rows : (forall i, Z.abs (limb f i) <= limb b i) -> (forall i, Z.abs (limb g i) <= limb b' i) ->
  forallb (row_fits b b') rows = true ->
  mapM (fe_row f g) rows = Some (map (fun ts => total (map (term_value f g) ts)) rows) /\
  in_box (map (fun ts => total (map (term_value f g) ts)) rows)
         (sym_box (map (fun ts => total (map (term_value b b') ts)) rows)).
Proof.
  intros Hf Hg Hr. rewrite forallb_forall in Hr. split.
  - apply mapM_map, Forall_forall. intros ts Hts%list_elem_of_In. apply (row_spec b b'); [done..|by apply Hr].
  - unfold sym_box. rewrite map_map. induction rows as [|ts rows IH]; constructor.
    + destruct (row_spec b b' f g ts Hf Hg) as [_ Hb]; [by apply Hr; left|]. unfold within. cbn. lia.
    + apply IH. intros x Hx. apply Hr. by right.
Qed.

(** ** Carries *)

Lemma mapM_store h : Forall (fun x => - 2 ^ 31 <= x < 2 ^ 31) h -> mapM (chk 32) h = Some h.
Proof.
  intros Hh. rewrite (mapM_map _ id), map_id; [done|]. eapply Forall_impl; [exact Hh|]. intros x Hx. by apply chk_some.
Qed.

Lemma in_box_forall lo hi h B : in_box h B -> forallb (fun b => (lo <=? fst b) && (snd b <? hi)) B = true ->
  Forall (fun x => lo <= x < hi) h.
Proof.
  intros Hb. induction Hb as [|x b h B Hx _ IH]; cbn [forallb]; [constructor|].
  intros [H1 H2]%andb_true_iff. constructor; [unfold within in Hx; lia|by apply IH].
Qed.

Lemma finish_spec ops c B B' h : length B = 10%nat -> in_box h B -> run_range 64 B ops = Some B' ->
  box_sub B' (sym_box (fe_bound c)) = true ->
  forallb (fun b => (- 2 ^ 31 <=? fst b) && (snd b <? 2 ^ 31)) B' = true ->
  run_weight p25519 fe_weights fe_weights ops = Some fe_weights ->
  exists f, fe_finish ops h = Some f /\ bounded c f /\ ev f = Zmod.of_Z p25519 (value fe_weights h).
Proof.
  intros Hl Hb HB Hs H32 HW. unfold fe_finish.
  destruct (run_checked 64 p25519 fe_weights ops fe_weights h B B' fe_weights) as (f & E & Hb' & _ & D); try done.
  { rewrite (in_box_length _ _ Hb), Hl. done. }
  exists f. rewrite E. cbn [mbind option_bind]. split; [|split].
  - apply mapM_store. by eapply in_box_forall.
  - by apply (in_box_sub _ B').
  - by apply of_Z_congr.
Qed.

(** ** Products *)

Lemma fe_split (f : fe) : length f = 10%nat ->
  exists x0 x1 x2 x3 x4 x5 x6 x7 x8 x9, f = [x0; x1; x2; x3; x4; x5; x6; x7; x8; x9].
Proof.
  intros Hl. do 10 (destruct f as [|?x f]; [discriminate Hl|]). destruct f; [|discriminate Hl]. by repeat eexists.
Qed.

(** What the multiplication drops by [2^255 = 19]. *)
Definition wrapped (f g : fe) : Z :=
  total (map (fun '(i, j) => limb fe_weights i * limb fe_weights j / 2 ^ 255 * (limb f i * limb g j))
             (filter (fun '(i, j) => (10 <= i + j)%nat) (list_prod (seq 0 10) (seq 0 10)))).

Lemma mul_rows_value f g : length f = 10%nat -> length g = 10%nat ->
  value fe_weights f * value fe_weights g =
  value fe_weights (map (fun ts => total (map (term_value f g) ts)) (map mul_row (seq 0 10))) + p25519 * wrapped f g.
Proof.
  intros (x0 & x1 & x2 & x3 & x4 & x5 & x6 & x7 & x8 & x9 & ->)%fe_split (y0 & y1 & y2 & y3 & y4 & y5 & y6 & y7 & y8 & y9 & ->)%fe_split.
  unfold wrapped.
  let l := eval vm_compute in (filter (fun '(i, j) => (10 <= i + j)%nat) (list_prod (seq 0 10) (seq 0 10))) in
  change (filter (fun '(i, j) => (10 <= i + j)%nat) (list_prod (seq 0 10) (seq 0 10))) with l.
  let l := eval vm_compute in (map mul_row (seq 0 10)) in change (map mul_row (seq 0 10)) with l.
  let w := eval vm_compute in fe_weights in change fe_weights with w.
  let q := eval vm_compute in p25519 in change p25519 with q.
  cbv [map total foldr value zip_with limb nth term_value]. 
  repeat match goal with |- context [?a / 2 ^ 255] => let v := eval vm_compute in (a / 2 ^ 255) in change (a / 2 ^ 255) with v end.
  ring.
Qed.

Lemma sq_rows_value f : length f = 10%nat ->
  value fe_weights f * value fe_weights f =
  value fe_weights (map (fun ts => total (map (term_value f f) ts)) sq_rows) + p25519 * wrapped f f.
Proof.
  intros (x0 & x1 & x2 & x3 & x4 & x5 & x6 & x7 & x8 & x9 & ->)%fe_split. unfold wrapped, sq_rows.
  let l := eval vm_compute in (filter (fun '(i, j) => (10 <= i + j)%nat) (list_prod (seq 0 10) (seq 0 10))) in
  change (filter (fun '(i, j) => (10 <= i + j)%nat) (list_prod (seq 0 10) (seq 0 10))) with l.
  let w := eval vm_compute in fe_weights in change fe_weights with w.
  let q := eval vm_compute in p25519 in change p25519 with q.
  cbv [map total foldr value zip_with limb nth term_value].
  repeat match goal with |- context [?a / 2 ^ 255] => let v := eval vm_compute in (a / 2 ^ 255) in change (a / 2 ^ 255) with v end.
  ring.
Qed.

Lemma mapM_comp {A B C} (f : B -> option C) (g : A -> B) l : mapM (fun x => f (g x)) l = mapM f (map g l).
Proof. induction l as [|x l IH]; [done|]. cbn [mapM map]. by rewrite IH. Qed.

Lemma fe_mul_spec f g : bounded 330 f -> bounded 330 g ->
  exists h, fe_mul f g = Some h /\ bounded 101 h /\ ev h = (ev f * ev g)%Zmod.
Proof.
  intros Hf Hg. unfold fe_mul. rewrite (mapM_comp (fe_row f g) mul_row).
  destruct (rows_spec (fe_bound 330) (fe_bound 330) f g (map mul_row (seq 0 10))) as [E Hb];
    [intros i; by apply bounded_limb..|computed|].
  rewrite E. cbn [mbind option_bind].
  eapply (finish_spec fe_mul_ops 101) in Hb as (h & Eh & Hh & V); [|computed..].
  exists h. split; [done|]. split; [done|]. rewrite V. unfold ev. rewrite <- Zmod.of_Z_mul.
  apply of_Z_congr. exists (- wrapped f g). rewrite mul_rows_value by (by eapply bounded_length). lia.
Qed.

Lemma fe_sq_spec f : bounded 330 f -> exists h, fe_sq f = Some h /\ bounded 101 h /\ ev h = (ev f * ev f)%Zmod.
Proof.
  intros Hf. unfold fe_sq.
  destruct (rows_spec (fe_bound 330) (fe_bound 330) f f sq_rows) as [E Hb]; [intros i; by apply bounded_limb..|computed|].
  rewrite E. cbn [mbind option_bind].
  eapply (finish_spec fe_mul_ops 101) in Hb as (h & Eh & Hh & V); [|computed..].
  exists h. split; [done|]. split; [done|]. rewrite V. unfold ev. rewrite <- Zmod.of_Z_mul.
  apply of_Z_congr. exists (- wrapped f f). rewrite sq_rows_value by (by eapply bounded_length). lia.
Qed.

Lemma double_box l b : in_box l (sym_box b) -> in_box (map (fun x => x + x) l) (sym_box (map (fun x => x + x) b)).
Proof.
  revert b; induction l as [|x l IH]; intros [|y b] Hb; inversion Hb as [|? ? ? ? Hx Hl]; subst; constructor.
  - unfold within in *. cbn in *. lia.
  - by apply IH.
Qed.

Lemma double_value w l : value w (map (fun x => x + x) l) = 2 * value w l.
Proof.
  revert l; induction w as [|a w IH]; intros [|x l]; try done. cbn [map]. rewrite !value_cons, IH. lia.
Qed.

Lemma fe_sq2_spec f : bounded 330 f ->
  exists h, fe_sq2 f = Some h /\ bounded 101 h /\ ev h = (Zmod.of_Z p25519 2 * (ev f * ev f))%Zmod.
Proof.
  intros Hf. unfold fe_sq2.
  destruct (rows_spec (fe_bound 330) (fe_bound 330) f f sq_rows) as [E Hb]; [intros i; by apply bounded_limb..|computed|].
  rewrite E. cbn [mbind option_bind]. apply double_box in Hb.
  rewrite mapM_chk.
  2:{ eapply in_box_forall in Hb; [|instantiate (2 := - 2 ^ 63); instantiate (1 := 2 ^ 63); by vm_compute].
      rewrite Forall_fmap in Hb. exact Hb. }
  cbn [mbind option_bind]. eapply (finish_spec fe_mul_ops 101) in Hb as (h & Eh & Hh & V); [|computed..].
  exists h. split; [done|]. split; [done|]. rewrite V. unfold ev. rewrite <- !Zmod.of_Z_mul.
  apply of_Z_congr. exists (- 2 * wrapped f f). rewrite sq_rows_value, double_value by (by eapply bounded_length). lia.
Qed.

(** ** Limb-wise operations *)

Lemma map_limb f n : length f = n -> map (limb f) (seq 0 n) = f.
Proof.
  intros <-. apply list_eq. intros i. rewrite list_lookup_fmap. destruct (decide (i < length f)%nat) as [Hi|Hi].
  - rewrite lookup_seq_lt by done. destruct (lookup_lt_is_Some_2 f i Hi) as [x Hx]. cbn. unfold limb. by rewrite Hx, (nth_lookup_Some _ _ _ _ Hx).
  - by rewrite lookup_seq_ge, (lookup_ge_None_2 f) by lia.
Qed.

Lemma limb_map (o : nat -> Z) i : (i < 10)%nat -> limb (map o (seq 0 10)) i = o i.
Proof. intros Hi. unfold limb. rewrite nth_lookup, list_lookup_fmap, lookup_seq_lt by done. done. Qed.

Lemma value_ten f : length f = 10%nat ->
  value fe_weights f = total (map (fun i => limb fe_weights i * limb f i) (seq 0 10)).
Proof.
  intros (x0 & x1 & x2 & x3 & x4 & x5 & x6 & x7 & x8 & x9 & ->)%fe_split.
  unfold fe_weights. cbn [map seq limb nth]. unfold total, value. cbn [zip_with foldr]. lia.
Qed.

Lemma total_linear (a b : nat -> Z) c l :
  total (map (fun i => a i + c * b i) l) = total (map a l) + c * total (map b l).
Proof. unfold total. induction l as [|i l IH]; cbn [map foldr]; lia. Qed.

Lemma bounded_small c f i : 0 <= c <= 6000 -> bounded c f -> Z.abs (limb f i) < 2 ^ 31.
Proof.
  intros Hc Hf. pose proof (bounded_limb c f i Hf) as Hi. pose proof (fe_bound_mono c 6000 i ltac:(lia)).
  assert (limb (fe_bound 6000) i < 2 ^ 31); [|lia]. rewrite fe_bound_limb. by repeat case_match.
Qed.

Lemma value_map2 (o : Z -> Z -> Z) k f g : (forall x y, o x y = x + k * y) -> length f = 10%nat -> length g = 10%nat ->
  value fe_weights (map (fun i => o (limb f i) (limb g i)) (seq 0 10)) = value fe_weights f + k * value fe_weights g.
Proof.
  intros Ho Hf Hg. rewrite !value_ten by done. rewrite <- total_linear. f_equal. apply map_ext_in. intros i Hi%in_seq.
  rewrite limb_map, Ho by lia. ring.
Qed.

Lemma fe_map2_spec o k c c' f g : (k = 1 \/ k = -1) -> (forall x y, o x y = x + k * y) ->
  0 <= c -> 0 <= c' -> c + c' <= 6000 -> bounded c f -> bounded c' g ->
  exists h, fe_map2 o f g = Some h /\ bounded (c + c') h /\
    value fe_weights h = value fe_weights f + k * value fe_weights g.
Proof.
  intros Hk Ho Hc Hc' Hcc Hf Hg. exists (map (fun i => o (limb f i) (limb g i)) (seq 0 10)).
  pose proof (bounded_length _ _ Hf) as Lf. pose proof (bounded_length _ _ Hg) as Lg.
  assert (forall i, Z.abs (o (limb f i) (limb g i)) <= limb (fe_bound (c + c')) i) as Hb.
  { intros i. rewrite Ho. pose proof (bounded_limb _ _ i Hf) as Bf. pose proof (bounded_limb _ _ i Hg) as Bg.
    rewrite fe_bound_limb in *. repeat case_match; zdm. }
  split; [|split].
  - apply mapM_chk, Forall_forall. intros i _. specialize (Hb i). pose proof (fe_bound_mono (c + c') 6000 i Hcc).
    assert (limb (fe_bound 6000) i < 2 ^ 31) by (rewrite fe_bound_limb; by repeat case_match). change (2 ^ (32 - 1)) with (2 ^ 31). lia.
  - apply bounded_intro; [done|]. intros i. destruct (decide (i < 10)%nat) as [Hi|Hi]; [by rewrite limb_map|].
    unfold limb at 1. rewrite nth_overflow by (rewrite length_map, length_seq; lia). specialize (Hb i). lia.
  - by apply value_map2.
Qed.

Lemma fe_add_spec c c' f g : 0 <= c -> 0 <= c' -> c + c' <= 6000 -> bounded c f -> bounded c' g ->
  exists h, fe_add f g = Some h /\ bounded (c + c') h /\ ev h = (ev f + ev g)%Zmod.
Proof.
  intros Hc Hc' Hcc Hf Hg. destruct (fe_map2_spec Z.add 1 c c' f g) as (h & E & Hb & V); try done; [by left|intros; lia|].
  exists h. split; [done|]. split; [done|]. unfold ev. rewrite V, <- Zmod.of_Z_add. f_equal. lia.
Qed.

Lemma fe_sub_spec c c' f g : 0 <= c -> 0 <= c' -> c + c' <= 6000 -> bounded c f -> bounded c' g ->
  exists h, fe_sub f g = Some h /\ bounded (c + c') h /\ ev h = (ev f - ev g)%Zmod.
Proof.
  intros Hc Hc' Hcc Hf Hg. destruct (fe_map2_spec Z.sub (-1) c c' f g) as (h & E & Hb & V); try done; [by right|].
  exists h. split; [done|]. split; [done|]. unfold ev. rewrite V, <- Zmod.of_Z_sub. f_equal.
Qed.

Lemma bounded_fe_0 c : 0 <= c -> bounded c fe_0.
Proof.
  intros Hc. apply bounded_intro; [done|]. intros i. rewrite fe_bound_limb.
  do 10 (destruct i as [|i]; [cbn; zdm|]). by destruct i.
Qed.

Lemma ev_fe_0 : ev fe_0 = Zmod.zero. Proof. by vm_compute. Qed.
Lemma ev_fe_1 : ev fe_1 = Zmod.one. Proof. by vm_compute. Qed.

Lemma fe_neg_sub f : fe_neg f = fe_map2 Z.sub fe_0 f.
Proof.
  unfold fe_neg, fe_map2. apply mapM_ext. intros i. f_equal. 
  do 10 (destruct i as [|i]; [done|]). by destruct i.
Qed.

Lemma fe_neg_spec c f : 0 <= c <= 6000 -> bounded c f ->
  exists h, fe_neg f = Some h /\ bounded c h /\ ev h = (- ev f)%Zmod.
Proof.
  intros Hc Hf. rewrite fe_neg_sub. destruct (fe_sub_spec 0 c fe_0 f) as (h & E & Hb & V); try lia; [by apply bounded_fe_0|done|].
  exists h. split; [done|]. split; [done|]. rewrite V, ev_fe_0. done.
Qed.

Lemma fe_copy_spec f : length f = 10%nat -> fe_copy f = f.
Proof. apply map_limb. Qed.

Lemma int_shiftr w x : 0 <= w -> (- 2 ^ w <= x < 2 ^ w) <-> (Z.shiftr x w = 0 \/ Z.shiftr x w = -1).
Proof.
  intros Hw. rewrite shiftr_div by done. assert (0 < 2 ^ w) by (apply Z.pow_pos_nonneg; lia).
  pose proof (Z.div_mod x (2 ^ w) ltac:(lia)). pose proof (Z.mod_pos_bound x (2 ^ w) ltac:(lia)). nia.
Qed.

Lemma int_lxor w x y : 0 <= w -> - 2 ^ w <= x < 2 ^ w -> - 2 ^ w <= y < 2 ^ w -> - 2 ^ w <= Z.lxor x y < 2 ^ w.
Proof.
  intros Hw. rewrite !int_shiftr, Z.shiftr_lxor by done. intros [Ex|Ex] [Ey|Ey]; rewrite Ex, Ey; first [by left|by right].
Qed.

Lemma sint_wrap x : - 2 ^ (32 - 1) <= x < 2 ^ (32 - 1) -> sint 32 (u32 x mod 2 ^ 32) = x.
Proof. intros Hx. unfold sint, wrapu. rewrite !Z.mod_mod by done. change (2 ^ (32 - 1)) with (2 ^ 31) in *. bcase; zdm. Qed.

(** [fe_cmov] is a conditional move. *)
Lemma fe_cmov_spec c f g (b : bool) : 0 <= c <= 6000 -> bounded c f -> bounded c g ->
  fe_cmov f g (Z.b2z b) = if b then g else f.
Proof.
  intros Hc Hf Hg. rewrite <- (map_limb f 10) at 2 by (by eapply bounded_length).
  rewrite <- (map_limb g 10) at 2 by (by eapply bounded_length). unfold fe_cmov.
  transitivity (map (fun i => if b then limb g i else limb f i) (seq 0 10)); [|by destruct b].
  apply map_ext. intros i. pose proof (bounded_small c f i Hc Hf). pose proof (bounded_small c g i Hc Hg). destruct b; cbn [Z.b2z].
  - change (u32 (- (1))) with (2 ^ 32 - 1). rewrite land_mask by lia.
    pose proof (int_lxor 31 (limb f i) (limb g i) ltac:(lia) ltac:(lia) ltac:(lia)) as Hx. set (x := Z.lxor _ _) in *.
    rewrite sint_wrap by (change (2 ^ (32 - 1)) with (2 ^ 31); lia). unfold x. by rewrite <- Z.lxor_assoc, Z.lxor_nilpotent.
  - change (u32 (- 0)) with 0. rewrite Z.land_0_r. change (sint 32 0) with 0. by rewrite Z.lxor_0_r.
Qed.

(** ** Bytes *)

(** The bit at which limb [i] starts. *)
Definition fe_offset (i : nat) : Z := nth i [0; 26; 51; 77; 102; 128; 153; 179; 204; 230] 255.

Lemma fe_offset_S i : (i < 10)%nat -> fe_offset (S i) = fe_offset i + fe_bits i /\ 0 <= fe_offset i /\ 25 <= fe_bits i <= 26.
Proof. intros Hi. do 10 (destruct i as [|i]; [done|]). lia. Qed.

Lemma fe_weight i : (i < 10)%nat -> limb fe_weights i = 2 ^ fe_offset i.
Proof. intros Hi. do 10 (destruct i as [|i]; [done|]). lia. Qed.

(** The number in the limbs below [n]. *)
Definition low_value (n : nat) (h : list Z) : Z := value (take n fe_weights) h.

Lemma value_take_S w h n : (n < length w)%nat -> value (take (S n) w) h = value (take n w) h + limb w n * limb h n.
Proof.
  revert h n; induction w as [|a w IH]; intros h n Hn; cbn [length] in Hn; [lia|].
  destruct n as [|n], h as [|x h]; cbn [take]; rewrite ?take_0.
  - unfold value, limb. cbn. lia.
  - rewrite value_cons. change (value [] h) with 0. change (value [] (x :: h)) with 0. unfold limb. cbn [nth]. lia.
  - rewrite !value_nil_r. unfold limb. cbn [nth]. lia.
  - rewrite !value_cons, IH by lia. unfold limb. cbn [nth]. lia.
Qed.

Lemma low_value_S n h : (n < 10)%nat -> low_value (S n) h = low_value n h + 2 ^ fe_offset n * limb h n.
Proof. intros Hn. unfold low_value. rewrite value_take_S, fe_weight by done. done. Qed.

(** The chain of [q]. *)
Lemma quotient_chain h q0 n : (n <= 10)%nat -> (forall i, Z.abs (limb h i) <= 2 ^ 27) -> Z.abs q0 <= 64 ->
  exists q, foldl (fun q i => q ← q; t ← chk 32 (limb h i + q); Some (Z.shiftr t (fe_bits i))) (Some q0) (seq 0 n) = Some q
    /\ q = (low_value n h + q0) / 2 ^ fe_offset n /\ Z.abs q <= 64.
Proof.
  intros Hn Hh Hq. induction n as [|n IH].
  { exists q0. split; [done|]. unfold low_value, value. cbn. rewrite Z.div_1_r. done. }
  destruct IH as (q & E & Eq & Hq'); [lia|]. rewrite seq_S, foldl_app, E. cbn [foldl mbind option_bind Nat.add].
  specialize (Hh n). rewrite chk_some by (change (2 ^ (32 - 1)) with (2 ^ 31); lia). cbn [mbind option_bind].
  destruct (fe_offset_S n ltac:(lia)) as (-> & Ho & Hbits). eexists. split; [done|].
  rewrite shiftr_div by lia. split.
  - rewrite low_value_S by lia. rewrite Eq, <- div_pow_div by lia. f_equal.
    replace (low_value n h + 2 ^ fe_offset n * limb h n + q0) with (low_value n h + q0 + limb h n * 2 ^ fe_offset n) by lia.
    rewrite Z.div_add by (apply Z.pow_nonzero; lia). lia.
  - assert (fe_bits n = 25 \/ fe_bits n = 26) as [Eb|Eb] by lia; rewrite Eb; zdm.
Qed.

Lemma low_value_10 h : low_value 10 h = value fe_weights h.
Proof. done. Qed.

(** The basic claim of the comment on [fe_tobytes]. *)
Lemma quotient_floor L h9 q0 q : Z.abs L < 2 ^ 231 -> Z.abs h9 <= 2 ^ 26 ->
  q0 = (19 * h9 + 2 ^ 24) / 2 ^ 25 -> q = (L + 2 ^ 230 * h9 + q0) / 2 ^ 255 -> q = (L + 2 ^ 230 * h9) / p25519.
Proof.
  intros HL H9 E0 E. subst q. symmetry. unfold p25519.
  pose proof (Z.div_mod (L + 2 ^ 230 * h9) (2 ^ 255 - 19) ltac:(lia)) as Ed.
  pose proof (Z.mod_pos_bound (L + 2 ^ 230 * h9) (2 ^ 255 - 19) ltac:(lia)) as Hr.
  set (Q := _ / (2 ^ 255 - 19)) in *. set (r := _ mod (2 ^ 255 - 19)) in *.
  apply Z.div_unique with (r := r - 19 * Q + q0); [left|lia].
  zdm.
Qed.

Lemma bounded_320 h i : bounded 320 h -> Z.abs (limb h i) <= 2 ^ 27.
Proof.
  intros Hh. pose proof (bounded_limb 320 h i Hh). assert (limb (fe_bound 320) i <= 2 ^ 27); [|lia].
  rewrite fe_bound_limb. by repeat case_match.
Qed.

Lemma bounded_320_9 h : bounded 320 h -> Z.abs (limb h 9) <= 53687091.
Proof. intros Hh. apply (bounded_limb 320 h 9 Hh). Qed.

Lemma low_value_bound n h : (n <= 9)%nat -> bounded 320 h -> Z.abs (low_value n h) < 2 * 2 ^ fe_offset n.
Proof.
  intros Hn Hb. induction n as [|n IH]; [done|]. rewrite low_value_S by lia.
  destruct (fe_offset_S n ltac:(lia)) as (-> & Ho & Hbits). rewrite Z.pow_add_r by lia.
  specialize (IH ltac:(lia)).
  pose proof (bounded_limb 320 h n Hb) as Hx.
  assert (limb (fe_bound 320) n + 2 <= 2 * 2 ^ fe_bits n) by (do 9 (destruct n as [|n]; [by vm_compute|]); lia).
  assert (0 < 2 ^ fe_offset n) by (apply Z.pow_pos_nonneg; lia). nia.
Qed.

Lemma fe_quotient_spec h : bounded 320 h ->
  exists q, fe_quotient h = Some q /\ q = value fe_weights h / p25519 /\ Z.abs q <= 64.
Proof.
  intros Hh. pose proof (bounded_320_9 h Hh) as H9. unfold fe_quotient.
  rewrite chk_some by (change (2 ^ (32 - 1)) with (2 ^ 31); lia). cbn [mbind option_bind].
  rewrite chk_some by (change (2 ^ (32 - 1)) with (2 ^ 31); lia). cbn [mbind option_bind]. rewrite shiftr_div by lia.
  destruct (quotient_chain h ((19 * limb h 9 + 2 ^ 24) / 2 ^ 25) 10) as (q & E & Eq & Hq); [lia|intros i; by apply bounded_320|zdm|].
  exists q. split; [done|]. split; [|done].
  rewrite low_value_S in Eq by lia. rewrite <- low_value_10, low_value_S by lia.
  eapply quotient_floor; [|by eapply Z.le_trans; [exact H9|]|reflexivity|exact Eq].
  pose proof (low_value_bound 9 h ltac:(lia) Hh). change (fe_offset 9) with 230 in *. lia.
Qed.

(** Limbs of 26 and 25 bits in turn. *)
Definition canonical (h : list Z) : Prop := forall i, (i < 10)%nat -> 0 <= limb h i < 2 ^ fe_bits i.

Lemma canonical_low n h : (n <= 10)%nat -> canonical h -> 0 <= low_value n h < 2 ^ fe_offset n.
Proof.
  intros Hn Hc. induction n as [|n IH]; [done|]. rewrite low_value_S by lia.
  destruct (fe_offset_S n ltac:(lia)) as (-> & Ho & Hbits). rewrite Z.pow_add_r by lia.
  specialize (IH ltac:(lia)). specialize (Hc n ltac:(lia)). nia.
Qed.

Lemma low_value_rest m j h : (m + j <= 10)%nat ->
  exists k, low_value (m + j) h = low_value m h + 2 ^ fe_offset m * k /\ fe_offset m <= fe_offset (m + j).
Proof.
  induction j as [|j IH]; intros Hj; [exists 0; rewrite Nat.add_0_r; lia|].
  destruct IH as (k & E & Hle); [lia|]. rewrite Nat.add_succ_r, low_value_S, E by lia.
  destruct (fe_offset_S (m + j) ltac:(lia)) as (-> & Ho & Hbits).
  exists (k + 2 ^ (fe_offset (m + j) - fe_offset m) * limb h (m + j)). split; [|lia].
  replace (2 ^ fe_offset (m + j)) with (2 ^ fe_offset m * 2 ^ (fe_offset (m + j) - fe_offset m)); [ring|].
  assert (0 <= fe_offset m) by (apply (fe_offset_S m); lia). rewrite <- Z.pow_add_r by lia. f_equal. lia.
Qed.

(** A value cut at a limb. *)
Lemma cut_limb h n : (n < 10)%nat -> canonical h ->
  value fe_weights h / 2 ^ fe_offset n = limb h n + 2 ^ fe_bits n * (value fe_weights h / 2 ^ fe_offset (S n)).
Proof.
  intros Hn Hc. destruct (fe_offset_S n Hn) as (-> & Ho & Hbits). rewrite <- div_pow_div by lia.
  assert ((value fe_weights h / 2 ^ fe_offset n) mod 2 ^ fe_bits n = limb h n) as <-.
  2:{ rewrite Z.add_comm. apply Z.div_mod, Z.pow_nonzero; lia. }
  destruct (fe_offset_S n Hn) as (E & _). destruct (low_value_rest (S n) (10 - S n) h ltac:(lia)) as (k & Ek & _).
  replace (S n + (10 - S n))%nat with 10%nat in Ek by lia. rewrite low_value_10 in Ek. rewrite Ek, E.
  rewrite low_value_S by lia. rewrite Z.pow_add_r by lia.
  pose proof (canonical_low n h ltac:(lia) Hc) as Hl. specialize (Hc n Hn).
  assert (0 < 2 ^ fe_offset n) by (apply Z.pow_pos_nonneg; lia).
  replace (low_value n h + _ + _) with (low_value n h + (limb h n + k * 2 ^ fe_bits n) * 2 ^ fe_offset n) by ring.
  rewrite Z.div_add, (Z.div_small (low_value n h)), Z.add_0_l, Z.mod_add by (try apply Z.pow_nonzero; lia). by apply Z.mod_small.
Qed.

Lemma fe_store_value h : canonical h -> fe_store h = le_bytes 32 (value fe_weights h).
Proof.
  intros Hc. unfold fe_store. rewrite le_bytes_nth. set (V := value fe_weights h).
  assert (forall (i : nat) r k, (i < 9)%nat -> 0 <= r -> r + 8 <= fe_bits i -> 8 * Z.of_nat k = fe_offset i + r ->
    u8 (Z.shiftr (limb h i) r) = (V / 2 ^ (8 * Z.of_nat k)) mod 256) as G1.
  { intros i r k Hi Hr Hr' ->. eapply store_1; [apply (fe_offset_S i); lia|done|done|]. apply cut_limb; [lia|done]. }
  assert (forall (i : nat) r r' k, (i < 9)%nat -> 0 <= r <= fe_bits i -> r' = fe_bits i - r -> 8 * Z.of_nat k = fe_offset i + r ->
    u8 (Z.lor (Z.shiftr (limb h i) r) (Z.shiftl (limb h (S i)) r')) = (V / 2 ^ (8 * Z.of_nat k)) mod 256) as G2.
  { intros i r r' k Hi Hr -> ->. destruct (fe_offset_S (S i) ltac:(lia)) as (_ & _ & Hbits).
    apply (store_2 V _ _ _ (2 ^ (fe_bits (S i) - 8) * (V / 2 ^ fe_offset (S (S i)))));
      [apply (fe_offset_S i); lia|done|apply Hc; lia|]. unfold V. rewrite (cut_limb h i), (cut_limb h (S i)) at 1 by (done || lia).
    replace (2 ^ fe_bits (S i)) with (2 ^ 8 * 2 ^ (fe_bits (S i) - 8)) by (rewrite <- Z.pow_add_r by lia; f_equal; lia). ring. }
  assert (forall r k, 0 <= r <= 18 -> 8 * Z.of_nat k = fe_offset 9 + r ->
    u8 (Z.shiftr (limb h 9) r) = (V / 2 ^ (8 * Z.of_nat k)) mod 256) as G3.
  { intros r k Hr ->. apply (store_1 _ _ _ 0 26); [done|lia..|]. unfold V. rewrite cut_limb by (done || lia).
    rewrite (Z.div_small _ (2 ^ fe_offset 10)) by (by apply (canonical_low 10)). lia. }
  cbn [map seq]. repeat f_equal.
  all: first [apply G1; (done || lia)|apply G2; (done || lia)|apply G3; (done || lia)].
Qed.

(** [fe_tobytes] writes the canonical bytes. *)
Lemma tobytes_carries V h h' q : bounded 320 h -> Z.abs q <= 64 -> V = value fe_weights h -> h' = <[0%nat := limb h 0 + 19 * q]> h ++ [0] ->
  exists s, run 32 h' fe_tobytes_ops = Some s /\ canonical s /\ value fe_weights s + 2 ^ 255 * limb s 10 = V + 19 * q.
Proof.
  intros Hh Hq EV ->. pose proof (bounded_length _ _ Hh) as Hl.
  assert (in_box (<[0%nat := limb h 0 + 19 * q]> h ++ [0])
    (<[0%nat := (- 107374182 - 1216, 107374182 + 1216)]> (sym_box (fe_bound 320)) ++ [(0, 0)])) as Hb.
  { apply Forall2_app; [|by repeat constructor]. apply in_box_insert; [done|]. pose proof (bounded_limb 320 h 0 Hh) as H0.
    change (limb (fe_bound 320) 0) with 107374182 in H0. unfold within. cbn [fst snd]. lia. }
  assert (length (fe_weights ++ [2 ^ 255]) = length (<[0%nat := limb h 0 + 19 * q]> h ++ [0])) as L
    by (rewrite !length_app, length_insert, Hl; done).
  eapply (run_checked 32 0 (fe_weights ++ [2 ^ 255]) fe_tobytes_ops (fe_weights ++ [2 ^ 255]))
    with (wts' := fe_weights ++ [2 ^ 255]) in Hb as (s & E & Hbs & Hls & D);
    [|exact L|computed|computed].
  exists s. split; [done|]. split.
  - intros i Hi. pose proof (in_box_limb _ _ i Hbs) as Hw. unfold within in Hw.
    do 10 (destruct i as [|i]; [cbn in Hw |- *; lia|]). lia.
  - apply Z.divide_0_l in D. rewrite !value_app in D. change (length fe_weights) with 10%nat in *.
    rewrite (value_take fe_weights (_ ++ _)) in D. change (length fe_weights) with 10%nat in *.
    rewrite take_app_length', drop_app_length', value_insert in D by (rewrite ?length_insert; done || lia).
    change (limb fe_weights 0) with 1 in D. 
    change (value [2 ^ 255] [0]) with 0 in D.
    destruct (lookup_lt_is_Some_2 s 10) as [x Hx]; [rewrite <- Hls; by vm_compute|].
    rewrite (drop_S _ _ _ Hx), value_cons in D. unfold limb at 1. rewrite (nth_lookup_Some _ _ _ _ Hx).
    change (value [] (drop 11 s)) with 0 in D. lia.
Qed.

Lemma fe_tobytes_spec h : bounded 320 h -> fe_tobytes h = Some (le_bytes 32 (Zmod.to_Z (ev h))).
Proof.
  intros Hh. unfold fe_tobytes. destruct (fe_quotient_spec h Hh) as (q & -> & Eq & Hq). cbn [mbind option_bind].
  rewrite chk_some by (change (2 ^ (32 - 1)) with (2 ^ 31); lia). cbn [mbind option_bind].
  pose proof (bounded_320 h 0 Hh). rewrite chk_some by (change (2 ^ (32 - 1)) with (2 ^ 31); lia). cbn [mbind option_bind].
  destruct (tobytes_carries _ h _ q Hh Hq eq_refl eq_refl) as (s & -> & Hc & V). cbn [mbind option_bind].
  rewrite fe_store_value by done. do 2 f_equal. unfold ev. rewrite Zmod.to_Z_of_Z.
  pose proof (canonical_low 10 s ltac:(lia) Hc) as Hs. change (fe_offset 10) with 255 in Hs. rewrite low_value_10 in Hs.
  pose proof (Z.div_mod (value fe_weights h) p25519 ltac:(done)) as Ed.
  pose proof (Z.mod_pos_bound (value fe_weights h) p25519 ltac:(done)) as Hr. rewrite <- Eq in Ed. unfold p25519 in *. lia.
Qed.

(** ** Loading an element *)

Lemma mod_split x a b : 0 <= a -> 0 <= b -> x mod 2 ^ (a + b) = x mod 2 ^ a + 2 ^ a * ((x / 2 ^ a) mod 2 ^ b).
Proof. intros. rewrite Z.pow_add_r by done. apply Z.rem_mul_r; [apply Z.pow_nonzero|apply Z.pow_pos_nonneg]; lia. Qed.

Lemma load_word_3 s i : bytes_ok s -> load_3 s i = (le_value s / 2 ^ (8 * Z.of_nat i)) mod 2 ^ 24.
Proof. intros Hs. by rewrite load_3_value, le_value_drop_div. Qed.
Lemma load_word_4 s i : bytes_ok s -> load_4 s i = (le_value s / 2 ^ (8 * Z.of_nat i)) mod 2 ^ 32.
Proof. intros Hs. by rewrite load_4_value, le_value_drop_div. Qed.

(** The words of the low 29 bytes. *)
Lemma fe_load_words s top : is_key s -> exists a0 a1 a2 a3 a4 a5 a6 a7 a8,
  fe_load s top = [a0; u64 (a1 * 2 ^ 6); u64 (a2 * 2 ^ 5); u64 (a3 * 2 ^ 3); u64 (a4 * 2 ^ 2); a5; u64 (a6 * 2 ^ 7); u64 (a7 * 2 ^ 5);
                   u64 (a8 * 2 ^ 4); u64 (top * 2 ^ 2)] /\
  (0 <= a0 < 2 ^ 32 /\ 0 <= a1 < 2 ^ 24 /\ 0 <= a2 < 2 ^ 24 /\ 0 <= a3 < 2 ^ 24 /\ 0 <= a4 < 2 ^ 24 /\
   0 <= a5 < 2 ^ 32 /\ 0 <= a6 < 2 ^ 24 /\ 0 <= a7 < 2 ^ 24 /\ 0 <= a8 < 2 ^ 24) /\
  le_value s mod 2 ^ 232 = a0 + 2 ^ 32 * a1 + 2 ^ 56 * a2 + 2 ^ 80 * a3 + 2 ^ 104 * a4 + 2 ^ 128 * a5 + 2 ^ 160 * a6
    + 2 ^ 184 * a7 + 2 ^ 208 * a8.
Proof.
  intros [_ Hs]. unfold fe_load. rewrite !shiftl_mul by lia. do 9 eexists. split; [done|].
  rewrite !load_word_3, !load_word_4 by done. set (X := le_value s).
  split; [split_and!; apply Z.mod_pos_bound; lia|].
  change 232 with (208 + 24). rewrite mod_split by lia. change (2 ^ 208) with (2 ^ (184 + 24)) at 1. rewrite mod_split by lia.
  change (2 ^ 184) with (2 ^ (160 + 24)) at 1. rewrite mod_split by lia. change (2 ^ 160) with (2 ^ (128 + 32)) at 1. rewrite mod_split by lia.
  change (2 ^ 128) with (2 ^ (104 + 24)) at 1. rewrite mod_split by lia. change (2 ^ 104) with (2 ^ (80 + 24)) at 1. rewrite mod_split by lia.
  change (2 ^ 80) with (2 ^ (56 + 24)) at 1. rewrite mod_split by lia. change (2 ^ 56) with (2 ^ (32 + 24)) at 1. rewrite mod_split by lia.
  change (8 * Z.of_nat 0) with 0. rewrite Z.div_1_r. reflexivity.
Qed.

(** The ranges of the words as loaded. *)
Definition load_box (t : Z) : list (Z * Z) :=
  map (fun e => (0, 2 ^ e - 1)) [32; 30; 29; 27; 26; 32; 31; 29; 28; t].

Lemma wrapu_shift x e k : 0 <= x < 2 ^ e -> 0 <= k -> 0 <= e -> e + k <= 64 -> u64 (x * 2 ^ k) = x * 2 ^ k /\ 0 <= x * 2 ^ k <= 2 ^ (e + k) - 1.
Proof.
  intros Hx Hk He Hek. assert (2 ^ (e + k) <= 2 ^ 64) by (apply Z.pow_le_mono_r; lia). rewrite Z.pow_add_r in * by lia.
  assert (0 < 2 ^ k) by (apply Z.pow_pos_nonneg; lia). split; [apply wrapu_small; unfold is_uint|]; nia.
Qed.

Lemma fe_load_spec s top t : is_key s -> 23 <= t <= 24 -> 0 <= top < 2 ^ t ->
  in_box (fe_load s top) (load_box (t + 2)) /\ value fe_weights (fe_load s top) = le_value s mod 2 ^ 232 + 2 ^ 232 * top /\
  (t = 23 -> fe_noncanonical (fe_load s top) = (p25519 <=? le_value s mod 2 ^ 232 + 2 ^ 232 * top)).
Proof.
  intros Hs Ht Htop. destruct (fe_load_words s top Hs) as (a0 & a1 & a2 & a3 & a4 & a5 & a6 & a7 & a8 & E & R & ->). rewrite E.
  destruct R as (R0 & R1 & R2 & R3 & R4 & R5 & R6 & R7 & R8).
  destruct (wrapu_shift a1 24 6 R1) as [-> B1]; [lia..|]. destruct (wrapu_shift a2 24 5 R2) as [-> B2]; [lia..|].
  destruct (wrapu_shift a3 24 3 R3) as [-> B3]; [lia..|]. destruct (wrapu_shift a4 24 2 R4) as [-> B4]; [lia..|].
  destruct (wrapu_shift a6 24 7 R6) as [-> B6]; [lia..|]. destruct (wrapu_shift a7 24 5 R7) as [-> B7]; [lia..|].
  destruct (wrapu_shift a8 24 4 R8) as [-> B8]; [lia..|]. destruct (wrapu_shift top t 2 Htop) as [-> B9]; [lia..|].
  split; [|split].
  - unfold load_box. repeat (constructor; [unfold within; cbn [fst snd]; first [done|lia]|]). constructor.
  - unfold fe_weights. cbn [map]. rewrite !value_cons. change (value [] []) with 0. lia.
  - intros ->. unfold fe_noncanonical, limb, p25519. cbn [nth]. clear E B1 B2 B3 B4 B6 B7 B8 B9.
    destruct (Z.leb_spec (2 ^ 255 - 19) (a0 + 2 ^ 32 * a1 + 2 ^ 56 * a2 + 2 ^ 80 * a3 + 2 ^ 104 * a4 + 2 ^ 128 * a5 + 2 ^ 160 * a6
      + 2 ^ 184 * a7 + 2 ^ 208 * a8 + 2 ^ 232 * top)) as [Hp|Hp].
    + rewrite !andb_true_iff, !Z.eqb_eq, Z.leb_le. lia.
    + apply not_true_iff_false. rewrite !andb_true_iff, !Z.eqb_eq, Z.leb_le. lia.
Qed.

Lemma fe_frombytes_spec s : is_key s ->
  if p25519 <=? le_value s mod 2 ^ 255 then fe_frombytes_vartime s = Some None
  else exists f, fe_frombytes_vartime s = Some (Some f) /\ bounded 101 f /\ ev f = Zmod.of_Z p25519 (le_value s mod 2 ^ 255).
Proof.
  intros Hs. unfold fe_frombytes_vartime. change 8388607 with (2 ^ 23 - 1). rewrite land_mask by lia.
  pose proof (Z.mod_pos_bound (load_3 s 29) (2 ^ 23) ltac:(done)) as Ht.
  destruct (fe_load_spec s _ 23 Hs ltac:(lia) Ht) as (Hb & V & N). rewrite N by done.
  assert (le_value s mod 2 ^ 255 = le_value s mod 2 ^ 232 + 2 ^ 232 * (load_3 s 29 mod 2 ^ 23)) as EX.
  { destruct Hs as [_ Hs]. change 255 with (232 + 23). rewrite mod_split, load_word_3 by (done || lia). do 2 f_equal.
    change (8 * Z.of_nat 29) with 232. set (y := le_value s / 2 ^ 232).
    pose proof (word_bits y 24 0 23 ltac:(lia) ltac:(lia) ltac:(lia)) as W. change (2 ^ 0) with 1 in W. by rewrite !Z.div_1_r in W. }
  rewrite <- EX in *. case_match; [done|].
  eapply (finish_spec fe_from_ops 101) in Hb as (f & Ef & Hf & Vf); [|computed..].
  exists f. rewrite Ef. split; [done|]. split; [done|]. by rewrite Vf, V.
Qed.

(** ** Elements standing for field values *)

(** The limbs [f] are within bound [c] and stand for [x]. *)
Definition rep (c : Z) (f : fe) (x : F) : Prop := bounded c f /\ ev f = x.

Lemma rep_mono c c' f x : c <= c' -> rep c f x -> rep c' f x.
Proof. intros Hc [Hf E]. split; [by apply (bounded_mono c)|done]. Qed.

Lemma rep_eq c f x y : rep c f x -> x = y -> rep c f y.
Proof. by intros Hf <-. Qed.

Lemma rep_length c f x : rep c f x -> length f = 10%nat.
Proof. intros [Hf _]. by eapply bounded_length. Qed.

Section Routines.
Open Scope Zmod_scope.

Lemma fe_0_ok : rep 1 fe_0 0. Proof. split; [by apply bounded_fe_0|apply ev_fe_0]. Qed.
Lemma fe_1_ok : rep 1 fe_1 1.
Proof.
  split; [|apply ev_fe_1]. apply bounded_intro; [done|]. intros i. rewrite fe_bound_limb.
  do 10 (destruct i as [|i]; [by vm_compute|]). by destruct i.
Qed.

Lemma fe_mul_ok c c' f g x y : rep c f x -> rep c' g y -> (c <= 330)%Z -> (c' <= 330)%Z ->
  returns (fe_mul f g) (fun h => rep 101 h (x * y)).
Proof.
  intros [Hf <-] [Hg <-] Hc Hc'. destruct (fe_mul_spec f g) as (h & E & Hh & V);
    [by apply (bounded_mono c)|by apply (bounded_mono c')|]. by exists h.
Qed.

Lemma fe_sq_ok c f x : rep c f x -> (c <= 330)%Z -> returns (fe_sq f) (fun h => rep 101 h (x * x)).
Proof.
  intros [Hf <-] Hc. destruct (fe_sq_spec f) as (h & E & Hh & V); [by apply (bounded_mono c)|]. by exists h.
Qed.

Lemma fe_sq2_ok c f x : rep c f x -> (c <= 330)%Z -> returns (fe_sq2 f) (fun h => rep 101 h (Zmod.of_Z p25519 2 * (x * x))).
Proof.
  intros [Hf <-] Hc. destruct (fe_sq2_spec f) as (h & E & Hh & V); [by apply (bounded_mono c)|]. by exists h.
Qed.

Lemma fe_add_ok c c' f g x y : rep c f x -> rep c' g y -> (0 <= c)%Z -> (0 <= c')%Z -> (c + c' <= 6000)%Z ->
  returns (fe_add f g) (fun h => rep (c + c') h (x + y)).
Proof. intros [Hf <-] [Hg <-] Hc Hc' Hcc. destruct (fe_add_spec c c' f g) as (h & E & Hh & V); [done..|]. by exists h. Qed.

Lemma fe_sub_ok c c' f g x y : rep c f x -> rep c' g y -> (0 <= c)%Z -> (0 <= c')%Z -> (c + c' <= 6000)%Z ->
  returns (fe_sub f g) (fun h => rep (c + c') h (x - y)).
Proof. intros [Hf <-] [Hg <-] Hc Hc' Hcc. destruct (fe_sub_spec c c' f g) as (h & E & Hh & V); [done..|]. by exists h. Qed.

Lemma fe_neg_ok c f x : rep c f x -> (0 <= c <= 6000)%Z -> returns (fe_neg f) (fun h => rep c h (- x)).
Proof. intros [Hf <-] Hc. destruct (fe_neg_spec c f) as (h & E & Hh & V); [done..|]. by exists h. Qed.

Lemma fe_tobytes_ok c f x : rep c f x -> (c <= 320)%Z -> returns (fe_tobytes f) (eq (le_bytes 32 (Zmod.to_Z x))).
Proof. intros [Hf <-] Hc. apply returns_eq, fe_tobytes_spec. by apply (bounded_mono c). Qed.

Lemma F_range (x : F) : (0 <= Zmod.to_Z x < p25519)%Z.
Proof. by apply Zmod.to_Z_pos_bound. Qed.

Lemma F_bytes (x : F) : is_key (le_bytes 32 (Zmod.to_Z x)) /\ le_value (le_bytes 32 (Zmod.to_Z x)) = Zmod.to_Z x.
Proof.
  split; [split; [apply length_le_bytes|apply le_bytes_ok]|]. pose proof (F_range x).
  apply le_value_bytes. unfold p25519 in *. change (256 ^ Z.of_nat 32)%Z with (2 ^ 256)%Z. lia.
Qed.

Lemma fe_isnonzero_ok c f x : rep c f x -> (c <= 320)%Z ->
  returns (fe_isnonzero f) (eq (if Zmod.eqb x 0 then 0%Z else 1%Z)).
Proof.
  intros Hf Hc. eapply returns_bind; [by eapply fe_tobytes_ok|]. intros s <-. apply returns_some.
  destruct (F_bytes x) as [Hk E]. rewrite sc_isnonzero_eq, E by done. done.
Qed.

Lemma fe_isnegative_ok c f x : rep c f x -> (c <= 320)%Z -> returns (fe_isnegative f) (eq (Zmod.to_Z x mod 2)%Z).
Proof.
  intros Hf Hc. eapply returns_bind; [by eapply fe_tobytes_ok|]. intros s <-. apply returns_some.
  change 1%Z with (2 ^ 1 - 1)%Z. rewrite land_mask by done. unfold byte. rewrite le_bytes_S. cbn [nth].
  change 256%Z with (2 * 128)%Z. rewrite Z.rem_mul_r by done. rewrite Z.mul_comm, Z.mod_add by done. by rewrite Z.mod_mod.
Qed.

(** *** Power chains *)

Lemma fe_mul_pow c c' f g (z : F) a b : rep c f (z ^ a) -> rep c' g (z ^ b) -> (c <= 330)%Z -> (c' <= 330)%Z ->
  (0 <= a)%Z -> (0 <= b)%Z -> returns (fe_mul f g) (fun h => rep 101 h (z ^ (a + b))).
Proof. intros. rewrite Zmod.pow_add_r_nonneg by done. by eapply fe_mul_ok. Qed.

Lemma fe_sq_pow c f (z : F) a : rep c f (z ^ a) -> (c <= 330)%Z -> (0 <= a)%Z ->
  returns (fe_sq f) (fun h => rep 101 h (z ^ (a + a))).
Proof. intros. rewrite Zmod.pow_add_r_nonneg by done. by eapply fe_sq_ok. Qed.

Lemma fe_sq_times_pow n f (z : F) a : rep 101 f (z ^ a) -> (0 <= a)%Z ->
  returns (fe_sq_times n f) (fun h => rep 101 h (z ^ (2 ^ Z.of_nat n * a))).
Proof.
  revert f a; induction n as [|n IH]; intros f a Hf Ha; cbn [fe_sq_times].
  { apply returns_some. by rewrite Z.mul_1_l. }
  eapply returns_bind; [eapply fe_sq_pow; [exact Hf|lia|lia]|]. cbn beta. intros h Hh.
  eapply returns_mono; [apply IH; [exact Hh|lia]|]. cbn beta. intros h' Hh'.
  replace (2 ^ Z.of_nat (S n) * a)%Z with (2 ^ Z.of_nat n * (a + a))%Z; [done|].
  rewrite Nat2Z.inj_succ, Z.pow_succ_r by lia. lia.
Qed.
End Routines.

(** One step of a chain: apply the routine's lemma and evaluate the exponent. *)
Ltac pow_step :=
  eapply returns_bind;
  [lazymatch goal with
   | |- returns (fe_sq _) _ => eapply fe_sq_pow
   | |- returns (fe_mul _ _) _ => eapply fe_mul_pow
   | |- returns (fe_sq_times _ _) _ => eapply fe_sq_times_pow
   end; first [eassumption|lia]|];
  cbn beta; let t := fresh "t" in let H := fresh "H" in intros t H;
  lazymatch type of H with rep _ _ (Zmod.pow _ ?e) => let e' := eval vm_compute in e in change e with e' in H end.

(** One step of straight-line field code. *)
Ltac fe_step :=
  eapply returns_bind;
  [lazymatch goal with
   | |- returns (fe_sq _) _ => eapply fe_sq_ok
   | |- returns (fe_sq2 _) _ => eapply fe_sq2_ok
   | |- returns (fe_mul _ _) _ => eapply fe_mul_ok
   | |- returns (fe_add _ _) _ => eapply fe_add_ok
   | |- returns (fe_sub _ _) _ => eapply fe_sub_ok
   | |- returns (fe_neg _) _ => eapply fe_neg_ok
   | |- returns (fe_isnonzero _) _ => eapply fe_isnonzero_ok
   | |- returns (fe_isnegative _) _ => eapply fe_isnegative_ok
   | |- returns (fe_tobytes _) _ => eapply fe_tobytes_ok
   end; lazymatch goal with |- rep _ _ _ => eassumption | |- _ => lia end|];
  cbn beta; let t := fresh "t" in let H := fresh "H" in intros t H.

Section Chains.
Open Scope Zmod_scope.
Add Ring F_ring : (Zmod.ring_theory p25519).

Lemma fe_invert_pow c f (z : F) : rep c f z -> (c <= 330)%Z -> returns (fe_invert f) (fun h => rep 101 h (z ^ (p25519 - 2))).
Proof.
  intros Hf Hc. rewrite <- (Zmod.pow_1_r z) in Hf. unfold fe_invert. do 30 pow_step.
  eapply returns_mono; [eapply fe_mul_pow; first [eassumption|lia]|]. cbn beta. intros h Hh.
  eapply rep_eq; [exact Hh|]. f_equal.
Qed.

Lemma fe_pow22523_pow c f (z : F) : rep c f z -> (c <= 330)%Z ->
  returns (fe_pow22523 f) (fun h => rep 101 h (z ^ ((p25519 - 5) / 8))).
Proof.
  intros Hf Hc. rewrite <- (Zmod.pow_1_r z) in Hf. unfold fe_pow22523. do 28 pow_step.
  eapply returns_mono; [eapply fe_mul_pow; first [eassumption|lia]|]. cbn beta. intros h Hh.
  eapply rep_eq; [exact Hh|]. f_equal.
Qed.

(** [u v^3 (u v^7)^((q-5)/8)]. *)
Lemma fe_divpowm1_ok c c' f g (u v : F) : rep c f u -> rep c' g v -> (c <= 330)%Z -> (c' <= 330)%Z ->
  returns (fe_divpowm1 f g) (fun h => rep 101 h ((u * (v * v * v * v * v * v * v)) ^ ((p25519 - 5) / 8) * (v * v * v) * u)).
Proof.
  intros Hf Hg Hc Hc'. unfold fe_divpowm1.
  do 5 fe_step.
  eapply returns_bind; [eapply fe_pow22523_pow; [eassumption|lia]|]. cbn beta. intros ? ?. fe_step.
  eapply returns_mono; [eapply fe_mul_ok; first [eassumption|lia]|]. cbn beta. intros h Hh. eapply rep_eq; [exact Hh|].
  do 3 f_equal. ring.
Qed.

#[local] Instance prime_p : Z.prime p25519 := prime_field.

Lemma pow_inv (x : F) : x ^ (p25519 - 2) = Zmod.inv x.
Proof.
  destruct (Zmod.eqb_spec x 0) as [->|Hx]; [by vm_compute|]. apply Zmod.fermat_inv; [done|apply prime_p].
Qed.

Lemma fe_invert_ok c f (x : F) : rep c f x -> (c <= 330)%Z -> returns (fe_invert f) (fun h => rep 101 h (Zmod.inv x)).
Proof. intros. rewrite <- pow_inv. by eapply fe_invert_pow. Qed.

Lemma F_integral (x y : F) : x * y = 0 -> x = 0 \/ y = 0.
Proof. apply Zmod.mul_0_iff_prime, prime_p. Qed.

Lemma F_inv_l (x : F) : x <> 0 -> Zmod.inv x * x = 1.
Proof. intros Hx. apply Zmod.mul_inv_same_l_prime; [apply prime_p|done]. Qed.

Lemma F_inv_unique (x y : F) : x * y = 1 -> y = Zmod.inv x.
Proof.
  intros E. assert (x <> 0) as Hx by (intros ->; rewrite Zmod.mul_0_l in E; discriminate).
  rewrite <- (Zmod.mul_1_l y), <- (F_inv_l x Hx). rewrite <- (Zmod.mul_assoc (Zmod.inv x) x y), E. ring.
Qed.

(** *** Batch inversion *)

Definition F_product (l : list F) : F := foldr Zmod.mul 1 l.

Lemma F_product_nz l : F_product l <> 0 <-> Forall (fun x => x <> 0) l.
Proof.
  unfold F_product. induction l as [|x l IH]; cbn [foldr]; [split; [constructor|by vm_compute]|].
  rewrite Forall_cons, <- IH. split.
  - intros H. split; intros E; apply H; rewrite E; ring.
  - intros [H1 H2] [E|E]%F_integral; tauto.
Qed.

Lemma F_product_snoc l x : F_product (l ++ [x]) = F_product l * x.
Proof. unfold F_product. induction l as [|y l IH]; cbn [foldr app]; [ring|]. rewrite IH. ring. Qed.

(** The forward products: entry [i] is the product of the first [i + 1]. *)
Lemma fe_products_ok l acc a xs : rep 101 acc a -> Forall2 (rep 101) l xs ->
  returns (fe_products acc l) (fun out => length out = S (length l) /\
    forall i, (i <= length l)%nat -> rep 101 (nth i out []) (a * F_product (take i xs))).
Proof.
  intros Ha Hl. revert acc a Ha; induction Hl as [|f x l xs Hf Hl IH]; intros acc a Ha; cbn [fe_products].
  - apply returns_some. split; [done|]. intros i Hi. assert (i = 0)%nat as -> by (cbn in Hi; lia). cbn [nth].
    eapply rep_eq; [exact Ha|]. cbn. ring.
  - eapply returns_bind; [eapply fe_mul_ok; first [eassumption|lia]|]. cbn beta. intros h Hh.
    eapply returns_bind; [apply IH; exact Hh|]. cbn beta. intros out [Hlen Hout]. apply returns_some. split; [cbn; lia|].
    intros [|i] Hi; cbn [nth take].
    + eapply rep_eq; [exact Ha|]. cbn. ring.
    + eapply rep_eq; [apply Hout; cbn in Hi; lia|]. unfold F_product. cbn [foldr]. ring.
Qed.

Lemma Forall2_nth_rep l xs i : Forall2 (rep 101) l xs -> (i < length l)%nat -> rep 101 (nth i l []) (nth i xs 0).
Proof.
  intros Hl. revert i; induction Hl as [|f x l xs Hf Hl IH]; intros [|i] Hi; cbn in *; [lia..|done|apply IH; lia].
Qed.

Lemma take_S_nth {A} (l : list A) i d : (i < length l)%nat -> take (S i) l = take i l ++ [nth i l d].
Proof.
  intros Hi. destruct (lookup_lt_is_Some_2 l i Hi) as [x Hx]. by rewrite (take_S_r _ _ _ Hx), (nth_lookup_Some _ _ _ _ Hx).
Qed.

Lemma Forall2_nth {A B} (R : A -> B -> Prop) l k a b : length l = length k ->
  (forall j, (j < length l)%nat -> R (nth j l a) (nth j k b)) -> Forall2 R l k.
Proof.
  revert k; induction l as [|x l IH]; intros [|y k] Hl Hj; cbn in *; try lia; [constructor|]. constructor; [apply (Hj 0%nat); lia|].
  apply IH; [lia|]. intros j Hlt. apply (Hj (S j)). lia.
Qed.

Lemma inv_split (P x : F) : P <> 0 -> x <> 0 -> Zmod.inv (P * x) * P = Zmod.inv x /\ Zmod.inv (P * x) * x = Zmod.inv P.
Proof.
  intros HP Hx. assert (P * x <> 0) as HPx by (intros [?|?]%F_integral; tauto). pose proof (F_inv_l _ HPx) as E.
  split; apply F_inv_unique; rewrite <- E; ring.
Qed.

(** The backward loop, entered with [i] elements left and [a] the inverse of
    the product of the first [i]. *)
Lemma fe_backward_ok i input xs out a : (0 < i <= length input)%nat -> length out = length input ->
  Forall2 (rep 101) input xs -> Forall (fun x => x <> 0) xs ->
  (forall j, (j < i)%nat -> rep 101 (nth j out []) (F_product (take (S j) xs))) ->
  (forall j, (i <= j < length input)%nat -> rep 101 (nth j out []) (Zmod.inv (nth j xs 0))) ->
  rep 101 a (Zmod.inv (F_product (take i xs))) ->
  returns (fe_backward i input out a) (fun out => Forall2 (fun f x => rep 101 f (Zmod.inv x)) out xs).
Proof.
  intros Hi Hlo Hin Hnz. revert out a Hi Hlo. induction i as [|i IH]; intros out a Hi Hlo Hlow Hhigh Ha; [lia|].
  pose proof (Forall2_length _ _ _ Hin) as Hlx.
  destruct i as [|j]; cbn [fe_backward].
  - apply returns_some. rewrite fe_copy_spec by (by eapply rep_length).
    apply (Forall2_nth _ _ _ [] 0); rewrite length_insert; [lia|]. intros j Hj. rewrite nth_insert by lia.
    destruct (decide (0%nat = j)) as [<-|Hne]; [|apply Hhigh; lia].
    eapply rep_eq; [exact Ha|]. f_equal. rewrite (take_S_nth xs 0 0) by lia. rewrite take_0, F_product_snoc. cbn. ring.
  - rewrite (take_S_nth xs (S j) 0), F_product_snoc in Ha by lia.
    assert (F_product (take (S j) xs) <> 0) as HP by (by apply F_product_nz, Forall_take).
    assert (nth (S j) xs 0 <> 0) as Hx by (rewrite Forall_forall in Hnz; apply Hnz, list_elem_of_In, nth_In; lia).
    destruct (inv_split _ _ HP Hx) as [E1 E2].
    eapply returns_bind; [eapply fe_mul_ok; [exact Ha|apply (Hlow j); lia|lia|lia]|]. cbn beta. rewrite E1. intros o Ho.
    eapply returns_bind; [eapply fe_mul_ok; [exact Ha|apply (Forall2_nth_rep input xs (S j) Hin); lia|lia|lia]|]. cbn beta. rewrite E2. intros a' Ha'.
    apply IH; [lia|by rewrite length_insert| | |done]; intros k Hk; rewrite nth_insert by lia;
      (destruct (decide (S j = k)) as [<-|Hne]; [try lia; done|]).
    + apply Hlow. lia.
    + apply Hhigh. lia.
Qed.

Lemma fe_batch_invert_ok input xs : Forall2 (rep 101) input xs ->
  returns (fe_batch_invert input) (fun '(code, out) =>
    (code = 0%Z /\ Forall (fun x => x <> 0) xs /\ Forall2 (fun f x => rep 101 f (Zmod.inv x)) out xs) \/
    (code = (-1)%Z /\ ~ Forall (fun x => x <> 0) xs)).
Proof.
  intros Hin. pose proof (Forall2_length _ _ _ Hin) as Hlen. destruct Hin as [|f x l xs Hf Hl]; cbn [fe_batch_invert].
  { apply returns_some. left. repeat constructor. }
  rewrite fe_copy_spec by (by eapply rep_length).
  eapply returns_bind; [apply fe_products_ok; [exact Hf|exact Hl]|]. cbn beta. intros out [Hlo Hout]. cbn [length] in Hlen.
  assert (forall j, (j < S (length l))%nat -> rep 101 (nth j out []) (F_product (take (S j) (x :: xs)))) as Hlow.
  { intros j Hj. apply Hout. lia. }
  pose proof (Hlow (length l) ltac:(lia)) as Hlast. rewrite take_ge in Hlast by (cbn; lia).
  eapply returns_bind; [eapply fe_isnonzero_ok; [exact Hlast|lia]|]. cbn beta. intros nz <-.
  destruct (Zmod.eqb_spec (F_product (x :: xs)) 0) as [Hz|Hz]; cbn [Z.eqb].
  { apply returns_some. right. split; [done|]. rewrite <- F_product_nz. tauto. }
  eapply returns_bind; [eapply fe_invert_ok; [exact Hlast|lia]|]. cbn beta. intros a Ha.
  eapply returns_bind; [apply (fe_backward_ok _ _ (x :: xs)); [cbn; lia|cbn; lia|by constructor|by apply F_product_nz|exact Hlow| |]|].
  - cbn [length]. intros j Hj. lia.
  - by rewrite take_ge by (cbn; lia).
  - cbn beta. intros out' Hout'. apply returns_some. left. split; [done|]. split; [by apply F_product_nz|done].
Qed.
End Chains.

Lemma F_255 (x : F) : (0 <= Zmod.to_Z x < 2 ^ 255)%Z.
Proof. pose proof (F_range x). unfold p25519 in *. lia. Qed.

(** ** Results *)

Section FieldResults.
Open Scope Zmod_scope.

(** C31: On limbs within the bounds the sources ask for, addition, subtraction,
    negation, multiplication, squaring, doubled squaring and inversion run
    without overflowing a 32- or 64-bit word and return limbs, within the bounds
    the sources promise, that stand for the result in the field of
    [2^255 - 19] elements; the inverse of zero is zero. *)
Theorem field_arithmetic_correct f g (x y : F) : rep 330 f x -> rep 330 g y ->
  returns (fe_add f g) (fun h => rep 660 h (x + y)) /\
  returns (fe_sub f g) (fun h => rep 660 h (x - y)) /\
  returns (fe_neg f) (fun h => rep 330 h (- x)) /\
  returns (fe_mul f g) (fun h => rep 101 h (x * y)) /\
  returns (fe_sq f) (fun h => rep 101 h (x * x)) /\
  returns (fe_sq2 f) (fun h => rep 101 h (Zmod.of_Z p25519 2 * (x * x))) /\
  returns (fe_invert f) (fun h => rep 101 h (Zmod.inv x) /\ if Zmod.eqb x 0 then ev h = 0 else ev h * x = 1).
Proof.
  intros Hf Hg. split_and!.
  - by eapply (fe_add_ok 330 330); try lia.
  - by eapply (fe_sub_ok 330 330); try lia.
  - by eapply fe_neg_ok; try lia.
  - by eapply (fe_mul_ok 330 330); try lia.
  - by eapply fe_sq_ok; try lia.
  - by eapply fe_sq2_ok; try lia.
  - eapply returns_mono; [by eapply fe_invert_ok; try lia|]. cbn beta. intros h Hh. split; [done|]. destruct Hh as [_ ->].
    destruct (Zmod.eqb_spec x 0) as [->|Hx]; [by vm_compute|]. by apply F_inv_l.
Qed.

Lemma field_arithmetic_witness : returns (fe_mul fe_1 fe_0) (fun h => rep 101 h (1 * 0)).
Proof.
  apply (field_arithmetic_correct fe_1 fe_0 1 0); (eapply rep_mono; [|first [apply fe_1_ok|apply fe_0_ok]]; lia).
Defined.

(** Field elements and bytes.  Every element has one encoding of 32 bytes,
    its least residue; the decoder refuses exactly the residues from
    [2^255 - 19] up to [2^255 - 1], ignores the top bit, and gives back every
    element that was encoded. *)
Theorem field_bytes_correct f (x : F) s : rep 320 f x -> is_key s ->
  fe_tobytes f = Some (le_bytes 32 (Zmod.to_Z x)) /\
  (fe_frombytes_vartime s = Some None <-> (p25519 <= le_value s mod 2 ^ 255)%Z) /\
  (forall h, fe_frombytes_vartime s = Some (Some h) -> fe_tobytes h = Some (le_bytes 32 (le_value s mod 2 ^ 255)%Z)) /\
  returns (fe_frombytes_vartime (le_bytes 32 (Zmod.to_Z x))) (fun o => exists h, o = Some h /\ rep 101 h x).
Proof.
  intros Hf Hs. pose proof (fe_frombytes_spec s Hs) as Hd. pose proof (F_range x) as Hx. pose proof (F_255 x) as Hx2.
  split; [destruct Hf as [Hb <-]; by apply fe_tobytes_spec|]. split; [|split].
  - destruct (Z.leb_spec p25519 (le_value s mod 2 ^ 255)) as [Hp|Hp]; [done|]. destruct Hd as (h & -> & _). split; [done|lia].
  - intros h Eh. destruct (Z.leb_spec p25519 (le_value s mod 2 ^ 255)) as [Hp|Hp]; [by rewrite Eh in Hd|].
    destruct Hd as (h' & E & Hb & Ev). rewrite Eh in E. injection E as <-. rewrite fe_tobytes_spec by (by eapply bounded_mono; [|exact Hb]).
    rewrite Ev, Zmod.to_Z_of_Z, Z.mod_small by (pose proof (Z.mod_pos_bound (le_value s) (2 ^ 255)); lia). done.
  - assert (is_key (le_bytes 32 (Zmod.to_Z x))) as Hk by (split; [apply length_le_bytes|apply le_bytes_ok]).
    pose proof (fe_frombytes_spec _ Hk) as Hx'. rewrite le_value_bytes in Hx' by lia.
    rewrite (Z.mod_small (Zmod.to_Z x)) in Hx' by lia.
    destruct (Z.leb_spec p25519 (Zmod.to_Z x)); [lia|]. destruct Hx' as (h & -> & Hb & Ev). apply returns_some. exists h. split; [done|].
    split; [done|]. by rewrite Ev, Zmod.of_Z_to_Z.
Qed.

Lemma field_bytes_witness : fe_tobytes fe_1 = Some (le_bytes 32 1) /\ fe_frombytes_vartime (replicate 32 255%Z) = Some None.
Proof.
  destruct (field_bytes_correct fe_1 1 (replicate 32 255%Z)) as (E & [_ Hd] & _).
  - eapply rep_mono; [|apply fe_1_ok]; lia.
  - split; [done|]. apply Forall_replicate. by vm_compute.
  - split; [exact E|]. apply Hd. by vm_compute.
Defined.

(** The batch inversion takes one inversion for any number of elements.  It
    fails, with -1, exactly when one of them is zero, and otherwise writes the
    inverse of each. *)
Theorem batch_invert_correct input (xs : list F) : Forall2 (rep 101) input xs ->
  returns (fe_batch_invert input) (fun '(code, out) =>
    (code = 0%Z /\ Forall (fun x => x <> 0) xs /\ Forall2 (fun f x => rep 101 f (Zmod.inv x)) out xs) \/
    (code = (-1)%Z /\ ~ Forall (fun x => x <> 0) xs)).
Proof. apply fe_batch_invert_ok. Qed.

Lemma batch_invert_witness : returns (fe_batch_invert [fe_1; fe_0]) (fun '(code, out) =>
    (code = 0%Z /\ Forall (fun x => x <> 0) [1; 0 : F] /\ Forall2 (fun f x => rep 101 f (Zmod.inv x)) out [1; 0 : F]) \/
    (code = (-1)%Z /\ ~ Forall (fun x => x <> 0) [1; 0 : F])).
Proof.
  apply (batch_invert_correct [fe_1; fe_0] [1; 0]). repeat apply List.Forall2_cons; [..|apply List.Forall2_nil];
  (eapply rep_mono; [|first [apply fe_1_ok|apply fe_0_ok]]; lia).
Defined.
End FieldResults.
