(* ===== verification/Group.v ===== *)
(** * Abelian groups

    The interface between the curve and the code that works with points: an
    abelian group with its integer multiples.  The clients (scalar
    multiplication, signatures, multi-exponentiation) are proved against the
    class; [Edwards.v] gives the instance. *)

From S2P Require Import Prelude.

Class AbGroup (G : Type) := {
  gzero : G;
  gadd : G -> G -> G;
  gneg : G -> G;
  gadd_assoc a b c : gadd a (gadd b c) = gadd (gadd a b) c;
  gadd_comm a b : gadd a b = gadd b a;
  gadd_0_l a : gadd gzero a = a;
  gadd_neg_r a : gadd a (gneg a) = gzero;
}.

Declare Scope group_scope.
Delimit Scope group_scope with G.
Infix "+" := gadd : group_scope.
Notation "- x" := (gneg x) : group_scope.
Notation "a - b" := (gadd a (gneg b)) : group_scope.

Section Group.
Context {G : Type} `{AbGroup G}.
Implicit Types a b c P Q : G.
Open Scope group_scope.

Lemma gadd_0_r a : a + gzero = a.
Proof. by rewrite gadd_comm, gadd_0_l. Qed.

Lemma gadd_neg_l a : - a + a = gzero.
Proof. by rewrite gadd_comm, gadd_neg_r. Qed.

Lemma gadd_cancel_l a b c : a + b = a + c -> b = c.
Proof.
  intros E. rewrite <- (gadd_0_l b), <- (gadd_0_l c), <- (gadd_neg_l a), <- !gadd_assoc. by rewrite E.
Qed.

Lemma gadd_cancel_r a b c : b + a = c + a -> b = c.
Proof. rewrite !(gadd_comm _ a). apply gadd_cancel_l. Qed.

Lemma gneg_unique a b : a + b = gzero -> b = - a.
Proof. intros E. apply (gadd_cancel_l a). by rewrite E, gadd_neg_r. Qed.

Lemma gneg_neg a : - - a = a.
Proof. symmetry. apply gneg_unique, gadd_neg_l. Qed.

Lemma gneg_0 : - gzero = gzero.
Proof. symmetry. apply gneg_unique, gadd_0_l. Qed.

(** [(a + b) + (c + d) = (a + c) + (b + d)]. *)
Lemma gadd_swap a b c d : (a + b) + (c + d) = (a + c) + (b + d).
Proof. rewrite <- !gadd_assoc. f_equal. rewrite !gadd_assoc. f_equal. apply gadd_comm. Qed.

Lemma gneg_add a b : - (a + b) = - a + - b.
Proof. symmetry. apply gneg_unique. by rewrite gadd_swap, !gadd_neg_r, gadd_0_l. Qed.

(** ** Integer multiples *)

Fixpoint nmul (n : nat) (P : G) : G := match n with O => gzero | S n => P + nmul n P end.

Definition smul (k : Z) (P : G) : G :=
  if decide (0 <= k)%Z then nmul (Z.to_nat k) P else - nmul (Z.to_nat (- k)) P.

Lemma nmul_add m n P : nmul (m + n) P = nmul m P + nmul n P.
Proof. induction m as [|m IH]; cbn; [by rewrite gadd_0_l|]. by rewrite IH, gadd_assoc. Qed.

Lemma smul_of_nat n P : smul (Z.of_nat n) P = nmul n P.
Proof. unfold smul. rewrite decide_True by lia. by rewrite Nat2Z.id. Qed.

Lemma smul_neg_nat n P : smul (- Z.of_nat n) P = - nmul n P.
Proof.
  unfold smul. case_decide.
  - assert (n = 0)%nat as -> by lia. cbn. by rewrite gneg_0.
  - do 2 f_equal. lia.
Qed.

Lemma smul_0 P : smul 0 P = gzero. Proof. done. Qed.
Lemma smul_1 P : smul 1 P = P. Proof. apply gadd_0_r. Qed.

(** The successor in either sign. *)
Lemma smul_succ k P : smul (k + 1) P = smul k P + P.
Proof.
  destruct (decide (0 <= k)%Z) as [Hk|Hk].
  - rewrite <- (Z2Nat.id k) by done. change 1%Z with (Z.of_nat 1). rewrite <- Nat2Z.inj_add, !smul_of_nat, nmul_add. cbn. by rewrite gadd_0_r.
  - replace k with (- Z.of_nat (S (Z.to_nat (- k) - 1)))%Z by lia. set (n := (Z.to_nat (- k) - 1)%nat).
    replace (- Z.of_nat (S n) + 1)%Z with (- Z.of_nat n)%Z by lia. rewrite !smul_neg_nat. cbn [nmul].
    rewrite gneg_add, (gadd_comm (- P)), <- gadd_assoc, gadd_neg_l. by rewrite gadd_0_r.
Qed.

Lemma smul_pred k P : smul (k - 1) P = smul k P - P.
Proof. rewrite <- (Z.sub_add 1 k) at 2. by rewrite smul_succ, <- gadd_assoc, gadd_neg_r, gadd_0_r. Qed.

Lemma smul_add j k P : smul (j + k) P = smul j P + smul k P.
Proof.
  revert k. apply Z.bi_induction; [by intros ? ? ->| |].
  - by rewrite Z.add_0_r, smul_0, gadd_0_r.
  - intros k. split; intros IH.
    + rewrite Z.add_succ_r. unfold Z.succ. by rewrite !smul_succ, IH, gadd_assoc.
    + rewrite Z.add_succ_r in IH. unfold Z.succ in IH. rewrite !smul_succ, gadd_assoc in IH. by eapply gadd_cancel_r.
Qed.

Lemma smul_opp k P : smul (- k) P = - smul k P.
Proof. apply gneg_unique. rewrite <- smul_add. by rewrite Z.add_opp_diag_r, smul_0. Qed.

Lemma smul_sub j k P : smul (j - k) P = smul j P - smul k P.
Proof. by rewrite <- Z.add_opp_r, smul_add, smul_opp. Qed.

Lemma smul_gadd k P Q : smul k (P + Q) = smul k P + smul k Q.
Proof.
  revert k. apply Z.bi_induction; [by intros ? ? ->| |].
  - by rewrite !smul_0, gadd_0_l.
  - intros k. unfold Z.succ. rewrite !smul_succ, (gadd_swap (smul k P)). split; [by intros ->|by intros ?%gadd_cancel_r].
Qed.

Lemma smul_zero k : smul k gzero = gzero.
Proof. apply (gadd_cancel_l (smul k gzero)). by rewrite <- smul_gadd, gadd_0_l, gadd_0_r. Qed.

Lemma smul_gneg k P : smul k (- P) = - smul k P.
Proof. apply gneg_unique. by rewrite <- smul_gadd, gadd_neg_r, smul_zero. Qed.

Lemma smul_mul j k P : smul (j * k) P = smul j (smul k P).
Proof.
  revert j. apply Z.bi_induction; [by intros ? ? ->|done|].
  intros j. rewrite Z.mul_succ_l. unfold Z.succ. rewrite smul_add, smul_succ. split; [by intros ->|by intros ?%gadd_cancel_r].
Qed.

Lemma smul_2 P : smul 2 P = P + P.
Proof. change 2%Z with (1 + 1)%Z. by rewrite smul_add, smul_1. Qed.

(** Multiples of a point whose order divides [n]. *)
Lemma smul_mod n k P : smul n P = gzero -> n <> 0%Z -> smul (k mod n) P = smul k P.
Proof.
  intros Hn Hnz. rewrite (Z.div_mod k n) at 2 by done. by rewrite smul_add, Z.mul_comm, smul_mul, Hn, smul_zero, gadd_0_l.
Qed.

(** ** Sums *)

Definition gsum (l : list G) : G := foldr gadd gzero l.

Lemma gsum_app l m : gsum (l ++ m) = gsum l + gsum m.
Proof. induction l as [|a l IH]; cbn; [by rewrite gadd_0_l|]. change (foldr gadd gzero) with gsum. by rewrite IH, gadd_assoc. Qed.

Lemma gsum_cons a l : gsum (a :: l) = a + gsum l.
Proof. done. Qed.

Lemma gsum_map_add {A} (f g : A -> G) l : gsum (map (fun x => f x + g x) l) = gsum (map f l) + gsum (map g l).
Proof. induction l as [|x l IH]; cbn [map]; rewrite ?gsum_cons; [symmetry; apply gadd_0_l|]. rewrite IH. apply gadd_swap. Qed.

Lemma gsum_smul {A} k (f : A -> G) l : gsum (map (fun x => smul k (f x)) l) = smul k (gsum (map f l)).
Proof. induction l as [|x l IH]; cbn [map]; rewrite ?gsum_cons; [symmetry; apply smul_zero|]. by rewrite IH, smul_gadd. Qed.

Lemma gsum_perm l m : Permutation l m -> gsum l = gsum m.
Proof.
  induction 1 as [|a l m _ IH|a b l|l m k _ IH1 _ IH2]; [done|by rewrite !gsum_cons, IH| |congruence].
  rewrite !gsum_cons, !gadd_assoc. f_equal. apply gadd_comm.
Qed.
(** ** Linear identities

    An equation between combinations of points holds when the coefficients of
    every point agree; [group_ring] reifies the two sides and leaves the
    coefficients to [ring]. *)

Inductive gexp :=
| GAtom (n : nat)
| GZero
| GAdd (e f : gexp)
| GNeg (e : gexp)
| GMul (k : Z) (e : gexp).

Fixpoint gdenote (env : list G) (e : gexp) : G :=
  match e with
  | GAtom n => nth n env gzero
  | GZero => gzero
  | GAdd e f => gdenote env e + gdenote env f
  | GNeg e => - gdenote env e
  | GMul k e => smul k (gdenote env e)
  end.

Fixpoint gcoef (e : gexp) (n : nat) : Z :=
  match e with
  | GAtom m => if (m =? n)%nat then 1%Z else 0%Z
  | GZero => 0%Z
  | GAdd e f => (gcoef e n + gcoef f n)%Z
  | GNeg e => Z.opp (gcoef e n)
  | GMul k e => (k * gcoef e n)%Z
  end.

Fixpoint glin (env : list G) (i : nat) (c : nat -> Z) : G :=
  match env with
  | [] => gzero
  | P :: env => smul (c i) P + glin env (S i) c
  end.

Lemma glin_ext env i (c c' : nat -> Z) : (forall n, (i <= n < i + length env)%nat -> c n = c' n) -> glin env i c = glin env i c'.
Proof.
  revert i; induction env as [|P env IH]; intros i Hc; [done|]. cbn. rewrite (Hc i) by (cbn; lia). f_equal.
  apply IH. intros n Hn. apply Hc. cbn. lia.
Qed.

Lemma glin_add env i (c c' : nat -> Z) : glin env i (fun n => c n + c' n)%Z = glin env i c + glin env i c'.
Proof. revert i; induction env as [|P env IH]; intros i; cbn; [by rewrite gadd_0_l|]. by rewrite IH, smul_add, gadd_swap. Qed.

Lemma glin_mul env i k (c : nat -> Z) : glin env i (fun n => k * c n)%Z = smul k (glin env i c).
Proof. revert i; induction env as [|P env IH]; intros i; cbn; [by rewrite smul_zero|]. by rewrite IH, smul_mul, smul_gadd. Qed.

Lemma glin_neg env i (c : nat -> Z) : glin env i (fun n => Z.opp (c n)) = - glin env i c.
Proof. revert i; induction env as [|P env IH]; intros i; cbn; [by rewrite gneg_0|]. by rewrite IH, smul_opp, gneg_add. Qed.

Lemma glin_zero env i (c : nat -> Z) : (forall n, (i <= n)%nat -> c n = 0%Z) -> glin env i c = gzero.
Proof.
  revert i; induction env as [|P env IH]; intros i Hc; cbn; [done|]. rewrite IH by (intros; apply Hc; lia).
  by rewrite Hc, smul_0, gadd_0_l by lia.
Qed.

Lemma glin_atom env i m : glin env i (fun n => if (m + i =? n)%nat then 1%Z else 0%Z) = nth m env gzero.
Proof.
  revert i m; induction env as [|P env IH]; intros i m; cbn; [by destruct m|]. destruct m as [|m].
  - rewrite Nat.eqb_refl, smul_1, glin_zero; [apply gadd_0_r|]. intros n Hn. rewrite (proj2 (Nat.eqb_neq _ _)); [done|lia].
  - rewrite (proj2 (Nat.eqb_neq (S m + i) i)) by lia. rewrite smul_0, gadd_0_l, <- (IH (S i)). apply glin_ext. intros n _.
    by replace (m + S i)%nat with (S m + i)%nat by lia.
Qed.

Lemma gdenote_glin env e : gdenote env e = glin env 0 (gcoef e).
Proof.
  induction e as [m| |e IHe f IHf|e IHe|k e IHe]; cbn [gdenote].
  - rewrite <- (glin_atom env 0 m). apply glin_ext. intros n _. cbn. by rewrite Nat.add_0_r.
  - symmetry. by apply glin_zero.
  - rewrite IHe, IHf, <- glin_add. by apply glin_ext.
  - rewrite IHe, <- glin_neg. by apply glin_ext.
  - rewrite IHe, <- glin_mul. by apply glin_ext.
Qed.

Lemma gexp_eq env e f : Forall (fun n => gcoef e n = gcoef f n) (seq 0 (length env)) -> gdenote env e = gdenote env f.
Proof.
  intros HF. rewrite !gdenote_glin. apply glin_ext. intros n Hn. rewrite Forall_forall in HF. apply HF, elem_of_seq. lia.
Qed.

End Group.

Ltac group_same x y := match goal with _ => let _ := match goal with _ => constr_eq x y end in constr:(true) | _ => constr:(false) end.

Ltac group_index x env :=
  lazymatch env with
  | ?y :: ?env => lazymatch group_same x y with true => constr:(O) | false => let n := group_index x env in constr:(S n) end
  end.

Ltac group_mem x env :=
  lazymatch env with
  | [] => constr:(false)
  | ?y :: ?env => lazymatch group_same x y with true => constr:(true) | false => group_mem x env end
  end.

Ltac group_atoms t env :=
  lazymatch t with
  | gadd ?a ?b => let env := group_atoms a env in group_atoms b env
  | gneg ?a => group_atoms a env
  | smul _ ?a => group_atoms a env
  | gzero => env
  | _ => lazymatch group_mem t env with true => env | false => constr:(t :: env) end
  end.

Ltac group_reify t env :=
  lazymatch t with
  | gadd ?a ?b => let e := group_reify a env in let f := group_reify b env in constr:(GAdd e f)
  | gneg ?a => let e := group_reify a env in constr:(GNeg e)
  | smul ?k ?a => let e := group_reify a env in constr:(GMul k e)
  | gzero => constr:(GZero)
  | _ => let n := group_index t env in constr:(GAtom n)
  end.

(** The identity is proved over variables, for the points and the group, so
    that checking it never computes with points. *)
Ltac group_generalize env :=
  lazymatch env with
  | [] => idtac
  | ?x :: ?env => tryif is_var x then idtac else (generalize x; intro); group_generalize env
  end.

Ltac group_ring_with tac :=
  lazymatch goal with
  | |- @eq ?G ?a ?b =>
      let env := group_atoms a (@nil G) in
      let env := group_atoms b env in
      group_generalize env
  end;
  try lazymatch goal with |- context [@gadd _ ?H] => tryif is_var H then idtac else (generalize H; intro) end;
  lazymatch goal with |- ?S => cut S; [exact (fun x => x)|] end;
  lazymatch goal with
  | |- @eq ?G ?a ?b =>
      let env := group_atoms a (@nil G) in
      let env := group_atoms b env in
      let e := group_reify a env in
      let f := group_reify b env in
      change (gdenote env e = gdenote env f);
      apply gexp_eq; cbn [seq length]; repeat (apply Forall_cons; split); [cbn [gcoef Nat.eqb]; tac..|apply Forall_nil; exact Logic.I]
  end.

Ltac group_ring := group_ring_with ltac:(ring).
