(* ===== verification/Edwards.v ===== *)
(** * The twisted Edwards curve

    The group the [ge_*] routines of [src/crypto/crypto-ops.c] work in: the
    points of [-x^2 + y^2 = 1 + d x^2 y^2] over the field modulo [2^255 - 19].
    The addition law is complete because [d] is not a square, and the points
    form an abelian group. *)

From Stdlib Require Import Zmod.
From S2P Require Import Prelude Limbs ScalarOps Primes FieldOps Group.

#[local] Open Scope Zmod_scope.

(** ** The constants *)

Abbreviation of_Z := (Zmod.of_Z p25519).

(** [d = -121665 / 121666], and a square root of [-1]. *)
Definition ed_d : F := of_Z 37095705934669439343138083508754565189542113879843219016388785533085940283555.
Definition sqrt_m1 : F := of_Z 19681161376707505956807079304988542015446066515923890162744021073123829784752.

(** [d / 2] is the square of this. *)
Definition d_root : F := of_Z 30152228160694284937144285544751646460505239448795619900082871953631125353365.

Section Field.
Add Ring F_ring : (Zmod.ring_theory p25519).

Lemma ed_d_spec : ed_d * of_Z 121666 = of_Z (-121665).
Proof. vm_compute. reflexivity. Qed.

Lemma sqrt_m1_spec : sqrt_m1 * sqrt_m1 = - (1).
Proof. vm_compute. reflexivity. Qed.

Lemma d_root_spec : ed_d = of_Z 2 * (d_root * d_root).
Proof. vm_compute. reflexivity. Qed.

#[export] Instance prime_p25519 : Z.prime p25519 := prime_field.

Lemma two_nonresidue : of_Z 2 ^ ((p25519 - 1) / 2) = - (1).
Proof.
  rewrite <- Zmod.of_Z_pow by (by vm_compute). change (- (1 : F)) with (of_Z (-1)). apply of_Z_congr.
  apply pow2_eqm_sound; [done|done|]. vm_compute. reflexivity.
Qed.

Lemma F_fermat (x : F) : x <> 0 -> x ^ (p25519 - 1) = 1.
Proof. intros Hx. apply Zmod.fermat_nz; [done|apply prime_p25519]. Qed.

Lemma F_neq_0 (x : F) : x <> 0 <-> Zmod.eqb x 0 = false.
Proof. destruct (Zmod.eqb_spec x 0); intuition congruence. Qed.

Lemma F_mul_nz (x y : F) : x <> 0 -> y <> 0 -> x * y <> 0.
Proof. intros Hx Hy [?|?]%F_integral; tauto. Qed.

Lemma F_mul_nz4 (a b c e : F) : a <> 0 -> b <> 0 -> c <> 0 -> e <> 0 -> a * b * c * e <> 0.
Proof. intros Ha Hb Hc He. apply F_mul_nz; [apply F_mul_nz; [apply F_mul_nz|]|]; assumption. Qed.

Lemma F_cancel (a x y : F) : a <> 0 -> a * x = a * y -> x = y.
Proof. intros Ha. apply Zmod.mul_cancel_l_prime; [apply prime_p25519|done]. Qed.

Lemma F_eq_sub (x y : F) : x - y = 0 -> x = y.
Proof. intros E. replace x with (x - y + y) by ring. rewrite E. ring. Qed.

Lemma F_one_nz : (1 : F) <> 0.
Proof. by vm_compute. Qed.

(** Squares are closed under quotients, so [d] is none as 2 is none. *)
Lemma two_nonsquare (x : F) : x * x <> of_Z 2.
Proof.
  intros E. assert (x <> 0) as Hx by (intros ->; by vm_compute in E).
  pose proof (F_fermat x Hx) as Hf. pose proof two_nonresidue as H2. rewrite <- E, <- Zmod.pow_2_r, <- Zmod.pow_mul_r_nonneg in H2 by (by vm_compute).
  change (2 * ((p25519 - 1) / 2))%Z with (p25519 - 1)%Z in H2. rewrite Hf in H2. by vm_compute in H2.
Qed.

Lemma d_nonsquare (x : F) : x * x <> ed_d.
Proof.
  intros E. rewrite d_root_spec in E. assert (d_root <> 0) as Hr by (by vm_compute).
  pose proof (F_inv_l d_root Hr) as Ei. apply (two_nonsquare (x * Zmod.inv d_root)).
  transitivity (x * x * (Zmod.inv d_root * Zmod.inv d_root)); [ring|]. rewrite E.
  transitivity (of_Z 2 * (Zmod.inv d_root * d_root) * (Zmod.inv d_root * d_root)); [ring|]. rewrite Ei. ring.
Qed.
End Field.

(** ** The addition law

    For any [d] that is not a square, over a field with [i^2 = -1]. *)
Section Curve.
Context (d i : F) (Hi : i * i = - (1)) (Hd : forall x : F, x * x <> d).
Add Ring F_ring_curve : (Zmod.ring_theory p25519).

Definition curve_eq (x y : F) : Prop := d * x * x * y * y = y * y - x * x - 1.

(** If [e = d x1 x2 y1 y2] were 1 or -1, [d] would be the square of a quotient
    of [i x1 + e y1] or of [i x1 - e y1]. *)
Lemma denominator_square x1 y1 x2 y2 e s : curve_eq x1 y1 -> curve_eq x2 y2 -> e = d * x1 * x2 * y1 * y2 -> e * e = 1 -> s * s = 1 ->
  (i * x1 + s * e * y1) * (i * x1 + s * e * y1) =
  d * ((x1 * y1 * (i * x2 + s * y2)) * (x1 * y1 * (i * x2 + s * y2))).
Proof.
  unfold curve_eq. intros E1 E2 Ee He Hs.
  assert (d * x1 * x1 * y1 * y1 * (y2 * y2 - x2 * x2) = d * x1 * x1 * y1 * y1 + e * e) as H1.
  { replace (y2 * y2 - x2 * x2) with (1 + d * x2 * x2 * y2 * y2) by (rewrite E2; ring). rewrite Ee. ring. }
  transitivity (i * i * (x1 * x1) + s * s * (e * e) * (y1 * y1) + (1 + 1) * s * i * x1 * y1 * e); [ring|].
  transitivity (d * x1 * x1 * y1 * y1 * (s * s * (y2 * y2) + i * i * (x2 * x2))
                + (1 + 1) * s * i * x1 * y1 * (d * x1 * x2 * y1 * y2)); [|ring].
  rewrite Hi, Hs, <- Ee. replace (1 * (y2 * y2) + - (1) * (x2 * x2)) with (y2 * y2 - x2 * x2) by ring.
  rewrite H1, He, E1. ring.
Qed.

Lemma denominator_nz x1 y1 x2 y2 e : curve_eq x1 y1 -> curve_eq x2 y2 -> e = d * x1 * x2 * y1 * y2 -> e * e <> 1.
Proof.
  intros H1 H2 Ee He.
  assert (e <> 0) as Hnz by (intros ->; rewrite Zmod.mul_0_l in He; by vm_compute in He).
  assert (x1 * y1 <> 0) as Hxy by (intros E; apply Hnz; rewrite Ee; replace (_ * _ * _ * _ * _) with (d * x2 * y2 * (x1 * y1)) by ring; rewrite E; ring).
  assert (y2 <> 0) as Hy2 by (intros E; apply Hnz; rewrite Ee, E; ring).
  assert (forall s, s * s = 1 -> i * x2 + s * y2 = 0) as Hz.
  { intros s Hs. pose proof (denominator_square x1 y1 x2 y2 e s H1 H2 Ee He Hs) as E.
    destruct (Zmod.eqb_spec (i * x2 + s * y2) 0) as [|Hne]; [done|exfalso].
    assert (x1 * y1 * (i * x2 + s * y2) <> 0) as HD by (by apply F_mul_nz). set (D := x1 * y1 * _) in *.
    set (N := i * x1 + s * e * y1) in *. apply (Hd (N * Zmod.inv D)). pose proof (F_inv_l D HD) as Ei.
    transitivity (N * N * (Zmod.inv D * Zmod.inv D)); [ring|]. rewrite E.
    transitivity (d * (Zmod.inv D * D) * (Zmod.inv D * D)); [ring|]. rewrite Ei. ring. }
  pose proof (Hz 1 ltac:(ring)) as Ha. pose proof (Hz (- (1)) ltac:(ring)) as Hb.
  assert ((1 + 1) * y2 = 0) as H2y.
  { transitivity (i * x2 + 1 * y2 - (i * x2 + - (1) * y2)); [ring|]. rewrite Ha, Hb. ring. }
  apply F_integral in H2y as [E|E]; [by vm_compute in E|done].
Qed.

Lemma denominators x1 y1 x2 y2 : curve_eq x1 y1 -> curve_eq x2 y2 ->
  1 + d * x1 * x2 * y1 * y2 <> 0 /\ 1 - d * x1 * x2 * y1 * y2 <> 0.
Proof.
  intros H1 H2. pose proof (denominator_nz x1 y1 x2 y2 _ H1 H2 eq_refl) as Hne. set (e := d * x1 * x2 * y1 * y2) in *.
  split; intros E; apply Hne.
  - replace e with (1 + e - 1) by ring. rewrite E. ring.
  - replace e with (1 - (1 - e)) by ring. rewrite E. ring.
Qed.

Definition add_x (x1 y1 x2 y2 : F) : F := (x1 * y2 + y1 * x2) * Zmod.inv (1 + d * x1 * x2 * y1 * y2).
Definition add_y (x1 y1 x2 y2 : F) : F := (y1 * y2 + x1 * x2) * Zmod.inv (1 - d * x1 * x2 * y1 * y2).

Lemma inv_spec (n e : F) : e <> 0 -> n * Zmod.inv e * e = n.
Proof. intros He. rewrite <- Zmod.mul_assoc, F_inv_l by done. ring. Qed.

Lemma affine_add_spec x1 y1 x2 y2 : curve_eq x1 y1 -> curve_eq x2 y2 ->
  add_x x1 y1 x2 y2 * (1 + d * x1 * x2 * y1 * y2) = x1 * y2 + y1 * x2 /\
  add_y x1 y1 x2 y2 * (1 - d * x1 * x2 * y1 * y2) = y1 * y2 + x1 * x2.
Proof. intros H1 H2. destruct (denominators x1 y1 x2 y2 H1 H2). split; by apply inv_spec. Qed.

(** The quotient is the only solution. *)
Lemma quotient_unique (e a b : F) : e <> 0 -> a * e = b * e -> a = b.
Proof. intros He E. apply (F_cancel e); [done|]. by rewrite !(Zmod.mul_comm e). Qed.

Lemma add_curve x1 y1 x2 y2 : curve_eq x1 y1 -> curve_eq x2 y2 -> curve_eq (add_x x1 y1 x2 y2) (add_y x1 y1 x2 y2).
Proof.
  intros H1 H2. destruct (affine_add_spec x1 y1 x2 y2 H1 H2) as [Ex Ey]. destruct (denominators x1 y1 x2 y2 H1 H2) as [Hx Hy].
  set (X := add_x x1 y1 x2 y2) in *. set (Y := add_y x1 y1 x2 y2) in *. unfold curve_eq in *.
  set (u := 1 + d * x1 * x2 * y1 * y2) in *. set (v := 1 - d * x1 * x2 * y1 * y2) in *.
  apply (F_cancel (u * u * v * v)); [apply F_mul_nz4; assumption|].
  transitivity (d * (X * u) * (X * u) * (Y * v) * (Y * v)); [ring|].
  transitivity ((Y * v) * (Y * v) * (u * u) - (X * u) * (X * u) * (v * v) - u * u * v * v); [|ring].
  rewrite Ex, Ey. unfold u, v. ring [H1 H2].
Qed.

(** Both ways to add three points, over a common denominator. *)
Lemma assoc_identity_x x1 y1 x2 y2 x3 y3 : curve_eq x1 y1 -> curve_eq x2 y2 -> curve_eq x3 y3 ->
  let t := d * x1 * x2 * y1 * y2 in let u := d * x2 * x3 * y2 * y3 in
  ((x1 * y2 + y1 * x2) * (1 - t) * y3 + (y1 * y2 + x1 * x2) * (1 + t) * x3)
    * ((1 + u) * (1 - u) + d * x1 * y1 * (x2 * y3 + y2 * x3) * (y2 * y3 + x2 * x3)) =
  (x1 * (y2 * y3 + x2 * x3) * (1 + u) + y1 * (x2 * y3 + y2 * x3) * (1 - u))
    * ((1 + t) * (1 - t) + d * (x1 * y2 + y1 * x2) * (y1 * y2 + x1 * x2) * x3 * y3).
Proof. unfold curve_eq. intros E1 E2 E3. cbv zeta. ring [E1 E2 E3]. Qed.

Lemma assoc_identity_y x1 y1 x2 y2 x3 y3 : curve_eq x1 y1 -> curve_eq x2 y2 -> curve_eq x3 y3 ->
  let t := d * x1 * x2 * y1 * y2 in let u := d * x2 * x3 * y2 * y3 in
  ((y1 * y2 + x1 * x2) * (1 + t) * y3 + (x1 * y2 + y1 * x2) * (1 - t) * x3)
    * ((1 + u) * (1 - u) - d * x1 * y1 * (x2 * y3 + y2 * x3) * (y2 * y3 + x2 * x3)) =
  (y1 * (y2 * y3 + x2 * x3) * (1 + u) + x1 * (x2 * y3 + y2 * x3) * (1 - u))
    * ((1 + t) * (1 - t) - d * (x1 * y2 + y1 * x2) * (y1 * y2 + x1 * x2) * x3 * y3).
Proof. unfold curve_eq. intros E1 E2 E3. cbv zeta. ring [E1 E2 E3]. Qed.

Lemma add_assoc x1 y1 x2 y2 x3 y3 : curve_eq x1 y1 -> curve_eq x2 y2 -> curve_eq x3 y3 ->
  add_x (add_x x1 y1 x2 y2) (add_y x1 y1 x2 y2) x3 y3 = add_x x1 y1 (add_x x2 y2 x3 y3) (add_y x2 y2 x3 y3) /\
  add_y (add_x x1 y1 x2 y2) (add_y x1 y1 x2 y2) x3 y3 = add_y x1 y1 (add_x x2 y2 x3 y3) (add_y x2 y2 x3 y3).
Proof.
  intros H1 H2 H3. pose proof (assoc_identity_x _ _ _ _ _ _ H1 H2 H3) as Ax. pose proof (assoc_identity_y _ _ _ _ _ _ H1 H2 H3) as Ay.
  cbv zeta in Ax, Ay. destruct (affine_add_spec _ _ _ _ H1 H2) as [Ex Ey], (affine_add_spec _ _ _ _ H2 H3) as [Fx Fy].
  destruct (denominators _ _ _ _ H1 H2) as [Dx Dy], (denominators _ _ _ _ H2 H3) as [Gx Gy].
  pose proof (add_curve _ _ _ _ H1 H2) as C12. pose proof (add_curve _ _ _ _ H2 H3) as C23.
  set (X := add_x x1 y1 x2 y2) in *. set (Y := add_y x1 y1 x2 y2) in *. set (U := add_x x2 y2 x3 y3) in *. set (V := add_y x2 y2 x3 y3) in *.
  destruct (affine_add_spec _ _ _ _ C12 H3) as [Lx Ly], (affine_add_spec _ _ _ _ H1 C23) as [Rx Ry].
  destruct (denominators _ _ _ _ C12 H3) as [DLx DLy], (denominators _ _ _ _ H1 C23) as [DRx DRy].
  set (a := 1 + d * x1 * x2 * y1 * y2) in *. set (b := 1 - d * x1 * x2 * y1 * y2) in *.
  set (e := 1 + d * x2 * x3 * y2 * y3) in *. set (f := 1 - d * x2 * x3 * y2 * y3) in *.
  rewrite <- Ex, <- Ey, <- Fx, <- Fy in Ax, Ay.
  split.
  - apply (quotient_unique (1 + d * X * x3 * Y * y3)); [done|]. rewrite Lx.
    apply (quotient_unique (1 + d * x1 * U * y1 * V)); [done|].
    transitivity (add_x x1 y1 U V * (1 + d * x1 * U * y1 * V) * (1 + d * X * x3 * Y * y3)); [rewrite Rx|ring].
    apply (F_cancel (a * b * e * f)); [apply F_mul_nz4; assumption|]. etransitivity; [|etransitivity; [exact Ax|]]; ring.
  - apply (quotient_unique (1 - d * X * x3 * Y * y3)); [done|]. rewrite Ly.
    apply (quotient_unique (1 - d * x1 * U * y1 * V)); [done|].
    transitivity (add_y x1 y1 U V * (1 - d * x1 * U * y1 * V) * (1 - d * X * x3 * Y * y3)); [rewrite Ry|ring].
    apply (F_cancel (a * b * e * f)); [apply F_mul_nz4; assumption|]. etransitivity; [|etransitivity; [exact Ay|]]; ring.
Qed.
End Curve.

(** ** Points *)

Record point := Point { px : F; py : F; pok : Zmod.eqb (ed_d * px * px * py * py) (py * py - px * px - 1) = true }.

Lemma curve_eqb x y : Zmod.eqb (ed_d * x * x * y * y) (y * y - x * x - 1) = true <-> curve_eq ed_d x y.
Proof. apply Zmod.eqb_eq. Qed.

Lemma point_curve P : curve_eq ed_d (px P) (py P).
Proof. apply curve_eqb, pok. Qed.

Lemma point_eq P Q : px P = px Q -> py P = py Q -> P = Q.
Proof.
  destruct P as [x y HP], Q as [x' y' HQ]. cbn. intros <- <-. f_equal. apply (eq_pi _).
Qed.

#[export] Instance point_eq_dec : EqDecision point.
Proof.
  intros P Q. refine (cast_if (decide (Zmod.eqb (px P) (px Q) && Zmod.eqb (py P) (py Q) = true))).
  - abstract (rewrite andb_true_iff, !Zmod.eqb_eq in *; apply point_eq; tauto).
  - abstract (rewrite andb_true_iff, !Zmod.eqb_eq in *; intros ->; tauto).
Defined.

Definition ed_zero : point := Point 0 1 eq_refl.

Definition ed_add (P Q : point) : point :=
  Point (add_x ed_d (px P) (py P) (px Q) (py Q)) (add_y ed_d (px P) (py P) (px Q) (py Q))
    (proj2 (curve_eqb _ _) (add_curve ed_d sqrt_m1 sqrt_m1_spec d_nonsquare _ _ _ _ (point_curve P) (point_curve Q))).

Section Points.
Add Ring F_ring_points : (Zmod.ring_theory p25519).

Lemma neg_curve P : Zmod.eqb (ed_d * - px P * - px P * py P * py P) (py P * py P - - px P * - px P - 1) = true.
Proof.
  apply curve_eqb. pose proof (point_curve P) as HP. unfold curve_eq in *. generalize dependent ed_d. intros d HP.
  transitivity (d * px P * px P * py P * py P); [ring|]. rewrite HP. ring.
Qed.

Definition ed_neg (P : point) : point := Point (- px P) (py P) (neg_curve P).

Lemma ed_denominators P Q :
  1 + ed_d * px P * px Q * py P * py Q <> 0 /\ 1 - ed_d * px P * px Q * py P * py Q <> 0.
Proof. apply (denominators ed_d sqrt_m1 sqrt_m1_spec d_nonsquare); apply point_curve. Qed.

Lemma ed_add_spec P Q :
  px (ed_add P Q) * (1 + ed_d * px P * px Q * py P * py Q) = px P * py Q + py P * px Q /\
  py (ed_add P Q) * (1 - ed_d * px P * px Q * py P * py Q) = py P * py Q + px P * px Q.
Proof. apply (affine_add_spec ed_d sqrt_m1 sqrt_m1_spec d_nonsquare); apply point_curve. Qed.

(** A point is the sum if its coordinates solve the addition law. *)
Lemma ed_add_unique P Q R :
  px R * (1 + ed_d * px P * px Q * py P * py Q) = px P * py Q + py P * px Q ->
  py R * (1 - ed_d * px P * px Q * py P * py Q) = py P * py Q + px P * px Q -> R = ed_add P Q.
Proof.
  intros Ex Ey. destruct (ed_add_spec P Q) as [Fx Fy], (ed_denominators P Q) as [Dx Dy].
  apply point_eq; eapply quotient_unique; [exact Dx| |exact Dy|]; congruence.
Qed.

Lemma ed_add_comm P Q : ed_add P Q = ed_add Q P.
Proof.
  apply ed_add_unique; destruct (ed_add_spec P Q) as [Ex Ey].
  - transitivity (px (ed_add P Q) * (1 + ed_d * px P * px Q * py P * py Q)); [|rewrite Ex]; generalize ed_d; intros; ring.
  - transitivity (py (ed_add P Q) * (1 - ed_d * px P * px Q * py P * py Q)); [|rewrite Ey]; generalize ed_d; intros; ring.
Qed.

Lemma ed_add_0_l P : ed_add ed_zero P = P.
Proof. symmetry. apply ed_add_unique; cbn [px py ed_zero]; generalize ed_d; intros; ring. Qed.

Lemma ed_add_neg_r P : ed_add P (ed_neg P) = ed_zero.
Proof.
  symmetry. apply ed_add_unique; cbn [px py ed_zero ed_neg]; pose proof (point_curve P) as HP; unfold curve_eq in HP;
    generalize dependent ed_d; intros d HP; [ring|].
  transitivity (1 + d * px P * px P * py P * py P); [ring|]. rewrite HP. ring.
Qed.

Lemma ed_add_assoc P Q R : ed_add P (ed_add Q R) = ed_add (ed_add P Q) R.
Proof.
  destruct (add_assoc ed_d sqrt_m1 sqrt_m1_spec d_nonsquare _ _ _ _ _ _ (point_curve P) (point_curve Q) (point_curve R)) as [Ex Ey].
  by apply point_eq.
Qed.
End Points.

#[export] Instance ed_group : AbGroup point := {|
  gzero := ed_zero; gadd := ed_add; gneg := ed_neg;
  gadd_assoc := ed_add_assoc; gadd_comm := ed_add_comm; gadd_0_l := ed_add_0_l; gadd_neg_r := ed_add_neg_r |}.
