(* ===== verification/GroupOps.v ===== *)
(** * Points of the curve

    The [ge_*] representations of [src/crypto/crypto-ops.h] and the formulas of
    [src/crypto/crypto-ops.c] on them: additions, doublings, conversions, and
    the compressed encoding.  The theorems say that each routine, on limbs
    within its bounds, computes the group operation of [Edwards.v] on the
    points its arguments stand for, without overflow. *)

From Stdlib Require Import Zmod.
From S2P Require Import Prelude Limbs ScalarOps Primes FieldOps Group Edwards.

(** ** Definitions *)

Record ge_p2 := P2 { X2 : fe; Y2 : fe; Z2 : fe }.
Record ge_p3 := P3 { X3 : fe; Y3 : fe; Z3 : fe; T3 : fe }.
Record ge_p1p1 := P1P1 { X1 : fe; Y1 : fe; Z1 : fe; T1 : fe }.
Record ge_precomp := Precomp { yplusx : fe; yminusx : fe; xy2d : fe }.
Record ge_cached := Cached { YplusX : fe; YminusX : fe; Zc : fe; T2d : fe }.

Definition fe_d : fe := [-10913610; 13857413; -15372611; 6949391; 114729; -8787816; -6275908; -3247719; -18696448; -12055116].
Definition fe_sqrtm1 : fe := [-32595792; -7943725; 9377950; 3500415; 12389472; -272473; -25146209; -2005654; 326686; 11406482].
Definition fe_d2 : fe := [-21827239; -5839606; -30745221; 13898782; 229458; 15978800; -12551817; -6495438; 29715968; 9444199].

Definition ge_add (p : ge_p3) (q : ge_cached) : option ge_p1p1 :=
  rX ← fe_add (Y3 p) (X3 p);
  rY ← fe_sub (Y3 p) (X3 p);
  rZ ← fe_mul rX (YplusX q);
  rY ← fe_mul rY (YminusX q);
  rT ← fe_mul (T2d q) (T3 p);
  rX ← fe_mul (Z3 p) (Zc q);
  t0 ← fe_add rX rX;
  rX ← fe_sub rZ rY;
  rY ← fe_add rZ rY;
  rZ ← fe_add t0 rT;
  rT ← fe_sub t0 rT;
  Some (P1P1 rX rY rZ rT).

Definition ge_sub (p : ge_p3) (q : ge_cached) : option ge_p1p1 :=
  rX ← fe_add (Y3 p) (X3 p);
  rY ← fe_sub (Y3 p) (X3 p);
  rZ ← fe_mul rX (YminusX q);
  rY ← fe_mul rY (YplusX q);
  rT ← fe_mul (T2d q) (T3 p);
  rX ← fe_mul (Z3 p) (Zc q);
  t0 ← fe_add rX rX;
  rX ← fe_sub rZ rY;
  rY ← fe_add rZ rY;
  rZ ← fe_sub t0 rT;
  rT ← fe_add t0 rT;
  Some (P1P1 rX rY rZ rT).

Definition ge_madd (p : ge_p3) (q : ge_precomp) : option ge_p1p1 :=
  rX ← fe_add (Y3 p) (X3 p);
  rY ← fe_sub (Y3 p) (X3 p);
  rZ ← fe_mul rX (yplusx q);
  rY ← fe_mul rY (yminusx q);
  rT ← fe_mul (xy2d q) (T3 p);
  t0 ← fe_add (Z3 p) (Z3 p);
  rX ← fe_sub rZ rY;
  rY ← fe_add rZ rY;
  rZ ← fe_add t0 rT;
  rT ← fe_sub t0 rT;
  Some (P1P1 rX rY rZ rT).

Definition ge_msub (p : ge_p3) (q : ge_precomp) : option ge_p1p1 :=
  rX ← fe_add (Y3 p) (X3 p);
  rY ← fe_sub (Y3 p) (X3 p);
  rZ ← fe_mul rX (yminusx q);
  rY ← fe_mul rY (yplusx q);
  rT ← fe_mul (xy2d q) (T3 p);
  t0 ← fe_add (Z3 p) (Z3 p);
  rX ← fe_sub rZ rY;
  rY ← fe_add rZ rY;
  rZ ← fe_sub t0 rT;
  rT ← fe_add t0 rT;
  Some (P1P1 rX rY rZ rT).

Definition ge_p1p1_to_p2 (p : ge_p1p1) : option ge_p2 :=
  rX ← fe_mul (X1 p) (T1 p);
  rY ← fe_mul (Y1 p) (Z1 p);
  rZ ← fe_mul (Z1 p) (T1 p);
  Some (P2 rX rY rZ).

Definition ge_p1p1_to_p3 (p : ge_p1p1) : option ge_p3 :=
  rX ← fe_mul (X1 p) (T1 p);
  rY ← fe_mul (Y1 p) (Z1 p);
  rZ ← fe_mul (Z1 p) (T1 p);
  rT ← fe_mul (X1 p) (Y1 p);
  Some (P3 rX rY rZ rT).

Definition ge_p2_0 : ge_p2 := P2 fe_0 fe_1 fe_1.
Definition ge_p3_0 : ge_p3 := P3 fe_0 fe_1 fe_1 fe_0.
Definition ge_precomp_0 : ge_precomp := Precomp fe_1 fe_1 fe_0.
Definition ge_cached_0 : ge_cached := Cached fe_1 fe_1 fe_1 fe_0.

Definition ge_p2_dbl (p : ge_p2) : option ge_p1p1 :=
  rX ← fe_sq (X2 p);
  rZ ← fe_sq (Y2 p);
  rT ← fe_sq2 (Z2 p);
  rY ← fe_add (X2 p) (Y2 p);
  t0 ← fe_sq rY;
  rY ← fe_add rZ rX;
  rZ ← fe_sub rZ rX;
  rX ← fe_sub t0 rY;
  rT ← fe_sub rT rZ;
  Some (P1P1 rX rY rZ rT).

Definition ge_p3_to_p2 (p : ge_p3) : ge_p2 := P2 (fe_copy (X3 p)) (fe_copy (Y3 p)) (fe_copy (Z3 p)).

Definition ge_p3_dbl (p : ge_p3) : option ge_p1p1 := ge_p2_dbl (ge_p3_to_p2 p).

Definition ge_p3_to_cached (p : ge_p3) : option ge_cached :=
  a ← fe_add (Y3 p) (X3 p);
  b ← fe_sub (Y3 p) (X3 p);
  t ← fe_mul (T3 p) fe_d2;
  Some (Cached a b (fe_copy (Z3 p)) t).

Definition ge_mul8 (t : ge_p2) : option ge_p1p1 :=
  r ← ge_p2_dbl t;
  u ← ge_p1p1_to_p2 r;
  r ← ge_p2_dbl u;
  u ← ge_p1p1_to_p2 r;
  ge_p2_dbl u.

(** [s[31] ^= fe_isnegative(x) << 7]. *)
Definition set_sign (s : list Z) (neg : Z) : list Z := <[31%nat := Z.lxor (byte s 31) (u8 (Z.shiftl neg 7))]> s.

Definition ge_tobytes (h : ge_p2) : option (list Z) :=
  recip ← fe_invert (Z2 h);
  x ← fe_mul (X2 h) recip;
  y ← fe_mul (Y2 h) recip;
  s ← fe_tobytes y;
  neg ← fe_isnegative x;
  Some (set_sign s neg).

Definition ge_p3_tobytes (h : ge_p3) : option (list Z) :=
  recip ← fe_invert (Z3 h);
  x ← fe_mul (X3 h) recip;
  y ← fe_mul (Y3 h) recip;
  s ← fe_tobytes y;
  neg ← fe_isnegative x;
  Some (set_sign s neg).

(** The square root of [u/v] by [fe_divpowm1], corrected by [sqrt(-1)];
    [None] is the return value -1. *)
Definition ge_frombytes_root (u v : fe) : option (option fe) :=
  x ← fe_divpowm1 u v;
  vxx ← fe_sq x;
  vxx ← fe_mul vxx v;
  check ← fe_sub vxx u;
  nz ← fe_isnonzero check;
  if nz =? 0 then Some (Some x)
  else
    check ← fe_add vxx u;
    nz ← fe_isnonzero check;
    if negb (nz =? 0) then Some None
    else Some <$> fe_mul x fe_sqrtm1.

(** [Some None] is the return value -1. *)
Definition ge_frombytes_vartime (s : list Z) : option (option ge_p3) :=
  y ← fe_frombytes_vartime s;
  match y with
  | None => Some None
  | Some y =>
      u ← fe_sq y;
      v ← fe_mul u fe_d;
      u ← fe_sub u fe_1;
      v ← fe_add v fe_1;
      x ← ge_frombytes_root u v;
      match x with
      | None => Some None
      | Some x =>
          neg ← fe_isnegative x;
          if neg =? Z.shiftr (byte s 31) 7 then
            t ← fe_mul x y; Some (Some (P3 x y fe_1 t))
          else
            nz ← fe_isnonzero x;
            if nz =? 0 then Some None
            else
              x ← fe_neg x;
              t ← fe_mul x y; Some (Some (P3 x y fe_1 t))
      end
  end.

(** The return value and [xbytes]. *)
Definition edwardsYZ_to_x25519 (fY fZ : fe) : option (Z * list Z) :=
  tmp0 ← fe_add fZ fY;
  tmp1 ← fe_sub fZ fY;
  nz ← fe_isnonzero tmp1;
  tmp1 ← fe_invert tmp1;
  tmp0 ← fe_mul tmp0 tmp1;
  xbytes ← fe_tobytes tmp0;
  Some (- Z.b2z (nz =? 0), xbytes).

Definition ge_p3_to_x25519 (h : ge_p3) : option (Z * list Z) := edwardsYZ_to_x25519 (Y3 h) (Z3 h).

(** [xbytes] is only written when [s] decodes. *)
Definition edwards_bytes_to_x25519_vartime (s : list Z) : option (Z * option (list Z)) :=
  h ← ge_frombytes_vartime s;
  match h with
  | None => Some (-1, None)
  | Some h => '(r, x) ← edwardsYZ_to_x25519 (Y3 h) (Z3 h); Some (r, Some x)
  end.

(** The byte loops of [ge_p3_is_point_at_infinity_vartime]. *)
Definition all_zero (s : list Z) : bool := forallb (fun i => byte s i =? 0) (seq 0 32).
Definition all_equal (s t : list Z) : bool := forallb (fun i => byte s i =? byte t i) (seq 0 32).

Definition ge_p3_is_point_at_infinity_vartime (p : ge_p3) : option Z :=
  x ← fe_tobytes (X3 p);
  if negb (all_zero x) then Some 0
  else
    t ← fe_tobytes (T3 p);
    if negb (all_zero t) then Some 0
    else
      y ← fe_tobytes (Y3 p);
      z ← fe_tobytes (Z3 p);
      if negb (all_equal y z) then Some 0
      else if negb (all_zero y) then Some 1 else Some 0.

(** ** What the representations stand for *)

#[local] Open Scope Zmod_scope.

Definition F2 : F := 1 + 1.

Definition p2_ok (r : ge_p2) (P : point) : Prop :=
  exists z, z <> 0 /\ rep 101 (X2 r) (px P * z) /\ rep 203 (Y2 r) (py P * z) /\ rep 203 (Z2 r) z.
Definition p3_ok (r : ge_p3) (P : point) : Prop :=
  exists z, z <> 0 /\ rep 101 (X3 r) (px P * z) /\ rep 101 (Y3 r) (py P * z) /\ rep 101 (Z3 r) z /\
    rep 101 (T3 r) (px P * py P * z).
Definition p1p1_ok (r : ge_p1p1) (P : point) : Prop :=
  exists z t, z <> 0 /\ t <> 0 /\ rep 303 (X1 r) (px P * z) /\ rep 303 (Y1 r) (py P * t) /\ rep 303 (Z1 r) z /\ rep 303 (T1 r) t.
Definition precomp_ok (r : ge_precomp) (P : point) : Prop :=
  rep 101 (yplusx r) (py P + px P) /\ rep 101 (yminusx r) (py P - px P) /\ rep 101 (xy2d r) (F2 * ed_d * px P * py P).
Definition cached_ok (r : ge_cached) (P : point) : Prop :=
  exists z, z <> 0 /\ rep 202 (YplusX r) ((py P + px P) * z) /\ rep 202 (YminusX r) ((py P - px P) * z) /\
    rep 101 (Zc r) z /\ rep 101 (T2d r) (F2 * ed_d * px P * py P * z).

Lemma rep_const c f v : bool_decide (length f = 10%nat) && forallb (fun i => Z.abs (limb f i) <=? limb (fe_bound c) i)%Z (seq 0 10) = true ->
  ev f = v -> rep c f v.
Proof.
  rewrite andb_true_iff, bool_decide_eq_true, forallb_forall. intros [Hl Hb] E. split; [|done]. apply bounded_intro; [done|]. intros i.
  destruct (decide (i < 10)%nat) as [Hi|Hi].
  - specialize (Hb i). rewrite in_seq in Hb. specialize (Hb ltac:(lia)). lia.
  - unfold limb. rewrite !nth_overflow by (try rewrite Hl; cbn; lia). done.
Qed.

Lemma fe_d_ok : rep 101 fe_d ed_d.
Proof. apply rep_const; vm_compute; reflexivity. Qed.
Lemma fe_sqrtm1_ok : rep 101 fe_sqrtm1 sqrt_m1.
Proof. apply rep_const; vm_compute; reflexivity. Qed.
Lemma fe_d2_ok : rep 101 fe_d2 (F2 * ed_d).
Proof. apply rep_const; vm_compute; reflexivity. Qed.

Lemma F2_nz : F2 <> 0. Proof. by vm_compute. Qed.

Section Formulas.
Add Ring F_ring_formulas : (Zmod.ring_theory p25519).

(** The common end of the additions: from the values of [X], [Y], [Z] and [T]
    over a common factor. *)
Lemma p1p1_sum r P Q k : k <> 0 ->
  rep 303 (X1 r) (k * (px P * py Q + py P * px Q)) -> rep 303 (Y1 r) (k * (py P * py Q + px P * px Q)) ->
  rep 303 (Z1 r) (k * (1 + ed_d * px P * px Q * py P * py Q)) -> rep 303 (T1 r) (k * (1 - ed_d * px P * px Q * py P * py Q)) ->
  p1p1_ok r (ed_add P Q).
Proof.
  intros Hk HX HY HZ HT. destruct (ed_denominators P Q) as [Dx Dy], (ed_add_spec P Q) as [Ex Ey].
  rewrite <- Ex in HX. rewrite <- Ey in HY. do 2 eexists. split; [|split; [|split; [|split; [|split; [exact HZ|exact HT]]]]].
  - by apply F_mul_nz.
  - by apply F_mul_nz.
  - eapply rep_eq; [exact HX|]. generalize (px (ed_add P Q)), (1 + ed_d * px P * px Q * py P * py Q). intros; ring.
  - eapply rep_eq; [exact HY|]. generalize (py (ed_add P Q)), (1 - ed_d * px P * px Q * py P * py Q). intros; ring.
Qed.

Lemma ge_add_ok p q P Q : p3_ok p P -> cached_ok q Q -> returns (ge_add p q) (fun r => p1p1_ok r (P + Q)%G).
Proof.
  intros (z & Hz & HX & HY & HZ & HT) (w & Hw & Ha & Hb & Hc & Hd). unfold ge_add.
  do 11 fe_step. apply returns_some. apply (p1p1_sum _ P Q (F2 * (z * w))).
  { apply F_mul_nz; [apply F2_nz|by apply F_mul_nz]. }
  all: cbn [X1 Y1 Z1 T1]; eapply rep_mono; [|eapply rep_eq; [eassumption|unfold F2; generalize ed_d; intros; ring]]; lia.
Qed.

(** Closing tactic: the four coordinates of a sum. *)
Ltac coordinates := cbn [X1 Y1 Z1 T1 px py ed_neg]; eapply rep_mono;
  [|eapply rep_eq; [eassumption|unfold F2; generalize ed_d; intros; ring]]; lia.

Lemma ge_sub_ok p q P Q : p3_ok p P -> cached_ok q Q -> returns (ge_sub p q) (fun r => p1p1_ok r (P - Q)%G).
Proof.
  intros (z & Hz & HX & HY & HZ & HT) (w & Hw & Ha & Hb & Hc & Hd). unfold ge_sub.
  do 11 fe_step. apply returns_some. apply (p1p1_sum _ P (ed_neg Q) (F2 * (z * w))); [|coordinates..].
  apply F_mul_nz; [apply F2_nz|by apply F_mul_nz].
Qed.

Lemma ge_madd_ok p q P Q : p3_ok p P -> precomp_ok q Q -> returns (ge_madd p q) (fun r => p1p1_ok r (P + Q)%G).
Proof.
  intros (z & Hz & HX & HY & HZ & HT) (Ha & Hb & Hd). unfold ge_madd.
  do 10 fe_step. apply returns_some. apply (p1p1_sum _ P Q (F2 * z)); [|coordinates..].
  apply F_mul_nz; [apply F2_nz|done].
Qed.

Lemma ge_msub_ok p q P Q : p3_ok p P -> precomp_ok q Q -> returns (ge_msub p q) (fun r => p1p1_ok r (P - Q)%G).
Proof.
  intros (z & Hz & HX & HY & HZ & HT) (Ha & Hb & Hd). unfold ge_msub.
  do 10 fe_step. apply returns_some. apply (p1p1_sum _ P (ed_neg Q) (F2 * z)); [|coordinates..].
  apply F_mul_nz; [apply F2_nz|done].
Qed.

Lemma ge_p1p1_to_p2_ok p P : p1p1_ok p P -> returns (ge_p1p1_to_p2 p) (fun r => p2_ok r P).
Proof.
  intros (z & t & Hz & Ht & HX & HY & HZ & HT). unfold ge_p1p1_to_p2. do 3 fe_step. apply returns_some.
  exists (z * t). split; [by apply F_mul_nz|]. cbn. split_and!; (eapply rep_mono; [|eapply rep_eq; [eassumption|ring]]); lia.
Qed.

Lemma ge_p1p1_to_p3_ok p P : p1p1_ok p P -> returns (ge_p1p1_to_p3 p) (fun r => p3_ok r P).
Proof.
  intros (z & t & Hz & Ht & HX & HY & HZ & HT). unfold ge_p1p1_to_p3. do 4 fe_step. apply returns_some.
  exists (z * t). split; [by apply F_mul_nz|]. cbn. split_and!; (eapply rep_eq; [eassumption|ring]).
Qed.

(** Doubling: [k = z^2]; by the curve equation [1 + d x^2 y^2 = y^2 - x^2]. *)
Lemma ge_p2_dbl_ok p P : p2_ok p P -> returns (ge_p2_dbl p) (fun r => p1p1_ok r (P + P)%G).
Proof.
  intros (z & Hz & HX & HY & HZ). unfold ge_p2_dbl. do 9 fe_step. apply returns_some.
  pose proof (point_curve P) as HP. unfold curve_eq in HP.
  assert (ed_d * px P * px P * py P * py P = py P * py P - px P * px P - 1) as E1 by exact HP.
  apply (p1p1_sum _ P P (z * z)); [by apply F_mul_nz|..]; rewrite ?E1; change (of_Z 2) with F2 in *; coordinates.
Qed.

Lemma ge_p3_to_p2_ok p P : p3_ok p P -> p2_ok (ge_p3_to_p2 p) P.
Proof.
  intros (z & Hz & HX & HY & HZ & _). exists z. unfold ge_p3_to_p2. cbn [X2 Y2 Z2]. rewrite !fe_copy_spec by (by eapply rep_length).
  split_and!; [exact Hz|exact HX|..]; (eapply rep_mono; [|eassumption]); lia.
Qed.

Lemma ge_p3_dbl_ok p P : p3_ok p P -> returns (ge_p3_dbl p) (fun r => p1p1_ok r (P + P)%G).
Proof. intros Hp. by apply ge_p2_dbl_ok, ge_p3_to_p2_ok. Qed.

Lemma ge_p3_to_cached_ok p P : p3_ok p P -> returns (ge_p3_to_cached p) (fun r => cached_ok r P).
Proof.
  intros (z & Hz & HX & HY & HZ & HT). unfold ge_p3_to_cached. pose proof fe_d2_ok. do 3 fe_step. apply returns_some.
  exists z. split; [done|]. cbn [YplusX YminusX Zc T2d]. rewrite fe_copy_spec by (by eapply rep_length).
  split_and!; [..|done|]; (eapply rep_eq; [eassumption|generalize ed_d; intros; ring]).
Qed.

Lemma ge_p2_0_ok : p2_ok ge_p2_0 gzero.
Proof.
  exists 1. split; [apply F_one_nz|]. cbn. pose proof fe_0_ok. pose proof fe_1_ok.
  split_and!; (eapply rep_mono; [|eapply rep_eq; [eassumption|ring]]); lia.
Qed.

Lemma ge_p3_0_ok : p3_ok ge_p3_0 gzero.
Proof.
  exists 1. split; [apply F_one_nz|]. cbn. pose proof fe_0_ok. pose proof fe_1_ok.
  split_and!; (eapply rep_mono; [|eapply rep_eq; [eassumption|ring]]); lia.
Qed.

Lemma ge_precomp_0_ok : precomp_ok ge_precomp_0 gzero.
Proof.
  pose proof fe_0_ok. pose proof fe_1_ok. unfold precomp_ok. cbn.
  split_and!; (eapply rep_mono; [|eapply rep_eq; [eassumption|generalize ed_d; intros; ring]]); lia.
Qed.

Lemma ge_cached_0_ok : cached_ok ge_cached_0 gzero.
Proof.
  exists 1. split; [apply F_one_nz|]. cbn. pose proof fe_0_ok. pose proof fe_1_ok.
  split_and!; (eapply rep_mono; [|eapply rep_eq; [eassumption|generalize ed_d; intros; ring]]); lia.
Qed.

Lemma ge_mul8_ok p P : p2_ok p P -> returns (ge_mul8 p) (fun r => p1p1_ok r (smul 8 P)).
Proof.
  intros Hp. unfold ge_mul8.
  eapply returns_bind; [by apply ge_p2_dbl_ok|]. cbn beta. intros ? Ha.
  eapply returns_bind; [by apply ge_p1p1_to_p2_ok|]. cbn beta. intros ? Hb.
  eapply returns_bind; [by apply ge_p2_dbl_ok|]. cbn beta. intros ? Hc.
  eapply returns_bind; [by apply ge_p1p1_to_p2_ok|]. cbn beta. intros ? Hd.
  eapply returns_mono; [by apply ge_p2_dbl_ok|]. cbn beta. intros r Hr.
  eapply eq_ind; [exact Hr|]. group_ring.
Qed.
End Formulas.

(** ** Encoding *)

(** The compressed form: [y], with the parity of [x] in the top bit. *)
Definition encode (P : point) : list Z := le_bytes 32 (Zmod.to_Z (py P) + 2 ^ 255 * (Zmod.to_Z (px P) mod 2))%Z.

Lemma key_bytes s : is_key s -> s = le_bytes 32 (le_value s).
Proof. intros [Hl Hs]. rewrite <- Hl. symmetry. by apply le_bytes_value. Qed.

Lemma byte_le_bytes n i x : (i < n)%nat -> byte (le_bytes n x) i = ((x / 2 ^ (8 * Z.of_nat i)) mod 256)%Z.
Proof.
  intros Hi. unfold byte. rewrite le_bytes_nth, nth_lookup, list_lookup_fmap, lookup_seq_lt by done. done.
Qed.

Lemma top_bit s : is_key s -> Z.shiftr (byte s 31) 7 = (le_value s / 2 ^ 255)%Z /\ (0 <= le_value s / 2 ^ 255 <= 1)%Z.
Proof.
  intros Hs. pose proof (key_range s Hs) as Hr. rewrite (key_bytes s Hs) at 1. rewrite byte_le_bytes by lia.
  change (8 * Z.of_nat 31)%Z with 248%Z. rewrite shiftr_div, Z.mod_small by (done || zdm).
  rewrite div_pow_div by lia. split; [done|zdm].
Qed.

Lemma lxor_128 c : (0 <= c < 128)%Z -> Z.lxor c 128 = (c + 128)%Z.
Proof.
  intros Hc. assert (forallb (fun i => Z.lxor (Z.of_nat i) 128 =? Z.of_nat i + 128)%Z (seq 0 128) = true) as H by (vm_compute; reflexivity).
  rewrite forallb_forall in H. specialize (H (Z.to_nat c)). rewrite in_seq, Z2Nat.id, Z.eqb_eq in H by lia. apply H. lia.
Qed.

Lemma set_sign_bytes y b : (0 <= y < 2 ^ 255)%Z -> (0 <= b <= 1)%Z -> set_sign (le_bytes 32 y) b = le_bytes 32 (y + 2 ^ 255 * b)%Z.
Proof.
  intros Hy Hb. unfold set_sign. apply list_eq. intros i. destruct (decide (i < 32)%nat) as [Hi|Hi].
  2:{ rewrite !lookup_ge_None_2; [done|rewrite length_le_bytes; lia|rewrite length_insert, length_le_bytes; lia]. }
  rewrite (le_bytes_nth 32 (y + _)), list_lookup_fmap, lookup_seq_lt by done. cbn [fmap option_fmap option_map Nat.add].
  destruct (decide (i = 31%nat)) as [->|Hne].
  - rewrite list_lookup_insert_eq by (rewrite length_le_bytes; lia). f_equal. rewrite byte_le_bytes by lia.
    change (8 * Z.of_nat 31)%Z with 248%Z. assert (b = 0 \/ b = 1)%Z as [E|E] by lia; subst b.
    + rewrite Z.lxor_0_r. do 2 f_equal. lia.
    + change (u8 (Z.shiftl 1 7)) with 128%Z. rewrite lxor_128 by zdm. zdm.
  - rewrite list_lookup_insert_ne by done. rewrite le_bytes_nth, list_lookup_fmap, lookup_seq_lt by done.
    cbn [fmap option_fmap option_map Nat.add]. f_equal.
    replace (2 ^ 255)%Z with (2 ^ (255 - 8 * Z.of_nat i - 8) * 2 ^ 8 * 2 ^ (8 * Z.of_nat i))%Z by (rewrite <- !Z.pow_add_r by lia; f_equal; lia).
    rewrite Z.mul_shuffle0. rewrite Z.div_add by (apply Z.pow_nonzero; lia). change 256%Z with (2 ^ 8)%Z.
    rewrite Z.mul_shuffle0. by rewrite Z.mod_add.
Qed.

Lemma encode_key P : is_key (encode P).
Proof. split; [apply length_le_bytes|apply le_bytes_ok]. Qed.

Lemma encode_value P : le_value (encode P) = (Zmod.to_Z (py P) + 2 ^ 255 * (Zmod.to_Z (px P) mod 2))%Z.
Proof.
  apply le_value_bytes. change (256 ^ Z.of_nat 32)%Z with (2 ^ 256)%Z. pose proof (F_255 (py P)).
  pose proof (Z.mod_pos_bound (Zmod.to_Z (px P)) 2 ltac:(lia)). lia.
Qed.

Section Encoding.
Add Ring F_ring_encoding : (Zmod.ring_theory p25519).

(** Both encoders: from projective coordinates. *)
Lemma encode_coordinates fx fy fz P z : z <> 0 -> rep 101 fx (px P * z) -> rep 203 fy (py P * z) -> rep 203 fz z ->
  returns (recip ← fe_invert fz; x ← fe_mul fx recip; y ← fe_mul fy recip; s ← fe_tobytes y; neg ← fe_isnegative x; Some (set_sign s neg))
    (eq (encode P)).
Proof.
  intros Hz HX HY HZ. eapply returns_bind; [eapply fe_invert_ok; [exact HZ|lia]|]. cbn beta. intros r Hr.
  do 2 fe_step. assert (forall x : F, x * z * Zmod.inv z = x) as E.
  { intros x. transitivity (x * (Zmod.inv z * z)); [ring|]. rewrite F_inv_l by done. ring. }
  rewrite !E in *. do 2 fe_step. apply returns_some. subst. unfold encode. symmetry. apply set_sign_bytes.
  - apply F_255.
  - pose proof (Z.mod_pos_bound (Zmod.to_Z (px P)) 2 ltac:(lia)). lia.
Qed.

Lemma ge_tobytes_ok h P : p2_ok h P -> returns (ge_tobytes h) (eq (encode P)).
Proof. intros (z & Hz & HX & HY & HZ). unfold ge_tobytes. apply (encode_coordinates _ _ _ P z); assumption. Qed.

Lemma ge_p3_tobytes_ok h P : p3_ok h P -> returns (ge_p3_tobytes h) (eq (encode P)).
Proof. intros Hh. destruct (ge_p3_to_p2_ok h P Hh) as (z & Hz & HX & HY & HZ). unfold ge_p3_to_p2 in *. cbn [X2 Y2 Z2] in *.
  destruct Hh as (? & _ & ? & ? & ? & _). rewrite !fe_copy_spec in HX, HY, HZ by (by eapply rep_length).
  unfold ge_p3_tobytes. apply (encode_coordinates _ _ _ P z); assumption. Qed.
End Encoding.

(** ** Square roots *)

Section Roots.
Add Ring F_ring_roots : (Zmod.ring_theory p25519).

(** [u v^3 (u v^7)^((q-5)/8)], the candidate of [fe_divpowm1]. *)
Definition root_candidate (u v : F) : F := (u * (v * v * v * v * v * v * v)) ^ ((p25519 - 5) / 8) * (v * v * v) * u.

Lemma root_candidate_sq u v :
  v * root_candidate u v * root_candidate u v = u * (u * (v * v * v * v * v * v * v)) ^ ((p25519 - 1) / 4).
Proof.
  unfold root_candidate. set (t := u * (v * v * v * v * v * v * v)).
  change ((p25519 - 1) / 4)%Z with ((p25519 - 5) / 8 + (p25519 - 5) / 8 + 1)%Z.
  rewrite !Zmod.pow_add_r_nonneg, Zmod.pow_1_r by (by vm_compute). generalize (t ^ ((p25519 - 5) / 8)). intros c. unfold t. ring.
Qed.

Lemma F_sq_1 (c : F) : c * c = 1 -> c = 1 \/ c = - (1).
Proof.
  intros E. assert ((c - 1) * (c + 1) = 0) as [H|H]%F_integral by (transitivity (c * c - 1); [ring|rewrite E; ring]).
  - left. by apply F_eq_sub.
  - right. apply F_eq_sub. rewrite <- H. ring.
Qed.

Lemma F_sq_eq (a b : F) : a * a = b * b -> a = b \/ a = - b.
Proof.
  intros E. assert ((a - b) * (a + b) = 0) as [H|H]%F_integral by (transitivity (a * a - b * b); [ring|rewrite E; ring]).
  - left. by apply F_eq_sub.
  - right. apply F_eq_sub. rewrite <- H. ring.
Qed.

(** The quarter power of a square is 1 or -1. *)
Lemma quarter_square (t : F) : t <> 0 -> (t * t) ^ ((p25519 - 1) / 4) = 1 \/ (t * t) ^ ((p25519 - 1) / 4) = - (1).
Proof.
  intros Ht. apply F_sq_1. rewrite <- (Zmod.pow_add_r_nonneg (t * t)) by (by vm_compute).
  rewrite <- (Zmod.pow_2_r t), <- Zmod.pow_mul_r_nonneg by (by vm_compute).
  change (2 * ((p25519 - 1) / 4 + (p25519 - 1) / 4))%Z with (p25519 - 1)%Z.
  by apply F_fermat.
Qed.

Lemma root_exists u v X : v <> 0 -> v * X * X = u ->
  v * root_candidate u v * root_candidate u v = u \/ v * root_candidate u v * root_candidate u v = - u.
Proof.
  intros Hv E. rewrite root_candidate_sq. destruct (Zmod.eqb_spec X 0) as [HX|HX].
  - left. rewrite <- E, HX. generalize ((v * 0 * 0 * (v * v * v * v * v * v * v)) ^ ((p25519 - 1) / 4)). intros; ring.
  - replace (u * (v * v * v * v * v * v * v)) with ((X * (v * v * v * v)) * (X * (v * v * v * v))) by (rewrite <- E; ring).
    destruct (quarter_square (X * (v * v * v * v))) as [H|H]; [apply F_mul_nz; [done|by apply F_mul_nz4]|left|right]; rewrite H; ring.
Qed.

Lemma ge_frombytes_root_ok fu fv u v : rep 102 fu u -> rep 102 fv v -> v <> 0 ->
  returns (ge_frombytes_root fu fv) (fun r => match r with
    | Some x => exists X, rep 101 x X /\ v * X * X = u
    | None => forall X, v * X * X <> u
    end).
Proof.
  intros Hu Hv Hnz. unfold ge_frombytes_root.
  eapply returns_bind; [eapply fe_divpowm1_ok; [exact Hu|exact Hv|lia|lia]|]. cbn beta. fold (root_candidate u v). intros x Hx.
  pose proof (root_exists u v) as Hex. set (w := root_candidate u v) in *. clearbody w. pose proof fe_sqrtm1_ok as Hi.
  do 4 fe_step. subst. destruct (Zmod.eqb_spec (w * w * v - u) 0) as [E|E]; cbn [Z.eqb].
  { apply returns_some. exists w. split; [done|]. apply F_eq_sub. rewrite <- E. ring. }
  do 2 fe_step. subst. destruct (Zmod.eqb_spec (w * w * v + u) 0) as [E'|E']; cbn [Z.eqb negb].
  - apply returns_fmap. eapply returns_mono; [eapply fe_mul_ok; [exact Hx|exact Hi|lia|lia]|]. cbn beta. intros y Hy.
    exists (w * sqrt_m1). split; [done|]. pose proof sqrt_m1_spec as Es. generalize dependent sqrt_m1. intros i _ _ Es.
    transitivity (w * w * v * (i * i)); [ring|]. rewrite Es. transitivity (u - (w * w * v + u)); [ring|]. rewrite E'. ring.
  - apply returns_some. intros X HX. destruct (Hex X Hnz HX) as [H6|H6].
    + apply E. transitivity (v * w * w - u); [ring|]. rewrite H6. ring.
    + apply E'. transitivity (v * w * w + u); [ring|]. rewrite H6. ring.
Qed.
End Roots.

(** ** Decoding *)

Section Decoding.
Add Ring F_ring_decoding : (Zmod.ring_theory p25519).

(** [v = d y^2 + 1] is not zero: [d] is not a square. *)
Lemma decode_denominator (y : F) : y * y * ed_d + 1 <> 0.
Proof.
  intros E. assert (y <> 0) as Hy by (intros ->; vm_compute in E; discriminate).
  pose proof (F_inv_l y Hy) as Ei. apply (d_nonsquare (sqrt_m1 * Zmod.inv y)). pose proof sqrt_m1_spec as Es.
  generalize dependent ed_d. generalize dependent sqrt_m1. generalize dependent (Zmod.inv y). intros j Ej i Ei d E.
  transitivity (i * i * (j * j)); [ring|]. rewrite Ei. transitivity (d * (j * y) * (j * y) - j * j * (y * y * d + 1)); [ring|].
  rewrite E, Ej. ring.
Qed.

(** The curve equation solved for [x]. *)
Lemma curve_root (x y : F) : curve_eq ed_d x y <-> (y * y * ed_d + 1) * x * x = y * y - 1.
Proof.
  unfold curve_eq. generalize ed_d. intros d. split; intros E.
  - transitivity (d * x * x * y * y + x * x); [ring|]. rewrite E. ring.
  - transitivity ((y * y * d + 1) * x * x - x * x); [ring|]. rewrite E. ring.
Qed.

(** Negation flips the parity. *)
Lemma parity_neg (x : F) : x <> 0 -> (Zmod.to_Z (- x) mod 2 = 1 - Zmod.to_Z x mod 2)%Z.
Proof.
  intros Hx. rewrite Zmod.to_Z_opp. pose proof (F_range x) as Hr. assert (Zmod.to_Z x <> 0)%Z by (by rewrite Zmod.to_Z_0_iff).
  assert ((- Zmod.to_Z x) mod p25519 = p25519 - Zmod.to_Z x)%Z as -> by (symmetry; apply Z.mod_unique with (q := (-1)%Z); lia).
  unfold p25519. zdm.
Qed.

Definition sign_bit (s : list Z) : Z := (le_value s / 2 ^ 255)%Z.

Lemma encode_iff s P : is_key s ->
  s = encode P <-> Zmod.to_Z (py P) = (le_value s mod 2 ^ 255)%Z /\ (Zmod.to_Z (px P) mod 2 = sign_bit s)%Z.
Proof.
  intros Hs. pose proof (F_255 (py P)). pose proof (Z.mod_pos_bound (Zmod.to_Z (px P)) 2 ltac:(lia)). unfold sign_bit. split.
  - intros E. rewrite E, encode_value. zdm.
  - intros [Ey Ex]. rewrite (key_bytes s Hs). unfold encode. f_equal. rewrite Ey, Ex. pose proof (Z.div_mod (le_value s) (2 ^ 255)). lia.
Qed.

(** The point with a given [x]. *)
Lemma decoded_ok fx fy t x y (Hc : curve_eq ed_d x y) :
  rep 101 fx x -> rep 101 fy y -> rep 101 t (x * y) -> p3_ok (P3 fx fy fe_1 t) (Point x y (proj2 (curve_eqb x y) Hc)).
Proof.
  intros Hx Hy Ht. exists 1. split; [apply F_one_nz|]. cbn. pose proof fe_1_ok.
  split_and!; [eapply rep_eq; [eassumption|ring]..| |eapply rep_eq; [eassumption|ring]]. eapply rep_mono; [|eassumption]. lia.
Qed.

(** The end of the decoding: with the [y] and the candidate [x]. *)
Lemma decode_sign s fx fy x y : is_key s -> rep 101 fx x -> rep 101 fy y -> curve_eq ed_d x y ->
  Zmod.to_Z y = (le_value s mod 2 ^ 255)%Z ->
  returns (neg ← fe_isnegative fx;
           if (neg =? Z.shiftr (byte s 31) 7)%Z then t ← fe_mul fx fy; Some (Some (P3 fx fy fe_1 t))
           else nz ← fe_isnonzero fx;
                if (nz =? 0)%Z then Some None
                else fx ← fe_neg fx; t ← fe_mul fx fy; Some (Some (P3 fx fy fe_1 t)))
    (fun r => match r with Some p => exists P, p3_ok p P /\ s = encode P | None => forall P, s <> encode P end).
Proof.
  intros Hs Hx Hy Hc Ey. destruct (top_bit s Hs) as [Eb Hb]. fold (sign_bit s) in *. rewrite Eb. fe_step. subst t.
  destruct (Z.eqb_spec (Zmod.to_Z x mod 2) (sign_bit s)) as [Es|Es].
  { fe_step. apply returns_some. eexists. split; [by apply (decoded_ok _ _ _ _ _ Hc)|]. apply encode_iff; [assumption|]. split; assumption. }
  fe_step. subst t. destruct (Zmod.eqb_spec x 0) as [H0|H0]; cbn [Z.eqb].
  - apply returns_some. intros P [EP Ep]%encode_iff; [|assumption]. apply Es. rewrite <- Ep. f_equal. f_equal.
    assert (py P = y) as EY by (apply Zmod.to_Z_inj; congruence). pose proof (point_curve P) as HP. rewrite EY in HP.
    apply (proj1 (curve_root _ _)) in HP, Hc. rewrite <- Hc, H0 in HP.
    assert (px P * px P = 0) as [?|?]%F_integral; [|congruence..].
    apply (F_cancel _ _ _ (decode_denominator y)). clear Hc. generalize dependent (y * y * ed_d + 1). intros v E.
    transitivity (v * px P * px P); [ring|]. rewrite E. ring.
  - do 2 fe_step. apply returns_some. assert (curve_eq ed_d (- x) y) as Hc'.
    { apply (proj2 (curve_root _ _)). apply (proj1 (curve_root _ _)) in Hc. rewrite <- Hc. generalize ed_d. intros. ring. }
    eexists. split; [by apply (decoded_ok _ _ _ _ _ Hc')|]. apply encode_iff; [assumption|]. cbn [px py]. split; [assumption|].
    rewrite parity_neg by done. pose proof (Z.mod_pos_bound (Zmod.to_Z x) 2 ltac:(lia)). lia.
Qed.

Lemma ge_frombytes_vartime_ok s : is_key s ->
  returns (ge_frombytes_vartime s)
    (fun r => match r with Some p => exists P, p3_ok p P /\ s = encode P | None => forall P, s <> encode P end).
Proof.
  intros Hs. unfold ge_frombytes_vartime. pose proof (fe_frombytes_spec s Hs) as Hf.
  destruct (Z.leb_spec p25519 (le_value s mod 2 ^ 255)) as [Hp|Hp].
  { rewrite Hf. apply returns_some. intros P [E _]%encode_iff; [|assumption]. pose proof (F_range (py P)). lia. }
  destruct Hf as (fy & -> & By & Ey). cbn [mbind option_bind]. set (y := of_Z (le_value s mod 2 ^ 255)) in *.
  assert (rep 101 fy y) as Hy by done.
  assert (Zmod.to_Z y = le_value s mod 2 ^ 255)%Z as Vy.
  { unfold y. rewrite Zmod.to_Z_of_Z. apply Z.mod_small. pose proof (Z.mod_pos_bound (le_value s) (2 ^ 255)). lia. }
  pose proof fe_1_ok. pose proof fe_d_ok. do 4 fe_step.
  eapply returns_bind; [eapply ge_frombytes_root_ok; [eassumption|eassumption|apply decode_denominator]|].
  cbn beta. intros [fx|].
  - intros (x & Hx & Ex). apply decode_sign with (x := x) (y := y); try assumption. by apply (proj2 (curve_root _ _)).
  - intros Hnone. apply returns_some. intros P [E _]%encode_iff; [|assumption].
    assert (py P = y) as EY by (apply Zmod.to_Z_inj; congruence). pose proof (point_curve P) as HP. rewrite EY in HP.
    by apply (proj1 (curve_root _ _)), Hnone in HP.
Qed.
End Decoding.

Section Tests.
Add Ring F_ring_tests : (Zmod.ring_theory p25519).

Lemma encode_inj P Q : encode P = encode Q -> P = Q.
Proof.
  intros E. apply encode_iff in E as [Ey Ex]; [|apply encode_key]. pose proof (F_255 (py P)) as HQ.
  pose proof (Z.mod_pos_bound (Zmod.to_Z (px P)) 2 ltac:(lia)) as Hb. unfold sign_bit in Ex. rewrite encode_value in Ex, Ey.
  assert (py P = py Q) as EY by (apply Zmod.to_Z_inj; zdm).
  assert (Zmod.to_Z (px P) mod 2 = Zmod.to_Z (px Q) mod 2)%Z as EX by zdm.
  apply point_eq; [|done]. pose proof (proj1 (curve_root _ _) (point_curve P)) as HP. pose proof (proj1 (curve_root _ _) (point_curve Q)) as HQ'.
  rewrite EY, <- HQ' in HP. assert (px P * px P = px Q * px Q) as [?|E]%F_sq_eq; [|done|].
  - apply (F_cancel _ _ _ (decode_denominator (py Q))). clear HQ'. generalize dependent (py Q * py Q * ed_d + 1). intros v E1.
    transitivity (v * px P * px P); [ring|]. rewrite E1. ring.
  - destruct (Zmod.eqb_spec (px Q) 0) as [H0|H0]; [rewrite E, H0; vm_compute; reflexivity|].
    rewrite E, parity_neg in EX by done. zdm.
Qed.

(** The neutral element is the only point with [y = 1]. *)
Lemma point_y_1 P : py P = 1 <-> P = gzero.
Proof.
  split; [|by intros ->]. intros E. apply point_eq; [|done]. pose proof (proj1 (curve_root _ _) (point_curve P)) as HP. rewrite E in HP.
  assert (px P * px P = 0) as [?|?]%F_integral; [|done..].
  apply (F_cancel _ _ _ (decode_denominator 1)). generalize dependent (1 * 1 * ed_d + 1). intros v E1.
  transitivity (v * px P * px P); [ring|]. rewrite E1. ring.
Qed.

Lemma all_zero_bytes x : (0 <= x < 2 ^ 256)%Z -> all_zero (le_bytes 32 x) = (x =? 0)%Z.
Proof.
  intros Hx. unfold all_zero. apply eq_bool_prop_intro. rewrite !Is_true_true, forallb_forall, Z.eqb_eq. split.
  - intros H. assert (is_key (le_bytes 32 x)) as [Hl Hk] by (split; [apply length_le_bytes|apply le_bytes_ok]).
    rewrite <- (le_value_bytes 32 x) by done. apply le_value_zero; [done|]. apply Forall_lookup. intros i b Hi.
    pose proof (lookup_lt_Some _ _ _ Hi). specialize (H i). rewrite in_seq, Z.eqb_eq in H. unfold byte in H.
    rewrite (nth_lookup_Some _ _ _ _ Hi) in H. symmetry. apply H. lia.
  - intros -> i _. rewrite Z.eqb_eq. destruct (decide (i < 32)%nat); [|unfold byte; by rewrite nth_overflow by (rewrite length_le_bytes; lia)].
    rewrite byte_le_bytes, Z.div_0_l by (done || apply Z.pow_nonzero; lia). done.
Qed.

Lemma all_equal_bytes x y : (0 <= x < 2 ^ 256)%Z -> (0 <= y < 2 ^ 256)%Z -> all_equal (le_bytes 32 x) (le_bytes 32 y) = (x =? y)%Z.
Proof.
  intros Hx Hy. unfold all_equal. apply eq_bool_prop_intro. rewrite !Is_true_true, forallb_forall, Z.eqb_eq. split.
  - intros H. rewrite <- (le_value_bytes 32 x), <- (le_value_bytes 32 y) by done. f_equal.
    assert (length (le_bytes 32 x) = length (le_bytes 32 y)) as Hl by (by rewrite !length_le_bytes).
    apply (nth_ext _ _ 0%Z 0%Z Hl). intros i Hi. rewrite length_le_bytes in Hi. specialize (H i).
    rewrite in_seq, Z.eqb_eq in H. apply H. lia.
  - intros -> i _. apply Z.eqb_refl.
Qed.

Lemma F_256 (x : F) : (0 <= Zmod.to_Z x < 2 ^ 256)%Z.
Proof. pose proof (F_255 x). lia. Qed.

(** For any four field elements, valid or not. *)
Lemma infinity_test_ok p x y z t : rep 220 (X3 p) x -> rep 220 (Y3 p) y -> rep 220 (Z3 p) z -> rep 220 (T3 p) t ->
  returns (ge_p3_is_point_at_infinity_vartime p)
    (eq (if Zmod.eqb x 0 && Zmod.eqb t 0 && Zmod.eqb y z && negb (Zmod.eqb y 0) then 1%Z else 0%Z)).
Proof.
  intros HX HY HZ HT. unfold ge_p3_is_point_at_infinity_vartime.
  assert (forall a b : F, Zmod.eqb a b = (Zmod.to_Z a =? Zmod.to_Z b)%Z) as Eb by done.
  fe_step. subst. rewrite all_zero_bytes by apply F_256. rewrite (Eb x). destruct (_ =? _)%Z; cbn [negb andb]; [|by apply returns_some].
  fe_step. subst. rewrite all_zero_bytes by apply F_256. rewrite (Eb t). destruct (_ =? _)%Z; cbn [negb andb]; [|by apply returns_some].
  do 2 fe_step. subst. rewrite all_equal_bytes, all_zero_bytes by apply F_256. rewrite (Eb y z), (Eb y).
  destruct (_ =? _)%Z; cbn [negb andb]; [|by apply returns_some]. destruct (_ =? _)%Z; by apply returns_some.
Qed.

Lemma ge_infinity_ok p P : p3_ok p P -> returns (ge_p3_is_point_at_infinity_vartime p) (eq (Z.b2z (bool_decide (P = gzero)))).
Proof.
  intros (z & Hz & HX & HY & HZ & HT).
  assert (forall f x, rep 101 f x -> rep 220 f x) as Hm by (intros f x; apply rep_mono; lia).
  eapply returns_mono; [by apply infinity_test_ok; apply Hm|]. cbn beta. intros r <-.
  case_bool_decide as E; cbn [Z.b2z].
  - rewrite E. cbn [px py gzero ed_group ed_zero].
    replace (0 * z) with (0 : F) by ring. replace (0 * 1 * z) with (0 : F) by ring. replace (1 * z) with z by ring.
    destruct (Zmod.eqb_spec z z); [|done]. destruct (Zmod.eqb_spec z 0); done.
  - destruct (Zmod.eqb_spec (py P * z) z) as [E'|]; [|by rewrite andb_false_r].
    exfalso. apply E, point_y_1. apply (F_cancel z); [done|]. rewrite (Zmod.mul_comm z (py P)), E'. ring.
Qed.

(** The Montgomery [u = (1 + y) / (1 - y)], refused for the neutral element. *)
Lemma to_x25519_ok h P : p3_ok h P ->
  returns (ge_p3_to_x25519 h) (eq (if decide (P = gzero) then (-1)%Z else 0%Z,
    le_bytes 32 (Zmod.to_Z ((1 + py P) * Zmod.inv (1 - py P))))).
Proof.
  intros (z & Hz & HX & HY & HZ & HT). unfold ge_p3_to_x25519, edwardsYZ_to_x25519. do 3 fe_step.
  eapply returns_bind; [eapply fe_invert_ok; [eassumption|lia]|]. cbn beta. intros ti Hti. do 2 fe_step. apply returns_some. subst.
  assert (z - py P * z = 0 <-> P = gzero) as Hiff.
  { rewrite <- point_y_1. split; intros E.
    - symmetry. apply (F_cancel z); [done|]. apply F_eq_sub. rewrite <- E. ring.
    - rewrite E. ring. }
  f_equal; [|do 2 f_equal].
  - destruct (Zmod.eqb_spec (z - py P * z) 0) as [E|E], (decide (P = gzero)) as [E'|E']; try done; tauto.
  - destruct (decide (P = gzero)) as [E|E].
    + rewrite (proj2 (point_y_1 P) E). replace (z - 1 * z) with (0 : F) by ring. replace (1 - 1) with (0 : F) by ring.
      replace (Zmod.inv (0 : F)) with (0 : F) by (vm_compute; reflexivity). ring.
    + assert (1 - py P <> 0) as Hne by (intros Hy1; apply E, point_y_1; symmetry; by apply F_eq_sub).
      assert (z - py P * z <> 0) as Hne' by tauto.
      apply (quotient_unique (1 - py P)); [done|]. rewrite inv_spec by done.
      transitivity ((z + py P * z) * Zmod.inv (z - py P * z) * (z - py P * z) * Zmod.inv z); [rewrite inv_spec by done|].
      * transitivity ((1 + py P) * (Zmod.inv z * z)); [rewrite F_inv_l by done; ring|ring].
      * generalize (Zmod.inv (z - py P * z)). intros j.
        transitivity ((z + py P * z) * j * (1 - py P) * (Zmod.inv z * z)); [ring|rewrite F_inv_l by done; ring].
Qed.
End Tests.

(** From here on points are elements of the group. *)
Arguments gadd : simpl never.
Arguments gneg : simpl never.
Arguments gzero : simpl never.
Arguments smul : simpl never.

(** ** Results *)

Section PointResults.
Open Scope group_scope.

(** C29: The point formulas.  On representations of points of the curve, and with
    the tables' and caches' forms of the second operand, additions,
    subtractions, doubling and multiplication by eight return a representation
    of the result in the group of the curve: for every pair of points, equal,
    opposite and neutral ones included, with every limb within bounds. *)
Theorem group_operations_correct p q m r P Q M R : p3_ok p P -> cached_ok q Q -> precomp_ok m M -> p2_ok r R ->
  returns (t ← ge_add p q; ge_p1p1_to_p3 t) (fun s => p3_ok s (P + Q)) /\
  returns (t ← ge_sub p q; ge_p1p1_to_p3 t) (fun s => p3_ok s (P - Q)) /\
  returns (t ← ge_madd p m; ge_p1p1_to_p3 t) (fun s => p3_ok s (P + M)) /\
  returns (t ← ge_msub p m; ge_p1p1_to_p3 t) (fun s => p3_ok s (P - M)) /\
  returns (t ← ge_p2_dbl r; ge_p1p1_to_p2 t) (fun s => p2_ok s (R + R)) /\
  returns (t ← ge_p3_dbl p; ge_p1p1_to_p3 t) (fun s => p3_ok s (P + P)) /\
  returns (t ← ge_mul8 r; ge_p1p1_to_p2 t) (fun s => p2_ok s (smul 8 R)) /\
  returns (ge_p3_to_cached p) (fun s => cached_ok s P) /\
  p2_ok (ge_p3_to_p2 p) P.
Proof.
  intros Hp Hq Hm Hr. split_and!.
  - eapply returns_bind; [eapply ge_add_ok; eassumption|cbn beta; intros t Ht; apply ge_p1p1_to_p3_ok; exact Ht].
  - eapply returns_bind; [eapply ge_sub_ok; eassumption|cbn beta; intros t Ht; apply ge_p1p1_to_p3_ok; exact Ht].
  - eapply returns_bind; [eapply ge_madd_ok; eassumption|cbn beta; intros t Ht; apply ge_p1p1_to_p3_ok; exact Ht].
  - eapply returns_bind; [eapply ge_msub_ok; eassumption|cbn beta; intros t Ht; apply ge_p1p1_to_p3_ok; exact Ht].
  - eapply returns_bind; [eapply ge_p2_dbl_ok; eassumption|cbn beta; intros t Ht; apply ge_p1p1_to_p2_ok; exact Ht].
  - eapply returns_bind; [eapply ge_p3_dbl_ok; eassumption|cbn beta; intros t Ht; apply ge_p1p1_to_p3_ok; exact Ht].
  - eapply returns_bind; [eapply ge_mul8_ok; eassumption|cbn beta; intros t Ht; apply ge_p1p1_to_p2_ok; exact Ht].
  - apply ge_p3_to_cached_ok. exact Hp.
  - apply ge_p3_to_p2_ok. exact Hp.
Qed.

Lemma group_operations_witness : returns (t ← ge_add ge_p3_0 ge_cached_0; ge_p1p1_to_p3 t) (fun s => p3_ok s (gzero + gzero)).
Proof.
  exact (proj1 (group_operations_correct ge_p3_0 ge_cached_0 ge_precomp_0 ge_p2_0 gzero gzero gzero gzero
    ge_p3_0_ok ge_cached_0_ok ge_precomp_0_ok ge_p2_0_ok)).
Defined.

(** C26: Points and bytes.  The encoding has one form per point: the decoder
    accepts a string of 32 bytes exactly when it is the encoding of a point of
    the curve, returns that point, and encoding the result gives the same bytes
    again; so strings with a residue out of range, off the curve, or with the
    sign bit set on a zero coordinate are all refused. *)
Theorem point_encoding_correct s : is_key s ->
  returns (ge_frombytes_vartime s) (fun r =>
    match r with
    | Some p => exists P, p3_ok p P /\ s = encode P /\ ge_p3_tobytes p = Some s /\ forall Q, s = encode Q -> Q = P
    | None => forall P, s <> encode P
    end).
Proof.
  intros Hs. eapply returns_mono; [by apply ge_frombytes_vartime_ok|]. cbn beta. intros [p|] H; [|exact H].
  destruct H as (P & Hp & E). exists P. split; [exact Hp|]. split; [exact E|]. split.
  - apply returns_eq. eapply returns_mono; [by apply ge_p3_tobytes_ok|]. cbn beta. intros s' <-. exact E.
  - intros Q EQ. apply encode_inj. congruence.
Qed.

Lemma point_encoding_witness : returns (ge_frombytes_vartime (1%Z :: replicate 31 0%Z)) (fun r =>
    match r with
    | Some p => exists P, p3_ok p P /\ 1%Z :: replicate 31 0%Z = encode P /\ ge_p3_tobytes p = Some (1%Z :: replicate 31 0%Z) /\
                  forall Q, 1%Z :: replicate 31 0%Z = encode Q -> Q = P
    | None => forall P, 1%Z :: replicate 31 0%Z <> encode P
    end).
Proof. apply (point_encoding_correct (1%Z :: replicate 31 0%Z)). split; [done|]. by apply Forall_cons; split; [|apply Forall_replicate]. Defined.
End PointResults.
