(* ===== verification/ScalarMult.v ===== *)
(** * Scalar multiplication

    The multiplications of [src/crypto/crypto-ops.c]: the sliding window
    recoding [slide] and the variable-time sums of two and three multiples, the
    fixed-window [ge_scalarmult] with its constant-time table lookup, and
    [ge_scalarmult_base] on the precomputed table.  The theorems say that each
    returns the multiple (or sum of multiples) in the group of [Edwards.v]. *)

From Stdlib Require Import Zmod.
From S2P Require Import Prelude Limbs ScalarOps Primes FieldOps Group Edwards GroupOps.

(** ** Sliding windows *)

(** [for (k = i + b; k < 256; ++k) { if (!r[k]) { r[k] = 1; break; } r[k] = 0; }],
    with [n] positions left. *)
Fixpoint slide_carry (n k : nat) (r : list Z) : list Z :=
  match n with
  | O => r
  | S n => if limb r k =? 0 then <[k := 1]> r else slide_carry n (S k) (<[k := 0]> r)
  end.

(** The loop over [b] at position [i]. *)
Fixpoint slide_window (bs : list nat) (i : nat) (r : list Z) : list Z :=
  match bs with
  | [] => r
  | b :: bs =>
      if (256 <=? i + b)%nat then r
      else if limb r (i + b) =? 0 then slide_window bs i r
      else
        let d := Z.shiftl (limb r (i + b)) (Z.of_nat b) in
        if limb r i + d <=? 15 then slide_window bs i (<[(i + b)%nat := 0]> (<[i := sint 8 (limb r i + d)]> r))
        else if -15 <=? limb r i - d then
          slide_window bs i (slide_carry (256 - (i + b)) (i + b) (<[i := sint 8 (limb r i - d)]> r))
        else r
  end.

Definition slide_bits (a : list Z) : list Z :=
  map (fun i => Z.land 1 (Z.shiftr (byte a (i / 8)) (Z.of_nat (i mod 8)))) (seq 0 256).

Definition slide (a : list Z) : list Z :=
  foldl (fun r i => if limb r i =? 0 then r else slide_window [1; 2; 3; 4; 5; 6]%nat i r) (slide_bits a) (seq 0 256).

(** ** Tables of odd multiples *)

(** [r[1]] to [r[7]]: [ge_add(&t, &s2, &r[k]); ...; ge_p3_to_cached(&r[k+1], &u)]. *)
Fixpoint dsm_extend (n : nat) (s2 : ge_p3) (c : ge_cached) : option (list ge_cached) :=
  match n with
  | O => Some []
  | S n =>
      t ← ge_add s2 c;
      u ← ge_p1p1_to_p3 t;
      c ← ge_p3_to_cached u;
      cs ← dsm_extend n s2 c;
      Some (c :: cs)
  end.

Definition ge_dsm_precomp (s : ge_p3) : option (list ge_cached) :=
  c ← ge_p3_to_cached s;
  t ← ge_p3_dbl s;
  s2 ← ge_p1p1_to_p3 t;
  cs ← dsm_extend 7 s2 c;
  Some (c :: cs).

(** ** Variable-time sums *)

(** The digit [d] of a window: [ge_add] or [ge_sub] of the odd multiple. *)
Definition slide_add (Ai : list ge_cached) (d : Z) (t : ge_p1p1) : option ge_p1p1 :=
  if 0 <? d then
    u ← ge_p1p1_to_p3 t;
    q ← Ai !! Z.to_nat (d / 2);
    ge_add u q
  else if d <? 0 then
    u ← ge_p1p1_to_p3 t;
    q ← Ai !! Z.to_nat (- d / 2);
    ge_sub u q
  else Some t.

Definition slide_madd (Bi : list ge_precomp) (d : Z) (t : ge_p1p1) : option ge_p1p1 :=
  if 0 <? d then
    u ← ge_p1p1_to_p3 t;
    q ← Bi !! Z.to_nat (d / 2);
    ge_madd u q
  else if d <? 0 then
    u ← ge_p1p1_to_p3 t;
    q ← Bi !! Z.to_nat (- d / 2);
    ge_msub u q
  else Some t.

(** The positions from the highest with a nonzero digit down to 0:
    [for (i = 255; i >= 0; --i) if (aslide[i] || ...) break]. *)
Fixpoint top_positions (slides : list (list Z)) (js : list nat) : list nat :=
  match js with
  | [] => []
  | i :: js => if existsb (fun s => negb (limb s i =? 0)) slides then i :: js else top_positions slides js
  end.

Definition positions (slides : list (list Z)) : list nat := top_positions slides (rev (seq 0 256)).

(** The loop, with the additions of position [i] in [body]. *)
Fixpoint dsm_loop (body : nat -> ge_p1p1 -> option ge_p1p1) (js : list nat) (r : ge_p2) : option ge_p2 :=
  match js with
  | [] => Some r
  | i :: js =>
      t ← ge_p2_dbl r;
      t ← body i t;
      r ← ge_p1p1_to_p2 t;
      dsm_loop body js r
  end.

(** The [_p3] form: [r3] is written at [i == 0] only; [None] if it never is. *)
Fixpoint dsm_loop_p3 (body : nat -> ge_p1p1 -> option ge_p1p1) (js : list nat) (r : ge_p2) (r3 : option ge_p3) : option (option ge_p3) :=
  match js with
  | [] => Some r3
  | i :: js =>
      t ← ge_p2_dbl r;
      t ← body i t;
      if (i =? 0)%nat then r3 ← ge_p1p1_to_p3 t; dsm_loop_p3 body js r (Some r3)
      else r ← ge_p1p1_to_p2 t; dsm_loop_p3 body js r r3
  end.

Definition ge_double_scalarmult_base_vartime (ge_Bi : list ge_precomp) (a : list Z) (A : ge_p3) (b : list Z) : option ge_p2 :=
  let aslide := slide a in
  let bslide := slide b in
  Ai ← ge_dsm_precomp A;
  dsm_loop (fun i t => t ← slide_add Ai (limb aslide i) t; slide_madd ge_Bi (limb bslide i) t)
           (positions [aslide; bslide]) ge_p2_0.

Definition ge_triple_scalarmult_base_vartime (ge_Bi : list ge_precomp) (a b : list Z) (Bi : list ge_cached) (c : list Z) (Ci : list ge_cached)
  : option ge_p2 :=
  let aslide := slide a in
  let bslide := slide b in
  let cslide := slide c in
  dsm_loop (fun i t => t ← slide_madd ge_Bi (limb aslide i) t; t ← slide_add Bi (limb bslide i) t; slide_add Ci (limb cslide i) t)
           (positions [aslide; bslide; cslide]) ge_p2_0.

Definition ge_double_scalarmult_base_vartime_p3 (ge_Bi : list ge_precomp) (a : list Z) (A : ge_p3) (b : list Z) : option (option ge_p3) :=
  let aslide := slide a in
  let bslide := slide b in
  Ai ← ge_dsm_precomp A;
  dsm_loop_p3 (fun i t => t ← slide_add Ai (limb aslide i) t; slide_madd ge_Bi (limb bslide i) t)
              (positions [aslide; bslide]) ge_p2_0 None.

Definition ge_double_scalarmult_precomp_vartime2 (a : list Z) (Ai : list ge_cached) (b : list Z) (Bi : list ge_cached) : option ge_p2 :=
  let aslide := slide a in
  let bslide := slide b in
  dsm_loop (fun i t => t ← slide_add Ai (limb aslide i) t; slide_add Bi (limb bslide i) t)
           (positions [aslide; bslide]) ge_p2_0.

Definition ge_triple_scalarmult_precomp_vartime (a : list Z) (Ai : list ge_cached) (b : list Z) (Bi : list ge_cached)
    (c : list Z) (Ci : list ge_cached) : option ge_p2 :=
  let aslide := slide a in
  let bslide := slide b in
  let cslide := slide c in
  dsm_loop (fun i t => t ← slide_add Ai (limb aslide i) t; t ← slide_add Bi (limb bslide i) t; slide_add Ci (limb cslide i) t)
           (positions [aslide; bslide; cslide]) ge_p2_0.

Definition ge_double_scalarmult_precomp_vartime2_p3 (a : list Z) (Ai : list ge_cached) (b : list Z) (Bi : list ge_cached)
  : option (option ge_p3) :=
  let aslide := slide a in
  let bslide := slide b in
  dsm_loop_p3 (fun i t => t ← slide_add Ai (limb aslide i) t; slide_add Bi (limb bslide i) t)
              (positions [aslide; bslide]) ge_p2_0 None.

Definition ge_double_scalarmult_precomp_vartime (a : list Z) (A : ge_p3) (b : list Z) (Bi : list ge_cached) : option ge_p2 :=
  Ai ← ge_dsm_precomp A;
  ge_double_scalarmult_precomp_vartime2 a Ai b Bi.

(** ** Constant-time selection *)

(** [x = ub ^ uc; y = x - 1; y >> 31]. *)
Definition equal (b c : Z) : Z :=
  let x := Z.lxor (u8 b) (u8 c) in
  u8 (Z.shiftr (u32 (x - 1)) 31).

Definition negative (b : Z) : Z := u8 (Z.shiftr (u64 b) 63).

(** [b - (((-bnegative) & b) << 1)]. *)
Definition abs_digit (b : Z) : Z := u8 (b - Z.shiftl (Z.land (- negative b) b) 1).

Definition ge_precomp_cmov (t u : ge_precomp) (b : Z) : ge_precomp :=
  Precomp (fe_cmov (yplusx t) (yplusx u) b) (fe_cmov (yminusx t) (yminusx u) b) (fe_cmov (xy2d t) (xy2d u) b).

Definition ge_cached_cmov (t u : ge_cached) (b : Z) : ge_cached :=
  Cached (fe_cmov (YplusX t) (YplusX u) b) (fe_cmov (YminusX t) (YminusX u) b) (fe_cmov (Zc t) (Zc u) b) (fe_cmov (T2d t) (T2d u) b).

(** [ge_precomp_cmov(t, &ge_base[pos][0], equal(babs, 1)); ...], on the row
    [ge_base[pos]]. *)
Definition select (row : list ge_precomp) (b : Z) : option ge_precomp :=
  let bnegative := negative b in
  let babs := abs_digit b in
  let t := foldl (fun t j => ge_precomp_cmov t (nth j row ge_precomp_0) (equal babs (Z.of_nat j + 1))) ge_precomp_0 (seq 0 8) in
  m ← fe_neg (xy2d t);
  let minust := Precomp (fe_copy (yminusx t)) (fe_copy (yplusx t)) m in
  Some (ge_precomp_cmov t minust bnegative).

Definition cached_select (Ai : list ge_cached) (b : Z) : option ge_cached :=
  let bnegative := negative b in
  let babs := abs_digit b in
  let cur := foldl (fun t j => ge_cached_cmov t (nth j Ai ge_cached_0) (equal babs (Z.of_nat j + 1))) ge_cached_0 (seq 0 8) in
  m ← fe_neg (T2d cur);
  let minuscur := Cached (fe_copy (YminusX cur)) (fe_copy (YplusX cur)) (fe_copy (Zc cur)) m in
  Some (ge_cached_cmov cur minuscur bnegative).

(** ** Fixed windows *)

(** The digits of [ge_scalarmult]: [carry] and [e] through the bytes. *)
Definition radix16_step (s : Z * list Z) (x : Z) : Z * list Z :=
  let '(carry, e) := s in
  let carry := carry + x in
  let carry2 := Z.shiftr (carry + 8) 4 in
  let e0 := sint 8 (carry - Z.shiftl carry2 4) in
  let carry := Z.shiftr (carry2 + 8) 4 in
  let e1 := sint 8 (carry2 - Z.shiftl carry 4) in
  (carry, e ++ [e0; e1]).

Definition radix16 (a : list Z) : list Z :=
  let '(carry, e) := foldl radix16_step (0, []) (take 31 a) in
  let carry := carry + byte a 31 in
  let carry2 := Z.shiftr (carry + 8) 4 in
  e ++ [sint 8 (carry - Z.shiftl carry2 4); sint 8 carry2].

(** [Ai]: [A] to [8A]. *)
Fixpoint multiples (n : nat) (A : ge_p3) (c : ge_cached) : option (list ge_cached) :=
  match n with
  | O => Some []
  | S n =>
      t ← ge_add A c;
      u ← ge_p1p1_to_p3 t;
      c ← ge_p3_to_cached u;
      cs ← multiples n A c;
      Some (c :: cs)
  end.

Definition scalarmult_table (A : ge_p3) : option (list ge_cached) :=
  c ← ge_p3_to_cached A;
  cs ← multiples 7 A c;
  Some (c :: cs).

(** One digit: four doublings and the addition of the selected multiple. *)
Definition scalarmult_digit (Ai : list ge_cached) (b : Z) (r : ge_p2) : option ge_p1p1 :=
  t ← ge_p2_dbl r;
  r ← ge_p1p1_to_p2 t;
  t ← ge_p2_dbl r;
  r ← ge_p1p1_to_p2 t;
  t ← ge_p2_dbl r;
  r ← ge_p1p1_to_p2 t;
  t ← ge_p2_dbl r;
  u ← ge_p1p1_to_p3 t;
  cur ← cached_select Ai b;
  ge_add u cur.

(** From the top digit on. *)
Fixpoint scalarmult_loop (Ai : list ge_cached) (ds : list Z) (r : ge_p2) : option ge_p2 :=
  match ds with
  | [] => Some r
  | b :: ds =>
      t ← scalarmult_digit Ai b r;
      r ← ge_p1p1_to_p2 t;
      scalarmult_loop Ai ds r
  end.

Definition ge_scalarmult (a : list Z) (A : ge_p3) : option ge_p2 :=
  Ai ← scalarmult_table A;
  scalarmult_loop Ai (rev (radix16 a)) ge_p2_0.

(** The last digit leaves the result in [r3]. *)
Definition ge_scalarmult_p3 (a : list Z) (A : ge_p3) : option ge_p3 :=
  Ai ← scalarmult_table A;
  r ← scalarmult_loop Ai (take 63 (rev (radix16 a))) ge_p2_0;
  t ← scalarmult_digit Ai (limb (radix16 a) 0) r;
  ge_p1p1_to_p3 t.

(** ** The base point *)

Definition nibbles (a : list Z) : list Z :=
  concat (map (fun i => [Z.land (Z.shiftr (byte a i) 0) 15; Z.land (Z.shiftr (byte a i) 4) 15]) (seq 0 32)).

(** [e[i] += carry; carry = (e[i] + 8) >> 4; e[i] -= carry << 4]. *)
Fixpoint signed_digits (carry : Z) (e : list Z) : list Z :=
  match e with
  | [] => []
  | [x] => [sint 8 (x + carry)]
  | x :: e =>
      let x := sint 8 (x + carry) in
      let carry := Z.shiftr (sint 8 (x + 8)) 4 in
      sint 8 (x - Z.shiftl carry 4) :: signed_digits carry e
  end.

(** [select(&t, i / 2, e[i]); ge_madd(&r, h, &t); ge_p1p1_to_p3(h, &r)]. *)
Definition base_step (ge_base : list (list ge_precomp)) (e : list Z) (h : option ge_p3) (i : nat) : option ge_p3 :=
  h ← h;
  t ← select (nth (i / 2) ge_base []) (limb e i);
  r ← ge_madd h t;
  ge_p1p1_to_p3 r.

Definition ge_scalarmult_base (ge_base : list (list ge_precomp)) (a : list Z) : option ge_p3 :=
  let e := signed_digits 0 (nibbles a) in
  h ← foldl (base_step ge_base e) (Some ge_p3_0) (map (fun k => 2 * k + 1)%nat (seq 0 32));
  r ← ge_p3_dbl h;
  s ← ge_p1p1_to_p2 r;
  r ← ge_p2_dbl s;
  s ← ge_p1p1_to_p2 r;
  r ← ge_p2_dbl s;
  s ← ge_p1p1_to_p2 r;
  r ← ge_p2_dbl s;
  h ← ge_p1p1_to_p3 r;
  foldl (base_step ge_base e) (Some h) (map (fun k => 2 * k)%nat (seq 0 32)).

(** ** The recoding *)

(** Digits from the lowest, with weights [2^i]. *)
Definition bval (r : list Z) : Z := foldr (fun x v => x + 2 * v) 0 r.

Lemma bval_app l r : bval (l ++ r) = bval l + 2 ^ Z.of_nat (length l) * bval r.
Proof.
  unfold bval. induction l as [|x l IH]; cbn [foldr app length]; [lia|]. rewrite IH, Nat2Z.inj_succ, Z.pow_succ_r by lia. lia.
Qed.

Lemma bval_cons x r : bval (x :: r) = x + 2 * bval r.
Proof. done. Qed.

Lemma bval_zeros n r : bval (replicate n 0 ++ r) = 2 ^ Z.of_nat n * bval r.
Proof.
  rewrite bval_app, length_replicate. replace (bval (replicate n 0)) with 0; [lia|].
  induction n as [|n IH]; [done|]. cbn [replicate]. rewrite bval_cons, <- IH. lia.
Qed.

Definition is_bit (x : Z) : Prop := x = 0 \/ x = 1.

Lemma bval_bits r : Forall is_bit r -> 0 <= bval r < 2 ^ Z.of_nat (length r).
Proof.
  induction 1 as [|x r Hx _ IH]; [done|]. rewrite bval_cons. cbn [length]. rewrite Nat2Z.inj_succ, Z.pow_succ_r by lia.
  destruct Hx; lia.
Qed.

Lemma limb_middle L x R : limb (L ++ x :: R) (length L) = x.
Proof. unfold limb. by rewrite app_nth2, Nat.sub_diag by lia. Qed.

Lemma insert_middle L (x y : Z) R : <[length L := y]> (L ++ x :: R) = L ++ y :: R.
Proof. by rewrite insert_app_r_alt, Nat.sub_diag by lia. Qed.

(** The carry loop is an increment. *)
Fixpoint increment (U : list Z) : list Z :=
  match U with
  | [] => []
  | x :: U => if x =? 0 then 1 :: U else 0 :: increment U
  end.

Lemma slide_carry_increment L U : slide_carry (length U) (length L) (L ++ U) = L ++ increment U.
Proof.
  revert L; induction U as [|x U IH]; intros L; [done|]. cbn [slide_carry length increment]. rewrite limb_middle, !insert_middle.
  destruct (x =? 0); [done|].
  replace (L ++ 0 :: U) with ((L ++ [0]) ++ U) by (by rewrite <- app_assoc).
  replace (S (length L)) with (length (L ++ [0])) by (rewrite length_app; cbn; lia). rewrite IH. by rewrite <- app_assoc.
Qed.

Lemma increment_bits U : Forall is_bit U -> Forall is_bit (increment U).
Proof.
  induction 1 as [|x U Hx HU IH]; cbn [increment]; [constructor|]. case_match; constructor; try done; [by right|by left].
Qed.

Lemma length_increment U : length (increment U) = length U.
Proof. induction U as [|x U IH]; cbn [increment]; [done|]. case_match; cbn; congruence. Qed.

Lemma bval_increment U : Forall is_bit U -> bval U + 1 < 2 ^ Z.of_nat (length U) -> bval (increment U) = bval U + 1.
Proof.
  induction 1 as [|x U Hx HU IH]; cbn [increment]; [cbn; lia|]. cbn [length]. rewrite Nat2Z.inj_succ, Z.pow_succ_r, bval_cons by lia.
  intros Hb. destruct Hx as [-> | ->]; cbn [Z.eqb]; rewrite bval_cons; [lia|]. rewrite IH by lia. lia.
Qed.

Definition odd_digit (x : Z) : Prop := x mod 2 = 1 /\ -15 <= x <= 15.

Lemma sint8_small x : -128 <= x < 128 -> sint 8 x = x.
Proof. intros Hx. unfold sint. change (2 ^ 8) with 256. change (2 ^ (8 - 1)) with 128. bcase; zdm. Qed.

Lemma zero_shift L (x : Z) z U : L ++ x :: replicate z 0 ++ 0 :: U = L ++ x :: replicate (S z) 0 ++ U.
Proof. rewrite replicate_S_end, <- app_assoc. done. Qed.

Lemma insert_above L (x y u : Z) z U :
  <[(length L + S z)%nat := y]> (L ++ x :: replicate z 0 ++ u :: U) = L ++ x :: replicate z 0 ++ y :: U.
Proof.
  replace (L ++ x :: replicate z 0 ++ u :: U) with ((L ++ x :: replicate z 0) ++ u :: U) by (by rewrite <- app_assoc).
  replace (length L + S z)%nat with (length (L ++ x :: replicate z 0)) by (rewrite length_app; cbn [length]; rewrite length_replicate; lia).
  rewrite insert_middle. by rewrite <- app_assoc.
Qed.

Lemma limb_above L (x u : Z) z U : limb (L ++ x :: replicate z 0 ++ u :: U) (length L + S z) = u.
Proof.
  replace (L ++ x :: replicate z 0 ++ u :: U) with ((L ++ x :: replicate z 0) ++ u :: U) by (by rewrite <- app_assoc).
  replace (length L + S z)%nat with (length (L ++ x :: replicate z 0)) by (rewrite length_app; cbn [length]; rewrite length_replicate; lia).
  apply limb_middle.
Qed.

Lemma carry_above L (x : Z) z U : (length L + S z + length U = 256)%nat ->
  slide_carry (256 - (length L + S z)) (length L + S z) (L ++ x :: replicate z 0 ++ U) = L ++ x :: replicate z 0 ++ increment U.
Proof.
  intros Hl. replace (L ++ x :: replicate z 0 ++ U) with ((L ++ x :: replicate z 0) ++ U) by (by rewrite <- app_assoc).
  replace (256 - (length L + S z))%nat with (length U) by lia.
  replace (length L + S z)%nat with (length (L ++ x :: replicate z 0)) by (rewrite length_app; cbn [length]; rewrite length_replicate; lia).
  rewrite slide_carry_increment. by rewrite <- app_assoc.
Qed.

(** The arithmetic of a window: [p = 2^b], [t = 2^(bits above)]. *)
Lemma window_no_overflow x p v t : In p [2; 4; 8; 16] -> 15 < x + p -> -15 <= x - p -> 0 <= v < t ->
  8 * (x + p * (1 + 2 * v)) <= 2 * p * t -> v + 1 < t.
Proof. intros [E|[E|[E|[E|[]]]]] Hx Hy Hv HM; subst p; lia. Qed.

Lemma odd_digit_opp d : odd_digit d -> odd_digit (- d).
Proof. intros [Ho Hd]. split; [zdm; lia|lia]. Qed.

Lemma odd_add x p : odd_digit x -> p mod 2 = 0 -> -15 <= x + p <= 15 -> odd_digit (x + p).
Proof. unfold odd_digit. intros [Hx _] Hp Hb. split; [zdm|done]. Qed.

(** One window: [z] zeros are known above the digit [x] at position [i]. *)
Lemma slide_window_spec n L x z U M : (z + n = 6)%nat -> (length L + 1 + z + length U = 256)%nat -> odd_digit x -> Forall is_bit U ->
  x + 2 ^ Z.of_nat (S z) * bval U = M -> 8 * M <= 2 ^ Z.of_nat (256 - length L) ->
  exists x' z' U', slide_window (seq (S z) n) (length L) (L ++ x :: replicate z 0 ++ U) = L ++ x' :: replicate z' 0 ++ U' /\
    odd_digit x' /\ Forall is_bit U' /\ (1 + z' + length U' = 256 - length L)%nat /\ x' + 2 ^ Z.of_nat (S z') * bval U' = M /\
    (4 <= z' \/ U' = [])%nat.
Proof.
  revert x z U; induction n as [|n IH]; intros x z U Hzn Hlen Hx HU HM HM8; cbn [slide_window seq].
  { exists x, z, U. split_and!; try done; [lia|left; lia]. }
  destruct U as [|u U].
  { exists x, z, []. rewrite (proj2 (Nat.leb_le _ _)) by (cbn in Hlen; lia). split_and!; try done; [cbn in *; lia|by right]. }
  cbn [length] in Hlen. rewrite (proj2 (Nat.leb_gt _ _)) by lia. apply Forall_cons in HU as [Hu HU].
  rewrite limb_above, limb_middle. rewrite bval_cons in HM.
  assert (2 ^ Z.of_nat (S (S z)) = 2 * 2 ^ Z.of_nat (S z)) as Ep by (rewrite (Nat2Z.inj_succ (S z)), Z.pow_succ_r by lia; lia).
  destruct Hu as [Eu|Eu]; rewrite Eu in *; cbn [Z.eqb].
  { rewrite zero_shift. apply IH; try done; lia. }
  rewrite shiftl_mul, Z.mul_1_l by lia. set (p := 2 ^ Z.of_nat (S z)) in *.
  assert (p mod 2 = 0) as Hp by (unfold p; rewrite Nat2Z.inj_succ, Z.pow_succ_r, Z.mul_comm by lia; by apply Z.mod_mul).
  assert (0 < p) by (unfold p; apply Z.pow_pos_nonneg; lia). pose proof Hx as [_ Hxb].
  destruct (Z.leb_spec (x + p) 15) as [H15|H15].
  { rewrite sint8_small by lia. rewrite insert_middle, insert_above, zero_shift. apply IH; try lia; try done.
    apply odd_add; [done..|lia]. }
  destruct (Z.leb_spec (-15) (x - p)) as [Hm15|Hm15].
  - rewrite sint8_small by lia. rewrite insert_middle, carry_above by (cbn [length]; lia). cbn [increment Z.eqb]. rewrite zero_shift.
    assert (bval U + 1 < 2 ^ Z.of_nat (length U)) as Hov.
    { apply (window_no_overflow x p); [|done|done|by apply bval_bits|].
      - assert (z < 4)%nat as Hz. { destruct (decide (z < 4)%nat); [done|]. assert (2 ^ 5 <= p) by (apply Z.pow_le_mono_r; lia). lia. }
        unfold p. do 4 (destruct z as [|z]; [cbn; tauto|]). lia.
      - rewrite HM. etransitivity; [exact HM8|]. unfold p. rewrite <- Z.mul_assoc, <- Z.pow_add_r, <- Z.pow_succ_r by lia.
        apply Z.pow_le_mono_r; lia. }
    apply IH; try done; try lia; [rewrite length_increment; lia| |by apply increment_bits|].
    + replace (x - p) with (x + - p) by lia. apply odd_add; [done| |lia]. rewrite Z.mod_opp_l_z; done.
    + rewrite bval_increment by done. lia.
  - exists x, z, (1 :: U). split_and!; [done|done|constructor; [by right|done]|cbn [length]; lia|rewrite bval_cons; lia|].
    left. destruct (decide (4 <= z)%nat); [done|exfalso]. assert (p <= 2 ^ 4) by (apply Z.pow_le_mono_r; lia).
    destruct Hx as [Ho _]. assert (x <> 0) by (intros ->; done). lia.
Qed.

Definition slide_step (r : list Z) (i : nat) : list Z := if limb r i =? 0 then r else slide_window [1; 2; 3; 4; 5; 6]%nat i r.

Definition digit_ok (x : Z) : Prop := x = 0 \/ odd_digit x.

(** Before position [i]: the digits below are final; [z] zeros follow, and the
    part below is smaller than half the weight behind them. *)
Definition slide_inv (a : Z) (i : nat) (r : list Z) : Prop :=
  exists L z U, r = L ++ replicate z 0 ++ U /\ length L = i /\ (i + z + length U = 256)%nat /\ Forall digit_ok L /\ Forall is_bit U /\
    bval L + 2 ^ Z.of_nat (i + z) * bval U = a /\ (2 * Z.abs (bval L) < 2 ^ Z.of_nat (i + z) \/ U = []).

(** A digit at [i] is small against the room above it. *)
Lemma slide_room a i l v : 0 <= a < 2 ^ 253 -> (i < 256)%nat -> 2 * Z.abs l < 2 ^ Z.of_nat i -> l + 2 ^ Z.of_nat i * v = a -> 0 < v ->
  8 * v <= 2 ^ Z.of_nat (256 - i).
Proof.
  intros Ha Hi Hl E Hv. set (w := 2 ^ Z.of_nat i) in *. assert (0 < w) by (apply Z.pow_pos_nonneg; lia).
  destruct (decide (i <= 253)%nat) as [Hi'|Hi'].
  - assert (2 ^ 253 = w * 2 ^ (253 - Z.of_nat i)) as E3 by (unfold w; rewrite <- Z.pow_add_r by lia; f_equal; lia).
    replace (2 ^ Z.of_nat (256 - i)) with (8 * 2 ^ (253 - Z.of_nat i)) by (change 8 with (2 ^ 3); rewrite <- Z.pow_add_r by lia; f_equal; lia).
    set (t := 2 ^ (253 - Z.of_nat i)) in *. nia.
  - assert (2 ^ 254 <= w) by (apply Z.pow_le_mono_r; lia). nia.
Qed.

Lemma slide_step_inv a i r : 0 <= a < 2 ^ 253 -> (i < 256)%nat -> slide_inv a i r -> slide_inv a (S i) (slide_step r i).
Proof.
  intros Ha Hi (L & z & U & -> & Hl & Hlen & HL & HU & E & Hb). unfold slide_step.
  destruct z as [|z]; [|].
  2:{ cbn [replicate app]. rewrite <- Hl, limb_middle. cbn [Z.eqb]. exists (L ++ [0]), z, U. rewrite <- app_assoc.
      split_and!; [done|rewrite length_app; cbn; lia|lia|apply Forall_app; split; [done|by repeat constructor]|done| |].
      - rewrite bval_app. change (bval [0]) with 0. replace (S (length L) + z)%nat with (i + S z)%nat by lia. lia.
      - destruct Hb as [Hb| ->]; [left|by right]. rewrite bval_app. change (bval [0]) with 0.
        replace (S (length L) + z)%nat with (i + S z)%nat by lia. lia. }
  cbn [replicate app]. rewrite Nat.add_0_r in *. destruct U as [|u U]; [cbn in Hlen; lia|]. cbn [length] in Hlen.
  destruct Hb as [Hb|]; [|done]. apply Forall_cons in HU as [Hu HU]. rewrite <- Hl, limb_middle. rewrite bval_cons in E.
  destruct Hu as [-> | ->]; cbn [Z.eqb].
  { exists (L ++ [0]), 0%nat, U. rewrite <- app_assoc, Nat.add_0_r.
    assert (2 ^ Z.of_nat (S i) = 2 * 2 ^ Z.of_nat i) as Ei by (rewrite Nat2Z.inj_succ, Z.pow_succ_r by lia; lia).
    split_and!; [done|rewrite length_app; cbn; lia|lia|apply Forall_app; split; [done|by repeat constructor]|done| |]; rewrite Hl, Ei, bval_app; change (bval [0]) with 0.
    - lia.
    - left. lia. }
  pose proof (bval_bits U HU) as HU0.
  change [1; 2; 3; 4; 5; 6]%nat with (seq 1 6). change (L ++ 1 :: U) with (L ++ 1 :: replicate 0 0 ++ U).
  destruct (slide_window_spec 6 L 1 0 U (1 + 2 * bval U)) as (x' & z' & U' & -> & Hx' & HU' & Hlen' & E' & Hz'); [done|lia|by split|done|done| |].
  { rewrite Hl. eapply slide_room; [exact Ha|done|exact Hb|exact E|lia]. }
  exists (L ++ [x']), z', U'. rewrite <- app_assoc. rewrite Hl in Hlen'.
  split_and!; [done|rewrite length_app; cbn; lia|lia|apply Forall_app; split; [done|by constructor; [right|]]|done| |].
  - rewrite bval_app, Hl. change (bval [x']) with (x' + 2 * 0). replace (S i + z')%nat with (i + S z')%nat by lia.
    rewrite Nat2Z.inj_add, Z.pow_add_r by lia. lia.
  - destruct Hz' as [Hz'| ->]; [left|by right]. rewrite bval_app, Hl. change (bval [x']) with (x' + 2 * 0).
    replace (S i + z')%nat with (i + (S z'))%nat by lia. rewrite Nat2Z.inj_add, Z.pow_add_r by lia.
    assert (2 ^ 5 <= 2 ^ Z.of_nat (S z')) by (apply Z.pow_le_mono_r; lia). destruct Hx' as [_ Hx']. nia.
Qed.

Lemma bit_of x k : 0 <= k -> Z.land 1 (Z.shiftr x k) = x / 2 ^ k mod 2.
Proof. intros Hk. rewrite Z.land_comm. change 1 with (Z.ones 1) at 1. by rewrite Z.land_ones, Z.shiftr_div_pow2 by lia. Qed.

Lemma byte_bits x : 0 <= x < 256 -> bval (map (fun i => Z.land 1 (Z.shiftr x (Z.of_nat i))) (seq 0 8)) = x.
Proof.
  intros Hx. assert (Forall (fun x => bval (map (fun i => Z.land 1 (Z.shiftr x (Z.of_nat i))) (seq 0 8)) = x) (seqZ 0 256)) as H.
  { apply (bool_decide_unpack _). by vm_compute. }
  rewrite Forall_forall in H. apply H, elem_of_seqZ. lia.
Qed.

Lemma bytes_bits a : Forall (is_uint 8) a ->
  bval (map (fun i => Z.land 1 (Z.shiftr (byte a (i / 8)) (Z.of_nat (i mod 8)))) (seq 0 (8 * length a))) = le_value a.
Proof.
  induction 1 as [|x a Hx Ha IH]; [done|]. cbn [length]. rewrite Nat.mul_succ_r, Nat.add_comm, seq_app, map_app, bval_app, length_map, length_seq.
  rewrite le_value_cons, <- IH, <- (byte_bits x Hx) at 1. f_equal. change (2 ^ Z.of_nat 8) with 256. f_equal.
  change (0 + 8)%nat with (8 + 0)%nat. rewrite <- fmap_add_seq, map_map. f_equal. apply map_ext. intros i.
  replace (8 + i)%nat with (1 * 8 + i)%nat by lia. rewrite Nat.div_add_l, Nat.Div0.add_mod, Nat.Div0.mod_mul, Nat.add_0_l, Nat.Div0.mod_mod by lia. done.
Qed.

Lemma slide_bits_value a : is_key a -> Forall is_bit (slide_bits a) /\ bval (slide_bits a) = le_value a.
Proof.
  intros [Hl Ha]. split; [|rewrite <- bytes_bits by done; unfold slide_bits; by rewrite Hl].
  apply Forall_map, Forall_true. intros i. rewrite bit_of by lia. unfold is_bit. pose proof (Z.mod_pos_bound (byte a (i / 8) / 2 ^ Z.of_nat (i mod 8)) 2). lia.
Qed.

Lemma slide_ok a : is_key a -> le_value a < 2 ^ 253 -> length (slide a) = 256%nat /\ Forall digit_ok (slide a) /\ bval (slide a) = le_value a.
Proof.
  intros Ha Hlt. pose proof (key_range a Ha) as Hr. destruct (slide_bits_value a Ha) as [Hb Hv].
  assert (forall n, (n <= 256)%nat -> slide_inv (le_value a) n (foldl slide_step (slide_bits a) (seq 0 n))) as H.
  { induction n as [|n IH]; intros Hn.
    - exists [], 0%nat, (slide_bits a). split_and!; try done; [rewrite Hv; change (bval []) with 0; change (2 ^ Z.of_nat (0 + 0)) with 1; lia|by left].
    - rewrite seq_S, foldl_app. cbn [foldl Nat.add]. apply slide_step_inv; [lia|lia|]. apply IH. lia. }
  destruct (H 256%nat ltac:(lia)) as (L & z & U & E & Hl & Hlen & HL & _ & Hv' & _).
  assert (z = 0%nat /\ U = []) as [-> ->] by (destruct U; cbn in Hlen; [split; [lia|done]|lia]).
  change (slide a) with (foldl slide_step (slide_bits a) (seq 0 256)). rewrite E. cbn [replicate]. rewrite !app_nil_r.
  split; [done|]. split; [done|]. rewrite <- Hv'. change (bval []) with 0. lia.
Qed.

(** ** Sums of multiples *)

Ltac ge_step :=
  eapply returns_bind;
  [lazymatch goal with
   | |- returns (ge_add _ _) _ => eapply ge_add_ok
   | |- returns (ge_sub _ _) _ => eapply ge_sub_ok
   | |- returns (ge_madd _ _) _ => eapply ge_madd_ok
   | |- returns (ge_msub _ _) _ => eapply ge_msub_ok
   | |- returns (ge_p2_dbl _) _ => eapply ge_p2_dbl_ok
   | |- returns (ge_p3_dbl _) _ => eapply ge_p3_dbl_ok
   | |- returns (ge_p1p1_to_p2 _) _ => eapply ge_p1p1_to_p2_ok
   | |- returns (ge_p1p1_to_p3 _) _ => eapply ge_p1p1_to_p3_ok
   | |- returns (ge_p3_to_cached _) _ => eapply ge_p3_to_cached_ok
   end; eassumption|cbn beta; intros ? ?].

Section Sums.
Open Scope group_scope.

(** Entry [k] of a window table stands for the multiple [2k+1]. *)
Definition odd_multiples {T} (ok : T -> point -> Prop) (Ai : list T) (A : point) : Prop :=
  forall k, (k < 8)%nat -> exists c, Ai !! k = Some c /\ ok c (smul (2 * Z.of_nat k + 1) A).

Lemma dsm_extend_ok n s2 A c m : p3_ok s2 (A + A) -> cached_ok c (smul m A) ->
  returns (dsm_extend n s2 c) (fun cs => forall k, (k < n)%nat -> exists c', cs !! k = Some c' /\ cached_ok c' (smul (m + 2 * Z.of_nat (S k)) A)).
Proof.
  revert c m; induction n as [|n IH]; intros c m Hs Hc; cbn [dsm_extend].
  { apply returns_some. intros k Hk. lia. }
  do 3 ge_step. match goal with H : cached_ok ?d (A + A + smul m A) |- _ => rename d into c', H into Hc' end.
  replace (A + A + smul m A) with (smul (m + 2) A) in Hc' by group_ring.
  eapply returns_bind; [apply (IH c' (m + 2)%Z Hs Hc')|]. intros cs Hcs. apply returns_some. intros [|k] Hk.
  - exists c'. split; [done|]. by replace (m + 2 * Z.of_nat 1)%Z with (m + 2)%Z by lia.
  - destruct (Hcs k) as (c'' & E & Hc''); [lia|]. exists c''. split; [done|].
    by replace (m + 2 * Z.of_nat (S (S k)))%Z with (m + 2 + 2 * Z.of_nat (S k))%Z by lia.
Qed.

Lemma ge_dsm_precomp_ok s A : p3_ok s A -> returns (ge_dsm_precomp s) (fun Ai => odd_multiples cached_ok Ai A).
Proof.
  intros Hs. unfold ge_dsm_precomp. do 3 ge_step. match goal with H : cached_ok ?c A |- _ => rename c into c0, H into Hc end.
  rewrite <- (smul_1 A) in Hc at 1. eapply returns_bind; [eapply dsm_extend_ok; eassumption|]. intros cs Hcs. apply returns_some.
  intros [|k] Hk; [by exists c0|]. destruct (Hcs k) as (c' & E & Hc'); [lia|]. exists c'. split; [done|].
  by replace (2 * Z.of_nat (S k) + 1)%Z with (1 + 2 * Z.of_nat (S k))%Z by lia.
Qed.

Lemma odd_multiples_digit {T} (ok : T -> point -> Prop) Ai A d : odd_multiples ok Ai A -> odd_digit d -> (0 < d)%Z ->
  exists c, Ai !! Z.to_nat (d / 2) = Some c /\ ok c (smul d A).
Proof.
  intros HA [Ho Hd] H0. destruct (HA (Z.to_nat (d / 2))) as (c & E & Hc); [zdm; lia|]. exists c. split; [done|].
  by replace d with (2 * Z.of_nat (Z.to_nat (d / 2)) + 1)%Z at 1 by (zdm; lia).
Qed.

Lemma slide_add_ok Ai A d t P : odd_multiples cached_ok Ai A -> digit_ok d -> p1p1_ok t P ->
  returns (slide_add Ai d t) (fun r => p1p1_ok r (P + smul d A)).
Proof.
  intros HA Hd Ht. unfold slide_add. destruct Hd as [->|Hd].
  { rewrite smul_0, gadd_0_r. by apply returns_some. }
  bcases.
  - ge_step. destruct (odd_multiples_digit _ _ _ d HA Hd) as (q & -> & Hq); [lia|]. by apply ge_add_ok.
  - ge_step. destruct (odd_multiples_digit _ _ _ (- d) HA) as (q & -> & Hq); [by apply odd_digit_opp|lia|].
    assert (P + smul d A = P - smul (- d) A) as -> by group_ring. by apply ge_sub_ok.
  - apply returns_some. replace d with 0%Z by lia. by rewrite smul_0, gadd_0_r.
Qed.

Lemma slide_madd_ok Bi A d t P : odd_multiples precomp_ok Bi A -> digit_ok d -> p1p1_ok t P ->
  returns (slide_madd Bi d t) (fun r => p1p1_ok r (P + smul d A)).
Proof.
  intros HA Hd Ht. unfold slide_madd. destruct Hd as [->|Hd].
  { rewrite smul_0, gadd_0_r. by apply returns_some. }
  bcases.
  - ge_step. destruct (odd_multiples_digit _ _ _ d HA Hd) as (q & -> & Hq); [lia|]. by apply ge_madd_ok.
  - ge_step. destruct (odd_multiples_digit _ _ _ (- d) HA) as (q & -> & Hq); [by apply odd_digit_opp|lia|].
    assert (P + smul d A = P - smul (- d) A) as -> by group_ring. by apply ge_msub_ok.
  - apply returns_some. replace d with 0%Z by lia. by rewrite smul_0, gadd_0_r.
Qed.

(** [v 0 + 2 v 1 + ... + 2^(n-1) v (n-1)]. *)
Definition weighted (v : nat -> point) (n : nat) : point := gsum (map (fun i => smul (2 ^ Z.of_nat i) (v i)) (seq 0 n)).

Lemma weighted_S v n : weighted v (S n) = weighted v n + smul (2 ^ Z.of_nat n) (v n).
Proof. unfold weighted. rewrite seq_S, map_app, gsum_app. cbn. by rewrite gadd_0_r. Qed.

Lemma rev_seq_S n : rev (seq 0 (S n)) = n :: rev (seq 0 n).
Proof. by rewrite seq_S, rev_app_distr. Qed.

Lemma pow2_S n : (2 ^ Z.of_nat (S n) = 2 * 2 ^ Z.of_nat n)%Z.
Proof. rewrite Nat2Z.inj_succ, Z.pow_succ_r; lia. Qed.

Section Loop.
Variable body : nat -> ge_p1p1 -> option ge_p1p1.
Variable v : nat -> point.
Hypothesis body_ok : forall i t P, (i < 256)%nat -> p1p1_ok t P -> returns (body i t) (fun r => p1p1_ok r (P + v i)).

Lemma dsm_loop_ok n r P : (n <= 256)%nat -> p2_ok r P ->
  returns (dsm_loop body (rev (seq 0 n)) r) (fun r => p2_ok r (smul (2 ^ Z.of_nat n) P + weighted v n)).
Proof.
  revert r P; induction n as [|n IH]; intros r P Hn Hr.
  { rewrite smul_1. change (weighted v 0) with (gzero (G := point)). rewrite gadd_0_r. by apply returns_some. }
  rewrite rev_seq_S. cbn [dsm_loop]. ge_step. eapply returns_bind; [apply body_ok; [lia|eassumption]|cbn beta; intros ? ?]. ge_step.
  eapply returns_mono; [apply IH; [lia|eassumption]|]. cbn beta. intros ? Hr'.
  rewrite weighted_S, pow2_S. eapply eq_ind; [exact Hr'|]. group_ring.
Qed.

Lemma dsm_loop_p3_ok n r P r3 : (n <= 256)%nat -> p2_ok r P ->
  returns (dsm_loop_p3 body (rev (seq 0 n)) r r3)
          (fun o => if decide (n = 0)%nat then o = r3 else exists r, o = Some r /\ p3_ok r (smul (2 ^ Z.of_nat n) P + weighted v n)).
Proof.
  revert r P r3; induction n as [|n IH]; intros r P r3 Hn Hr.
  { by apply returns_some. }
  rewrite rev_seq_S. cbn [dsm_loop_p3]. ge_step. eapply returns_bind; [apply body_ok; [lia|eassumption]|cbn beta; intros ? ?].
  rewrite weighted_S, pow2_S. destruct n as [|n]; cbn [Nat.eqb]; ge_step.
  - apply returns_some. cbn. eexists. split; [done|]. eapply eq_ind; [eassumption|].
    change (weighted v 0) with (gzero (G := point)). change (2 ^ Z.of_nat 0)%Z with 1%Z. group_ring.
  - eapply returns_mono; [apply IH; [lia|eassumption]|]. cbn beta. intros ? Hr'. cbn in Hr' |- *. destruct Hr' as (r' & -> & Hr'). exists r'. split; [done|].
    eapply eq_ind; [exact Hr'|]. rewrite pow2_S. group_ring.
Qed.
End Loop.

(** The digits of a recoding weigh its value. *)
Lemma weighted_add u v n : weighted (fun i => u i + v i) n = weighted u n + weighted v n.
Proof.
  unfold weighted. rewrite <- gsum_map_add. f_equal. apply map_ext. intros i. by rewrite smul_gadd.
Qed.

Lemma weighted_take s A n : (n <= length s)%nat -> weighted (fun i => smul (limb s i) A) n = smul (bval (take n s)) A.
Proof.
  induction n as [|n IH]; intros Hn; [done|]. rewrite weighted_S, IH by lia.
  destruct (lookup_lt_is_Some_2 s n ltac:(lia)) as [x Hx]. rewrite (take_S_r _ _ _ Hx), bval_app, length_take_le by lia.
  replace (limb s n) with x by (unfold limb; symmetry; by apply nth_lookup_Some). change (bval [x]) with (x + 2 * 0)%Z. group_ring.
Qed.

Lemma bval_take s n : (forall i, (n <= i < length s)%nat -> limb s i = 0%Z) -> bval (take n s) = bval s.
Proof.
  intros Hz. rewrite <- (take_drop n s) at 2. rewrite bval_app. replace (bval (drop n s)) with 0%Z; [lia|].
  rewrite <- (app_nil_r (drop n s)). replace (drop n s) with (replicate (length (drop n s)) 0%Z).
  - by rewrite bval_zeros, Z.mul_0_r.
  - apply replicate_as_Forall. split; [done|]. apply Forall_lookup. intros i x Hx. rewrite lookup_drop in Hx.
    transitivity (limb s (n + i)); [symmetry; apply Hz; apply lookup_lt_Some in Hx; lia|unfold limb; by apply nth_lookup_Some].
Qed.

Lemma top_positions_spec slides n : exists m, top_positions slides (rev (seq 0 n)) = rev (seq 0 m) /\ (m <= n)%nat /\
  (forall s i, s ∈ slides -> (m <= i < n)%nat -> limb s i = 0%Z) /\ (m = 0%nat \/ exists s, s ∈ slides /\ limb s (m - 1) <> 0%Z).
Proof.
  induction n as [|n (m & E & Hm & Hz & Ht)]; [by exists 0%nat; split_and!; [done|done|lia|left]|].
  rewrite rev_seq_S. cbn [top_positions]. destruct (existsb _ slides) eqn:Ex.
  - exists (S n). rewrite rev_seq_S. split_and!; [done|done|lia|right]. apply existsb_exists in Ex as (s & Hs & Hd).
    exists s. split; [by apply list_elem_of_In|]. replace (S n - 1)%nat with n by lia. intros E0. by rewrite E0 in Hd.
  - exists m. split_and!; [done|lia| |done]. intros s i Hs Hi. destruct (decide (i = n)) as [-> |]; [|apply Hz; [done|lia]].
    apply list_elem_of_In in Hs. destruct (Z.eqb_spec (limb s n) 0); [done|]. exfalso. apply (proj2 (Bool.not_true_iff_false _) Ex).
    apply existsb_exists. exists s. split; [done|]. by destruct (Z.eqb_spec (limb s n) 0).
Qed.

(** A scalar as the callers pass it: 32 bytes, below [2^253]. *)
Definition scalar_ok (a : list Z) : Prop := is_key a /\ (le_value a < 2 ^ 253)%Z.

Lemma slide_digit a i : scalar_ok a -> digit_ok (limb (slide a) i).
Proof.
  intros [Ha Hlt]. destruct (slide_ok a Ha Hlt) as (_ & Hd & _). unfold limb.
  destruct (nth_lookup_or_length (slide a) i 0%Z) as [E|Hl]; [by eapply Forall_lookup_1|]. rewrite nth_overflow by done. by left.
Qed.

Lemma weighted_slide a A n : scalar_ok a -> (n <= 256)%nat -> (forall i, (n <= i < 256)%nat -> limb (slide a) i = 0%Z) ->
  weighted (fun i => smul (limb (slide a) i) A) n = smul (le_value a) A.
Proof.
  intros [Ha Hlt] Hn Hz. destruct (slide_ok a Ha Hlt) as (Hl & _ & <-). rewrite weighted_take by lia. rewrite bval_take; [done|].
  by rewrite Hl.
Qed.

Lemma slide_zero a : scalar_ok a -> (forall i, (i < 256)%nat -> limb (slide a) i = 0%Z) <-> le_value a = 0%Z.
Proof.
  intros [Ha Hlt]. destruct (slide_ok a Ha Hlt) as (Hl & _ & Hv). split.
  - intros Hz. rewrite <- Hv, <- (bval_take _ 0); [done|]. rewrite Hl. intros i Hi. apply Hz. lia.
  - intros E. rewrite (key_bytes a Ha), E. intros i Hi. assert (slide (le_bytes 32 0) = replicate 256 0%Z) as -> by by vm_compute.
    unfold limb. apply nth_lookup_Some. by apply lookup_replicate_2.
Qed.

(** The value of each sum, from the recodings and the multiples they select. *)
Definition terms_value (ts : list (list Z * point)) : point := gsum (map (fun t => smul (le_value t.1) t.2) ts).

Definition terms_digit (ts : list (list Z * point)) (i : nat) : point := gsum (map (fun t => smul (limb (slide t.1) i) t.2) ts).

Definition terms_ok (ts : list (list Z * point)) : Prop := Forall (fun t => scalar_ok t.1) ts.

Lemma weighted_terms ts n : terms_ok ts -> (n <= 256)%nat ->
  (forall s i, s ∈ map (fun t => slide t.1) ts -> (n <= i < 256)%nat -> limb s i = 0%Z) -> weighted (terms_digit ts) n = terms_value ts.
Proof.
  intros Hts Hn. induction Hts as [|[a A] ts Ha Hts IH]; intros Hz.
  - unfold weighted, terms_digit, terms_value. cbn [map gsum foldr]. clear.
    induction (seq 0 n) as [|i l IH]; [done|]. cbn [map]. by rewrite gsum_cons, IH, smul_zero, gadd_0_l.
  - transitivity (weighted (fun i => smul (limb (slide a) i) A + terms_digit ts i) n); [done|].
    rewrite weighted_add, weighted_slide, IH; try done.
    + intros s i Hs Hi. apply Hz; [by right|done].
    + intros i Hi. apply Hz; [by left|done].
Qed.

Section Terms.
Variable ts : list (list Z * point).
Variable body : nat -> ge_p1p1 -> option ge_p1p1.
Hypothesis ts_ok : terms_ok ts.
Hypothesis body_ok : forall i t P, (i < 256)%nat -> p1p1_ok t P -> returns (body i t) (fun r => p1p1_ok r (P + terms_digit ts i)).

Lemma dsm_loop_terms : returns (dsm_loop body (positions (map (fun t => slide t.1) ts)) ge_p2_0) (fun r => p2_ok r (terms_value ts)).
Proof.
  destruct (top_positions_spec (map (fun t => slide t.1) ts) 256) as (m & E & Hm & Hz & _). unfold positions. rewrite E.
  eapply returns_mono; [apply dsm_loop_ok; [exact body_ok|done|apply ge_p2_0_ok]|]. cbn beta. intros r.
  by rewrite smul_zero, gadd_0_l, weighted_terms.
Qed.

Lemma dsm_loop_p3_terms :
  returns (dsm_loop_p3 body (positions (map (fun t => slide t.1) ts)) ge_p2_0 None)
          (fun o => if decide (Forall (fun t => le_value t.1 = 0%Z) ts) then o = None else exists r, o = Some r /\ p3_ok r (terms_value ts)).
Proof.
  destruct (top_positions_spec (map (fun t => slide t.1) ts) 256) as (m & E & Hm & Hz & Ht). unfold positions. rewrite E.
  eapply returns_mono; [apply dsm_loop_p3_ok; [exact body_ok|done|apply ge_p2_0_ok]|]. cbn beta. intros o Ho.
  rewrite smul_zero, gadd_0_l, weighted_terms in Ho by done. destruct (decide (m = 0)%nat) as [-> |Hm0].
  - rewrite decide_True; [done|]. apply Forall_forall. intros t Hin. rewrite <- slide_zero by (by eapply Forall_forall in ts_ok).
    intros i Hi. apply Hz; [|lia]. apply list_elem_of_fmap. by exists t.
  - rewrite decide_False; [done|]. intros H0. destruct Ht as [|(s & Hs & Hd)]; [done|]. apply list_elem_of_fmap in Hs as (t & -> & Hin).
    apply Hd. rewrite Forall_forall in H0. apply slide_zero; [by eapply Forall_forall in ts_ok|by apply H0|lia].
Qed.
End Terms.

#[local] Opaque slide.

Ltac digit_step :=
  lazymatch goal with
  | |- returns (slide_add _ _ _) _ => eapply slide_add_ok
  | |- returns (slide_madd _ _ _) _ => eapply slide_madd_ok
  end; [eassumption|by apply slide_digit|eassumption].

Ltac terms_body :=
  intros i t P Hi Ht; cbn beta; unfold terms_digit; cbn [map fst snd];
  repeat lazymatch goal with |- returns (mbind _ _) _ => eapply returns_bind; [digit_step|clear t Ht; cbn beta; intros t Ht] end;
  eapply returns_mono; [digit_step|];
  let r := fresh "r" in let Hr := fresh "Hr" in
  cbn beta; intros r Hr; rewrite !gsum_cons; cbn [gsum foldr]; eapply eq_ind; [exact Hr|group_ring].

Ltac terms_scalars := repeat first [apply List.Forall_nil|apply List.Forall_cons; [assumption|]].

Ltac terms_result :=
  eapply returns_mono; [apply dsm_loop_terms; [terms_scalars|terms_body]|];
  let r := fresh "r" in let Hr := fresh "Hr" in
  cbn beta; intros r Hr; eapply eq_ind; [exact Hr|unfold terms_value; cbn [map fst snd]; rewrite !gsum_cons; cbn [gsum foldr]; group_ring].

Context (ge_Bi : list ge_precomp) (B : point).
Hypothesis Bi_ok : odd_multiples precomp_ok ge_Bi B.

Lemma double_base_ok a A PA b : scalar_ok a -> scalar_ok b -> p3_ok A PA ->
  returns (ge_double_scalarmult_base_vartime ge_Bi a A b) (fun r => p2_ok r (smul (le_value a) PA + smul (le_value b) B)).
Proof.
  intros Ha Hb HA. unfold ge_double_scalarmult_base_vartime. eapply returns_bind; [by apply ge_dsm_precomp_ok|].
  cbn beta. intros Ai HAi. change [slide a; slide b] with (map (fun t => slide t.1) [(a, PA); (b, B)]). terms_result.
Qed.

Lemma triple_base_ok a b Bi PB c Ci PC : scalar_ok a -> scalar_ok b -> scalar_ok c ->
  odd_multiples cached_ok Bi PB -> odd_multiples cached_ok Ci PC ->
  returns (ge_triple_scalarmult_base_vartime ge_Bi a b Bi c Ci)
          (fun r => p2_ok r (smul (le_value a) B + smul (le_value b) PB + smul (le_value c) PC)).
Proof.
  intros Ha Hb Hc HB HC. unfold ge_triple_scalarmult_base_vartime.
  change [slide a; slide b; slide c] with (map (fun t => slide t.1) [(a, B); (b, PB); (c, PC)]). terms_result.
Qed.

Lemma double_precomp2_ok a Ai PA b Bi PB : scalar_ok a -> scalar_ok b -> odd_multiples cached_ok Ai PA -> odd_multiples cached_ok Bi PB ->
  returns (ge_double_scalarmult_precomp_vartime2 a Ai b Bi) (fun r => p2_ok r (smul (le_value a) PA + smul (le_value b) PB)).
Proof.
  intros Ha Hb HA HB. unfold ge_double_scalarmult_precomp_vartime2.
  change [slide a; slide b] with (map (fun t => slide t.1) [(a, PA); (b, PB)]). terms_result.
Qed.

Lemma double_precomp_ok a A PA b Bi PB : scalar_ok a -> scalar_ok b -> p3_ok A PA -> odd_multiples cached_ok Bi PB ->
  returns (ge_double_scalarmult_precomp_vartime a A b Bi) (fun r => p2_ok r (smul (le_value a) PA + smul (le_value b) PB)).
Proof.
  intros Ha Hb HA HB. unfold ge_double_scalarmult_precomp_vartime. eapply returns_bind; [by apply ge_dsm_precomp_ok|].
  cbn beta. intros Ai HAi. by apply double_precomp2_ok.
Qed.

Lemma triple_precomp_ok a Ai PA b Bi PB c Ci PC : scalar_ok a -> scalar_ok b -> scalar_ok c ->
  odd_multiples cached_ok Ai PA -> odd_multiples cached_ok Bi PB -> odd_multiples cached_ok Ci PC ->
  returns (ge_triple_scalarmult_precomp_vartime a Ai b Bi c Ci)
          (fun r => p2_ok r (smul (le_value a) PA + smul (le_value b) PB + smul (le_value c) PC)).
Proof.
  intros Ha Hb Hc HA HB HC. unfold ge_triple_scalarmult_precomp_vartime.
  change [slide a; slide b; slide c] with (map (fun t => slide t.1) [(a, PA); (b, PB); (c, PC)]). terms_result.
Qed.

(** The [_p3] forms return the same sums, but write nothing when both scalars
    are zero. *)
Definition p3_unless_zero (a b : list Z) (P : point) (o : option ge_p3) : Prop :=
  if decide (le_value a = 0 /\ le_value b = 0)%Z then o = None else exists r, o = Some r /\ p3_ok r P.

Lemma p3_terms a PA b PB o :
  (if decide (Forall (fun t => le_value t.1 = 0%Z) [(a, PA); (b, PB)]) then o = None
   else exists r, o = Some r /\ p3_ok r (terms_value [(a, PA); (b, PB)])) -> p3_unless_zero a b (smul (le_value a) PA + smul (le_value b) PB) o.
Proof.
  unfold p3_unless_zero, terms_value. cbn [map fst snd]. rewrite !gsum_cons. cbn [gsum foldr]. rewrite gadd_0_r.
  rewrite (decide_ext _ (le_value a = 0 /\ le_value b = 0)%Z); [done|]. rewrite !Forall_cons, Forall_nil. cbn. tauto.
Qed.

Lemma double_base_p3_ok a A PA b : scalar_ok a -> scalar_ok b -> p3_ok A PA ->
  returns (ge_double_scalarmult_base_vartime_p3 ge_Bi a A b) (p3_unless_zero a b (smul (le_value a) PA + smul (le_value b) B)).
Proof.
  intros Ha Hb HA. unfold ge_double_scalarmult_base_vartime_p3. eapply returns_bind; [by apply ge_dsm_precomp_ok|].
  cbn beta. intros Ai HAi. change [slide a; slide b] with (map (fun t => slide t.1) [(a, PA); (b, B)]).
  eapply returns_mono; [apply dsm_loop_p3_terms; [terms_scalars|terms_body]|]. intros o. apply p3_terms.
Qed.

Lemma double_precomp2_p3_ok a Ai PA b Bi PB : scalar_ok a -> scalar_ok b -> odd_multiples cached_ok Ai PA -> odd_multiples cached_ok Bi PB ->
  returns (ge_double_scalarmult_precomp_vartime2_p3 a Ai b Bi) (p3_unless_zero a b (smul (le_value a) PA + smul (le_value b) PB)).
Proof.
  intros Ha Hb HA HB. unfold ge_double_scalarmult_precomp_vartime2_p3.
  change [slide a; slide b] with (map (fun t => slide t.1) [(a, PA); (b, PB)]).
  eapply returns_mono; [apply dsm_loop_p3_terms; [terms_scalars|terms_body]|]. intros o. apply p3_terms.
Qed.

End Sums.

(** ** Selection from a table *)

Section Select.
Open Scope group_scope.

(** Entry [k] stands for the multiple [k+1]. *)
Definition multiples_ok {T} (ok : T -> point -> Prop) (Ai : list T) (A : point) : Prop :=
  forall k, (k < 8)%nat -> exists c, Ai !! k = Some c /\ ok c (smul (Z.of_nat k + 1) A).

Definition select_digit (b : Z) : Prop := (-8 <= b <= 8)%Z.

(** On digits the branch-free tests are the tests they stand for. *)
Lemma digit_tests b : select_digit b ->
  negative b = Z.b2z (bool_decide (b < 0)%Z) /\ abs_digit b = Z.abs b /\
  Forall (fun j => equal (abs_digit b) (Z.of_nat j + 1) = Z.b2z (bool_decide (Z.abs b = Z.of_nat j + 1)%Z)) (seq 0 8).
Proof.
  intros Hb. assert (Forall (fun b => negative b = Z.b2z (bool_decide (b < 0)%Z) /\ abs_digit b = Z.abs b /\
    Forall (fun j => equal (abs_digit b) (Z.of_nat j + 1) = Z.b2z (bool_decide (Z.abs b = Z.of_nat j + 1)%Z)) (seq 0 8)) (seqZ (-8) 17)) as H.
  { apply (bool_decide_unpack _). by vm_compute. }
  rewrite Forall_forall in H. apply H, elem_of_seqZ. unfold select_digit in Hb. lia.
Qed.

Lemma rep_cmov c f g x y (b : bool) : rep c f x -> rep c g y -> (0 <= c <= 6000)%Z -> fe_cmov f g (Z.b2z b) = if b then g else f.
Proof. intros [Hf _] [Hg _] Hc. by apply (fe_cmov_spec c). Qed.

Lemma ge_cached_cmov_ok t u P Q (b : bool) : cached_ok t P -> cached_ok u Q -> ge_cached_cmov t u (Z.b2z b) = if b then u else t.
Proof.
  destruct t as [t1 t2 t3 t4], u as [u1 u2 u3 u4]. intros (z & _ & H1 & H2 & H3 & H4) (w & _ & K1 & K2 & K3 & K4).
  cbn [YplusX YminusX Zc T2d] in *. unfold ge_cached_cmov. cbn [YplusX YminusX Zc T2d].
  rewrite (rep_cmov _ t1 u1 _ _ b H1 K1 ltac:(lia)), (rep_cmov _ t2 u2 _ _ b H2 K2 ltac:(lia)),
    (rep_cmov _ t3 u3 _ _ b H3 K3 ltac:(lia)), (rep_cmov _ t4 u4 _ _ b H4 K4 ltac:(lia)). by destruct b.
Qed.

Lemma ge_precomp_cmov_ok t u P Q (b : bool) : precomp_ok t P -> precomp_ok u Q -> ge_precomp_cmov t u (Z.b2z b) = if b then u else t.
Proof.
  destruct t as [t1 t2 t3], u as [u1 u2 u3]. intros (H1 & H2 & H3) (K1 & K2 & K3).
  cbn [yplusx yminusx xy2d] in *. unfold ge_precomp_cmov. cbn [yplusx yminusx xy2d].
  rewrite (rep_cmov _ t1 u1 _ _ b H1 K1 ltac:(lia)), (rep_cmov _ t2 u2 _ _ b H2 K2 ltac:(lia)),
    (rep_cmov _ t3 u3 _ _ b H3 K3 ltac:(lia)). by destruct b.
Qed.

(** A fold of conditional moves picks the entry. *)
Lemma select_fold {T} (ok : T -> point -> Prop) (cmov : T -> T -> Z -> T) (d : T) Ai A b :
  (forall t u P Q (c : bool), ok t P -> ok u Q -> cmov t u (Z.b2z c) = if c then u else t) -> ok d gzero ->
  multiples_ok ok Ai A -> select_digit b ->
  ok (foldl (fun t j => cmov t (nth j Ai d) (equal (abs_digit b) (Z.of_nat j + 1))) d (seq 0 8)) (smul (Z.abs b) A).
Proof.
  intros Hcmov Hd HA Hb. destruct (digit_tests b Hb) as (_ & Ea & Heq). rewrite Forall_forall in Heq. unfold select_digit in Hb.
  assert (forall n, (n <= 8)%nat -> ok (foldl (fun t j => cmov t (nth j Ai d) (equal (abs_digit b) (Z.of_nat j + 1))) d (seq 0 n))
    (if decide (Z.abs b <= Z.of_nat n)%Z then smul (Z.abs b) A else gzero)) as Hn.
  { induction n as [|n IH]; intros Hn.
    - cbn. case_decide as E; [|done]. by replace (Z.abs b) with 0%Z by lia.
    - rewrite seq_S, foldl_app. cbn [foldl Nat.add]. destruct (HA n) as (c & Ec & Hc); [lia|].
      rewrite (Heq n) by (apply elem_of_seq; lia). replace (nth n Ai d) with c by (symmetry; by apply nth_lookup_Some).
      erewrite Hcmov; [|apply IH; lia|exact Hc]. case_bool_decide as E.
      + rewrite decide_True by lia. by rewrite E.
      + specialize (IH ltac:(lia)). repeat case_decide; try done; lia. }
  specialize (Hn 8%nat ltac:(lia)). by rewrite decide_True in Hn by lia.
Qed.

Section Negation.
Open Scope Zmod_scope.
Add Ring F_ring : (Zmod.ring_theory p25519).

Lemma cached_neg_ok c m P : cached_ok c P -> (forall x, rep 101 (T2d c) x -> rep 101 m (- x)) ->
  cached_ok (Cached (fe_copy (YminusX c)) (fe_copy (YplusX c)) (fe_copy (Zc c)) m) (gneg P).
Proof.
  intros (z & Hz & H1 & H2 & H3 & H4) Hm. exists z. split; [done|]. cbn [YplusX YminusX Zc T2d].
  rewrite !fe_copy_spec by (by eapply rep_length). change (gneg P) with (ed_neg P). cbn [ed_neg px py].
  split_and!; [eapply rep_eq; [exact H2|ring]|eapply rep_eq; [exact H1|ring]|done|].
  eapply rep_eq; [by apply Hm|]. generalize ed_d F2. intros. ring.
Qed.

Lemma precomp_neg_ok c m P : precomp_ok c P -> (forall x, rep 101 (xy2d c) x -> rep 101 m (- x)) ->
  precomp_ok (Precomp (fe_copy (yminusx c)) (fe_copy (yplusx c)) m) (gneg P).
Proof.
  intros (H1 & H2 & H3) Hm. unfold precomp_ok. cbn [yplusx yminusx xy2d].
  rewrite !fe_copy_spec by (by eapply rep_length). change (gneg P) with (ed_neg P). cbn [ed_neg px py].
  split_and!; [eapply rep_eq; [exact H2|ring]|eapply rep_eq; [exact H1|ring]|].
  eapply rep_eq; [by apply Hm|]. generalize ed_d F2. intros. ring.
Qed.
End Negation.

Lemma select_sign {T} (ok : T -> point -> Prop) t m P b : ok t (smul (Z.abs b) P) -> ok m (- smul (Z.abs b) P) ->
  ok (if bool_decide (b < 0)%Z then m else t) (smul b P).
Proof.
  intros Ht Hm. case_bool_decide.
  - assert (smul b P = - smul (Z.abs b) P) as ->; [|done]. rewrite <- smul_opp. f_equal. lia.
  - by replace (Z.abs b) with b in Ht by lia.
Qed.

Lemma cached_select_ok Ai A b : multiples_ok cached_ok Ai A -> select_digit b ->
  returns (cached_select Ai b) (fun c => cached_ok c (smul b A)).
Proof.
  intros HA Hb. unfold cached_select. pose proof (select_fold cached_ok ge_cached_cmov ge_cached_0 Ai A b ge_cached_cmov_ok ge_cached_0_ok HA Hb) as Ht.
  destruct (digit_tests b Hb) as (En & _). rewrite En. set (t := foldl _ _ _) in *. clearbody t.
  pose proof Ht as (z & _ & _ & _ & _ & H4). eapply returns_bind; [eapply fe_neg_ok; [exact H4|lia]|]. cbn beta. intros m Hm.
  assert (cached_ok (Cached (fe_copy (YminusX t)) (fe_copy (YplusX t)) (fe_copy (Zc t)) m) (- smul (Z.abs b) A)) as Hmin.
  { apply cached_neg_ok; [done|]. intros x Hx. eapply rep_eq; [exact Hm|]. f_equal. destruct H4 as [_ <-], Hx as [_ <-]. done. }
  apply returns_some. erewrite ge_cached_cmov_ok by eassumption. by apply select_sign.
Qed.

Lemma select_ok row A b : multiples_ok precomp_ok row A -> select_digit b -> returns (select row b) (fun c => precomp_ok c (smul b A)).
Proof.
  intros HA Hb. unfold select. pose proof (select_fold precomp_ok ge_precomp_cmov ge_precomp_0 row A b ge_precomp_cmov_ok ge_precomp_0_ok HA Hb) as Ht.
  destruct (digit_tests b Hb) as (En & _). rewrite En. set (t := foldl _ _ _) in *. clearbody t.
  pose proof Ht as (_ & _ & H3). eapply returns_bind; [eapply fe_neg_ok; [exact H3|lia]|]. cbn beta. intros m Hm.
  assert (precomp_ok (Precomp (fe_copy (yminusx t)) (fe_copy (yplusx t)) m) (- smul (Z.abs b) A)) as Hmin.
  { apply precomp_neg_ok; [done|]. intros x Hx. eapply rep_eq; [exact Hm|]. f_equal. destruct H3 as [_ <-], Hx as [_ <-]. done. }
  apply returns_some. erewrite ge_precomp_cmov_ok by eassumption. by apply select_sign.
Qed.

End Select.

(** ** Fixed windows *)

(** Digits from the lowest, with weights [16^i]. *)
Definition hval (r : list Z) : Z := foldr (fun x v => x + 16 * v) 0 r.

Lemma hval_app l r : hval (l ++ r) = hval l + 16 ^ Z.of_nat (length l) * hval r.
Proof.
  unfold hval. induction l as [|x l IH]; cbn [foldr app length]; [lia|]. rewrite IH, Nat2Z.inj_succ, Z.pow_succ_r by lia. lia.
Qed.

Lemma hval_cons x r : hval (x :: r) = x + 16 * hval r.
Proof. done. Qed.

Lemma radix16_digit c x : 0 <= c <= 1 -> 0 <= x < 256 ->
  let c2 := Z.shiftr (c + x + 8) 4 in
  sint 8 (c + x - Z.shiftl c2 4) = c + x - 16 * c2 /\ select_digit (c + x - 16 * c2) /\ 0 <= c2 <= 16.
Proof.
  intros Hc Hx. cbn zeta. rewrite Z.shiftr_div_pow2, Z.shiftl_mul_pow2 by lia. change (2 ^ 4) with 16. unfold select_digit.
  assert (-8 <= c + x - 16 * ((c + x + 8) / 16) <= 8 /\ 0 <= (c + x + 8) / 16 <= 16) as [H1 H2] by (zdm; lia).
  rewrite Z.mul_comm, sint8_small by lia. done.
Qed.

Lemma radix16_step_ok k e x : 0 <= k <= 1 -> Forall select_digit e -> 0 <= x < 256 ->
  exists k' e', radix16_step (k, e) x = (k', e') /\ 0 <= k' <= 1 /\ Forall select_digit e' /\ length e' = (2 + length e)%nat /\
    hval e' + 16 ^ Z.of_nat (length e') * k' = hval e + 16 ^ Z.of_nat (length e) * (k + x).
Proof.
  intros Hk He Hx. unfold radix16_step. destruct (radix16_digit k x Hk Hx) as (E0 & D0 & H2). set (c2 := Z.shiftr (k + x + 8) 4) in *.
  destruct (radix16_digit 0 c2) as (E1 & D1 & H3); [lia|lia|]. rewrite !Z.add_0_l in *. set (c3 := Z.shiftr (c2 + 8) 4) in *.
  assert (0 <= c3 <= 1) as H4 by (unfold c3; rewrite Z.shiftr_div_pow2 by lia; change (2 ^ 4) with 16; zdm; lia).
  rewrite E0, E1. eexists _, _. split; [done|]. split; [done|]. split; [by rewrite Forall_app, !Forall_cons|].
  rewrite length_app, hval_app. cbn [length hval foldr]. split; [lia|].
  replace (length e + 2)%nat with (S (S (length e))) by lia. rewrite !Nat2Z.inj_succ, !Z.pow_succ_r by lia. lia.
Qed.

Lemma radix16_fold_ok l k e : Forall (is_uint 8) l -> 0 <= k <= 1 -> Forall select_digit e ->
  exists k' e', foldl radix16_step (k, e) l = (k', e') /\ 0 <= k' <= 1 /\ Forall select_digit e' /\ length e' = (2 * length l + length e)%nat /\
    hval e' + 16 ^ Z.of_nat (length e') * k' = hval e + 16 ^ Z.of_nat (length e) * (k + le_value l).
Proof.
  intros Hl. revert k e; induction Hl as [|x l Hx Hl IH]; intros k e Hk He; cbn [foldl].
  { exists k, e. change (le_value []) with 0. rewrite Z.add_0_r. split_and!; try done; lia. }
  destruct (radix16_step_ok k e x Hk He Hx) as (k1 & e1 & -> & Hk1 & He1 & Hl1 & E1).
  destruct (IH k1 e1 Hk1 He1) as (k2 & e2 & -> & Hk2 & He2 & Hl2 & E2). exists k2, e2.
  do 3 (split; [done|]). split; [cbn [length]; lia|].
  rewrite E2, le_value_cons, Z.mul_add_distr_l. rewrite Z.add_assoc, E1, Hl1.
  replace (2 + length e)%nat with (S (S (length e))) by lia. rewrite !Nat2Z.inj_succ, !Z.pow_succ_r by lia. lia.
Qed.

Lemma key_last a : is_key a -> a = take 31 a ++ [byte a 31].
Proof.
  intros [Hl _]. rewrite <- (take_drop 31 a) at 1. f_equal. unfold byte. do 32 (destruct a as [|? a]; [done|]). by destruct a.
Qed.

Lemma radix16_ok a : is_key a -> byte a 31 <= 127 -> length (radix16 a) = 64%nat /\ Forall select_digit (radix16 a) /\ hval (radix16 a) = le_value a.
Proof.
  intros Ha H31. pose proof Ha as [Hl Hb]. pose proof (key_last a Ha) as E. rewrite E in Hb. apply Forall_app in Hb as [Hb Hx].
  apply Forall_cons in Hx as [Hx _]. unfold is_u8, is_uint in Hx. change (2 ^ 8) with 256 in Hx. unfold radix16.
  destruct (radix16_fold_ok (take 31 a) 0 [] Hb) as (k & e & -> & Hk & He & Hle & Ev); [lia|done|].
  rewrite length_take_le in Hle by lia. cbn [length] in Hle, Ev. change (2 * 31 + 0)%nat with 62%nat in Hle.
  destruct (radix16_digit k (byte a 31)) as (E0 & D0 & H2); [done|lia|]. set (x := byte a 31) in *. set (c2 := Z.shiftr (k + x + 8) 4) in *.
  assert (0 <= c2 <= 8) as H8 by (unfold c2; rewrite Z.shiftr_div_pow2 by lia; change (2 ^ 4) with 16; zdm; lia).
  rewrite E0, sint8_small by lia. rewrite length_app, hval_app, Hle. split; [done|].
  split; [rewrite Forall_app, !Forall_cons; unfold select_digit in *; split_and!; done || lia|].
  rewrite E. rewrite le_value_app, length_take_le by lia. rewrite Hle in Ev. cbn [hval foldr le_value] in Ev |- *.
  rewrite le_value_cons. change (le_value []) with 0. change (16 ^ Z.of_nat 62) with (2 ^ 248) in *. change (256 ^ Z.of_nat 31) with (2 ^ 248). change (16 ^ Z.of_nat 0) with 1 in Ev. lia.
Qed.

Section Multiplication.
Open Scope group_scope.

Lemma multiples_step n A PA c m : p3_ok A PA -> cached_ok c (smul m PA) ->
  returns (multiples n A c) (fun cs => forall k, (k < n)%nat -> exists c', cs !! k = Some c' /\ cached_ok c' (smul (m + Z.of_nat (S k)) PA)).
Proof.
  revert c m; induction n as [|n IH]; intros c m HA Hc; cbn [multiples].
  { apply returns_some. intros k Hk. lia. }
  do 3 ge_step. match goal with H : cached_ok ?d (PA + smul m PA) |- _ => rename d into c', H into Hc' end.
  assert (PA + smul m PA = smul (m + 1) PA) as E by group_ring. rewrite E in Hc'.
  eapply returns_bind; [apply (IH c' (m + 1)%Z HA Hc')|]. intros cs Hcs. apply returns_some. intros [|k] Hk.
  - exists c'. split; [done|]. by replace (m + Z.of_nat 1)%Z with (m + 1)%Z by lia.
  - destruct (Hcs k) as (c'' & E' & Hc''); [lia|]. exists c''. split; [done|].
    by replace (m + Z.of_nat (S (S k)))%Z with (m + 1 + Z.of_nat (S k))%Z by lia.
Qed.

Lemma scalarmult_table_ok A PA : p3_ok A PA -> returns (scalarmult_table A) (fun Ai => multiples_ok cached_ok Ai PA).
Proof.
  intros HA. unfold scalarmult_table. ge_step. match goal with H : cached_ok ?c PA |- _ => rename c into c0, H into Hc end.
  rewrite <- (smul_1 PA) in Hc at 1. eapply returns_bind; [eapply multiples_step; eassumption|]. cbn beta. intros cs Hcs. apply returns_some.
  intros [|k] Hk; [by exists c0|]. destruct (Hcs k) as (c' & E & Hc'); [lia|]. exists c'. split; [done|].
  by replace (Z.of_nat (S k) + 1)%Z with (1 + Z.of_nat (S k))%Z by lia.
Qed.

Section Digits.
Context (Ai : list ge_cached) (A : point).
Hypothesis Ai_ok : multiples_ok cached_ok Ai A.

Lemma scalarmult_digit_ok b r P : select_digit b -> p2_ok r P ->
  returns (scalarmult_digit Ai b r) (fun t => p1p1_ok t (smul 16 P + smul b A)).
Proof.
  intros Hb Hr. unfold scalarmult_digit. do 8 ge_step. eapply returns_bind; [by apply cached_select_ok|]. cbn beta. intros c Hc.
  eapply returns_mono; [eapply ge_add_ok; eassumption|]. cbn beta. intros t Ht. eapply eq_ind; [exact Ht|]. group_ring.
Qed.

Lemma scalarmult_loop_ok ds r k : Forall select_digit ds -> p2_ok r (smul k A) ->
  returns (scalarmult_loop Ai ds r) (fun r => p2_ok r (smul (foldl (fun k d => d + 16 * k)%Z k ds) A)).
Proof.
  intros Hds. revert r k; induction Hds as [|d ds Hd Hds IH]; intros r k Hr; cbn [scalarmult_loop foldl]; [by apply returns_some|].
  eapply returns_bind; [by apply scalarmult_digit_ok|]. cbn beta. intros t Ht. ge_step. apply IH.
  eapply eq_ind; [eassumption|]. group_ring.
Qed.
End Digits.

Lemma hval_rev e : foldl (fun k d => d + 16 * k)%Z 0%Z (rev e) = hval e.
Proof. unfold hval. induction e as [|x e IH]; [done|]. cbn [rev foldr]. by rewrite foldl_app, IH. Qed.

Lemma ge_scalarmult_ok a A PA : is_key a -> (byte a 31 <= 127)%Z -> p3_ok A PA ->
  returns (ge_scalarmult a A) (fun r => p2_ok r (smul (le_value a) PA)).
Proof.
  intros Ha H31 HA. destruct (radix16_ok a Ha H31) as (_ & Hd & <-). unfold ge_scalarmult.
  eapply returns_bind; [by apply scalarmult_table_ok|]. cbn beta. intros Ai HAi. rewrite <- hval_rev.
  apply scalarmult_loop_ok; [done|by apply Forall_rev|]. rewrite smul_0. apply ge_p2_0_ok.
Qed.

Lemma ge_scalarmult_p3_ok a A PA : is_key a -> (byte a 31 <= 127)%Z -> p3_ok A PA ->
  returns (ge_scalarmult_p3 a A) (fun r => p3_ok r (smul (le_value a) PA)).
Proof.
  intros Ha H31 HA. destruct (radix16_ok a Ha H31) as (Hl & Hd & <-). unfold ge_scalarmult_p3. set (e := radix16 a) in *. clearbody e.
  destruct e as [|e0 e]; [done|]. cbn [length] in Hl. apply Forall_cons in Hd as [Hd0 Hd].
  eapply returns_bind; [by apply scalarmult_table_ok|]. cbn beta. intros Ai HAi. cbn [rev]. rewrite take_app_length' by (rewrite length_rev; lia).
  eapply returns_bind; [apply (scalarmult_loop_ok Ai PA HAi _ _ 0); [by apply Forall_rev|rewrite smul_0; apply ge_p2_0_ok]|].
  cbn beta. intros r Hr. rewrite hval_rev in Hr. change (limb (e0 :: e) 0) with e0.
  eapply returns_bind; [by apply scalarmult_digit_ok|]. cbn beta. intros t Ht. eapply returns_mono; [by apply ge_p1p1_to_p3_ok|].
  cbn beta. intros p Hp. eapply eq_ind; [exact Hp|]. rewrite hval_cons. group_ring.
Qed.

(** The digits of [ge_scalarmult_base]. *)
Lemma nibbles_list a : is_key a -> nibbles a = concat (map (fun x => [Z.land (Z.shiftr x 0) 15; Z.land (Z.shiftr x 4) 15]) a).
Proof.
  intros [Hl _]. unfold nibbles. f_equal. rewrite <- (map_map (byte a) (fun x => [Z.land (Z.shiftr x 0) 15; Z.land (Z.shiftr x 4) 15])).
  f_equal. by apply (map_limb a 32).
Qed.

Lemma nibble_pair x : is_u8 x -> let l := Z.land (Z.shiftr x 0) 15 in let h := Z.land (Z.shiftr x 4) 15 in
  (0 <= l <= 15 /\ 0 <= h <= 15 /\ l + 16 * h = x /\ h = x / 16)%Z.
Proof.
  intros Hx. unfold is_u8, is_uint in Hx. change (2 ^ 8)%Z with 256%Z in Hx. cbn zeta. change 15%Z with (Z.ones 4).
  rewrite !Z.land_ones, !Z.shiftr_div_pow2 by lia. change (2 ^ 0)%Z with 1%Z. change (2 ^ 4)%Z with 16%Z. change (Z.ones 4) with 15%Z. zdm; lia.
Qed.

Definition nibble (x : Z) : Prop := (0 <= x <= 15)%Z.

Lemma nibbles_value l : bytes_ok l -> let e := concat (map (fun x => [Z.land (Z.shiftr x 0) 15; Z.land (Z.shiftr x 4) 15]) l) in
  length e = (2 * length l)%nat /\ Forall nibble e /\ hval e = le_value l /\ last e = (fun x => x / 16)%Z <$> last l.
Proof.
  cbn zeta. induction 1 as [|x l Hx Hl (E1 & E2 & E3 & E4)]; [done|]. cbn [map concat app]. destruct (nibble_pair x Hx) as (H1 & H2 & H3 & H4).
  set (e := concat _) in *. split; [cbn [length]; lia|]. split; [by rewrite !Forall_cons|]. rewrite le_value_cons, <- E3.
  split; [rewrite !hval_cons; lia|]. rewrite last_cons, last_cons, E4, last_cons. destruct (last l); [done|]. cbn. by rewrite H4.
Qed.

Lemma signed_digits_ok e c : (0 <= c <= 1)%Z -> Forall nibble e -> (forall x, last e = Some x -> (x <= 7)%Z) -> e <> [] ->
  length (signed_digits c e) = length e /\ Forall select_digit (signed_digits c e) /\ hval (signed_digits c e) = (hval e + c)%Z.
Proof.
  revert c; induction e as [|x e IH]; intros c Hc He Hl Hne; [done|]. apply Forall_cons in He as [Hx He]. unfold nibble in Hx.
  destruct e as [|y e].
  - specialize (Hl x eq_refl). cbn [signed_digits]. rewrite sint8_small by lia. rewrite Forall_cons. unfold select_digit, hval. cbn [length foldr].
    split_and!; [done|lia|lia|done|lia].
  - change (signed_digits c (x :: y :: e)) with (let x := sint 8 (x + c) in let carry := Z.shiftr (sint 8 (x + 8)) 4 in
      sint 8 (x - Z.shiftl carry 4) :: signed_digits carry (y :: e)). cbn zeta.
    rewrite (sint8_small (x + c)), (sint8_small (x + c + 8)) by lia.
    rewrite Z.shiftr_div_pow2, Z.shiftl_mul_pow2 by lia. change (2 ^ 4)%Z with 16%Z.
    assert (0 <= (x + c + 8) / 16 <= 1 /\ -8 <= x + c - (x + c + 8) / 16 * 16 <= 8)%Z as [Hc' Hd] by (zdm; lia).
    rewrite sint8_small by lia. destruct (IH _ Hc' He) as (E1 & E2 & E3); [intros z Hz; by apply Hl|done|].
    set (r := signed_digits _ _) in *. split; [cbn [length] in *; lia|]. split; [by rewrite Forall_cons|].
    rewrite !hval_cons in *. lia.
Qed.

Lemma base_digits_ok a : is_key a -> (byte a 31 <= 127)%Z -> let e := signed_digits 0 (nibbles a) in
  length e = 64%nat /\ Forall select_digit e /\ hval e = le_value a.
Proof.
  intros Ha H31. pose proof Ha as [Hl Hb]. rewrite nibbles_list by done. destruct (nibbles_value a Hb) as (E1 & E2 & E3 & E4).
  set (e := concat _) in *. clearbody e. destruct (signed_digits_ok e 0) as (D1 & D2 & D3); [lia|done| |intros ->; by rewrite Hl in E1|].
  - intros x Hx. rewrite E4, (key_last a Ha), last_snoc in Hx. cbn in Hx. injection Hx as <-. zdm; lia.
  - cbn zeta. rewrite D1, D3, E1, E3, Hl. split_and!; [done|done|lia].
Qed.

Section Base.
Context (ge_base : list (list ge_precomp)) (B : point).
Hypothesis base_ok : forall k, (k < 32)%nat -> multiples_ok precomp_ok (nth k ge_base []) (smul (256 ^ Z.of_nat k) B).

Lemma base_step_ok e i h P : Forall select_digit e -> (i < 64)%nat -> p3_ok h P ->
  returns (base_step ge_base e (Some h) i) (fun r => p3_ok r (P + smul (limb e i) (smul (256 ^ Z.of_nat (i / 2)) B))).
Proof.
  intros He Hi Hh. assert (select_digit (limb e i)) as Hd.
  { unfold limb. destruct (nth_lookup_or_length e i 0%Z) as [E|Ho]; [by eapply Forall_lookup_1|]. rewrite nth_overflow by done. by vm_compute. }
  unfold base_step. eapply returns_bind; [by apply (returns_some h (fun h => p3_ok h P))|]. cbn beta. clear h Hh. intros h Hh.
  eapply returns_bind; [apply select_ok; [apply base_ok; apply Nat.Div0.div_lt_upper_bound; lia|exact Hd]|]. cbn beta. intros t Ht. ge_step.
  apply ge_p1p1_to_p3_ok. assumption.
Qed.

Lemma base_fold_ok e l h P : Forall select_digit e -> Forall (fun i => i < 64)%nat l -> p3_ok h P ->
  returns (foldl (base_step ge_base e) (Some h) l) (fun r => p3_ok r (P + gsum (map (fun i => smul (limb e i) (smul (256 ^ Z.of_nat (i / 2)) B)) l))).
Proof.
  intros He Hl. revert h P; induction Hl as [|i l Hi Hl IH]; intros h P Hh; cbn [foldl map].
  { apply returns_some. change (gsum []) with (gzero (G := point)). by rewrite gadd_0_r. }
  destruct (base_step_ok e i h P He Hi Hh) as (r & E & Hr). rewrite E.
  eapply returns_mono; [apply IH; exact Hr|]. cbn beta. intros p Hp. rewrite gsum_cons, gadd_assoc. exact Hp.
Qed.

(** Even and odd digits together. *)
Lemma base_sum e n : (2 * n <= length e)%nat ->
  smul 16 (gsum (map (fun i => smul (limb e i) (smul (256 ^ Z.of_nat (i / 2)) B)) (map (fun k => 2 * k + 1)%nat (seq 0 n)))) +
  gsum (map (fun i => smul (limb e i) (smul (256 ^ Z.of_nat (i / 2)) B)) (map (fun k => 2 * k)%nat (seq 0 n))) = smul (hval (take (2 * n) e)) B.
Proof.
  induction n as [|n IH]; intros Hn.
  { change (smul 16 gzero + gzero = smul 0 B). by rewrite smul_zero, gadd_0_l. }
  destruct (lookup_lt_is_Some_2 e (2 * n) ltac:(lia)) as [x Hx]. destruct (lookup_lt_is_Some_2 e (S (2 * n)) ltac:(lia)) as [y Hy].
  replace (2 * S n)%nat with (S (S (2 * n))) by lia. rewrite (take_S_r _ _ _ Hy), (take_S_r _ _ _ Hx), <- app_assoc, hval_app, length_take_le by lia.
  rewrite seq_S, !map_app, !gsum_app. cbn [map Nat.add]. rewrite !gsum_cons. change (gsum []) with (gzero (G := point)).
  replace (2 * n + 1)%nat with (S (2 * n)) by lia.
  replace (limb e (2 * n)) with x by (unfold limb; symmetry; by apply nth_lookup_Some).
  replace (limb e (S (2 * n))) with y by (unfold limb; symmetry; by apply nth_lookup_Some).
  replace (2 * n / 2)%nat with n by (rewrite Nat.mul_comm, Nat.div_mul; lia).
  replace (S (2 * n) / 2)%nat with n by (replace (S (2 * n)) with (1 + n * 2)%nat by lia; rewrite Nat.div_add by lia; done).
  specialize (IH ltac:(lia)). set (S1 := gsum _) in *. set (S2 := gsum _) in IH |- *.
  replace (16 ^ Z.of_nat (2 * n))%Z with (256 ^ Z.of_nat n)%Z by (change 256%Z with (16 ^ 2)%Z; rewrite <- Z.pow_mul_r by lia; f_equal; lia).
  change (hval ([x] ++ [y])) with (x + 16 * (y + 16 * 0))%Z. rewrite smul_add, <- IH. group_ring.
Qed.

Definition base_part (e : list Z) (f : nat -> nat) : point :=
  gsum (map (fun i => smul (limb e i) (smul (256 ^ Z.of_nat (i / 2)) B)) (map f (seq 0 32))).

Lemma base_part_ok e f h P : Forall select_digit e -> (forall k, k < 32 -> f k < 64)%nat -> p3_ok h P ->
  returns (foldl (base_step ge_base e) (Some h) (map f (seq 0 32))) (fun r => p3_ok r (P + base_part e f)).
Proof.
  intros He Hf Hh. apply base_fold_ok; [exact He| |exact Hh]. apply Forall_map, Forall_seq. intros j Hj. apply Hf. lia.
Qed.

Lemma base_total e : length e = 64%nat ->
  smul 16 (base_part e (fun k => 2 * k + 1)%nat) + base_part e (fun k => 2 * k)%nat = smul (hval e) B.
Proof. intros Hl. unfold base_part. rewrite base_sum by lia. rewrite take_ge by lia. reflexivity. Qed.

Lemma base_middle_ok e h P Q : Forall select_digit e -> p3_ok h P -> smul 16 P + base_part e (fun k => 2 * k)%nat = Q ->
  returns (r ← ge_p3_dbl h; s ← ge_p1p1_to_p2 r; r ← ge_p2_dbl s; s ← ge_p1p1_to_p2 r; r ← ge_p2_dbl s; s ← ge_p1p1_to_p2 r;
           r ← ge_p2_dbl s; h ← ge_p1p1_to_p3 r; foldl (base_step ge_base e) (Some h) (map (fun k => 2 * k)%nat (seq 0 32)))
          (fun r => p3_ok r Q).
Proof.
  intros He Hh <-. do 8 ge_step. eapply returns_mono; [eapply base_part_ok; [exact He|lia|eassumption]|].
  cbn beta. intros r Hr. eapply eq_ind; [exact Hr|]. group_ring.
Qed.

Lemma ge_scalarmult_base_ok a : is_key a -> (byte a 31 <= 127)%Z ->
  returns (ge_scalarmult_base ge_base a) (fun r => p3_ok r (smul (le_value a) B)).
Proof.
  intros Ha H31. pose proof (base_digits_ok a Ha H31) as H. cbn zeta in H. destruct H as (Hl & Hd & Hv). rewrite <- Hv.
  unfold ge_scalarmult_base. cbn zeta. clear Hv. revert Hl Hd. generalize (signed_digits 0 (nibbles a)). intros e Hl Hd.
  eapply returns_bind; [apply (base_part_ok e (fun k => 2 * k + 1)%nat _ gzero Hd); [lia|apply ge_p3_0_ok]|].
  cbn beta. intros h Hh. rewrite gadd_0_l in Hh. apply (base_middle_ok e h _ _ Hd Hh). apply base_total. exact Hl.
Qed.
End Base.

End Multiplication.
