(* ===== verification/CurveOrder.v ===== *)
(** * The order of the curve

    The group of the curve has [8 ell] elements, [ell] the prime of the scalar
    arithmetic: the base point has order [ell], a point of order eight exists,
    and a point outside the group they generate would make more points than
    there are encodings.  So eight times any point (as [ge_mul8] and the
    cofactor checks compute it) lies in the subgroup of order [ell], and that
    subgroup is the multiples of the base point: the facts the signature code
    relies on. *)

From Stdlib Require Import Zmod.
From S2P Require Import Prelude Limbs ScalarOps Primes FieldOps Group Edwards GroupOps ScalarMult CurveTables.

(** ** Multiples in projective coordinates *)

(** Addition of a table entry. *)
Definition proj_madd (q : Z * Z * Z) (x2 y2 t2 : Z) : Z * Z * Z :=
  let '(X, Y, Z) := q in
  let a := fmul (Y - X) (y2 - x2) in
  let b := fmul (Y + X) (y2 + x2) in
  let k := fmul t2 (fmul X Y) in
  let zz := 2 * fmul Z Z in
  (fmul (fmul (b - a) Z) (zz - k), fmul (fmul (b + a) Z) (zz + k), fmul (zz + k) (zz - k)).

Section Projective.
Open Scope Zmod_scope.
Add Ring F_ring_order : (Zmod.ring_theory p25519).

Lemma proj_madd_ok q x2 y2 t2 P R : proj_at q P -> px R = of_Z x2 -> py R = of_Z y2 -> of_Z t2 = F2 * ed_d * px R * py R ->
  proj_at (proj_madd q x2 y2 t2) (P + R)%G.
Proof.
  destruct q as [[X Y] Z]. intros (Hz & EX & EY) Ex Ey Et. unfold proj_madd, proj_at.
  repeat rewrite ?Zmod.of_Z_add, ?Zmod.of_Z_sub, ?fmul_ok, ?Zmod.of_Z_mul. rewrite EX, EY, Et, <- Ex, <- Ey, of_Z_2.
  generalize dependent (of_Z Z). intros z Hz _ _. unfold F2.
  destruct (group_add_spec P R) as [Fx Fy], (ed_denominators P R) as [Dx Dy].
  set (D1 := 1 + ed_d * px P * px R * py P * py R) in *. set (D2 := 1 - ed_d * px P * px R * py P * py R) in *.
  assert ((1 + 1) * (z * z) + (1 + 1) * ed_d * px R * py R * (px P * z * (py P * z)) = (1 + 1) * (z * z) * D1) as -> by (unfold D1; generalize ed_d; intros; ring).
  assert ((1 + 1) * (z * z) - (1 + 1) * ed_d * px R * py R * (px P * z * (py P * z)) = (1 + 1) * (z * z) * D2) as -> by (unfold D2; generalize ed_d; intros; ring).
  clearbody D1 D2. pose proof F2_nz as H2. unfold F2 in H2. split_and!.
  - apply F_mul_nz; (apply F_mul_nz; [apply F_mul_nz; [exact H2|apply F_mul_nz; exact Hz]|assumption]).
  - transitivity ((1 + 1) * (1 + 1) * (z * z) * (z * z) * D2 * (px P * py R + py P * px R)); [ring|]. rewrite <- Fx. ring.
  - transitivity ((1 + 1) * (1 + 1) * (z * z) * (z * z) * D1 * (py P * py R + px P * px R)); [ring|]. rewrite <- Fy. ring.
Qed.

(** The coordinates of an entry are those of its point. *)
Lemma precomp_at r P : precomp_ok r P -> px P = of_Z (entry_x r) /\ py P = of_Z (entry_y r).
Proof.
  intros ([_ E1] & [_ E2] & _). pose proof (fhalf_ok (value fe_weights (yplusx r) - value fe_weights (yminusx r))) as Hx.
  pose proof (fhalf_ok (value fe_weights (yplusx r) + value fe_weights (yminusx r))) as Hy. fold (entry_x r) in Hx. fold (entry_y r) in Hy.
  rewrite Zmod.of_Z_sub in Hx. rewrite Zmod.of_Z_add in Hy. unfold ev in E1, E2. rewrite E1, E2, of_Z_2 in Hx, Hy.
  split; apply two_cancel; [rewrite Hx|rewrite Hy]; ring.
Qed.

Lemma proj_zero q : proj_at q gzero <-> exists X Y Z, q = (X, Y, Z) /\ of_Z Z <> 0 /\ of_Z X = 0 /\ of_Z Y = of_Z Z.
Proof.
  destruct q as [[X Y] Z]. unfold proj_at. change (px gzero) with (0 : F). change (py gzero) with (1 : F). split.
  - intros (Hz & EX & EY). exists X, Y, Z. split; [done|]. split; [exact Hz|]. split; [rewrite EX|rewrite EY]; ring.
  - intros (X' & Y' & Z' & [= <- <- <-] & Hz & EX & EY). split; [exact Hz|]. split; [rewrite EX|rewrite EY]; ring.
Qed.

Lemma point_zero P : px P = of_Z 0 -> py P = of_Z 1 -> P = gzero.
Proof. intros Ex Ey. apply point_eq; assumption. Qed.
End Projective.

(** The multiple [n 256^i B], [n] a nibble, from row [i]. *)
Definition add_entry (q : Z * Z * Z) (r : ge_precomp) : Z * Z * Z := proj_madd q (entry_x r) (entry_y r) (entry_t r).

Definition add_nibble (i : nat) (n : Z) (q : Z * Z * Z) : Z * Z * Z :=
  let row := nth i ge_base [] in
  let pick k := nth (Z.to_nat (k - 1)) row ge_precomp_0 in
  if n =? 0 then q else if n <=? 8 then add_entry q (pick n) else add_entry (add_entry q (pick 8)) (pick (n - 8)).

Lemma add_entry_ok q P r R : proj_at q P -> precomp_ok r R -> proj_at (add_entry q r) (P + R)%G.
Proof.
  intros Hq Hr. destruct (precomp_at r R Hr) as [Ex Ey]. apply proj_madd_ok; [exact Hq|exact Ex|exact Ey|]. by apply entry_t_ok.
Qed.

Lemma pick_ok i k : (i < 32)%nat -> 1 <= k <= 8 ->
  precomp_ok (nth (Z.to_nat (k - 1)) (nth i ge_base []) ge_precomp_0) (smul (k * 256 ^ Z.of_nat i) base_point).
Proof.
  intros Hi Hk. destruct (ge_base_ok i Hi (Z.to_nat (k - 1))) as (c & Ec & Hc); [lia|]. erewrite nth_lookup_Some by exact Ec.
  replace (Z.of_nat (Z.to_nat (k - 1)) + 1) with k in Hc by lia. by rewrite smul_mul.
Qed.

Lemma add_nibble_ok i n q k : (i < 32)%nat -> 0 <= n < 16 -> proj_at q (smul k base_point) ->
  proj_at (add_nibble i n q) (smul (k + n * 256 ^ Z.of_nat i) base_point).
Proof.
  intros Hi Hn Hq. unfold add_nibble. destruct (Z.eqb_spec n 0) as [->|]; [by rewrite Z.add_0_r|]. destruct (Z.leb_spec n 8).
  - rewrite smul_add. apply add_entry_ok; [exact Hq|]. apply pick_ok; lia.
  - replace (k + n * 256 ^ Z.of_nat i) with (k + 8 * 256 ^ Z.of_nat i + (n - 8) * 256 ^ Z.of_nat i) by lia.
    rewrite !smul_add. apply add_entry_ok; [|apply pick_ok; lia]. apply add_entry_ok; [exact Hq|apply pick_ok; lia].
Qed.

(** Nibbles at positions [is], from the low or the high half of each byte. *)
Definition add_nibbles (f : nat -> Z) (l : list nat) (q : Z * Z * Z) : Z * Z * Z := foldl (fun q i => add_nibble i (f i) q) q l.

Lemma add_nibbles_ok f l q k : (forall i, 0 <= f i < 16) -> Forall (fun i => i < 32)%nat l -> proj_at q (smul k base_point) ->
  proj_at (add_nibbles f l q) (smul (foldl (fun k i => k + f i * 256 ^ Z.of_nat i) k l) base_point).
Proof.
  intros Hf Hl. revert q k; induction Hl as [|i l Hi Hl IH]; intros q k Hq; [exact Hq|]. apply IH. by apply add_nibble_ok.
Qed.

(** [m B] for [0 <= m < 2^256]. *)
Definition base_multiple (m : Z) : Z * Z * Z :=
  add_nibbles (fun i => (m / 256 ^ Z.of_nat i) mod 16) (seq 0 32)
    (Nat.iter 4 proj_dbl (add_nibbles (fun i => (m / (16 * 256 ^ Z.of_nat i)) mod 16) (seq 0 32) (0, 1, 1))).

Lemma iter_16 P : Nat.iter 4 (fun P => P + P)%G P = smul 16 P.
Proof. cbn [Nat.iter nat_rect]. group_ring. Qed.

Lemma base_multiple_ok m : foldl (fun k i => k + (m / 256 ^ Z.of_nat i) mod 16 * 256 ^ Z.of_nat i)
    (16 * foldl (fun k i => k + (m / (16 * 256 ^ Z.of_nat i)) mod 16 * 256 ^ Z.of_nat i) 0 (seq 0 32)) (seq 0 32) = m ->
  proj_at (base_multiple m) (smul m base_point).
Proof.
  intros E. match type of E with ?k = _ => enough (proj_at (base_multiple m) (smul k base_point)) as H by (by rewrite E in H) end.
  unfold base_multiple.
  assert (forall a b, 0 <= (a / b) mod 16 < 16) as Hm by (intros; by apply Z.mod_pos_bound).
  assert (Forall (fun i => i < 32)%nat (seq 0 32)) as Hs by (apply Forall_seq; lia).
  apply add_nibbles_ok; [intros; apply Hm|exact Hs|]. rewrite smul_mul, <- iter_16. apply proj_iter_ok. apply add_nibbles_ok; [intros; apply Hm|exact Hs|]. by apply proj_affine.
Qed.

Lemma base_order : smul ell base_point = gzero.
Proof.
  assert (check_proj (base_multiple ell) 0 1 = true) as E by (vm_compute; reflexivity).
  destruct (check_proj_ok _ 0 1 (smul ell base_point) (base_multiple_ok ell ltac:(vm_compute; reflexivity)) E) as [Ex Ey].
  apply point_zero; assumption.
Qed.

(** ** A point of order eight *)

Definition torsion_x : Z := 43496726750457979451437558183816721346016168361625936758514574428539776020131.
Definition torsion_y : Z := 2707385501144840649318225287225658788936804267575313519463743609750303402022.

Section Torsion.
Open Scope Zmod_scope.

Lemma torsion_on_curve : Zmod.eqb (ed_d * of_Z torsion_x * of_Z torsion_x * of_Z torsion_y * of_Z torsion_y)
  (of_Z torsion_y * of_Z torsion_y - of_Z torsion_x * of_Z torsion_x - 1) = true.
Proof. by vm_compute. Qed.

Definition torsion_point : point := Point (of_Z torsion_x) (of_Z torsion_y) torsion_on_curve.

Lemma torsion_doubled n x y : check_proj (Nat.iter n proj_dbl (torsion_x, torsion_y, 1%Z)) x y = true ->
  px (smul (2 ^ Z.of_nat n) torsion_point) = of_Z x /\ py (smul (2 ^ Z.of_nat n) torsion_point) = of_Z y.
Proof.
  intros E. refine (check_proj_ok _ _ _ _ _ E).
  assert (smul (2 ^ Z.of_nat n) torsion_point = Nat.iter n (fun P => P + P)%G torsion_point) as ->.
  { clear. induction n as [|n IH]; [apply smul_1|]. rewrite Nat.iter_succ, <- IH, pow2_S. group_ring. }
  apply proj_iter_ok. by apply proj_affine.
Qed.

Lemma torsion_8 : smul 8 torsion_point = gzero.
Proof. destruct (torsion_doubled 3 0 1) as [Ex Ey]; [vm_compute; reflexivity|]. apply point_zero; [exact Ex|exact Ey]. Qed.

Lemma torsion_4 : smul 4 torsion_point <> gzero.
Proof.
  destruct (torsion_doubled 2 0 (-1)) as [_ Ey]; [vm_compute; reflexivity|]. change (2 ^ Z.of_nat 2)%Z with 4%Z in Ey.
  intros E. rewrite E in Ey. change (py gzero) with (of_Z 1) in Ey. apply of_Z_divide in Ey as [k Ek]. unfold p25519 in Ek. lia.
Qed.

Lemma base_nonzero : base_point <> gzero.
Proof.
  intros E. apply (f_equal px) in E. change (of_Z base_x = of_Z 0) in E. apply of_Z_divide in E as [k Ek]. unfold p25519, base_x in Ek. lia.
Qed.
End Torsion.

Lemma torsion_order k : smul k torsion_point = gzero -> (8 | k).
Proof.
  intros E. assert (smul (k mod 8) torsion_point = gzero) as Em by (by rewrite smul_mod by (apply torsion_8 || done)).
  apply Z.mod_divide; [done|]. destruct (decide (k mod 8 = 0)) as [|Hn]; [done|]. exfalso. apply torsion_4.
  pose proof (Z.mod_pos_bound k 8 ltac:(done)) as Hb.
  assert (exists m, m * (k mod 8) mod 8 = 4) as [m Hm].
  { assert (k mod 8 = 1 \/ k mod 8 = 2 \/ k mod 8 = 3 \/ k mod 8 = 4 \/ k mod 8 = 5 \/ k mod 8 = 6 \/ k mod 8 = 7)
      as [H|[H|[H|[H|[H|[H|H]]]]]] by lia; rewrite H; [exists 4|exists 2|exists 4|exists 1|exists 4|exists 2|exists 4]; done. }
  rewrite <- Hm, smul_mod, smul_mul, Em by (apply torsion_8 || done). apply smul_zero.
Qed.

(** A multiple of a point of order [ell] vanishes only for multiples of [ell]. *)
Lemma prime_order P k : smul ell P = gzero -> P <> gzero -> smul k P = gzero -> (ell | k).
Proof.
  intros El HP Ek. apply Z.mod_divide; [done|]. destruct (decide (k mod ell = 0)) as [|Hn]; [done|]. exfalso. apply HP.
  pose proof prime_group as Hp. change (2 ^ 252 + 27742317777372353535851937790883648493) with ell in Hp.
  assert (Z.coprime ell k) as Hc by (apply Z.coprime_prime_l; [exact Hp|]; intros Hd; apply Hn; by apply Z.mod_divide).
  apply Z.Bezout_coprime in Hc as (u & v & E). rewrite <- (smul_1 P), <- E, smul_add, !smul_mul, El, Ek, !smul_zero. apply gadd_0_l.
Qed.

(** ** Counting *)

(** No injection of [0 .. n-1] into fewer numbers. *)
Lemma pigeonhole (f : Z -> Z) n m : 0 <= m < n -> (forall k, 0 <= k < n -> 0 <= f k < m) ->
  (forall j k, 0 <= j < n -> 0 <= k < n -> f j = f k -> j = k) -> False.
Proof.
  intros Hm Hf Hinj. assert (NoDup (f <$> seqZ 0 n)) as Hnd.
  { apply NoDup_fmap_2_strong; [|apply NoDup_seqZ]. intros j k Hj%elem_of_seqZ Hk%elem_of_seqZ E. apply Hinj; [lia|lia|exact E]. }
  assert ((f <$> seqZ 0 n) ⊆+ seqZ 0 m) as Hs.
  { apply NoDup_submseteq; [exact Hnd|]. intros x (k & -> & Hk%elem_of_seqZ)%list_elem_of_fmap. apply elem_of_seqZ. specialize (Hf k). lia. }
  apply submseteq_length in Hs. rewrite length_fmap, !length_seqZ in Hs. lia.
Qed.

Definition generated (P : point) : Prop := exists i s, P = (smul i base_point + smul s torsion_point)%G.

Lemma independent i s : (smul i base_point + smul s torsion_point = gzero)%G -> (ell | i) /\ (8 | s).
Proof.
  intros E. assert (8 | s) as Hs.
  { assert (smul (ell * s) torsion_point = gzero) as El.
    { transitivity (smul ell (smul i base_point + smul s torsion_point)%G - smul i (smul ell base_point))%G; [group_ring|].
      rewrite E, base_order, !smul_zero. apply gadd_neg_r. }
    apply torsion_order in El. apply Z.gauss in El; [exact El|]. by vm_compute. }
  split; [|exact Hs]. apply (prime_order base_point); [exact base_order|exact base_nonzero|]. destruct Hs as [k ->].
  rewrite smul_mul, torsion_8, smul_zero, gadd_0_r in E. exact E.
Qed.

(** The point with number [k], out of the multiples of [B], the torsion point
    and [P]. *)
Definition numbered (P : point) (k : Z) : point :=
  (smul (k mod ell) base_point + smul (k / ell mod 8) torsion_point + smul (k / ell / 8) P)%G.

Lemma numbered_inj P j k : ~ generated P -> 0 <= j < 16 * ell -> 0 <= k < 16 * ell -> numbered P j = numbered P k -> j = k.
Proof.
  intros HP Hj Hk E. unfold numbered in E.
  set (i1 := j mod ell) in *. set (s1 := j / ell mod 8) in *. set (b1 := j / ell / 8) in *.
  set (i2 := k mod ell) in *. set (s2 := k / ell mod 8) in *. set (b2 := k / ell / 8) in *.
  assert (0 < ell) as Hl by done.
  assert (0 <= i1 < ell /\ 0 <= i2 < ell) as [Hi1 Hi2] by (split; by apply Z.mod_pos_bound).
  assert (0 <= s1 < 8 /\ 0 <= s2 < 8) as [Hs1 Hs2] by (split; by apply Z.mod_pos_bound).
  assert (forall x, 0 <= x < 16 * ell -> x = x mod ell + ell * (x / ell mod 8 + 8 * (x / ell / 8)) /\ 0 <= x / ell / 8 <= 1) as Hd.
  { intros x Hx. pose proof (Z.div_mod x ell ltac:(lia)). pose proof (Z.div_mod (x / ell) 8 ltac:(lia)).
    assert (0 <= x / ell < 16) by (split; [apply Z.div_pos; lia|apply Z.div_lt_upper_bound; lia]).
    split; [lia|]. zdm; lia. }
  destruct (Hd j Hj) as [Ej Hb1], (Hd k Hk) as [Ek Hb2]. fold i1 s1 b1 in Ej, Hb1. fold i2 s2 b2 in Ek, Hb2.
  assert (smul (i1 - i2) base_point + smul (s1 - s2) torsion_point = smul (b2 - b1) P)%G as ED.
  { apply (gadd_cancel_r (smul i2 base_point + smul s2 torsion_point + smul b1 P)%G).
    transitivity (smul i1 base_point + smul s1 torsion_point + smul b1 P)%G; [group_ring|]. rewrite E. group_ring. }
  assert (b1 = b2) as Hb.
  { destruct (Z.eq_dec b1 b2) as [|Hne]; [done|]. exfalso. apply HP. destruct (Z.eq_dec b2 1) as [->|].
    - exists (i1 - i2), (s1 - s2). rewrite ED. replace (1 - b1) with 1 by lia. by rewrite smul_1.
    - exists (i2 - i1), (s2 - s1). transitivity (- smul (b2 - b1) P)%G; [replace (b2 - b1) with (-1) by lia; group_ring|]. rewrite <- ED. group_ring. }
  rewrite Hb, Z.sub_diag, smul_0 in ED. apply independent in ED as [[u Eu] [v Ev]].
  assert (u = 0) by nia. assert (v = 0) by lia. subst u v. rewrite Ej, Ek. lia.
Qed.

Definition point_number (P : point) : Z := le_value (encode P).

Lemma point_number_range P : 0 <= point_number P < 2 ^ 256.
Proof. apply key_range, encode_key. Qed.

Lemma point_number_inj P Q : point_number P = point_number Q -> P = Q.
Proof.
  unfold point_number. intros E. apply encode_inj. rewrite (key_bytes _ (encode_key P)), (key_bytes _ (encode_key Q)). by rewrite E.
Qed.

Lemma not_not_generated P : ~ ~ generated P.
Proof.
  intros HP. apply (pigeonhole (fun k => point_number (numbered P k)) (16 * ell) (2 ^ 256)).
  - unfold ell. lia.
  - intros k Hk. apply point_number_range.
  - intros j k Hj Hk E. apply (numbered_inj P j k HP Hj Hk). by apply point_number_inj.
Qed.

Lemma generated_cofactor P : generated P -> smul (8 * ell) P = gzero.
Proof.
  intros (i & s & ->). transitivity (smul (8 * i) (smul ell base_point) + smul (ell * s) (smul 8 torsion_point))%G; [group_ring|].
  rewrite base_order, torsion_8, !smul_zero. apply gadd_0_l.
Qed.

(** ** Results *)

(** Eight times a point has order dividing [ell]. *)
Lemma cofactor_order P : smul ell (smul 8 P) = gzero.
Proof.
  rewrite <- smul_mul, Z.mul_comm. destruct (point_eq_dec (smul (8 * ell) P) gzero) as [|Hn]; [done|].
  exfalso. apply (not_not_generated P). intros HP. by apply Hn, generated_cofactor.
Qed.

Lemma generated_bounds P : generated P -> exists i s, 0 <= i < ell /\ 0 <= s < 8 /\ P = (smul i base_point + smul s torsion_point)%G.
Proof.
  intros (i & s & ->). exists (i mod ell), (s mod 8). split; [by apply Z.mod_pos_bound|]. split; [by apply Z.mod_pos_bound|].
  by rewrite !smul_mod by (apply base_order || apply torsion_8 || done).
Qed.

Definition all_points : list point :=
  i ← seqZ 0 ell; s ← seqZ 0 8; [(smul i base_point + smul s torsion_point)%G].

Lemma elem_of_all_points P : P ∈ all_points <-> exists i s, 0 <= i < ell /\ 0 <= s < 8 /\ P = (smul i base_point + smul s torsion_point)%G.
Proof.
  unfold all_points. rewrite list_elem_of_bind. setoid_rewrite list_elem_of_bind. setoid_rewrite elem_of_seqZ. setoid_rewrite list_elem_of_singleton.
  split.
  - intros (i & (s & E & Hs) & Hi). exists i, s. split; [lia|]. split; [lia|exact E].
  - intros (i & s & Hi & Hs & E). exists i. split; [|lia]. exists s. split; [exact E|lia].
Qed.

Lemma all_generated P : exists i s, 0 <= i < ell /\ 0 <= s < 8 /\ P = (smul i base_point + smul s torsion_point)%G.
Proof.
  apply elem_of_all_points. destruct (decide (P ∈ all_points)) as [HP|HP]; [exact HP|]. exfalso. apply (not_not_generated P).
  intros HG. apply HP, elem_of_all_points, generated_bounds, HG.
Qed.

Lemma subgroup_generated P : smul ell P = gzero -> exists i, 0 <= i < ell /\ P = smul i base_point.
Proof.
  intros E. destruct (all_generated P) as (i & s & Hi & Hs & ->). exists i. split; [exact Hi|].
  assert (smul (ell * s) torsion_point = gzero) as El.
  { transitivity (smul ell (smul i base_point + smul s torsion_point)%G - smul i (smul ell base_point))%G; [group_ring|].
    rewrite E, base_order, !smul_zero. apply gadd_neg_r. }
  apply torsion_order in El. apply Z.gauss in El as [k ->]; [|by vm_compute]. by rewrite smul_mul, torsion_8, smul_zero, gadd_0_r.
Qed.

(** C25: The group the code computes in.  The curve has exactly [8 ell] points:
    each is a multiple of the base point below [ell] plus a multiple of the
    point of order eight below 8, in one way only.  So multiplication by eight
    takes every point into the multiples of the base point, and a point that
    [ell] annihilates is such a multiple. *)
Theorem group_order_correct :
  (forall P, exists i s, 0 <= i < ell /\ 0 <= s < 8 /\ P = (smul i base_point + smul s torsion_point)%G /\
     forall i' s', 0 <= i' < ell -> 0 <= s' < 8 -> P = (smul i' base_point + smul s' torsion_point)%G -> i' = i /\ s' = s) /\
  (forall r P, p2_ok r P -> returns (t ← ge_mul8 r; ge_p1p1_to_p2 t) (fun r' => exists i, 0 <= i < ell /\ p2_ok r' (smul i base_point))) /\
  (forall P, smul ell P = gzero <-> exists i, 0 <= i < ell /\ P = smul i base_point).
Proof.
  split; [|split].
  - intros P. destruct (all_generated P) as (i & s & Hi & Hs & ->). exists i, s. split_and!; try lia; [done|]. intros i' s' Hi' Hs' E.
    destruct (independent (i' - i) (s' - s)) as [[u Eu] [v Ev]].
    { apply (gadd_cancel_r (smul i base_point + smul s torsion_point)%G). rewrite E at 2. group_ring. }
    assert (u = 0) by nia. lia.
  - intros r P Hr. eapply returns_bind; [apply ge_mul8_ok; exact Hr|]. cbn beta. intros t Ht.
    eapply returns_mono; [apply ge_p1p1_to_p2_ok; exact Ht|]. cbn beta. intros r' Hr'.
    destruct (subgroup_generated _ (cofactor_order P)) as (i & Hi & E). exists i. split; [exact Hi|]. by rewrite <- E.
  - intros P. split; [apply subgroup_generated|]. intros (i & _ & ->).
    transitivity (smul i (smul ell base_point)); [group_ring|]. rewrite base_order. apply smul_zero.
Qed.
