(* ===== verification/HashToPoint.v ===== *)
(** * Mapping a hash to the curve

    [ge_fromfe_frombytes_vartime] of [src/crypto/crypto-ops.c], which takes any
    32 bytes to a point, through the Montgomery form of the curve, and the
    conversion of a point to the Weierstrass form.  The theorem says that the
    mapping is total: its assertions hold and the result is on the curve, for
    every input. *)

From Stdlib Require Import Zmod.
From S2P Require Import Prelude Limbs ScalarOps Primes FieldOps Group Edwards GroupOps ScalarMult CurveTables CurveOrder.

(** ** Definitions *)

Definition fe_ma2 : fe := [-12721188; -3529; 0; 0; 0; 0; 0; 0; 0; 0].
Definition fe_ma : fe := [-486662; 0; 0; 0; 0; 0; 0; 0; 0; 0].
Definition fe_fffb1 : fe := [-31702527; -2466483; -26106795; -12203692; -12169197; -321052; 14850977; -10296299; -16929438; -407568].
Definition fe_fffb2 : fe := [8166131; -6741800; -17040804; 3154616; 21461005; 1466302; -30876704; -6368709; 10503587; -13363080].
Definition fe_fffb3 : fe := [-13620103; 14639558; 4532995; 7679154; 16815101; -15883539; -22863840; -14813421; 13716513; -6477756].
Definition fe_fffb4 : fe := [-21786234; -12173074; 21573800; 4524538; -4645904; 16204591; 8012863; -8444712; 3212926; 6885324].
Definition fe_a_inv_3 : fe := [-22207407; 11184811; 22369621; -11184811; -22369621; 11184811; 22369621; -11184811; -22369621; 11184811].
Definition fe_c : fe := [12222970; 8312128; 11511410; -9067497; 15300785; 241793; -25456130; -14121551; 12187136; -3972024].

(** The square root: [r->X], [z] and [sign] at the label [setsign].  A failing
    assertion is [None]. *)
Definition fromfe_root (u v w x : fe) : option (fe * fe * Z) :=
  rX ← fe_divpowm1 w x;
  y ← fe_sq rX;
  x ← fe_mul y x;
  y ← fe_sub w x;
  let z := fe_copy fe_ma in
  let positive rX := rX ← fe_mul rX u; z ← fe_mul z v; Some (rX, z, 0) in
  nz ← fe_isnonzero y;
  if nz =? 0 then rX ← fe_mul rX fe_fffb2; positive rX
  else
    y ← fe_add w x;
    nz ← fe_isnonzero y;
    if nz =? 0 then rX ← fe_mul rX fe_fffb1; positive rX
    else
      x ← fe_mul x fe_sqrtm1;
      y ← fe_sub w x;
      nz ← fe_isnonzero y;
      if nz =? 0 then rX ← fe_mul rX fe_fffb4; Some (rX, z, 1)
      else
        y ← fe_add w x;
        nz ← fe_isnonzero y;
        if nz =? 0 then rX ← fe_mul rX fe_fffb3; Some (rX, z, 1) else None.

Definition fromfe_sign (rX : fe) (sign : Z) : option fe :=
  neg ← fe_isnegative rX;
  if neg =? sign then Some rX
  else nz ← fe_isnonzero rX; if nz =? 0 then None else fe_neg rX.

(** The check of a debug build. *)
Definition fromfe_check (r : ge_p2) : option unit :=
  iz ← fe_invert (Z2 r);
  x ← fe_mul (X2 r) iz;
  y ← fe_mul (Y2 r) iz;
  x ← fe_sq x;
  y ← fe_sq y;
  v ← fe_mul x y;
  v ← fe_mul fe_d v;
  v ← fe_add v x;
  v ← fe_sub v y;
  v ← fe_add v fe_1;
  nz ← fe_isnonzero v;
  if nz =? 0 then Some tt else None.

Definition ge_fromfe_frombytes_vartime (s : list Z) : option ge_p2 :=
  u ← fe_finish fe_from_ops (fe_load s (load_3 s 29));
  v ← fe_sq2 u;
  w ← fe_add v fe_1;
  x ← fe_sq w;
  y ← fe_mul fe_ma2 v;
  x ← fe_add x y;
  '(rX, z, sign) ← fromfe_root u v w x;
  rX ← fromfe_sign rX sign;
  rZ ← fe_add z w;
  rY ← fe_sub z w;
  rX ← fe_mul rX rZ;
  let r := P2 rX rY rZ in
  _ ← fromfe_check r;
  Some r.

Definition fe_ed_derivatives_to_wei_x (inv_one_minus_y one_plus_y : fe) : option (list Z) :=
  m ← fe_mul inv_one_minus_y one_plus_y;
  wei_x ← fe_add m fe_a_inv_3;
  fe_tobytes wei_x.

Definition fe_ed_derivatives_to_wei_x_y (inv_one_minus_y one_plus_y inv_one_minus_y_mul_x : fe) : option (list Z * list Z) :=
  wei_x ← fe_ed_derivatives_to_wei_x inv_one_minus_y one_plus_y;
  c ← fe_mul fe_c one_plus_y;
  wei_y ← fe_mul c inv_one_minus_y_mul_x;
  wei_y ← fe_tobytes wei_y;
  Some (wei_x, wei_y).

(** ** Loading 256 bits *)

Lemma from_ops_wide s : is_key s -> returns (fe_finish fe_from_ops (fe_load s (load_3 s 29))) (fun f => rep 101 f (of_Z (le_value s))).
Proof.
  intros Hs. pose proof Hs as [Hl Hb8]. pose proof (key_range s Hs) as Hr.
  assert (load_3 s 29 = le_value s / 2 ^ 232) as Et.
  { rewrite load_word_3 by done. change (8 * Z.of_nat 29) with 232. apply Z.mod_small. split; [apply Z.div_pos; lia|].
    apply Z.div_lt_upper_bound; lia. }
  destruct (fe_load_spec s (load_3 s 29) 24 Hs ltac:(lia)) as (Hb & V & _).
  { rewrite Et. split; [apply Z.div_pos; lia|]. apply Z.div_lt_upper_bound; lia. }
  eapply (finish_spec fe_from_ops 101) in Hb as (f & Ef & Hf & Vf); [|computed..]. exists f. split; [exact Ef|]. split; [exact Hf|].
  rewrite Vf, V, Et. f_equal. pose proof (Z.div_mod (le_value s) (2 ^ 232) ltac:(done)). lia.
Qed.

(** ** The Montgomery form *)

Section Montgomery.
Open Scope Zmod_scope.
Add Ring F_ring_mont : (Zmod.ring_theory p25519).

Definition mA : F := of_Z 486662.

Lemma mA_d : ed_d * (mA + F2) = F2 - mA.
Proof. by vm_compute. Qed.

Lemma mA_nz : mA <> 0 /\ mA + F2 <> 0.
Proof. by vm_compute. Qed.

(** [A^2 - 4] is not a square. *)
Lemma mont_nonsquare (s k : F) : k <> 0 -> s * s <> k * k * (mA * mA - F2 * F2).
Proof.
  intros Hk E. destruct mA_nz as [_ H2]. pose proof sqrt_m1_spec as Ei. pose proof mA_d as Ed.
  assert (sqrt_m1 <> 0) as Hi.
  { intros E0. apply F_one_nz. transitivity (- (- (1)) : F); [ring|]. rewrite <- Ei, E0. ring. }
  set (t := sqrt_m1 * k * (mA + F2)). assert (t <> 0) as Ht by (unfold t; apply F_mul_nz; [apply F_mul_nz|]; assumption).
  pose proof (F_inv_l t Ht) as Et. apply (d_nonsquare (s * Zmod.inv t)).
  transitivity (s * s * (Zmod.inv t * Zmod.inv t)); [ring|]. rewrite E.
  assert (k * k * (mA * mA - F2 * F2) = ed_d * (t * t)) as ->.
  { unfold t. transitivity (- (k * k * (ed_d * (mA + F2)) * (mA + F2))); [rewrite Ed; ring|].
    transitivity (sqrt_m1 * sqrt_m1 * (k * k * (ed_d * (mA + F2)) * (mA + F2))); [rewrite Ei|]; generalize ed_d, sqrt_m1; intros; ring. }
  transitivity (ed_d * (Zmod.inv t * t) * (Zmod.inv t * t)); [generalize ed_d; intros; ring|]. rewrite Et. generalize ed_d. intros. ring.
Qed.

(** The Edwards point of [u = z/w] on the Montgomery curve. *)
Lemma mont_denominator (X z w x0 : F) : x0 = z * z + mA * z * w + w * w -> x0 <> 0 -> X * X * x0 = - ((mA + F2) * z * w) -> z + w <> 0.
Proof.
  intros E0 H0 EX E. assert (z = - w) as Ez by (apply F_eq_sub; rewrite <- E; ring).
  assert (w <> 0) as Hw by (intros ->; apply H0; rewrite E0, Ez; ring).
  assert (x0 = (F2 - mA) * (w * w)) as Ex by (rewrite E0, Ez; unfold F2; ring).
  pose proof sqrt_m1_spec as Ei. apply (mont_nonsquare (sqrt_m1 * X * (F2 - mA) * w) w Hw).
  transitivity (sqrt_m1 * sqrt_m1 * (X * X * ((F2 - mA) * (w * w))) * (F2 - mA)); [generalize sqrt_m1; intros; ring|].
  rewrite Ei, <- Ex, EX, Ez. ring.
Qed.

Lemma mont_curve (X z w x0 : F) : x0 = z * z + mA * z * w + w * w -> x0 <> 0 -> X * X * x0 = - ((mA + F2) * z * w) ->
  curve_eq ed_d X ((z - w) * Zmod.inv (z + w)).
Proof.
  intros E0 H0 EX. pose proof (mont_denominator X z w x0 E0 H0 EX) as HZ. pose proof (F_inv_l _ HZ) as Ei. destruct mA_nz as [_ H2].
  unfold curve_eq. set (i := Zmod.inv (z + w)) in *. clearbody i. apply (F_cancel ((mA + F2) * x0 * ((z + w) * (z + w)))).
  { apply F_mul_nz; [apply F_mul_nz|apply F_mul_nz]; assumption. }
  transitivity (ed_d * (mA + F2) * (X * X * x0) * ((z - w) * (z - w)) * ((i * (z + w)) * (i * (z + w)))); [generalize ed_d; intros; ring|].
  transitivity ((mA + F2) * (x0 * (z - w) * (z - w) * ((i * (z + w)) * (i * (z + w))) - X * X * x0 * ((z + w) * (z + w)) - x0 * ((z + w) * (z + w)))); [|ring].
  rewrite Ei, EX, mA_d, E0. unfold F2. ring.
Qed.

(** ** The constants *)

Lemma fe_const_ok f : check_limbs f = true -> rep 101 f (ev f).
Proof. intros E. by apply rep_const. Qed.

Lemma fe_ma_ok : rep 101 fe_ma (- mA).
Proof. apply rep_const; by vm_compute. Qed.
Lemma fe_ma2_ok : rep 101 fe_ma2 (- (mA * mA)).
Proof. apply rep_const; by vm_compute. Qed.
Lemma fffb1_sq : ev fe_fffb1 * ev fe_fffb1 = - (F2 * mA * (mA + F2)). Proof. by vm_compute. Qed.
Lemma fffb2_sq : ev fe_fffb2 * ev fe_fffb2 = F2 * mA * (mA + F2). Proof. by vm_compute. Qed.
Lemma fffb3_sq : ev fe_fffb3 * ev fe_fffb3 = - (sqrt_m1 * mA * (mA + F2)). Proof. by vm_compute. Qed.
Lemma fffb4_sq : ev fe_fffb4 * ev fe_fffb4 = sqrt_m1 * mA * (mA + F2). Proof. by vm_compute. Qed.

(** Fourth roots of one. *)
Lemma F_fourth (c : F) : c * c * (c * c) = 1 -> c = 1 \/ c = - (1) \/ c = sqrt_m1 \/ c = - sqrt_m1.
Proof.
  intros E. destruct (F_sq_1 (c * c) E) as [E1|E1].
  - destruct (F_sq_1 c E1); tauto.
  - right. right. apply F_sq_eq. by rewrite E1, sqrt_m1_spec.
Qed.

Lemma root_fourth (w x0 : F) : x0 <> 0 -> let x := root_candidate w x0 * root_candidate w x0 * x0 in
  x = w \/ x = - w \/ x * sqrt_m1 = w \/ x * sqrt_m1 = - w.
Proof.
  intros H0. cbv zeta. assert (root_candidate w x0 * root_candidate w x0 * x0 = x0 * root_candidate w x0 * root_candidate w x0) as -> by (generalize (root_candidate w x0); intros; ring).
  rewrite root_candidate_sq. set (t := w * (x0 * x0 * x0 * x0 * x0 * x0 * x0)). destruct (Zmod.eqb_spec w 0) as [Hw|Hw].
  { left. rewrite Hw. generalize (t ^ ((p25519 - 1) / 4)). intros. ring. }
  assert (t <> 0) as Ht.
  { unfold t. apply F_mul_nz; [exact Hw|]. do 3 (apply F_mul_nz; [|exact H0]). apply F_mul_nz4; exact H0. }
  set (c := t ^ ((p25519 - 1) / 4)). assert (c * c * (c * c) = 1) as Ec.
  { unfold c. rewrite <- !Zmod.pow_add_r_nonneg by (by vm_compute).
    change ((p25519 - 1) / 4 + (p25519 - 1) / 4 + ((p25519 - 1) / 4 + (p25519 - 1) / 4))%Z with (p25519 - 1)%Z. by apply F_fermat. }
  clearbody c. pose proof sqrt_m1_spec as Ei. destruct (F_fourth c Ec) as [E|[E|[E|E]]]; rewrite E.
  - left. ring.
  - right. left. ring.
  - right. right. right. transitivity (w * (sqrt_m1 * sqrt_m1)); [generalize sqrt_m1; intros; ring|]. rewrite Ei. ring.
  - right. right. left. transitivity (- (w * (sqrt_m1 * sqrt_m1))); [generalize sqrt_m1; intros; ring|]. rewrite Ei. ring.
Qed.
End Montgomery.

(** ** The code *)

Section Code.
Open Scope Zmod_scope.
Add Ring F_ring_code : (Zmod.ring_theory p25519).

Ltac subst_test := lazymatch goal with |- context [(?n =? 0)%Z] => subst n end.

(** The Elligator 2 map: the point of [u] has [y = (z - w) / (z + w)] for
    [w = 2 u^2 + 1] and one of two values of [z], by whether a quotient is a
    square, and the parity of its abscissa says which. *)
Definition elligator (u : F) (P : point) : Prop :=
  let v := F2 * (u * u) in let w := v + 1 in let x0 := w * w - mA * mA * v in
  (exists X, X * X * x0 = F2 * mA * (mA + F2) * w /\ px P * px P = X * u * (X * u) /\
     (Zmod.to_Z (px P) mod 2 = 0)%Z /\ py P * (w - mA * v) = - (mA * v) - w) \/
  (px P * px P * x0 = mA * (mA + F2) * w /\ (Zmod.to_Z (px P) mod 2 = 1)%Z /\ py P * (w - mA) = - mA - w).

(** What holds at [setsign]. *)
Definition root_ok (u v w x0 : F) (r : fe * fe * Z) : Prop :=
  let '(rX, z, sign) := r in
  exists X Z, rep 101 rX X /\ rep 101 z Z /\ x0 = Z * Z + mA * Z * w + w * w /\ X * X * x0 = - ((mA + F2) * Z * w) /\
    (sign = 0%Z /\ Z = - mA * v /\ (exists Y, X = Y * u /\ Y * Y * x0 = F2 * mA * (mA + F2) * w) \/ sign = 1%Z /\ Z = - mA /\ X <> 0).

(** The two ends of the branches. *)
Lemma root_positive fX fz (X u v w x0 : F) : rep 101 fX (X * u) -> rep 101 fz (- mA * v) -> v = F2 * (u * u) -> w = v + 1 ->
  x0 = w * w + - (mA * mA) * v -> X * X * x0 = F2 * mA * (mA + F2) * w -> root_ok u v w x0 (fX, fz, 0%Z).
Proof.
  intros HX Hz Ev Ew E0 E. exists (X * u), (- mA * v). split; [exact HX|]. split; [exact Hz|]. split; [rewrite E0, Ew; ring|].
  split; [|left; split; [reflexivity|]; split; [reflexivity|]; exists X; split; [reflexivity|exact E]].
  transitivity (X * X * x0 * (u * u)); [ring|]. rewrite E, Ev. ring.
Qed.

Lemma root_negative fX fz (X u v w x0 : F) : rep 101 fX X -> rep 101 fz (- mA) -> w = v + 1 ->
  x0 = w * w + - (mA * mA) * v -> w <> 0 -> X * X * x0 = mA * (mA + F2) * w -> root_ok u v w x0 (fX, fz, 1%Z).
Proof.
  intros HX Hz Ew E0 Hw E. exists X, (- mA). split; [exact HX|]. split; [exact Hz|]. split; [rewrite E0, Ew; ring|]. split; [rewrite E; ring|].
  right. split; [reflexivity|]. split; [reflexivity|]. intros EX. destruct mA_nz as [HA HA2]. apply (F_mul_nz (mA * (mA + F2)) w); [apply F_mul_nz; assumption|exact Hw|].
  rewrite <- E, EX. ring.
Qed.

Lemma fromfe_root_ok fu fv fw fx (u v w x0 : F) : rep 101 fu u -> rep 101 fv v -> rep 102 fw w -> rep 202 fx x0 ->
  v = F2 * (u * u) -> w = v + 1 -> x0 = w * w + - (mA * mA) * v -> x0 <> 0 ->
  returns (fromfe_root fu fv fw fx) (root_ok u v w x0).
Proof.
  intros Hu Hv Hw Hx Ev Ew E0 H0. unfold fromfe_root.
  eapply returns_bind; [eapply fe_divpowm1_ok; [exact Hw|exact Hx|lia|lia]|]. cbn beta. fold (root_candidate w x0). intros rX HrX.
  pose proof (root_fourth w x0 H0) as Hroot. cbv zeta in Hroot. set (r := root_candidate w x0) in *. clearbody r.
  pose proof fe_ma_ok as Hma. rewrite fe_copy_spec by (by eapply rep_length).
  pose proof (fe_const_ok fe_fffb1 eq_refl) as H1. pose proof (fe_const_ok fe_fffb2 eq_refl) as H2.
  pose proof (fe_const_ok fe_fffb3 eq_refl) as H3. pose proof (fe_const_ok fe_fffb4 eq_refl) as H4.
  pose proof fffb1_sq as S1. pose proof fffb2_sq as S2. pose proof fffb3_sq as S3. pose proof fffb4_sq as S4.
  generalize dependent (ev fe_fffb1). intros b1 H1 S1. generalize dependent (ev fe_fffb2). intros b2 H2 S2.
  generalize dependent (ev fe_fffb3). intros b3 H3 S3. generalize dependent (ev fe_fffb4). intros b4 H4 S4.
  pose proof fe_sqrtm1_ok as Hi. pose proof sqrt_m1_spec as Ei. generalize dependent sqrt_m1. intros i Hroot S3 S4 Hi Ei.
  do 4 fe_step. subst_test. destruct (Zmod.eqb_spec (w - r * r * x0) 0) as [E|E]; cbn [Z.eqb].
  { do 3 fe_step. apply returns_some. eapply root_positive; [eassumption|eassumption|exact Ev|exact Ew|exact E0|].
    transitivity (r * r * x0 * (b2 * b2)); [ring|]. replace (r * r * x0) with w by (by apply F_eq_sub). rewrite S2. ring. }
  do 2 fe_step. subst_test. destruct (Zmod.eqb_spec (w + r * r * x0) 0) as [E'|E']; cbn [Z.eqb].
  { do 3 fe_step. apply returns_some. eapply root_positive; [eassumption|eassumption|exact Ev|exact Ew|exact E0|].
    transitivity (r * r * x0 * (b1 * b1)); [ring|]. replace (r * r * x0) with (- w) by (apply F_eq_sub; transitivity (- (w + r * r * x0)); [ring|rewrite E'; ring]).
    rewrite S1. ring. }
  assert (w <> 0) as Hw0.
  { intros Hw0. apply E. rewrite Hw0 in Hroot |- *. destruct Hroot as [->|[->|[Hr|Hr]]]; [ring|ring|..];
      (assert (r * r * x0 = - (i * i) * (r * r * x0)) as -> by (rewrite Ei; ring); transitivity (i * (r * r * x0 * i)); [ring|rewrite Hr; ring]). }
  do 3 fe_step. subst_test. destruct (Zmod.eqb_spec (w - r * r * x0 * i) 0) as [E2|E2]; cbn [Z.eqb].
  { fe_step. apply returns_some. eapply root_negative; [eassumption|exact Hma|exact Ew|exact E0|exact Hw0|].
    transitivity (r * r * x0 * (b4 * b4)); [ring|]. rewrite S4. transitivity (r * r * x0 * i * (mA * (mA + F2))); [ring|].
    replace (r * r * x0 * i) with w by (by apply F_eq_sub). ring. }
  do 2 fe_step. subst_test. destruct (Zmod.eqb_spec (w + r * r * x0 * i) 0) as [E3|E3]; cbn [Z.eqb].
  { fe_step. apply returns_some. eapply root_negative; [eassumption|exact Hma|exact Ew|exact E0|exact Hw0|].
    transitivity (r * r * x0 * (b3 * b3)); [ring|]. rewrite S3. transitivity (- (r * r * x0 * i * (mA * (mA + F2)))); [ring|].
    replace (r * r * x0 * i) with (- w) by (apply F_eq_sub; transitivity (- (w + r * r * x0 * i)); [ring|rewrite E3; ring]). ring. }
  exfalso. destruct Hroot as [Hr|[Hr|[Hr|Hr]]]; [apply E|apply E'|apply E2|apply E3]; rewrite Hr; ring.
Qed.

(** The denominator is never zero. *)
Lemma fromfe_denominator (v x0 : F) : x0 = (v + 1) * (v + 1) + - (mA * mA) * v -> x0 <> 0.
Proof.
  intros E0 E. destruct mA_nz as [HA _]. apply (mont_nonsquare (F2 * v + F2 - mA * mA) mA HA).
  transitivity (F2 * F2 * x0 + mA * mA * (mA * mA - F2 * F2)); [rewrite E0; unfold F2; ring|]. rewrite E. ring.
Qed.

(** Either root is kept or negated, to have the parity [sign]. *)
Lemma fromfe_sign_ok fX (X : F) sign : rep 101 fX X -> sign = 0%Z \/ sign = 1%Z /\ X <> 0 ->
  returns (fromfe_sign fX sign) (fun f => exists X', rep 101 f X' /\ X' * X' = X * X /\ (Zmod.to_Z X' mod 2 = sign)%Z).
Proof.
  intros HX Hs. unfold fromfe_sign. fe_step. destruct (Z.eqb_spec t sign) as [Es|Es].
  { apply returns_some. exists X. split; [exact HX|]. split; [ring|]. by rewrite H. }
  fe_step. subst_test. destruct (Zmod.eqb_spec X 0) as [E0|E0]; cbn [Z.eqb].
  { exfalso. destruct Hs as [-> | [_ Hn]]; [|exact (Hn E0)]. apply Es. rewrite <- H, E0. by vm_compute. }
  eapply returns_mono; [eapply fe_neg_ok; [exact HX|lia]|]. cbn beta. intros f Hf. exists (- X). split; [exact Hf|]. split; [ring|].
  rewrite (parity_neg X E0), H. pose proof (Z.mod_pos_bound (Zmod.to_Z X) 2 ltac:(done)). destruct Hs as [-> | [-> _]]; lia.
Qed.

Lemma F_scaled (x z : F) : z <> 0 -> x * z * Zmod.inv z = x.
Proof. intros Hz. transitivity (x * (Zmod.inv z * z)); [ring|]. rewrite F_inv_l by exact Hz. ring. Qed.

(** The last assertion is the curve equation. *)
Lemma fromfe_check_ok r P : p2_ok r P -> returns (fromfe_check r) (fun _ => True).
Proof.
  intros (z & Hz & HX & HY & HZ). unfold fromfe_check. pose proof fe_1_ok as H1. pose proof fe_d_ok as Hd.
  eapply returns_bind; [eapply fe_invert_ok; [exact HZ|lia]|]. cbn beta. intros iz Hiz.
  do 2 fe_step. rewrite (F_scaled (px P) z Hz), (F_scaled (py P) z Hz) in *. do 8 fe_step. subst_test.
  pose proof (point_curve P) as HP. unfold curve_eq in HP. revert HP. generalize dependent ed_d. intros d Hd _ _ _ _ HP.
  match goal with |- context [Zmod.eqb ?a 0] => assert (a = 0) as Ea; [|destruct (Zmod.eqb_spec a 0) as [E|E]; [|destruct (E Ea)]] end.
  { transitivity (d * px P * px P * py P * py P + px P * px P - py P * py P + 1); [ring|]. rewrite HP. ring. }
  cbn [Z.eqb]. by apply returns_some.
Qed.

Lemma on_curve (x y : F) : curve_eq ed_d x y -> exists P, px P = x /\ py P = y.
Proof. intros H. exists (Point x y (proj2 (curve_eqb x y) H)). split; reflexivity. Qed.

(** From the root to the point. *)
Lemma elligator_intro (u v w x0 X X' Z : F) sign P : v = F2 * (u * u) -> w = v + 1 -> x0 = w * w - mA * mA * v -> X * X * x0 = - ((mA + F2) * Z * w) ->
  (sign = 0%Z /\ Z = - mA * v /\ (exists Y, X = Y * u /\ Y * Y * x0 = F2 * mA * (mA + F2) * w) \/ sign = 1%Z /\ Z = - mA /\ X <> 0) ->
  X' * X' = X * X -> (Zmod.to_Z X' mod 2 = sign)%Z -> px P = X' -> py P * (Z + w) = Z - w -> elligator u P.
Proof.
  intros Ev Ew E0 EX Hs EX' Ep Px Py. unfold elligator. cbv zeta. rewrite <- Ev, <- Ew, <- E0. rewrite Px.
  destruct Hs as [(Esg & EZ & Y & EY & Hsq)|(Esg & EZ & _)]; rewrite Esg in Ep; rewrite EZ in Py.
  - left. exists Y. split; [exact Hsq|]. split; [rewrite EX', EY; reflexivity|]. split; [exact Ep|].
    transitivity (py P * (- mA * v + w)); [ring|]. rewrite Py. ring.
  - right. split; [rewrite EX', EX, EZ; ring|]. split; [exact Ep|]. transitivity (py P * (- mA + w)); [ring|exact Py].
Qed.

Lemma fromfe_finish_ok fX fz fw sign (u v w x0 : F) : rep 102 fw w -> v = F2 * (u * u) -> w = v + 1 -> x0 = w * w - mA * mA * v ->
  x0 <> 0 -> root_ok u v w x0 (fX, fz, sign) ->
  returns (rX ← fromfe_sign fX sign; rZ ← fe_add fz fw; rY ← fe_sub fz fw; rX ← fe_mul rX rZ;
           let r := P2 rX rY rZ in _ ← fromfe_check r; Some r) (fun r => exists P, p2_ok r P /\ elligator u P).
Proof.
  intros Hw Ev Ew Ex0 H0 (X & Z & HX & HZ & E0 & EX & Hs).
  eapply returns_bind; [apply (fromfe_sign_ok fX X sign HX); tauto|]. cbn beta. intros fX' (X' & HX' & EX' & Epar).
  assert (X' * X' * x0 = - ((mA + F2) * Z * w)) as EX2 by (rewrite EX'; exact EX).
  pose proof (mont_denominator X' Z w x0 E0 H0 EX2) as Hnz.
  destruct (on_curve _ _ (mont_curve X' Z w x0 E0 H0 EX2)) as (P & Px & Py).
  do 3 fe_step. cbv zeta.
  assert ((Z - w) * Zmod.inv (Z + w) * (Z + w) = Z - w) as Ei.
  { transitivity ((Z - w) * (Z + w) * Zmod.inv (Z + w)); [ring|apply F_scaled; exact Hnz]. }
  match goal with |- returns (_ ← fromfe_check ?r; _) _ => assert (p2_ok r P) as Hr end.
  { exists (Z + w). split; [exact Hnz|]. cbn [X2 Y2 Z2]. rewrite Px, Py. split_and!; [eassumption| |eassumption].
    eapply rep_eq; [eassumption|]. symmetry. exact Ei. }
  eapply returns_bind; [exact (fromfe_check_ok _ P Hr)|]. cbn beta. intros _ _. apply returns_some. exists P. split; [exact Hr|].
  apply (elligator_intro u v w x0 X X' Z sign); try assumption. rewrite Py. exact Ei.
Qed.

(** The map of [src/crypto/crypto-ops.c] is Elligator 2, on every input. *)
Lemma ge_fromfe_elligator s : is_key s ->
  returns (ge_fromfe_frombytes_vartime s) (fun r => exists P, p2_ok r P /\ elligator (of_Z (le_value s)) P).
Proof.
  intros Hs. unfold ge_fromfe_frombytes_vartime. pose proof fe_1_ok as H1. pose proof fe_ma2_ok as Hma2.
  eapply returns_bind; [exact (from_ops_wide s Hs)|]. cbn beta. intros fu Hu. generalize dependent (of_Z (le_value s) : F). intros u Hu.
  do 5 fe_step. rewrite of_Z_2 in *.
  eapply returns_bind.
  { eapply (fromfe_root_ok fu); [exact Hu|eassumption|eassumption|eassumption|reflexivity|reflexivity|reflexivity|].
    eapply fromfe_denominator. reflexivity. }
  cbn beta. intros [[fX fz] sign] Hroot.
  eapply fromfe_finish_ok; [| | | |eapply fromfe_denominator; reflexivity|exact Hroot]; [eassumption|reflexivity|reflexivity|]. ring.
Qed.

Lemma ge_fromfe_ok s : is_key s -> returns (ge_fromfe_frombytes_vartime s) (fun r => exists P, p2_ok r P).
Proof. intros Hs. eapply returns_mono; [exact (ge_fromfe_elligator s Hs)|]. cbn beta. intros r (P & Hr & _). by exists P. Qed.

(** At most one point satisfies the equations. *)
Lemma parity_root (x y : F) : x * x = y * y -> (Zmod.to_Z x mod 2 = Zmod.to_Z y mod 2)%Z -> x = y.
Proof.
  intros E Ep. destruct (F_sq_eq x y E) as [->|Ex]; [reflexivity|]. destruct (Zmod.eqb_spec y 0) as [->|Hy]; [rewrite Ex; ring|].
  rewrite Ex, (parity_neg y Hy) in Ep. pose proof (Z.mod_pos_bound (Zmod.to_Z y) 2 ltac:(done)). lia.
Qed.

Lemma square_ratio (X Y x0 c : F) : x0 <> 0 -> Y <> 0 -> X * X * x0 = F2 * c -> Y * Y * x0 = c -> False.
Proof.
  intros H0 HY EX EY. apply (two_nonsquare (X * Zmod.inv Y)). apply (F_cancel (Y * Y * x0)); [apply F_mul_nz; [apply F_mul_nz; exact HY|exact H0]|].
  transitivity (X * X * x0 * ((Zmod.inv Y * Y) * (Zmod.inv Y * Y))); [ring|]. rewrite F_inv_l, EX, EY, of_Z_2 by exact HY. unfold F2. ring.
Qed.

Lemma elligator_parity_odd (x : F) : (Zmod.to_Z x mod 2 = 1)%Z -> x <> 0.
Proof. intros E ->. by vm_compute in E. Qed.

(** A quotient by a denominator that is not zero. *)
Lemma elligator_y (X z w x0 a b : F) : x0 = z * z + mA * z * w + w * w -> x0 <> 0 -> X * X * x0 = - ((mA + F2) * z * w) ->
  a * (w + z) = z - w -> b * (w + z) = z - w -> a = b.
Proof.
  intros E0 H0 EX Ea Eb. pose proof (mont_denominator X z w x0 E0 H0 EX) as Hz.
  apply (F_cancel (z + w)); [exact Hz|]. transitivity (a * (w + z)); [ring|]. rewrite Ea, <- Eb. ring.
Qed.

Lemma elligator_unique u P Q : elligator u P -> elligator u Q -> P = Q.
Proof.
  unfold elligator. cbv zeta. set (v := F2 * (u * u)). set (w := v + 1). set (x0 := w * w - mA * mA * v).
  assert (x0 <> 0) as H0 by (apply (fromfe_denominator v); unfold x0, w; ring).
  assert (forall R S : point, (exists X, X * X * x0 = F2 * mA * (mA + F2) * w /\ px R * px R = X * u * (X * u) /\
     (Zmod.to_Z (px R) mod 2 = 0)%Z /\ py R * (w - mA * v) = - (mA * v) - w) ->
    px S * px S * x0 = mA * (mA + F2) * w -> (Zmod.to_Z (px S) mod 2 = 1)%Z -> False) as Hmix.
  { intros R S (X & EX & _) ES Eo. apply (square_ratio X (px S) x0 (mA * (mA + F2) * w) H0 (elligator_parity_odd _ Eo)); [rewrite EX; ring|exact ES]. }
  intros [HP|(P1 & P2 & P3)] [HQ|(Q1 & Q2 & Q3)].
  - destruct HP as (X & P1 & P2 & P3 & P4), HQ as (Y & Q1 & Q2 & Q3 & Q4).
    assert (px P * px P * x0 = - ((mA + F2) * (- (mA * v)) * w)) as EP.
    { rewrite P2. transitivity (X * X * x0 * (u * u)); [ring|]. rewrite P1. unfold v. ring. }
    assert (px Q * px Q * x0 = - ((mA + F2) * (- (mA * v)) * w)) as EQ.
    { rewrite Q2. transitivity (Y * Y * x0 * (u * u)); [ring|]. rewrite Q1. unfold v. ring. }
    apply point_eq.
    + apply parity_root; [|by rewrite P3, Q3]. apply (F_cancel x0); [exact H0|]. rewrite !(Zmod.mul_comm x0), EP, EQ. reflexivity.
    + apply (elligator_y (px P) (- (mA * v)) w x0); [unfold x0, w; ring|exact H0|exact EP| |].
      * transitivity (py P * (w - mA * v)); [ring|exact P4].
      * transitivity (py Q * (w - mA * v)); [ring|exact Q4].
  - destruct (Hmix P Q HP Q1 Q2).
  - destruct (Hmix Q P HQ P1 P2).
  - apply point_eq.
    + apply parity_root; [|by rewrite P2, Q2]. apply (F_cancel x0); [exact H0|]. rewrite !(Zmod.mul_comm x0), P1, Q1. reflexivity.
    + apply (elligator_y (px P) (- mA) w x0); [unfold x0, w; ring|exact H0|rewrite P1; ring| |].
      * transitivity (py P * (w - mA)); [ring|exact P3].
      * transitivity (py Q * (w - mA)); [ring|exact Q3].
Qed.

(** ** The Weierstrass form *)

Definition F3 : F := 1 + 1 + 1.
Lemma a_inv_3_spec : F3 * ev fe_a_inv_3 = mA. Proof. by vm_compute. Qed.
Lemma fe_c_spec : ev fe_c * ev fe_c = - (mA + F2). Proof. by vm_compute. Qed.

(** [Y^2 = X^3 + (1 - A^2/3) X + (2 A^3/27 - A/3)], with [3 k = A]. *)
Definition wei_eq (X Y : F) : Prop :=
  let k := ev fe_a_inv_3 in Y * Y = X * X * X + (1 - mA * k) * X + (F2 * k * k * k - k).

(** The Montgomery point of an Edwards point, scaled by [c]. *)
Lemma wei_curve (x y i j : F) : curve_eq ed_d x y -> i * (1 - y) = 1 -> j * x = i ->
  wei_eq (i * (1 + y) + ev fe_a_inv_3) (ev fe_c * (1 + y) * j).
Proof.
  intros Hc Ei Ej. unfold wei_eq. cbv zeta. pose proof a_inv_3_spec as Ek. pose proof fe_c_spec as Ec. pose proof mA_d as Ed.
  revert Hc. unfold curve_eq. generalize dependent (ev fe_a_inv_3). generalize dependent (ev fe_c). generalize dependent ed_d. generalize dependent mA.
  intros A d Ed c Ec k Ek Hc.
  assert (1 - y <> 0) as Hy by (intros E; apply F_one_nz; rewrite <- Ei, E; ring).
  assert (x <> 0) as Hx by (intros E; apply F_one_nz; rewrite <- Ei, <- Ej, E; ring).
  apply (F_cancel (x * x * ((1 - y) * (1 - y) * (1 - y)))).
  { apply F_mul_nz; [apply F_mul_nz; exact Hx|apply F_mul_nz; [apply F_mul_nz; exact Hy|exact Hy]]. }
  transitivity (c * c * ((1 + y) * (1 + y)) * (j * x * (1 - y)) * (j * x * (1 - y)) * (1 - y)); [ring|]. rewrite Ec, Ej, Ei.
  transitivity (x * x * ((i * (1 - y)) * (i * (1 - y)) * (i * (1 - y)) * ((1 + y) * (1 + y) * (1 + y)) +
    F3 * k * ((i * (1 - y)) * (i * (1 - y))) * ((1 + y) * (1 + y)) * (1 - y) + (i * (1 - y)) * (1 + y) * ((1 - y) * (1 - y)))).
  2:{ rewrite <- Ek. unfold F3, F2. ring. }
  rewrite Ei, Ek.
  transitivity ((1 + y) * ((A + F2) * (x * x) + (d * (A + F2)) * x * x * y * y)); [|rewrite Ed; unfold F2; ring].
  transitivity ((1 + y) * (A + F2) * (x * x + d * x * x * y * y)); [|ring]. rewrite Hc. ring.
Qed.

(** The coordinates the code computes are those of a point of the Weierstrass curve. *)
Lemma ed_to_wei_ok fi fo fj (x y i j : F) : curve_eq ed_d x y -> rep 101 fi i -> rep 102 fo (1 + y) -> rep 101 fj j ->
  i * (1 - y) = 1 -> j * x = i ->
  returns (fe_ed_derivatives_to_wei_x_y fi fo fj) (fun '(wx, wy) =>
    exists X Y, wx = le_bytes 32 (Zmod.to_Z X) /\ wy = le_bytes 32 (Zmod.to_Z Y) /\ wei_eq X Y).
Proof.
  intros Hc Hi Ho Hj Ei Ej. unfold fe_ed_derivatives_to_wei_x_y, fe_ed_derivatives_to_wei_x.
  pose proof (fe_const_ok fe_a_inv_3 eq_refl) as H3. pose proof (fe_const_ok fe_c eq_refl) as H4.
  pose proof (wei_curve x y i j Hc Ei Ej) as Hw.
  eapply returns_bind; [do 2 fe_step; eapply fe_tobytes_ok; [eassumption|lia]|]. cbn beta. intros wx Ex.
  do 3 fe_step. apply returns_some. do 2 eexists. split; [symmetry; exact Ex|]. split; [|exact Hw]. symmetry; assumption.
Qed.
End Code.
