(* ===== verification/Keccak.v ===== *)
(** * Keccak

    [src/crypto/keccak.c] and [src/crypto/hash.c]: the permutation, the
    one-shot sponge [keccak], the incremental interface
    ([keccak_init], [keccak_update], [keccak_finish]) and [cn_fast_hash].
    The permutation is executable (checked on published digests; [KeccakSpec]
    compares it with the definition of Keccak); the main theorem here is that
    feeding a message in any pieces through the incremental
    interface gives the one-shot digest. *)

From S2P Require Import Prelude.

(** ** The permutation *)

Definition KECCAK_ROUNDS : Z := 24.
Definition HASH_SIZE : Z := 32.
Definition HASH_DATA_AREA : Z := 136.

Definition keccakf_rndc : list Z :=
  [0x0000000000000001; 0x0000000000008082; 0x800000000000808a;
   0x8000000080008000; 0x000000000000808b; 0x0000000080000001;
   0x8000000080008081; 0x8000000000008009; 0x000000000000008a;
   0x0000000000000088; 0x0000000080008009; 0x000000008000000a;
   0x000000008000808b; 0x800000000000008b; 0x8000000000008089;
   0x8000000000008003; 0x8000000000008002; 0x8000000000000080;
   0x000000000000800a; 0x800000008000000a; 0x8000000080008081;
   0x8000000000008080; 0x0000000080000001; 0x8000000080008008].

Definition ROTL64 (x y : Z) : Z := Z.lor (u64 (Z.shiftl x y)) (Z.shiftr x (64 - y)).

(** [st[i]] and [st[i] ^= t]. *)
Definition word (st : list Z) (i : nat) : Z := nth i st 0.
Definition xor_at (i : nat) (t : Z) (st : list Z) : list Z :=
  <[i := Z.lxor (word st i) t]> st.

Definition theta_bc (st : list Z) : list Z :=
  map (fun i => Z.lxor (Z.lxor (Z.lxor (Z.lxor (word st i) (word st (i + 5)))
                  (word st (i + 10))) (word st (i + 15))) (word st (i + 20)))
    (seq 0 5).

(** The macro [THETA(i)]. *)
Definition THETA (bc : list Z) (st : list Z) (i : nat) : list Z :=
  let t := Z.lxor (word bc ((i + 4) mod 5)) (ROTL64 (word bc ((i + 1) mod 5)) 1) in
  xor_at (i + 20) t (xor_at (i + 15) t (xor_at (i + 10) t (xor_at (i + 5) t (xor_at i t st)))).

(** The assignments [st[a] = ROTL64(st[b], n)] of Rho Pi, in source order;
    the last one reads the saved [t = st[1]]. *)
Definition rho_pi_moves : list (nat * nat * nat) :=
  [(1, 6, 44); (6, 9, 20); (9, 22, 61); (22, 14, 39); (14, 20, 18); (20, 2, 62);
   (2, 12, 43); (12, 13, 25); (13, 19, 8); (19, 23, 56); (23, 15, 41); (15, 4, 27);
   (4, 24, 14); (24, 21, 2); (21, 8, 55); (8, 16, 45); (16, 5, 36); (5, 3, 28);
   (3, 18, 21); (18, 17, 15); (17, 11, 10); (11, 7, 6); (7, 10, 3)]%nat.

Definition rho_pi (st : list Z) : list Z :=
  let t := word st 1 in
  let st := foldl (fun st m => let '(a, b, n) := m in <[a := ROTL64 (word st b) (Z.of_nat n)]> st)
              st rho_pi_moves in
  <[10%nat := ROTL64 t 1]> st.

(** The macro [CHI(j)]. *)
Definition CHI (st : list Z) (j : nat) : list Z :=
  let st0 := word st j in
  let st1 := word st (j + 1) in
  let st2 := word st (j + 2) in
  let st3 := word st (j + 3) in
  let st4 := word st (j + 4) in
  xor_at (j + 4) (Z.land (u64 (Z.lnot st0)) st1)
    (xor_at (j + 3) (Z.land (u64 (Z.lnot st4)) st0)
       (xor_at (j + 2) (Z.land (u64 (Z.lnot st3)) st4)
          (xor_at (j + 1) (Z.land (u64 (Z.lnot st2)) st3)
             (xor_at j (Z.land (u64 (Z.lnot st1)) st2) st)))).

Definition keccakf_round (st : list Z) (round : nat) : list Z :=
  let bc := theta_bc st in
  let st := foldl (THETA bc) st (seq 0 5) in
  let st := rho_pi st in
  let st := foldl CHI st [0; 5; 10; 15; 20]%nat in
  xor_at 0 (word keccakf_rndc round) st.

(** For at most 24 rounds; the table of constants ends there. *)
Definition keccakf (st : list Z) (rounds : Z) : list Z :=
  foldl keccakf_round st (seq 0 (Z.to_nat rounds)).

(** ** The one-shot sponge *)

(** A byte buffer as 64-bit words; [SWAP64LE] is the identity on a
    little-endian host. *)
Definition words (buf : list Z) (n : nat) : list Z :=
  map (fun i => le_value (chunk 8 buf i)) (seq 0 n).

Definition xor_words (ws st : list Z) : list Z :=
  foldl (fun st p => xor_at (fst p) (snd p) st) st (imap (fun i w => (i, w)) ws).

(** [st[i] ^= temp[i]] for all words, then the permutation. *)
Definition absorb (st buf : list Z) (rsizw : nat) : list Z :=
  keccakf (xor_words (words buf rsizw) st) KECCAK_ROUNDS.

Definition absorb_step (rsiz : nat) (s : list Z * list Z) : list Z * list Z :=
  let '(st, input) := s in (absorb st (take rsiz input) (rsiz / 8), drop rsiz input).

(** [keccak(in, inlen, md, mdlen)], the [mdlen] bytes of [md]; [None] for
    the calls that abort. *)
Definition keccak (input : list Z) (mdlen : Z) : option (list Z) :=
  if (mdlen <=? 0) || ((100 <=? mdlen) && negb (200 =? mdlen)) || negb (mdlen mod 8 =? 0)
  then None
  else
    let rsiz := if 200 =? mdlen then HASH_DATA_AREA else 200 - 2 * mdlen in
    let rsizw := rsiz / 8 in
    if (rsiz =? 0) || (144 <? rsiz) || (144 <? rsizw * 8) then None
    else
      let st := replicate 25 0 in
      match while_fuel (fun s : list Z * list Z => rsiz <=? Z.of_nat (length (snd s)))
              (absorb_step (Z.to_nat rsiz)) (length input) (st, input) with
      | None => None
      | Some (st, input) =>
          let temp := replicate 144 0 in
          let temp := input ++ drop (length input) temp in
          let temp := <[length input := 1]> temp in
          let temp := <[Z.to_nat (rsiz - 1) :=
                          Z.lor (nth (Z.to_nat (rsiz - 1)) temp 0) 0x80]> temp in
          let st := absorb st temp (Z.to_nat rsizw) in
          Some (concat (map (le_bytes 8) (take (Z.to_nat (mdlen / 8)) st)))
      end.

Definition keccak1600 (input : list Z) : option (list Z) := keccak input 200.

(** [hash_process] fills a [hash_state]; [cn_fast_hash] keeps 32 bytes of it. *)
Definition hash_process (buf : list Z) : option (list Z) := keccak1600 buf.

Definition cn_fast_hash (data : list Z) : option (list Z) :=
  state ← hash_process data;
  Some (take (Z.to_nat HASH_SIZE) state).

(** ** The incremental interface *)

Definition KECCAK_FINALIZED : Z := 0x80000000.
Definition KECCAK_BLOCKLEN : Z := 136.
Definition KECCAK_WORDS : Z := 17.
Definition KECCAK_DIGESTSIZE : Z := 32.

(** [message] is the byte view of the 17-word buffer. *)
Record KECCAK_CTX := mkCtx { hash : list Z; message : list Z; rest : Z }.

Definition KECCAK_PROCESS_BLOCK (st block : list Z) : list Z :=
  absorb st block (Z.to_nat KECCAK_WORDS).

Definition keccak_init : KECCAK_CTX := mkCtx (replicate 25 0) (replicate 136 0) 0.

(** [memcpy((char* )buf + off, src, length src)]. *)
Definition memcpy_at (buf : list Z) (off : nat) (src : list Z) : list Z :=
  take off buf ++ src ++ drop (off + length src) buf.

Definition update_step (s : list Z * list Z * list Z) : list Z * list Z * list Z :=
  let '(hash, message, input) := s in
  let message := memcpy_at message 0 (take 136 input) in
  (KECCAK_PROCESS_BLOCK hash message, message, drop 136 input).

(** The whole-block loop and the tail of [keccak_update]. *)
Definition keccak_update_blocks (h msg input : list Z) (rest : Z) : option KECCAK_CTX :=
  match while_fuel (fun s : list Z * list Z * list Z => KECCAK_BLOCKLEN <=? Z.of_nat (length (snd s)))
          update_step (length input) (h, msg, input) with
  | None => None
  | Some (h, msg, input) =>
      Some (mkCtx h (if (0 <? length input)%nat then memcpy_at msg 0 input else msg) rest)
  end.

Definition keccak_update (ctx : KECCAK_CTX) (input : list Z) : option KECCAK_CTX :=
  if negb (Z.land (rest ctx) KECCAK_FINALIZED =? 0) then None
  else
    let idx := rest ctx in
    let inlen := Z.of_nat (length input) in
    let rest' := u64 (rest ctx + inlen) mod KECCAK_BLOCKLEN in
    if negb (idx =? 0) then
      let left := KECCAK_BLOCKLEN - idx in
      let message' := memcpy_at (message ctx) (Z.to_nat idx)
                        (take (Z.to_nat (if inlen <? left then inlen else left)) input) in
      if inlen <? left then Some (mkCtx (hash ctx) message' rest')
      else keccak_update_blocks (KECCAK_PROCESS_BLOCK (hash ctx) message') message'
             (drop (Z.to_nat left) input) rest'
    else keccak_update_blocks (hash ctx) (message ctx) input rest'.

(** [keccak_finish(ctx, md)]: the context and the digest. *)
Definition keccak_finish (ctx : KECCAK_CTX) : KECCAK_CTX * list Z :=
  let ctx :=
    if Z.land (rest ctx) KECCAK_FINALIZED =? 0 then
      let r := Z.to_nat (rest ctx) in
      let message := memcpy_at (message ctx) r (replicate (136 - r) 0) in
      let message := <[r := Z.lor (nth r message 0) 0x01]> message in
      let message := <[135%nat := Z.lor (nth 135 message 0) 0x80]> message in
      mkCtx (KECCAK_PROCESS_BLOCK (hash ctx) message) message KECCAK_FINALIZED
    else ctx in
  (ctx, concat (map (le_bytes 8) (take (Z.to_nat (KECCAK_DIGESTSIZE / 8)) (hash ctx)))).

(** Keccak-256 of the empty string. *)
Example cn_fast_hash_empty : cn_fast_hash [] = Some
  [0xc5; 0xd2; 0x46; 0x01; 0x86; 0xf7; 0x23; 0x3c; 0x92; 0x7e; 0x7d; 0xb2; 0xdc; 0xc7; 0x03; 0xc0;
   0xe5; 0x00; 0xb6; 0x53; 0xca; 0x82; 0x27; 0x3b; 0x7b; 0xfa; 0xd8; 0x04; 0x5d; 0x85; 0xa4; 0x70].
Proof. vm_compute. reflexivity. Qed.

(** ** Shape of the state *)

Create Rewrite HintDb keccak_len.

Lemma length_xor_at i t st : length (xor_at i t st) = length st.
Proof. apply length_insert. Qed.

Lemma length_foldl {A} (f : list Z -> A -> list Z) (l : list A) st :
  (forall st a, length (f st a) = length st) -> length (foldl f st l) = length st.
Proof. intros Hf. revert st; induction l as [|a l IH]; intros st; simpl; [done|]. by rewrite IH, Hf. Qed.

#[export] Hint Rewrite length_xor_at @length_insert : keccak_len.

Lemma length_keccakf_round st round : length (keccakf_round st round) = length st.
Proof.
  unfold keccakf_round, rho_pi. rewrite length_xor_at.
  rewrite length_foldl by (intros; unfold CHI; by autorewrite with keccak_len).
  rewrite length_insert, length_foldl by (intros ? [[] ]; by autorewrite with keccak_len).
  rewrite length_foldl; [done|]. intros. unfold THETA. by autorewrite with keccak_len.
Qed.

Lemma length_keccakf st rounds : length (keccakf st rounds) = length st.
Proof. apply length_foldl, length_keccakf_round. Qed.

Lemma length_absorb st buf n : length (absorb st buf n) = length st.
Proof.
  unfold absorb, xor_words. rewrite length_keccakf. apply length_foldl.
  intros. apply length_xor_at.
Qed.

(** Every word stays a 64-bit value. *)
Definition state_ok (st : list Z) : Prop := length st = 25%nat /\ Forall is_u64 st.

Lemma word_u64 st i : Forall is_u64 st -> is_u64 (word st i).
Proof.
  intros Hst. unfold word. destruct (decide (i < length st)%nat).
  - rewrite Forall_forall in Hst. apply Hst, list_elem_of_In, nth_In. done.
  - rewrite nth_overflow by lia. by vm_compute.
Qed.

Lemma ROTL64_u64 x y : 0 <= y <= 64 -> is_u64 x -> is_u64 (ROTL64 x y).
Proof. intros. unfold ROTL64. apply is_uint_lor; auto with uint lia. Qed.

Lemma xor_at_u64 i t st : is_u64 t -> Forall is_u64 st -> Forall is_u64 (xor_at i t st).
Proof.
  intros Ht Hst. unfold xor_at. apply Forall_insert; [done|].
  apply is_uint_lxor; [lia|by apply word_u64|done].
Qed.

Lemma chi_u64 st i j : Forall is_u64 st -> is_u64 (Z.land (u64 (Z.lnot (word st i))) (word st j)).
Proof.
  intros. apply is_uint_land; [lia|apply (wrapu_range 64); lia|by apply word_u64].
Qed.

Lemma foldl_u64 {A} (f : list Z -> A -> list Z) (P : A -> Prop) l st :
  (forall st a, P a -> Forall is_u64 st -> Forall is_u64 (f st a)) ->
  Forall P l -> Forall is_u64 st -> Forall is_u64 (foldl f st l).
Proof. intros Hf Hl. revert st; induction Hl; intros; simpl; auto. Qed.

#[local] Hint Resolve word_u64 ROTL64_u64 xor_at_u64 chi_u64 : uint.

Lemma keccakf_round_u64 st round :
  Forall is_u64 st -> Forall is_u64 (keccakf_round st round).
Proof.
  intros Hst. unfold keccakf_round.
  apply xor_at_u64; [apply word_u64; apply (bool_decide_unpack _); by vm_compute|].
  apply (foldl_u64 _ (fun _ => True)); [intros; unfold CHI; auto 10 with uint|by apply Forall_true|].
  unfold rho_pi.
  assert (forall s, Forall is_u64 s -> is_u64 (ROTL64 (word s 1) 1)) as Ht
    by (intros; apply ROTL64_u64; [lia|by apply word_u64]).
  assert (Forall is_u64 (foldl (THETA (theta_bc st)) st (seq 0 5))) as H1.
  { apply (foldl_u64 _ (fun _ => True)); [|by apply Forall_true|done].
    intros s i _ Hs. unfold THETA.
    assert (Forall is_u64 (theta_bc st)) as Hbc.
    { unfold theta_bc. rewrite Forall_map. apply Forall_true. intros. auto 10 with uint lia. }
    assert (is_u64 (Z.lxor (word (theta_bc st) ((i + 4) mod 5))
              (ROTL64 (word (theta_bc st) ((i + 1) mod 5)) 1))) as Hx.
    { apply is_uint_lxor; [lia|by apply word_u64|]. apply ROTL64_u64; [lia|by apply word_u64]. }
    repeat (apply xor_at_u64; [exact Hx|]). exact Hs. }
  apply Forall_insert; [|by apply Ht].
  apply (foldl_u64 _ (fun m : nat * nat * nat => (snd m <= 64)%nat)); [| |exact H1].
  - intros s [[a b] n] Hn Hs. apply Forall_insert; [done|].
    apply ROTL64_u64; [simpl in Hn; lia|by apply word_u64].
  - apply (bool_decide_unpack _). by vm_compute.
Qed.

Lemma keccakf_ok st rounds : state_ok st -> state_ok (keccakf st rounds).
Proof.
  intros [Hl Hst]. split; [by rewrite length_keccakf|].
  apply (foldl_u64 _ (fun _ => True)); [|by apply Forall_true|done].
  intros. by apply keccakf_round_u64.
Qed.

(** The proofs below never look inside the permutation. *)
#[local] Opaque keccakf.

(** ** Absorbing whole blocks *)

Fixpoint absorb_full (n : nat) (st m : list Z) : list Z :=
  match n with
  | O => st
  | S n' => absorb_full n' (absorb st (take 136 m) 17) (drop 136 m)
  end.

Lemma length_absorb_full n st m : length (absorb_full n st m) = length st.
Proof.
  revert st m; induction n as [|n IH]; intros st m; simpl; [done|]. by rewrite IH, length_absorb.
Qed.

Lemma absorb_full_app a b st x y :
  length x = (a * 136)%nat ->
  absorb_full (a + b) st (x ++ y) = absorb_full b (absorb_full a st x) y.
Proof.
  revert st x; induction a as [|a IH]; intros st x Hx; simpl.
  - by destruct x.
  - rewrite take_app_le, drop_app_le by lia. apply IH. rewrite length_drop. lia.
Qed.

Lemma absorb_full_prefix n st x y :
  (n * 136 <= length x)%nat -> absorb_full n st (x ++ y) = absorb_full n st x.
Proof.
  revert st x; induction n as [|n IH]; intros st x Hx; simpl; [done|].
  rewrite take_app_le, drop_app_le by lia. apply IH. rewrite length_drop. lia.
Qed.

(** [absorb] reads the first [8 * n] bytes only. *)
Lemma words_ext buf buf' n :
  take (n * 8) buf = take (n * 8) buf' -> words buf n = words buf' n.
Proof.
  intros H. apply map_ext_in. intros i Hi. apply in_seq in Hi. f_equal. unfold chunk.
  assert (forall b : list Z, take 8 (drop (i * 8) b) = take 8 (drop (i * 8) (take (n * 8) b))) as E.
  { intros b. rewrite skipn_firstn_comm, take_take. f_equal. lia. }
  by rewrite (E buf), (E buf'), H.
Qed.

Lemma absorb_ext st buf buf' :
  take 136 buf = take 136 buf' -> absorb st buf 17 = absorb st buf' 17.
Proof. intros H. unfold absorb. by rewrite (words_ext buf buf' 17). Qed.

Lemma sponge_loop fuel st input :
  (length input / 136 <= fuel)%nat ->
  let q := (length input / 136)%nat in
  while_fuel (fun s : list Z * list Z => HASH_DATA_AREA <=? Z.of_nat (length (snd s)))
    (absorb_step (Z.to_nat HASH_DATA_AREA)) fuel (st, input)
  = Some (absorb_full q st input, drop (q * 136) input).
Proof.
  revert st input; induction fuel as [|fuel IH]; intros st input Hf q; subst q;
    cbn [while_fuel snd]; unfold HASH_DATA_AREA at 1.
  - rewrite (proj2 (Z.leb_gt _ _)); [|pose proof (Nat.div_str_pos (length input) 136); lia].
    by replace (length input / 136)%nat with 0%nat by lia.
  - destruct (Z.leb_spec 136 (Z.of_nat (length input))) as [Hle|Hgt].
    + assert (length input / 136 = S (length (drop 136 input) / 136))%nat as E.
      { rewrite length_drop. replace (length input) with (length input - 136 + 1 * 136)%nat at 1 by lia.
        rewrite Nat.div_add by lia. lia. }
      cbn [absorb_step]. change (Z.to_nat HASH_DATA_AREA) with 136%nat.
      change (136 / 8)%nat with 17%nat. rewrite IH by lia. rewrite E. cbn [absorb_full].
      rewrite drop_drop. do 2 f_equal.
    + by replace (length input / 136)%nat with 0%nat by (rewrite Nat.div_small; lia).
Qed.

(** ** The incremental interface against the one-shot sponge *)

(** [ctx] has been fed the message [m] and is not finalised. *)
Record ctx_rep (m : list Z) (ctx : KECCAK_CTX) : Prop := {
  rep_hash : hash ctx = absorb_full (length m / 136) (replicate 25 0) m;
  rep_rest : rest ctx = Z.of_nat (length m mod 136);
  rep_len : length (message ctx) = 136%nat;
  rep_message : take (length m mod 136) (message ctx) = drop (length m / 136 * 136) m;
}.

Lemma divmod136 n : exists q r, (n / 136 = q /\ n mod 136 = r /\ n = q * 136 + r /\ r < 136)%nat.
Proof.
  exists (n / 136)%nat, (n mod 136)%nat. split_and!; try done.
  - pose proof (Nat.div_mod_eq n 136). lia.
  - apply Nat.mod_upper_bound. lia.
Qed.

Lemma length_memcpy_at buf off src :
  (off + length src <= length buf)%nat -> length (memcpy_at buf off src) = length buf.
Proof. intros. unfold memcpy_at. rewrite !length_app, length_take, length_drop. lia. Qed.

Lemma update_blocks_loop fuel h msg input :
  (length input / 136 <= fuel)%nat -> length msg = 136%nat ->
  let q := (length input / 136)%nat in
  exists msg', length msg' = 136%nat /\
  while_fuel (fun s : list Z * list Z * list Z => KECCAK_BLOCKLEN <=? Z.of_nat (length (snd s)))
    update_step fuel (h, msg, input)
  = Some (absorb_full q h input, msg', drop (q * 136) input).
Proof.
  revert h msg input; induction fuel as [|fuel IH]; intros h msg input Hf Hmsg q; subst q;
    cbn [while_fuel snd]; unfold KECCAK_BLOCKLEN at 1.
  - rewrite (proj2 (Z.leb_gt _ _)); [|pose proof (Nat.div_str_pos (length input) 136); lia].
    replace (length input / 136)%nat with 0%nat by lia. by exists msg.
  - destruct (Z.leb_spec 136 (Z.of_nat (length input))) as [Hle|Hgt].
    + assert (length input / 136 = S (length (drop 136 input) / 136))%nat as E.
      { rewrite length_drop. replace (length input) with (length input - 136 + 1 * 136)%nat at 1 by lia.
        rewrite Nat.div_add by lia. lia. }
      cbn [update_step].
      assert (memcpy_at msg 0 (take 136 input) = take 136 input) as ->.
      { unfold memcpy_at. rewrite take_0, drop_ge; [by rewrite app_nil_r|].
        rewrite length_take. lia. }
      destruct (IH (KECCAK_PROCESS_BLOCK h (take 136 input)) (take 136 input) (drop 136 input))
        as (msg' & Hmsg' & ->); [lia|rewrite length_take; lia|].
      exists msg'. split; [done|]. rewrite E. cbn [absorb_full]. rewrite drop_drop.
      do 2 f_equal.
    + exists msg. split; [done|].
      by replace (length input / 136)%nat with 0%nat by (rewrite Nat.div_small; lia).
Qed.

(** The whole-block part of an update, from a block boundary. *)
Lemma update_blocks_rep q m msg input :
  length m = (q * 136)%nat -> length msg = 136%nat ->
  exists ctx, keccak_update_blocks (absorb_full q (replicate 25 0) m) msg input
                (Z.of_nat (length (m ++ input) mod 136)) = Some ctx /\
    ctx_rep (m ++ input) ctx.
Proof.
  intros Hm Hmsg. unfold keccak_update_blocks.
  destruct (update_blocks_loop (length input) (absorb_full q (replicate 25 0) m) msg input)
    as (msg' & Hmsg' & ->); [apply Nat.Div0.div_le_upper_bound; lia|done|].
  destruct (divmod136 (length input)) as (q' & r & -> & Hr & Hlen & Hr136).
  eexists. split; [reflexivity|].
  assert (length (m ++ input) / 136 = q + q' /\ length (m ++ input) mod 136 = r)%nat as [Eq Er].
  { rewrite length_app, Hm. split.
    - symmetry. apply Nat.div_unique with r; lia.
    - symmetry. apply Nat.mod_unique with (q + q')%nat; lia. }
  split; cbn [hash rest message]; rewrite ?Eq, ?Er; try done.
  - by rewrite absorb_full_app.
  - case_match; [|done]. rewrite length_memcpy_at; [done|]. rewrite length_drop. lia.
  - rewrite drop_app_ge by lia. rewrite length_drop.
    replace ((q + q') * 136 - length m)%nat with (q' * 136)%nat by lia.
    destruct (Nat.ltb_spec 0 (length input - q' * 136)) as [Hpos|Hz].
    + unfold memcpy_at. rewrite take_0. cbn [app].
      apply take_app_length'. rewrite length_drop. lia.
    + replace r with 0%nat by lia. rewrite take_0, drop_ge by lia. done.
Qed.

Lemma finalized_bit r : 0 <= r < 136 -> (Z.land r KECCAK_FINALIZED =? 0) = true.
Proof.
  intros Hr. assert (forallb (fun r => Z.land r KECCAK_FINALIZED =? 0) (seqZ 0 136) = true) as H
    by (by vm_compute).
  rewrite forallb_forall in H. apply H, list_elem_of_In, elem_of_seqZ. lia.
Qed.

Lemma keccak_update_rep m ctx input :
  ctx_rep m ctx -> Z.of_nat (length (m ++ input)) < 2 ^ 64 ->
  exists ctx', keccak_update ctx input = Some ctx' /\ ctx_rep (m ++ input) ctx'.
Proof.
  intros [Hh Hrest Hml Hmsg] Hbound. unfold keccak_update.
  destruct (divmod136 (length m)) as (q & r & Eq & Er & Hlen & Hr). rewrite Eq, Er in *.
  rewrite Hrest, finalized_bit by lia. cbn [negb].
  replace (u64 (Z.of_nat r + Z.of_nat (length input)) mod KECCAK_BLOCKLEN)
    with (Z.of_nat (length (m ++ input) mod 136)).
  2: { rewrite length_app in *. rewrite wrapu_small by (unfold is_uint; lia).
       unfold KECCAK_BLOCKLEN. rewrite Nat2Z.inj_mod, Nat2Z.inj_add, Hlen. zdm. }
  destruct (Z.eqb_spec (Z.of_nat r) 0) as [Hr0|Hr0]; cbn [negb].
  { rewrite Hh. apply update_blocks_rep; [lia|done]. }
  unfold KECCAK_BLOCKLEN. rewrite Nat2Z.id.
  assert (length (drop (q * 136) m) = r) as Hdl by (rewrite length_drop; lia).
  destruct (Z.ltb_spec (Z.of_nat (length input)) (136 - Z.of_nat r)) as [Hlt|Hge].
  - eexists. split; [reflexivity|].
    assert (length (m ++ input) / 136 = q /\ length (m ++ input) mod 136 = r + length input)%nat
      as [Eq' Er'].
    { rewrite length_app. split; symmetry.
      - apply Nat.div_unique with (r + length input)%nat; lia.
      - apply Nat.mod_unique with q; lia. }
    rewrite Nat2Z.id, take_ge by lia.
    split; cbn [hash rest message]; rewrite ?Eq', ?Er'; try done.
    + rewrite Hh. symmetry. apply absorb_full_prefix. lia.
    + rewrite length_memcpy_at; [done|lia].
    + unfold memcpy_at. rewrite Hmsg, app_assoc, drop_app_le by lia.
      apply take_app_length'. rewrite length_app. lia.
  - set (left := Z.to_nat (136 - Z.of_nat r)).
    assert (length (take left input) = left) as Hll by (rewrite length_take; lia).
    assert (memcpy_at (message ctx) r (take left input) = drop (q * 136) m ++ take left input) as ->.
    { unfold memcpy_at. rewrite Hmsg, (drop_ge (message ctx)), app_nil_r by lia. done. }
    assert (KECCAK_PROCESS_BLOCK (hash ctx) (drop (q * 136) m ++ take left input)
      = absorb_full (q + 1) (replicate 25 0) (m ++ take left input)) as ->.
    { rewrite <- (take_drop (q * 136) m) at 2. rewrite <- app_assoc, absorb_full_app.
      2: { rewrite length_take. lia. }
      cbn [absorb_full].
      rewrite (take_ge (drop (q * 136) m ++ take left input)) by (rewrite length_app; lia).
      rewrite Hh, <- (take_drop (q * 136) m) at 1.
      rewrite absorb_full_prefix by (rewrite length_take; lia). done. }
    replace (m ++ input) with ((m ++ take left input) ++ drop left input)
      by (by rewrite <- app_assoc, take_drop).
    apply update_blocks_rep; rewrite length_app, Hll; lia.
Qed.

Lemma keccak_init_rep : ctx_rep [] keccak_init.
Proof. by split. Qed.

(** The padded last block, as [keccak] builds it in [temp] and
    [keccak_finish] in [message]. *)
Lemma pad_block (tl msg : list Z) :
  (length tl < 136)%nat -> length msg = 136%nat -> take (length tl) msg = tl ->
  let r := length tl in
  let temp := <[r := 1]> (tl ++ drop r (replicate 144 0)) in
  let temp := <[135%nat := Z.lor (nth 135 temp 0) 0x80]> temp in
  let message := memcpy_at msg r (replicate (136 - r) 0) in
  let message := <[r := Z.lor (nth r message 0) 0x01]> message in
  let message := <[135%nat := Z.lor (nth 135 message 0) 0x80]> message in
  take 136 temp = take 136 message.
Proof.
  intros Hr Hmsg Htake r. cbv zeta.
  assert (memcpy_at msg r (replicate (136 - r) 0) = tl ++ replicate (136 - r) 0) as ->.
  { unfold memcpy_at. subst r. rewrite Htake, length_replicate, drop_ge by lia.
    by rewrite app_nil_r. }
  set (x := tl ++ 1 :: replicate (135 - r) 0).
  assert (<[r := 1]> (tl ++ drop r (replicate 144 0)) = x ++ replicate 8 0) as ->.
  { rewrite drop_replicate, insert_app_r_alt, Nat.sub_diag by lia.
    replace (144 - r)%nat with (S (135 - r) + 8)%nat by lia.
    rewrite replicate_add. subst x. by rewrite <- app_assoc. }
  assert (<[r := Z.lor (nth r (tl ++ replicate (136 - r) 0) 0) 1]>
            (tl ++ replicate (136 - r) 0) = x) as ->.
  { rewrite insert_app_r_alt, app_nth2, Nat.sub_diag by lia.
    by replace (136 - r)%nat with (S (135 - r)) by lia. }
  assert (length x = 136%nat) as Hx
    by (subst x; rewrite length_app; cbn [length]; rewrite length_replicate; lia).
  clearbody x. rewrite app_nth1, insert_app_l by lia.
  by rewrite take_app_le by (rewrite length_insert; lia).
Qed.

Lemma keccak_one_shot m :
  let q := (length m / 136)%nat in
  let tl := drop (q * 136) m in
  let temp := <[length tl := 1]> (tl ++ drop (length tl) (replicate 144 0)) in
  let temp := <[135%nat := Z.lor (nth 135 temp 0) 0x80]> temp in
  let st := absorb (absorb_full q (replicate 25 0) m) temp 17 in
  keccak m 32 = Some (concat (map (le_bytes 8) (take 4 st))) /\
  keccak m 200 = Some (concat (map (le_bytes 8) (take 25 st))).
Proof.
  intros q tl temp0 temp st.
  assert (length m / 136 <= length m)%nat as Hf by (apply Nat.Div0.div_le_upper_bound; lia).
  pose proof (sponge_loop (length m) (replicate 25 0) m Hf) as Hloop. cbv zeta in Hloop.
  split; unfold keccak;
    repeat match goal with |- context [if ?b then _ else _] =>
      let v := eval vm_compute in b in change b with v; cbv iota zeta end;
    change (200 - 2 * 32) with HASH_DATA_AREA; rewrite Hloop; done.
Qed.

Lemma keccak_finish_rep m ctx :
  ctx_rep m ctx -> keccak m 32 = Some (snd (keccak_finish ctx)).
Proof.
  intros [Hh Hrest Hml Hmsg]. destruct (keccak_one_shot m) as [-> _].
  destruct (divmod136 (length m)) as (q & r & Eq & Er & Hlen & Hr). rewrite Eq, Er in *.
  unfold keccak_finish. rewrite Hrest, finalized_bit by lia. cbn [snd hash].
  rewrite Nat2Z.id. f_equal. f_equal. f_equal.
  change (Z.to_nat (KECCAK_DIGESTSIZE / 8)) with 4%nat. f_equal.
  unfold KECCAK_PROCESS_BLOCK. change (Z.to_nat KECCAK_WORDS) with 17%nat. rewrite Hh.
  set (tl := drop (q * 136) m) in *.
  assert (length tl = r) as Htl by (subst tl; rewrite length_drop; lia).
  apply absorb_ext. rewrite <- Htl. apply pad_block; [lia|done|by rewrite Htl].
Qed.

(** ** Digests *)

Lemma length_digest n st :
  (n <= length st)%nat -> length (concat (map (le_bytes 8) (take n st))) = (n * 8)%nat.
Proof.
  revert st; induction n as [|n IH]; intros st Hn; [done|].
  destruct st as [|w st]; [simpl in Hn; lia|]. cbn [take map concat].
  rewrite length_app, length_le_bytes, IH by (simpl in Hn; lia). lia.
Qed.

Lemma digest_ok (st : list Z) : bytes_ok (concat (map (le_bytes 8) st)).
Proof.
  unfold bytes_ok. rewrite Forall_concat, Forall_map. apply Forall_true. intros. apply le_bytes_ok.
Qed.

Lemma digest_take (st : list Z) n k :
  (k <= n)%nat -> (n <= length st)%nat ->
  take (k * 8) (concat (map (le_bytes 8) (take n st))) = concat (map (le_bytes 8) (take k st)).
Proof.
  intros Hk Hn. replace (take n st) with (take k st ++ drop k (take n st)).
  - rewrite map_app, concat_app. apply take_app_length'. rewrite length_digest; lia.
  - rewrite <- (take_drop k (take n st)) at 2. by rewrite take_take, Nat.min_l by done.
Qed.

(** [cn_fast_hash] never aborts; it is 32 bytes and equals the 32-byte
    [keccak]. *)
Lemma cn_fast_hash_keccak m : exists h,
  cn_fast_hash m = Some h /\ keccak m 32 = Some h /\ length h = 32%nat /\ bytes_ok h.
Proof.
  destruct (keccak_one_shot m) as [H32 H200]. unfold cn_fast_hash, hash_process, keccak1600.
  rewrite H200, H32. cbn [mbind option_bind]. eexists.
  change (Z.to_nat HASH_SIZE) with (4 * 8)%nat.
  rewrite digest_take by (rewrite ?length_absorb, ?length_absorb_full, ?length_replicate; lia).
  split_and!; try done; [|apply digest_ok].
  rewrite length_digest; [done|]. rewrite length_absorb, length_absorb_full, length_replicate. lia.
Qed.

(** [crypto::cn_fast_hash] of [hash.h] as a function to 32-byte strings. *)
Definition crypto_cn_fast_hash (data : list Z) : list Z := default [] (cn_fast_hash data).

#[export] Instance cn_fast_hash_hash32 : Hash32 crypto_cn_fast_hash.
Proof.
  split; intros l; unfold crypto_cn_fast_hash;
    destruct (cn_fast_hash_keccak l) as (h & -> & _ & Hl & Hok); done.
Qed.

(** ** Properties *)

(** Feed the pieces of a message to a context one by one. *)
Definition keccak_update_all (chunks : list (list Z)) : option KECCAK_CTX :=
  foldl (fun acc c => ctx ← acc; keccak_update ctx c) (Some keccak_init) chunks.

Lemma keccak_update_all_rep chunks :
  Z.of_nat (length (concat chunks)) < 2 ^ 64 ->
  exists ctx, keccak_update_all chunks = Some ctx /\ ctx_rep (concat chunks) ctx.
Proof.
  induction chunks as [|c chunks IH] using rev_ind; intros Hlen.
  { exists keccak_init. split; [done|apply keccak_init_rep]. }
  rewrite concat_app in *. cbn [concat] in *. rewrite app_nil_r in *.
  destruct IH as (ctx & Hall & Hrep); [rewrite length_app in Hlen; lia|].
  unfold keccak_update_all in *. rewrite foldl_app, Hall. cbn [foldl mbind option_bind].
  by apply keccak_update_rep.
Qed.

(** C34: the incremental Keccak interface is the one-shot hash: for a message
    fed in any pieces (empty, partial or many blocks at a time),
    [keccak_init], the [keccak_update]s and [keccak_finish] never abort and
    produce [keccak] of the whole message at digest size 32, which is also
    [cn_fast_hash] of it. *)
Theorem keccak_incremental_correct chunks :
  Z.of_nat (length (concat chunks)) < 2 ^ 64 ->
  exists ctx, keccak_update_all chunks = Some ctx /\
    keccak (concat chunks) 32 = Some (snd (keccak_finish ctx)) /\
    cn_fast_hash (concat chunks) = Some (snd (keccak_finish ctx)).
Proof.
  intros Hlen. destruct (keccak_update_all_rep chunks Hlen) as (ctx & Hall & Hrep).
  exists ctx. split; [done|]. pose proof (keccak_finish_rep _ _ Hrep) as Hfin.
  split; [done|]. destruct (cn_fast_hash_keccak (concat chunks)) as (h & -> & Hk & _).
  congruence.
Qed.

Lemma keccak_incremental_witness :
  exists ctx, keccak_update_all [[97]; []; [98; 99]] = Some ctx /\
    keccak (concat [[97]; []; [98; 99]]) 32 = Some (snd (keccak_finish ctx)) /\
    cn_fast_hash (concat [[97]; []; [98; 99]]) = Some (snd (keccak_finish ctx)).
Proof. apply (keccak_incremental_correct [[97]; []; [98; 99]]). by vm_compute. Defined.
