(* ===== verification/KeccakSpec.v ===== *)
(** * Keccak against its definition

    The permutation and the sponge as the Keccak reference defines them, on
    the bits [A[x, y, z]] of the state: the five steps theta, rho, pi, chi and
    iota with the rotation offsets of the walk and the round constants of the
    shift register, the padding 10*1 and the absorption of 1088-bit blocks.
    [src/crypto/keccak.c], with its unrolled loops, in-place moves and tables,
    computes them. *)

From S2P Require Import Prelude Keccak.

(** ** The definition *)

(** The state: the bit at [x], [y] (below 5) and [z] (below 64). *)
Definition lanes := nat -> nat -> Z -> bool.

Definition agree (A B : lanes) : Prop :=
  forall x y z, (x < 5)%nat -> (y < 5)%nat -> 0 <= z < 64 -> A x y z = B x y z.

Definition parity (A : lanes) (x : nat) (z : Z) : bool :=
  foldl (fun p y => xorb p (A x y z)) false (seq 0 5).

Definition theta (A : lanes) : lanes := fun x y z =>
  xorb (A x y z) (xorb (parity A ((x + 4) mod 5)%nat z) (parity A ((x + 1) mod 5)%nat ((z - 1) mod 64))).

(** The offset of a lane: (t + 1)(t + 2)/2 at step [t] of the walk from
    (1, 0) by (x, y) -> (y, 2x + 3y), which passes all lanes but (0, 0). *)
Fixpoint offset_walk (n : nat) (t : Z) (px py x y : nat) : Z :=
  match n with
  | O => 0
  | S n' =>
      if (px =? x)%nat && (py =? y)%nat then (t + 1) * (t + 2) / 2
      else offset_walk n' (t + 1) py ((2 * px + 3 * py) mod 5) x y
  end.

Definition rho_offset (x y : nat) : Z := offset_walk 24 0 1 0 x y mod 64.

Definition rho (A : lanes) : lanes := fun x y z => A x y ((z - rho_offset x y) mod 64).

Definition pi (A : lanes) : lanes := fun x y z => A ((x + 3 * y) mod 5)%nat x z.

Definition chi (A : lanes) : lanes := fun x y z =>
  xorb (A x y z) (negb (A ((x + 1) mod 5)%nat y z) && A ((x + 2) mod 5)%nat y z).

(** The shift register of x^8 + x^6 + x^5 + x^4 + 1. *)
Definition lfsr_step (r : Z) : Z := if Z.testbit (2 * r) 8 then Z.lxor (2 * r) 0x171 else 2 * r.

Definition rc (t : nat) : bool := Z.testbit (Nat.iter (t mod 255) lfsr_step 1) 0.

Definition round_constant (ir : nat) (z : Z) : bool :=
  existsb (fun j => (z =? 2 ^ Z.of_nat j - 1) && rc (j + 7 * ir)) (seq 0 7).

Definition iota (ir : nat) (A : lanes) : lanes := fun x y z =>
  xorb (A x y z) ((x =? 0)%nat && (y =? 0)%nat && round_constant ir z).

Definition keccak_round (ir : nat) (A : lanes) : lanes := iota ir (chi (pi (rho (theta A)))).

Definition keccak_p (rounds : nat) (A : lanes) : lanes :=
  foldl (fun A ir => keccak_round ir A) A (seq 0 rounds).

(** Bit [i] of a byte string, least significant bit of a byte first. *)
Definition bit_of (m : list Z) (i : Z) : bool := Z.testbit (nth (Z.to_nat (i / 8)) m 0) (i mod 8).

(** The blocks of a message: it is followed by a 1, zeroes and a 1 that ends
    a block. *)
Definition nblocks (m : list Z) : nat := S (length m / 136).

Definition padded_bit (m : list Z) (i : Z) : bool :=
  if i <? 8 * Z.of_nat (length m) then bit_of m i
  else (i =? 8 * Z.of_nat (length m)) || (i =? 1088 * Z.of_nat (nblocks m) - 1).

Definition lane (x y : nat) : nat := (x + 5 * y)%nat.

Definition absorb_block (m : list Z) (A : lanes) (k : nat) : lanes :=
  keccak_p 24 (fun x y z => xorb (A x y z)
    ((lane x y <? 17)%nat && padded_bit m (1088 * Z.of_nat k + 64 * Z.of_nat (lane x y) + z))).

Definition sponge (m : list Z) : lanes :=
  foldl (absorb_block m) (fun _ _ _ => false) (seq 0 (nblocks m)).

(** ** The steps respect [agree] *)

#[export] Instance agree_equiv : Equivalence agree.
Proof.
  split; unfold agree; [done|intros A B H x y z ???; symmetry; by apply H|].
  intros A B C H1 H2 x y z ???. rewrite H1 by done. by apply H2.
Qed.

Lemma mod5_lt n : (n mod 5 < 5)%nat.
Proof. apply Nat.mod_upper_bound. lia. Qed.

Create HintDb keccak_agree.
#[local] Hint Resolve mod5_lt : keccak_agree.
#[local] Hint Extern 1 (0 <= _ mod 64 < 64) => (apply Z.mod_pos_bound; lia) : keccak_agree.
#[local] Hint Extern 1 (_ < _)%nat => lia : keccak_agree.

Lemma parity_agree A B x z : agree A B -> (x < 5)%nat -> 0 <= z < 64 -> parity A x z = parity B x z.
Proof. intros H Hx Hz. unfold parity. cbn [seq foldl]. by rewrite !H by (done || lia). Qed.

#[export] Instance theta_proper : Proper (agree ==> agree) theta.
Proof.
  intros A B H x y z ???. unfold theta. rewrite (H x y z) by done.
  by rewrite !(parity_agree A B) by auto with keccak_agree.
Qed.

#[export] Instance rho_proper : Proper (agree ==> agree) rho.
Proof. intros A B H x y z ???. unfold rho. apply H; auto with keccak_agree. Qed.

#[export] Instance pi_proper : Proper (agree ==> agree) pi.
Proof. intros A B H x y z ???. unfold pi. apply H; auto with keccak_agree. Qed.

#[export] Instance chi_proper : Proper (agree ==> agree) chi.
Proof. intros A B H x y z ???. unfold chi. by rewrite !(H _ y z) by auto with keccak_agree. Qed.

#[export] Instance iota_proper ir : Proper (agree ==> agree) (iota ir).
Proof. intros A B H x y z ???. unfold iota. by rewrite (H x y z). Qed.

#[export] Instance keccak_round_proper ir : Proper (agree ==> agree) (keccak_round ir).
Proof. intros A B H. unfold keccak_round. by rewrite H. Qed.

#[export] Instance keccak_p_proper rounds : Proper (agree ==> agree) (keccak_p rounds).
Proof.
  unfold keccak_p. generalize (seq 0 rounds). intros l.
  induction l as [|ir l IH]; intros A B H; cbn [foldl]; [done|]. apply IH. by rewrite H.
Qed.

(** ** The rounds *)

Definition bits (st : list Z) : lanes := fun x y z => Z.testbit (word st (lane x y)) z.

Lemma word_map f n i : (i < n)%nat -> word (map f (seq 0 n)) i = f i.
Proof. intros Hi. unfold word. rewrite (nth_indep _ 0 (f 0%nat)) by (by rewrite length_map, length_seq).
  rewrite map_nth, seq_nth by done. done. Qed.

Lemma ROTL64_testbit x y z : is_u64 x -> 0 <= y < 64 -> 0 <= z < 64 ->
  Z.testbit (ROTL64 x y) z = Z.testbit x ((z - y) mod 64).
Proof.
  intros Hx Hy Hz. unfold ROTL64. rewrite Z.lor_spec. unfold wrapu. rewrite Z.mod_pow2_bits_low by lia.
  rewrite Z.shiftl_spec, Z.shiftr_spec by lia.
  apply (is_uint_bits 64 x) in Hx as [_ Hx]; [|lia]. destruct (Z.le_gt_cases y z).
  - rewrite (Hx (z + _)) by lia. by rewrite orb_false_r, Z.mod_small by lia.
  - rewrite (Z.testbit_neg_r x (z - y)) by lia. cbn [orb]. f_equal. zdm.
Qed.

(** The three in-place steps, lane by lane. *)
Lemma theta_lanes st : length st = 25%nat ->
  foldl (THETA (theta_bc st)) st (seq 0 5) =
  map (fun i => Z.lxor (word st i) (Z.lxor (word (theta_bc st) ((i mod 5 + 4) mod 5))
                  (ROTL64 (word (theta_bc st) ((i mod 5 + 1) mod 5)) 1))) (seq 0 25).
Proof. intros H. do 25 (destruct st as [|? st]; [done|]). destruct st; [reflexivity|done]. Qed.

Lemma rho_pi_lanes st : length st = 25%nat ->
  rho_pi st =
  map (fun i => let x := ((i mod 5 + 3 * (i / 5)) mod 5)%nat in let y := (i mod 5)%nat in
         if (i =? 0)%nat then word st 0 else ROTL64 (word st (lane x y)) (rho_offset x y)) (seq 0 25).
Proof. intros H. do 25 (destruct st as [|? st]; [done|]). destruct st; [reflexivity|done]. Qed.

Lemma chi_lanes st : length st = 25%nat ->
  foldl CHI st [0; 5; 10; 15; 20]%nat =
  map (fun i => let x := (i mod 5)%nat in let y := (i / 5)%nat in
         Z.lxor (word st i) (Z.land (u64 (Z.lnot (word st (lane ((x + 1) mod 5) y))))
                                    (word st (lane ((x + 2) mod 5) y)))) (seq 0 25).
Proof. intros H. do 25 (destruct st as [|? st]; [done|]). destruct st; [reflexivity|done]. Qed.

Lemma word_xor_at i t st : (i < length st)%nat -> word (xor_at i t st) i = Z.lxor (word st i) t.
Proof. intros Hi. unfold xor_at, word at 1. by rewrite nth_lookup, list_lookup_insert_eq. Qed.

Lemma word_xor_at_ne i j t st : j <> i -> word (xor_at i t st) j = word st j.
Proof. intros Hj. unfold xor_at, word at 1 3. by rewrite !nth_lookup, list_lookup_insert_ne. Qed.

Lemma lane_coords x y : (x < 5)%nat -> (lane x y mod 5 = x /\ lane x y / 5 = y)%nat.
Proof.
  intros Hx. unfold lane. rewrite Nat.mul_comm. split.
  - rewrite Nat.Div0.mod_add. by apply Nat.mod_small.
  - rewrite Nat.div_add, Nat.div_small by lia. done.
Qed.

Lemma lane_lt x y : (x < 5)%nat -> (y < 5)%nat -> (lane x y < 25)%nat.
Proof. unfold lane. lia. Qed.

(** The round constants of the table are those of the register. *)
Lemma round_constants_ok ir z : (ir < 24)%nat -> 0 <= z < 64 ->
  Z.testbit (word keccakf_rndc ir) z = round_constant ir z.
Proof.
  intros Hir Hz.
  assert (forallb (fun ir => forallb (fun z => eqb (Z.testbit (word keccakf_rndc ir) (Z.of_nat z))
    (round_constant ir (Z.of_nat z))) (seq 0 64)) (seq 0 24) = true) as H by (by vm_compute).
  rewrite forallb_forall in H. specialize (H ir). rewrite in_seq, forallb_forall in H.
  specialize (H ltac:(lia) (Z.to_nat z)). rewrite in_seq, Z2Nat.id in H by lia.
  apply eqb_prop, H. lia.
Qed.

Lemma rho_offset_range x y : 0 <= rho_offset x y < 64.
Proof. apply Z.mod_pos_bound. lia. Qed.

Lemma bc_u64 st x : state_ok st -> (x < 5)%nat -> is_u64 (word (theta_bc st) x).
Proof.
  intros [_ Hst] Hx. unfold theta_bc. rewrite word_map by done.
  repeat (apply is_uint_lxor; [lia| |by apply word_u64]). by apply word_u64.
Qed.

Lemma bc_bits st x z : (x < 5)%nat -> Z.testbit (word (theta_bc st) x) z = parity (bits st) x z.
Proof.
  intros Hx. unfold theta_bc. rewrite word_map by done. rewrite !Z.lxor_spec.
  unfold parity, bits, lane. cbn [seq foldl]. by rewrite xorb_false_l, Nat.add_0_r.
Qed.

Lemma map_state_ok f : (forall i, is_u64 (f i)) -> state_ok (map f (seq 0 25)).
Proof. intros Hf. split; [done|]. rewrite Forall_map. by apply Forall_true. Qed.

Lemma theta_bits st : state_ok st ->
  let st' := foldl (THETA (theta_bc st)) st (seq 0 5) in state_ok st' /\ agree (bits st') (theta (bits st)).
Proof.
  intros Hst. cbv zeta. rewrite theta_lanes by apply Hst.
  assert (forall i, is_u64 (word (theta_bc st) (i mod 5))) as Hbc by (intros; apply bc_u64, mod5_lt; done).
  split.
  - apply map_state_ok. intros i. apply is_uint_lxor; [lia|apply word_u64, Hst|].
    apply is_uint_lxor; [lia|done|]. apply ROTL64_u64; [lia|done].
  - intros x y z Hx Hy Hz. unfold bits at 1.
    rewrite word_map by (by apply lane_lt). destruct (lane_coords x y Hx) as [-> _].
    rewrite !Z.lxor_spec, ROTL64_testbit, !bc_bits by (done || lia || apply mod5_lt). done.
Qed.

Lemma rho_pi_bits st : state_ok st ->
  state_ok (rho_pi st) /\ agree (bits (rho_pi st)) (pi (rho (bits st))).
Proof.
  intros [Hl Hst]. rewrite rho_pi_lanes by done. split.
  - apply map_state_ok. intros i. cbv zeta. case_match; [by apply word_u64|].
    apply ROTL64_u64; [|by apply word_u64]. pose proof (rho_offset_range ((i mod 5 + 3 * (i / 5)) mod 5) (i mod 5)). lia.
  - intros x y z Hx Hy Hz. unfold bits at 1.
    rewrite word_map by (by apply lane_lt). destruct (lane_coords x y Hx) as [-> ->]. cbv zeta. unfold pi, rho, bits.
    destruct (Nat.eqb_spec (lane x y) 0) as [E|_].
    + unfold lane in E. assert (x = 0 /\ y = 0)%nat as [-> ->] by lia.
      change (rho_offset _ _) with 0. by rewrite Z.sub_0_r, Z.mod_small by lia.
    + apply ROTL64_testbit; [by apply word_u64|apply rho_offset_range|done].
Qed.

Lemma chi_bits st : state_ok st ->
  let st' := foldl CHI st [0; 5; 10; 15; 20]%nat in state_ok st' /\ agree (bits st') (chi (bits st)).
Proof.
  intros [Hl Hst]. cbv zeta. rewrite chi_lanes by done. split.
  - apply map_state_ok. intros i. apply is_uint_lxor; [lia|by apply word_u64|by apply chi_u64].
  - intros x y z Hx Hy Hz. unfold bits at 1.
    rewrite word_map by (by apply lane_lt). destruct (lane_coords x y Hx) as [-> ->]. cbv zeta. unfold chi, bits.
    rewrite Z.lxor_spec, Z.land_spec. unfold wrapu. by rewrite Z.mod_pow2_bits_low, Z.lnot_spec by lia.
Qed.

Lemma iota_bits st ir : state_ok st -> (ir < 24)%nat ->
  agree (bits (xor_at 0 (word keccakf_rndc ir) st)) (iota ir (bits st)).
Proof.
  intros [Hl _] Hir x y z Hx Hy Hz. unfold iota, bits.
  destruct (decide (lane x y = 0%nat)) as [E|E].
  - unfold lane in E. assert (x = 0 /\ y = 0)%nat as [-> ->] by lia. change (lane 0 0) with 0%nat. cbn [Nat.eqb andb].
    rewrite word_xor_at by (rewrite Hl; lia). by rewrite Z.lxor_spec, round_constants_ok.
  - rewrite word_xor_at_ne by done. unfold lane in E.
    destruct (Nat.eqb_spec x 0), (Nat.eqb_spec y 0); cbn [andb]; try lia; by rewrite xorb_false_r.
Qed.

Lemma round_bits st ir : state_ok st -> (ir < 24)%nat ->
  agree (bits (keccakf_round st ir)) (keccak_round ir (bits st)).
Proof.
  intros Hst Hir. unfold keccakf_round.
  destruct (theta_bits st Hst) as [H1 E1]. set (st1 := foldl _ _ _) in *. clearbody st1.
  destruct (rho_pi_bits st1 H1) as [H2 E2]. set (st2 := rho_pi st1) in *. clearbody st2.
  destruct (chi_bits st2 H2) as [H3 E3]. set (st3 := foldl _ _ _) in *. clearbody st3.
  rewrite (iota_bits st3 ir H3 Hir). unfold keccak_round.
  by rewrite E3, E2, E1.
Qed.

Lemma keccakf_bits st rounds : state_ok st -> rounds <= 24 ->
  agree (bits (keccakf st rounds)) (keccak_p (Z.to_nat rounds) (bits st)).
Proof.
  intros Hst Hr. unfold keccakf, keccak_p. assert (Z.to_nat rounds <= 24)%nat as Hn by lia.
  revert Hn. generalize (Z.to_nat rounds). clear rounds Hr. intros n Hn.
  induction n as [|n IH]; [done|]. rewrite seq_S, !foldl_app. cbn [foldl Nat.add].
  rewrite round_bits; [by rewrite IH by lia| |lia].
  pose proof (keccakf_ok st (Z.of_nat n) Hst) as H. unfold keccakf in H. by rewrite Nat2Z.id in H.
Qed.

(** ** Absorbing a block *)

Lemma bit_of_app_l l l' i : 0 <= i < 8 * Z.of_nat (length l) -> bit_of (l ++ l') i = bit_of l i.
Proof. intros Hi. unfold bit_of. rewrite app_nth1; [done|]. assert (i / 8 < Z.of_nat (length l)) by zdm. lia. Qed.

Lemma le_value_bits l z : bytes_ok l -> 0 <= z -> Z.testbit (le_value l) z = bit_of l z.
Proof.
  intros Hl. revert z; induction Hl as [|b l Hb Hl IH]; intros z Hz; unfold bit_of.
  - rewrite Z.testbit_0_l. destruct (Z.to_nat _); cbn [nth]; by rewrite Z.testbit_0_l.
  - rewrite le_value_cons, Z.mul_comm. change 256 with (2 ^ 8). rewrite testbit_split by (done || lia).
    destruct (Z.ltb_spec z 8).
    + by rewrite Z.div_small, Z.mod_small by lia.
    + rewrite IH by lia. unfold bit_of. assert (z / 8 = (z - 8) / 8 + 1) as -> by zdm.
      rewrite Z2Nat.inj_add by zdm. rewrite Nat.add_1_r. cbn [nth]. f_equal. zdm.
Qed.

Lemma xor_words_nth ws st i : (length ws <= length st)%nat ->
  word (xor_words ws st) i = Z.lxor (word st i) (word ws i).
Proof.
  unfold xor_words. intros Hl.
  assert (forall k st, (k + length ws <= length st)%nat ->
    word (foldl (fun st p => xor_at (fst p) (snd p) st) st (imap (fun j w => ((k + j)%nat, w)) ws)) i =
    Z.lxor (word st i) (if (k <=? i)%nat then word ws (i - k) else 0)) as H.
  { clear. induction ws as [|w ws IH]; intros k st Hk.
    - cbn [imap foldl]. replace (if (k <=? i)%nat then word [] (i - k) else 0) with 0; [by rewrite Z.lxor_0_r|].
      unfold word. by destruct (k <=? i)%nat, (i - k)%nat.
    - rewrite imap_cons. cbn [foldl fst snd length] in *. rewrite Nat.add_0_r.
      rewrite (imap_ext _ (fun j w => ((S k + j)%nat, w))) by (intros; cbn; f_equal; lia).
      rewrite IH by (rewrite length_xor_at; lia).
      destruct (decide (i = k)) as [->|Hne].
      + rewrite word_xor_at by lia. rewrite (proj2 (Nat.leb_gt (S k) k)), Nat.leb_refl, Nat.sub_diag by lia.
        by rewrite Z.lxor_0_r.
      + rewrite word_xor_at_ne by done. destruct (Nat.leb_spec k i).
        * rewrite (proj2 (Nat.leb_le (S k) i)) by lia. by replace (i - k)%nat with (S (i - S k)) by lia.
        * by rewrite (proj2 (Nat.leb_gt (S k) i)) by lia. }
  specialize (H 0%nat st ltac:(lia)). by rewrite Nat.sub_0_r in H.
Qed.

Lemma words_bits buf n i z : bytes_ok buf -> (n * 8 <= length buf)%nat -> (i < n)%nat -> 0 <= z < 64 ->
  is_u64 (word (words buf n) i) /\
  Z.testbit (word (words buf n) i) z = bit_of buf (64 * Z.of_nat i + z).
Proof.
  intros Hb Hl Hi Hz. unfold words. rewrite word_map by done.
  assert (bytes_ok (chunk 8 buf i)) as Hc by (unfold chunk, bytes_ok; by apply Forall_take, Forall_drop).
  assert (length (chunk 8 buf i) = 8%nat) as Hcl by (unfold chunk; rewrite length_take, length_drop; lia).
  split; [pose proof (le_value_range _ Hc) as H; by rewrite Hcl in H|].
  rewrite le_value_bits by (done || lia). unfold bit_of, chunk.
  assert (z / 8 < 8) by zdm. assert (0 <= z / 8) by zdm.
  rewrite nth_lookup, lookup_take_lt, lookup_drop, <- nth_lookup by lia. f_equal; [f_equal|]; zdm.
Qed.

(** One block, as [absorb] takes it. *)
Lemma absorb_bits st buf : state_ok st -> bytes_ok buf -> (136 <= length buf)%nat ->
  state_ok (absorb st buf 17) /\
  agree (bits (absorb st buf 17))
    (keccak_p 24 (fun x y z => xorb (bits st x y z)
       ((lane x y <? 17)%nat && bit_of buf (64 * Z.of_nat (lane x y) + z)))).
Proof.
  intros [Hl Hst] Hb Hbl. unfold absorb.
  assert (length (words buf 17) = 17%nat) as Hw by (unfold words; by rewrite length_map, length_seq).
  assert (state_ok (xor_words (words buf 17) st)) as Hx.
  { split; [unfold xor_words; by rewrite length_foldl by (intros; apply length_xor_at)|].
    unfold xor_words. apply (foldl_u64 _ (fun p : nat * Z => is_u64 (snd p))); [intros; by apply xor_at_u64| |done].
    apply Forall_lookup. intros j p Hj. rewrite list_lookup_imap in Hj.
    destruct (words buf 17 !! j) as [w|] eqn:E; [|done]. injection Hj as <-. cbn [snd].
    pose proof (lookup_lt_Some _ _ _ E). replace w with (word (words buf 17) j) by (unfold word; by rewrite nth_lookup, E).
    by apply (words_bits buf 17 j 0); try lia. }
  split; [by apply keccakf_ok|]. rewrite keccakf_bits by done. change (Z.to_nat KECCAK_ROUNDS) with 24%nat.
  apply keccak_p_proper. intros x y z Hx' Hy' Hz. unfold bits. rewrite xor_words_nth by lia.
  rewrite Z.lxor_spec. f_equal. destruct (Nat.ltb_spec (lane x y) 17); cbn [andb].
  - by apply words_bits; try lia.
  - unfold word. rewrite nth_overflow by lia. apply Z.testbit_0_l.
Qed.

(** ** The sponge *)

Lemma absorb_full_S n st m :
  absorb_full (S n) st m = absorb (absorb_full n st m) (take 136 (drop (n * 136) m)) 17.
Proof.
  revert st m; induction n as [|n IH]; intros st m; [done|].
  change (absorb_full (S (S n)) st m) with (absorb_full (S n) (absorb st (take 136 m) 17) (drop 136 m)).
  rewrite IH, drop_drop. cbn [absorb_full]. done.
Qed.

Lemma nth_zeros n i : nth i (replicate n 0) 0 = 0.
Proof. revert i; induction n; intros [|i]; cbn; auto. Qed.

(** A block whose bytes carry the bits of the padded message. *)
Lemma absorb_padded m st A k buf :
  state_ok st -> agree (bits st) A -> bytes_ok buf -> (136 <= length buf)%nat ->
  (forall i, 0 <= i < 1088 -> bit_of buf i = padded_bit m (1088 * Z.of_nat k + i)) ->
  state_ok (absorb st buf 17) /\ agree (bits (absorb st buf 17)) (absorb_block m A k).
Proof.
  intros Hst HA Hb Hl Hbits. destruct (absorb_bits st buf Hst Hb Hl) as [Hok E]. split; [done|].
  rewrite E. apply keccak_p_proper. intros x y z Hx Hy Hz. rewrite HA by done. f_equal.
  destruct (Nat.ltb_spec (lane x y) 17); [|done]. cbn [andb]. rewrite Hbits by lia. f_equal. lia.
Qed.

Lemma bit_of_take_drop m k n i : 0 <= i < 8 * Z.of_nat n ->
  bit_of (take n (drop k m)) i = bit_of m (8 * Z.of_nat k + i).
Proof.
  intros Hi. unfold bit_of. assert (0 <= i / 8 < Z.of_nat n) by zdm.
  rewrite !nth_lookup, lookup_take_lt, lookup_drop by lia.
  replace ((8 * Z.of_nat k + i) mod 8) with (i mod 8) by zdm.
  by replace (Z.to_nat ((8 * Z.of_nat k + i) / 8)) with (k + Z.to_nat (i / 8))%nat by zdm.
Qed.

Lemma full_blocks_bits m n : bytes_ok m -> (n <= length m / 136)%nat ->
  state_ok (absorb_full n (replicate 25 0) m) /\
  agree (bits (absorb_full n (replicate 25 0) m)) (foldl (absorb_block m) (fun _ _ _ => false) (seq 0 n)).
Proof.
  intros Hm. induction n as [|n IH]; intros Hn.
  - split; [split; [done|apply Forall_replicate; by vm_compute]|].
    intros x y z Hx Hy Hz. cbn [absorb_full seq foldl]. unfold bits, word.
    rewrite nth_zeros. apply Z.testbit_0_l.
  - destruct IH as [Hok E]; [lia|].
    assert (S n * 136 <= length m)%nat as Hl.
    { etransitivity; [apply Nat.mul_le_mono_r, Hn|]. rewrite Nat.mul_comm. apply Nat.Div0.mul_div_le. }
    rewrite absorb_full_S, seq_S, foldl_app. cbn [foldl Nat.add].
    apply absorb_padded; [done|done|unfold bytes_ok; by apply Forall_take, Forall_drop|
      rewrite length_take, length_drop; lia|].
    intros i Hi. rewrite bit_of_take_drop by lia. unfold padded_bit.
    replace (8 * Z.of_nat (n * 136) + i) with (1088 * Z.of_nat n + i) by lia.
    destruct (Z.ltb_spec (1088 * Z.of_nat n + i) (8 * Z.of_nat (length m))); [done|lia].
Qed.

Lemma bit_of_insert l k b i : (k < length l)%nat -> 0 <= i ->
  bit_of (<[k := b]> l) i = if (i / 8 =? Z.of_nat k) then Z.testbit b (i mod 8) else bit_of l i.
Proof.
  intros Hk Hi. unfold bit_of. rewrite !nth_lookup. destruct (Z.eqb_spec (i / 8) (Z.of_nat k)) as [->|Hne].
  - by rewrite Nat2Z.id, list_lookup_insert_eq.
  - rewrite list_lookup_insert_ne; [done|]. assert (0 <= i / 8) by zdm. lia.
Qed.

Lemma small_bit n k : 0 <= k < 8 -> Z.testbit 1 k = (k =? 0) /\ Z.testbit (Z.lor n 0x80) k = Z.testbit n k || (k =? 7).
Proof.
  intros Hk. rewrite Z.lor_spec.
  assert (k = 0 \/ k = 1 \/ k = 2 \/ k = 3 \/ k = 4 \/ k = 5 \/ k = 6 \/ k = 7)
    as [->|[->|[->|[->|[->|[->|[->| ->]]]]]]] by lia; split; done.
Qed.

(** The last block of [keccak]: the rest of the message, a 1 and the final 0x80. *)
Lemma last_block_bits tl i : bytes_ok tl -> (length tl < 136)%nat -> 0 <= i < 1088 ->
  let temp := <[length tl := 1]> (tl ++ drop (length tl) (replicate 144 0)) in
  bit_of (<[135%nat := Z.lor (nth 135 temp 0) 0x80]> temp) i =
  if i <? 8 * Z.of_nat (length tl) then bit_of tl i
  else (i =? 8 * Z.of_nat (length tl)) || (i =? 1087).
Proof.
  intros Htl Hl Hi. cbv zeta. set (r := length tl) in *. rewrite drop_replicate.
  set (temp0 := tl ++ replicate (144 - r) 0).
  assert (length temp0 = 144%nat) as Hl0 by (unfold temp0; rewrite length_app, length_replicate; fold r; lia).
  assert (forall j, 0 <= j -> bit_of temp0 j = if j <? 8 * Z.of_nat r then bit_of tl j else false) as H0.
  { intros j Hj. destruct (Z.ltb_spec j (8 * Z.of_nat r)); [apply bit_of_app_l; fold r; lia|].
    assert (Z.of_nat r <= j / 8) by zdm. unfold bit_of, temp0. rewrite app_nth2 by (fold r; lia).
    rewrite nth_zeros. apply Z.testbit_0_l. }
  set (temp := <[r := 1]> temp0).
  assert (length temp = 144%nat) as Hl1 by (unfold temp; by rewrite length_insert).
  assert (forall j, 0 <= j -> bit_of temp j = if j <? 8 * Z.of_nat r then bit_of tl j else j =? 8 * Z.of_nat r) as H1.
  { intros j Hj. unfold temp. rewrite bit_of_insert, H0 by lia.
    destruct (small_bit 0 (j mod 8)) as [-> _]; [zdm|]. repeat bcase; try done; zdm. }
  rewrite bit_of_insert by lia. destruct (Z.eqb_spec (i / 8) (Z.of_nat 135)) as [E|E].
  - destruct (small_bit (nth 135 temp 0) (i mod 8)) as [_ ->]; [zdm|].
    assert (Z.testbit (nth 135 temp 0) (i mod 8) = bit_of temp i) as -> by (unfold bit_of; by rewrite E).
    rewrite H1 by lia. destruct (Z.ltb_spec i (8 * Z.of_nat r)); [zdm|]. f_equal. repeat bcase; try done; zdm.
  - rewrite H1 by lia. bcase; [done|]. assert (i <> 1087) by (intros ->; done).
    rewrite (proj2 (Z.eqb_neq i 1087)) by done. by rewrite orb_false_r.
Qed.

(** The bits of the output are those of the state, lane after lane. *)
Lemma output_bits st i : Forall is_u64 st -> 0 <= i < 64 * Z.of_nat (length st) ->
  bit_of (concat (map (le_bytes 8) st)) i = Z.testbit (word st (Z.to_nat (i / 64))) (i mod 64).
Proof.
  intros Hst. revert i; induction Hst as [|w st Hw Hst IH]; intros i Hi; cbn [map concat length] in *; [lia|].
  destruct (Z.le_gt_cases 64 i) as [H|H].
  - replace (bit_of _ i) with (bit_of (concat (map (le_bytes 8) st)) (i - 64)).
    + rewrite IH by lia. replace ((i - 64) mod 64) with (i mod 64) by zdm.
      assert (0 <= (i - 64) / 64) by zdm.
      by replace (Z.to_nat (i / 64)) with (S (Z.to_nat ((i - 64) / 64))) by zdm.
    + unfold bit_of. assert (0 <= (i - 64) / 8) by zdm. assert (i / 8 = (i - 64) / 8 + 8) as -> by zdm.
      rewrite (app_nth2 (le_bytes 8 w)) by (rewrite length_le_bytes; lia). rewrite length_le_bytes.
      f_equal; [f_equal; lia|zdm].
  - rewrite bit_of_app_l by (rewrite length_le_bytes; lia).
    rewrite <- le_value_bits, le_value_bytes by (done || lia || apply le_bytes_ok).
    by rewrite Z.div_small, Z.mod_small by lia.
Qed.

(** The state the digest is read from. *)
Lemma sponge_bits m : bytes_ok m ->
  exists st, keccak m 32 = Some (concat (map (le_bytes 8) (take 4 st))) /\
    keccak m 200 = Some (concat (map (le_bytes 8) st)) /\ state_ok st /\ agree (bits st) (sponge m).
Proof.
  intros Hm. destruct (keccak_one_shot m) as [H32 H200]. cbv zeta in H32, H200.
  set (q := (length m / 136)%nat) in *. set (tl := drop (q * 136) m) in *.
  pose proof (Nat.div_mod_eq (length m) 136) as Hdm. pose proof (Nat.mod_upper_bound (length m) 136) as Hmod.
  fold q in Hdm. assert (length tl = length m - q * 136)%nat as Htl by (unfold tl; by rewrite length_drop).
  assert (length tl < 136)%nat as Hr by lia. set (temp0 := <[length tl := 1]> _) in *.
  set (temp := <[135%nat := _]> temp0) in *.
  assert (bytes_ok tl) as Hok by (unfold tl, bytes_ok; by apply Forall_drop).
  assert (bytes_ok temp0) as H0.
  { unfold temp0, bytes_ok. apply Forall_insert; [|by vm_compute]. apply Forall_app. split; [done|].
    rewrite drop_replicate. apply Forall_replicate. by vm_compute. }
  assert (length temp = 144%nat) as Hlt
    by (unfold temp, temp0; rewrite !length_insert, length_app, drop_replicate, length_replicate; lia).
  assert (bytes_ok temp) as H1.
  { apply Forall_insert; [done|]. apply is_uint_lor; [lia| |by vm_compute].
    unfold bytes_ok in H0; rewrite Forall_forall in H0. apply H0, list_elem_of_In, nth_In. unfold temp in Hlt. rewrite length_insert in Hlt. lia. }
  destruct (full_blocks_bits m q Hm) as [Hq Eq]; [done|].
  destruct (absorb_padded m (absorb_full q (replicate 25 0) m) _ q temp Hq Eq H1) as [Hst E]; [lia| |].
  { intros i Hi. etransitivity; [exact (last_block_bits tl i Hok Hr Hi)|]. unfold padded_bit, nblocks. fold q.
    replace (1088 * Z.of_nat q + i) with (8 * Z.of_nat (q * 136) + i) by lia.
    rewrite Htl. repeat bcase; try lia; try done.
    rewrite <- (bit_of_take_drop m (q * 136) (length tl)) by lia. unfold tl. by rewrite take_ge. }
  eexists. split; [exact H32|]. split; [rewrite H200, take_ge; [done|]|].
  - destruct Hst as [-> _]. done.
  - split; [done|]. unfold sponge, nblocks. fold q. by rewrite seq_S, foldl_app.
Qed.

(** ** Properties *)

(** C40: The permutation of [keccak.c] is the one Keccak defines: after any
    number of rounds of the table, each bit of the state is the bit the steps
    theta, rho, pi, chi and iota give, with the offsets and constants computed
    from their definitions.  The hash is the sponge over it: for every message
    [keccak1600] returns the 1600 bits of the state after absorbing the
    message padded with 10*1 in blocks of 1088 bits, and [cn_fast_hash], like
    [keccak] at digest size 32, its first 256. *)
Theorem keccak_definition_correct st rounds m :
  state_ok st -> rounds <= 24 -> bytes_ok m ->
  state_ok (keccakf st rounds) /\
  agree (bits (keccakf st rounds)) (keccak_p (Z.to_nat rounds) (bits st)) /\
  exists state, keccak1600 m = Some state /\ length state = 200%nat /\ bytes_ok state /\
    (forall i, 0 <= i < 1600 ->
       let l := Z.to_nat (i / 64) in bit_of state i = sponge m (l mod 5)%nat (l / 5)%nat (i mod 64)) /\
    cn_fast_hash m = Some (take 32 state) /\ keccak m 32 = Some (take 32 state).
Proof.
  intros Hst Hr Hm. split; [by apply keccakf_ok|]. split; [by apply keccakf_bits|].
  destruct (sponge_bits m Hm) as (s & H32 & H200 & [Hl Hu] & E).
  assert (take 32 (concat (map (le_bytes 8) s)) = concat (map (le_bytes 8) (take 4 s))) as Htake.
  { rewrite <- (digest_take s 25 4) by lia. by rewrite (take_ge s) by lia. }
  exists (concat (map (le_bytes 8) s)). unfold cn_fast_hash, hash_process, keccak1600. rewrite H200.
  split; [done|]. split; [rewrite <- (take_ge s 25) by lia; rewrite length_digest; lia|].
  split; [apply digest_ok|]. split; [|split; [reflexivity|by rewrite Htake]].
  intros i Hi. cbv zeta. rewrite output_bits by (done || lia).
  assert (0 <= i / 64 < 25) by zdm. set (l := Z.to_nat (i / 64)).
  assert (l < 25)%nat as Hlt by lia. rewrite <- E.
  - unfold bits, lane. f_equal. f_equal. pose proof (Nat.div_mod_eq l 5). lia.
  - apply mod5_lt.
  - apply Nat.Div0.div_lt_upper_bound. lia.
  - apply Z.mod_pos_bound. lia.
Qed.

(** One round of the zero state leaves the first round constant; the digest
    of a one-byte message. *)
Lemma keccak_definition_witness :
  bits (keccakf (replicate 25 0) 1) 0%nat 0%nat 0 = true /\
  exists state, keccak1600 [97] = Some state /\ cn_fast_hash [97] = Some (take 32 state).
Proof.
  destruct (keccak_definition_correct (replicate 25 0) 1 [97]) as (_ & H & state & H1 & _ & _ & _ & H2 & _).
  - split; [done|]. apply Forall_replicate. by vm_compute.
  - done.
  - by repeat constructor.
  - split; [|exists state; split; [exact H1|exact H2]].
    etransitivity; [apply H; lia|]. vm_compute. reflexivity.
Defined.
