(* ===== verification/Blake2b.v ===== *)
(** * BLAKE2b

    [src/crypto/blake2b.c]: the compression function, the streaming interface
    with its reused-state checks, the keyed and the personalised one-shot
    functions and the long output of Argon2.  Words are 64-bit and a
    little-endian host is assumed, as [load64] and [store64] do by their
    definition.  [clear_internal_memory] wipes memory that is not read again and
    is left out where nothing reads the result.

    The theorem states that the streaming interface computes one function of the
    whole message and the parameters, however the message is cut. *)

From S2P Require Import Prelude Keccak.

(** ** Definitions *)

Definition BLAKE2B_BLOCKBYTES : Z := 128.
Definition BLAKE2B_OUTBYTES : Z := 64.
Definition BLAKE2B_KEYBYTES : Z := 64.

Definition load64 (src : list Z) (i : nat) : Z := le_value (take 8 (drop i src)).
Definition store64 (w : Z) : list Z := le_bytes 8 w.
Definition store32 (w : Z) : list Z := le_bytes 4 w.
Definition rotr64 (w c : Z) : Z := Z.lor (Z.shiftr w c) (u64 (Z.shiftl w (64 - c))).

Definition blake2b_IV : list Z := [
  0x6a09e667f3bcc908; 0xbb67ae8584caa73b;
  0x3c6ef372fe94f82b; 0xa54ff53a5f1d36f1;
  0x510e527fade682d1; 0x9b05688c2b3e6c1f;
  0x1f83d9abfb41bd6b; 0x5be0cd19137e2179].

Definition blake2b_sigma : list (list nat) := ([
  [0; 1; 2; 3; 4; 5; 6; 7; 8; 9; 10; 11; 12; 13; 14; 15];
  [14; 10; 4; 8; 9; 15; 13; 6; 1; 12; 0; 2; 11; 7; 5; 3];
  [11; 8; 12; 0; 5; 2; 15; 13; 10; 14; 3; 6; 7; 1; 9; 4];
  [7; 9; 3; 1; 13; 12; 11; 14; 2; 6; 5; 10; 4; 0; 15; 8];
  [9; 0; 5; 7; 2; 4; 10; 15; 14; 1; 11; 12; 6; 8; 3; 13];
  [2; 12; 6; 10; 0; 11; 8; 3; 4; 13; 7; 5; 15; 14; 1; 9];
  [12; 5; 1; 15; 14; 13; 4; 10; 0; 7; 6; 3; 9; 2; 8; 11];
  [13; 11; 7; 14; 12; 1; 3; 9; 5; 0; 15; 4; 8; 6; 2; 10];
  [6; 15; 14; 9; 11; 3; 0; 8; 12; 2; 13; 7; 1; 4; 10; 5];
  [10; 2; 8; 4; 7; 6; 1; 5; 15; 11; 9; 14; 3; 12; 13; 0];
  [0; 1; 2; 3; 4; 5; 6; 7; 8; 9; 10; 11; 12; 13; 14; 15];
  [14; 10; 4; 8; 9; 15; 13; 6; 1; 12; 0; 2; 11; 7; 5; 3]])%nat.

Record blake2b_state := mkBlake {
  bs_h : list Z; bs_t0 : Z; bs_t1 : Z; bs_f0 : Z; bs_f1 : Z;
  bs_buf : list Z; bs_buflen : Z; bs_outlen : Z; bs_last_node : Z }.

Record blake2b_param := mkParam {
  digest_length : Z; key_length : Z; fanout : Z; depth : Z; leaf_length : Z; node_offset : Z;
  node_depth : Z; inner_length : Z; reserved : list Z; salt : list Z; personal : list Z }.

(** The packed structure as bytes. *)
Definition param_bytes (P : blake2b_param) : list Z :=
  [digest_length P; key_length P; fanout P; depth P] ++ le_bytes 4 (leaf_length P) ++ le_bytes 8 (node_offset P) ++
  [node_depth P; inner_length P] ++ reserved P ++ salt P ++ personal P.

Definition blake2b_set_lastnode (st : blake2b_state) : blake2b_state :=
  mkBlake (bs_h st) (bs_t0 st) (bs_t1 st) (bs_f0 st) (u64 (-1)) (bs_buf st) (bs_buflen st) (bs_outlen st) (bs_last_node st).

Definition blake2b_set_lastblock (st : blake2b_state) : blake2b_state :=
  let st := if bs_last_node st =? 0 then st else blake2b_set_lastnode st in
  mkBlake (bs_h st) (bs_t0 st) (bs_t1 st) (u64 (-1)) (bs_f1 st) (bs_buf st) (bs_buflen st) (bs_outlen st) (bs_last_node st).

Definition blake2b_increment_counter (st : blake2b_state) (inc : Z) : blake2b_state :=
  let t0 := u64 (bs_t0 st + inc) in
  let t1 := u64 (bs_t1 st + (if t0 <? inc then 1 else 0)) in
  mkBlake (bs_h st) t0 t1 (bs_f0 st) (bs_f1 st) (bs_buf st) (bs_buflen st) (bs_outlen st) (bs_last_node st).

Definition blake2b_zero : blake2b_state := mkBlake (replicate 8 0) 0 0 0 0 (replicate 128 0) 0 0 0.

Definition blake2b_invalidate_state : blake2b_state := blake2b_set_lastblock blake2b_zero.

Definition blake2b_init0 : blake2b_state := mkBlake blake2b_IV 0 0 0 0 (replicate 128 0) 0 0 0.

Definition blake2b_init_param (P : blake2b_param) : blake2b_state :=
  let p := param_bytes P in
  mkBlake (imap (fun i x => Z.lxor x (load64 p (i * 8))) (bs_h blake2b_init0)) 0 0 0 0 (replicate 128 0) 0 (digest_length P) 0.

Definition sequential_param (outlen keylen : Z) (personal : list Z) : blake2b_param :=
  mkParam (u8 outlen) (u8 keylen) 1 1 0 0 0 0 (replicate 14 0) (replicate 16 0) personal.

(** ** Compression *)

Definition sigma (r i : nat) : nat := nth i (nth r blake2b_sigma []) 0%nat.

Definition G (m : list Z) (r i a b c d : nat) (v : list Z) : list Z :=
  let va := u64 (word v a + word v b + word m (sigma r (2 * i))) in
  let vd := rotr64 (Z.lxor (word v d) va) 32 in
  let vc := u64 (word v c + vd) in
  let vb := rotr64 (Z.lxor (word v b) vc) 24 in
  let va := u64 (va + vb + word m (sigma r (2 * i + 1))) in
  let vd := rotr64 (Z.lxor vd va) 16 in
  let vc := u64 (vc + vd) in
  let vb := rotr64 (Z.lxor vb vc) 63 in
  <[d := vd]> (<[c := vc]> (<[b := vb]> (<[a := va]> v))).

Definition ROUND (m v : list Z) (r : nat) : list Z :=
  let v := G m r 0 0 4 8 12 v in
  let v := G m r 1 1 5 9 13 v in
  let v := G m r 2 2 6 10 14 v in
  let v := G m r 3 3 7 11 15 v in
  let v := G m r 4 0 5 10 15 v in
  let v := G m r 5 1 6 11 12 v in
  let v := G m r 6 2 7 8 13 v in
  G m r 7 3 4 9 14 v.

Definition blake2b_compress (st : blake2b_state) (block : list Z) : blake2b_state :=
  let m := map (fun i => load64 block (i * 8)) (seq 0 16) in
  let v := bs_h st ++ take 4 blake2b_IV ++
    [Z.lxor (word blake2b_IV 4) (bs_t0 st); Z.lxor (word blake2b_IV 5) (bs_t1 st);
     Z.lxor (word blake2b_IV 6) (bs_f0 st); Z.lxor (word blake2b_IV 7) (bs_f1 st)] in
  let v := foldl (ROUND m) v (seq 0 12) in
  let h := imap (fun i x => Z.lxor (Z.lxor x (word v i)) (word v (i + 8))) (bs_h st) in
  mkBlake h (bs_t0 st) (bs_t1 st) (bs_f0 st) (bs_f1 st) (bs_buf st) (bs_buflen st) (bs_outlen st) (bs_last_node st).

(** ** The streaming interface *)

Definition set_buf (st : blake2b_state) (buf : list Z) (buflen : Z) : blake2b_state :=
  mkBlake (bs_h st) (bs_t0 st) (bs_t1 st) (bs_f0 st) (bs_f1 st) buf buflen (bs_outlen st) (bs_last_node st).

Definition update_blocks_step (s : blake2b_state * list Z) : blake2b_state * list Z :=
  let '(st, pin) := s in
  let st := blake2b_increment_counter st BLAKE2B_BLOCKBYTES in
  let st := blake2b_compress st (take 128 pin) in
  (st, drop 128 pin).

(** The return code and the state; [None] when the loop has not ended within
    the fuel, which is never ([blake2b_update_ok]). *)
Definition blake2b_update (st : blake2b_state) (input : list Z) : option (Z * blake2b_state) :=
  let inlen := Z.of_nat (length input) in
  if inlen =? 0 then Some (0, st)
  else if negb (bs_f0 st =? 0) then Some (-1, st)
  else
    '(st, pin) ←
      (if BLAKE2B_BLOCKBYTES <? u64 (bs_buflen st + inlen) then
         let left := Z.to_nat (bs_buflen st) in
         let fill := (Z.to_nat BLAKE2B_BLOCKBYTES - left)%nat in
         let st := set_buf st (memcpy_at (bs_buf st) left (take fill input)) (bs_buflen st) in
         let st := blake2b_increment_counter st BLAKE2B_BLOCKBYTES in
         let st := blake2b_compress st (bs_buf st) in
         let st := set_buf st (bs_buf st) 0 in
         while_fuel (fun s : blake2b_state * list Z => BLAKE2B_BLOCKBYTES <? Z.of_nat (length (snd s)))
           update_blocks_step (length input) (st, drop fill input)
       else Some (st, input));
    let buf := memcpy_at (bs_buf st) (Z.to_nat (bs_buflen st)) pin in
    Some (0, set_buf st buf (u32 (bs_buflen st + u32 (Z.of_nat (length pin))))).

(** The return code, what is written to [out] and the state. *)
Definition blake2b_final (st : blake2b_state) (outlen : Z) : Z * list Z * blake2b_state :=
  if outlen <? bs_outlen st then (-1, [], st)
  else if negb (bs_f0 st =? 0) then (-1, [], st)
  else
    let st := blake2b_increment_counter st (bs_buflen st) in
    let st := blake2b_set_lastblock st in
    let buf := memcpy_at (bs_buf st) (Z.to_nat (bs_buflen st)) (replicate (Z.to_nat (BLAKE2B_BLOCKBYTES - bs_buflen st)) 0) in
    let st := set_buf st buf (bs_buflen st) in
    let st := blake2b_compress st (bs_buf st) in
    let buffer := concat (map store64 (bs_h st)) in
    (0, take (Z.to_nat (bs_outlen st)) buffer,
     mkBlake (replicate 8 0) (bs_t0 st) (bs_t1 st) (bs_f0 st) (bs_f1 st) (replicate 128 0) (bs_buflen st) (bs_outlen st) (bs_last_node st)).

Definition blake2b_init (outlen : Z) : Z * blake2b_state :=
  if (outlen =? 0) || (BLAKE2B_OUTBYTES <? outlen) then (-1, blake2b_invalidate_state)
  else (0, blake2b_init_param (sequential_param outlen 0 (replicate 16 0))).

Definition key_block (key : list Z) : list Z := memcpy_at (replicate 128 0) 0 key.

Definition blake2b_init_key (outlen : Z) (key : list Z) : option (Z * blake2b_state) :=
  let keylen := Z.of_nat (length key) in
  if (outlen =? 0) || (BLAKE2B_OUTBYTES <? outlen) then Some (-1, blake2b_invalidate_state)
  else if (keylen =? 0) || (BLAKE2B_KEYBYTES <? keylen) then Some (-1, blake2b_invalidate_state)
  else
    let st := blake2b_init_param (sequential_param outlen keylen (replicate 16 0)) in
    '(r, st) ← blake2b_update st (key_block key);
    if r <? 0 then Some (-1, st) else Some (0, st).

(** ** One-shot functions: the return code and the output; [key] is [None] for a
    null pointer. *)

Definition keylen (key : option (list Z)) : Z := match key with None => 0 | Some k => Z.of_nat (length k) end.

Definition update_final (st : blake2b_state) (input : list Z) (outlen : Z) : option (Z * list Z) :=
  '(r, st) ← blake2b_update st input;
  if r <? 0 then Some (-1, [])
  else let '(ret, out, _) := blake2b_final st outlen in Some (ret, out).

Definition blake2b (outlen : Z) (input : list Z) (key : option (list Z)) : option (Z * list Z) :=
  if (outlen =? 0) || (BLAKE2B_OUTBYTES <? outlen) then Some (-1, [])
  else if BLAKE2B_KEYBYTES <? keylen key then Some (-1, [])
  else
    '(r, st) ← (if 0 <? keylen key then blake2b_init_key outlen (default [] key) else Some (blake2b_init outlen));
    if r <? 0 then Some (-1, []) else update_final st input outlen.

Definition PERSONAL : list Z := [77; 111; 110; 101; 114; 111] ++ replicate 10 0.

Definition blake2b_monero (outlen : Z) (input : list Z) (key : option (list Z)) : option (Z * list Z) :=
  if negb ((keylen key =? 0) || (keylen key =? 32)) then None
  else if (outlen =? 0) || (BLAKE2B_OUTBYTES <? outlen) then Some (-1, [])
  else if BLAKE2B_KEYBYTES <? keylen key then Some (-1, [])
  else if bool_decide (is_Some key) && (keylen key =? 0) then Some (-1, [])
  else
    let st := blake2b_init_param (sequential_param outlen (keylen key) PERSONAL) in
    '(r, st) ← (match key with Some k => blake2b_update st (key_block k) | None => Some (0, st) end);
    if r <? 0 then Some (-1, []) else update_final st input outlen.

(** [blake2b_long]: the loop over [toproduce], the last 64 bytes and the output so far. *)
Fixpoint blake2b_long_loop (fuel : nat) (toproduce : Z) (out_buffer out : list Z) : option (Z * list Z) :=
  if BLAKE2B_OUTBYTES <? toproduce then
    match fuel with
    | O => None
    | S fuel =>
        '(ret, out_buffer) ← blake2b BLAKE2B_OUTBYTES out_buffer None;
        if ret <? 0 then Some (ret, out)
        else blake2b_long_loop fuel (toproduce - BLAKE2B_OUTBYTES / 2) out_buffer (out ++ take 32 out_buffer)
    end
  else
    '(ret, out_buffer) ← blake2b toproduce out_buffer None;
    if ret <? 0 then Some (ret, out) else Some (ret, out ++ take (Z.to_nat toproduce) out_buffer).

Definition blake2b_long (outlen : Z) (input : list Z) : option (Z * list Z) :=
  if 2 ^ 32 - 1 <? outlen then Some (-1, [])
  else
    let outlen_bytes := store32 (u32 outlen) in
    let len := if outlen <=? BLAKE2B_OUTBYTES then outlen else BLAKE2B_OUTBYTES in
    let '(ret, st) := blake2b_init len in
    if ret <? 0 then Some (ret, [])
    else
      '(ret, st) ← blake2b_update st outlen_bytes;
      if ret <? 0 then Some (ret, [])
      else
        '(ret, st) ← blake2b_update st input;
        if ret <? 0 then Some (ret, [])
        else
          let '(ret, out_buffer, _) := blake2b_final st len in
          if ret <? 0 then Some (ret, [])
          else if outlen <=? BLAKE2B_OUTBYTES then Some (ret, out_buffer)
          else
            let toproduce := u32 (outlen - BLAKE2B_OUTBYTES / 2) in
            blake2b_long_loop (Z.to_nat (toproduce / 32)) toproduce out_buffer (take 32 out_buffer).

(** ** The function of the whole message *)

(** The compression at byte count [N]. *)
Definition compress_at (h : list Z) (N : Z) (last : bool) (block : list Z) : list Z :=
  bs_h (blake2b_compress (mkBlake h (u64 N) (u64 (N / 2 ^ 64)) (if last then u64 (-1) else 0) 0 [] 0 0 0) block).

Fixpoint hash_blocks (n : nat) (h : list Z) (N : Z) (m : list Z) : list Z :=
  match n with
  | O => h
  | S n => hash_blocks n (compress_at h (N + 128) false (take 128 m)) (N + 128) (drop 128 m)
  end.

(** All blocks but the last, which has 1 to 128 bytes unless the message is empty. *)
Definition full_blocks (len : nat) : nat := ((len - 1) / 128)%nat.

Definition blake2b_ref (h : list Z) (m : list Z) : list Z :=
  let n := full_blocks (length m) in
  let rest := drop (n * 128) m in
  compress_at (hash_blocks n h 0 m) (Z.of_nat (length m)) true (rest ++ replicate (128 - length rest) 0).

Lemma full_blocks_spec len : exists n r, full_blocks len = n /\ (len = n * 128 + r)%nat /\ (r <= 128)%nat /\ (0 < r \/ n = 0)%nat.
Proof.
  unfold full_blocks. pose proof (Nat.div_mod_eq (len - 1) 128). pose proof (Nat.mod_upper_bound (len - 1) 128 ltac:(lia)).
  exists ((len - 1) / 128)%nat, (len - (len - 1) / 128 * 128)%nat. split; [done|]. destruct len as [|len]; [cbn; lia|]. lia.
Qed.

Lemma full_blocks_eq len n r : (len = n * 128 + r)%nat -> (0 < r <= 128)%nat -> full_blocks len = n.
Proof. intros -> Hr. symmetry. apply (Nat.div_unique _ _ _ (r - 1)); lia. Qed.

Lemma hash_blocks_app a b h N x y : length x = (a * 128)%nat ->
  hash_blocks (a + b) h N (x ++ y) = hash_blocks b (hash_blocks a h N x) (N + 128 * Z.of_nat a) y.
Proof.
  revert h N x; induction a as [|a IH]; intros h N x Hx; cbn [hash_blocks Nat.add].
  - destruct x; [|done]. cbn. f_equal. lia.
  - rewrite take_app_le, drop_app_le, IH by (rewrite ?length_drop; lia). f_equal. lia.
Qed.

Lemma hash_blocks_prefix n h N x y : (n * 128 <= length x)%nat -> hash_blocks n h N (x ++ y) = hash_blocks n h N x.
Proof.
  revert h N x; induction n as [|n IH]; intros h N x Hx; cbn [hash_blocks]; [done|].
  rewrite take_app_le, drop_app_le, IH by (rewrite ?length_drop; lia). done.
Qed.

(** ** The state between updates *)

Record at_count (h : list Z) (N outlen : Z) (st : blake2b_state) : Prop := {
  at_h : bs_h st = h;
  at_t0 : bs_t0 st = u64 N;
  at_t1 : bs_t1 st = u64 (N / 2 ^ 64);
  at_f0 : bs_f0 st = 0;
  at_f1 : bs_f1 st = 0;
  at_last : bs_last_node st = 0;
  at_outlen : bs_outlen st = outlen;
}.

(** The counter is one 128-bit number. *)
Lemma counter_carry N inc : 0 <= N -> 0 <= inc < 2 ^ 64 ->
  let t0 := u64 (u64 N + inc) in
  t0 = u64 (N + inc) /\ u64 (u64 (N / 2 ^ 64) + (if t0 <? inc then 1 else 0)) = u64 ((N + inc) / 2 ^ 64).
Proof.
  intros HN Hi. cbv zeta. unfold u64, wrapu. rewrite Zplus_mod_idemp_l. split; [done|]. rewrite Zplus_mod_idemp_l. f_equal.
  pose proof (Z.div_mod N (2 ^ 64) ltac:(lia)) as E. pose proof (Z.mod_pos_bound N (2 ^ 64) ltac:(lia)) as HB.
  set (q := N / 2 ^ 64) in *. set (r := N mod 2 ^ 64) in *. clearbody q r.
  destruct (Z.ltb_spec ((N + inc) mod 2 ^ 64) inc) as [Hlt|Hge].
  - destruct (Z.lt_ge_cases (r + inc) (2 ^ 64)) as [H|H].
    + rewrite E, <- Z.add_assoc, Z.mul_comm, Z.add_comm, Z.mod_add, Z.mod_small in Hlt by lia. lia.
    + apply (Z.div_unique _ _ _ (r + inc - 2 ^ 64)); lia.
  - destruct (Z.lt_ge_cases (r + inc) (2 ^ 64)) as [H|H].
    + apply (Z.div_unique _ _ _ (r + inc)); lia.
    + replace (N + inc) with (r + inc - 2 ^ 64 + (q + 1) * 2 ^ 64) in Hge by lia. rewrite Z.mod_add, Z.mod_small in Hge by lia. lia.
Qed.

Lemma increment_at h N outlen st inc : at_count h N outlen st -> 0 <= N -> 0 <= inc < 2 ^ 64 ->
  at_count h (N + inc) outlen (blake2b_increment_counter st inc).
Proof.
  intros [Hh H0 H1 Hf0 Hf1 Hl Ho] HN Hi. destruct (counter_carry N inc HN Hi) as [E0 E1].
  split; [exact Hh| | |exact Hf0|exact Hf1|exact Hl|exact Ho]; cbn [blake2b_increment_counter bs_t0 bs_t1]; rewrite H0, ?H1; [exact E0|exact E1].
Qed.

Lemma compress_at_count h N outlen st block : at_count h N outlen st ->
  at_count (compress_at h N false block) N outlen (blake2b_compress st block).
Proof.
  intros [Hh H0 H1 Hf0 Hf1 Hl Ho]. split; [|exact H0|exact H1|exact Hf0|exact Hf1|exact Hl|exact Ho].
  unfold compress_at, blake2b_compress. cbn [bs_h bs_t0 bs_t1 bs_f0 bs_f1]. by rewrite Hh, H0, H1, Hf0, Hf1.
Qed.

Lemma set_buf_at h N outlen st buf n : at_count h N outlen st -> at_count h N outlen (set_buf st buf n).
Proof. by intros []. Qed.

(** ** Updates *)

(** [st] has been fed [m] and not finished. *)
Record blake_rep (h : list Z) (outlen : Z) (m : list Z) (st : blake2b_state) : Prop := {
  br_at : at_count (hash_blocks (full_blocks (length m)) h 0 m) (128 * Z.of_nat (full_blocks (length m))) outlen st;
  br_len : length (bs_buf st) = 128%nat;
  br_buflen : bs_buflen st = Z.of_nat (length m - full_blocks (length m) * 128);
  br_buf : take (length m - full_blocks (length m) * 128) (bs_buf st) = drop (full_blocks (length m) * 128) m;
}.

Lemma update_loop fuel h N outlen st pin : (full_blocks (length pin) <= fuel)%nat -> at_count h N outlen st -> 0 <= N ->
  exists st', while_fuel (fun s : blake2b_state * list Z => BLAKE2B_BLOCKBYTES <? Z.of_nat (length (snd s))) update_blocks_step fuel (st, pin)
      = Some (st', drop (full_blocks (length pin) * 128) pin) /\
    at_count (hash_blocks (full_blocks (length pin)) h N pin) (N + 128 * Z.of_nat (full_blocks (length pin))) outlen st' /\
    bs_buf st' = bs_buf st /\ bs_buflen st' = bs_buflen st.
Proof.
  revert h N st pin; induction fuel as [|fuel IH]; intros h N st pin Hf Hst HN; destruct (full_blocks_spec (length pin)) as (n & r & E & Hl & Hr & Hz);
    rewrite E in *; cbn [while_fuel snd]; unfold BLAKE2B_BLOCKBYTES at 1.
  - replace n with 0%nat in * by lia. rewrite (proj2 (Z.ltb_ge _ _)) by lia. exists st. by rewrite drop_0, Z.mul_0_r, Z.add_0_r.
  - destruct (Z.ltb_spec 128 (Z.of_nat (length pin))) as [Hgt|Hle].
    2:{ replace n with 0%nat in * by lia. exists st. by rewrite drop_0, Z.mul_0_r, Z.add_0_r. }
    destruct n as [|n]; [lia|]. cbn [update_blocks_step]. cbv zeta.
    assert (full_blocks (length (drop 128 pin)) = n) as E' by (rewrite length_drop; apply (full_blocks_eq _ _ r); lia).
    destruct (IH (compress_at h (N + 128) false (take 128 pin)) (N + 128)
      (blake2b_compress (blake2b_increment_counter st BLAKE2B_BLOCKBYTES) (take 128 pin)) (drop 128 pin)) as (st' & -> & Hat & Hb & Hbl); [lia| |lia|].
    { apply compress_at_count, increment_at; [done|lia|]. unfold BLAKE2B_BLOCKBYTES. lia. }
    rewrite E' in *. exists st'. rewrite drop_drop. split; [do 3 f_equal; lia|]. cbn [hash_blocks]. split; [|done].
    by replace (N + 128 * Z.of_nat (S n)) with (N + 128 + 128 * Z.of_nat n) by lia.
Qed.

(** Bytes added to a block that stays partial. *)
Lemma append_rep h outlen n x y st : at_count (hash_blocks n h 0 x) (128 * Z.of_nat n) outlen st -> length (bs_buf st) = 128%nat ->
  (n * 128 <= length x)%nat -> bs_buflen st = Z.of_nat (length x - n * 128) -> take (length x - n * 128) (bs_buf st) = drop (n * 128) x ->
  (0 < length (x ++ y) - n * 128 <= 128)%nat ->
  blake_rep h outlen (x ++ y) (set_buf st (memcpy_at (bs_buf st) (Z.to_nat (bs_buflen st)) y) (u32 (bs_buflen st + u32 (Z.of_nat (length y))))).
Proof.
  intros Hat Hl Hx Hbl Hb Hr. rewrite Hbl, Nat2Z.id. assert (full_blocks (length (x ++ y)) = n) as E.
  { apply (full_blocks_eq _ _ (length (x ++ y) - n * 128)); [|lia]. rewrite length_app in *. lia. }
  rewrite length_app in *.
  assert (length (memcpy_at (bs_buf st) (length x - n * 128) y) = 128%nat) as Hm by (rewrite length_memcpy_at; lia).
  split; rewrite ?length_app, ?E; cbn [set_buf bs_buf bs_buflen].
  - rewrite hash_blocks_prefix by lia. by apply set_buf_at.
  - done.
  - rewrite !wrapu_small by (unfold is_uint; try rewrite wrapu_small by (unfold is_uint; lia); lia). lia.
  - unfold memcpy_at. rewrite app_assoc, Hb, drop_app_le by lia. apply take_app_length'. rewrite length_app, length_drop. lia.
Qed.

(** The partial block completed and compressed. *)
Lemma fill_rep h outlen n r m st fill x : at_count (hash_blocks n h 0 m) (128 * Z.of_nat n) outlen st -> length (bs_buf st) = 128%nat ->
  length m = (n * 128 + r)%nat -> take r (bs_buf st) = drop (n * 128) m -> length (m ++ fill) = ((n + 1) * 128)%nat -> x = m ++ fill ->
  let st' := set_buf st (memcpy_at (bs_buf st) r fill) (bs_buflen st) in
  let st' := blake2b_increment_counter st' BLAKE2B_BLOCKBYTES in
  let st' := blake2b_compress st' (bs_buf st') in
  let st' := set_buf st' (bs_buf st') 0 in
  at_count (hash_blocks (n + 1) h 0 x) (128 * Z.of_nat (n + 1)) outlen st' /\ length (bs_buf st') = 128%nat /\ bs_buflen st' = 0.
Proof.
  intros Hat Hl Hm Hb Hf ->. cbv zeta. pose proof Hf as Hf'. rewrite length_app in Hf'.
  assert (memcpy_at (bs_buf st) r fill = drop (n * 128) (m ++ fill)) as Eb.
  { unfold memcpy_at. rewrite Hb, (drop_ge (bs_buf st)), app_nil_r by lia. by rewrite drop_app_le by lia. }
  split; [|split; [|done]]; [|change (length (memcpy_at (bs_buf st) r fill) = 128%nat); rewrite length_memcpy_at; lia].
  replace (hash_blocks (n + 1) h 0 (m ++ fill)) with (compress_at (hash_blocks n h 0 m) (128 * Z.of_nat n + 128) false (drop (n * 128) (m ++ fill))).
  - replace (128 * Z.of_nat (n + 1)) with (128 * Z.of_nat n + 128) by lia. apply set_buf_at. cbn [blake2b_increment_counter bs_buf set_buf].
    rewrite Eb. apply compress_at_count, increment_at; [by apply set_buf_at|lia|unfold BLAKE2B_BLOCKBYTES; lia].
  - rewrite <- (take_drop (n * 128) (m ++ fill)) at 2. rewrite hash_blocks_app by (rewrite length_take; lia). cbn [hash_blocks].
    rewrite (take_ge (drop _ (m ++ fill))) by (rewrite length_drop; lia). rewrite take_app_le by lia.
    rewrite <- (take_drop (n * 128) m) at 1. rewrite hash_blocks_prefix; [f_equal; lia|]. rewrite length_take. lia.
Qed.

Lemma blake2b_update_ok h outlen m st input : blake_rep h outlen m st -> Z.of_nat (length input) < 2 ^ 63 ->
  exists st', blake2b_update st input = Some (0, st') /\ blake_rep h outlen (m ++ input) st'.
Proof.
  intros [Hat Hl Hbl Hb] Hin. unfold blake2b_update. destruct (full_blocks_spec (length m)) as (n & r & En & Hm & Hr & Hz). rewrite En in *.
  destruct (Z.eqb_spec (Z.of_nat (length input)) 0) as [H0|H0].
  { destruct input; [|done]. exists st. rewrite app_nil_r. split; [done|]. by split; rewrite ?En. }
  rewrite (at_f0 _ _ _ _ Hat). cbn [Z.eqb negb]. unfold BLAKE2B_BLOCKBYTES at 1.
  replace (length m - n * 128)%nat with r in * by lia. rewrite (wrapu_small 64) by (unfold is_uint; lia).
  destruct (Z.ltb_spec 128 (bs_buflen st + Z.of_nat (length input))) as [Hgt|Hle]; cbn [mbind option_bind].
  2:{ eexists. split; [reflexivity|]. apply (append_rep _ _ n); rewrite ?length_app; try done; try lia; by replace (length m - n * 128)%nat with r by lia. }
  rewrite Hbl, Nat2Z.id. change (Z.to_nat BLAKE2B_BLOCKBYTES) with 128%nat. set (fill := (128 - r)%nat). set (x := m ++ take fill input).
  assert (length x = ((n + 1) * 128)%nat) as Hlx by (unfold x; rewrite length_app, length_take; lia).
  destruct (fill_rep h outlen n r m st (take fill input) x Hat Hl Hm Hb Hlx eq_refl) as (H1 & Hl1 & Hbl1). rewrite <- Hbl. cbv zeta in *.
  set (st1 := set_buf (blake2b_compress _ _) _ 0) in *. clearbody st1.
  destruct (update_loop (length input) (hash_blocks (n + 1) h 0 x) (128 * Z.of_nat (n + 1)) outlen st1 (drop fill input)) as (st2 & -> & Hat2 & Hb2 & Hbl2); [|done|lia|].
  { unfold full_blocks. rewrite length_drop. apply Nat.Div0.div_le_upper_bound. lia. }
  cbn [mbind option_bind]. eexists. split; [reflexivity|].
  destruct (full_blocks_spec (length (drop fill input))) as (k & s & Ek & Hk & Hs & Hs0). rewrite Ek in *.
  set (pin := drop fill input) in *. assert (length pin = length input - fill)%nat as Hpin by apply length_drop.
  assert (length (x ++ take (k * 128) pin) = ((n + 1 + k) * 128)%nat) as HX by (rewrite length_app, length_take; lia).
  replace (m ++ input) with ((x ++ take (k * 128) pin) ++ drop (k * 128) pin)
    by (unfold x, pin; rewrite <- !app_assoc, (take_drop (k * 128)); f_equal; apply take_drop).
  pose proof HX as HX'. rewrite length_app in HX'.
  apply (append_rep _ _ (n + 1 + k)); rewrite ?length_app, ?Hb2, ?Hbl2, ?Hl1, ?Hbl1, ?length_drop; try lia.
  - rewrite hash_blocks_app by done. rewrite <- (hash_blocks_prefix k _ _ (take (k * 128) pin) (drop (k * 128) pin)), take_drop by (rewrite length_take; lia).
    by replace (128 * Z.of_nat (n + 1 + k)) with (128 * Z.of_nat (n + 1) + 128 * Z.of_nat k) by lia.
  - rewrite HX', Nat.sub_diag, take_0, drop_ge; [done|lia].
Qed.

Lemma compress_last h N outlen st buf n block : at_count h N outlen st ->
  bs_h (blake2b_compress (set_buf (blake2b_set_lastblock st) buf n) block) = compress_at h N true block.
Proof.
  intros [Hh H0 H1 Hf0 Hf1 Hl Ho]. unfold compress_at, blake2b_compress, blake2b_set_lastblock, set_buf. rewrite Hl.
  cbn [Z.eqb bs_h bs_t0 bs_t1 bs_f0 bs_f1]. by rewrite Hh, H0, H1, Hf1.
Qed.

#[local] Opaque compress_at.

Lemma blake2b_final_ok h outlen m st outlen' : blake_rep h outlen m st -> 0 <= outlen <= outlen' ->
  exists st', blake2b_final st outlen' = (0, take (Z.to_nat outlen) (concat (map store64 (blake2b_ref h m))), st') /\ bs_f0 st' <> 0.
Proof.
  intros [Hat Hl Hbl Hb] Ho. unfold blake2b_final. destruct (full_blocks_spec (length m)) as (n & r & En & Hm & Hr & Hz). rewrite En in *.
  replace (length m - n * 128)%nat with r in * by lia.
  rewrite (at_f0 _ _ _ _ Hat), (at_outlen _ _ _ _ Hat), (proj2 (Z.ltb_ge _ _)) by lia. cbn [Z.eqb negb].
  pose proof (increment_at _ _ _ st (bs_buflen st) Hat ltac:(lia) ltac:(lia)) as H1. cbv zeta.
  set (st1 := blake2b_increment_counter st (bs_buflen st)) in *.
  assert (bs_buf (blake2b_set_lastblock st1) = bs_buf st /\ bs_buflen (blake2b_set_lastblock st1) = bs_buflen st /\ bs_outlen (blake2b_set_lastblock st1) = outlen)
    as (Eb & Ebl & Eo).
  { unfold blake2b_set_lastblock. rewrite (at_last _ _ _ _ H1). cbn [Z.eqb bs_buf bs_buflen bs_outlen]. by rewrite (at_outlen _ _ _ _ H1). }
  rewrite Eb, Ebl, (compress_last _ _ _ _ _ _ _ H1). clearbody st1.
  eexists. split; [f_equal; f_equal|change (u64 (-1) <> 0); done]. rewrite Hbl, Nat2Z.id.
  change (bs_outlen (blake2b_compress (set_buf ?x _ _) _)) with (bs_outlen x). rewrite Eo. f_equal. do 2 f_equal.
  unfold blake2b_ref. rewrite En. cbv zeta.
  replace (Z.of_nat (length m)) with (128 * Z.of_nat n + Z.of_nat r) by lia. apply (f_equal (compress_at _ _ _)).
  cbn [set_buf bs_buf]. unfold memcpy_at. rewrite Hb, length_replicate, length_drop. unfold BLAKE2B_BLOCKBYTES.
  rewrite (drop_ge (bs_buf st)), app_nil_r by lia. do 2 f_equal. lia.
Qed.

(** A finished state refuses input and a second finish. *)
Lemma finished_update st input : bs_f0 st <> 0 -> input <> [] -> blake2b_update st input = Some (-1, st).
Proof.
  intros Hf Hi. unfold blake2b_update. destruct input as [|x l]; [done|]. rewrite (proj2 (Z.eqb_neq _ 0)) by (cbn; lia).
  by rewrite (proj2 (Z.eqb_neq (bs_f0 st) 0) Hf).
Qed.

Lemma finished_final st outlen : bs_f0 st <> 0 -> blake2b_final st outlen = (-1, [], st).
Proof. intros Hf. unfold blake2b_final. rewrite (proj2 (Z.eqb_neq (bs_f0 st) 0) Hf). by destruct (_ <? _). Qed.

(** ** One-shot functions *)

#[local] Opaque blake2b_update blake2b_final.

Definition start (P : blake2b_param) : list Z := bs_h (blake2b_init_param P).

Definition blake2b_digest (P : blake2b_param) (m : list Z) : list Z :=
  take (Z.to_nat (digest_length P)) (concat (map store64 (blake2b_ref (start P) m))).

Lemma length_store64 l : length (concat (map store64 l)) = (length l * 8)%nat.
Proof. induction l as [|x l IH]; [done|]. cbn [map concat]. rewrite length_app, IH. unfold store64. rewrite length_le_bytes. cbn. lia. Qed.

#[local] Transparent compress_at.
Lemma length_compress_at h N last block : length (compress_at h N last block) = length h.
Proof. unfold compress_at, blake2b_compress. cbn [bs_h]. apply length_imap. Qed.
#[local] Opaque compress_at.

Lemma length_hash_blocks n h N m : length (hash_blocks n h N m) = length h.
Proof. revert h N m; induction n as [|n IH]; intros h N m; cbn [hash_blocks]; [done|]. by rewrite IH, length_compress_at. Qed.

Lemma length_start P : length (start P) = 8%nat.
Proof. apply length_imap. Qed.

Lemma blake2b_digest_ok P m : 0 <= digest_length P <= 64 ->
  Z.of_nat (length (blake2b_digest P m)) = digest_length P /\ bytes_ok (blake2b_digest P m).
Proof.
  intros HP. unfold blake2b_digest, blake2b_ref. split.
  - rewrite length_take, length_store64, length_compress_at, length_hash_blocks, length_start. lia.
  - apply Forall_take, Forall_concat, Forall_map, Forall_true. intros x. apply le_bytes_ok.
Qed.

Lemma init_param_rep P : blake_rep (start P) (digest_length P) [] (blake2b_init_param P).
Proof. by split. Qed.

Lemma sequential_outlen outlen n p : 0 < outlen <= 64 -> digest_length (sequential_param outlen n p) = outlen.
Proof. intros H. cbn. apply wrapu_small. unfold is_uint. lia. Qed.

(** Updates by pieces. *)
Definition blake2b_update_all (st : blake2b_state) (chunks : list (list Z)) : option (Z * blake2b_state) :=
  foldl (fun acc c => '(r, st) ← acc; if r <? 0 then Some (r, st) else blake2b_update st c) (Some (0, st)) chunks.

Lemma blake2b_update_all_ok h outlen m st chunks : blake_rep h outlen m st -> Z.of_nat (length (concat chunks)) < 2 ^ 63 ->
  exists st', blake2b_update_all st chunks = Some (0, st') /\ blake_rep h outlen (m ++ concat chunks) st'.
Proof.
  induction chunks as [|c chunks IH] using rev_ind; intros Hst Hl.
  { exists st. by rewrite app_nil_r. }
  rewrite concat_app in *. cbn [concat] in *. rewrite app_nil_r, length_app in *. destruct IH as (st1 & E & H1); [done|lia|].
  unfold blake2b_update_all in *. rewrite foldl_app, E. cbn [foldl mbind option_bind Z.ltb Z.compare]. rewrite app_assoc. apply blake2b_update_ok; [done|lia].
Qed.

Lemma update_final_ok P m st input : blake_rep (start P) (digest_length P) m st -> 0 <= digest_length P -> Z.of_nat (length input) < 2 ^ 63 ->
  update_final st input (digest_length P) = Some (0, blake2b_digest P (m ++ input)).
Proof.
  intros Hst HP Hl. unfold update_final. destruct (blake2b_update_ok _ _ _ _ input Hst Hl) as (st1 & -> & H1). cbn [mbind option_bind Z.ltb Z.compare].
  destruct (blake2b_final_ok _ _ _ _ (digest_length P) H1) as (st2 & -> & _); [lia|]. done.
Qed.

Lemma length_key_block k : (length k <= 128)%nat -> length (key_block k) = 128%nat.
Proof. intros H. unfold key_block. rewrite length_memcpy_at; rewrite length_replicate; lia. Qed.

(** The one-shot function, with or without a key: a key is a first block. *)
Lemma blake2b_ok outlen input key : 0 < outlen <= 64 -> 0 <= keylen key <= 64 -> Z.of_nat (length input) < 2 ^ 63 ->
  blake2b outlen input key = Some (0, blake2b_digest (sequential_param outlen (keylen key) (replicate 16 0))
    (if 0 <? keylen key then key_block (default [] key) ++ input else input)).
Proof.
  intros Ho Hk Hl. unfold blake2b, BLAKE2B_OUTBYTES, BLAKE2B_KEYBYTES. rewrite (proj2 (Z.eqb_neq outlen 0)), !(proj2 (Z.ltb_ge 64 _)) by lia. cbn [orb].
  pose proof (init_param_rep (sequential_param outlen (keylen key) (replicate 16 0))) as H0.
  destruct (Z.ltb_spec 0 (keylen key)) as [Hp|Hp].
  - destruct key as [k|]; [|cbn in Hp; lia]. change (default [] (Some k)) with k. cbn [keylen] in *. unfold blake2b_init_key, BLAKE2B_OUTBYTES, BLAKE2B_KEYBYTES.
    rewrite !(proj2 (Z.eqb_neq _ 0)), !(proj2 (Z.ltb_ge 64 _)) by lia. cbn [orb]. cbv zeta.
    destruct (blake2b_update_ok _ _ _ _ (key_block k) H0) as (st1 & -> & H1); [rewrite length_key_block; lia|].
    cbn [mbind option_bind Z.ltb Z.compare]. rewrite <- (sequential_outlen outlen (Z.of_nat (length k)) (replicate 16 0)) at 1 by done.
    apply update_final_ok; [done|rewrite sequential_outlen; lia|done].
  - unfold blake2b_init, BLAKE2B_OUTBYTES. rewrite (proj2 (Z.eqb_neq _ 0)), (proj2 (Z.ltb_ge 64 _)) by lia. cbn [orb mbind option_bind Z.ltb Z.compare].
    replace (keylen key) with 0 in * by lia. rewrite <- (sequential_outlen outlen 0 (replicate 16 0)) at 2 by done.
    apply (update_final_ok _ []); [done|rewrite sequential_outlen; lia|done].
Qed.

Lemma blake2b_monero_ok outlen input key : 0 < outlen <= 64 -> key = None \/ keylen key = 32 -> Z.of_nat (length input) < 2 ^ 63 ->
  blake2b_monero outlen input key = Some (0, blake2b_digest (sequential_param outlen (keylen key) PERSONAL)
    (match key with Some k => key_block k ++ input | None => input end)).
Proof.
  intros Ho Hk Hl. unfold blake2b_monero, BLAKE2B_OUTBYTES, BLAKE2B_KEYBYTES. rewrite (proj2 (Z.eqb_neq outlen 0)), (proj2 (Z.ltb_ge 64 outlen)) by lia.
  destruct Hk as [-> | Hk].
  - cbn [keylen Z.eqb Pos.eqb orb negb andb Z.ltb Z.compare]. rewrite bool_decide_false by (by intros [? ?]). cbn [andb mbind option_bind Z.ltb Z.compare].
    rewrite <- (sequential_outlen outlen 0 PERSONAL) at 2 by done.
    apply (update_final_ok _ []); [apply init_param_rep|rewrite sequential_outlen; lia|done].
  - rewrite Hk. destruct key as [k|]; [|done]. cbn [keylen Z.eqb Pos.eqb orb negb andb Z.ltb Z.compare Pos.compare Pos.compare_cont] in *. rewrite andb_false_r.
    pose proof (init_param_rep (sequential_param outlen 32 PERSONAL)) as H0.
    destruct (blake2b_update_ok _ _ _ _ (key_block k) H0) as (st1 & -> & H1); [rewrite length_key_block; lia|].
    cbn [mbind option_bind Z.ltb Z.compare]. rewrite <- (sequential_outlen outlen 32 PERSONAL) at 1 by done.
    apply update_final_ok; [done|rewrite sequential_outlen; lia|done].
Qed.

Lemma blake2b_unkeyed n input : 0 < n <= 64 -> Z.of_nat (length input) < 2 ^ 63 ->
  exists d, blake2b n input None = Some (0, d) /\ Z.of_nat (length d) = n /\ bytes_ok d.
Proof.
  intros Hn Hl. rewrite blake2b_ok by (done || (cbn; lia)). eexists. split; [reflexivity|].
  destruct (blake2b_digest_ok (sequential_param n 0 (replicate 16 0)) input) as [H1 H2]; rewrite sequential_outlen in * by done; [lia|done].
Qed.

(** The long output: as many bytes as asked for. *)
Lemma blake2b_long_loop_ok fuel toproduce b out : 0 < toproduce -> toproduce / 32 <= Z.of_nat fuel -> length b = 64%nat -> bytes_ok out ->
  exists out', blake2b_long_loop fuel toproduce b out = Some (0, out') /\ Z.of_nat (length out') = Z.of_nat (length out) + toproduce /\ bytes_ok out'.
Proof.
  revert toproduce b out; induction fuel as [|fuel IH]; intros n b out Hn Hf Hb Hout; cbn [blake2b_long_loop];
    change BLAKE2B_OUTBYTES with 64; destruct (Z.ltb_spec 64 n) as [Hgt|Hle].
  1: { assert (2 <= n / 32) by (apply Z.div_le_lower_bound; lia). lia. }
  2: { destruct (blake2b_unkeyed 64 b) as (d & -> & Hd & Hok); [lia..|]. cbn [mbind option_bind Z.ltb Z.compare]. change (64 / 2) with 32.
       destruct (IH (n - 32) d (out ++ take 32 d)) as (out' & -> & Hl & Ho); [lia| |lia| |].
       + assert ((n - 32) / 32 = n / 32 - 1); [|lia]. replace (n - 32) with (n + (-1) * 32) by lia. rewrite Z.div_add; lia.
       + apply Forall_app; split; [done|]. by apply Forall_take.
       + exists out'. split; [done|]. split; [|done]. rewrite length_app, length_take in Hl. lia. }
  all: destruct (blake2b_unkeyed n b) as (d & -> & Hd & Hok); [lia..|]; cbn [mbind option_bind Z.ltb Z.compare]; eexists; split; [done|];
    rewrite take_ge by lia; split; [rewrite length_app; lia|]; by apply Forall_app.
Qed.

Lemma blake2b_long_ok outlen input : 0 < outlen < 2 ^ 32 -> Z.of_nat (length input) < 2 ^ 63 ->
  exists out, blake2b_long outlen input = Some (0, out) /\ Z.of_nat (length out) = outlen /\ bytes_ok out.
Proof.
  intros Ho Hl. unfold blake2b_long. rewrite (proj2 (Z.ltb_ge _ outlen)) by lia. cbv zeta.
  set (len := if outlen <=? BLAKE2B_OUTBYTES then outlen else BLAKE2B_OUTBYTES).
  assert (0 < len <= 64) as Hlen by (unfold len, BLAKE2B_OUTBYTES; repeat bcase; lia).
  unfold blake2b_init. rewrite (proj2 (Z.eqb_neq len 0)), (proj2 (Z.ltb_ge _ len)) by (unfold BLAKE2B_OUTBYTES; lia). cbn [orb Z.ltb Z.compare].
  set (P := sequential_param len 0 (replicate 16 0)). assert (digest_length P = len) as HP by (by apply sequential_outlen).
  destruct (blake2b_update_ok _ _ _ _ (store32 (u32 outlen)) (init_param_rep P)) as (s1 & -> & H1); [unfold store32; by rewrite length_le_bytes|].
  cbn [mbind option_bind Z.ltb Z.compare]. destruct (blake2b_update_ok _ _ _ _ input H1 Hl) as (s2 & -> & H2). cbn [mbind option_bind Z.ltb Z.compare].
  destruct (blake2b_final_ok _ _ _ _ len H2) as (s3 & -> & _); [lia|]. cbn [Z.ltb Z.compare].
  set (m := ([] ++ store32 (u32 outlen)) ++ input). destruct (blake2b_digest_ok P m) as [Hd Hok]; [lia|]. unfold blake2b_digest in Hd, Hok.
  rewrite HP in *. set (d := take (Z.to_nat len) _) in *. clearbody d.
  destruct (Z.leb_spec outlen BLAKE2B_OUTBYTES) as [Hle|Hgt]; unfold BLAKE2B_OUTBYTES in *.
  { exists d. split; [done|]. split; [|done]. lia. }
  change (64 / 2) with 32. rewrite (wrapu_small 32) by (unfold is_uint; lia).
  destruct (blake2b_long_loop_ok (Z.to_nat ((outlen - 32) / 32)) (outlen - 32) d (take 32 d)) as (out & -> & Hl' & Hok'); [lia| |lia|by apply Forall_take|].
  { assert (0 <= (outlen - 32) / 32) by (apply Z.div_pos; lia). lia. }
  exists out. split; [done|]. split; [|done]. rewrite length_take in Hl'. lia.
Qed.

(** ** Properties *)

(** C36: BLAKE2b.  For every digest size and every message, cut into any pieces,
    the streaming interface and the one-shot function return the same digest, of
    the size asked for; a finished state refuses further input and a second
    finish; a key is the same as a first block; and the long form returns as many
    bytes as asked for. *)
Theorem blake2b_streaming_correct outlen chunks key n : 0 < outlen <= 64 -> Z.of_nat (length (concat chunks)) < 2 ^ 63 ->
  0 < Z.of_nat (length key) <= 64 -> 0 < n < 2 ^ 32 ->
  (exists st digest st', blake2b_update_all (snd (blake2b_init outlen)) chunks = Some (0, st) /\
     blake2b_final st outlen = (0, digest, st') /\
     blake2b outlen (concat chunks) None = Some (0, digest) /\
     Z.of_nat (length digest) = outlen /\ bytes_ok digest /\
     (forall input, input <> [] -> blake2b_update st' input = Some (-1, st')) /\
     blake2b_final st' outlen = (-1, [], st')) /\
  (exists st st', blake2b_init_key outlen key = Some (0, st) /\ blake2b_update_all st chunks = Some (0, st') /\
     exists digest, fst (blake2b_final st' outlen) = (0, digest) /\ blake2b outlen (concat chunks) (Some key) = Some (0, digest)) /\
  (exists out, blake2b_long n (concat chunks) = Some (0, out) /\ Z.of_nat (length out) = n).
Proof.
  intros Ho Hl Hk Hn. split; [|split].
  - unfold blake2b_init. rewrite (proj2 (Z.eqb_neq outlen 0)), (proj2 (Z.ltb_ge _ outlen)) by (unfold BLAKE2B_OUTBYTES; lia). cbn [orb snd].
    set (P := sequential_param outlen 0 (replicate 16 0)). assert (digest_length P = outlen) as HP by (by apply sequential_outlen).
    destruct (blake2b_update_all_ok _ _ _ _ chunks (init_param_rep P) Hl) as (st & -> & H1). rewrite HP in H1.
    destruct (blake2b_final_ok _ _ _ _ outlen H1) as (st' & E & Hf); [lia|].
    exists st, (blake2b_digest P (concat chunks)), st'. split; [done|]. split; [rewrite E; unfold blake2b_digest; by rewrite HP|].
    split; [by rewrite (blake2b_ok outlen _ None) by (done || (cbn; lia))|].
    destruct (blake2b_digest_ok P (concat chunks)) as [H2 H3]; [lia|]. rewrite HP in H2. split; [done|]. split; [done|].
    split; [intros input Hi; by apply finished_update|by apply finished_final].
  - set (P := sequential_param outlen (Z.of_nat (length key)) (replicate 16 0)). assert (digest_length P = outlen) as HP by (by apply sequential_outlen).
    unfold blake2b_init_key, BLAKE2B_OUTBYTES, BLAKE2B_KEYBYTES. rewrite !(proj2 (Z.eqb_neq _ 0)), !(proj2 (Z.ltb_ge 64 _)) by lia. cbn [orb]. cbv zeta. fold P.
    destruct (blake2b_update_ok _ _ _ _ (key_block key) (init_param_rep P)) as (st & -> & H1); [rewrite length_key_block; lia|].
    cbn [mbind option_bind Z.ltb Z.compare]. destruct (blake2b_update_all_ok _ _ _ _ chunks H1 Hl) as (st' & E' & H2).
    exists st, st'. split; [done|]. split; [done|]. rewrite HP in H2. destruct (blake2b_final_ok _ _ _ _ outlen H2) as (st2 & -> & _); [lia|].
    exists (blake2b_digest P (key_block key ++ concat chunks)). split; [cbn [fst]; unfold blake2b_digest; by rewrite HP|].
    rewrite (blake2b_ok outlen _ (Some key)) by (done || (cbn; lia)). cbn [keylen]. by rewrite (proj2 (Z.ltb_lt _ _)) by lia.
  - destruct (blake2b_long_ok n (concat chunks) Hn Hl) as (out & H1 & H2 & _). by exists out.
Qed.

Lemma blake2b_streaming_witness : exists out, blake2b_long 100 (concat [[97]; [98; 99]]) = Some (0, out) /\ Z.of_nat (length out) = 100.
Proof. apply (blake2b_streaming_correct 64 [[97]; [98; 99]] [1] 100); [done|by vm_compute|done|done]. Defined.
