(* ===== verification/Crypto.v ===== *)
(** * Keys, key derivation and hashing to the curve

    [src/crypto/random.c] (the Keccak generator) and the part of
    [src/crypto/crypto.cpp] that makes keys: unbiased random scalars, key pairs,
    the key derivation of one-time addresses and of subaddresses, hashing to the
    curve, key images and view tags.

    A call that needs random numbers takes the list of the 32-byte blocks that
    [generate_random_bytes_thread_safe] will return and gives back what is left
    of it; [random_blocks] is that list for the generator of [random.c].
    [debug] tells whether [assert] is compiled in: a failing assertion is
    [None]. *)

From Stdlib Require Import Zmod.
From S2P Require Import Prelude Varint Limbs ScalarOps Primes FieldOps Group Edwards GroupOps ScalarMult CurveTables CurveOrder HashToPoint Keccak Blake2b.

(** ** The random number generator *)

Definition hash_permutation (state : list Z) : list Z := concat (map (le_bytes 8) (keccakf (words state 25) 24)).

Definition HASH_CAPACITY_AREA : Z := 64.

(** [seed] is what the operating system returns. *)
Definition init_random (seed : list Z) : list Z := hash_permutation (seed ++ replicate (Z.to_nat HASH_CAPACITY_AREA) 0).

(** The state after the call and the bytes written. *)
Definition random_step (s : list Z * list Z * Z) : list Z * list Z * Z :=
  let '(state, result, n) := s in
  (hash_permutation state, result ++ take (Z.to_nat HASH_DATA_AREA) state, n - HASH_DATA_AREA).

Definition generate_random_bytes_not_thread_safe (n : Z) (state : list Z) : option (list Z * list Z) :=
  '(state, result, n) ← while_fuel (fun s : list Z * list Z * Z => HASH_DATA_AREA <? snd s) random_step (Z.to_nat (n / HASH_DATA_AREA)) (state, [], n);
  if n =? 0 then Some (state, result)
  else Some (hash_permutation (replicate (Z.to_nat HASH_DATA_AREA) 0 ++ drop (Z.to_nat HASH_DATA_AREA) state), result ++ take (Z.to_nat n) state).

Definition entropy_step (s : list Z * list Z) : list Z * list Z :=
  let '(state, ptr) := s in
  let round := take (Z.to_nat HASH_DATA_AREA) ptr in
  (hash_permutation (zip_with Z.lxor (take (length round) state) round ++ drop (length round) state), drop (Z.to_nat HASH_DATA_AREA) ptr).

Definition add_extra_entropy_not_thread_safe (ptr state : list Z) : option (list Z) :=
  fst <$> while_fuel (fun s : list Z * list Z => 0 <? Z.of_nat (length (snd s))) entropy_step (length ptr) (state, ptr).

(** The next [n] calls for 32 bytes. *)
Fixpoint random_blocks (n : nat) (state : list Z) : list (list Z) :=
  match n with
  | O => []
  | S n => match generate_random_bytes_not_thread_safe 32 state with
           | Some (state, bytes) => bytes :: random_blocks n state
           | None => []
           end
  end.

(** ** Random scalars *)

(** From the top byte down. *)
Fixpoint less_from (n : nat) (k0 k1 : list Z) : bool :=
  match n with
  | O => false
  | S n => if byte k0 n <? byte k1 n then true else if byte k1 n <? byte k0 n then false else less_from n k0 k1
  end.

Definition less32 (k0 k1 : list Z) : bool := less_from 32 k0 k1.

Definition limit : list Z := [
  0xe3; 0x6a; 0x67; 0x72; 0x8b; 0xce; 0x13; 0x29; 0x8f; 0x30; 0x82; 0x8c; 0x0b; 0xa4; 0x10; 0x39;
  0x01; 0x00; 0x00; 0x00; 0x00; 0x00; 0x00; 0x00; 0x00; 0x00; 0x00; 0x00; 0x00; 0x00; 0x00; 0xf0].

(** The scalar and the blocks left; [None] when the blocks run out. *)
Fixpoint random32_unbiased (draws : list (list Z)) : option (list Z * list (list Z)) :=
  match draws with
  | [] => None
  | bytes :: draws =>
      if negb (less32 bytes limit) then random32_unbiased draws
      else
        bytes ← sc_reduce32 bytes;
        if sc_isnonzero bytes =? 0 then random32_unbiased draws else Some (bytes, draws)
  end.

Definition random_scalar (draws : list (list Z)) : option (list Z * list (list Z)) := random32_unbiased draws.

Definition hash_to_scalar (data : list Z) : option (list Z) := h ← cn_fast_hash data; sc_reduce32 h.

(** ** Keys *)

(** [pub], [sec] and the value returned. *)
Definition generate_keys (recovery_key : list Z) (recover : bool) (draws : list (list Z)) : option (list Z * list Z * list Z * list (list Z)) :=
  '(rng, draws) ← (if recover then Some (recovery_key, draws) else random_scalar draws);
  sec ← sc_reduce32 rng;
  point ← ge_scalarmult_base ge_base sec;
  pub ← ge_p3_tobytes point;
  Some (pub, sec, rng, draws).

Definition check_key (key : list Z) : option bool :=
  point ← ge_frombytes_vartime key;
  Some (bool_decide (is_Some point)).

Definition secret_key_to_public_key (sec : list Z) : option (option (list Z)) :=
  if negb (sc_check sec =? 0) then Some None
  else
    point ← ge_scalarmult_base ge_base sec;
    pub ← ge_p3_tobytes point;
    Some (Some pub).

Section Derivation.
Context (debug : bool).

Definition assert_that (b : bool) : option unit := if debug && negb b then None else Some tt.

(** [None] inside is the result [false]. *)
Definition generate_key_derivation (key1 key2 : list Z) : option (option (list Z)) :=
  _ ← assert_that (sc_check key2 =? 0);
  point ← ge_frombytes_vartime key1;
  match point with
  | None => Some None
  | Some point =>
      point2 ← ge_scalarmult key2 point;
      point3 ← ge_mul8 point2;
      point2 ← ge_p1p1_to_p2 point3;
      derivation ← ge_tobytes point2;
      Some (Some derivation)
  end.

Definition derivation_to_scalar (derivation : list Z) (output_index : Z) : option (list Z) :=
  index ← write_varint output_index;
  _ ← assert_that (Z.of_nat (length index) <=? (8 * 8 + 6) / 7);
  hash_to_scalar (derivation ++ index).

Definition derive_public_key (derivation : list Z) (output_index : Z) (base : list Z) : option (option (list Z)) :=
  point1 ← ge_frombytes_vartime base;
  match point1 with
  | None => Some None
  | Some point1 =>
      scalar ← derivation_to_scalar derivation output_index;
      point2 ← ge_scalarmult_base ge_base scalar;
      point3 ← ge_p3_to_cached point2;
      point4 ← ge_add point1 point3;
      point5 ← ge_p1p1_to_p2 point4;
      derived_key ← ge_tobytes point5;
      Some (Some derived_key)
  end.

Definition derive_secret_key (derivation : list Z) (output_index : Z) (base : list Z) : option (list Z) :=
  _ ← assert_that (sc_check base =? 0);
  scalar ← derivation_to_scalar derivation output_index;
  sc_add base scalar.

Definition derive_subaddress_public_key (out_key derivation : list Z) (output_index : Z) : option (option (list Z)) :=
  point1 ← ge_frombytes_vartime out_key;
  match point1 with
  | None => Some None
  | Some point1 =>
      scalar ← derivation_to_scalar derivation output_index;
      point2 ← ge_scalarmult_base ge_base scalar;
      point3 ← ge_p3_to_cached point2;
      point4 ← ge_sub point1 point3;
      point5 ← ge_p1p1_to_p2 point4;
      derived_key ← ge_tobytes point5;
      Some (Some derived_key)
  end.

(** The characters of [view_tag]. *)
Definition view_tag_salt : list Z := [118; 105; 101; 119; 95; 116; 97; 103].

Definition derive_view_tag (derivation : list Z) (output_index : Z) : option Z :=
  index ← write_varint output_index;
  _ ← assert_that (Z.of_nat (length index) <=? (8 * 8 + 6) / 7);
  view_tag_full ← cn_fast_hash (view_tag_salt ++ derivation ++ index);
  Some (byte view_tag_full 0).

(** ** Hashing to the curve and key images *)

Definition biased_hash_to_ec (key : list Z) : option ge_p3 :=
  h ← cn_fast_hash key;
  point ← ge_fromfe_frombytes_vartime h;
  point2 ← ge_mul8 point;
  ge_p1p1_to_p3 point2.

Definition unbiased_hash_to_ec (preimage : list Z) : option (list Z) :=
  '(ret, hash) ← blake2b_monero 64 preimage None;
  if negb (ret =? 0) then None
  else
    first ← ge_fromfe_frombytes_vartime (take 32 hash);
    first_p1p1 ← ge_mul8 first;
    first_p3 ← ge_p1p1_to_p3 first_p1p1;
    second ← ge_fromfe_frombytes_vartime (drop 32 hash);
    second_p1p1 ← ge_mul8 second;
    second_p3 ← ge_p1p1_to_p3 second_p1p1;
    second_cached ← ge_p3_to_cached second_p3;
    point ← ge_add first_p3 second_cached;
    res_ge_p3 ← ge_p1p1_to_p3 point;
    ge_p3_tobytes res_ge_p3.

Definition biased_derive_key_image_generator (pub : list Z) : option (list Z) := point ← biased_hash_to_ec pub; ge_p3_tobytes point.

Definition derive_key_image_generator (pub : list Z) (biased : bool) : option (list Z) :=
  if biased then biased_derive_key_image_generator pub else unbiased_hash_to_ec pub.

Definition generate_key_image (pub sec : list Z) : option (list Z) :=
  _ ← assert_that (sc_check sec =? 0);
  point ← biased_hash_to_ec pub;
  point2 ← ge_scalarmult sec point;
  ge_tobytes point2.
End Derivation.

(** ** Scalars below the group order *)

Definition reduced (s : list Z) : Prop := is_key s /\ le_value s < ell.

Lemma ell_bounds : 2 ^ 252 < ell < 2 ^ 253.
Proof. by vm_compute. Qed.

Lemma reduced_range s : reduced s -> 0 <= le_value s < ell.
Proof. intros [Hs Hl]. pose proof (key_range s Hs). lia. Qed.

Lemma reduced_scalar_ok s : reduced s -> scalar_ok s.
Proof. intros [Hs Hl]. split; [done|]. pose proof ell_bounds. lia. Qed.

Lemma reduced_top s : reduced s -> byte s 31 <= 127.
Proof.
  intros [Hs Hl]. pose proof (byte_ok s 31 (proj2 Hs)) as Hb. destruct (top_bit s Hs) as [E _]. rewrite Z.shiftr_div_pow2 in E by lia.
  pose proof ell_bounds. rewrite (Z.div_small (le_value s)) in E by (pose proof (key_range s Hs); lia).
  apply Z.div_small_iff in E; [|lia]. change (2 ^ 7) with 128 in E. unfold is_uint in Hb. lia.
Qed.

Lemma mod_reduced x : reduced (le_bytes 32 (x mod ell)).
Proof.
  pose proof ell_bounds. pose proof (Z.mod_pos_bound x ell ltac:(lia)). split; [split; [apply length_le_bytes|apply le_bytes_ok]|].
  rewrite le_value_bytes; lia.
Qed.

Lemma mod_value x : le_value (le_bytes 32 (x mod ell)) = x mod ell.
Proof. pose proof ell_bounds. pose proof (Z.mod_pos_bound x ell ltac:(lia)). apply le_value_bytes. lia. Qed.

Lemma reduced_bytes s : reduced s -> le_bytes 32 (le_value s mod ell) = s.
Proof. intros Hs. rewrite Z.mod_small by (by apply reduced_range). symmetry. apply key_bytes, Hs. Qed.

Lemma reduced_check s : is_key s -> (sc_check s =? 0) = bool_decide (le_value s < ell).
Proof. intros Hs. rewrite sc_check_eq by done. destruct (Z.ltb_spec (le_value s) ell); [by rewrite bool_decide_true|rewrite bool_decide_false by lia; done]. Qed.

Lemma reduced_checked s : reduced s -> (sc_check s =? 0) = true.
Proof. intros [Hs Hl]. rewrite reduced_check by done. by rewrite bool_decide_true. Qed.

Create HintDb scalars.
#[export] Hint Resolve mod_reduced reduced_scalar_ok reduced_top reduced_checked : scalars.
#[export] Hint Extern 1 (is_key _) => match goal with H : reduced _ |- _ => exact (proj1 H) end : scalars.

(** The hash as a number below the order. *)
Definition Hs (data : list Z) : Z := le_value (crypto_cn_fast_hash data) mod ell.

Lemma hash_key data : is_key (crypto_cn_fast_hash data).
Proof. split; [apply hash32_len|apply hash32_ok]. Qed.

Lemma cn_fast_hash_some data : cn_fast_hash data = Some (crypto_cn_fast_hash data).
Proof. unfold crypto_cn_fast_hash. by destruct (cn_fast_hash_keccak data) as (h & -> & _). Qed.

Lemma hash_to_scalar_eq data : hash_to_scalar data = Some (le_bytes 32 (Hs data)).
Proof. unfold hash_to_scalar. rewrite cn_fast_hash_some. apply sc_reduce32_eq, hash_key. Qed.

#[global] Opaque crypto_cn_fast_hash.

(** ** The scalar of an output *)

Lemma varint_ref_length n i : 0 <= i < 128 ^ Z.of_nat n -> (0 < n)%nat -> (length (varint_ref i) <= n)%nat.
Proof.
  revert i; induction n as [|n IH]; intros i Hi Hn; [lia|]. destruct (Z.lt_ge_cases i 128) as [H|H]; [rewrite varint_ref_small by lia; cbn; lia|].
  destruct n as [|n]; [change (128 ^ Z.of_nat 1) with 128 in Hi; lia|].
  rewrite varint_ref_big by done. cbn [length]. rewrite Nat2Z.inj_succ, Z.pow_succ_r in Hi by lia.
  assert (length (varint_ref (i / 128)) <= S n)%nat; [|lia]. apply IH; [|lia]. split; [apply Z.div_pos; lia|apply Z.div_lt_upper_bound; lia].
Qed.

Lemma index_some i : is_u64 i -> exists v, write_varint i = Some v /\ Z.of_nat (length v) <= 10.
Proof.
  intros Hi. exists (varint_ref i). split; [apply write_varint_ref, Hi|].
  assert (length (varint_ref i) <= 10)%nat; [|lia]. apply varint_ref_length; [|lia]. unfold is_uint in Hi. change (128 ^ Z.of_nat 10) with (2 ^ 70). lia.
Qed.

(** The scalar of an output. *)
Definition output_scalar (derivation : list Z) (i : Z) : Z := Hs (derivation ++ default [] (write_varint i)).

Lemma derivation_to_scalar_eq debug d i : is_u64 i -> derivation_to_scalar debug d i = Some (le_bytes 32 (output_scalar d i)).
Proof.
  intros Hi. unfold derivation_to_scalar, output_scalar. destruct (index_some i Hi) as (v & -> & Hv). cbn [mbind option_bind].
  unfold assert_that. rewrite (proj2 (Z.leb_le _ _)) by done. cbn [negb]. rewrite andb_false_r. cbn [mbind option_bind]. apply hash_to_scalar_eq.
Qed.

Lemma assert_true debug b : b = true -> assert_that debug b = Some tt.
Proof. intros ->. unfold assert_that. by rewrite andb_false_r. Qed.

Lemma output_scalar_value d i : le_value (le_bytes 32 (output_scalar d i)) = output_scalar d i.
Proof. apply mod_value. Qed.

Lemma output_scalar_reduced d i : reduced (le_bytes 32 (output_scalar d i)).
Proof. apply mod_reduced. Qed.

#[export] Hint Resolve output_scalar_reduced : scalars.

(** ** Points through their bytes *)

#[local] Abbreviation B := base_point.

Lemma ge_frombytes_encode P : returns (ge_frombytes_vartime (encode P)) (fun r => exists p, r = Some p /\ p3_ok p P).
Proof.
  eapply returns_mono; [apply ge_frombytes_vartime_ok, encode_key|]. cbn beta. intros [p|] H.
  - destruct H as (Q & Hp & E). apply encode_inj in E. subst Q. by exists p.
  - by destruct (H P).
Qed.

(** Either the bytes are a point's or the decoder refuses them. *)
Lemma decode_cases s : is_key s -> (exists P, s = encode P) \/ (ge_frombytes_vartime s = Some None /\ forall P, s <> encode P).
Proof.
  intros Hs. destruct (ge_frombytes_vartime_ok s Hs) as ([p|] & E & H).
  - left. destruct H as (P & _ & HP). by exists P.
  - by right.
Qed.

Lemma check_key_encode P : check_key (encode P) = Some true.
Proof.
  unfold check_key. destruct (ge_frombytes_vartime_ok (encode P) (encode_key P)) as ([p|] & E & H); [|by destruct (H P)].
  rewrite E. reflexivity.
Qed.

Lemma mul_base_ok a : reduced a -> returns (ge_scalarmult_base ge_base a) (fun r => p3_ok r (smul (le_value a) B)).
Proof. intros Ha. apply ge_scalarmult_base_ok; [exact ge_base_ok|apply Ha|by apply reduced_top]. Qed.

Lemma mul_ok a A P : reduced a -> p3_ok A P -> returns (ge_scalarmult a A) (fun r => p2_ok r (smul (le_value a) P)).
Proof. intros Ha HA. apply ge_scalarmult_ok; [apply Ha|by apply reduced_top|exact HA]. Qed.

Lemma mul_p3_ok a A P : reduced a -> p3_ok A P -> returns (ge_scalarmult_p3 a A) (fun r => p3_ok r (smul (le_value a) P)).
Proof. intros Ha HA. apply ge_scalarmult_p3_ok; [apply Ha|by apply reduced_top|exact HA]. Qed.

Lemma two_base_ok a A P b : reduced a -> reduced b -> p3_ok A P ->
  returns (ge_double_scalarmult_base_vartime ge_Bi a A b) (fun r => p2_ok r (smul (le_value a) P + smul (le_value b) B)%G).
Proof. intros Ha Hb HA. apply double_base_ok; [exact ge_Bi_ok|by apply reduced_scalar_ok|by apply reduced_scalar_ok|exact HA]. Qed.

Lemma two_precomp_ok a A P b Bi Q : reduced a -> reduced b -> p3_ok A P -> odd_multiples cached_ok Bi Q ->
  returns (ge_double_scalarmult_precomp_vartime a A b Bi) (fun r => p2_ok r (smul (le_value a) P + smul (le_value b) Q)%G).
Proof. intros Ha Hb HA HQ. apply double_precomp_ok; [by apply reduced_scalar_ok|by apply reduced_scalar_ok|exact HA|exact HQ]. Qed.

(** Calls whose result is known.  Rewriting with [bind_some], rather than
    reducing, keeps the checker from running the code that comes next. *)
Lemma bind_some {A C} (a : A) (k : A -> option C) : (Some a ≫= k) = k a.
Proof. reflexivity. Qed.

Lemma returns_bind_eq {A C} (m : option A) (a : A) (k : A -> option C) (Q : C -> Prop) : m = Some a -> returns (k a) Q -> returns (m ≫= k) Q.
Proof. by intros ->. Qed.

(** One call of the group library: its result is in the context afterwards. *)
Ltac crypto_op :=
  lazymatch goal with
  | |- returns (ge_add _ _) _ => eapply ge_add_ok
  | |- returns (ge_sub _ _) _ => eapply ge_sub_ok
  | |- returns (ge_mul8 _) _ => eapply ge_mul8_ok
  | |- returns (ge_p1p1_to_p2 _) _ => eapply ge_p1p1_to_p2_ok
  | |- returns (ge_p1p1_to_p3 _) _ => eapply ge_p1p1_to_p3_ok
  | |- returns (ge_p3_to_cached _) _ => eapply ge_p3_to_cached_ok
  | |- returns (ge_dsm_precomp _) _ => eapply ge_dsm_precomp_ok
  | |- returns (ge_p3_tobytes _) _ => eapply ge_p3_tobytes_ok
  | |- returns (ge_tobytes _) _ => eapply ge_tobytes_ok
  | |- returns (ge_scalarmult_base _ _) _ => eapply mul_base_ok
  | |- returns (ge_scalarmult _ _) _ => eapply mul_ok
  | |- returns (ge_scalarmult_p3 _ _) _ => eapply mul_p3_ok
  | |- returns (ge_double_scalarmult_base_vartime _ _ _ _) _ => eapply two_base_ok
  | |- returns (ge_double_scalarmult_precomp_vartime _ _ _ _) _ => eapply two_precomp_ok
  end.

Ltac crypto_side := first [eassumption | solve [auto with scalars]].

Ltac crypto_step :=
  lazymatch goal with
  | |- returns (ge_frombytes_vartime (encode _) ≫= _) _ =>
      eapply returns_bind; [apply ge_frombytes_encode|cbn beta; intros ? (? & -> & ?)]
  | |- returns (hash_to_scalar _ ≫= _) _ => eapply returns_bind_eq; [apply hash_to_scalar_eq|cbn beta]
  | |- returns (cn_fast_hash _ ≫= _) _ => eapply returns_bind_eq; [apply cn_fast_hash_some|cbn beta]
  | |- returns (derivation_to_scalar _ _ _ ≫= _) _ => eapply returns_bind_eq; [apply derivation_to_scalar_eq; crypto_side|cbn beta]
  | |- returns (assert_that _ _ ≫= _) _ => eapply returns_bind_eq; [apply assert_true; crypto_side|cbn beta]
  | |- returns (ge_tobytes _ ≫= _) _ => eapply returns_bind; [eapply ge_tobytes_ok; crypto_side|cbn beta; intros ? <-]
  | |- returns (ge_p3_tobytes _ ≫= _) _ => eapply returns_bind; [eapply ge_p3_tobytes_ok; crypto_side|cbn beta; intros ? <-]
  | |- returns (_ ≫= _) _ => eapply returns_bind; [crypto_op; crypto_side|cbn beta; intros ? ?]
  | |- returns (Some _) _ => apply returns_some
  | |- returns _ _ => eapply returns_mono; [crypto_op; crypto_side|cbn beta]
  end.

(** ** Random scalars *)

Lemma le_value_take_S s n : bytes_ok s -> (n < length s)%nat -> le_value (take (S n) s) = le_value (take n s) + 256 ^ Z.of_nat n * byte s n.
Proof.
  revert s; induction n as [|n IH]; intros s Hs Hn; destruct s as [|x s]; cbn [length] in Hn; try lia.
  - unfold byte. cbn [nth]. rewrite firstn_cons, !take_0, le_value_cons. change (le_value []) with 0. change (256 ^ Z.of_nat 0) with 1. lia.
  - apply Forall_cons in Hs as [Hx Hs]. rewrite !firstn_cons, !le_value_cons, IH by (done || lia). unfold byte. cbn [nth].
    rewrite Nat2Z.inj_succ, Z.pow_succ_r by lia. lia.
Qed.

Lemma less_from_spec n a b : bytes_ok a -> bytes_ok b -> (n <= length a)%nat -> (n <= length b)%nat ->
  less_from n a b = (le_value (take n a) <? le_value (take n b)).
Proof.
  intros Ha Hb. induction n as [|n IH]; intros Hna Hnb; [done|]. cbn [less_from]. rewrite !le_value_take_S, IH by (done || lia).
  pose proof (le_value_range (take n a) ltac:(by apply Forall_take)) as Ra. pose proof (le_value_range (take n b) ltac:(by apply Forall_take)) as Rb.
  rewrite length_take_le in Ra, Rb by lia. set (W := 256 ^ Z.of_nat n) in *.
  destruct (Z.ltb_spec (byte a n) (byte b n)); [symmetry; apply Z.ltb_lt; nia|].
  destruct (Z.ltb_spec (byte b n) (byte a n)); [symmetry; apply Z.ltb_ge; nia|].
  assert (byte a n = byte b n) as -> by lia. destruct (Z.ltb_spec (le_value (take n a)) (le_value (take n b))); symmetry; [apply Z.ltb_lt|apply Z.ltb_ge]; lia.
Qed.

Lemma less32_spec a b : is_key a -> is_key b -> less32 a b = (le_value a <? le_value b).
Proof. intros [La Ha] [Lb Hb]. unfold less32. rewrite less_from_spec by (done || lia). by rewrite !take_ge by lia. Qed.

Lemma limit_key : is_key limit.
Proof. split; [done|]. apply (bool_decide_unpack _). by vm_compute. Qed.

Lemma limit_value : le_value limit = 15 * ell.
Proof. by vm_compute. Qed.

(** The blocks that give a scalar. *)
Definition acceptable (d : list Z) : Prop := le_value d < 15 * ell /\ le_value d mod ell <> 0.

#[export] Instance acceptable_dec d : Decision (acceptable d).
Proof. unfold acceptable. apply _. Defined.

Lemma random_scalar_cons d draws : is_key d ->
  random_scalar (d :: draws) = if decide (acceptable d) then Some (le_bytes 32 (le_value d mod ell), draws) else random_scalar draws.
Proof.
  intros Hd. unfold random_scalar. cbn [random32_unbiased]. rewrite less32_spec, limit_value by (done || apply limit_key).
  pose proof (mod_reduced (le_value d)) as Hr. unfold acceptable. destruct (Z.ltb_spec (le_value d) (15 * ell)) as [Hlt|Hge]; cbn [negb].
  - rewrite sc_reduce32_eq by done. cbn [mbind option_bind]. rewrite sc_isnonzero_eq, mod_value by apply Hr.
    destruct (Z.eqb_spec (le_value d mod ell) 0) as [E|E]; cbn [Z.eqb]; [by rewrite decide_False by tauto|by rewrite decide_True].
  - by rewrite decide_False by lia.
Qed.

Lemma random_scalar_some draws k rest : Forall is_key draws -> random_scalar draws = Some (k, rest) ->
  reduced k /\ le_value k <> 0 /\ Forall is_key rest /\ (length rest < length draws)%nat.
Proof.
  intros Hd. induction Hd as [|d draws Hd Hds IH]; [done|]. rewrite random_scalar_cons by done. case_decide as Ha.
  - intros [= <- <-]. split; [apply mod_reduced|]. split; [rewrite mod_value; apply Ha|]. split; [done|cbn; lia].
  - intros E. destruct (IH E) as (? & ? & ? & ?). split_and!; try done. cbn. lia.
Qed.

Definition random_state_ok (state : list Z) : Prop := length state = 200%nat /\ bytes_ok state.

Lemma hash_permutation_ok state : random_state_ok (hash_permutation state).
Proof.
  split; [|apply digest_ok]. unfold hash_permutation. assert (forall l, length (concat (map (le_bytes 8) l)) = (length l * 8)%nat) as E.
  { induction l as [|x l IH]; [done|]. cbn [map concat]. rewrite length_app, IH, length_le_bytes. cbn. lia. }
  by rewrite E, length_keccakf.
Qed.

Lemma generate_random_bytes_ok n state : 0 <= n -> random_state_ok state ->
  returns (generate_random_bytes_not_thread_safe n state) (fun '(state', result) =>
    random_state_ok state' /\ Z.of_nat (length result) = n /\ bytes_ok result).
Proof.
  intros Hn Hs. unfold generate_random_bytes_not_thread_safe.
  destruct (while_fuel_total (fun s : list Z * list Z * Z => HASH_DATA_AREA <? snd s) random_step
    (fun s => let '(st, r, m) := s in random_state_ok st /\ bytes_ok r /\ 0 <= m /\ Z.of_nat (length r) + m = n)
    (fun s => Z.to_nat (snd s / HASH_DATA_AREA))) with (fuel := Z.to_nat (n / HASH_DATA_AREA)) (s := (state, @nil Z, n))
    as ([[st r] m] & -> & (Hst & Hr & Hm & Hl) & Hc).
  - intros [[st r] m] (Hst & Hr & Hm & Hl) Hc. cbn [snd] in Hc. apply Z.ltb_lt in Hc. cbn [random_step snd]. unfold HASH_DATA_AREA in *.
    change (Z.to_nat 136) with 136%nat. split_and!; [apply hash_permutation_ok| |lia| |].
    + apply Forall_app. split; [done|]. apply Forall_take, Hst.
    + rewrite length_app, length_take. destruct Hst as [-> _]. lia.
    + replace m with (m - 136 + 1 * 136) at 2 by lia. rewrite Z.div_add by lia. assert (0 <= (m - 136) / 136) by (apply Z.div_pos; lia). lia.
  - split_and!; try done. by apply Forall_nil.
  - done.
  - cbn [mbind option_bind snd] in *. apply Z.ltb_ge in Hc. unfold HASH_DATA_AREA in *. destruct (Z.eqb_spec m 0) as [->|H0]; apply returns_some.
    + split_and!; [apply Hst..|lia|done].
    + split; [apply hash_permutation_ok|]. split; [rewrite length_app, length_take; destruct Hst as [-> _]; lia|].
      apply Forall_app. split; [done|]. apply Forall_take, Hst.
Qed.

Lemma random_blocks_ok n state : random_state_ok state -> length (random_blocks n state) = n /\ Forall is_key (random_blocks n state).
Proof.
  revert state; induction n as [|n IH]; intros state Hs; cbn [random_blocks]; [by split|].
  destruct (generate_random_bytes_ok 32 state ltac:(lia) Hs) as ([st r] & -> & Hst & Hl & Hr). destruct (IH st Hst) as [L F].
  split; [cbn; by rewrite L|]. constructor; [|done]. split; [lia|done].
Qed.

(** C35: Random scalars.  The generator gives blocks of 32 bytes whatever the
    seed.  A scalar is drawn as soon as a block is below [15 l] and not a multiple
    of [l]; blocks before it are skipped, and the call does not return exactly
    while there is none.  The scalar is between 1 and [l - 1], and each such value
    comes from exactly 15 block values: the choice is unbiased. *)
Theorem random_scalar_correct seed n draws : draws = random_blocks n (init_random seed) ->
  length draws = n /\
  (random_scalar draws = None <-> Forall (fun d => ~ acceptable d) draws) /\
  (forall k rest, random_scalar draws = Some (k, rest) ->
     exists pre d, draws = pre ++ d :: rest /\ Forall (fun d => ~ acceptable d) pre /\ acceptable d /\
       k = le_bytes 32 (le_value d mod ell) /\ 0 < le_value k < ell) /\
  (forall x d, 0 < x < ell -> is_key d ->
     (random_scalar [d] = Some (le_bytes 32 x, []) <-> exists j, 0 <= j < 15 /\ le_value d = x + j * ell)).
Proof.
  intros E. destruct (random_blocks_ok n (init_random seed) (hash_permutation_ok _)) as [L F]. rewrite <- E in *. clear E. split; [done|].
  pose proof ell_bounds as Hell. split_and!.
  - clear L. induction F as [|d draws Hd F IH]; [done|]. rewrite random_scalar_cons by done. case_decide as Ha.
    + split; [done|]. intros H. by inversion H.
    + rewrite IH. split; [by constructor|]. intros H. by inversion H.
  - clear L. induction F as [|d draws Hd F IH]; intros k rest; [done|]. rewrite random_scalar_cons by done. case_decide as Ha.
    + intros [= <- <-]. exists [], d. split_and!; try done. rewrite mod_value. pose proof (Z.mod_pos_bound (le_value d) ell). destruct Ha. lia.
      rewrite mod_value. apply Z.mod_pos_bound. lia.
    + intros E. destruct (IH k rest E) as (pre & e & -> & Hp & He). exists (d :: pre), e. split; [done|]. split; [by constructor|done].
  - intros x d Hx Hd. rewrite random_scalar_cons by done. change (random_scalar []) with (@None (list Z * list (list Z))).
    pose proof (key_range d Hd) as Hk. split.
    + case_decide as Ha; [|done]. intros Ex. apply (f_equal (from_option (fun p => le_value (fst p)) 0)) in Ex. cbn [from_option fst] in Ex. rewrite mod_value, le_value_bytes in Ex by lia.
      exists (le_value d / ell). pose proof (Z.div_mod (le_value d) ell ltac:(lia)). split; [|lia]. destruct Ha.
      split; [apply Z.div_pos; lia|apply Z.div_lt_upper_bound; lia].
    + intros (j & Hj & E). assert (le_value d mod ell = x) as Em by (rewrite E, Z.mod_add, Z.mod_small; lia).
      rewrite decide_True; [by rewrite Em|]. split; [nia|lia].
Qed.

Lemma random_scalar_witness : length (random_blocks 2 (init_random (replicate 136 0))) = 2%nat.
Proof. apply (random_scalar_correct (replicate 136 0) 2 _ eq_refl). Defined.

(** ** Keys and derivations *)

Section Derivations.
Context (debug : bool).

Lemma generate_key_derivation_ok P k : reduced k ->
  generate_key_derivation debug (encode P) k = Some (Some (encode (smul (8 * le_value k) P))).
Proof.
  intros Hk. apply returns_eq. unfold generate_key_derivation. do 6 crypto_step. apply returns_some. by rewrite smul_mul.
Qed.

Lemma generate_key_derivation_invalid s k : is_key s -> reduced k -> (forall P, s <> encode P) -> generate_key_derivation debug s k = Some None.
Proof.
  intros Hs Hk Hn. unfold generate_key_derivation. rewrite assert_true by (by apply reduced_checked). cbn [mbind option_bind].
  destruct (decode_cases s Hs) as [[P ->]|[-> _]]; [by destruct (Hn P)|done].
Qed.

Lemma derive_public_key_ok d i P : is_u64 i -> derive_public_key debug d i (encode P) = Some (Some (encode (P + smul (output_scalar d i) B)%G)).
Proof.
  intros Hi. apply returns_eq. unfold derive_public_key. do 7 crypto_step. apply returns_some. by rewrite output_scalar_value.
Qed.

Lemma derive_subaddress_public_key_ok d i P : is_u64 i ->
  derive_subaddress_public_key debug (encode P) d i = Some (Some (encode (P - smul (output_scalar d i) B)%G)).
Proof.
  intros Hi. apply returns_eq. unfold derive_subaddress_public_key. do 7 crypto_step. apply returns_some. by rewrite output_scalar_value.
Qed.

Lemma derive_secret_key_ok d i b : is_u64 i -> reduced b ->
  derive_secret_key debug d i b = Some (le_bytes 32 ((le_value b + output_scalar d i) mod ell)).
Proof.
  intros Hi Hb. unfold derive_secret_key. rewrite assert_true by (by apply reduced_checked). cbn [mbind option_bind].
  rewrite derivation_to_scalar_eq by done. cbn [mbind option_bind]. rewrite sc_add_eq by (apply Hb || apply output_scalar_reduced).
  by rewrite output_scalar_value.
Qed.

Lemma smul_ell k : smul (k mod ell) B = smul k B.
Proof. apply smul_mod; [exact base_order|]. pose proof ell_bounds. lia. Qed.

Lemma secret_key_to_public_key_ok s : reduced s -> secret_key_to_public_key s = Some (Some (encode (smul (le_value s) B))).
Proof.
  intros Hs. apply returns_eq. unfold secret_key_to_public_key. rewrite reduced_checked by done. cbn [negb]. do 2 crypto_step. by apply returns_some.
Qed.
End Derivations.

(** C22: One-time addresses.  For a view key [a], a spend key [b] and a
    transaction key [r], the sender's derivation, from the view public key and
    [r], and the receiver's, from the transaction public key and [a], are equal;
    the output key the sender derives has for secret key the one the receiver
    derives; and subtracting the derivation from the output key gives back the
    spend public key.  A derivation from bytes that are no point fails, and the
    result does not depend on whether assertions are compiled in. *)
Theorem one_time_address_correct debug a b r i : reduced a -> reduced b -> reduced r -> is_u64 i ->
  exists pa pb pr d out x,
    secret_key_to_public_key a = Some (Some pa) /\ secret_key_to_public_key b = Some (Some pb) /\ secret_key_to_public_key r = Some (Some pr) /\
    generate_key_derivation debug pa r = Some (Some d) /\ generate_key_derivation debug pr a = Some (Some d) /\
    derive_public_key debug d i pb = Some (Some out) /\ derive_secret_key debug d i b = Some x /\
    secret_key_to_public_key x = Some (Some out) /\
    derive_subaddress_public_key debug out d i = Some (Some pb) /\
    (forall s, is_key s -> (forall P, s <> encode P) -> generate_key_derivation debug s a = Some None /\ check_key s = Some false).
Proof.
  intros Ha Hb Hr Hi. rewrite !secret_key_to_public_key_ok by done.
  exists (encode (smul (le_value a) B)), (encode (smul (le_value b) B)), (encode (smul (le_value r) B)).
  rewrite !generate_key_derivation_ok by done. set (d := encode (smul (8 * le_value r) (smul (le_value a) B))).
  exists d, (encode (smul (le_value b) B + smul (output_scalar d i) B)%G), (le_bytes 32 ((le_value b + output_scalar d i) mod ell)).
  rewrite derive_public_key_ok, derive_secret_key_ok, derive_subaddress_public_key_ok, secret_key_to_public_key_ok by (done || apply mod_reduced).
  do 4 (split; [reflexivity|]). split.
  { do 3 f_equal. group_ring. }
  split; [reflexivity|]. split; [reflexivity|]. split; [rewrite mod_value, smul_ell; do 3 f_equal; group_ring|].
  split; [do 3 f_equal; group_ring|]. intros s Hs Hn. split; [by apply generate_key_derivation_invalid|].
  unfold check_key. destruct (decode_cases s Hs) as [[P ->]|[-> _]]; [by destruct (Hn P)|]. cbn [mbind option_bind]. rewrite bool_decide_false; [done|]. by intros [? ?].
Qed.

Lemma small_reduced x : 0 <= x < 256 -> reduced (x :: replicate 31 0).
Proof.
  intros Hx. destruct (small_scalar_ok x Hx) as [Hk _]. split; [exact Hk|]. rewrite le_value_cons. change (le_value (replicate 31 0)) with 0.
  pose proof ell_bounds. lia.
Qed.

Lemma one_time_address_witness : exists pa, secret_key_to_public_key (3 :: replicate 31 0) = Some (Some pa).
Proof.
  destruct (one_time_address_correct true (3 :: replicate 31 0) (5 :: replicate 31 0) (7 :: replicate 31 0) 1
    (small_reduced 3 ltac:(lia)) (small_reduced 5 ltac:(lia)) (small_reduced 7 ltac:(lia)) ltac:(done)) as (pa & _ & _ & _ & _ & _ & H & _).
  exists pa. exact H.
Defined.

(** ** Hashing to the curve *)

(** A point of the subgroup the base point generates. *)
Definition in_subgroup (P : point) : Prop := smul ell P = gzero.

Lemma eight_subgroup P : in_subgroup (smul 8 P).
Proof. unfold in_subgroup. exact (cofactor_order P). Qed.

Lemma in_subgroup_smul k P : in_subgroup P -> in_subgroup (smul k P).
Proof. unfold in_subgroup. intros E. transitivity (smul k (smul ell P)); [group_ring|]. rewrite E. apply smul_zero. Qed.

Lemma in_subgroup_add P Q : in_subgroup P -> in_subgroup Q -> in_subgroup (P + Q)%G.
Proof. unfold in_subgroup. intros E E'. rewrite smul_gadd, E, E'. apply gadd_0_l. Qed.

Lemma base_subgroup : in_subgroup B.
Proof. unfold in_subgroup. exact base_order. Qed.

(** Scalars act modulo the order. *)
Lemma smul_reduce k P : in_subgroup P -> smul (k mod ell) P = smul k P.
Proof. intros HP. apply smul_mod; [exact HP|]. pose proof ell_bounds. lia. Qed.

(** The point 32 bytes map to. *)
Definition maps_to (s : list Z) (Q : point) : Prop := elligator (of_Z (le_value s)) Q.

Lemma fromfe_mul8 {A} s (k : ge_p3 -> option A) (Q : A -> Prop) : is_key s ->
  (forall p P, p3_ok p (smul 8 P) -> maps_to s P -> returns (k p) Q) ->
  returns (point ← ge_fromfe_frombytes_vartime s; point2 ← ge_mul8 point; point3 ← ge_p1p1_to_p3 point2; k point3) Q.
Proof.
  intros Hs Hk. eapply returns_bind; [exact (ge_fromfe_elligator s Hs)|]. cbn beta. intros r (P & Hr & HP). do 2 crypto_step.
  eapply Hk; [eassumption|exact HP].
Qed.

(** What the hash of a key to the curve is. *)
Definition hashes_to (pub : list Z) (P : point) : Prop := exists p, biased_hash_to_ec pub = Some p /\ p3_ok p P /\ in_subgroup P.

Lemma biased_hash_to_ec_maps pub : exists Q, maps_to (crypto_cn_fast_hash pub) Q /\ hashes_to pub (smul 8 Q).
Proof.
  assert (returns (biased_hash_to_ec pub) (fun p => exists Q, p3_ok p (smul 8 Q) /\ maps_to (crypto_cn_fast_hash pub) Q)) as (p & E & Q & Hp & HQ).
  { unfold biased_hash_to_ec. crypto_step. eapply returns_bind; [exact (ge_fromfe_elligator _ (hash_key pub))|]. cbn beta. intros r (Q & Hr & HQ).
    do 2 crypto_step. intros p Hp. exists Q. split; [exact Hp|exact HQ]. }
  exists Q. split; [exact HQ|]. exists p. split; [exact E|]. split; [exact Hp|apply eight_subgroup].
Qed.

Lemma biased_hash_to_ec_ok pub : exists P, hashes_to pub P.
Proof. destruct (biased_hash_to_ec_maps pub) as (Q & _ & H). exists (smul 8 Q). exact H. Qed.

(** The two halves of the BLAKE2b hash. *)
Definition unbiased_digest (preimage : list Z) : list Z := blake2b_digest (sequential_param 64 (keylen None) PERSONAL) preimage.

Lemma unbiased_hash_to_ec_maps preimage : Z.of_nat (length preimage) < 2 ^ 63 ->
  returns (unbiased_hash_to_ec preimage) (fun s => exists P Q,
    maps_to (take 32 (unbiased_digest preimage)) P /\ maps_to (drop 32 (unbiased_digest preimage)) Q /\ s = encode (smul 8 P + smul 8 Q)%G).
Proof.
  intros Hl. unfold unbiased_hash_to_ec. eapply returns_bind_eq; [apply (blake2b_monero_ok 64 preimage None); [lia|by left|exact Hl]|]. cbn beta iota.
  fold (unbiased_digest preimage). set (m := unbiased_digest preimage).
  destruct (blake2b_digest_ok (sequential_param 64 (keylen None) PERSONAL) preimage) as [Hd Hok]; [by vm_compute|].
  change (digest_length _) with 64 in Hd. fold (unbiased_digest preimage) in Hd, Hok. fold m in Hd, Hok. clearbody m. cbn [Z.eqb negb].
  assert (is_key (take 32 m) /\ is_key (drop 32 m)) as [H1 H2].
  { split; (split; [rewrite ?length_take, ?length_drop; lia|]); [by apply Forall_take|by apply Forall_drop]. }
  apply fromfe_mul8; [exact H1|]. intros p P Hp HP. apply fromfe_mul8; [exact H2|]. intros q Q Hq HQ. do 3 crypto_step. crypto_step.
  intros s <-. exists P, Q. split; [exact HP|]. split; [exact HQ|reflexivity].
Qed.

Lemma unbiased_hash_to_ec_ok preimage : Z.of_nat (length preimage) < 2 ^ 63 ->
  returns (unbiased_hash_to_ec preimage) (fun s => exists P, s = encode P /\ in_subgroup P).
Proof.
  intros Hl. eapply returns_mono; [exact (unbiased_hash_to_ec_maps preimage Hl)|]. cbn beta. intros s (P & Q & _ & _ & ->).
  eexists. split; [reflexivity|]. apply in_subgroup_add; apply eight_subgroup.
Qed.

Lemma generate_key_image_ok debug pub sec P : reduced sec -> hashes_to pub P -> generate_key_image debug pub sec = Some (encode (smul (le_value sec) P)).
Proof.
  intros Hs (p & E & Hp & HP). apply returns_eq. unfold generate_key_image. crypto_step. eapply returns_bind_eq; [exact E|]. cbn beta. do 2 crypto_step.
  intros s <-. reflexivity.
Qed.

(** C24: Hashing to the curve.  Both hashes to the curve are total: for any bytes
    the assertions of the mapping hold.  The biased hash is eight times the point
    the Elligator 2 map gives the Keccak hash, the unbiased one eight times the
    sum of the points of the two halves of the BLAKE2b hash, and those points are
    unique.  The result encodes a multiple of the base point, so it has no part of
    small order.  A key image is the secret key times that point, in the same
    subgroup. *)
Theorem hash_to_ec_correct debug pub sec : reduced sec -> Z.of_nat (length pub) < 2 ^ 63 ->
  (forall biased, returns (derive_key_image_generator pub biased) (fun s => exists i, 0 <= i < ell /\ s = encode (smul i B))) /\
  (exists Q, maps_to (crypto_cn_fast_hash pub) Q /\ hashes_to pub (smul 8 Q) /\ derive_key_image_generator pub true = Some (encode (smul 8 Q)) /\
     generate_key_image debug pub sec = Some (encode (smul (le_value sec) (smul 8 Q))) /\ smul ell (smul (le_value sec) (smul 8 Q)) = gzero) /\
  (exists P Q, maps_to (take 32 (unbiased_digest pub)) P /\ maps_to (drop 32 (unbiased_digest pub)) Q /\
     derive_key_image_generator pub false = Some (encode (smul 8 P + smul 8 Q)%G)) /\
  (forall s P Q, maps_to s P -> maps_to s Q -> P = Q).
Proof.
  intros Hs Hl. destruct (biased_hash_to_ec_maps pub) as (Q & HQ & HP). assert (derive_key_image_generator pub true = Some (encode (smul 8 Q))) as E.
  { destruct HP as (p & E & Hp & _). apply returns_eq. cbn [derive_key_image_generator]. unfold biased_derive_key_image_generator.
    eapply returns_bind_eq; [exact E|]. cbn beta. crypto_step. intros s <-. reflexivity. }
  pose proof HP as (p & _ & _ & HPs). split; [|split; [|split]].
  - intros [|].
    + rewrite E. apply returns_some. destruct (subgroup_generated (smul 8 Q) HPs) as (i & Hi & Ei). exists i. split; [exact Hi|]. rewrite Ei. reflexivity.
    + cbn [derive_key_image_generator]. eapply returns_mono; [exact (unbiased_hash_to_ec_ok pub Hl)|]. cbn beta. intros s (R & -> & HR).
      destruct (subgroup_generated R HR) as (i & Hi & ->). exists i. split; [exact Hi|reflexivity].
  - exists Q. split; [exact HQ|]. split; [exact HP|]. split; [exact E|].
    split; [by apply generate_key_image_ok|]. exact (in_subgroup_smul (le_value sec) _ HPs).
  - destruct (unbiased_hash_to_ec_maps pub Hl) as (s & Es & P & R & H1 & H2 & Ev). exists P, R. split; [exact H1|]. split; [exact H2|].
    cbn [derive_key_image_generator]. rewrite Es, Ev. reflexivity.
  - intros s P R. apply elligator_unique.
Qed.

Lemma hash_to_ec_witness : exists P, hashes_to [1; 2; 3] P.
Proof.
  destruct (hash_to_ec_correct true [1; 2; 3] (5 :: replicate 31 0) (small_reduced 5 ltac:(lia)) ltac:(done)) as [_ [(Q & _ & H & _) _]].
  exists (smul 8 Q). exact H.
Defined.
