(* ===== verification/Signatures.v ===== *)
(** * Signatures and proofs

    The rest of [src/crypto/crypto.cpp]: Schnorr signatures, transaction proofs
    of both versions and ring signatures, generation and verification, with
    their retry loops, sanity checks and debug assertions.

    Verification is characterised by the equation it checks in the group;
    generation is shown to produce what verification accepts, and to return as
    soon as the random blocks allow it. *)

From Stdlib Require Import Zmod.
From S2P Require Import Prelude Varint Limbs ScalarOps Primes FieldOps Group Edwards GroupOps ScalarMult CurveTables CurveOrder HashToPoint Keccak Blake2b Crypto.

#[local] Abbreviation B := base_point.

(** ** Definitions *)

Record signature := Signature { sig_c : list Z; sig_r : list Z }.

(** [config::HASH_KEY_TXPROOF_V2]. *)
Definition HASH_KEY_TXPROOF_V2 : list Z := [84; 88; 80; 82; 79; 79; 70; 95; 86; 50].

Definition infinity : list Z := 1 :: replicate 31 0.

Definition zero_key : list Z := replicate 32 0.

Section Definitions.
Context (debug : bool).

(** A block compiled in when [NDEBUG] is not defined. *)
Definition debug_only (m : option bool) : option unit := if debug then match m with Some true => Some tt | _ => None end else Some tt.

Definition equals_base_multiple (key sec : list Z) : option bool :=
  t ← ge_scalarmult_base ge_base sec; t2 ← ge_p3_tobytes t; Some (bool_decide (key = t2)).

(** *** Schnorr signatures *)

Definition commit_and_hash (prefix_hash pub k : list Z) : option (list Z) :=
  tmp3 ← ge_scalarmult_base ge_base k;
  comm ← ge_p3_tobytes tmp3;
  hash_to_scalar (prefix_hash ++ pub ++ comm).

Fixpoint try_again (prefix_hash pub sec : list Z) (fuel : nat) (draws : list (list Z)) : option (signature * list (list Z)) :=
  match fuel with
  | O => None
  | S fuel =>
      '(k, draws) ← random_scalar draws;
      c ← commit_and_hash prefix_hash pub k;
      if sc_isnonzero c =? 0 then try_again prefix_hash pub sec fuel draws
      else
        r ← sc_mulsub c sec k;
        if sc_isnonzero r =? 0 then try_again prefix_hash pub sec fuel draws
        else Some (Signature c r, draws)
  end.

(** Each try takes a block, so there are at most as many tries as blocks. *)
Definition generate_signature (prefix_hash pub sec : list Z) (draws : list (list Z)) : option (signature * list (list Z)) :=
  _ ← debug_only (b ← equals_base_multiple pub sec; Some ((sc_check sec =? 0) && b));
  try_again prefix_hash pub sec (length draws) draws.

Definition check_signature (prefix_hash pub : list Z) (sig : signature) : option bool :=
  _ ← debug_only (check_key pub);
  tmp3 ← ge_frombytes_vartime pub;
  match tmp3 with
  | None => Some false
  | Some tmp3 =>
      if negb (sc_check (sig_c sig) =? 0) || negb (sc_check (sig_r sig) =? 0) || (sc_isnonzero (sig_c sig) =? 0) then Some false
      else
        tmp2 ← ge_double_scalarmult_base_vartime ge_Bi (sig_c sig) tmp3 (sig_r sig);
        comm ← ge_tobytes tmp2;
        if bool_decide (comm = infinity) then Some false
        else
          c ← hash_to_scalar (prefix_hash ++ pub ++ comm);
          c ← sc_sub c (sig_c sig);
          Some (sc_isnonzero c =? 0)
  end.

(** *** Transaction proofs *)

(** The multiple of [B], when there is one, or of the base point. *)
Definition mul_optional (k : list Z) (B_p3 : option ge_p3) : option (list Z) :=
  match B_p3 with
  | Some B_p3 => X_p2 ← ge_scalarmult k B_p3; ge_tobytes X_p2
  | None => X_p3 ← ge_scalarmult_base ge_base k; ge_p3_tobytes X_p3
  end.

Definition mul_bytes (k : list Z) (A_p3 : ge_p3) : option (list Z) := p2 ← ge_scalarmult k A_p3; ge_tobytes p2.

(** The four decodings; [None] when one fails. *)
Definition decode_optional (key : option (list Z)) : option (option (option ge_p3)) :=
  match key with
  | None => Some (Some None)
  | Some key => p ← ge_frombytes_vartime key; match p with None => Some None | Some p => Some (Some (Some p)) end
  end.

Definition decode_proof_keys (R A : list Z) (Bo : option (list Z)) (D : list Z) : option (option (ge_p3 * ge_p3 * option ge_p3 * ge_p3)) :=
  R_p3 ← ge_frombytes_vartime R;
  match R_p3 with None => Some None | Some R_p3 =>
    A_p3 ← ge_frombytes_vartime A;
    match A_p3 with None => Some None | Some A_p3 =>
      B_p3 ← decode_optional Bo;
      match B_p3 with None => Some None | Some B_p3 =>
        D_p3 ← ge_frombytes_vartime D;
        match D_p3 with None => Some None | Some D_p3 => Some (Some (R_p3, A_p3, B_p3, D_p3)) end
      end
    end
  end.

Definition proof_sane (r R D : list Z) (A_p3 : ge_p3) (B_p3 : option ge_p3) : option bool :=
  dbg_R ← mul_optional r B_p3;
  dbg_D ← mul_bytes r A_p3;
  Some ((sc_check r =? 0) && bool_decide (R = dbg_R) && bool_decide (D = dbg_D)).

(** [None] inside is an exception. *)
Definition generate_tx_proof_v1 (prefix_hash R A : list Z) (Bo : option (list Z)) (D r : list Z) (draws : list (list Z))
    : option (option signature * list (list Z)) :=
  keys ← decode_proof_keys R A Bo D;
  match keys with
  | None => Some (None, draws)
  | Some (R_p3, A_p3, B_p3, D_p3) =>
      _ ← debug_only (proof_sane r R D A_p3 B_p3);
      '(k, draws) ← random_scalar draws;
      X ← mul_optional k B_p3;
      Y ← mul_bytes k A_p3;
      c ← hash_to_scalar (prefix_hash ++ D ++ X ++ Y);
      sig_r ← sc_mulsub c r k;
      Some (Some (Signature c sig_r), draws)
  end.

(** [s_comm_2], of which version 1 hashes the first four fields. *)
Definition proof_buffer (prefix_hash D X Y sep R A : list Z) (Bo : option (list Z)) : list Z :=
  prefix_hash ++ D ++ X ++ Y ++ sep ++ R ++ A ++ default zero_key Bo.

Definition generate_tx_proof (prefix_hash R A : list Z) (Bo : option (list Z)) (D r : list Z) (draws : list (list Z))
    : option (option signature * list (list Z)) :=
  keys ← decode_proof_keys R A Bo D;
  match keys with
  | None => Some (None, draws)
  | Some (R_p3, A_p3, B_p3, D_p3) =>
      _ ← debug_only (proof_sane r R D A_p3 B_p3);
      '(k, draws) ← random_scalar draws;
      sep ← cn_fast_hash HASH_KEY_TXPROOF_V2;
      X ← mul_optional k B_p3;
      Y ← mul_bytes k A_p3;
      c ← hash_to_scalar (proof_buffer prefix_hash D X Y sep R A Bo);
      sig_r ← sc_mulsub c r k;
      Some (Some (Signature c sig_r), draws)
  end.

(** A multiple taken through its bytes, as the verifier does. *)
Definition mul_decode (k : list Z) (A_p3 : ge_p3) : option (option ge_p3) := s ← mul_bytes k A_p3; ge_frombytes_vartime s.

Definition check_tx_proof (prefix_hash R A : list Z) (Bo : option (list Z)) (D : list Z) (sig : signature) (version : Z) : option bool :=
  keys ← decode_proof_keys R A Bo D;
  match keys with
  | None => Some false
  | Some (R_p3, A_p3, B_p3, D_p3) =>
      if negb (sc_check (sig_c sig) =? 0) || negb (sc_check (sig_r sig) =? 0) then Some false
      else
        cR_p3 ← mul_decode (sig_c sig) R_p3;
        match cR_p3 with None => Some false | Some cR_p3 =>
          second ← (match B_p3 with
                    | Some B_p3 => mul_decode (sig_r sig) B_p3
                    | None => rG_p3 ← ge_scalarmult_base ge_base (sig_r sig); Some (Some rG_p3)
                    end);
          match second with None => Some false | Some second =>
            second_cached ← ge_p3_to_cached second;
            X_p1p1 ← ge_add cR_p3 second_cached;
            X_p2 ← ge_p1p1_to_p2 X_p1p1;
            cD ← mul_bytes (sig_c sig) D_p3;
            rA ← mul_bytes (sig_r sig) A_p3;
            cD_p3 ← ge_frombytes_vartime cD;
            match cD_p3 with None => Some false | Some cD_p3 =>
              rA_p3 ← ge_frombytes_vartime rA;
              match rA_p3 with None => Some false | Some rA_p3 =>
                rA_cached ← ge_p3_to_cached rA_p3;
                Y_p1p1 ← ge_add cD_p3 rA_cached;
                Y_p2 ← ge_p1p1_to_p2 Y_p1p1;
                sep ← cn_fast_hash HASH_KEY_TXPROOF_V2;
                X ← ge_tobytes X_p2;
                Y ← ge_tobytes Y_p2;
                let buf := proof_buffer prefix_hash D X Y sep R A Bo in
                if version =? 1 then
                  c2 ← hash_to_scalar (take (length buf - 4 * 32) buf);
                  c2 ← sc_sub c2 (sig_c sig);
                  Some (sc_isnonzero c2 =? 0)
                else if version =? 2 then
                  c2 ← hash_to_scalar buf;
                  c2 ← sc_sub c2 (sig_c sig);
                  Some (sc_isnonzero c2 =? 0)
                else Some false
              end
            end
          end
        end
  end.

(** *** Ring signatures *)

(** One member of the ring, as the verifier and as the signer for the others. *)
Definition ring_member (pub : list Z) (tmp3 : ge_p3) (sig : signature) (image_pre : list ge_cached) : option (list Z) :=
  tmp2 ← ge_double_scalarmult_base_vartime ge_Bi (sig_c sig) tmp3 (sig_r sig);
  a ← ge_tobytes tmp2;
  tmp3 ← biased_hash_to_ec pub;
  tmp2 ← ge_double_scalarmult_precomp_vartime (sig_r sig) tmp3 (sig_c sig) image_pre;
  b ← ge_tobytes tmp2;
  Some (a ++ b).

Record ring_state := RingState { rs_sig : list signature; rs_sum : list Z; rs_k : option (list Z); rs_ab : list Z; rs_draws : list (list Z) }.

Definition ring_step (sec_index : nat) (image_pre : list ge_cached) (i : nat) (pub : list Z) (st : ring_state) : option ring_state :=
  if (i =? sec_index)%nat then
    '(k, draws) ← random_scalar (rs_draws st);
    tmp3 ← ge_scalarmult_base ge_base k;
    a ← ge_p3_tobytes tmp3;
    tmp3 ← biased_hash_to_ec pub;
    tmp2 ← ge_scalarmult k tmp3;
    b ← ge_tobytes tmp2;
    Some (RingState (rs_sig st) (rs_sum st) (Some k) (rs_ab st ++ a ++ b) draws)
  else
    '(c, draws) ← random_scalar (rs_draws st);
    '(r, draws) ← random_scalar draws;
    tmp3 ← ge_frombytes_vartime pub;
    match tmp3 with
    | None => None
    | Some tmp3 =>
        ab ← ring_member pub tmp3 (Signature c r) image_pre;
        sum ← sc_add (rs_sum st) c;
        Some (RingState (<[i := Signature c r]> (rs_sig st)) sum (rs_k st) (rs_ab st ++ ab) draws)
    end.

Fixpoint ring_loop (sec_index : nat) (image_pre : list ge_cached) (i : nat) (pubs : list (list Z)) (st : ring_state) : option ring_state :=
  match pubs with
  | [] => Some st
  | pub :: pubs => st ← ring_step sec_index image_pre i pub st; ring_loop sec_index image_pre (S i) pubs st
  end.

Definition all_keys (pubs : list (list Z)) : option bool := foldr (fun pub acc => b ← check_key pub; acc ← acc; Some (b && acc)) (Some true) pubs.

(** [sig] is the array of the caller; [None] is an abort. *)
Definition generate_ring_signature (prefix_hash image : list Z) (pubs : list (list Z)) (sec : list Z) (sec_index : nat) (sig : list signature)
    (draws : list (list Z)) : option (list signature * list (list Z)) :=
  _ ← assert_that debug (sec_index <? length pubs)%nat;
  _ ← debug_only (b ← equals_base_multiple (default [] (pubs !! sec_index)) sec;
                  t3 ← generate_key_image debug (default [] (pubs !! sec_index)) sec;
                  ks ← all_keys pubs;
                  Some ((sc_check sec =? 0) && b && bool_decide (image = t3) && ks));
  image_unp ← ge_frombytes_vartime image;
  match image_unp with
  | None => None
  | Some image_unp =>
      image_pre ← ge_dsm_precomp image_unp;
      st ← ring_loop sec_index image_pre 0 pubs (RingState sig sc_0 None [] draws);
      h ← hash_to_scalar (prefix_hash ++ rs_ab st);
      k ← rs_k st;
      c ← sc_sub h (rs_sum st);
      r ← sc_mulsub c sec k;
      Some (<[sec_index := Signature c r]> (rs_sig st), rs_draws st)
  end.

(** [Some None] is the result [false]; reading past the signatures is [None]. *)
Fixpoint check_ring_loop (image_pre : list ge_cached) (pubs : list (list Z)) (sig : list signature) (sum ab : list Z)
    : option (option (list Z * list Z)) :=
  match pubs with
  | [] => Some (Some (sum, ab))
  | pub :: pubs =>
      match sig with
      | [] => None
      | s :: sig =>
          if negb (sc_check (sig_c s) =? 0) || negb (sc_check (sig_r s) =? 0) then Some None
          else
            tmp3 ← ge_frombytes_vartime pub;
            match tmp3 with
            | None => Some None
            | Some tmp3 =>
                m ← ring_member pub tmp3 s image_pre;
                sum ← sc_add sum (sig_c s);
                check_ring_loop image_pre pubs sig sum (ab ++ m)
            end
      end
  end.

Definition check_ring_signature (prefix_hash image : list Z) (pubs : list (list Z)) (sig : list signature) : option bool :=
  _ ← debug_only (all_keys pubs);
  image_unp ← ge_frombytes_vartime image;
  match image_unp with
  | None => Some false
  | Some image_unp =>
      image_pre ← ge_dsm_precomp image_unp;
      res ← check_ring_loop image_pre pubs sig sc_0 [];
      match res with
      | None => Some false
      | Some (sum, ab) =>
          h ← hash_to_scalar (prefix_hash ++ ab);
          h ← sc_sub h sum;
          Some (sc_isnonzero h =? 0)
      end
  end.
End Definitions.

(** ** Schnorr signatures *)

Lemma infinity_encode : encode gzero = infinity.
Proof. by vm_compute. Qed.

Lemma encode_infinity P : encode P = infinity <-> P = gzero.
Proof. rewrite <- infinity_encode. split; [apply encode_inj|by intros ->]. Qed.

Lemma debug_true debug m : m = Some true -> debug_only debug m = Some tt.
Proof. intros ->. by destruct debug. Qed.

Lemma equals_base_multiple_ok x : reduced x -> equals_base_multiple (encode (smul (le_value x) B)) x = Some true.
Proof.
  intros Hx. apply returns_eq. unfold equals_base_multiple. do 2 crypto_step. apply returns_some. symmetry. apply bool_decide_true. reflexivity.
Qed.

(** The commitment a signature stands for. *)
Definition commitment (P : point) (sig : signature) : point := (smul (le_value (sig_c sig)) P + smul (le_value (sig_r sig)) B)%G.

(** What verification accepts. *)
Definition valid_signature (prefix_hash : list Z) (P : point) (sig : signature) : Prop :=
  reduced (sig_c sig) /\ reduced (sig_r sig) /\ le_value (sig_c sig) <> 0 /\ commitment P sig <> gzero /\
  le_value (sig_c sig) = Hs (prefix_hash ++ encode P ++ encode (commitment P sig)).

Lemma Hs_range data : 0 <= Hs data < ell.
Proof. pose proof ell_bounds. apply Z.mod_pos_bound. lia. Qed.

Lemma Hs_key data : reduced (le_bytes 32 (Hs data)) /\ le_value (le_bytes 32 (Hs data)) = Hs data.
Proof. split; [apply mod_reduced|apply mod_value]. Qed.

(** The last lines of every verifier. *)
Lemma challenge_compare data c : reduced c ->
  returns (h ← hash_to_scalar data; h ← sc_sub h c; Some (sc_isnonzero h =? 0)) (eq (bool_decide (le_value c = Hs data))).
Proof.
  intros Hc. crypto_step. destruct (Hs_key data) as [Hk Hv]. eapply returns_bind_eq; [apply sc_sub_eq; [apply Hk|apply Hc]|]. cbn beta.
  apply returns_some. rewrite Hv, sc_isnonzero_eq, mod_value by apply mod_reduced.
  pose proof (Hs_range data). pose proof (reduced_range c Hc). pose proof ell_bounds.
  destruct (Z.eqb_spec ((Hs data - le_value c) mod ell) 0) as [E|E]; cbn [Z.eqb].
  - apply bool_decide_true. apply Z.mod_divide in E as [q E]; [|lia]. assert (q = 0) by nia. nia.
  - apply bool_decide_false. intros Ec. apply E. by rewrite Ec, Z.sub_diag.
Qed.

Lemma check_signature_ok debug h P sig : is_key (sig_c sig) -> is_key (sig_r sig) ->
  returns (check_signature debug h (encode P) sig) (fun b => b = true <-> valid_signature h P sig).
Proof.
  intros Hc Hr. unfold check_signature. eapply returns_bind_eq; [apply debug_true, check_key_encode|]. cbn beta. crypto_step.
  rewrite !reduced_check, sc_isnonzero_eq by done. unfold valid_signature.
  case_bool_decide as Hcl; cbn [negb orb]; [|apply returns_some; split; [done|]; intros ([_ ?] & _); tauto].
  case_bool_decide as Hrl; cbn [negb orb]; [|apply returns_some; split; [done|]; intros (_ & [_ ?] & _); tauto].
  destruct (Z.eqb_spec (le_value (sig_c sig)) 0) as [H0|H0]; cbn [Z.eqb]; [apply returns_some; split; [done|]; tauto|].
  assert (reduced (sig_c sig)) as Hcr by (by split). assert (reduced (sig_r sig)) as Hrr by (by split).
  do 2 crypto_step. fold (commitment P sig). case_bool_decide as Hi.
  { apply encode_infinity in Hi. apply returns_some. split; [done|]. tauto. }
  assert (commitment P sig <> gzero) as Hnz by (intros E; apply Hi; rewrite E; apply infinity_encode).
  eapply returns_mono; [exact (challenge_compare _ _ Hcr)|]. cbn beta. intros b <-. rewrite bool_decide_eq_true. tauto.
Qed.

(** A key that is no point: refused, or an assertion failure in a debug build. *)
Lemma check_signature_invalid debug h pub sig : is_key pub -> (forall P, pub <> encode P) ->
  check_signature debug h pub sig = if debug then None else Some false.
Proof.
  intros Hp Hn. unfold check_signature, debug_only, check_key.
  destruct (decode_cases pub Hp) as [[P ->]|[E _]]; [by destruct (Hn P)|]. rewrite E. cbn [mbind option_bind].
  rewrite bool_decide_false by (by intros [? ?]). by destruct debug.
Qed.

(** ** Generation *)

Section Schnorr.
Context (h : list Z) (sec : list Z) (Hsec : reduced sec).

#[local] Abbreviation P := (smul (le_value sec) B).

(** The signature a scalar gives, and the blocks that give one. *)
Definition challenge (k : Z) : Z := Hs (h ++ encode P ++ encode (smul k B)).
Definition response (k : Z) : Z := (k - challenge k * le_value sec) mod ell.

Lemma challenge_ok k : reduced (le_bytes 32 (challenge k)) /\ le_value (le_bytes 32 (challenge k)) = challenge k.
Proof. split; [apply mod_reduced|apply mod_value]. Qed.

Lemma response_ok k : reduced (le_bytes 32 (response k)) /\ le_value (le_bytes 32 (response k)) = response k.
Proof. split; [apply mod_reduced|apply mod_value]. Qed.

Definition suitable (d : list Z) : Prop :=
  acceptable d /\ challenge (le_value d mod ell) <> 0 /\ response (le_value d mod ell) <> 0.

Instance suitable_dec d : Decision (suitable d).
Proof. unfold suitable. apply _. Defined.

Definition signature_of (d : list Z) : signature :=
  Signature (le_bytes 32 (challenge (le_value d mod ell))) (le_bytes 32 (response (le_value d mod ell))).

Lemma signature_of_valid d : acceptable d -> suitable d -> valid_signature h P (signature_of d).
Proof.
  intros Ha (_ & Hc & Hr). set (k := le_value d mod ell) in *. unfold valid_signature, signature_of. fold k. cbn [sig_c sig_r].
  destruct (Hs_key (h ++ encode P ++ encode (smul k B))) as [Hck Hcv]. fold (challenge k) in Hck, Hcv.
  assert (commitment P (signature_of d) = smul k B) as E.
  { unfold commitment, signature_of. fold k. cbn [sig_c sig_r]. rewrite Hcv. unfold response at 1. rewrite mod_value, smul_ell. group_ring. }
  unfold signature_of in E. fold k in E. rewrite E, Hcv. split; [exact Hck|]. split; [apply mod_reduced|]. split; [exact Hc|]. split; [|reflexivity].
  intros Ek. pose proof (prime_order B k base_order base_nonzero Ek) as [q Eq]. pose proof ell_bounds.
  pose proof (Z.mod_pos_bound (le_value d) ell ltac:(lia)). destruct Ha as [_ Ha]. fold k in Ha. assert (q = 0) by nia. lia.
Qed.

Fixpoint first_suitable (draws : list (list Z)) : option (signature * list (list Z)) :=
  match draws with
  | [] => None
  | d :: draws => if decide (suitable d) then Some (signature_of d, draws) else first_suitable draws
  end.

(** One try with an acceptable block. *)
Lemma try_once d :
  returns (commit_and_hash h (encode P) (le_bytes 32 (le_value d mod ell))) (eq (le_bytes 32 (challenge (le_value d mod ell)))) /\
  sc_mulsub (le_bytes 32 (challenge (le_value d mod ell))) sec (le_bytes 32 (le_value d mod ell)) = Some (le_bytes 32 (response (le_value d mod ell))).
Proof.
  split.
  - unfold commit_and_hash. do 2 crypto_step. rewrite hash_to_scalar_eq. apply returns_some. unfold challenge. by rewrite mod_value.
  - destruct (Hs_key (h ++ encode P ++ encode (smul (le_value d mod ell) B))) as [Hck Hcv].
    rewrite sc_mulsub_eq by (apply Hck || apply Hsec || apply mod_reduced). fold (challenge (le_value d mod ell)) in Hcv. by rewrite Hcv, mod_value.
Qed.

Lemma try_again_skip fuel d draws : is_key d -> ~ acceptable d -> try_again h (encode P) sec (S fuel) (d :: draws) = try_again h (encode P) sec (S fuel) draws.
Proof. intros Hk Ha. cbn [try_again]. by rewrite random_scalar_cons, decide_False. Qed.

Lemma try_again_eq draws fuel : Forall is_key draws -> (length draws <= fuel)%nat -> try_again h (encode P) sec fuel draws = first_suitable draws.
Proof.
  intros Hd. revert fuel. induction Hd as [|d draws Hk Hd IH]; intros fuel Hf; [by destruct fuel|].
  destruct fuel as [|fuel]; cbn [length] in Hf; [lia|]. cbn [first_suitable]. destruct (decide (acceptable d)) as [Ha|Ha].
  - cbn [try_again]. rewrite random_scalar_cons, decide_True by done. rewrite bind_some; cbn beta iota. destruct (try_once d) as [(c & -> & <-) Er].
    rewrite bind_some. cbn beta. rewrite Er. unfold suitable. set (k := le_value d mod ell).
    destruct (challenge_ok k) as [[Hck _] Hcv], (response_ok k) as [[Hrk _] Hrv]. rewrite !sc_isnonzero_eq, Hcv by done.
    destruct (Z.eqb_spec (challenge k) 0) as [E|E]; cbn [Z.eqb].
    { rewrite IH by lia. rewrite decide_False; [done|]. tauto. }
    rewrite bind_some. cbn beta. rewrite sc_isnonzero_eq, Hrv by done. destruct (Z.eqb_spec (response k) 0) as [E'|E']; cbn [Z.eqb].
    { rewrite IH by lia. rewrite decide_False; [done|]. tauto. }
    by rewrite decide_True.
  - rewrite try_again_skip, IH by (done || lia).
    rewrite decide_False; [done|]. intros [? _]. tauto.
Qed.

Lemma generate_signature_eq debug draws : Forall is_key draws -> generate_signature debug h (encode P) sec draws = first_suitable draws.
Proof.
  intros Hd. unfold generate_signature. rewrite debug_true; [by apply try_again_eq|].
  rewrite equals_base_multiple_ok, bind_some by done. cbn beta. by rewrite reduced_checked.
Qed.

Lemma first_suitable_some draws sig rest : first_suitable draws = Some (sig, rest) ->
  exists pre d, draws = pre ++ d :: rest /\ Forall (fun d => ~ suitable d) pre /\ suitable d /\ sig = signature_of d.
Proof.
  induction draws as [|d draws IH]; cbn [first_suitable]; [done|]. case_decide as Ha.
  - intros E. apply (f_equal (fun o => match o with Some p => p | None => (sig, rest) end)) in E. cbn in E.
    exists [], d. pose proof (f_equal fst E) as E1. pose proof (f_equal snd E) as E2. cbn [fst snd] in E1, E2. subst. by split_and!.
  - intros E. destruct (IH E) as (pre & e & -> & Hp & He). exists (d :: pre), e. split; [done|]. split; [by constructor|done].
Qed.

Lemma first_suitable_none draws : first_suitable draws = None <-> Forall (fun d => ~ suitable d) draws.
Proof.
  induction draws as [|d draws IH]; cbn [first_suitable]; [done|]. case_decide as Ha.
  - split; [done|]. intros H. by inversion H.
  - rewrite IH. split; [by constructor|]. intros H. by inversion H.
Qed.
End Schnorr.

(** ** Two signatures with one commitment give the key *)

Lemma inverse_mod d : ~ (ell | d) -> exists u, (u * d) mod ell = 1.
Proof.
  intros Hd. pose proof prime_group as Hp. change (2 ^ 252 + 27742317777372353535851937790883648493) with ell in Hp.
  assert (Z.coprime ell d) as Hc by (apply Z.coprime_prime_l; [exact Hp|exact Hd]).
  apply Z.Bezout_coprime in Hc as (v & u & E). exists u. replace (u * d) with (1 + (- v) * ell) by lia.
  rewrite Z.mod_add by (pose proof ell_bounds; lia). apply Z.mod_small. pose proof ell_bounds. lia.
Qed.

(** An equation between multiples, solved for the point up to small order. *)
Lemma solve_multiple d e P u : (u * d) mod ell = 1 -> smul d P = smul e B -> smul 8 P = smul (8 * (u * e)) B.
Proof.
  intros Hu E. pose proof (Z.div_mod (u * d) ell ltac:(pose proof ell_bounds; lia)) as Ed. rewrite Hu in Ed.
  assert (smul 8 P = smul (8 * u) (smul d P) - smul (u * d / ell) (smul ell (smul 8 P)))%G as ->.
  { transitivity (smul (8 * (u * d - ell * (u * d / ell))) P); [replace (u * d - ell * (u * d / ell)) with 1 by lia; reflexivity|group_ring]. }
  rewrite cofactor_order, smul_zero, E. group_ring.
Qed.

Lemma same_commitment P sig sig' : reduced (sig_c sig) -> reduced (sig_c sig') -> commitment P sig = commitment P sig' ->
  le_value (sig_c sig) <> le_value (sig_c sig') ->
  exists u, (u * (le_value (sig_c sig) - le_value (sig_c sig'))) mod ell = 1 /\
    smul 8 P = smul (8 * (u * (le_value (sig_r sig') - le_value (sig_r sig)))) B.
Proof.
  intros Hc Hc' E Hne. pose proof (reduced_range _ Hc). pose proof (reduced_range _ Hc'). pose proof ell_bounds.
  destruct (inverse_mod (le_value (sig_c sig) - le_value (sig_c sig'))) as (u & Hu).
  { intros [q Eq]. assert (q = 0) by nia. lia. }
  exists u. split; [exact Hu|]. apply (solve_multiple _ _ _ _ Hu). unfold commitment in E.
  set (c := le_value (sig_c sig)) in *. set (c' := le_value (sig_c sig')) in *. set (r := le_value (sig_r sig)) in *. set (r' := le_value (sig_r sig')) in *.
  transitivity (smul c P + smul r B - smul c' P - smul r B)%G; [group_ring|]. rewrite E. group_ring.
Qed.

(** C20: Schnorr signatures are complete and generation is live.  For every secret
    key and message, signing returns no signature exactly while no block of the
    random numbers is suitable (a scalar below the order with a challenge and a
    response that are not zero); otherwise it returns the one of the first
    suitable block, and verification accepts it. *)
Theorem signature_complete debug h sec draws : reduced sec -> Forall is_key draws ->
  let pub := encode (smul (le_value sec) B) in
  (generate_signature debug h pub sec draws = None <-> Forall (fun d => ~ suitable h sec d) draws) /\
  (forall sig rest, generate_signature debug h pub sec draws = Some (sig, rest) ->
     check_signature debug h pub sig = Some true /\
     exists pre d, draws = pre ++ d :: rest /\ Forall (fun d => ~ suitable h sec d) pre /\ suitable h sec d).
Proof.
  intros Hs Hd. cbv zeta. rewrite generate_signature_eq by done. split; [apply first_suitable_none|]. intros sig rest E.
  destruct (first_suitable_some _ _ _ _ _ E) as (pre & d & -> & Hp & Hd' & ->). split; [|by exists pre, d].
  pose proof (signature_of_valid h sec d (proj1 Hd') Hd') as Hv. pose proof Hv as (Hc & Hr & _).
  destruct (check_signature_ok debug h (smul (le_value sec) B) (signature_of h sec d) (proj1 Hc) (proj1 Hr)) as (b & -> & Hb). f_equal. exact (proj2 Hb Hv).
Qed.

Definition base_bytes : list Z := 0x58 :: replicate 31 0x66.

Lemma base_encode : encode B = base_bytes.
Proof. by vm_compute. Qed.

(** A secret key and a random block of 1: both the key and the commitment are the base
    point, and the block is suitable. *)
Lemma one_suitable : suitable [1] (1 :: replicate 31 0) (1 :: replicate 31 0).
Proof.
  assert (le_value (1 :: replicate 31 0) = 1) as E1 by done. assert (challenge [1] (1 :: replicate 31 0) 1 = Hs ([1] ++ base_bytes ++ base_bytes)) as Ec.
  { unfold challenge. rewrite E1, smul_1, base_encode. reflexivity. }
  unfold suitable, response. rewrite E1. change (1 mod ell) with 1. rewrite Ec.
  clear. split; [apply (bool_decide_unpack _); by vm_compute|]. split; apply (bool_decide_unpack _); by vm_compute.
Qed.

Lemma signature_complete_witness : exists sig, generate_signature true [1] (encode (smul (le_value (1 :: replicate 31 0)) B)) (1 :: replicate 31 0) [zero_key; 1 :: replicate 31 0] = Some (sig, []) /\
  check_signature true [1] (encode (smul (le_value (1 :: replicate 31 0)) B)) sig = Some true.
Proof.
  pose proof (small_reduced 1 ltac:(lia)) as H1. pose proof (proj1 (small_reduced 0 ltac:(lia)) : is_key zero_key) as H0.
  assert (Forall is_key [zero_key; 1 :: replicate 31 0]) as Hd by (constructor; [exact H0|constructor; [exact (proj1 H1)|constructor]]).
  destruct (signature_complete true [1] (1 :: replicate 31 0) [zero_key; 1 :: replicate 31 0] H1 Hd) as [Hnone Hsome].
  destruct (generate_signature true [1] (encode (smul (le_value (1 :: replicate 31 0)) B)) (1 :: replicate 31 0) [zero_key; 1 :: replicate 31 0]) as [[sig rest]|].
  - destruct (Hsome sig rest eq_refl) as [Hc (pre & d & E & Hpre & _)]. exists sig. destruct rest as [|x rest]; [by split|]. exfalso.
    destruct pre as [|y pre]; [|apply (f_equal length) in E; rewrite length_app in E; cbn in E; lia].
    destruct (Hsome sig (x :: rest) eq_refl) as [_ ([|y pre] & d' & E' & _ & Hs)]; [|apply (f_equal length) in E'; rewrite length_app in E'; cbn in E'; lia].
    pose proof (f_equal (hd []) E') as Ed. cbn [hd app] in Ed. rewrite <- Ed in Hs. destruct Hs as ((_ & Ha) & _). exact (Ha eq_refl).
  - exfalso. pose proof (proj1 Hnone eq_refl) as Hf. apply Forall_cons in Hf as [_ Hf]. apply Forall_cons in Hf as [Hf _]. exact (Hf one_suitable).
Defined.

(** C8: What verification accepts.  For a public key that is a point, verification
    always returns, and accepts exactly when both scalars are below the order,
    the challenge is not zero, the commitment [c P + r B] is not the identity and
    the challenge is the hash of the message, the key and the commitment.  Two
    accepted signatures with one commitment and different challenges determine
    the secret key, up to a point of small order.  A key that is no point is
    refused, or fails the assertion of a debug build. *)
Theorem check_signature_correct debug h h' P pub sig sig' :
  is_key (sig_c sig) -> is_key (sig_r sig) -> is_key (sig_c sig') -> is_key (sig_r sig') -> is_key pub ->
  (exists b, check_signature debug h (encode P) sig = Some b /\ (b = true <-> valid_signature h P sig)) /\
  (check_signature debug h (encode P) sig = Some true -> check_signature debug h' (encode P) sig' = Some true ->
   commitment P sig = commitment P sig' -> le_value (sig_c sig) <> le_value (sig_c sig') ->
   exists u, (u * (le_value (sig_c sig) - le_value (sig_c sig'))) mod ell = 1 /\
     smul 8 P = smul (8 * (u * (le_value (sig_r sig') - le_value (sig_r sig)))) B) /\
  ((forall Q, pub <> encode Q) -> check_signature debug h pub sig = if debug then None else Some false).
Proof.
  intros Hc Hr Hc' Hr' Hp. pose proof (check_signature_ok debug h P sig Hc Hr) as H1. split; [exact H1|]. split; [|by apply check_signature_invalid].
  intros E E' Eq Hne. destruct H1 as (b & Eb & Hb). destruct (check_signature_ok debug h' P sig' Hc' Hr') as (b' & Eb' & Hb').
  rewrite Eb in E. injection E as ->. rewrite Eb' in E'. injection E' as ->.
  destruct (proj1 Hb eq_refl) as (Hcr & _). destruct (proj1 Hb' eq_refl) as (Hcr' & _). by apply same_commitment.
Qed.

Lemma check_signature_witness : exists b, check_signature false [1] (encode gzero) (Signature zero_key zero_key) = Some b.
Proof.
  assert (is_key zero_key) as Hz by (split; [done|]; apply Forall_replicate; by vm_compute).
  destruct (proj1 (check_signature_correct false [1] [2] gzero zero_key (Signature zero_key zero_key) (Signature zero_key zero_key) Hz Hz Hz Hz Hz)) as (b & E & _).
  exists b. exact E.
Defined.

(** ** Transaction proofs *)

Section TxProof.
Context (debug : bool) (h : list Z) (PR PA PD : point) (PB : option point).

(** The point [R] is a multiple of. *)
Definition proof_base : point := default B PB.

#[local] Abbreviation R := (encode PR).
#[local] Abbreviation A := (encode PA).
#[local] Abbreviation D := (encode PD).
#[local] Abbreviation Bo := (encode <$> PB).

Definition p3_opt_ok (o : option ge_p3) : Prop := match PB with Some Q => exists p, o = Some p /\ p3_ok p Q | None => o = None end.

Lemma decode_proof_keys_ok : returns (decode_proof_keys R A Bo D) (fun ks => exists r a b d,
  ks = Some (r, a, b, d) /\ p3_ok r PR /\ p3_ok a PA /\ p3_opt_ok b /\ p3_ok d PD).
Proof.
  unfold decode_proof_keys. do 2 crypto_step. eapply (returns_bind _ _ (fun o => exists b, o = Some b /\ p3_opt_ok b)).
  - unfold decode_optional, p3_opt_ok. destruct PB as [Q|]; cbn [fmap option_fmap option_map].
    + crypto_step. apply returns_some. eexists. split; [reflexivity|]. eexists. split; [reflexivity|eassumption].
    + apply returns_some. by eexists.
  - cbn beta. intros ? (b & -> & Hb). crypto_step. apply returns_some. do 4 eexists. split; [reflexivity|]. split_and!; eassumption.
Qed.

Lemma mul_optional_ok k o : reduced k -> p3_opt_ok o -> returns (mul_optional k o) (eq (encode (smul (le_value k) proof_base))).
Proof.
  intros Hk Ho. unfold mul_optional, p3_opt_ok, proof_base in *. destruct PB as [Q|].
  - destruct Ho as (p & -> & Hp). do 2 crypto_step. auto.
  - subst o. do 2 crypto_step. auto.
Qed.

Lemma mul_bytes_ok k p P : reduced k -> p3_ok p P -> returns (mul_bytes k p) (eq (encode (smul (le_value k) P))).
Proof. intros Hk Hp. unfold mul_bytes. do 2 crypto_step. auto. Qed.

Lemma mul_decode_ok k p P : reduced k -> p3_ok p P -> returns (mul_decode k p) (fun o => exists q, o = Some q /\ p3_ok q (smul (le_value k) P)).
Proof.
  intros Hk Hp. unfold mul_decode. eapply returns_bind; [exact (mul_bytes_ok k p P Hk Hp)|]. cbn beta. intros ? <-. apply ge_frombytes_encode.
Qed.

(** What is hashed, by version. *)
Definition proof_hash (version : Z) (X Y : point) : Z :=
  if version =? 1 then Hs (h ++ D ++ encode X ++ encode Y)
  else Hs (proof_buffer h D (encode X) (encode Y) (crypto_cn_fast_hash HASH_KEY_TXPROOF_V2) R A Bo).

Definition valid_proof (sig : signature) (version : Z) : Prop :=
  reduced (sig_c sig) /\ reduced (sig_r sig) /\ (version = 1 \/ version = 2) /\
  le_value (sig_c sig) = proof_hash version (smul (le_value (sig_c sig)) PR + smul (le_value (sig_r sig)) proof_base)%G
                                            (smul (le_value (sig_c sig)) PD + smul (le_value (sig_r sig)) PA)%G.

Lemma length_encode P : length (encode P) = 32%nat.
Proof. apply encode_key. Qed.

(** Version 1 hashes the buffer up to [sep]. *)
Lemma proof_buffer_v1 X Y : let buf := proof_buffer h D (encode X) (encode Y) (crypto_cn_fast_hash HASH_KEY_TXPROOF_V2) R A Bo in
  take (length buf - 4 * 32) buf = h ++ D ++ encode X ++ encode Y.
Proof.
  cbv zeta. unfold proof_buffer. assert (length (default zero_key Bo) = 32%nat) as HB by (destruct PB; [apply length_encode|done]).
  set (tail := crypto_cn_fast_hash HASH_KEY_TXPROOF_V2 ++ R ++ A ++ default zero_key Bo).
  assert (length tail = (4 * 32)%nat) as Ht by (unfold tail; rewrite !length_app, !length_encode, HB, hash32_len; done).
  replace (h ++ D ++ encode X ++ encode Y ++ tail) with ((h ++ D ++ encode X ++ encode Y) ++ tail) by (by rewrite <- !app_assoc).
  apply take_app_length'. rewrite length_app, Ht. lia.
Qed.

Lemma check_tx_proof_ok sig version : is_key (sig_c sig) -> is_key (sig_r sig) ->
  returns (check_tx_proof h R A Bo D sig version) (fun b => b = true <-> valid_proof sig version).
Proof.
  intros Hc Hr. unfold check_tx_proof. eapply returns_bind; [exact decode_proof_keys_ok|]. cbn beta. intros ? (r & a & b & d & -> & HR & HA & HB & HD).
  rewrite !reduced_check by done. unfold valid_proof. set (Q := proof_hash version _ _).
  case_bool_decide as Hcl; cbn [negb orb]; [|apply returns_some; split; [done|]; intros ([_ ?] & _); tauto].
  case_bool_decide as Hrl; cbn [negb]; [|apply returns_some; split; [done|]; intros (_ & [_ ?] & _); tauto].
  assert (reduced (sig_c sig)) as Hcr by (by split). assert (reduced (sig_r sig)) as Hrr by (by split).
  eapply returns_bind; [exact (mul_decode_ok _ _ _ Hcr HR)|]. cbn beta. intros ? (cR & -> & HcR).
  eapply (returns_bind _ _ (fun o => exists q, o = Some q /\ p3_ok q (smul (le_value (sig_r sig)) proof_base))).
  { unfold p3_opt_ok, proof_base in *. destruct PB as [PQ|]; [destruct HB as (p & -> & Hp); exact (mul_decode_ok _ _ _ Hrr Hp)|].
    subst b. crypto_step. apply returns_some. eexists. split; [reflexivity|eassumption]. }
  cbn beta. intros ? (q & -> & Hq). do 3 crypto_step.
  eapply returns_bind; [exact (mul_bytes_ok _ _ _ Hcr HD)|]. cbn beta. intros ? <-.
  eapply returns_bind; [exact (mul_bytes_ok _ _ _ Hrr HA)|]. cbn beta. intros ? <-. do 8 crypto_step. cbv zeta.
  destruct (Z.eqb_spec version 1) as [E1|E1].
  { rewrite proof_buffer_v1. eapply returns_mono; [exact (challenge_compare _ _ Hcr)|]. cbn beta. intros ? <-.
    rewrite bool_decide_eq_true. unfold Q, proof_hash. subst version. cbn [Z.eqb]. tauto. }
  destruct (Z.eqb_spec version 2) as [E2|E2]; [|apply returns_some; split; [done|]; intros (_ & _ & [?|?] & _); tauto].
  eapply returns_mono; [exact (challenge_compare _ _ Hcr)|]. cbn beta. intros ? <-.
  rewrite bool_decide_eq_true. unfold Q, proof_hash. subst version. cbn [Z.eqb]. tauto.
Qed.
End TxProof.

(** The keys of a proof as points. *)
Definition proof_points (R A : list Z) (Bo : option (list Z)) (D : list Z) (PR PA : point) (PB : option point) (PD : point) : Prop :=
  R = encode PR /\ A = encode PA /\ Bo = (encode <$> PB) /\ D = encode PD.

Definition proof_verifies (h R A : list Z) (Bo : option (list Z)) (D : list Z) (sig : signature) (version : Z) : Prop :=
  exists PR PA PB PD, proof_points R A Bo D PR PA PB PD /\ valid_proof h PR PA PD PB sig version.

(** The decodings of arbitrary keys. *)
Lemma decode_proof_keys_cases R A Bo D : is_key R -> is_key A -> is_key D -> (forall k, Bo = Some k -> is_key k) ->
  (exists PR PA PB PD, proof_points R A Bo D PR PA PB PD) \/
  (decode_proof_keys R A Bo D = Some None /\ forall PR PA PB PD, ~ proof_points R A Bo D PR PA PB PD).
Proof.
  intros HR HA HD HB. unfold decode_proof_keys.
  destruct (decode_cases R HR) as [[PR ->]|[E Hn]]; [|right; rewrite E; split; [done|]; intros PR PA PB PD (E' & _); exact (Hn PR E')].
  destruct (ge_frombytes_encode PR) as (? & -> & r & -> & _). rewrite bind_some.
  destruct (decode_cases A HA) as [[PA ->]|[E Hn]]; [|right; rewrite E; split; [done|]; intros PR' PA PB PD (_ & E' & _); exact (Hn PA E')].
  destruct (ge_frombytes_encode PA) as (? & -> & a & -> & _). rewrite bind_some.
  assert ((exists PB b, Bo = (encode <$> PB) /\ decode_optional Bo = Some (Some b)) \/ (decode_optional Bo = Some None /\ forall PB, Bo <> (encode <$> PB))) as Hopt.
  { destruct Bo as [k|]; [|left; by exists None, None]. unfold decode_optional. destruct (decode_cases k (HB k eq_refl)) as [[Q ->]|[E Hn]].
    - left. exists (Some Q). destruct (ge_frombytes_encode Q) as (? & -> & q & -> & _). by exists (Some q).
    - right. rewrite E. split; [done|]. intros [Q|] EQ; [|done]. apply (Some_inj k (encode Q)) in EQ. exact (Hn Q EQ). }
  destruct Hopt as [(PB & b & -> & ->)|[E Hn]]; [|right; rewrite E; split; [done|]; intros PR' PA' PB PD (_ & _ & E' & _); exact (Hn PB E')].
  rewrite bind_some. destruct (decode_cases D HD) as [[PD ->]|[E Hn]]; [left; by exists PR, PA, PB, PD|].
  right. rewrite E. split; [done|]. intros PR' PA' PB' PD (_ & _ & _ & E'). exact (Hn PD E').
Qed.

Lemma check_tx_proof_bytes h R A Bo D sig version : is_key R -> is_key A -> is_key D -> (forall k, Bo = Some k -> is_key k) -> is_key (sig_c sig) -> is_key (sig_r sig) ->
  exists b, check_tx_proof h R A Bo D sig version = Some b /\ (b = true <-> proof_verifies h R A Bo D sig version).
Proof.
  intros HR HA HD HB Hc Hr. destruct (decode_proof_keys_cases R A Bo D HR HA HD HB) as [(PR & PA & PB & PD & -> & -> & -> & ->)|[E Hn]].
  - destruct (check_tx_proof_ok h PR PA PD PB sig version Hc Hr) as (b & E & Hb). exists b. split; [exact E|]. rewrite Hb. split.
    + intros Hv. exists PR, PA, PB, PD. split; [by split_and!|exact Hv].
    + intros (PR' & PA' & PB' & PD' & (E1 & E2 & E3 & E4) & Hv). apply encode_inj in E1, E2, E4. subst PR' PA' PD'.
      assert (PB = PB') as ->; [|exact Hv]. destruct PB as [Q|], PB' as [Q'|]; try done. apply (Some_inj (encode Q) (encode Q')) in E3. apply encode_inj in E3. by subst.
  - exists false. unfold check_tx_proof. rewrite E, bind_some. split; [reflexivity|]. split; [done|]. intros (PR & PA & PB & PD & Hp & _). by destruct (Hn PR PA PB PD).
Qed.

(** The response cancels the challenge. *)
Lemma response_cancels c x k P : in_subgroup P -> (smul c (smul x P) + smul ((k - c * x) mod ell) P = smul k P)%G.
Proof. intros HP. rewrite (smul_reduce _ P HP). group_ring. Qed.

Section TxProofGeneration.
Context (debug : bool) (h x : list Z) (PA : point) (PB : option point) (draws : list (list Z)).
Context (Hx : reduced x) (HA : in_subgroup PA) (HB : in_subgroup (proof_base PB)) (Hd : Forall is_key draws).

#[local] Abbreviation PR := (smul (le_value x) (proof_base PB)).
#[local] Abbreviation PD := (smul (le_value x) PA).

Lemma proof_sane_ok a b : p3_ok a PA -> p3_opt_ok PB b -> proof_sane x (encode PR) (encode PD) a b = Some true.
Proof.
  intros Ha Hb. apply returns_eq. unfold proof_sane. eapply returns_bind; [exact (mul_optional_ok PB x b Hx Hb)|]. cbn beta. intros ? <-.
  eapply returns_bind; [exact (mul_bytes_ok x a PA Hx Ha)|]. cbn beta. intros ? <-. apply returns_some.
  by rewrite reduced_checked, !bool_decide_true.
Qed.

(** What both generators compute from [k]. *)
Definition proof_of (version : Z) (k : list Z) : signature :=
  let c := proof_hash h PR PA PD PB version (smul (le_value k) (proof_base PB)) (smul (le_value k) PA) in
  Signature (le_bytes 32 c) (le_bytes 32 ((le_value k - c * le_value x) mod ell)).

Lemma proof_hash_ok version X Y : let c := proof_hash h PR PA PD PB version X Y in reduced (le_bytes 32 c) /\ le_value (le_bytes 32 c) = c.
Proof. cbv zeta. unfold proof_hash. destruct (version =? 1); apply Hs_key. Qed.

Lemma proof_of_valid version k : version = 1 \/ version = 2 -> valid_proof h PR PA PD PB (proof_of version k) version.
Proof.
  intros Hv. unfold valid_proof, proof_of. cbn [sig_c sig_r].
  destruct (proof_hash_ok version (smul (le_value k) (proof_base PB)) (smul (le_value k) PA)) as [Hc Ec]. cbv zeta in *.
  set (c := proof_hash h PR PA PD PB version _ _) in *. rewrite Ec, mod_value, (response_cancels c _ _ _ HB), (response_cancels c _ _ _ HA).
  split; [exact Hc|]. split; [apply mod_reduced|]. split; [exact Hv|reflexivity].
Qed.

Lemma mulsub_proof version k : reduced k ->
  let c := proof_hash h PR PA PD PB version (smul (le_value k) (proof_base PB)) (smul (le_value k) PA) in
  sc_mulsub (le_bytes 32 c) x k = Some (le_bytes 32 ((le_value k - c * le_value x) mod ell)).
Proof.
  intros Hk. cbv zeta. destruct (proof_hash_ok version (smul (le_value k) (proof_base PB)) (smul (le_value k) PA)) as [Hc Ec]. cbv zeta in *.
  rewrite sc_mulsub_eq by (apply Hc || apply Hx || apply Hk). by rewrite Ec.
Qed.

Lemma generate_tx_proof_ok k rest : random_scalar draws = Some (k, rest) ->
  generate_tx_proof debug h (encode PR) (encode PA) (encode <$> PB) (encode PD) x draws = Some (Some (proof_of 2 k), rest).
Proof.
  intros Ek. destruct (random_scalar_some _ _ _ Hd Ek) as (Hk & _). apply returns_eq. unfold generate_tx_proof.
  eapply returns_bind; [exact (decode_proof_keys_ok PR PA PD PB)|]. cbn beta. intros ? (r & a & b & d & -> & HRr & HAa & HBb & HDd).
  eapply returns_bind_eq; [exact (debug_true debug _ (proof_sane_ok a b HAa HBb))|]. cbn beta.
  eapply returns_bind_eq; [exact Ek|]. cbn beta iota. crypto_step.
  eapply returns_bind; [exact (mul_optional_ok PB k b Hk HBb)|]. cbn beta. intros ? <-.
  eapply returns_bind; [exact (mul_bytes_ok k a PA Hk HAa)|]. cbn beta. intros ? <-. crypto_step.
  eapply returns_bind_eq; [exact (mulsub_proof 2 k Hk)|]. cbn beta. apply returns_some. reflexivity.
Qed.

Lemma generate_tx_proof_v1_ok k rest : random_scalar draws = Some (k, rest) ->
  generate_tx_proof_v1 debug h (encode PR) (encode PA) (encode <$> PB) (encode PD) x draws = Some (Some (proof_of 1 k), rest).
Proof.
  intros Ek. destruct (random_scalar_some _ _ _ Hd Ek) as (Hk & _). apply returns_eq. unfold generate_tx_proof_v1.
  eapply returns_bind; [exact (decode_proof_keys_ok PR PA PD PB)|]. cbn beta. intros ? (r & a & b & d & -> & HRr & HAa & HBb & HDd).
  eapply returns_bind_eq; [exact (debug_true debug _ (proof_sane_ok a b HAa HBb))|]. cbn beta.
  eapply returns_bind_eq; [exact Ek|]. cbn beta iota.
  eapply returns_bind; [exact (mul_optional_ok PB k b Hk HBb)|]. cbn beta. intros ? <-.
  eapply returns_bind; [exact (mul_bytes_ok k a PA Hk HAa)|]. cbn beta. intros ? <-. crypto_step.
  eapply returns_bind_eq; [exact (mulsub_proof 1 k Hk)|]. cbn beta. apply returns_some. reflexivity.
Qed.
End TxProofGeneration.

(** C21: Transaction proofs.  For a transaction key [x], a view key [A] and, for a
    subaddress, a spend key [B], all of the prime order, the proof that [R] and [D] are
    the same multiple of [B] (or of the base point) and of [A] is accepted by the
    verifier of its version, for both versions.  On arbitrary bytes, whether the
    statement is true or not, the verifier returns, and accepts exactly when the keys
    are encodings of points, the scalars are below the order, the version is 1 or 2
    and the challenge is the hash of the two commitments with the data of that
    version. *)
Theorem tx_proof_correct debug h x PA PB draws k rest R' A' Bo' D' sig' version :
  reduced x -> in_subgroup PA -> in_subgroup (proof_base PB) -> Forall is_key draws -> random_scalar draws = Some (k, rest) ->
  is_key R' -> is_key A' -> is_key D' -> (forall k, Bo' = Some k -> is_key k) -> is_key (sig_c sig') -> is_key (sig_r sig') ->
  let R := encode (smul (le_value x) (proof_base PB)) in let A := encode PA in let Bo := encode <$> PB in let D := encode (smul (le_value x) PA) in
  (exists sig, generate_tx_proof debug h R A Bo D x draws = Some (Some sig, rest) /\ check_tx_proof h R A Bo D sig 2 = Some true) /\
  (exists sig, generate_tx_proof_v1 debug h R A Bo D x draws = Some (Some sig, rest) /\ check_tx_proof h R A Bo D sig 1 = Some true) /\
  (exists b, check_tx_proof h R' A' Bo' D' sig' version = Some b /\ (b = true <-> proof_verifies h R' A' Bo' D' sig' version)).
Proof.
  intros Hx HA HB Hd Ek HR' HA' HD' HB' Hc' Hr'. cbv zeta.
  assert (forall version, version = 1 \/ version = 2 -> check_tx_proof h (encode (smul (le_value x) (proof_base PB))) (encode PA) (encode <$> PB)
    (encode (smul (le_value x) PA)) (proof_of h x PA PB version k) version = Some true) as Hok.
  { intros v Hv. pose proof (proof_of_valid h x PA PB HA HB v k Hv) as H. pose proof H as ([Hc _] & [Hr _] & _).
    destruct (check_tx_proof_ok h (smul (le_value x) (proof_base PB)) PA (smul (le_value x) PA) PB (proof_of h x PA PB v k) v Hc Hr) as (b & -> & Hb).
    f_equal. exact (proj2 Hb H). }
  split; [|split; [|by apply check_tx_proof_bytes]].
  - eexists. split; [exact (generate_tx_proof_ok debug h x PA PB draws Hx Hd k rest Ek)|]. apply Hok. by right.
  - eexists. split; [exact (generate_tx_proof_v1_ok debug h x PA PB draws Hx Hd k rest Ek)|]. apply Hok. by left.
Qed.

Lemma sample_draw : random_scalar [7 :: replicate 31 0] = Some (le_bytes 32 (7 mod ell), []).
Proof. by vm_compute. Qed.

Lemma sample_draw_key : Forall is_key [7 :: replicate 31 0].
Proof. apply Forall_singleton. exact (proj1 (small_reduced 7 ltac:(lia))). Qed.

Lemma tx_proof_witness : (exists sig, generate_tx_proof true [1] (encode (smul (le_value (3 :: replicate 31 0)) (proof_base None))) (encode B)
    (encode <$> None) (encode (smul (le_value (3 :: replicate 31 0)) B)) (3 :: replicate 31 0) [7 :: replicate 31 0] = Some (Some sig, [])) /\
  exists b, check_tx_proof [1] zero_key zero_key (Some zero_key) zero_key (Signature zero_key zero_key) 1 = Some b.
Proof.
  pose proof (proj1 (small_reduced 0 ltac:(lia)) : is_key zero_key) as Hz.
  assert (forall k, Some zero_key = Some k -> is_key k) as Hb by (intros k Ek; injection Ek as <-; exact Hz).
  destruct (tx_proof_correct true [1] (3 :: replicate 31 0) B None [7 :: replicate 31 0] (le_bytes 32 (7 mod ell)) []
    zero_key zero_key (Some zero_key) zero_key (Signature zero_key zero_key) 1
    (small_reduced 3 ltac:(lia)) base_subgroup base_subgroup sample_draw_key sample_draw Hz Hz Hz Hb Hz Hz) as ((sig & E & _) & _ & b & Eb & _).
  split; [exists sig; exact E|exists b; exact Eb].
Defined.

(** ** Ring signatures *)

(** The scalars of successive draws. *)
Inductive draws_to : list (list Z) -> list (list Z) -> list (list Z) -> Prop :=
| draws_nil d : draws_to [] d d
| draws_cons k ks d d' rest : random_scalar d = Some (k, d') -> draws_to ks d' rest -> draws_to (k :: ks) d rest.

Definition reduced_sig (s : signature) : Prop := reduced (sig_c s) /\ reduced (sig_r s).

Definition ring_sum (sigs : list signature) : Z := foldr Z.add 0 (map (fun s => le_value (sig_c s)) sigs).

Section Ring.
Context (I : point) (image_pre : list ge_cached) (HI : odd_multiples cached_ok image_pre I).

(** A member: its key and the point the key hashes to. *)
Definition member_ok (m : point * point) : Prop := hashes_to (encode m.1) m.2.

Definition member_key (m : point * point) : list Z := encode m.1.

Definition ring_term (m : point * point) (s : signature) : list Z :=
  encode (commitment m.1 s) ++ encode (smul (le_value (sig_r s)) m.2 + smul (le_value (sig_c s)) I)%G.

Definition ring_terms (l : list (point * point)) (sigs : list signature) : list Z := concat (zip_with ring_term l sigs).

Lemma ring_member_ok m s p : member_ok m -> reduced_sig s -> p3_ok p m.1 -> returns (ring_member (member_key m) p s image_pre) (eq (ring_term m s)).
Proof.
  intros (q & E & Hq & _) [Hc Hr] Hp. unfold ring_member. do 2 crypto_step. eapply returns_bind_eq; [exact E|]. cbn beta. do 3 crypto_step. reflexivity.
Qed.

Lemma sum_step sum c : reduced sum -> reduced c -> exists sum', sc_add sum c = Some sum' /\ reduced sum' /\ le_value sum' = (le_value sum + le_value c) mod ell.
Proof.
  intros Hs Hc. eexists. split; [apply sc_add_eq; [apply Hs|apply Hc]|]. split; [apply mod_reduced|apply mod_value].
Qed.

Lemma sum_assoc a b c d : d = (a + b) mod ell -> (d + c) mod ell = (a + (b + c)) mod ell.
Proof. intros ->. rewrite Zplus_mod_idemp_l. f_equal. lia. Qed.

(** *** Verification *)

(** A ring of bytes and its members. *)
Definition is_ring (pubs : list (list Z)) (l : list (point * point)) : Prop := Forall member_ok l /\ pubs = map member_key l.

Lemma check_ring_loop_ok pubs sigs sum ab : Forall is_key pubs -> length sigs = length pubs -> Forall (fun s => is_key (sig_c s) /\ is_key (sig_r s)) sigs -> reduced sum ->
  returns (check_ring_loop image_pre pubs sigs sum ab) (fun res => match res with
    | Some (sum', ab') => Forall reduced_sig sigs /\ reduced sum' /\ le_value sum' = (le_value sum + ring_sum sigs) mod ell /\
        exists l, is_ring pubs l /\ ab' = ab ++ ring_terms l sigs
    | None => ~ (Forall reduced_sig sigs /\ exists l, is_ring pubs l)
    end).
Proof.
  intros Hp. revert sigs sum ab. induction Hp as [|pub pubs Hpub Hp IH]; intros sigs sum ab Hlen Hk Hs; destruct sigs as [|s sigs]; try done; cbn [check_ring_loop].
  { apply returns_some. split; [by constructor|]. split; [exact Hs|]. split; [|exists []; split; [by split|by rewrite app_nil_r]].
    cbn. rewrite Z.add_0_r. symmetry. apply Z.mod_small. by apply reduced_range. }
  apply Forall_cons in Hk as [[Hc Hr] Hk]. rewrite !reduced_check by done.
  case_bool_decide as Hcl; cbn [negb orb]; [|apply returns_some; intros [[[[_ ?] _] _]%Forall_cons _]; tauto].
  case_bool_decide as Hrl; cbn [negb]; [|apply returns_some; intros [[[_ [_ ?]] _]%Forall_cons _]; tauto].
  assert (reduced_sig s) as Hsr by (by split). destruct (decode_cases pub Hpub) as [[P ->]|[E Hn]].
  2:{ rewrite E, bind_some. apply returns_some. intros (_ & [|m l] & _ & Er); [done|]. cbn [map] in Er. injection Er as Er _. exact (Hn _ Er). }
  destruct (biased_hash_to_ec_ok (encode P)) as [HP HH]. pose proof (HH : member_ok (P, HP)) as Hm.
  eapply returns_bind; [exact (ge_frombytes_encode P)|]. cbn beta. intros ? (p & -> & Hp3).
  eapply returns_bind; [exact (ring_member_ok (P, HP) s p Hm Hsr Hp3)|]. cbn beta. intros ? <-.
  destruct (sum_step sum (sig_c s) Hs (proj1 Hsr)) as (sum' & E & Hs' & Ev). eapply returns_bind_eq; [exact E|]. cbn beta.
  eapply returns_mono; [apply (IH sigs sum' (ab ++ ring_term (P, HP) s)); [by injection Hlen|exact Hk|exact Hs']|]. cbn beta.
  intros [[sum2 ab2]|].
  - intros (H1 & H2 & H3 & l & [Hl El] & H4). split; [by constructor|]. split; [exact H2|]. split; [rewrite H3; exact (sum_assoc _ _ _ _ Ev)|].
    exists ((P, HP) :: l). split; [split; [by constructor|cbn [map]; by rewrite El]|]. rewrite H4, <- app_assoc. reflexivity.
  - intros H ([_ Hr']%Forall_cons & [|m l] & Hl & El); [done|]. apply H. split; [exact Hr'|]. exists l. apply Forall_cons in Hl as [_ Hl].
    split; [exact Hl|]. exact (f_equal (@tail _) El).
Qed.
End Ring.

Lemma all_keys_ok l : all_keys (map member_key l) = Some true.
Proof. induction l as [|m l IH]; [done|]. unfold all_keys in *. cbn [map foldr]. rewrite (check_key_encode m.1 : check_key (member_key m) = Some true), bind_some, IH. reflexivity. Qed.

Lemma p3_ok_unique p P Q : p3_ok p P -> p3_ok p Q -> P = Q.
Proof.
  intros HP HQ. apply encode_inj. destruct (ge_p3_tobytes_ok p P HP) as (s & E & ->), (ge_p3_tobytes_ok p Q HQ) as (s' & E' & ->). congruence.
Qed.

Lemma hashes_to_unique k P Q : hashes_to k P -> hashes_to k Q -> P = Q.
Proof. intros (p & E & HP & _) (q & E' & HQ & _). rewrite E in E'. injection E' as <-. exact (p3_ok_unique p P Q HP HQ). Qed.

Lemma ring_unique_members pubs l l' : is_ring pubs l -> is_ring pubs l' -> l = l'.
Proof.
  intros [Hl ->] [Hl' E]. revert l' Hl' E. induction Hl as [|[P Q] l Hm _ IH]; intros [|[P' Q'] l'] Hl' E; try done. apply Forall_cons in Hl' as [Hm' Hl'].
  pose proof (f_equal (hd []) E) as E1. pose proof (f_equal (@tail _) E) as E2. cbn [hd tail map] in E1, E2. unfold member_key in E1. cbn [fst] in E1.
  apply encode_inj in E1. subst P'. assert (Q = Q') as -> by exact (hashes_to_unique _ _ _ Hm Hm'). f_equal. exact (IH l' Hl' E2).
Qed.

Lemma ring_of_points pubs : Forall (fun k => exists P, k = encode P) pubs -> exists l, is_ring pubs l.
Proof.
  induction 1 as [|k pubs [P ->] _ (l & Hl & ->)]; [exists []; by split|]. destruct (biased_hash_to_ec_ok (encode P)) as [HP HH].
  exists ((P, HP) :: l). split; [by constructor|reflexivity].
Qed.

Lemma check_key_bad k : ge_frombytes_vartime k = Some None -> check_key k = Some false.
Proof. intros E. unfold check_key. rewrite E. reflexivity. Qed.

(** In a debug build a key that is no point fails an assertion. *)
Lemma all_keys_bad pubs : Forall is_key pubs -> ~ Forall (fun k => exists P, k = encode P) pubs -> all_keys pubs = Some false.
Proof.
  induction 1 as [|k pubs Hk Hp IH]; intros Hn; [by destruct Hn|]. unfold all_keys in *. cbn [foldr]. destruct (decode_cases k Hk) as [[P ->]|[E _]].
  - rewrite check_key_encode, bind_some, IH; [reflexivity|]. intros H. apply Hn. constructor; [by exists P|exact H].
  - rewrite (check_key_bad k E), bind_some.
    assert (exists b, foldr (fun pub acc => b ← check_key pub; acc ← acc; Some (b && acc)) (Some true) pubs = Some b) as [b Eb].
    { clear -Hp. induction Hp as [|k pubs Hk _ [b IH]]; [by exists true|]. cbn [foldr]. rewrite IH. destruct (decode_cases k Hk) as [[P ->]|[E _]].
      - rewrite check_key_encode, bind_some. by eexists.
      - rewrite (check_key_bad k E), bind_some. by eexists. }
    rewrite Eb. reflexivity.
Qed.

(** What verification accepts. *)
Definition valid_ring (h : list Z) (I : point) (l : list (point * point)) (sigs : list signature) : Prop :=
  Forall reduced_sig sigs /\ ring_sum sigs mod ell = Hs (h ++ ring_terms I l sigs).

Definition ring_verifies (h image : list Z) (pubs : list (list Z)) (sigs : list signature) : Prop :=
  exists I l, image = encode I /\ is_ring pubs l /\ valid_ring h I l sigs.

Lemma check_ring_signature_bytes debug h image pubs sigs : is_key image -> Forall is_key pubs -> length sigs = length pubs ->
  Forall (fun s => is_key (sig_c s) /\ is_key (sig_r s)) sigs -> debug = false \/ Forall (fun k => exists P, k = encode P) pubs ->
  returns (check_ring_signature debug h image pubs sigs) (fun b => b = true <-> ring_verifies h image pubs sigs).
Proof.
  intros Hi Hp Hlen Hk Hdebug. unfold check_ring_signature. eapply returns_bind_eq.
  { destruct Hdebug as [-> | Hpt]; [reflexivity|]. destruct (ring_of_points pubs Hpt) as (l & _ & ->). apply debug_true, all_keys_ok. }
  cbn beta. destruct (decode_cases image Hi) as [[I ->]|[E Hn]].
  2:{ rewrite E, bind_some. apply returns_some. split; [done|]. intros (I & l & EI & _). by destruct (Hn I). }
  do 2 crypto_step.
  eapply returns_bind; [eapply (check_ring_loop_ok I); [eassumption|exact Hp|exact Hlen|exact Hk|exact (small_reduced 0 ltac:(lia))]|]. cbn beta.
  intros [[sum ab]|].
  2:{ intros Hnot. apply returns_some. split; [done|]. intros (I' & l & _ & Hl & Hr & _). destruct Hnot. split; [exact Hr|by exists l]. }
  intros (H1 & H2 & H3 & l & Hl & ->). eapply returns_mono; [exact (challenge_compare _ _ H2)|]. cbn beta. intros ? <-.
  rewrite bool_decide_eq_true, H3. change (le_value sc_0) with 0. cbn [app]. rewrite Z.add_0_l. split.
  - intros E. exists I, l. split; [reflexivity|]. split; [exact Hl|]. by split.
  - intros (I' & l' & EI & Hl' & _ & E). apply encode_inj in EI. subst I'. by rewrite (ring_unique_members _ _ _ Hl Hl').
Qed.

Lemma check_ring_signature_ok debug h I l sigs : Forall member_ok l -> length sigs = length l -> Forall reduced_sig sigs -> valid_ring h I l sigs ->
  check_ring_signature debug h (encode I) (map member_key l) sigs = Some true.
Proof.
  intros Hl Hlen Hr Hv. destruct (check_ring_signature_bytes debug h (encode I) (map member_key l) sigs) as (b & -> & Hb).
  - apply encode_key.
  - apply Forall_map, Forall_true. intros m. apply encode_key.
  - by rewrite length_map.
  - eapply Forall_impl; [exact Hr|]. cbn beta. intros s [[? _] [? _]]. by split.
  - right. apply Forall_map, Forall_true. intros m. by exists m.1.
  - f_equal. apply Hb. exists I, l. split; [reflexivity|]. split; [by split|exact Hv].
Qed.

(** *** Generation *)

Section RingGeneration.
Context (I : point) (image_pre : list ge_cached) (HI : odd_multiples cached_ok image_pre I) (sec_index : nat).

Lemma ring_loop_app i l1 l2 st (P Q : ring_state -> Prop) :
  returns (ring_loop sec_index image_pre i l1 st) P ->
  (forall st', P st' -> returns (ring_loop sec_index image_pre (i + length l1) l2 st') Q) ->
  returns (ring_loop sec_index image_pre i (l1 ++ l2) st) Q.
Proof.
  revert i st. induction l1 as [|pub l1 IH]; intros i st; cbn [ring_loop app length].
  - intros (st' & E & HP) HQ. injection E as <-. rewrite Nat.add_0_r in HQ. by apply HQ.
  - intros (st' & E & HP) HQ. apply bind_Some in E as (st1 & E1 & E2). eapply returns_bind_eq; [exact E1|]. cbn beta.
    apply (IH (S i)); [by exists st'|]. intros st2 H2. replace (S i + length l1)%nat with (i + S (length l1))%nat by lia. by apply HQ.
Qed.

(** The other members: two scalars each. *)
Lemma ring_step_other i m st c r d d' : i <> sec_index -> member_ok m -> random_scalar (rs_draws st) = Some (c, d) -> random_scalar d = Some (r, d') ->
  reduced c -> reduced r -> reduced (rs_sum st) ->
  returns (ring_step sec_index image_pre i (member_key m) st) (fun st' =>
    rs_sig st' = <[i := Signature c r]> (rs_sig st) /\ reduced (rs_sum st') /\ le_value (rs_sum st') = (le_value (rs_sum st) + le_value c) mod ell /\
    rs_k st' = rs_k st /\ rs_ab st' = rs_ab st ++ ring_term I m (Signature c r) /\ rs_draws st' = d').
Proof.
  intros Hi Hm Ec Er Hc Hr Hs. unfold ring_step. rewrite (proj2 (Nat.eqb_neq _ _) Hi).
  eapply returns_bind_eq; [exact Ec|]. cbn beta iota. eapply returns_bind_eq; [exact Er|]. cbn beta iota.
  eapply returns_bind; [exact (ge_frombytes_encode m.1)|]. cbn beta. intros ? (p & -> & Hp).
  eapply returns_bind; [exact (ring_member_ok I image_pre HI m (Signature c r) p Hm (conj Hc Hr) Hp)|]. cbn beta. intros ? <-.
  destruct (sum_step (rs_sum st) c Hs Hc) as (sum' & E & Hs' & Ev). eapply returns_bind_eq; [exact E|]. cbn beta. apply returns_some.
  cbn [rs_sig rs_sum rs_k rs_ab rs_draws]. by split_and!.
Qed.

Lemma draws_to_keys ks d rest : draws_to ks d rest -> Forall is_key d -> Forall (fun k => reduced k /\ le_value k <> 0) ks /\ Forall is_key rest.
Proof.
  induction 1 as [|k ks d d' rest E _ IH]; intros Hd; [by split|]. destruct (random_scalar_some _ _ _ Hd E) as (Hk & Hnz & Hd' & _).
  destruct (IH Hd') as [IH1 IH2]. split; [by constructor|done].
Qed.

Lemma ring_loop_others l i st ks rest : Forall member_ok l -> (forall j, (i <= j < i + length l)%nat -> j <> sec_index) -> length ks = (2 * length l)%nat ->
  draws_to ks (rs_draws st) rest -> Forall is_key (rs_draws st) -> reduced (rs_sum st) ->
  returns (ring_loop sec_index image_pre i (map member_key l) st) (fun st' => exists sigs, length sigs = length l /\ Forall reduced_sig sigs /\
    rs_sig st' = list_inserts i sigs (rs_sig st) /\ reduced (rs_sum st') /\ le_value (rs_sum st') = (le_value (rs_sum st) + ring_sum sigs) mod ell /\
    rs_k st' = rs_k st /\ rs_ab st' = rs_ab st ++ ring_terms I l sigs /\ rs_draws st' = rest).
Proof.
  intros Hl. revert i st ks. induction Hl as [|m l Hm Hl IH]; intros i st ks Hi Hks Hd Hk Hs; cbn [map ring_loop].
  { destruct ks; [|done]. inversion Hd; subst. apply returns_some. exists []. split_and!; try done.
    - change (ring_sum []) with 0. rewrite Z.add_0_r. symmetry. apply Z.mod_small. by apply reduced_range.
    - by rewrite app_nil_r. }
  destruct ks as [|c [|r ks]]; cbn [length] in Hks; try lia. pose proof (draws_to_keys _ _ _ Hd Hk) as [Hck _].
  apply Forall_cons in Hck as [[Hc _] Hck]. apply Forall_cons in Hck as [[Hr _] _].
  inversion Hd as [|? ? ? d1 ? Ec Hd1]; subst. inversion Hd1 as [|? ? ? d2 ? Er Hd2]; subst.
  assert (Forall is_key d2) as Hd2k.
  { destruct (random_scalar_some _ _ _ Hk Ec) as (_ & _ & Hk1 & _). by destruct (random_scalar_some _ _ _ Hk1 Er) as (_ & _ & Hk2 & _). }
  eapply returns_bind; [apply (ring_step_other i m st c r d1 d2); [apply Hi; cbn; lia|assumption..]|]. cbn beta.
  intros st1 (E1 & Hs1 & Ev1 & Ek1 & Eab1 & Ed1).
  eapply returns_mono; [apply (IH (S i) st1 ks); [intros j Hj; apply Hi; cbn; lia|lia|by rewrite Ed1|by rewrite Ed1|done]|].
  cbn beta. intros st2 (sigs & L & Hr2 & E2 & Hs2 & Ev2 & Ek2 & Eab2 & Ed2). exists (Signature c r :: sigs). split_and!.
  - cbn. by rewrite L.
  - constructor; [by split|done].
  - rewrite E2, E1. cbn [list_inserts]. symmetry. apply list_insert_inserts_lt. lia.
  - done.
  - rewrite Ev2. exact (sum_assoc _ _ _ _ Ev1).
  - congruence.
  - rewrite Eab2, Eab1, <- app_assoc. reflexivity.
  - done.
Qed.

(** The signer. *)
Lemma ring_step_signer m st k d : member_ok m -> random_scalar (rs_draws st) = Some (k, d) -> reduced k ->
  returns (ring_step sec_index image_pre sec_index (member_key m) st) (eq (RingState (rs_sig st) (rs_sum st) (Some k)
    (rs_ab st ++ encode (smul (le_value k) B) ++ encode (smul (le_value k) m.2)) d)).
Proof.
  intros (q & E & Hq & _) Ek Hk. unfold ring_step. rewrite Nat.eqb_refl. eapply returns_bind_eq; [exact Ek|]. cbn beta iota. do 2 crypto_step.
  eapply returns_bind_eq; [exact E|]. cbn beta. do 2 crypto_step. apply returns_some. reflexivity.
Qed.
End RingGeneration.

Lemma draws_to_app a b d rest : draws_to (a ++ b) d rest -> exists d', draws_to a d d' /\ draws_to b d' rest.
Proof.
  revert d. induction a as [|k a IH]; intros d H; [exists d; split; [constructor|done]|]. inversion H as [|? ? ? d1 ? E Hd]; subst.
  destruct (IH d1 Hd) as (d' & H1 & H2). exists d'. split; [by econstructor|done].
Qed.

Lemma ring_terms_app I l1 l2 s1 s2 : length l1 = length s1 -> ring_terms I (l1 ++ l2) (s1 ++ s2) = ring_terms I l1 s1 ++ ring_terms I l2 s2.
Proof. intros E. unfold ring_terms. rewrite zip_with_app by done. apply concat_app. Qed.

Lemma ring_sum_app s1 s2 : ring_sum (s1 ++ s2) = ring_sum s1 + ring_sum s2.
Proof. unfold ring_sum. induction s1 as [|s s1 IH]; [done|]. cbn [app map foldr]. rewrite IH. lia. Qed.

(** The array after the loop and the last store. *)
Lemma ring_array (sig s1 s2 : list signature) s : length sig = (length s1 + S (length s2))%nat ->
  <[length s1 := s]> (list_inserts (S (length s1)) s2 (list_inserts 0 s1 sig)) = s1 ++ s :: s2.
Proof.
  intros L. destruct (lookup_lt_is_Some_2 sig (length s1)) as [x Hx]; [lia|]. rewrite <- (take_drop_middle sig _ x Hx) at 1.
  rewrite list_inserts_0_r by (rewrite length_take; lia). replace (S (length s1)) with (length s1 + 1)%nat by lia. rewrite list_inserts_app_r.
  rewrite list_inserts_cons. rewrite <- (app_nil_r (drop _ sig)). rewrite list_inserts_0_r by (rewrite length_drop; lia).
  rewrite app_nil_r. rewrite <- (Nat.add_0_r (length s1)) at 1. by rewrite insert_app_r.
Qed.

(** The whole loop. *)
Lemma ring_loop_ok I image_pre l1 m l2 sig draws ks rest : odd_multiples cached_ok image_pre I -> Forall member_ok (l1 ++ m :: l2) -> Forall is_key draws ->
  draws_to ks draws rest -> length ks = (2 * (length l1 + length l2) + 1)%nat ->
  returns (ring_loop (length l1) image_pre 0 (map member_key (l1 ++ m :: l2)) (RingState sig sc_0 None [] draws)) (fun st => exists s1 s2 k,
    length s1 = length l1 /\ length s2 = length l2 /\ Forall reduced_sig s1 /\ Forall reduced_sig s2 /\ reduced k /\
    rs_k st = Some k /\ rs_sig st = list_inserts (S (length l1)) s2 (list_inserts 0 s1 sig) /\
    reduced (rs_sum st) /\ le_value (rs_sum st) = (ring_sum s1 + ring_sum s2) mod ell /\
    rs_ab st = ring_terms I l1 s1 ++ (encode (smul (le_value k) B) ++ encode (smul (le_value k) m.2)) ++ ring_terms I l2 s2 /\ rs_draws st = rest).
Proof.
  intros HI Hl Hd Hdraw Hks. apply Forall_app in Hl as [Hl1 Hl]. apply Forall_cons in Hl as [Hm Hl2].
  rewrite <- (take_drop (2 * length l1) ks) in Hdraw. apply draws_to_app in Hdraw as (d1 & Hd1 & Hdraw).
  pose proof (draws_to_keys _ _ _ Hd1 Hd) as [_ Hk1]. destruct (drop (2 * length l1) ks) as [|k ks2] eqn:Ek.
  { apply (f_equal length) in Ek. rewrite length_drop in Ek. cbn in Ek. lia. }
  assert (length ks2 = (2 * length l2)%nat) as Lk2 by (apply (f_equal length) in Ek; rewrite length_drop in Ek; cbn in Ek; lia).
  inversion Hdraw as [|? ? ? d2 ? Er Hd2]; subst. destruct (random_scalar_some _ _ _ Hk1 Er) as (Hk & _ & Hk2 & _).
  rewrite map_app. eapply ring_loop_app.
  { apply (ring_loop_others I image_pre HI (length l1) l1 0 _ (take (2 * length l1) ks) d1); [exact Hl1|lia|rewrite length_take; lia|exact Hd1|exact Hd|].
    exact (small_reduced 0 ltac:(lia)). }
  cbn beta. intros st1 (s1 & L1 & Hr1 & E1 & Hs1 & Ev1 & Ek1 & Eab1 & Ed1). cbn [rs_sig rs_sum rs_k rs_ab] in *.
  rewrite length_map, Nat.add_0_l. cbn [map ring_loop].
  eapply returns_bind; [apply (ring_step_signer image_pre (length l1) m st1 k d2 Hm); [by rewrite Ed1|exact Hk]|]. cbn beta. intros ? <-.
  eapply returns_mono.
  { apply (ring_loop_others I image_pre HI (length l1) l2 (S (length l1)) _ ks2 rest); cbn [rs_draws rs_sum]; [exact Hl2|lia|exact Lk2|exact Hd2|exact Hk2|exact Hs1]. }
  cbn beta. intros st2 (s2 & L2 & Hr2 & E2 & Hs2 & Ev2 & Ek2 & Eab2 & Ed2). cbn [rs_sig rs_sum rs_k rs_ab] in *.
  exists s1, s2, k. split_and!; try assumption.
  - rewrite E2. by rewrite E1.
  - rewrite Ev2. change (le_value sc_0) with 0 in Ev1. exact (sum_assoc 0 _ _ _ Ev1).
  - rewrite Eab2, Eab1. by rewrite <- !app_assoc.
Qed.

(** The signer's term closes the ring. *)
Lemma signer_term x HP k c : in_subgroup HP -> reduced (le_bytes 32 c) -> le_value (le_bytes 32 c) = c ->
  ring_term (smul x HP) (smul x B, HP) (Signature (le_bytes 32 c) (le_bytes 32 ((k - c * x) mod ell))) = encode (smul k B) ++ encode (smul k HP).
Proof.
  intros HH Hc Ec. unfold ring_term, commitment. cbn [fst snd sig_c sig_r]. rewrite Ec, mod_value, (response_cancels c x k B base_subgroup).
  rewrite (gadd_comm (smul _ HP)), (response_cancels c x k HP HH). reflexivity.
Qed.

Lemma ring_asserts debug x l1 HP l2 : let l := l1 ++ (smul (le_value x) B, HP) :: l2 in reduced x -> member_ok (smul (le_value x) B, HP) ->
  (b ← equals_base_multiple (default [] (map member_key l !! length l1)) x;
   t3 ← generate_key_image debug (default [] (map member_key l !! length l1)) x;
   ks ← all_keys (map member_key l);
   Some ((sc_check x =? 0) && b && bool_decide (encode (smul (le_value x) HP) = t3) && ks)) = Some true.
Proof.
  intros l Hx Hm. assert (map member_key l !! length l1 = Some (encode (smul (le_value x) B))) as E.
  { unfold l. rewrite map_app, lookup_app_r by (by rewrite length_map). by rewrite length_map, Nat.sub_diag. }
  rewrite E. change (default [] (Some ?a)) with a. rewrite equals_base_multiple_ok, bind_some by done.
  rewrite (generate_key_image_ok debug (encode (smul (le_value x) B)) x HP Hx Hm), bind_some, all_keys_ok, bind_some. cbn beta.
  by rewrite reduced_checked, bool_decide_true.
Qed.

(** The challenge of the signer makes the sum. *)
Lemma close_sum data X : ((Hs data - X mod ell) mod ell + X) mod ell = Hs data.
Proof.
  pose proof ell_bounds. pose proof (Hs_range data). pose proof (Z.div_mod X ell ltac:(lia)) as E. rewrite Zplus_mod_idemp_l.
  replace (Hs data - X mod ell + X) with (Hs data + (X / ell) * ell) by lia. rewrite Z.mod_add by lia. by apply Z.mod_small.
Qed.

Lemma generate_ring_ok debug h sec l1 l2 HP sig draws ks rest :
  let P := smul (le_value sec) B in let I := smul (le_value sec) HP in let l := l1 ++ (P, HP) :: l2 in
  reduced sec -> Forall member_ok l -> length sig = length l -> Forall is_key draws ->
  draws_to ks draws rest -> length ks = (2 * (length l1 + length l2) + 1)%nat ->
  returns (generate_ring_signature debug h (encode I) (map member_key l) sec (length l1) sig draws)
    (fun r => snd r = rest /\ length (fst r) = length l /\ valid_ring h I l (fst r)).
Proof.
  intros P I l Hsec Hl Hsig Hd Hdraw Hks.
  assert (member_ok (P, HP)) as Hm by (apply Forall_app in Hl as [_ Hl]; by apply Forall_cons in Hl as [? _]).
  assert (in_subgroup HP) as HH by (by destruct Hm as (? & _ & _ & ?)). unfold generate_ring_signature. eapply returns_bind_eq.
  { apply assert_true. apply Nat.ltb_lt. unfold l. rewrite length_map, length_app. cbn. lia. }
  cbn beta. eapply returns_bind_eq; [exact (debug_true debug _ (ring_asserts debug sec l1 HP l2 Hsec Hm))|]. cbn beta. do 2 crypto_step.
  eapply returns_bind; [eapply (ring_loop_ok I); eassumption|]. cbn beta.
  intros st (s1 & s2 & k & L1 & L2 & Hr1 & Hr2 & Hk & Ek & Esig & Hs & Es & Eab & Edr). crypto_step.
  set (hh := h ++ rs_ab st) in *. destruct (Hs_key hh) as [Hhk Hhv].
  eapply returns_bind_eq; [exact Ek|]. cbn beta. eapply returns_bind_eq; [apply sc_sub_eq; [apply Hhk|apply Hs]|]. cbn beta. rewrite Hhv, Es.
  set (c := (Crypto.Hs hh - (ring_sum s1 + ring_sum s2) mod ell) mod ell). assert (le_value (le_bytes 32 c) = c) as Ec by apply mod_value.
  assert (reduced (le_bytes 32 c)) as Hc by apply mod_reduced.
  eapply returns_bind_eq; [apply sc_mulsub_eq; [apply Hc|apply Hsec|apply Hk]|]. cbn beta. rewrite Ec. apply returns_some. cbn [fst snd].
  split; [exact Edr|]. rewrite Esig, <- L1, ring_array by (rewrite Hsig; unfold l; rewrite length_app; cbn; lia).
  set (s := Signature _ _). split; [unfold l; rewrite !length_app; cbn; lia|]. split.
  - apply Forall_app. split; [done|]. constructor; [|done]. split; [exact Hc|apply mod_reduced].
  - unfold l. rewrite (ring_terms_app I l1 _ s1) by done. change (ring_terms I (?a :: l2) (?b :: s2)) with (ring_term I a b ++ ring_terms I l2 s2).
    unfold s. rewrite (signer_term _ HP _ c HH Hc Ec : ring_term I (P, HP) _ = _). cbn [snd] in Eab. rewrite <- Eab. fold hh. rewrite ring_sum_app.
    change (ring_sum (?a :: s2)) with (le_value (sig_c a) + ring_sum s2). cbn [sig_c]. rewrite Ec.
    replace (ring_sum s1 + (c + ring_sum s2)) with (c + (ring_sum s1 + ring_sum s2)) by lia. apply close_sum.
Qed.

(** C9: Ring signatures.  For any ring, any place of the signer in it and any signing
    array, once the random numbers give two scalars for every other member and one for
    the signer, signing returns and fills the array, and verification of the ring with
    the key image [x H(P)] accepts.  On arbitrary bytes, with as many signatures as
    keys, verification returns and accepts exactly when the image and all keys are
    encodings of points, all scalars are below the order and the challenges add up to
    the hash of the message and the commitments; in a debug build a key that is no
    point fails an assertion instead. *)
Theorem ring_signature_complete debug h sec l1 l2 HP sig draws ks rest image' pubs' sigs' :
  let P := smul (le_value sec) B in let image := encode (smul (le_value sec) HP) in
  let l := l1 ++ (P, HP) :: l2 in let pubs := map member_key l in
  reduced sec -> Forall member_ok l -> length sig = length l -> Forall is_key draws ->
  draws_to ks draws rest -> length ks = (2 * (length l1 + length l2) + 1)%nat ->
  is_key image' -> Forall is_key pubs' -> length sigs' = length pubs' -> Forall (fun s => is_key (sig_c s) /\ is_key (sig_r s)) sigs' ->
  (exists sigs, generate_ring_signature debug h image pubs sec (length l1) sig draws = Some (sigs, rest) /\ length sigs = length l /\
     check_ring_signature debug h image pubs sigs = Some true) /\
  (debug = false \/ Forall (fun k => exists Q, k = encode Q) pubs' ->
   exists b, check_ring_signature debug h image' pubs' sigs' = Some b /\ (b = true <-> ring_verifies h image' pubs' sigs')) /\
  (debug = true -> ~ Forall (fun k => exists Q, k = encode Q) pubs' -> check_ring_signature debug h image' pubs' sigs' = None).
Proof.
  intros P image l pubs Hsec Hl Hsig Hd Hdraw Hks Hi Hp' Hlen' Hk'. split; [|split; [intros Hdebug; by apply check_ring_signature_bytes|]].
  - destruct (generate_ring_ok debug h sec l1 l2 HP sig draws ks rest Hsec Hl Hsig Hd Hdraw Hks) as ([sigs rest'] & E & E1 & L & Hv).
    cbn [fst snd] in *. subst rest'. exists sigs. split; [exact E|]. split; [exact L|]. exact (check_ring_signature_ok debug h _ l sigs Hl L (proj1 Hv) Hv).
  - intros -> Hn. unfold check_ring_signature, debug_only. rewrite (all_keys_bad pubs' Hp' Hn). reflexivity.
Qed.

Lemma ring_signature_witness : exists HP sigs, generate_ring_signature true [1] (encode (smul (le_value (3 :: replicate 31 0)) HP))
    (map member_key ([] ++ (smul (le_value (3 :: replicate 31 0)) B, HP) :: [])) (3 :: replicate 31 0) 0 [Signature [] []] [7 :: replicate 31 0] = Some (sigs, []) /\
  exists b, check_ring_signature true [1] (encode B) [encode B] [Signature zero_key zero_key] = Some b.
Proof.
  destruct (biased_hash_to_ec_ok (encode (smul (le_value (3 :: replicate 31 0)) B))) as (HP & H). exists HP.
  assert (Forall member_ok ([] ++ [(smul (le_value (3 :: replicate 31 0)) B, HP)])) as Hm by (apply Forall_singleton; exact H).
  pose proof (proj1 (small_reduced 0 ltac:(lia)) : is_key zero_key) as Hz. assert (Forall is_key [encode B]) as HB by (apply Forall_singleton, encode_key).
  assert (Forall (fun s => is_key (sig_c s) /\ is_key (sig_r s)) [Signature zero_key zero_key]) as Hs by (apply Forall_singleton; by split).
  destruct (ring_signature_complete true [1] (3 :: replicate 31 0) [] [] HP [Signature [] []] [7 :: replicate 31 0] [le_bytes 32 (7 mod ell)] []
    (encode B) [encode B] [Signature zero_key zero_key]
    (small_reduced 3 ltac:(lia)) Hm eq_refl sample_draw_key (draws_cons _ _ _ _ _ sample_draw (draws_nil _)) eq_refl (encode_key B) HB eq_refl Hs) as ((sigs & E & _) & Hv & _).
  exists sigs. split; [exact E|]. destruct Hv as (b & Eb & _); [right; apply Forall_singleton; by exists B|]. exists b. exact Eb.
Defined.
