(* ===== verification/RctTables.v ===== *)
(** * The constants of RingCT

    The second generator [H] and the tables of its multiples as the sources
    have them: [H] and [H2] of [src/ringct/rctTypes.h], [ge_p3_H] of
    [src/crypto/crypto-ops-data.c] and the precomputed commitments
    [zero_commitments] of [src/ringct/rctOps.cpp].

    Every entry is checked to be the multiple it stands for.  The abscissas the
    checker needs, and the powers of ten of [H], are given as certificates. *)

From Stdlib Require Import Zmod.
From S2P Require Import Prelude Limbs ScalarOps Primes FieldOps Group Edwards GroupOps ScalarMult CurveTables CurveOrder.

(** ** The tables *)

(** [rct::H]. *)
Definition H : list Z := [
  0x8b; 0x65; 0x59; 0x70; 0x15; 0x37; 0x99; 0xaf; 0x2a; 0xea; 0xdc; 0x9f; 0xf1; 0xad; 0xd0; 0xea;
  0x6c; 0x72; 0x51; 0xd5; 0x41; 0x54; 0xcf; 0xa9; 0x2c; 0x17; 0x3a; 0x0d; 0xd3; 0x9c; 0x1f; 0x94].

(** [2^i H]. *)
Definition H2 : list (list Z) := [
  [0x8b; 0x65; 0x59; 0x70; 0x15; 0x37; 0x99; 0xaf; 0x2a; 0xea; 0xdc; 0x9f; 0xf1; 0xad; 0xd0; 0xea; 0x6c; 0x72; 0x51; 0xd5; 0x41; 0x54; 0xcf; 0xa9; 0x2c; 0x17; 0x3a; 0x0d; 0xd3; 0x9c; 0x1f; 0x94];
  [0x8f; 0xaa; 0x44; 0x8a; 0xe4; 0xb3; 0xe2; 0xbb; 0x3d; 0x4d; 0x13; 0x09; 0x09; 0xf5; 0x5f; 0xcd; 0x79; 0x71; 0x1c; 0x1c; 0x83; 0xcd; 0xbc; 0xca; 0xdd; 0x42; 0xcb; 0xe1; 0x51; 0x5e; 0x87; 0x12];
  [0x12; 0xa7; 0xd6; 0x2c; 0x77; 0x91; 0x65; 0x4a; 0x57; 0xf3; 0xe6; 0x76; 0x94; 0xed; 0x50; 0xb4; 0x9a; 0x7d; 0x9e; 0x3f; 0xc1; 0xe4; 0xc7; 0xa0; 0xbd; 0xe2; 0x9d; 0x18; 0x7e; 0x9c; 0xc7; 0x1d];
  [0x78; 0x9a; 0xb9; 0x93; 0x4b; 0x49; 0xc4; 0xf9; 0xe6; 0x78; 0x5c; 0x6d; 0x57; 0xa4; 0x98; 0xb3; 0xea; 0xd4; 0x43; 0xf0; 0x4f; 0x13; 0xdf; 0x11; 0x0c; 0x54; 0x27; 0xb4; 0xf2; 0x14; 0xc7; 0x39];
  [0x77; 0x1e; 0x92; 0x99; 0xd9; 0x4f; 0x02; 0xac; 0x72; 0xe3; 0x8e; 0x44; 0xde; 0x56; 0x8a; 0xc1; 0xdc; 0xb2; 0xed; 0xc6; 0xed; 0xb6; 0x1f; 0x83; 0xca; 0x41; 0x8e; 0x10; 0x77; 0xce; 0x3d; 0xe8];
  [0x73; 0xb9; 0x6d; 0xb4; 0x30; 0x39; 0x81; 0x9b; 0xda; 0xf5; 0x68; 0x0e; 0x5c; 0x32; 0xd7; 0x41; 0x48; 0x88; 0x84; 0xd1; 0x8d; 0x93; 0x86; 0x6d; 0x40; 0x74; 0xa8; 0x49; 0x18; 0x2a; 0x8a; 0x64];
  [0x8d; 0x45; 0x8e; 0x1c; 0x2f; 0x68; 0xeb; 0xeb; 0xcc; 0xd2; 0xfd; 0x5d; 0x37; 0x9f; 0x5e; 0x58; 0xf8; 0x13; 0x4d; 0xf3; 0xe0; 0xe8; 0x8c; 0xad; 0x3d; 0x46; 0x70; 0x10; 0x63; 0xa8; 0xd4; 0x12];
  [0x09; 0x55; 0x1e; 0xdb; 0xe4; 0x94; 0x41; 0x8e; 0x81; 0x28; 0x44; 0x55; 0xd6; 0x4b; 0x35; 0xee; 0x8a; 0xc0; 0x93; 0x06; 0x8a; 0x5f; 0x16; 0x1f; 0xa6; 0x63; 0x75; 0x59; 0x17; 0x7e; 0xf4; 0x04];
  [0xd0; 0x5a; 0x88; 0x66; 0xf4; 0xdf; 0x8c; 0xee; 0x1e; 0x26; 0x8b; 0x1d; 0x23; 0xa4; 0xc5; 0x8c; 0x92; 0xe7; 0x60; 0x30; 0x97; 0x86; 0xcd; 0xac; 0x0f; 0xed; 0xa1; 0xd2; 0x47; 0xa9; 0xc9; 0xa7];
  [0x55; 0xcd; 0xaa; 0xd5; 0x18; 0xbd; 0x87; 0x1d; 0xd1; 0xeb; 0x7b; 0xc7; 0x02; 0x3e; 0x1d; 0xc0; 0xfd; 0xf3; 0x33; 0x98; 0x64; 0xf8; 0x8f; 0xdd; 0x2d; 0xe2; 0x69; 0xfe; 0x9e; 0xe1; 0x83; 0x2d];
  [0xe7; 0x69; 0x7e; 0x95; 0x1a; 0x98; 0xcf; 0xd5; 0x71; 0x2b; 0x84; 0xbb; 0xe5; 0xf3; 0x4e; 0xd7; 0x33; 0xe9; 0x47; 0x3f; 0xcb; 0x68; 0xed; 0xa6; 0x6e; 0x37; 0x88; 0xdf; 0x19; 0x58; 0xc3; 0x06];
  [0xf9; 0x2a; 0x97; 0x0b; 0xae; 0x72; 0x78; 0x29; 0x89; 0xbf; 0xc8; 0x3a; 0xdf; 0xaa; 0x92; 0xa4; 0xf4; 0x9c; 0x7e; 0x95; 0x91; 0x8b; 0x3b; 0xba; 0x3c; 0xdc; 0x7f; 0xe8; 0x8a; 0xcc; 0x8d; 0x47];
  [0x1f; 0x66; 0xc2; 0xd4; 0x91; 0xd7; 0x5a; 0xf9; 0x15; 0xc8; 0xdb; 0x6a; 0x6d; 0x1c; 0xb0; 0xcd; 0x4f; 0x7d; 0xdc; 0xd5; 0xe6; 0x3d; 0x3b; 0xa9; 0xb8; 0x3c; 0x86; 0x6c; 0x39; 0xef; 0x3a; 0x2b];
  [0x3e; 0xec; 0x98; 0x84; 0xb4; 0x3f; 0x58; 0xe9; 0x3e; 0xf8; 0xde; 0xea; 0x26; 0x00; 0x04; 0xef; 0xea; 0x2a; 0x46; 0x34; 0x4f; 0xc5; 0x96; 0x5b; 0x1a; 0x7d; 0xd5; 0xd1; 0x89; 0x97; 0xef; 0xa7];
  [0xb2; 0x9f; 0x8f; 0x0c; 0xcb; 0x96; 0x97; 0x7f; 0xe7; 0x77; 0xd4; 0x89; 0xd6; 0xbe; 0x9e; 0x7e; 0xbc; 0x19; 0xc4; 0x09; 0xb5; 0x10; 0x35; 0x68; 0xf2; 0x77; 0x61; 0x1d; 0x7e; 0xa8; 0x48; 0x94];
  [0x56; 0xb1; 0xf5; 0x12; 0x65; 0xb9; 0x55; 0x98; 0x76; 0xd5; 0x8d; 0x24; 0x9d; 0x0c; 0x14; 0x6d; 0x69; 0xa1; 0x03; 0x63; 0x66; 0x99; 0x87; 0x4d; 0x3f; 0x90; 0x47; 0x35; 0x50; 0xfe; 0x3f; 0x2c];
  [0x1d; 0x7a; 0x36; 0x57; 0x5e; 0x22; 0xf5; 0xd1; 0x39; 0xff; 0x9c; 0xc5; 0x10; 0xfa; 0x13; 0x85; 0x05; 0x57; 0x6b; 0x63; 0x81; 0x5a; 0x94; 0xe4; 0xb0; 0x12; 0xbf; 0xd4; 0x57; 0xca; 0xaa; 0xda];
  [0xd0; 0xac; 0x50; 0x7a; 0x86; 0x4e; 0xcd; 0x05; 0x93; 0xfa; 0x67; 0xbe; 0x7d; 0x23; 0x13; 0x43; 0x92; 0xd0; 0x0e; 0x40; 0x07; 0xe2; 0x53; 0x48; 0x78; 0xd9; 0xb2; 0x42; 0xe1; 0x0d; 0x76; 0x20];
  [0xf6; 0xc6; 0x84; 0x0b; 0x9c; 0xf1; 0x45; 0xbb; 0x2d; 0xcc; 0xf8; 0x6e; 0x94; 0x0b; 0xe0; 0xfc; 0x09; 0x8e; 0x32; 0xe3; 0x10; 0x99; 0xd5; 0x6f; 0x7f; 0xe0; 0x87; 0xbd; 0x5d; 0xeb; 0x50; 0x94];
  [0x28; 0x83; 0x1a; 0x33; 0x40; 0x07; 0x0e; 0xb1; 0xdb; 0x87; 0xc1; 0x2e; 0x05; 0x98; 0x0d; 0x5f; 0x33; 0xe9; 0xef; 0x90; 0xf8; 0x3a; 0x48; 0x17; 0xc9; 0xf4; 0xa0; 0xa3; 0x32; 0x27; 0xe1; 0x97];
  [0x87; 0x63; 0x22; 0x73; 0xd6; 0x29; 0xcc; 0xb7; 0xe1; 0xed; 0x1a; 0x76; 0x8f; 0xa2; 0xeb; 0xd5; 0x17; 0x60; 0xf3; 0x2e; 0x1c; 0x0b; 0x86; 0x7a; 0x5d; 0x36; 0x8d; 0x52; 0x71; 0x05; 0x5c; 0x6e];
  [0x5c; 0x7b; 0x29; 0x42; 0x43; 0x47; 0x96; 0x4d; 0x04; 0x27; 0x55; 0x17; 0xc5; 0xae; 0x14; 0xb6; 0xb5; 0xea; 0x27; 0x98; 0xb5; 0x73; 0xfc; 0x94; 0xe6; 0xe4; 0x4a; 0x53; 0x21; 0x60; 0x0c; 0xfb];
  [0xe6; 0x94; 0x50; 0x42; 0xd7; 0x8b; 0xc2; 0xc3; 0xbd; 0x6e; 0xc5; 0x8c; 0x51; 0x1a; 0x9f; 0xe8; 0x59; 0xc0; 0xad; 0x63; 0xfd; 0xe4; 0x94; 0xf5; 0x03; 0x9e; 0x0e; 0x82; 0x32; 0x61; 0x2b; 0xd5];
  [0x36; 0xd5; 0x69; 0x07; 0xe2; 0xec; 0x74; 0x5d; 0xb6; 0xe5; 0x4f; 0x0b; 0x2e; 0x1b; 0x23; 0x00; 0xab; 0xcb; 0x42; 0x2e; 0x71; 0x2d; 0xa5; 0x88; 0xa4; 0x0d; 0x3f; 0x1e; 0xbb; 0xbe; 0x02; 0xf6];
  [0x34; 0xdb; 0x6e; 0xe4; 0xd0; 0x60; 0x8e; 0x5f; 0x78; 0x36; 0x50; 0x49; 0x5a; 0x3b; 0x2f; 0x52; 0x73; 0xc5; 0x13; 0x4e; 0x52; 0x84; 0xe4; 0xfd; 0xf9; 0x66; 0x27; 0xbb; 0x16; 0xe3; 0x1e; 0x6b];
  [0x8e; 0x76; 0x59; 0xfb; 0x45; 0xa3; 0x78; 0x7d; 0x67; 0x4a; 0xe8; 0x67; 0x31; 0xfa; 0xa2; 0x53; 0x8e; 0xc0; 0xfd; 0xf4; 0x42; 0xab; 0x26; 0xe9; 0xc7; 0x91; 0xfa; 0xda; 0x08; 0x94; 0x67; 0xe9];
  [0x30; 0x06; 0xcf; 0x19; 0x8b; 0x24; 0xf3; 0x1b; 0xb4; 0xc7; 0xe6; 0x34; 0x60; 0x00; 0xab; 0xc7; 0x01; 0xe8; 0x27; 0xcf; 0xbb; 0x5d; 0xf5; 0x2d; 0xcf; 0xa4; 0x2e; 0x9c; 0xa9; 0xff; 0x08; 0x02];
  [0xf5; 0xfd; 0x40; 0x3c; 0xb6; 0xe8; 0xbe; 0x21; 0x47; 0x2e; 0x37; 0x7f; 0xfd; 0x80; 0x5a; 0x8c; 0x60; 0x83; 0xea; 0x48; 0x03; 0xb8; 0x48; 0x53; 0x89; 0xcc; 0x3e; 0xbc; 0x21; 0x5f; 0x00; 0x2a];
  [0x37; 0x31; 0xb2; 0x60; 0xeb; 0x3f; 0x94; 0x82; 0xe4; 0x5f; 0x1c; 0x3f; 0x3b; 0x9d; 0xcf; 0x83; 0x4b; 0x75; 0xe6; 0xee; 0xf8; 0xc4; 0x0f; 0x46; 0x1e; 0xa2; 0x7e; 0x8b; 0x6e; 0xd9; 0x47; 0x3d];
  [0x9f; 0x9d; 0xab; 0x09; 0xc3; 0xf5; 0xe4; 0x28; 0x55; 0xc2; 0xde; 0x97; 0x1b; 0x65; 0x93; 0x28; 0xa2; 0xdb; 0xc4; 0x54; 0x84; 0x5f; 0x39; 0x6f; 0xfc; 0x05; 0x3f; 0x0b; 0xb1; 0x92; 0xf8; 0xc3];
  [0x5e; 0x05; 0x5d; 0x25; 0xf8; 0x5f; 0xdb; 0x98; 0xf2; 0x73; 0xe4; 0xaf; 0xe0; 0x84; 0x64; 0xc0; 0x03; 0xb7; 0x0f; 0x1e; 0xf0; 0x67; 0x7b; 0xb5; 0xe2; 0x57; 0x06; 0x40; 0x0b; 0xe6; 0x20; 0xa5];
  [0x86; 0x8b; 0xcf; 0x36; 0x79; 0xcb; 0x6b; 0x50; 0x0b; 0x94; 0x41; 0x8c; 0x0b; 0x89; 0x25; 0xf9; 0x86; 0x55; 0x30; 0x30; 0x3a; 0xe4; 0xe4; 0xb2; 0x62; 0x59; 0x18; 0x65; 0x66; 0x6a; 0x45; 0x90];
  [0xb3; 0xdb; 0x6b; 0xd3; 0x89; 0x7a; 0xfb; 0xd1; 0xdf; 0x3f; 0x96; 0x44; 0xab; 0x21; 0xc8; 0x05; 0x0e; 0x1f; 0x00; 0x38; 0xa5; 0x2f; 0x7c; 0xa9; 0x5a; 0xc0; 0xc3; 0xde; 0x75; 0x58; 0xcb; 0x7a];
  [0x81; 0x19; 0xb3; 0xa0; 0x59; 0xff; 0x2c; 0xac; 0x48; 0x3e; 0x69; 0xbc; 0xd4; 0x1d; 0x6d; 0x27; 0x14; 0x94; 0x47; 0x91; 0x42; 0x88; 0xbb; 0xea; 0xee; 0x34; 0x13; 0xe6; 0xdc; 0xc6; 0xd1; 0xeb];
  [0x10; 0xfc; 0x58; 0xf3; 0x5f; 0xc7; 0xfe; 0x7a; 0xe8; 0x75; 0x52; 0x4b; 0xb5; 0x85; 0x00; 0x03; 0x00; 0x5b; 0x7f; 0x97; 0x8c; 0x0c; 0x65; 0xe2; 0xa9; 0x65; 0x46; 0x4b; 0x6d; 0x00; 0x81; 0x9c];
  [0x5a; 0xcd; 0x94; 0xeb; 0x3c; 0x57; 0x83; 0x79; 0xc1; 0xea; 0x58; 0xa3; 0x43; 0xec; 0x4f; 0xcf; 0xf9; 0x62; 0x77; 0x6f; 0xe3; 0x55; 0x21; 0xe4; 0x75; 0xa0; 0xe0; 0x6d; 0x88; 0x7b; 0x2d; 0xb9];
  [0x33; 0xda; 0xf3; 0xa2; 0x14; 0xd6; 0xe0; 0xd4; 0x2d; 0x23; 0x00; 0xa7; 0xb4; 0x4b; 0x39; 0x29; 0x0d; 0xb8; 0x98; 0x9b; 0x42; 0x79; 0x74; 0xcd; 0x86; 0x5d; 0xb0; 0x11; 0x05; 0x5a; 0x29; 0x01];
  [0xcf; 0xc6; 0x57; 0x2f; 0x29; 0xaf; 0xd1; 0x64; 0xa4; 0x94; 0xe6; 0x4e; 0x6f; 0x1a; 0xeb; 0x82; 0x0c; 0x3e; 0x7d; 0xa3; 0x55; 0x14; 0x4e; 0x51; 0x24; 0xa3; 0x91; 0xd0; 0x6e; 0x9f; 0x95; 0xea];
  [0xd5; 0x31; 0x2a; 0x4b; 0x0e; 0xf6; 0x15; 0xa3; 0x31; 0xf6; 0x35; 0x2c; 0x2e; 0xd2; 0x1d; 0xac; 0x9e; 0x7c; 0x36; 0x39; 0x8b; 0x93; 0x9a; 0xec; 0x90; 0x1c; 0x25; 0x7f; 0x6c; 0xbc; 0x9e; 0x8e];
  [0x55; 0x1d; 0x67; 0xfe; 0xfc; 0x7b; 0x5b; 0x9f; 0x9f; 0xdb; 0xf6; 0xaf; 0x57; 0xc9; 0x6c; 0x8a; 0x74; 0xd7; 0xe4; 0x5a; 0x00; 0x20; 0x78; 0xa7; 0xb5; 0xba; 0x45; 0xc6; 0xfd; 0xe9; 0x3e; 0x33];
  [0xd5; 0x0a; 0xc7; 0xbd; 0x5c; 0xa5; 0x93; 0xc6; 0x56; 0x92; 0x8f; 0x38; 0x42; 0x80; 0x17; 0xfc; 0x7b; 0xa5; 0x02; 0x85; 0x4c; 0x43; 0xd8; 0x41; 0x49; 0x50; 0xe9; 0x6e; 0xcb; 0x40; 0x5d; 0xc3];
  [0x07; 0x73; 0xe1; 0x8e; 0xa1; 0xbe; 0x44; 0xfe; 0x1a; 0x97; 0xe2; 0x39; 0x57; 0x3c; 0xfa; 0xe3; 0xe4; 0xe9; 0x5e; 0xf9; 0xaa; 0x9f; 0xaa; 0xbe; 0xac; 0x12; 0x74; 0xd3; 0xad; 0x26; 0x16; 0x04];
  [0xe9; 0xaf; 0x0e; 0x7c; 0xa8; 0x93; 0x30; 0xd2; 0xb8; 0x61; 0x5d; 0x1b; 0x41; 0x37; 0xca; 0x61; 0x7e; 0x21; 0x29; 0x7f; 0x2f; 0x0d; 0xed; 0x8e; 0x31; 0xb7; 0xd2; 0xea; 0xd8; 0x71; 0x46; 0x60];
  [0x7b; 0x12; 0x45; 0x83; 0x09; 0x7f; 0x10; 0x29; 0xa0; 0xc7; 0x41; 0x91; 0xfe; 0x73; 0x78; 0xc9; 0x10; 0x5a; 0xcc; 0x70; 0x66; 0x95; 0xed; 0x14; 0x93; 0xbb; 0x76; 0x03; 0x42; 0x26; 0xa5; 0x7b];
  [0xec; 0x40; 0x05; 0x7b; 0x99; 0x54; 0x76; 0x65; 0x0b; 0x3d; 0xb9; 0x8e; 0x9d; 0xb7; 0x57; 0x38; 0xa8; 0xcd; 0x2f; 0x94; 0xd8; 0x63; 0xb9; 0x06; 0x15; 0x0c; 0x56; 0xaa; 0xc1; 0x9c; 0xaa; 0x6b];
  [0x01; 0xd9; 0xff; 0x72; 0x9e; 0xfd; 0x39; 0xd8; 0x37; 0x84; 0xc0; 0xfe; 0x59; 0xc4; 0xae; 0x81; 0xa6; 0x70; 0x34; 0xcb; 0x53; 0xc9; 0x43; 0xfb; 0x81; 0x8b; 0x9d; 0x8a; 0xe7; 0xfc; 0x33; 0xe5];
  [0x00; 0xdf; 0xb3; 0xc6; 0x96; 0x32; 0x8c; 0x76; 0x42; 0x45; 0x19; 0xa7; 0xbe; 0xfe; 0x8e; 0x0f; 0x6c; 0x76; 0xf9; 0x47; 0xb5; 0x27; 0x67; 0x91; 0x6d; 0x24; 0x82; 0x3f; 0x73; 0x5b; 0xaf; 0x2e];
  [0x46; 0x1b; 0x79; 0x9b; 0x4d; 0x9c; 0xee; 0xa8; 0xd5; 0x80; 0xdc; 0xb7; 0x6d; 0x11; 0x15; 0x0d; 0x53; 0x5e; 0x16; 0x39; 0xd1; 0x60; 0x03; 0xc3; 0xfb; 0x7e; 0x9d; 0x1f; 0xd1; 0x30; 0x83; 0xa8];
  [0xee; 0x03; 0x03; 0x94; 0x79; 0xe5; 0x22; 0x8f; 0xdc; 0x55; 0x1c; 0xbd; 0xe7; 0x07; 0x9d; 0x34; 0x12; 0xea; 0x18; 0x6a; 0x51; 0x7c; 0xcc; 0x63; 0xe4; 0x6e; 0x9f; 0xcc; 0xe4; 0xfe; 0x3a; 0x6c];
  [0xa8; 0xcf; 0xb5; 0x43; 0x52; 0x4e; 0x7f; 0x02; 0xb9; 0xf0; 0x45; 0xac; 0xd5; 0x43; 0xc2; 0x1c; 0x37; 0x3b; 0x4c; 0x9b; 0x98; 0xac; 0x20; 0xce; 0xc4; 0x17; 0xa6; 0xdd; 0xb5; 0x74; 0x4e; 0x94];
  [0x93; 0x2b; 0x79; 0x4b; 0xf8; 0x9c; 0x6e; 0xda; 0xf5; 0xd0; 0x65; 0x0c; 0x7c; 0x4b; 0xad; 0x92; 0x42; 0xb2; 0x56; 0x26; 0xe3; 0x7e; 0xad; 0x5a; 0xa7; 0x5e; 0xc8; 0xc6; 0x4e; 0x09; 0xdd; 0x4f];
  [0x16; 0xb1; 0x0c; 0x77; 0x9c; 0xe5; 0xcf; 0xef; 0x59; 0xc7; 0x71; 0x0d; 0x2e; 0x68; 0x44; 0x1e; 0xa6; 0xfa; 0xcb; 0x68; 0xe9; 0xb5; 0xf7; 0xd5; 0x33; 0xae; 0x0b; 0xb7; 0x8e; 0x28; 0xbf; 0x57];
  [0x0f; 0x77; 0xc7; 0x67; 0x43; 0xe7; 0x39; 0x6f; 0x99; 0x10; 0x13; 0x9f; 0x49; 0x37; 0xd8; 0x37; 0xae; 0x54; 0xe2; 0x10; 0x38; 0xac; 0x5c; 0x0b; 0x3f; 0xd6; 0xef; 0x17; 0x1a; 0x28; 0xa7; 0xe4];
  [0xd7; 0xe5; 0x74; 0xb7; 0xb9; 0x52; 0xf2; 0x93; 0xe8; 0x0d; 0xde; 0x90; 0x5e; 0xb5; 0x09; 0x37; 0x3f; 0x3f; 0x6c; 0xd1; 0x09; 0xa0; 0x22; 0x08; 0xb3; 0xc1; 0xe9; 0x24; 0x08; 0x0a; 0x20; 0xca];
  [0x45; 0x66; 0x6f; 0x8c; 0x38; 0x1e; 0x3d; 0xa6; 0x75; 0x56; 0x3f; 0xf8; 0xba; 0x23; 0xf8; 0x3b; 0xfa; 0xc3; 0x0c; 0x34; 0xab; 0xdd; 0xe6; 0xe5; 0xc0; 0x97; 0x5e; 0xf9; 0xfd; 0x70; 0x0c; 0xb9];
  [0xb2; 0x46; 0x12; 0xe4; 0x54; 0x60; 0x7e; 0xb1; 0xab; 0xa4; 0x47; 0xf8; 0x16; 0xd1; 0xa4; 0x55; 0x1e; 0xf9; 0x5f; 0xa7; 0x24; 0x7f; 0xb7; 0xc1; 0xf5; 0x03; 0x02; 0x0a; 0x71; 0x77; 0xf0; 0xdd];
  [0x7e; 0x20; 0x88; 0x61; 0x85; 0x6d; 0xa4; 0x2c; 0x8b; 0xb4; 0x6a; 0x75; 0x67; 0xf8; 0x12; 0x13; 0x62; 0xd9; 0xfb; 0x24; 0x96; 0xf1; 0x31; 0xa4; 0xaa; 0x90; 0x17; 0xcf; 0x36; 0x6c; 0xdf; 0xce];
  [0x5b; 0x64; 0x6b; 0xff; 0x6a; 0xd1; 0x10; 0x01; 0x65; 0x03; 0x7a; 0x05; 0x56; 0x01; 0xea; 0x02; 0x35; 0x8c; 0x0f; 0x41; 0x05; 0x0f; 0x9d; 0xfe; 0x3c; 0x95; 0xdc; 0xcb; 0xd3; 0x08; 0x7b; 0xe0];
  [0x74; 0x6d; 0x1d; 0xcc; 0xfe; 0xd2; 0xf0; 0xff; 0x1e; 0x13; 0xc5; 0x1e; 0x2d; 0x50; 0xd5; 0x32; 0x43; 0x75; 0xfb; 0xd5; 0xbf; 0x7c; 0xa8; 0x2a; 0x89; 0x31; 0x82; 0x8d; 0x80; 0x1d; 0x43; 0xab];
  [0xcb; 0x98; 0x11; 0x0d; 0x4a; 0x6b; 0xb9; 0x7d; 0x22; 0xfe; 0xad; 0xbc; 0x6c; 0x0d; 0x89; 0x30; 0xc5; 0xf8; 0xfc; 0x50; 0x8b; 0x2f; 0xc5; 0xb3; 0x53; 0x28; 0xd2; 0x6b; 0x88; 0xdb; 0x19; 0xae];
  [0x60; 0xb6; 0x26; 0xa0; 0x33; 0xb5; 0x5f; 0x27; 0xd7; 0x67; 0x6c; 0x40; 0x95; 0xea; 0xba; 0xbc; 0x7a; 0x2c; 0x7e; 0xde; 0x26; 0x24; 0xb4; 0x72; 0xe9; 0x7f; 0x64; 0xf9; 0x6b; 0x8c; 0xfc; 0x0e];
  [0xe5; 0xb5; 0x2b; 0xc9; 0x27; 0x46; 0x8d; 0xf7; 0x18; 0x93; 0xeb; 0x81; 0x97; 0xef; 0x82; 0x0c; 0xf7; 0x6c; 0xb0; 0xaa; 0xf6; 0xe8; 0xe4; 0xfe; 0x93; 0xad; 0x62; 0xd8; 0x03; 0x98; 0x31; 0x04];
  [0x05; 0x65; 0x41; 0xae; 0x5d; 0xa9; 0x96; 0x1b; 0xe2; 0xb0; 0xa5; 0xe8; 0x95; 0xe5; 0xc5; 0xba; 0x15; 0x3c; 0xbb; 0x62; 0xdd; 0x56; 0x1a; 0x42; 0x7b; 0xad; 0x0f; 0xfd; 0x41; 0x92; 0x31; 0x99];
  [0xf8; 0xfe; 0xf0; 0x5a; 0x3f; 0xa5; 0xc9; 0xf3; 0xeb; 0xa4; 0x16; 0x38; 0xb2; 0x47; 0xb7; 0x11; 0xa9; 0x9f; 0x96; 0x0f; 0xe7; 0x3a; 0xa2; 0xf9; 0x01; 0x36; 0xae; 0xb2; 0x03; 0x29; 0xb8; 0x88]].

(** [B + a H] for the amounts [a] with one significant digit. *)
Definition zero_commitments : list (Z * list Z) := [
  (0, [0x58; 0x66; 0x66; 0x66; 0x66; 0x66; 0x66; 0x66; 0x66; 0x66; 0x66; 0x66; 0x66; 0x66; 0x66; 0x66; 0x66; 0x66; 0x66; 0x66; 0x66; 0x66; 0x66; 0x66; 0x66; 0x66; 0x66; 0x66; 0x66; 0x66; 0x66; 0x66]);
  (1, [0x17; 0x38; 0xeb; 0x7a; 0x67; 0x7c; 0x61; 0x49; 0x22; 0x8a; 0x2b; 0xea; 0xa2; 0x1b; 0xea; 0x9e; 0x33; 0x70; 0x80; 0x2d; 0x72; 0xa3; 0xee; 0xc7; 0x90; 0x11; 0x95; 0x80; 0xe0; 0x2b; 0xd5; 0x22]);
  (2, [0x76; 0x24; 0x84; 0x63; 0x0a; 0x06; 0x17; 0x17; 0x8d; 0x0e; 0x33; 0xf3; 0x2e; 0x0e; 0x11; 0x3e; 0xa8; 0x46; 0x86; 0x9d; 0x46; 0x4b; 0x0b; 0x6f; 0xf1; 0x3b; 0x29; 0x97; 0x04; 0x9c; 0xda; 0x7d]);
  (3, [0xcf; 0xf7; 0x7b; 0x56; 0x62; 0x1c; 0x4f; 0xef; 0x74; 0xcf; 0x37; 0xc1; 0x78; 0xd4; 0xb5; 0x8a; 0xf4; 0xad; 0x8c; 0xd4; 0x35; 0xfc; 0xb9; 0x62; 0x76; 0xbc; 0x15; 0x9c; 0x7c; 0x6a; 0x28; 0x8c]);
  (4, [0x9a; 0xb8; 0x6c; 0x31; 0xf4; 0x22; 0xd8; 0x21; 0xb5; 0x22; 0x57; 0x30; 0xd1; 0xbf; 0x73; 0x0a; 0x9b; 0x91; 0xd2; 0xee; 0xe3; 0x14; 0xb8; 0x4e; 0xbd; 0x4b; 0x93; 0xa6; 0x81; 0x61; 0x82; 0x66]);
  (5, [0x32; 0xee; 0x2f; 0x65; 0x9a; 0xf6; 0x38; 0x58; 0xc2; 0xf7; 0xdc; 0x11; 0x1b; 0x3b; 0xb8; 0xfe; 0xc0; 0x2c; 0xac; 0x42; 0x38; 0x3b; 0xb7; 0x36; 0xde; 0x01; 0x08; 0x6f; 0x38; 0xf0; 0x12; 0x3c]);
  (6, [0x47; 0x26; 0x2b; 0x1e; 0xa6; 0x43; 0x01; 0x6e; 0x38; 0x24; 0x17; 0x53; 0xa4; 0xfb; 0x39; 0x92; 0x9e; 0x31; 0xea; 0x9b; 0xd3; 0x41; 0x1a; 0xb1; 0x7f; 0x16; 0x6e; 0x61; 0xf6; 0x0c; 0xe5; 0xa7]);
  (7, [0xc6; 0x32; 0x93; 0x68; 0x79; 0x9a; 0x0d; 0xed; 0x4c; 0x20; 0x25; 0x6b; 0xff; 0xe6; 0x45; 0x47; 0xf1; 0x7b; 0xc4; 0x23; 0x95; 0x04; 0xbe; 0x82; 0x4d; 0xff; 0x8a; 0x2b; 0xe1; 0xaf; 0xe3; 0xcd]);
  (8, [0xd5; 0xf1; 0x50; 0x74; 0x33; 0x46; 0x19; 0x0f; 0x84; 0x2b; 0x06; 0xb8; 0xfa; 0xe1; 0x20; 0xeb; 0x85; 0x24; 0x7e; 0x9f; 0x6d; 0xec; 0x88; 0xff; 0xa2; 0x23; 0xbf; 0x69; 0x94; 0xe9; 0xc8; 0xc2]);
  (9, [0x56; 0x00; 0x23; 0x32; 0x9e; 0xc0; 0xfa; 0xf3; 0x3b; 0x5e; 0x3a; 0x5c; 0xb4; 0xea; 0xef; 0xee; 0x38; 0xf8; 0x96; 0x1c; 0x88; 0xb6; 0x6a; 0x2f; 0x19; 0xd4; 0x59; 0x51; 0x96; 0x9c; 0x6d; 0x1f]);
  (10, [0x03; 0x80; 0xdc; 0x24; 0xcc; 0x97; 0xcc; 0xe6; 0x58; 0xc3; 0xa9; 0x47; 0xc5; 0x10; 0x25; 0xde; 0x1a; 0x69; 0x80; 0x3b; 0xdb; 0x50; 0x05; 0xe3; 0xb7; 0xdd; 0xa9; 0x0d; 0x68; 0x59; 0xb0; 0x1c]);
  (20, [0x09; 0x03; 0xf6; 0x2e; 0x97; 0x76; 0x47; 0x58; 0xfe; 0xf8; 0x9e; 0x5b; 0xec; 0x29; 0xef; 0x4f; 0xc5; 0xe6; 0x45; 0x4b; 0x2d; 0x47; 0x44; 0x47; 0x36; 0x04; 0x4c; 0x25; 0x2e; 0xe2; 0x8e; 0xba]);
  (30, [0xa2; 0x8b; 0x89; 0xe0; 0x0b; 0xed; 0x62; 0x31; 0x68; 0x5b; 0xf9; 0x74; 0x36; 0xf2; 0xba; 0x51; 0xa2; 0x51; 0x55; 0x7f; 0x8d; 0x17; 0x0a; 0x78; 0xe3; 0x12; 0xd6; 0x24; 0xbf; 0x60; 0xff; 0xfe]);
  (40, [0xb5; 0xc6; 0x95; 0x55; 0x6a; 0x28; 0x47; 0xb2; 0x0e; 0x1c; 0xbb; 0x26; 0xe6; 0xa9; 0xc6; 0x8a; 0x61; 0xc5; 0x50; 0xce; 0xb7; 0xc3; 0x04; 0xfe; 0x92; 0x28; 0x3d; 0x29; 0xa9; 0xb2; 0x43; 0xcb]);
  (50, [0x12; 0x8e; 0xc6; 0xcd; 0xc0; 0x6b; 0x43; 0xc5; 0xd0; 0x9c; 0x3f; 0x65; 0x2a; 0xe3; 0x44; 0x7f; 0x9b; 0x3f; 0x2c; 0x30; 0x91; 0x2d; 0xf0; 0x80; 0x37; 0x00; 0x85; 0xbc; 0x0c; 0x09; 0xef; 0x78]);
  (60, [0x1f; 0x9f; 0x40; 0x3a; 0xae; 0xa7; 0x16; 0xfb; 0xe2; 0x98; 0xa8; 0x14; 0xf1; 0xee; 0xbc; 0x1b; 0x73; 0x16; 0x8c; 0x37; 0xfa; 0xe3; 0x16; 0xeb; 0x65; 0x05; 0x81; 0x6f; 0xc2; 0x20; 0xeb; 0xfb]);
  (70, [0x10; 0xa2; 0x38; 0xc5; 0xe4; 0x8e; 0x4b; 0x93; 0x99; 0xdb; 0xa6; 0xcb; 0xd9; 0x8e; 0x63; 0x54; 0x41; 0x59; 0xe9; 0x8c; 0x93; 0x5a; 0xc0; 0x60; 0x3d; 0x72; 0xde; 0x0f; 0xff; 0x31; 0x53; 0xbb]);
  (80, [0x75; 0xab; 0x78; 0xc7; 0x28; 0x1f; 0x69; 0x28; 0xf0; 0x94; 0x86; 0x05; 0x7a; 0x63; 0x64; 0x18; 0x27; 0xc5; 0x74; 0x84; 0xe3; 0xe9; 0x9a; 0x39; 0xf3; 0x12; 0xa4; 0x3a; 0x51; 0x9b; 0xda; 0x08]);
  (90, [0xe9; 0x56; 0x7b; 0xa7; 0x88; 0xb8; 0x5b; 0x82; 0xc8; 0x65; 0x7a; 0x15; 0xa5; 0x48; 0x99; 0x5c; 0xf6; 0xb0; 0xbd; 0xd1; 0xc6; 0x2a; 0xda; 0x77; 0x55; 0xf2; 0x32; 0x3a; 0xd8; 0xa4; 0x08; 0x51]);
  (100, [0xb6; 0x17; 0x36; 0xd5; 0xf2; 0x8d; 0xef; 0x28; 0x61; 0x6a; 0xfc; 0x47; 0x93; 0xe9; 0x9b; 0x27; 0xcd; 0x3e; 0x89; 0xfb; 0x91; 0xc1; 0x13; 0xd4; 0x30; 0x73; 0x65; 0xfb; 0x75; 0xde; 0xdf; 0x88]);
  (200, [0x71; 0x03; 0xeb; 0x72; 0x19; 0x28; 0xd7; 0x91; 0x99; 0x87; 0xf3; 0x50; 0xca; 0xa5; 0x7a; 0xe7; 0xb0; 0x81; 0x57; 0x15; 0x3b; 0x4c; 0x43; 0x0d; 0x3e; 0xde; 0xc0; 0xc2; 0x03; 0x07; 0x97; 0x44]);
  (300, [0x24; 0x40; 0x9e; 0x92; 0x2e; 0xce; 0xd1; 0xa0; 0x5e; 0x4e; 0xac; 0xa3; 0xdf; 0x91; 0x19; 0xc3; 0x8a; 0x92; 0x2e; 0x0b; 0x66; 0xd0; 0x2d; 0x9d; 0xd2; 0xfb; 0x1d; 0xcc; 0x20; 0xb9; 0xaf; 0xc7]);
  (400, [0xa7; 0x72; 0x9f; 0xa9; 0x32; 0x81; 0x82; 0x99; 0x34; 0x11; 0x5d; 0x47; 0x5a; 0x67; 0x86; 0x0a; 0x14; 0x12; 0xc5; 0xe5; 0x95; 0x12; 0x20; 0xd9; 0x60; 0xc2; 0x41; 0xa0; 0x19; 0x1a; 0x9e; 0x65]);
  (500, [0x2e; 0x53; 0x0c; 0x06; 0x1c; 0x6d; 0x9e; 0x97; 0xab; 0xaf; 0x46; 0x8c; 0x32; 0xb0; 0xad; 0xa7; 0x49; 0x22; 0x57; 0x72; 0xfc; 0xd1; 0x17; 0x41; 0xcb; 0x5c; 0x03; 0x5c; 0xdd; 0x26; 0x14; 0x0e]);
  (600, [0xa5; 0x0b; 0x91; 0x09; 0x9d; 0xf1; 0xb1; 0x69; 0x4f; 0x30; 0xb5; 0x8f; 0xe6; 0x77; 0x68; 0x50; 0xdb; 0xdb; 0xf4; 0x6c; 0xed; 0x99; 0x7f; 0x52; 0x62; 0xa8; 0x51; 0x59; 0x40; 0x74; 0xa5; 0x9d]);
  (700, [0x51; 0x2c; 0x0f; 0xae; 0xcc; 0xbe; 0xf2; 0xfe; 0xe5; 0x75; 0x4c; 0x6a; 0x45; 0xfd; 0xc0; 0x75; 0x2d; 0x4f; 0x15; 0x22; 0xe7; 0x7f; 0xf0; 0xc4; 0x8d; 0xcb; 0x19; 0x91; 0x8a; 0x68; 0x84; 0xe0]);
  (800, [0xda; 0xa9; 0xf9; 0xa5; 0xb9; 0x71; 0x33; 0x33; 0xe9; 0x8c; 0x05; 0xac; 0xe7; 0x27; 0xcc; 0x0e; 0x7d; 0xc3; 0xf1; 0x59; 0x49; 0xe1; 0xef; 0x4d; 0x94; 0xfa; 0x47; 0xd6; 0x8a; 0x34; 0xc6; 0x75]);
  (900, [0xc7; 0x2b; 0x18; 0xc9; 0x17; 0xcd; 0x43; 0xee; 0x78; 0x40; 0x5e; 0x39; 0x83; 0x98; 0xb8; 0x3a; 0xc0; 0x97; 0x7b; 0x25; 0x19; 0x90; 0xd8; 0x13; 0x0c; 0x38; 0xba; 0x53; 0xb6; 0x3d; 0xb4; 0xf7]);
  (1000, [0x01; 0xdf; 0x60; 0x91; 0xeb; 0x6a; 0x48; 0xe9; 0xe4; 0x22; 0x25; 0x0b; 0xe3; 0x83; 0x88; 0xc8; 0x61; 0xb6; 0x55; 0x55; 0xa7; 0x20; 0xad; 0x15; 0x35; 0x86; 0xfe; 0x2b; 0xd2; 0x2f; 0xa2; 0x3d]);
  (2000, [0x24; 0xf5; 0xb1; 0x34; 0x78; 0x46; 0xaf; 0x22; 0xb5; 0x6f; 0x41; 0x25; 0xb3; 0xe7; 0x67; 0x8c; 0xf8; 0x4b; 0x4f; 0xd2; 0xf9; 0x2e; 0x1c; 0x40; 0xaa; 0x3a; 0x1b; 0xe0; 0xc7; 0x4d; 0x95; 0xe6]);
  (3000, [0xa7; 0x1c; 0x9a; 0x8f; 0x40; 0xc1; 0x25; 0x9c; 0x36; 0x26; 0x27; 0x73; 0xe0; 0x08; 0x20; 0x18; 0x3e; 0x6b; 0x59; 0xe0; 0x71; 0xc9; 0x9b; 0x34; 0x9b; 0xef; 0x8f; 0x7e; 0xd2; 0xc6; 0xad; 0xb9]);
  (4000, [0x98; 0xdc; 0x74; 0xaf; 0x19; 0x89; 0xd3; 0x4b; 0x64; 0x2e; 0xb3; 0x06; 0x2d; 0xbc; 0x9d; 0xca; 0xd8; 0x01; 0xc5; 0x65; 0x27; 0x06; 0x93; 0x99; 0xe7; 0xc4; 0x11; 0xad; 0x14; 0x28; 0x82; 0xf6]);
  (5000, [0x61; 0x76; 0xac; 0x4a; 0xc0; 0x06; 0x5e; 0x49; 0xd6; 0xc4; 0x41; 0xcf; 0x40; 0x4f; 0xad; 0xda; 0xad; 0x44; 0x93; 0x0e; 0xf0; 0x3c; 0x68; 0x09; 0xad; 0xd7; 0x77; 0xe4; 0x2f; 0xee; 0x7f; 0x10]);
  (6000, [0x78; 0x79; 0x04; 0x65; 0xf6; 0x60; 0x5b; 0x5a; 0x84; 0x77; 0x36; 0x5a; 0xa6; 0xc2; 0xa4; 0xa5; 0x84; 0x91; 0x0c; 0x23; 0x95; 0x02; 0x92; 0x97; 0x52; 0x49; 0xa1; 0xad; 0x7d; 0xf0; 0xf7; 0xe8]);
  (7000, [0x20; 0xa5; 0x60; 0x6b; 0x60; 0x23; 0x95; 0xd6; 0x8e; 0x2f; 0xad; 0x8e; 0xc6; 0x7f; 0x92; 0xde; 0x89; 0xc6; 0x3e; 0x1e; 0x7f; 0xc1; 0xdd; 0x7f; 0x92; 0xff; 0xed; 0xb8; 0xf6; 0x55; 0xfb; 0x0d]);
  (8000, [0x9a; 0x78; 0x97; 0x43; 0x98; 0x65; 0x17; 0xd9; 0x5f; 0x4e; 0x80; 0x8b; 0xeb; 0xe6; 0x52; 0x0d; 0xe6; 0xcf; 0x8c; 0x51; 0x35; 0xab; 0x36; 0x08; 0x7e; 0x87; 0xe2; 0x76; 0xac; 0x6a; 0x34; 0x01]);
  (9000, [0x5f; 0xc7; 0xaa; 0x48; 0xbb; 0x19; 0x13; 0x58; 0xc7; 0xe3; 0x4d; 0x24; 0xcf; 0x9c; 0x31; 0x16; 0x74; 0x12; 0x7a; 0xb2; 0x45; 0xd0; 0x8f; 0x4e; 0x2c; 0xfd; 0xbf; 0x8f; 0x05; 0xc9; 0x5b; 0xf5]);
  (10000, [0x61; 0x20; 0xe7; 0x76; 0xe9; 0x12; 0xab; 0x10; 0x5a; 0x49; 0xf9; 0xda; 0x02; 0xa6; 0x75; 0x17; 0xc0; 0xa9; 0x0b; 0x2b; 0x3e; 0x2d; 0xa3; 0x0d; 0xff; 0x34; 0x39; 0x93; 0xdb; 0xec; 0x95; 0x97]);
  (20000, [0x77; 0xbf; 0xb5; 0x37; 0xac; 0x0a; 0xbc; 0x41; 0xaa; 0x21; 0xd0; 0xec; 0xd9; 0x18; 0x13; 0x34; 0xd8; 0x6b; 0xa7; 0x86; 0x5a; 0x94; 0x47; 0xf5; 0xc1; 0x58; 0x9a; 0x81; 0xd7; 0xef; 0xb3; 0xbb]);
  (30000, [0x35; 0xf4; 0x05; 0xa9; 0x5f; 0x75; 0x19; 0x2a; 0xe9; 0xc0; 0xd4; 0xf5; 0x88; 0x84; 0x47; 0x14; 0xf6; 0x85; 0x1b; 0x97; 0xce; 0xbd; 0x9f; 0x7c; 0x02; 0xc5; 0xdd; 0xd7; 0xbf; 0x58; 0xff; 0x31]);
  (40000, [0x77; 0x55; 0xbb; 0x3f; 0x38; 0x7c; 0x21; 0xb8; 0xa0; 0xf4; 0x48; 0x1f; 0xbf; 0xa8; 0x8a; 0xbe; 0xee; 0xce; 0xc7; 0x56; 0x53; 0xfc; 0xa1; 0x89; 0x58; 0x39; 0xc1; 0xba; 0x06; 0x47; 0x9f; 0x96]);
  (50000, [0x8b; 0x7e; 0x84; 0xa3; 0x37; 0xb7; 0xb9; 0xcd; 0x5d; 0xb3; 0x63; 0x33; 0x08; 0xad; 0x51; 0x86; 0xa3; 0x59; 0x0d; 0xff; 0xb8; 0x23; 0x1e; 0x2f; 0x31; 0xfd; 0x20; 0x42; 0x54; 0x9f; 0xfb; 0xe2]);
  (60000, [0xef; 0xfd; 0xa6; 0x25; 0x15; 0xea; 0xb1; 0xbc; 0x1e; 0xbd; 0x74; 0x92; 0x94; 0x9b; 0x01; 0x22; 0xc3; 0x9f; 0x71; 0x0a; 0x65; 0x16; 0xec; 0x66; 0x8c; 0x37; 0x61; 0xe6; 0xcc; 0x36; 0x1f; 0x25]);
  (70000, [0x16; 0xba; 0x89; 0x00; 0xf3; 0x6f; 0x0f; 0x6c; 0x46; 0x1c; 0x0b; 0xe7; 0x64; 0xae; 0xee; 0x48; 0x86; 0x06; 0xb0; 0x53; 0xed; 0xdc; 0x10; 0xb5; 0x9a; 0x3e; 0xde; 0xcd; 0x23; 0xd4; 0x4f; 0xc0]);
  (80000, [0x4d; 0xd4; 0x70; 0x3b; 0x7b; 0x7f; 0xcf; 0xe7; 0x2a; 0x2e; 0x4f; 0x31; 0xa4; 0x34; 0x17; 0xf9; 0xc0; 0xda; 0x64; 0x2f; 0xd0; 0xa9; 0x29; 0xb8; 0xf5; 0xed; 0xd8; 0x03; 0x7f; 0x93; 0xc5; 0xb3]);
  (90000, [0x8e; 0xfc; 0x03; 0x20; 0x40; 0xbd; 0x90; 0x41; 0xda; 0x3d; 0xb0; 0x9b; 0xa1; 0x3d; 0xa2; 0xa5; 0xd1; 0xb8; 0x12; 0x03; 0x0a; 0x5a; 0x36; 0x7c; 0x58; 0x94; 0xbd; 0x54; 0x11; 0x09; 0xe7; 0x30]);
  (100000, [0xbd; 0x2e; 0xb1; 0x97; 0x83; 0x57; 0x1c; 0xf2; 0x22; 0x2c; 0x81; 0x0b; 0x69; 0x0f; 0xc7; 0x66; 0x64; 0x57; 0xae; 0x20; 0x92; 0x5b; 0x90; 0x05; 0xce; 0xe6; 0x1d; 0xf2; 0x66; 0x6f; 0xdc; 0xb7]);
  (200000, [0x83; 0xd4; 0xcd; 0xdd; 0xc1; 0x44; 0x87; 0x32; 0xf2; 0x97; 0x7c; 0x41; 0xaa; 0xa7; 0x1f; 0xe6; 0xde; 0x9c; 0x17; 0x6d; 0xa8; 0x99; 0xee; 0xbf; 0xfc; 0x1b; 0x0b; 0xa9; 0xea; 0x92; 0x97; 0x90]);
  (300000, [0xcc; 0xc0; 0x6b; 0x44; 0xc3; 0x01; 0x38; 0x06; 0x30; 0x45; 0xed; 0x01; 0xd2; 0x45; 0xd8; 0x14; 0x03; 0xb6; 0x36; 0x52; 0xeb; 0xc4; 0xf9; 0x96; 0x7f; 0x0d; 0x7f; 0x38; 0x69; 0x7f; 0x46; 0x16]);
  (400000, [0x1b; 0xbf; 0xe7; 0x0e; 0xca; 0xf1; 0xdd; 0xd7; 0xf1; 0x02; 0x36; 0xf6; 0x8a; 0x41; 0x00; 0x0b; 0x5d; 0xab; 0x2d; 0x47; 0x5c; 0xb9; 0x2f; 0x62; 0xc2; 0xd6; 0x84; 0xcf; 0x57; 0x69; 0xfb; 0x84]);
  (500000, [0xf1; 0xb1; 0xcd; 0xaa; 0x78; 0x14; 0x95; 0x36; 0x0f; 0x53; 0x31; 0x81; 0xaa; 0x58; 0xc8; 0xbd; 0xae; 0x6a; 0x77; 0x98; 0xd0; 0x2d; 0xab; 0x6d; 0x56; 0x26; 0x81; 0x27; 0x67; 0x09; 0xe7; 0x01]);
  (600000, [0xd5; 0x26; 0x7d; 0x60; 0xd4; 0xfe; 0x9b; 0xc5; 0xfe; 0xfa; 0x7d; 0x3f; 0xe0; 0x7c; 0xd1; 0xfa; 0xd4; 0x55; 0x73; 0xd5; 0xae; 0x19; 0x10; 0xda; 0x07; 0x3e; 0x6d; 0x2d; 0xf9; 0xe2; 0x04; 0x39]);
  (700000, [0x0b; 0x58; 0x11; 0x25; 0xc2; 0xc4; 0x83; 0xc9; 0xa3; 0xd8; 0xbc; 0x08; 0x32; 0x2f; 0x26; 0xaa; 0x1f; 0xc5; 0x0e; 0x41; 0x53; 0x2c; 0x1b; 0x9d; 0xf6; 0x26; 0xb0; 0x09; 0xd7; 0x88; 0x67; 0xcf]);
  (800000, [0xf5; 0xb3; 0xd1; 0x8f; 0x66; 0xd0; 0xf9; 0x17; 0x5c; 0x30; 0x83; 0xb5; 0xf8; 0x07; 0x8e; 0xaf; 0xa8; 0x9e; 0xf8; 0x1d; 0xe7; 0x15; 0x08; 0xbc; 0x25; 0x1f; 0x5c; 0x5f; 0xe7; 0x25; 0x2e; 0x06]);
  (900000, [0x01; 0xde; 0x40; 0x2c; 0x4b; 0x00; 0x43; 0x04; 0x2e; 0xae; 0x9e; 0xde; 0xa1; 0x49; 0x2b; 0x9d; 0x82; 0xb7; 0xbc; 0x36; 0x68; 0xe9; 0xb5; 0x84; 0xb0; 0x31; 0x3d; 0x44; 0x50; 0x53; 0x40; 0x74]);
  (1000000, [0x53; 0x4b; 0x85; 0xc7; 0x89; 0x3f; 0x66; 0xf0; 0x26; 0xb6; 0x5e; 0xd7; 0xe7; 0xa4; 0xb8; 0xc9; 0xf4; 0x0b; 0xe3; 0x1b; 0xcd; 0x0a; 0x3d; 0xcd; 0x27; 0xc4; 0x71; 0x02; 0x56; 0x51; 0x65; 0x03]);
  (2000000, [0xcd; 0xb5; 0xda; 0xfa; 0x53; 0x10; 0xf5; 0x26; 0x2f; 0xfc; 0x09; 0x26; 0xd0; 0xdf; 0x6e; 0xeb; 0xee; 0x2d; 0x52; 0xa9; 0x8d; 0xc6; 0x9f; 0x0d; 0xc5; 0xe4; 0xeb; 0xf0; 0xc1; 0xa8; 0x77; 0x2e]);
  (3000000, [0x9e; 0x75; 0x63; 0xf0; 0x33; 0x59; 0xea; 0x31; 0xe2; 0x91; 0xe7; 0xf0; 0xb8; 0x74; 0x17; 0xbc; 0xf5; 0xb2; 0x34; 0xee; 0x8b; 0x7e; 0x5b; 0x04; 0x41; 0x73; 0xbf; 0x00; 0x46; 0x86; 0x7c; 0x57]);
  (4000000, [0xfd; 0x2a; 0xeb; 0x0d; 0x5e; 0xe5; 0x3b; 0x77; 0xf2; 0xb1; 0xe3; 0xac; 0x75; 0x2d; 0x19; 0x38; 0x9f; 0xc5; 0xba; 0xa0; 0xf8; 0xd7; 0x64; 0x48; 0xa5; 0x9f; 0x99; 0x85; 0xa4; 0x8d; 0x0a; 0x25]);
  (5000000, [0xc0; 0xbe; 0x4f; 0xb8; 0x77; 0xb9; 0xce; 0x50; 0x87; 0x71; 0x32; 0x3b; 0xcf; 0x1f; 0xb9; 0x48; 0x47; 0x10; 0xee; 0x23; 0x02; 0x00; 0x06; 0xc3; 0xe8; 0xca; 0xac; 0x6e; 0x4f; 0x02; 0xfa; 0xbf]);
  (6000000, [0xfc; 0x44; 0x5c; 0xa3; 0x84; 0xf3; 0x3e; 0x55; 0x8d; 0xc1; 0x56; 0x44; 0x9d; 0x3f; 0xba; 0x6a; 0xfd; 0x54; 0xc3; 0x42; 0xe6; 0x35; 0x11; 0x0f; 0xe7; 0x9c; 0x16; 0xc7; 0x17; 0xf7; 0xd4; 0xf7]);
  (7000000, [0xd8; 0x09; 0x2b; 0x8d; 0x45; 0xdb; 0x54; 0xa5; 0x6d; 0x64; 0xe8; 0x09; 0x4a; 0x06; 0x22; 0xe2; 0x6e; 0x8a; 0x2e; 0xec; 0xb9; 0x03; 0xb2; 0xe1; 0xf7; 0x5a; 0x83; 0x7b; 0x3a; 0xd8; 0x55; 0x4a]);
  (8000000, [0x10; 0x04; 0x5c; 0x91; 0xdb; 0xad; 0x8a; 0x6a; 0x81; 0x62; 0x4a; 0xe0; 0xcf; 0x20; 0x5d; 0xb9; 0x97; 0x3e; 0xe8; 0x42; 0x3e; 0x97; 0xaf; 0x58; 0xa6; 0x1c; 0xfa; 0x7a; 0x78; 0x66; 0xf4; 0x01]);
  (9000000, [0x11; 0x5c; 0x20; 0x9e; 0xe1; 0xde; 0xf3; 0x10; 0xce; 0xc9; 0xa6; 0xd1; 0x6c; 0xe6; 0x27; 0xec; 0xbd; 0xb9; 0xff; 0x2c; 0x23; 0x09; 0x3c; 0x24; 0xc8; 0x6c; 0x1b; 0xf2; 0x50; 0xd4; 0xb5; 0x85]);
  (10000000, [0x2f; 0x99; 0xd9; 0x74; 0x44; 0x18; 0x66; 0x09; 0x49; 0xba; 0x43; 0x35; 0x61; 0xc6; 0x05; 0xb6; 0xf7; 0xbe; 0x8f; 0x82; 0x0a; 0x93; 0xcb; 0x2a; 0xed; 0xa9; 0x7c; 0x87; 0x32; 0x92; 0x56; 0x49]);
  (20000000, [0xc6; 0x77; 0x1f; 0xab; 0x14; 0x0b; 0x75; 0xf4; 0xef; 0xd0; 0x97; 0xfc; 0xe1; 0x82; 0x6b; 0x80; 0xba; 0xe3; 0x16; 0xbc; 0xec; 0x28; 0x86; 0x9b; 0x3a; 0x1b; 0xf1; 0xbc; 0x6e; 0x4d; 0x20; 0x43]);
  (30000000, [0xa1; 0xe9; 0xed; 0x3e; 0xf6; 0x5a; 0x9d; 0x52; 0x6c; 0xc2; 0x62; 0x05; 0x88; 0x12; 0x01; 0xd8; 0xa8; 0xf2; 0xc4; 0x40; 0x9f; 0xa3; 0x64; 0x10; 0x72; 0x96; 0xb9; 0xf9; 0x6a; 0x61; 0xb3; 0x58]);
  (40000000, [0xb5; 0x31; 0x2d; 0xc7; 0x72; 0x94; 0xab; 0x9b; 0xc8; 0xbf; 0xd1; 0x39; 0x1e; 0x9a; 0xca; 0x92; 0x45; 0xe2; 0x28; 0xf7; 0x4b; 0x49; 0x74; 0xfc; 0x29; 0xad; 0x1c; 0x31; 0xcb; 0xe3; 0xe6; 0xa3]);
  (50000000, [0xb8; 0xab; 0xc9; 0xff; 0xf6; 0x84; 0x1d; 0x2e; 0xa0; 0x13; 0x5a; 0x21; 0x72; 0xd3; 0xa7; 0x0b; 0xfc; 0x2b; 0x70; 0x22; 0x08; 0xcd; 0x4a; 0x43; 0xc6; 0x30; 0xbe; 0xb1; 0xb8; 0xa0; 0x32; 0x8b]);
  (60000000, [0x63; 0x90; 0xe1; 0xdb; 0x81; 0xb0; 0xea; 0x5c; 0xe2; 0x73; 0x94; 0x14; 0xe5; 0x2b; 0x07; 0x98; 0xd8; 0x2e; 0xb8; 0xe9; 0xae; 0xc5; 0x6d; 0xfe; 0x7e; 0x2c; 0x64; 0x11; 0xab; 0x79; 0x41; 0x87]);
  (70000000, [0x7e; 0x51; 0xaf; 0xee; 0x5b; 0xc9; 0x71; 0x52; 0x9d; 0x64; 0x4d; 0xcd; 0x7f; 0x2a; 0x2a; 0xb0; 0x26; 0x69; 0xce; 0x2c; 0xb5; 0x07; 0xa6; 0x2d; 0xfc; 0x93; 0x17; 0x6c; 0xb6; 0xdf; 0x41; 0x38]);
  (80000000, [0xf3; 0x7b; 0x94; 0x6b; 0x8b; 0x24; 0x88; 0xeb; 0xee; 0x1c; 0x06; 0xc1; 0x27; 0xfb; 0xe5; 0xfa; 0x5e; 0xfd; 0x62; 0x36; 0x9d; 0xd5; 0xaa; 0xda; 0xed; 0xd8; 0x88; 0x50; 0x1d; 0x3b; 0x7e; 0x3b]);
  (90000000, [0x46; 0xcb; 0x76; 0x57; 0xf6; 0x1c; 0x83; 0x7c; 0xec; 0x80; 0x74; 0xbb; 0xb0; 0xf5; 0x2e; 0x7f; 0xc5; 0x9a; 0x0d; 0x94; 0xe0; 0x17; 0x00; 0x9a; 0xbe; 0x25; 0x65; 0x2e; 0x4a; 0xd2; 0xe5; 0x3d]);
  (100000000, [0x66; 0x7b; 0x8e; 0x6f; 0x6a; 0x4b; 0x91; 0x89; 0x76; 0xd9; 0x73; 0x5a; 0x43; 0x36; 0x7d; 0xc7; 0x59; 0x2c; 0x87; 0xd0; 0xa1; 0xf8; 0x15; 0xc6; 0xe8; 0x7d; 0xf1; 0x1a; 0x13; 0x50; 0x9f; 0xb2]);
  (200000000, [0x3b; 0xcb; 0x51; 0x48; 0x01; 0x64; 0x1b; 0x62; 0x55; 0x93; 0x8c; 0xc5; 0x03; 0x76; 0x2d; 0x35; 0xce; 0x06; 0xd7; 0x5f; 0xe9; 0x50; 0x95; 0x9a; 0x1a; 0xab; 0x21; 0x4b; 0x50; 0x9b; 0x10; 0x0b]);
  (300000000, [0xa5; 0x92; 0x6f; 0x03; 0x1e; 0x6b; 0x15; 0xeb; 0x86; 0x23; 0x51; 0x08; 0xab; 0xb1; 0xaf; 0x90; 0xc5; 0xb1; 0x62; 0xc3; 0x99; 0x8c; 0x8b; 0xbb; 0x3f; 0xfb; 0xb0; 0x72; 0x9d; 0xa9; 0x45; 0x7b]);
  (400000000, [0xfe; 0x35; 0xb6; 0x99; 0x44; 0x41; 0x0e; 0xaf; 0x81; 0x5b; 0xdc; 0xd0; 0xa4; 0xd7; 0x1e; 0xf9; 0xfc; 0x66; 0x86; 0x48; 0xad; 0x43; 0x74; 0x3b; 0x03; 0x5a; 0xed; 0x2c; 0x17; 0xc1; 0x38; 0x7a]);
  (500000000, [0x22; 0x22; 0xd6; 0x70; 0xb8; 0x7d; 0x9b; 0x47; 0xb8; 0xb9; 0x5c; 0x8c; 0x39; 0x7b; 0xc5; 0x2e; 0x2b; 0x46; 0xa6; 0x48; 0xb0; 0x02; 0xa0; 0x48; 0x5a; 0x37; 0x5c; 0xd8; 0x1f; 0x4a; 0x54; 0x5f]);
  (600000000, [0xd3; 0x23; 0x8a; 0x4a; 0x8b; 0x71; 0xab; 0x46; 0xd1; 0x53; 0x04; 0xac; 0xfa; 0x2f; 0x40; 0xbf; 0x5e; 0xa6; 0x3b; 0x3d; 0x86; 0x4a; 0x79; 0xfa; 0x84; 0x25; 0xd2; 0x65; 0x5a; 0xe7; 0x07; 0x6f]);
  (700000000, [0xa8; 0xff; 0x28; 0x3f; 0xcf; 0xf0; 0x53; 0xd3; 0x44; 0xc8; 0xf7; 0x56; 0x4f; 0x40; 0x24; 0xb6; 0x6b; 0xfa; 0x45; 0x9f; 0x47; 0x6f; 0x0d; 0x73; 0x0c; 0x91; 0x39; 0x90; 0x8b; 0x2d; 0x64; 0x7e]);
  (800000000, [0xf2; 0xda; 0xf8; 0x88; 0xc4; 0x46; 0x57; 0x01; 0xc0; 0xe6; 0x1e; 0x12; 0xc3; 0xfb; 0xd4; 0xea; 0x79; 0xc7; 0xec; 0xb4; 0xf0; 0xc4; 0xb1; 0x54; 0xc5; 0x1a; 0x24; 0xd1; 0xe9; 0x21; 0x28; 0xba]);
  (900000000, [0x11; 0x6a; 0xe5; 0xd2; 0x9c; 0xec; 0x72; 0xaa; 0xc5; 0x57; 0xcb; 0x14; 0xe2; 0xcd; 0xd5; 0x53; 0xe5; 0x88; 0xff; 0x8b; 0x81; 0x78; 0x26; 0x01; 0x99; 0xc4; 0x0c; 0xae; 0xa2; 0x12; 0xcb; 0x63]);
  (1000000000, [0x8c; 0xe6; 0x48; 0x33; 0xce; 0xc9; 0x00; 0xcb; 0x6d; 0x5a; 0xc4; 0x6f; 0xc0; 0x23; 0x7d; 0x8f; 0x24; 0x39; 0xc3; 0xdf; 0xa2; 0x38; 0xba; 0xf9; 0xcc; 0x94; 0x16; 0x6a; 0xd2; 0xe8; 0x98; 0x87]);
  (2000000000, [0x37; 0x8d; 0x3c; 0x5d; 0xbb; 0xa4; 0x82; 0x3d; 0x33; 0x12; 0xbb; 0x61; 0xfc; 0x06; 0x75; 0xa1; 0xbb; 0x39; 0x89; 0xf3; 0x97; 0x01; 0xeb; 0x0d; 0x5c; 0xe4; 0xde; 0x5b; 0x0d; 0x90; 0x74; 0x72]);
  (3000000000, [0x7f; 0xa2; 0xd0; 0xa5; 0x99; 0xe7; 0x97; 0x2e; 0x74; 0xcb; 0x75; 0xf9; 0x8a; 0xf4; 0x84; 0xfc; 0x85; 0x19; 0xcb; 0x7e; 0x25; 0xb9; 0x84; 0xa7; 0x6d; 0x8b; 0xc2; 0xba; 0x8d; 0xaf; 0xde; 0xd8]);
  (4000000000, [0xda; 0x3a; 0xcb; 0x00; 0xab; 0x2d; 0x8d; 0xcc; 0xac; 0xec; 0x8f; 0x77; 0x59; 0x21; 0xc4; 0x0e; 0x26; 0xb1; 0xff; 0xbe; 0xca; 0x9e; 0xb7; 0xe6; 0x57; 0x25; 0x6f; 0x59; 0x68; 0xf2; 0x34; 0x1c]);
  (5000000000, [0x34; 0x06; 0xd7; 0x9a; 0x50; 0xd8; 0x14; 0xa9; 0xcc; 0xed; 0x3b; 0x24; 0x04; 0xed; 0x3e; 0x1b; 0x8d; 0xa6; 0x21; 0x98; 0x8c; 0x43; 0xb1; 0x93; 0x69; 0x42; 0xf4; 0x94; 0x0a; 0xc5; 0xbf; 0x6a]);
  (6000000000, [0xf8; 0x3e; 0xe8; 0xc1; 0x62; 0xfc; 0x52; 0xa0; 0x08; 0x9f; 0x46; 0xe8; 0x29; 0xc2; 0xea; 0xf6; 0xa1; 0x9f; 0xd5; 0x96; 0xcd; 0x12; 0xb3; 0xe8; 0x19; 0xd5; 0x67; 0x69; 0x44; 0x0f; 0x7b; 0x4e]);
  (7000000000, [0x8c; 0x72; 0x7d; 0x24; 0x57; 0xf3; 0x4b; 0x2f; 0xdb; 0x6a; 0xdf; 0x69; 0x1a; 0xb3; 0x5f; 0xaa; 0xe4; 0xff; 0x23; 0x4c; 0x28; 0xb4; 0x4e; 0x9f; 0xd3; 0x71; 0x8e; 0xef; 0xec; 0x41; 0x75; 0x80]);
  (8000000000, [0x4a; 0x2e; 0x2f; 0x76; 0xe3; 0x5d; 0xcb; 0xa8; 0x97; 0xa3; 0xae; 0x72; 0xc4; 0x27; 0x0d; 0x9c; 0x13; 0x17; 0x14; 0xed; 0x19; 0x1b; 0x55; 0x5c; 0x5e; 0x01; 0xe4; 0x75; 0x7c; 0xba; 0xe7; 0x2c]);
  (9000000000, [0x3f; 0x9f; 0x0c; 0x04; 0xc0; 0xb9; 0xec; 0x9b; 0x4d; 0x11; 0x7c; 0x5f; 0xc9; 0xf1; 0x8a; 0x20; 0xf2; 0xb3; 0xfa; 0xcc; 0xa4; 0xc8; 0xae; 0x41; 0xaf; 0x7c; 0x08; 0xe9; 0xe0; 0xef; 0xb9; 0x81]);
  (10000000000, [0x97; 0xc9; 0x2a; 0x29; 0x01; 0x5e; 0xcb; 0x49; 0xf8; 0x09; 0x05; 0x45; 0xe0; 0x1f; 0xf9; 0x78; 0x6c; 0xae; 0x40; 0x57; 0x73; 0x47; 0x61; 0x18; 0x24; 0xf4; 0xb6; 0x59; 0x9f; 0xf5; 0xd3; 0x64]);
  (20000000000, [0x09; 0xba; 0xed; 0x9a; 0x3c; 0x44; 0xb2; 0x22; 0x85; 0xa0; 0xae; 0xa4; 0x14; 0x8c; 0xa7; 0xde; 0x9b; 0xea; 0x96; 0x3c; 0xf6; 0x96; 0x23; 0xb6; 0x83; 0x44; 0x5c; 0x0a; 0x10; 0xa5; 0x86; 0x77]);
  (30000000000, [0x45; 0xac; 0xaf; 0x1d; 0xe2; 0x89; 0x6d; 0xe8; 0x72; 0x84; 0xff; 0xed; 0x57; 0x8b; 0x77; 0x14; 0xf5; 0x18; 0xa6; 0x18; 0xe2; 0xae; 0x6f; 0x90; 0xae; 0x4f; 0x70; 0x13; 0xa2; 0x8e; 0x99; 0xe0]);
  (40000000000, [0x08; 0xb8; 0x47; 0x36; 0x42; 0x24; 0xe2; 0x9c; 0xe3; 0x36; 0x63; 0x93; 0xc2; 0xe1; 0x1e; 0xfc; 0x75; 0x55; 0xde; 0xe1; 0xa0; 0x5f; 0x91; 0xa7; 0x2e; 0x61; 0x11; 0x76; 0x84; 0xdd; 0xbe; 0x29]);
  (50000000000, [0x6c; 0x8e; 0x0e; 0x4a; 0x63; 0x4f; 0x85; 0x9a; 0x31; 0xab; 0x2f; 0x7a; 0x78; 0xc0; 0xc4; 0xa5; 0x93; 0x8c; 0xb7; 0x7f; 0x03; 0x35; 0x50; 0xa4; 0x7d; 0x7e; 0x31; 0x81; 0xb6; 0xb2; 0x6e; 0xc0]);
  (60000000000, [0x66; 0xc2; 0xa0; 0x09; 0x65; 0xf9; 0xbf; 0xcb; 0xb1; 0x1e; 0xa0; 0x3c; 0xf1; 0xd6; 0x31; 0xb0; 0x0e; 0x8a; 0x1e; 0xf7; 0xa6; 0x0b; 0x1b; 0xe4; 0xa5; 0xac; 0x09; 0x23; 0x0b; 0xf8; 0x17; 0x3f]);
  (70000000000, [0x63; 0x51; 0xd7; 0x74; 0xc0; 0x2c; 0x5a; 0x9d; 0xee; 0xcf; 0xdb; 0xab; 0x70; 0x96; 0x68; 0x59; 0x8c; 0x47; 0xe4; 0xb1; 0x78; 0x2c; 0xe5; 0xae; 0x31; 0x6a; 0xf7; 0x40; 0xa6; 0x6f; 0x7e; 0x30]);
  (80000000000, [0x5a; 0xcc; 0xfd; 0x16; 0x22; 0x79; 0xa5; 0x1c; 0x8b; 0x3b; 0xd5; 0xd3; 0x67; 0x9e; 0x91; 0x89; 0x67; 0xa2; 0x64; 0xea; 0x06; 0x3d; 0x37; 0xdf; 0xf5; 0xe3; 0x45; 0x7e; 0xc3; 0x07; 0xd4; 0x57]);
  (90000000000, [0xb7; 0x47; 0xfc; 0x01; 0xc6; 0xf0; 0xc7; 0x49; 0x67; 0x3a; 0x29; 0x10; 0x25; 0x0c; 0x2e; 0x23; 0xcb; 0x38; 0x27; 0x4d; 0x63; 0xb4; 0x2f; 0x52; 0x1b; 0x84; 0x63; 0x56; 0xe4; 0x13; 0x61; 0x8f]);
  (100000000000, [0x09; 0x42; 0x84; 0x3d; 0x6f; 0x69; 0xe1; 0xcf; 0x3d; 0x99; 0xc9; 0x9f; 0x0c; 0x97; 0xc0; 0xe6; 0xe5; 0x78; 0x93; 0x5a; 0xf6; 0xa8; 0xbd; 0xb8; 0xf8; 0x1d; 0x5b; 0x90; 0xbd; 0xe7; 0xcc; 0x10]);
  (200000000000, [0x56; 0x4c; 0x64; 0xea; 0x50; 0xe4; 0xbd; 0x20; 0xdb; 0x58; 0x5d; 0xb5; 0x87; 0xb1; 0xf7; 0x64; 0xa2; 0x62; 0xd8; 0x46; 0xa6; 0xb0; 0xa2; 0x4b; 0x43; 0x27; 0x60; 0xd2; 0xf9; 0xde; 0x66; 0x5b]);
  (300000000000, [0xac; 0x65; 0x83; 0x41; 0x5b; 0xd6; 0x4c; 0x03; 0x35; 0x97; 0xf9; 0x28; 0xa4; 0xb5; 0xd4; 0xf4; 0x78; 0x9e; 0xa8; 0xb2; 0x87; 0x82; 0x73; 0x89; 0xa8; 0x1e; 0xb6; 0x62; 0x9e; 0xc5; 0xb8; 0x50]);
  (400000000000, [0x52; 0xf4; 0x9d; 0x89; 0xcf; 0x74; 0x13; 0x2f; 0xc7; 0x43; 0x2e; 0x6a; 0x6b; 0xef; 0xcf; 0xf3; 0xfd; 0x13; 0xd6; 0x3b; 0x51; 0x60; 0xab; 0x1c; 0xe6; 0x4a; 0xb0; 0xd1; 0x21; 0xcd; 0xa9; 0x9a]);
  (500000000000, [0xe9; 0xaa; 0x7c; 0x81; 0xcd; 0xb5; 0xb3; 0x14; 0x8f; 0xb7; 0x62; 0x80; 0x63; 0xcd; 0x7a; 0x07; 0xd1; 0xad; 0xd1; 0x64; 0x3c; 0xed; 0xd3; 0xfa; 0x34; 0x47; 0x9d; 0x85; 0x9c; 0xc5; 0x62; 0x65]);
  (600000000000, [0x98; 0x27; 0xae; 0x31; 0xe5; 0xc2; 0xa7; 0x78; 0x39; 0xf6; 0x0b; 0x83; 0xab; 0x45; 0x78; 0xe2; 0xa0; 0x1e; 0xfa; 0x4b; 0x3b; 0x14; 0xcc; 0x72; 0x73; 0x14; 0xff; 0xd7; 0x15; 0x53; 0x63; 0xbf]);
  (700000000000, [0x72; 0x91; 0x6a; 0x79; 0x27; 0xff; 0x13; 0x24; 0xd4; 0x98; 0x40; 0xec; 0xc0; 0x98; 0x68; 0xb8; 0xf3; 0x15; 0xe4; 0xf1; 0xf6; 0xd4; 0x45; 0x8d; 0x37; 0x5e; 0xc7; 0x45; 0xfc; 0x2e; 0x63; 0x53]);
  (800000000000, [0x66; 0x76; 0xe0; 0x04; 0x0f; 0xa4; 0xb8; 0x22; 0x9c; 0x61; 0x69; 0x0c; 0x71; 0x32; 0x22; 0xcf; 0x3d; 0x37; 0xb9; 0x49; 0x3b; 0x49; 0x06; 0x80; 0xbb; 0x48; 0xd8; 0xd5; 0x1a; 0xde; 0x95; 0xf2]);
  (900000000000, [0x41; 0x54; 0xb3; 0x46; 0x5a; 0x43; 0x72; 0x67; 0x1e; 0xa9; 0xe0; 0x64; 0xa7; 0xca; 0xa6; 0x6e; 0x14; 0xb4; 0x98; 0x6a; 0x46; 0x68; 0x91; 0x8a; 0xfa; 0x57; 0x9b; 0xf1; 0xed; 0x25; 0x06; 0xdd]);
  (1000000000000, [0xbb; 0x6f; 0x70; 0x62; 0xca; 0x30; 0x6d; 0x67; 0x2a; 0x73; 0x0e; 0x2a; 0x2f; 0x21; 0x9b; 0xdb; 0xe4; 0x0c; 0x9f; 0xb3; 0xfe; 0x4d; 0x60; 0x13; 0x69; 0x2a; 0xf9; 0x3c; 0xdb; 0x2e; 0x0c; 0xd1]);
  (2000000000000, [0xbc; 0x0e; 0xae; 0x5b; 0x9c; 0x6a; 0xd6; 0x38; 0x7a; 0x41; 0x19; 0x3c; 0x46; 0xf3; 0xc1; 0xd0; 0x71; 0x6d; 0x77; 0xd6; 0x4e; 0x22; 0xb2; 0xe0; 0x7b; 0x4b; 0xce; 0x75; 0x67; 0x65; 0xa2; 0x0b]);
  (3000000000000, [0x10; 0x0c; 0x6f; 0x13; 0x42; 0xb7; 0x1b; 0x73; 0xed; 0xdd; 0xc5; 0x49; 0x2b; 0xe9; 0x23; 0x18; 0x2f; 0x00; 0xa6; 0x83; 0x48; 0x8e; 0xc3; 0xa2; 0xa1; 0xc7; 0xa9; 0x49; 0xcb; 0xe5; 0x77; 0x68]);
  (4000000000000, [0x41; 0x9f; 0x7c; 0x94; 0x91; 0x04; 0x34; 0x0f; 0xd3; 0xce; 0x85; 0x94; 0x8d; 0x2e; 0xf9; 0xf0; 0xdd; 0x4b; 0xb3; 0xd9; 0x2f; 0x5a; 0x78; 0x2c; 0x5f; 0x78; 0x04; 0xb7; 0x52; 0x9a; 0x13; 0xc6]);
  (5000000000000, [0x40; 0x65; 0x34; 0x98; 0xbe; 0xa0; 0x22; 0xe3; 0x36; 0x5a; 0x03; 0xe5; 0x75; 0x25; 0xba; 0x65; 0x96; 0x53; 0x76; 0x24; 0x4f; 0xff; 0x10; 0x73; 0x0e; 0xd9; 0x7a; 0x73; 0xb7; 0x53; 0x01; 0x91]);
  (6000000000000, [0xdb; 0x1c; 0x7c; 0xf6; 0x08; 0x91; 0xf9; 0x65; 0xeb; 0xa9; 0xc6; 0x02; 0x24; 0x00; 0x63; 0x0e; 0x00; 0x47; 0x95; 0x34; 0xe6; 0xf5; 0xb5; 0x33; 0xdc; 0xfc; 0x83; 0x19; 0x38; 0x52; 0x2c; 0x78]);
  (7000000000000, [0x59; 0xa0; 0x3a; 0x31; 0x53; 0xa9; 0x94; 0xd7; 0x23; 0x27; 0xe4; 0xd9; 0x24; 0x21; 0xd3; 0xe3; 0x29; 0x1b; 0x1f; 0xa1; 0xb2; 0x40; 0xde; 0x44; 0xb9; 0x2d; 0x7f; 0x62; 0xec; 0x01; 0x28; 0xf1]);
  (8000000000000, [0xb2; 0x80; 0xb9; 0x3b; 0x1e; 0x43; 0x88; 0x00; 0x73; 0xea; 0x4a; 0xa0; 0xef; 0x11; 0x04; 0xf8; 0x24; 0xbd; 0x12; 0x7a; 0x4a; 0x3d; 0xa2; 0x13; 0x92; 0x65; 0x0f; 0xe8; 0xc6; 0x55; 0xb6; 0xc5]);
  (9000000000000, [0xda; 0xf0; 0xd3; 0xe9; 0x32; 0x17; 0xd8; 0xe9; 0x5a; 0xbf; 0xdd; 0xf1; 0x3b; 0x7f; 0xd4; 0x8e; 0x34; 0x47; 0xad; 0x09; 0x23; 0x26; 0xb8; 0x99; 0xed; 0x58; 0x1f; 0xd5; 0xf8; 0x06; 0xc5; 0x06]);
  (10000000000000, [0x16; 0x3d; 0xd6; 0x82; 0xec; 0x97; 0x7c; 0xdd; 0xa5; 0x95; 0x31; 0xda; 0x3f; 0xfa; 0x72; 0x99; 0x8a; 0x6f; 0x88; 0x37; 0xab; 0xad; 0xc6; 0x36; 0xaa; 0xed; 0xc8; 0xbe; 0x19; 0xb2; 0xd7; 0xc7]);
  (20000000000000, [0x02; 0xfa; 0x35; 0x3a; 0xa8; 0x4e; 0xa8; 0xc4; 0x4c; 0x80; 0x23; 0x06; 0x5d; 0x79; 0x41; 0x60; 0x6b; 0x1f; 0xa5; 0xc2; 0x64; 0xdc; 0xcf; 0x46; 0xdc; 0x64; 0x94; 0xeb; 0xe9; 0x60; 0x6f; 0x20]);
  (30000000000000, [0x87; 0x05; 0x0d; 0xab; 0xf5; 0xb2; 0x3e; 0x8b; 0x79; 0x81; 0x3f; 0x4e; 0xd7; 0x6a; 0xa4; 0xad; 0xd2; 0x25; 0xdd; 0x2a; 0x50; 0x89; 0xaf; 0x06; 0x7d; 0xa7; 0x7c; 0xcb; 0x6e; 0xc5; 0x59; 0x46]);
  (40000000000000, [0xaa; 0xe6; 0xb2; 0xc8; 0xa2; 0x9e; 0x4d; 0xbc; 0x63; 0x76; 0xc1; 0x72; 0x05; 0xfb; 0x02; 0x85; 0xe7; 0xd7; 0xd3; 0x25; 0x32; 0x3c; 0xd5; 0x26; 0x0f; 0x98; 0xad; 0xff; 0xf7; 0xd4; 0xd4; 0xfb]);
  (50000000000000, [0x9d; 0x79; 0x28; 0x82; 0x12; 0xa1; 0xe2; 0x3c; 0x09; 0x9f; 0xb2; 0xd8; 0xf0; 0xd0; 0xdb; 0xd3; 0xc2; 0xec; 0xd7; 0x58; 0xb9; 0xe6; 0xb5; 0xb4; 0xf2; 0x90; 0x60; 0x07; 0x9f; 0x19; 0x66; 0x9f]);
  (60000000000000, [0x18; 0x90; 0x10; 0x6f; 0x1b; 0x97; 0xbc; 0x2d; 0x0a; 0xe3; 0x96; 0xe5; 0xe5; 0x5e; 0xbf; 0xcc; 0x8e; 0xf6; 0x91; 0x7f; 0xb1; 0x96; 0xcb; 0x2b; 0x1e; 0x80; 0x25; 0x5d; 0x54; 0xb6; 0x87; 0x10]);
  (70000000000000, [0x57; 0xd3; 0x4e; 0xf7; 0x54; 0x3b; 0xe4; 0x7b; 0x7b; 0xf4; 0x97; 0xce; 0x4a; 0x17; 0x6e; 0x78; 0xc6; 0xd6; 0x5c; 0xd3; 0x27; 0xf6; 0x4b; 0xa7; 0x5c; 0x27; 0xd1; 0x57; 0xb3; 0x37; 0x12; 0x5d]);
  (80000000000000, [0x5e; 0xcb; 0x10; 0x15; 0x4b; 0x96; 0xca; 0xb5; 0x5e; 0x09; 0x46; 0x83; 0xf8; 0xdb; 0xff; 0x7f; 0x56; 0x63; 0x5f; 0xa6; 0x64; 0x97; 0xee; 0x9e; 0x24; 0x0e; 0x83; 0x63; 0x7c; 0x7c; 0x87; 0x72]);
  (90000000000000, [0x42; 0x32; 0x69; 0x98; 0x51; 0x30; 0xf1; 0x66; 0x51; 0x6a; 0x5b; 0xa8; 0x61; 0x09; 0x6d; 0x72; 0xec; 0xcc; 0x67; 0xad; 0xab; 0xa4; 0x5e; 0xb3; 0x73; 0x9a; 0x0e; 0xbc; 0x61; 0xa3; 0x20; 0xae]);
  (100000000000000, [0xa8; 0xd1; 0x60; 0x95; 0x91; 0x49; 0x8f; 0xa7; 0xc2; 0x94; 0x27; 0xad; 0x89; 0x31; 0xaf; 0x36; 0xc5; 0x2d; 0xc9; 0x7b; 0x4a; 0x11; 0xe7; 0x47; 0xa9; 0x56; 0xc2; 0x8c; 0x42; 0x54; 0xcf; 0xd4]);
  (200000000000000, [0x23; 0x14; 0x49; 0x00; 0xa8; 0x66; 0xe8; 0xc1; 0xbf; 0x40; 0x98; 0xda; 0xa9; 0x48; 0xb9; 0x86; 0xf3; 0x84; 0x0e; 0x5a; 0x7d; 0x21; 0x5e; 0xf0; 0xd5; 0x64; 0xef; 0xd8; 0xbe; 0xc6; 0x83; 0x15]);
  (300000000000000, [0x6a; 0x51; 0x47; 0x3c; 0x86; 0xed; 0xad; 0x53; 0x51; 0x4b; 0x3f; 0x95; 0x97; 0xed; 0x21; 0xae; 0x00; 0x81; 0x51; 0xa0; 0x9e; 0x43; 0xad; 0xdd; 0x45; 0xd1; 0x74; 0x63; 0xc5; 0x34; 0x03; 0x97]);
  (400000000000000, [0x08; 0xbd; 0xd4; 0xc3; 0xe4; 0x53; 0x1b; 0x29; 0x7a; 0x70; 0x00; 0x1e; 0xb8; 0xa4; 0xf1; 0x98; 0xdc; 0x3b; 0xd4; 0xf1; 0xf5; 0x60; 0x9a; 0xda; 0x98; 0xf6; 0xd9; 0x5f; 0x9a; 0x1a; 0x30; 0x2e]);
  (500000000000000, [0x97; 0x55; 0x70; 0xea; 0x12; 0xde; 0x5a; 0xf5; 0xc5; 0x36; 0xbd; 0xb6; 0x83; 0x54; 0xfb; 0xc8; 0x32; 0x21; 0x50; 0xfc; 0x56; 0x83; 0x7c; 0x4b; 0x78; 0xa9; 0x85; 0x76; 0x5d; 0x2a; 0x70; 0x99]);
  (600000000000000, [0xa7; 0xa6; 0x39; 0x93; 0x41; 0xcb; 0x4d; 0x67; 0x76; 0xcd; 0x94; 0x0d; 0x1d; 0x6a; 0xb0; 0xac; 0x0a; 0xbf; 0x56; 0x93; 0x6a; 0x35; 0x31; 0xdf; 0xe9; 0x6c; 0x23; 0x69; 0x97; 0x8e; 0x49; 0xfa]);
  (700000000000000, [0x55; 0x09; 0x3e; 0x5e; 0xeb; 0xca; 0x03; 0x88; 0x48; 0xdc; 0x99; 0x7e; 0x31; 0x95; 0xec; 0xc5; 0x8f; 0xb4; 0xa5; 0x71; 0xb9; 0x52; 0x56; 0xc0; 0xff; 0x49; 0xbe; 0xd0; 0xf1; 0x65; 0x22; 0xbd]);
  (800000000000000, [0xbb; 0xc6; 0x18; 0x02; 0x24; 0xaf; 0xd3; 0x38; 0xa6; 0xf4; 0xa0; 0x6b; 0x11; 0x98; 0x40; 0x68; 0xeb; 0x36; 0x35; 0xe7; 0xe5; 0x47; 0x66; 0x69; 0x78; 0x83; 0xaf; 0xbd; 0xce; 0xad; 0x2f; 0x31]);
  (900000000000000, [0x61; 0x3a; 0xa1; 0x2c; 0xc0; 0xa1; 0x9b; 0xc8; 0x43; 0x63; 0x50; 0xbb; 0xc0; 0xf6; 0x16; 0x32; 0x6e; 0x64; 0x85; 0x83; 0x33; 0x4a; 0x32; 0x65; 0x16; 0x29; 0xe9; 0x05; 0xc5; 0x20; 0x62; 0x69]);
  (1000000000000000, [0x52; 0xdd; 0xf8; 0x81; 0x13; 0xa0; 0xfc; 0xf2; 0x12; 0x90; 0x95; 0xc6; 0x18; 0x91; 0xbe; 0x88; 0x5c; 0x09; 0x30; 0x08; 0xeb; 0xc4; 0x65; 0x0c; 0xb0; 0xee; 0xa5; 0x60; 0xcd; 0x4d; 0x75; 0x1b]);
  (2000000000000000, [0x75; 0xbd; 0xfc; 0x35; 0xa6; 0xdf; 0x76; 0xe5; 0x98; 0x8e; 0xd9; 0xe3; 0x10; 0xa5; 0x89; 0x16; 0xae; 0xf0; 0xc5; 0xf0; 0x5b; 0x89; 0x22; 0xea; 0xae; 0x2c; 0xf9; 0x8f; 0x58; 0x42; 0x3c; 0xe3]);
  (3000000000000000, [0x88; 0x98; 0x93; 0xe8; 0x7d; 0x56; 0x9f; 0x14; 0xb2; 0x48; 0xd1; 0xed; 0x93; 0xe8; 0xce; 0x60; 0xbb; 0xe3; 0x73; 0x69; 0xb0; 0xd6; 0xc7; 0xa1; 0x86; 0x89; 0x33; 0xd3; 0xc3; 0xda; 0x9a; 0x72]);
  (4000000000000000, [0x88; 0x3e; 0xf3; 0x4b; 0xa2; 0xc1; 0x91; 0xf4; 0x9d; 0x3c; 0xc6; 0xad; 0xa0; 0xaf; 0xf1; 0xcf; 0xb1; 0x77; 0xbd; 0x9e; 0xd4; 0xb3; 0xa5; 0x37; 0x84; 0xb7; 0xf1; 0x62; 0x9b; 0xed; 0x17; 0x41]);
  (5000000000000000, [0xa2; 0x90; 0x7c; 0x39; 0x84; 0xb1; 0x4a; 0xb1; 0xf4; 0xda; 0x58; 0xc2; 0xc8; 0x2d; 0x6b; 0x24; 0xf1; 0x29; 0x49; 0x09; 0x75; 0xfc; 0x4a; 0x33; 0x3d; 0x25; 0xa1; 0xf9; 0x2b; 0xc4; 0x32; 0xb6]);
  (6000000000000000, [0xa0; 0x7d; 0x9f; 0x18; 0x95; 0x1f; 0xf2; 0x32; 0xcf; 0x4e; 0xc0; 0xee; 0x2f; 0xbc; 0xc3; 0xe1; 0x1b; 0x2c; 0xaf; 0xc9; 0x57; 0x65; 0x82; 0x10; 0x38; 0x1e; 0x3e; 0xe4; 0xed; 0xec; 0x2e; 0x7a]);
  (7000000000000000, [0x66; 0x80; 0x21; 0xd5; 0xde; 0x8c; 0xa4; 0xc1; 0x8f; 0x5a; 0x74; 0xf2; 0x78; 0x69; 0xc4; 0xd6; 0xd4; 0x93; 0xa3; 0x30; 0x39; 0x3c; 0xf0; 0x26; 0x41; 0xff; 0xa8; 0x56; 0x7b; 0xa5; 0x36; 0x20]);
  (8000000000000000, [0xe0; 0x48; 0x7a; 0xc4; 0x5a; 0x82; 0x59; 0xe3; 0xe5; 0xf2; 0xd9; 0xb8; 0xf6; 0xb8; 0xfa; 0x26; 0x9a; 0x63; 0x49; 0x71; 0xa2; 0xf7; 0xc2; 0x1a; 0x54; 0x17; 0x76; 0x81; 0xeb; 0x02; 0xbd; 0x4a]);
  (9000000000000000, [0x98; 0x92; 0x6a; 0x3a; 0xf0; 0x5b; 0xf4; 0xa9; 0x8d; 0xf9; 0xf6; 0x4a; 0xe7; 0xb9; 0xda; 0x45; 0xa7; 0x06; 0xc3; 0xf8; 0x39; 0x5e; 0x47; 0x1f; 0x96; 0xed; 0x3c; 0x06; 0x06; 0xbe; 0xbb; 0x71]);
  (10000000000000000, [0x80; 0xad; 0xb7; 0x0d; 0x46; 0xf6; 0x3a; 0x75; 0x64; 0xa3; 0xf6; 0x71; 0xd9; 0xba; 0x95; 0x71; 0xb7; 0xf7; 0x95; 0xa9; 0x63; 0x38; 0x2a; 0x4d; 0x9f; 0xaf; 0x2d; 0x54; 0xf6; 0xc6; 0x84; 0x29]);
  (20000000000000000, [0xae; 0xbd; 0x97; 0x42; 0x1f; 0x3f; 0xca; 0xe8; 0x95; 0x18; 0x60; 0xe6; 0xd9; 0xd1; 0xf3; 0xec; 0x59; 0x73; 0xa2; 0xf7; 0x66; 0x88; 0x4b; 0xfe; 0x17; 0x50; 0x79; 0x51; 0xe4; 0x62; 0xc6; 0x63]);
  (30000000000000000, [0x61; 0x02; 0x6c; 0x84; 0x2a; 0x6a; 0x22; 0x25; 0x74; 0x6b; 0x19; 0x6b; 0x56; 0x89; 0xe1; 0x18; 0xf5; 0x41; 0x34; 0x15; 0x98; 0x1d; 0x07; 0x73; 0x62; 0xb2; 0xe7; 0xb9; 0xac; 0xa5; 0x28; 0x16]);
  (40000000000000000, [0x52; 0x54; 0xb5; 0x78; 0xe8; 0x57; 0x9a; 0x27; 0x3b; 0x89; 0x8e; 0x65; 0x9d; 0xd3; 0xe1; 0xa1; 0xcf; 0xba; 0x12; 0x47; 0x26; 0x64; 0xbd; 0x4e; 0x7f; 0x9a; 0x13; 0xb1; 0xfc; 0xee; 0x02; 0x93]);
  (50000000000000000, [0x7b; 0x2a; 0x0b; 0x00; 0xcf; 0xdc; 0xa9; 0x51; 0x46; 0xcf; 0x80; 0x95; 0xdd; 0x2b; 0x82; 0x90; 0x91; 0xb0; 0xf2; 0xd5; 0xbb; 0x0c; 0x33; 0x82; 0x2d; 0x8b; 0x43; 0x42; 0x69; 0xcd; 0x2a; 0x42]);
  (60000000000000000, [0x21; 0x57; 0x4f; 0xed; 0x15; 0x1a; 0x2f; 0x9f; 0x64; 0xa4; 0x5b; 0xe2; 0x8a; 0x3a; 0xf5; 0x88; 0xe9; 0xf2; 0xd1; 0x71; 0x35; 0xa3; 0x53; 0x7f; 0x07; 0xfd; 0x6a; 0xef; 0xa2; 0x9f; 0x02; 0xaf]);
  (70000000000000000, [0x1a; 0xf2; 0x41; 0xe1; 0x38; 0x27; 0x98; 0x29; 0xac; 0x6a; 0xe6; 0x2f; 0x0f; 0x33; 0x20; 0x4b; 0xb2; 0x8a; 0xfd; 0x06; 0x5c; 0x42; 0x59; 0x3b; 0xdc; 0x79; 0x14; 0x85; 0x97; 0x5b; 0x26; 0x95]);
  (80000000000000000, [0xa8; 0xc8; 0xb8; 0x7b; 0x51; 0x2d; 0xef; 0x9b; 0x5e; 0x50; 0x0e; 0xb4; 0x98; 0xaf; 0x86; 0xaa; 0xd2; 0x46; 0x4a; 0xea; 0xe7; 0x6d; 0xb1; 0xf6; 0x5d; 0x23; 0x26; 0xce; 0x90; 0x26; 0xec; 0x69]);
  (90000000000000000, [0x3d; 0x78; 0x73; 0x63; 0x95; 0xf1; 0xd7; 0xde; 0x8e; 0x16; 0xc0; 0xb5; 0xa9; 0x9f; 0x4d; 0xc4; 0xeb; 0x8f; 0x22; 0xac; 0xc1; 0x5b; 0x21; 0x42; 0x44; 0x1d; 0xbd; 0x8d; 0x2c; 0x31; 0xb9; 0xce]);
  (100000000000000000, [0x27; 0x27; 0xd4; 0x93; 0x2f; 0x98; 0x39; 0xe4; 0x3b; 0x6b; 0xf5; 0xfb; 0x29; 0xa3; 0xbe; 0x4c; 0x09; 0x0b; 0x6e; 0xb9; 0x31; 0x00; 0xbb; 0x92; 0x58; 0x1a; 0xdb; 0x8d; 0xd2; 0xb6; 0x61; 0x54]);
  (200000000000000000, [0xae; 0x96; 0x78; 0x2e; 0xf2; 0xc4; 0xdf; 0x7d; 0x2e; 0x04; 0xcc; 0xf9; 0xef; 0x76; 0x23; 0x7f; 0x17; 0x0c; 0x97; 0x03; 0xb4; 0x92; 0xc0; 0x78; 0x52; 0x6e; 0xb1; 0xf6; 0x85; 0x3d; 0xb1; 0x33]);
  (300000000000000000, [0x17; 0x43; 0xfe; 0xab; 0x12; 0xad; 0xe5; 0xfe; 0x12; 0x53; 0x22; 0x27; 0x2f; 0xd1; 0x40; 0x6b; 0x74; 0xe8; 0x19; 0x70; 0x32; 0x68; 0x46; 0x22; 0xee; 0x79; 0xab; 0xcd; 0x94; 0x93; 0x66; 0x4c]);
  (400000000000000000, [0x07; 0x9b; 0xf2; 0xa9; 0x6e; 0x16; 0x6e; 0xf9; 0xe6; 0xb2; 0x23; 0x1d; 0xb9; 0x85; 0x8b; 0x99; 0x98; 0x7f; 0x49; 0x33; 0x87; 0xde; 0xeb; 0xd5; 0x17; 0x48; 0x54; 0x9a; 0x0d; 0xf7; 0xdc; 0x44]);
  (500000000000000000, [0xca; 0xba; 0x97; 0x98; 0x51; 0x6d; 0xad; 0x03; 0x38; 0xd0; 0x6e; 0x10; 0x6d; 0x76; 0xa2; 0x01; 0x93; 0x7a; 0xce; 0x4c; 0x91; 0x53; 0x9e; 0x61; 0x7d; 0x89; 0x28; 0x73; 0x06; 0xa3; 0x92; 0xb1]);
  (600000000000000000, [0x6b; 0x08; 0x7f; 0x48; 0xb3; 0xd7; 0xaa; 0xc9; 0x57; 0xc4; 0x52; 0xe5; 0x1a; 0x18; 0xd7; 0x26; 0x0b; 0xf8; 0xc8; 0x56; 0xc4; 0xc7; 0x1e; 0x48; 0xf6; 0x49; 0xae; 0x00; 0x4a; 0xf6; 0x8f; 0x13]);
  (700000000000000000, [0x9e; 0xed; 0x8b; 0x23; 0x1f; 0x79; 0x4c; 0x46; 0x5c; 0xbe; 0x88; 0x40; 0xd0; 0xf1; 0x6f; 0x7b; 0x9f; 0x9c; 0x6e; 0xb4; 0x9c; 0x20; 0x7d; 0xe9; 0xd8; 0x55; 0x11; 0x83; 0xd0; 0xc7; 0x6e; 0x43]);
  (800000000000000000, [0x58; 0x4a; 0x78; 0x93; 0x13; 0x7e; 0xbd; 0x02; 0x8b; 0xa7; 0x59; 0x82; 0xc3; 0x39; 0xb7; 0x66; 0xaa; 0xda; 0xad; 0xf9; 0x14; 0x50; 0xf9; 0x40; 0x7d; 0x2a; 0x97; 0xd7; 0xf6; 0xb1; 0x93; 0x5e]);
  (900000000000000000, [0x07; 0xce; 0x54; 0xb1; 0x18; 0x26; 0xa1; 0x75; 0x23; 0x13; 0x55; 0x1a; 0x00; 0x20; 0xfd; 0x79; 0x8a; 0x00; 0x9e; 0x20; 0xcd; 0xb2; 0x40; 0x1d; 0x52; 0x51; 0xc1; 0x55; 0x8e; 0xea; 0xd2; 0x6c]);
  (1000000000000000000, [0x39; 0x80; 0x7f; 0x3d; 0xce; 0xb0; 0xa6; 0xfe; 0x34; 0xa7; 0xa1; 0xed; 0xc6; 0x9b; 0x78; 0xff; 0xbe; 0xd5; 0xa7; 0x8c; 0x6c; 0x87; 0x5d; 0xda; 0x96; 0x69; 0xdb; 0xb2; 0x95; 0x70; 0xf0; 0xf4]);
  (2000000000000000000, [0xda; 0x74; 0x00; 0x86; 0xf1; 0x5c; 0xe8; 0x21; 0xe9; 0x0d; 0x50; 0xaf; 0xcf; 0x80; 0x9c; 0x7e; 0x18; 0x51; 0x90; 0x1b; 0xa3; 0x5f; 0x9f; 0x63; 0x78; 0xd6; 0x40; 0x7c; 0xb9; 0xc7; 0xa2; 0x75]);
  (3000000000000000000, [0x07; 0xa1; 0x75; 0x63; 0xae; 0xf5; 0xcf; 0xd0; 0x36; 0xfa; 0x64; 0xd4; 0xb1; 0x97; 0xa9; 0x51; 0xc0; 0xd2; 0x87; 0x2b; 0x0d; 0xb6; 0xf9; 0xbe; 0x47; 0xe6; 0x7c; 0xa6; 0xb5; 0x35; 0xe2; 0x6e]);
  (4000000000000000000, [0xe3; 0x49; 0xf7; 0xeb; 0xe5; 0x11; 0x39; 0xfe; 0xd5; 0x69; 0x40; 0x37; 0xd1; 0x14; 0xb7; 0xbd; 0x45; 0xdd; 0x0a; 0x6a; 0xf0; 0x4b; 0x62; 0xec; 0xa4; 0xd8; 0xcd; 0x55; 0x2a; 0x14; 0xe3; 0xfb]);
  (5000000000000000000, [0x8d; 0x59; 0x7e; 0xa9; 0xf5; 0x79; 0x9a; 0x4d; 0x15; 0x3d; 0x82; 0xd6; 0xf7; 0xbe; 0xa0; 0x2e; 0x52; 0x40; 0xa2; 0xc8; 0x9b; 0x04; 0x1e; 0x06; 0x2f; 0x37; 0xbc; 0x7b; 0x82; 0xa0; 0xac; 0x55]);
  (6000000000000000000, [0xa3; 0x43; 0xa7; 0xe1; 0x14; 0x4d; 0x33; 0x50; 0x0f; 0x3e; 0xfd; 0x38; 0x15; 0x82; 0xdd; 0xc5; 0xd0; 0x18; 0x3e; 0x5d; 0xcf; 0x8a; 0xfa; 0x64; 0xbb; 0x67; 0x6c; 0x97; 0x3e; 0x3d; 0x1a; 0xb1]);
  (7000000000000000000, [0x89; 0xe9; 0x3e; 0xe9; 0xf2; 0x4d; 0x72; 0x61; 0xe5; 0x44; 0xca; 0x8f; 0x09; 0xa7; 0x40; 0x4e; 0xe3; 0xa9; 0x0e; 0xe2; 0x50; 0x7d; 0xda; 0xcf; 0x41; 0x2a; 0x58; 0x0c; 0x09; 0x65; 0x1c; 0x53]);
  (8000000000000000000, [0xc5; 0x94; 0x10; 0x81; 0x54; 0x69; 0xf4; 0x59; 0xd1; 0x5a; 0x6f; 0xe3; 0xf2; 0xa1; 0x1b; 0xa6; 0x31; 0x12; 0xfa; 0xaa; 0xc5; 0x3d; 0xbc; 0x52; 0x5d; 0x3c; 0xfa; 0xb1; 0xfa; 0x9c; 0x3d; 0xdb]);
  (9000000000000000000, [0x9d; 0xe7; 0xcb; 0x0b; 0x8d; 0x7b; 0xac; 0x47; 0xff; 0xd3; 0x93; 0x1b; 0xcd; 0x82; 0xcd; 0xd5; 0x35; 0x0c; 0x29; 0x34; 0xb1; 0x6e; 0x0b; 0x64; 0x32; 0xab; 0xf7; 0xcb; 0x4b; 0x5c; 0x37; 0x6d]);
  (10000000000000000000, [0x65; 0x8d; 0x01; 0x37; 0x6d; 0x18; 0x63; 0xe7; 0x7b; 0x09; 0x6f; 0x98; 0xe6; 0xe5; 0x13; 0xc2; 0x04; 0x10; 0xf5; 0xc7; 0xfb; 0x18; 0xa6; 0xe5; 0x9a; 0x52; 0x66; 0x84; 0x5c; 0xd9; 0xb1; 0xe3])].

(** ** Certificates *)

(** The abscissas of [2^i H]. *)
Definition H2_x : list Z := [
  0x6188ae4072004cb85d56ab7ef9cf37716accacce8627eefa68746649386fd873;
  0x3063e33c1706bfe613ae1b05caa991ac058ee0176a6ec9df60ff869e6e606662;
  0x5bf282365bc57ca2a5affd5b7fbfeb8978f57a489f0174043a80d4c946e2028e;
  0x3615892cddd072c9658b9bfc7262c2f7f3ce076424ca75be96a3a56d23963592;
  0x4ccc1fc681ce379d567c595b670eecd330c43eaa788c29202d336fe3c43e39df;
  0xb221a791937798ce8db0b033b63dc19d5cfbc6c9e4e0ddb07019224ea50461a;
  0x136fe3ebff667643a9c0ca7483e91d0582cb4a25ee4467744d5aeb29e38a44d0;
  0x633acf2977006b72979ab2f10e3ed8316220228cf2568556916e14dc792a65f4;
  0x1460c94bda23aabf8c321a54966bb4ea9fe8f15664f6cee380465982efbad877;
  0x199e33e8cb95acb0529c64fd1d4fdc5f6ed0a2a682df601ecb4a6186579ff516;
  0x29bda07b1aee7865ff2b2f55573d86edd4e71687201331165cfa093f546bfb9a;
  0x6f1de135728257a6317e459d6ce4a51697c4bbad84a04473c5c29447904a9c74;
  0x721edb6593dd1223737ffbbe56356f1b6c888433aa94d38aa1cb791621f6e488;
  0x56119934a486b5f23b7858e2c99fbd9e81138057d8b15bfc9da4ba132345af49;
  0x176b6ae3b5a2fc3084dafad395b774360c781594915e446d83be818c6bbed755;
  0x393a0dd67311fd9f74d661907a1b166833966336dae4d182ce704ad8ed2bfc2e;
  0x747288c10f1e3f4df04d8e2f1a137ea8d5e525ee0209655aeef113c798c9291;
  0x5bb62b473e0afb02d62f7684bf9899f2e1b7798ba6961cb2b6a6d92944c62a3a;
  0x7e40fef016c460269d43375c0e5f96e460d4c5ddec2f9c05545ef28c2c285e7;
  0x790baf9d96e6720789126eff9880059700b572d09ce3dc79d4959afae9f2a3bd;
  0xb99d3f949c683e1ec1a780b404332180bfce3986cbdcce5ff7c28e9523bf374;
  0x1835fa261cb7b2a0d9a5169ed51571ae6dc1df18a7f569efc1013912cdfe379f;
  0x10a45021c9d29195f2b98450c0fb40341f7d751df39f20010c3a3a0c2815cbdf;
  0x204c6e2728755e1f44a6a346f4109734d14f28a16bc1a1fd1b77453cd0b5e063;
  0x38d8e4c09a4c3395a8fadc5c26ab4c815223a5438724672a7e631142009b2fea;
  0x7d751526943b47590512c7684cdd402b46150612fa6ce821a94e59d753abad7f;
  0x39b00956931d85d173fb9390204272e3044cfc4cb2e8f8505c6bdac20d96254e;
  0x18fbf7528e2230c96fa0eaad6a503856d2f10c4673744e9a4564139355055174;
  0x1095a534cbd0e1d26981b06e85015334a4b8694e866b4ad2e664591243ee37ca;
  0x43048da7eadcd368d42670ef41a286092bd3d3cbc59f3474b5edfee5cd9800ff;
  0x77dc26b95239c83b2f06c87cfa9938561f3e76947d2b2a618421b15064bba6a5;
  0x5355b79c960a53df12a569d7a4d88b96fc141db77c01dc0958c453c6ed962fd5;
  0x3457fe894d8c37746d7203381fbf58e7dc1298cf5de2c2e70e300cbf40d92178;
  0x20b0a652078eccb9f77d8de787742d4d4444323bb8621de368723f2983281e83;
  0x2c474309b44e4cc3904fa1bdf584a60ff1685d5bcdb0974de2fc387502be4707;
  0x55d2a614d60b18e26d17303d130258efaee5f8c49875c714ba5e6137f963f393;
  0x39f0495fadc82b5a6863a17d2b318e3a938c747cb3fde91213a7cd2f89dc20ce;
  0x772056899cbe6f02fc2e01f72b1edd82fb60f07463757ee415337141a753349b;
  0x63fad6f0560ab7be171253483d7fcee29532d49c5acd467c24545ef32c687e61;
  0x4a49c938665f0b719ee74b3f31238fa64b3bff95a1a97fe2b2092b46ddcf0bf2;
  0x7ffa31265a70f2daa0664aaf9a3ea34680759e86ddc3e3eefd017e7b96c5f415;
  0x47f59f14541affca20b53fee6b3d9331e8f7de3bd97667492a6123eac11c9fb4;
  0x5543ec09b5cc46cd0f3620f9f33c9dd18690c00f644dbae0ee986c24f995f9d0;
  0x3a625a5759af2fe52ed2dd66a63271a3cc90b6f0e2d67876c9ebe2cd31cf387a;
  0x16f51e83e64fe82d51ffed25ef81034d9b5691db54334e7be68852076d59c5c2;
  0x63c5aa74f5d5809381e6916902bdb9a46ee362451ea62733bc2146d8f2c9105d;
  0xa3a40c3a06d5c3cd5b43296fd84c04be891915fff4d03b4632e16f190b05f86;
  0x5df11c8c0ac6a0d883395abf1f0b8348a7586f389491b4bc43cfa491bfede5d9;
  0x4c747b533bf4497df8e6c09b117deccd8558b803b4232b8fac87ba9cbeff5a3c;
  0x308d1cb86764693df6c4da3c11b05bcdd78bf1dd563d51204916c111ededadbb;
  0x18ebf6ddcc51f40eb2f30a9ac09456eb75b013c281ea90cfa247ce7538dffbea;
  0x3543e72ac709d7399eb64ceaecf6c53e3e5385bada9ef71a6937c244cc010d6a;
  0x1a86834eba36033a8773cf15996aa4ba9be9d5a8667ed65b582433d7b710fc99;
  0x38a6c2b394221963aad680cbc00487a10e22207619f5426487adf979c87baed;
  0x693bbe17adf7fc2735787b1143b632f9f85366eed39a6fad0ac4d62ba9c53a4f;
  0xcd898aca91e8d3b0e485068576b568d8111cf1a53e0be58efa36b432dcf0649;
  0x47a102dfed3b329a1e63bded59fe84bb04f972b41daa8a14cebed6436447352d;
  0x60e604dcd356b32c469b9848845ff29fa6427f1a84a5cf0b9ab478d8d0ad19e9;
  0x316a0df49a736a27ab7824c38269d5e3044069a53e84f77a93f1f9e53722c291;
  0x1977fc363ceb937f6cb5647ee2d4dd67dfe520a6f268da04a06f3e99ed43478d;
  0x4d4baeaeea17831c6aecee20dccffee73abeba07f82e9674f7279dadbd54e3ea;
  0x53027ccc3a31140068043bd6b4c88265489ad9e535be8dcf1011a3f0a682abb2;
  0x20ce6d1788a903c5e3168aab1dbe2a6154e424ed899d06369ba708e7d05c3751;
  0x4c7e272a87181eeb3dc0197fe283e09d8fda2c8e5a80d47ea532091c80c4e1bd].

(** The abscissas of the commitments. *)
Definition zero_x : list Z := [
  0x216936d3cd6e53fec0a4e231fdd6dc5c692cc7609525a7b2c9562d608f25d51a;
  0x5439266cc77372c72e344564609dd9e4486b165830239996c7abe6fac9312d6;
  0x5fd28a90bcc4b13f1bc05b537e58397d8e63eaa60a4ee277991c1555a3b92fa4;
  0x22fb3ed46ffbdb77960b0f497e101dbf29befd077582dd1b9015e67181c0bb95;
  0x72eccb1f92cb6712ea4e72c8a40920622aa4d7c09262ec254b5da4943b34c5e8;
  0x5bebb6fb9f0f042d8fad886d357ad25ab2f49329d87a61dff8dec0101932324e;
  0x2d4a20aecd7f2df7f16ae0f650e7edf00879a48bd9047544af1021126828d73f;
  0x6a1a02da0841abdc2ed497a6372e646f0b557a2b318eb7d0469496328fadf959;
  0x6662e2f2b5d4797a8114211017f7a63bd85cb54620b6eee5735b80997da48b9f;
  0x41d803eff26b9f018d47cdf50dd5d96e444688750635794ffad0adac90c43e4a;
  0x381f919c706c484fa80f57321fa39635bbaeb34d406934d7539eda5caf607be0;
  0x5db15eaebd2a5ed2ae4b8451abbe27e2488525c3e44294ea84215b76c2873c61;
  0x78f2fbee73ca7e736affb984865d4294b6b6a1ba66bd2d2531739305402c77d;
  0x642e11ee4c79575841a38e153f678563be5a03a23eb2a89e3b7457054a2cdac9;
  0x5aac37ecf520f19bbb1d2c5a4e4c16b058e6b7f1302bc9256ed5a9fd6420383e;
  0x1db1f05f123572ddffe26e01f084248ee8a4fa48cca85fe6f5d7c6ac38e14b1;
  0x65f392d56296f937b8501d2073011ac9a36a7c647ec86e6945589923f00451b;
  0x11f82a7af09273908929582093c74728213b3e1856b2b67bb7bbb7057c105b46;
  0x2c763987ccc4efff8e5a86a031c2d60bda0e4b63d39f5d242a87c5d90a742bfe;
  0x37a331571c6af1a39c30a44d3e777efa14c86c5e49403e9204f0a4edada50293;
  0x1bc045aae5b123759ee5c1df3417fe7fe10ea1cd630891d73947897e421facc2;
  0x259f2114df50ffce05efbf02bfe2936438ed96ae1618769a500e3b08f7d10895;
  0x1821455d0c9e79f96406673705c66dc17097d73c2f6b4ec8c034b1a8a55f4824;
  0x728976f87c8af1ff0f776f4f454ad248c14ffda07532fbaa2d94dd54d8b06e12;
  0x1532eefdf526b2837296cf934cb25cd6975e1e5bcffcd69ba89dffa8270a8fd1;
  0x1981c5f48c4373974d0e99b155e31f465af8cb1341639686a500e511fed9e29;
  0x4b8f9c9e227fd55b10bb61a96d52e845d54a64b5157d0dc716a51e10757762e4;
  0x64f5a32ba5445fb6fc7797abd20fde10e86e8fca0199aec6e8ed9c7e21d055af;
  0x288d9205ac74b89acf4e693d3bfef1bccf5fe15ed7f403285689c742ca9eaac;
  0x61c50542bc8e704cd084f3358837ed5fcb1818e0bf728ac7dd252fd7b11f5ea1;
  0x6293c6ed81f93da331e69ccad94e7f5b453474c2d4be5adf33451ffc439ec8f9;
  0x5fc8650e1f01a8056abec2de648dc9e3442229afeb28a625ed6ec0b1a672c65b;
  0x321b9cf689523cb48538588a2f98466d128d9cf55282ca7e08a12d0640ce843a;
  0x4110031015173da1fd6d02f0ea8a0b532445ad4eae19999968b659cae238d46d;
  0x32b6b7877663160334369629434efb694167f028c18e00c26436a5d5eedf22fa;
  0x40d4c4d54c94a6ad5d52c482043f8c19187f76d147967341a925579832e5b196;
  0x4c124f093c986b8494711a47a9a6e83731a379943692fba947142b847b9346a9;
  0x76038c1213f0007ec0890fc0e6afe3db5e147e44cd422628a7689b8e1bc8a473;
  0x18d4a28b3c1e6a4482cc765d7aa972aac9e1405aff451fbbd279d543bc52d191;
  0x21443f780add8c4b0492439af93bce159204f1b5a6ae6e100fa13469572051da;
  0x482ca654b7a1860a30a9cf0c0b5efcad6605e0f02be2a903fb795c19f3a2eba1;
  0x309e28fe4ed8990a54cfef79ad197118de112131896a9e8c310070cecb7cdbad;
  0x13c537a2ee18eb46b931e06f0108f1023752cc3862dac8272b4f867df70fc764;
  0x451e6094b0a4916f58f8384bf439bca526eab55c18b372b616b2758c3ed70a63;
  0x64bb53552f713aae73058049cc2c1c7fb4dbfd5ac7b6ee5bd15d8b091c849815;
  0x32e12c293403443131b2ff2252c8bde6adbc0e7bef5a022794c6975a1f1e0a96;
  0x3c90df842c483496a07e1108a37b8c1dd5e9716773d917c7965a3aedf7c3e8e3;
  0x7addde79147e4b8346e71735365a570fbedbe316ff25a42491d613149c29edd9;
  0x4c79ceef1d79b0f9bf4fd1da23339bf1e339fc98d5873bf145f7c47720c7b1ac;
  0x5111106d63d7cb403fd35ea6f5a178f76a4ad56569ed6502c0267088e2c0ac1b;
  0x1c800ce0e65365441b4a95f016ea3853b06319d6f9cfca23611a8823c45eb1a;
  0x210baa322350a62b0ffff4f36e082a9d95570979ca1ca4640dccaeb9609a373a;
  0x5e1453a975c264723b492caf3d6003d976422ed2c29abf0ccf4215ab6e87620f;
  0x48b093d19d3a4ed43c4fc7b7c22b7b28e0c943175fafb6a0793cbcf9a42cd2c4;
  0x54e69432f6de208f954c41ce3babaa9a99cbd3fa69e2246b804c49f8a7e7b106;
  0x3419e2b82ef62da97dee2462c13684a26652c5a992c5ea0780062d81c99ef77c;
  0x2f2d20675dd817c96ea8ac4edaee94db584e3bafbb963a7ca62b127bf1b65966;
  0x2a57ecc059f92a78aaaa9b6ff70fdd599392d62da51b19330bcf0ee81d98b448;
  0x352a756de7ea63a351eaaa8d35b0266359ec4722294eb475d6f1db8f1024e2fa;
  0xe9c175ed56be8ca689ad3d1b1c82601e44679ac1ff9ee6be5014b392e60a4d5;
  0x11b570f25a6779371aa2b2bb075e1f6ab1ee71327de181241f5365387249b44f;
  0x1f234dd028b6951f6cd6c8de2caba63ab8dc482fd23201d5661ed2b4d27080f0;
  0x4dd3cb0e3de536ff3ce18b7e5ae03147a2782472a1a1678229767b5e1056d8c2;
  0x8c7ee3887e22598f285850233db04df4e250e11a3d9f0657486c3e34ab16253;
  0x288f16e7711c13c18f2e691c8865dba3bc19654f9a96afe71be0ce46fc15576e;
  0x66817ee86552d76dee59591dff6ec3022b19bb723cd3357a53535e48bb1275fc;
  0x54304fff22672ec870264d3de7b949ccc299bdc225f549f6a8fda8e2746de596;
  0x1b87789a7703fcc43e845756a2704105d5bfc52f035e0d52346eadaa7019f58b;
  0x71f86357dddcc050a534885b843b915cc49134f7d5fff9b8e3c9f33c84d93dd;
  0x60c90141579043c30c5da7ae44c4088336a8d03c5567f3bde2300fb564d2f259;
  0x26b45d0e6f5ecbc3a50ba2dbbe7a9b8fde289144ea678892d518ca479b386822;
  0x789d9cf93df35482ba26dea7715c77db4a5645416e2f5e592f5c46fc51db9bdc;
  0x235c99ff413a5ca87dd72f406e606e250ffb9546499296ad0f62a40733df03d4;
  0xe66adf1046d4e2dbe9511691c1f477e3b6457b03350eb94b0a52b77cc47a4cb;
  0x16d1b5db9e3abe3e50e98d47182a6a5d3160eecfc2baf3e5e9d7cbcc67649dd0;
  0x15151d1f67d12d3148a8b055b995ab6901770a68f78ce9f07a86807848afe8b6;
  0x1737e9180cf668b7b5efaf6cd521258f57322cd9cb98fabb78e511c6f3cff998;
  0x40101531b6d37fd84d63efe421de5f47644665cc04a210fb0d2dfa33aeadb4a6;
  0x3a9a6450f9765e7cbadc02e59018b18350127dbf43f1c850f8388d98805e663e;
  0x57455bb12308d0687de5f74e131594afd49ed117903a1b773dc330462cac995e;
  0x20eb1ebfc7d00652f56e8ed39ab75544e883d66e04b46fb41156a5f11f94b2d5;
  0x162873ff414114398faa639eeb0de5d6587aee794dd0a8a27017e6db6cc525ea;
  0x5f2227a579850908f51d4a458e82bf2707ddb6b6eb747fd686501b31bcbd06a9;
  0x1ecaff8cb47a959f89f79ef9dd36ee85e9bad6cf392438a9bbb793db2318371e;
  0x241bcd0836fe27d648b1c77c6f47bb5a4be014877006d27b27dc27ad434639d;
  0x6160afec93101ae1a2da7b24bcb1f6a7cca933dca03440eb0aa5138fc1787d02;
  0x75d32efb9c0c704c18a46676f7142290e3288cee0f903a9bcb270d6b704e5fa2;
  0x6446f43489d595120d947c95d00b673df356516d34085e3a7f7ebb02efa8c3a0;
  0x4b6f7efac61cbbbf03cd77bfc7dedb892d923ef4b40dac8d0f911d880c081537;
  0x77eedecfc3fe5150ceb89b488cfd91fc62ef34268ab851f738b4c89d12a95f6a;
  0x1b14179638aa848713f2bf5cd8a3bd6e13f7d2cb0678f3f748f7139b0d738951;
  0x6ae8647a31fb63854a3131697948afd37e8e2bd1c9181054460a51d5501db06e;
  0x4b145ab241131a26544068824dd3bdb9bd3b20f0deab799c6d6235feee13a890;
  0x533c4ae7c4862a221051e434f9f35e9e187db5cce8d6d5d168fe71b986c0f5cf;
  0x163df1b6af21cfa12dca358732647d6304994d261dadb0d7c860e2964346ff1a;
  0x3be3a91e83e28e99aca2833c64e4b40f19fcd3f6c848e272960f4f0402296545;
  0x74ec037cfbdae77fade88de5e3bc222df980b4bb125b56abaf0781e4e96c89d6;
  0x6cce10440d4906bd3b965b295709cc65c273811c9dc25347a70503c45b8a9f16;
  0x6fb339931d51c8284597b691fd66ba4f2b8f44d45d464da0ecf8949623ee97da;
  0x13c97048270a0950763453b32f48a750a9f8697c5dfe0833d2cab3050bb4ba55;
  0x67fe087f7a236ad126f155003dc6179c6b83cf21855ed311f9325fafad6478a8;
  0x23d9c64e43399034edc606c6722d00921faca49ec8790675093483caf3d7d406;
  0x1495f67a68dac7e716722c33000ae52d2048e6dfc7f689c389d20633f7671a0e;
  0x5884ef26a03df601d7ec846dbafc848df884667d4d082303201d4721a6dabbd9;
  0x7bff005283d39bc5ae735c123fd2a924ce4c2ec6de401e061a49ae01edd9b192;
  0x58d19c2e1b519613eee84bfe391c75ee3f1c6fcf7988d7acb70a7e029bf2efcd;
  0x59dff49acb1e5238992d5ca9195418c2a2cc3ab807b317dcb006633600811c7c;
  0x3205e0b1b1f37e1adec00202c1bab896d3a09787fdea21d3463372a32a1b0907;
  0x7c1744614f066a28f3d1e268d809a33041238b5c068b1fbf1150513cde34a6a3;
  0x1c5be4ac846ed777bdd60d38f42eb45b39978e317761d86660c6cb0f3b0a6e3f;
  0x5db23056607eb11fdab149a3874ae563310b4df0a50d882ba84e1b117da4873a;
  0x5c005dd1dca4a406b7abcb9262d265e4d3164d1712b67d8c60e3cfe0ebf95380;
  0x61f39506e90d43d5b3c2dfd67b3411266b07702e2f98cddc508dde5b4b51fd29;
  0x2fd5ea9555d9fc5dd69729ed96b39d6e518cd76a29c435238e13ba3239afd161;
  0x57f4b75519b933217edf946a037138809520678fd48a730c3953303926f3bce6;
  0x6c592f7505a8032d90dd421a0ec5d8b7697c64d26d1367edb3044fca64e59d7;
  0x1d1a933292d4e867768dc6a5d8078197ffcfb804b889c9e7cebc4818c06c1c71;
  0x4ea3c71983d583c551dd13eba0f9b9d079ba1f9dd1cd37b6b9f56615f7506e38;
  0x4bd10e0514d56e3c9f5b0f06ce55281be6b0ea4f9059d0ae74773a3455375d3;
  0x58ce0448575661cf960afc600f082190a137bf8f9c85559f7fe3fa191b6b875e;
  0x5230d2e20055e6bef131dadf88b6870133919ef953139ca5a06985171b826ba6;
  0xa7109307fe452bebb874a8a60afc5f634e6716f0ab7fa63bf6e2ad74c43ad8f;
  0x501b572bfac2d9befc5fb84856dd063cd00fe6c1abc6ef6f6f7a8bfc39d2732d;
  0x11021eeaf0b60cb30af04cba8863b52bfb47fdcaec1f83de6d034f445fd7af0;
  0x3c7823ba71aa5021ee806f817868523ae5bdbcdfc9ee5b56978b30b289512d7c;
  0x6b7bc03426b563ec7325f0b377a3da226a4b8292baea526a519f1a8385b61de;
  0x74c0d3a4d26a3cc4ea883dc7ea791552668f6ca045f4203aa8e9e548723a1c79;
  0x6e6ce2d473d6c17efff32de540e02ca4f1b69430bcf3bf4b03fb66d6e9c5773;
  0x5bfbcf583ecbebdca371f9a5c2854b88429aaf397193a69e4fbb21fb8f0ad8d2;
  0x54a8246825f3f434f77910babda9926a51ec4d4179ba3d90602c9e167f4fb2a7;
  0x1769855ffc8db6c8a8fdc047296481a648581f2efe714add2a1daa6ec24b61d2;
  0x2ac347843ea2685a279b5cfc33770c0883c7d64959d336d5327c1d891806e8df;
  0x114e34d7e95e94fc966ff20786bcc80691a2061e24fb197114e52920864adfb7;
  0x44eb308e51882e2e556345d531d20963b710c61cf2c9a198bfb4147c417baba3;
  0x305e4e9fa22bd140e91dbdc33a2fea4ac87b76a9d371708fd0225fc59bb1bcb6;
  0x30cbd479abe26acb499092497e486e31408a0c63da954501e399ff54c916505c;
  0x726428afc174a6e4db56a7f3b9c7608dc9c942dcf00ba3057c9d0e85a7fe4a9e;
  0x3bbf1424ea5b09349f1f7ec1ebe1d1c008ac74df0c041c8810c2b1a6fb493639;
  0x75380643aee64ee64e099d3867c94ab5152e7189b335a7d057d3cd62346eb276;
  0x6f0fcd0fd97c3a958b54dd47f85dce759d9c5fa4ae14f716a3100f6518137d7e;
  0x7a20a2dfdbd5b16c393be76f0692d2493618292ae3222a8e394936f3dcdc82e5;
  0x68e083190de7b3f59e322ad8ac79261f597f9280778b6bc739506469128b80d8;
  0x301185d20d3445316b5b2ac878ba09edb0b83870d8fe13d5231b6975b7cbd9b6;
  0x3a06f71f913a1e1827d2eafc04e4c1adfd7e3e65ccbf40692c0182c5131884e;
  0x1d69eb57e23820df243db418762ff8d731b0f7d39a7ce4e8169d17e129fa4350;
  0x5a48700c36bac89e116b959eab5b627604cdc990d4c441c45559b7df8db5615e;
  0x2ce3db33050b468e5f6bcc82ef852b82d5bfafb2dd90bfbcdb4f8fa85fac0344;
  0x4c551d542a8823130b80f9e32c95972bc30f1a1d9ad5c5d449a73d1a305952d4;
  0x7dfc232b99a879665250325f5dc1934a46d799159f8b5fc6dd65bb1e83237b89;
  0x3d7df6c1cbf2332854ec65d0e6d1eaffb073e8d5b8e850899b13aeb1faf8e40;
  0x4f9ade6df7bae7e483b58bf20d46ef92464da3fa052cf7f027f06deb025258d1;
  0x294b8aa442685003a9caac4d91745191e3ada65ea6074dd2c085590ff57856b1;
  0x235a28ac9601be4c53678d9c7d4288067a85a23947ccba48493c1b5420d9e338;
  0x2d95c0f11f2a38836c95ff3d3ea459817af94bc7eaa3da707159f69a9c6c7ef5;
  0x34321e0c108d5ca50b1f97174642011ce733b0a91af9b6c5f90847db674e412c;
  0x64fdf2dc572055264b45486d3a7b51f766fd1bf89d1bec8f03642cfa0babb8b2;
  0x5d856ce3f7c20ea9f3949565fe6e5d862d490bf84c18fca68d1f47a33180c724;
  0x4e1bb099fe70bcc91654f6f42cbd88b6f607fa13c2d238cc526a344501563698;
  0x429846e541624593b5d9690d258c4dea43cdcc5fe31246aef6c37068a1210a7f;
  0x4a1d132be8a37860170344ab19335499b4ef58fae63fd53741790f3846e79b12;
  0xc173d69411e136fdedc3d7652661b307f2ddf499bc7ef7b49cedad8058d854;
  0x13b2a5a1f17cf6f734bbddf44e210bfaf443781f235ddd3c1a008d769072eeea;
  0x7e01cf9109fc1a732d9dd52f1141371af2f74465b69593c4a86c337804c67c9c;
  0x6469f0f35c96a6fba2295056f685c4b699e4ab36a7daf55f7b37b2e552c1efe5;
  0x4c3eb958300466452fdca03d400802e7cb1cdada9d25373a34332937980642f0;
  0x24506d5509f278eeb6a2bc0a375d8b2ad524611ae7536d437232aef627e3876e;
  0x650b88e751c18adec12e274775c24791a38b3e09cb42f9dfdb6a7c89722db25f;
  0x621200e16f327313438ce8bf1c323b835530ff0f63834cdc811ee7fac92ef042;
  0x77b21e6007197bba97ea4f9269057da5607dadecc77bf046c70adea93225a203;
  0x315ada016164d24a619e22a86e9bf7e3cc887f3688ae7e13af6f9ab225e4fa38;
  0x6b24a26807facbe3691f9dda9ca676ba8ab69541e981eddc654717957db525e5;
  0xeb7d4762bbd66b97914d61192d84d34c7d778fbb0cc665f3a08ec5002968cec;
  0x5672ed96bec908449c08fa6c5aeb15249e41972366e8333c4f1900bcf6a86503].

(** The coordinates of [10^k H]. *)
Definition power10_xy : list (Z * Z) := [
  (0x6188ae4072004cb85d56ab7ef9cf37716accacce8627eefa68746649386fd873, 0x141f9cd30d3a172ca9cf5441d551726cead0adf19fdcea2aaf9937157059658b);
  (0x1abe7c19a6f009281a007ce7bc739f4aeb132a8d3f20e56928aa708013668d6, 0x56fd3169208b980a386b26e3b388abc52a6fb9be04e8a213cfde3ab7721318a9);
  (0x58047b23ee43cab06ec4a16d3ab36790cd9418102a015851e1523508ef45a3c8, 0x752d19653aa612aef1fe2ee5c60f588e702e083f16fb00909a86644b47619097);
  (0x4bc7206e280fea61fc9372d5814d64b38015373d73448bbdf6c8be6b9c0c52f6, 0xc2ffadbe1d0b969fc2c612b12a29296f650ce78f130e9fb0ed2d4cc29a2abc0);
  (0x5241e0d6a67784fd9e21d6f416fd89b26970df3c5b8b4eb18313ad1177ae02a0, 0x1f4a1075dde2369958954a694ec4c9a393fab6e6c0632672d702eef01d9fc65e);
  (0x2d9023a855ed9bdb43a6dbc578e71aa9713b4170b52dd382eb77c060ecec2b42, 0x52d736ff5bd7e785205c4dc2a946bf3b48a727f84c98a1e9215e6f023eeb7af4);
  (0x2cc54ae100196eb86ba9a5aa0092b97f8e18b8457b3de45090e3cd21ed93e906, 0x4fd21cb4907afda97469a19d617332dfa874aed5875953c185b8ef127dfbdee5);
  (0x60537d8f6a9cf2a7394f7d01913d22c57b71f3cd09094d047daba4e469ae430d, 0x32848c1202bb25adc80333c30bf32af95a3b5bdda1f9dd2450123b5200969952);
  (0x5ba7965b9d3be22e66f547f784d4e7794229f6a7eb978faf3cffd89819fad827, 0x24f110e55e97a1be26f003c7d77a0b64f6da388de27a1eb9b369f182a64b4fb8);
  (0x3738bcb7b5f85b863e5adfceefc1e53c4f50bd36d9c4f07d7602678a80201b52, 0x7cb0f3908e532280add722150770483678a119f2c6aab7f96052646d601a7f7a);
  (0x5731c9003e85162014091a62bf3f828cc1d62277f1bc65f7939754261e4caf5f, 0x92507f5386203fb759feccb91ae851ba8b6dd9cfbdcfd8352fb9a48818d5985);
  (0x35d965ea057574112dceb482edf33cf7d790ac0d54a4753a9731bcdf1ece8bb6, 0x62468c65abbba57d44a2a6ee9c755bc169823d578ebd4ea4bf106bbc84579b84);
  (0xaa3c88e50dd6e0c77bf744debf99cc716db6cb0389d80b09d7c474d949b3b2e, 0xc3b860d4b62acaa1ef3b3c8621aa8740352140e0b6b25192c71614cb17f2b54);
  (0x545809b0076a2c434ca19d4d88ee896aed963b05d2f283966e4b295f4517fd08, 0x3be866ca573e5ab8eca7e5d351f72e6780e9646db0e605c88770a30c9d7c5cc6);
  (0x636e3c1380b1eece323087c9538706a5671c364d761cd7da41abeedef37c89f5, 0x61135b68b34449dff2d0c70182671d990ea10ed26d495f14d7cfe0c115a70ee7);
  (0x47319293e096f5ee472ee4b0f41c5a294dc10bc5806272d318042ab7279e0e6, 0x7dcc96cc44d7519046ae40d574b9b7e6bfc203dbed10c55781c4d604974cb947);
  (0x5aca777b7a5f26a3f2d8306b5325eed77b9dfc2f5e375a4fb44d5112951d6534, 0x52c82eefcf8fd17d8c7ad60d59eb89c37edee6520118e760f0cdeecffd94b477);
  (0x7c0daf7a6b48d571b63900694a35c6a7a7d903a099598e427016a3abca54226f, 0x3f36bbeb388ae3168238f2f285c44efa47f88b86e9f22471b3b1a82483467421);
  (0x24332ffa1a8a9d4317e16320b52969a76bc17f577845e9c8e795c1128f1b3db1, 0x40cde12d6be0aea7dc9e4f5216a4212e83d5cdcaaaeb8f266ad54c3e5658b5d8)].

(** ** The checker *)

(** The ordinate an encoding holds. *)
Definition ordinate (s : list Z) : Z := Z.land (le_value s) (2 ^ 255 - 1).

Definition in_field (x : Z) : bool := if 0 <=? x then x <? p25519 else false.

Definition key_shaped (s : list Z) : bool := bool_decide (length s = 32%nat) && forallb (fun b => (0 <=? b) && (b <? 256)) s.

(** Is [s] the encoding of the point with abscissa [x]? *)
Definition check_encoding (s : list Z) (x : Z) : bool :=
  if in_field x && in_field (ordinate s) && key_shaped s then le_value s =? ordinate s + 2 ^ 255 * Z.b2z (Z.odd x) else false.

Definition third (x y : Z) : Z := fmul d2_value (fmul x y).

Definition times10 (x y : Z) : Z * Z * Z :=
  proj_dbl (proj_madd (Nat.iter 2 proj_dbl (x, y, 1)) x y (third x y)).

(** [(x, y)] is followed by its multiples by powers of ten. *)
Fixpoint check_powers (x y : Z) (l : list (Z * Z)) : bool :=
  match l with
  | [] => true
  | (x', y') :: l => if check_proj (times10 x y) x' y' then check_powers x' y' l else false
  end.

(** Each entry is twice the one before. *)
Fixpoint check_doubles (x y : Z) (l : list (list Z)) (xs : list Z) : bool :=
  match l, xs with
  | [], [] => true
  | s :: l, x' :: xs =>
      if check_encoding s x' then
        if check_proj (proj_dbl (x, y, 1)) x' (ordinate s) then check_doubles x' (ordinate s) l xs else false
      else false
  | _, _ => false
  end.

(** Each entry is the one before plus the power of ten its amount differs by. *)
Fixpoint check_commitments (a x y : Z) (l : list (Z * list Z)) (xs : list Z) (steps : list (Z * (Z * Z))) : bool :=
  match l, xs, steps with
  | [], [], [] => true
  | (a', s) :: l, x' :: xs, (m, (x1, y1)) :: steps =>
      if (a' =? a + m) && check_encoding s x' then
        if check_sum x1 y1 (third x1 y1) x y x' (ordinate s) then check_commitments a' x' (ordinate s) l xs steps else false
      else false
  | _, _, _ => false
  end.

(** The step after an amount: ten steps of one, nine of each larger power. *)
Definition steps : list (Z * (Z * Z)) :=
  let powers := zip (map (fun k => 10 ^ Z.of_nat k) (seq 0 19)) power10_xy in
  take 1 powers ++ concat (map (fun s => replicate 9 s) powers).

(** ** Soundness *)

Definition at_xy (P : point) (x y : Z) : Prop := px P = of_Z x /\ py P = of_Z y.

Lemma in_field_ok x : in_field x = true -> 0 <= x < p25519.
Proof. unfold in_field. intros [?%Z.leb_le ?%Z.ltb_lt]%if_both. done. Qed.

Lemma key_shaped_ok s : key_shaped s = true -> is_key s.
Proof.
  intros [Hl%bool_decide_eq_true Hb]%andb_true_iff. split; [exact Hl|]. apply Forall_forall. intros b Hin.
  rewrite forallb_forall in Hb. destruct (proj1 (andb_true_iff _ _) (Hb b (proj1 (list_elem_of_In _ _) Hin))) as [H0%Z.leb_le H1%Z.ltb_lt].
  unfold is_uint. change (2 ^ 8) with 256. lia.
Qed.

Lemma check_encoding_ok s x P : check_encoding s x = true -> at_xy P x (ordinate s) -> s = encode P.
Proof.
  unfold check_encoding. intros [[[Hx%in_field_ok Hy%in_field_ok]%andb_true_iff Hs%key_shaped_ok]%andb_true_iff E%Z.eqb_eq]%if_both [Ex Ey].
  rewrite (key_bytes s Hs), E. unfold encode.
  rewrite Ex, Ey, !Zmod.to_Z_of_Z, (Z.mod_small x p25519), (Z.mod_small (ordinate s) p25519) by assumption. rewrite (Zmod_odd x). by destruct (Z.odd x).
Qed.

Lemma third_ok x y P : at_xy P x y -> (of_Z (third x y) = F2 * ed_d * px P * py P)%Zmod.
Proof.
  intros [Ex Ey]. unfold third. rewrite !fmul_ok, <- Ex, <- Ey. destruct fe_d2_ok as [_ Ed]. unfold d2_value.
  change (of_Z (value fe_weights fe_d2)) with (ev fe_d2). rewrite Ed. by rewrite !Zmod.mul_assoc.
Qed.

Lemma times10_ok x y P : at_xy P x y -> proj_at (times10 x y) (smul 10 P).
Proof.
  intros HP. pose proof HP as [Ex Ey]. unfold times10.
  assert (smul 10 P = (Nat.iter 2 (fun P => P + P) P + P) + (Nat.iter 2 (fun P => P + P) P + P))%G as -> by (cbn [Nat.iter nat_rect]; group_ring).
  apply proj_dbl_ok, proj_madd_ok; [|exact Ex|exact Ey|exact (third_ok x y P HP)]. exact (proj_iter_ok 2 _ _ (proj_affine _ _ _ Ex Ey)).
Qed.

Lemma check_times10_ok x y x' y' P : at_xy P x y -> check_proj (times10 x y) x' y' = true -> at_xy (smul 10 P) x' y'.
Proof. intros HP E. exact (check_proj_ok _ _ _ _ (times10_ok x y P HP) E). Qed.

Lemma check_powers_cons x y x' y' l : check_powers x y ((x', y') :: l) = true -> check_proj (times10 x y) x' y' = true /\ check_powers x' y' l = true.
Proof. cbn [check_powers]. apply if_both. Qed.

(** Multiples by successive powers. *)
Lemma smul_pow_S b k P : smul (b ^ Z.of_nat k) (smul b P) = smul (b ^ Z.of_nat (S k)) P.
Proof. rewrite <- smul_mul. f_equal. rewrite Nat2Z.inj_succ, Z.pow_succ_r by lia. lia. Qed.

Lemma smul_pow_1 b P : smul (b ^ Z.of_nat 1) P = smul b P.
Proof. f_equal. apply Z.pow_1_r. Qed.

Lemma check_powers_ok l x y P : at_xy P x y -> check_powers x y l = true ->
  forall k q, l !! k = Some q -> at_xy (smul (10 ^ Z.of_nat (S k)) P) q.1 q.2.
Proof.
  revert x y P; induction l as [|[x' y'] l IH]; intros x y P HP E k q Hk; [done|]. apply check_powers_cons in E as [E1 E].
  pose proof (check_times10_ok _ _ _ _ _ HP E1) as H'. destruct k as [|k].
  - injection Hk as <-. rewrite smul_pow_1. exact H'.
  - rewrite <- smul_pow_S. exact (IH x' y' (smul 10 P) H' E k q Hk).
Qed.

Lemma check_double_ok x y x' y' P : at_xy P x y -> check_proj (proj_dbl (x, y, 1)) x' y' = true -> at_xy (smul 2 P) x' y'.
Proof.
  intros [Ex Ey] E. assert (smul 2 P = P + P)%G as -> by group_ring.
  exact (check_proj_ok _ _ _ _ (proj_dbl_ok _ _ (proj_affine _ _ _ Ex Ey)) E).
Qed.

Lemma check_doubles_cons x y s l x' xs : check_doubles x y (s :: l) (x' :: xs) = true ->
  check_encoding s x' = true /\ check_proj (proj_dbl (x, y, 1)) x' (ordinate s) = true /\ check_doubles x' (ordinate s) l xs = true.
Proof. cbn [check_doubles]. intros [E1 [E2 E3]%if_both]%if_both. exact (conj E1 (conj E2 E3)). Qed.

Lemma check_doubles_ok l xs x y P : at_xy P x y -> check_doubles x y l xs = true ->
  forall k s, l !! k = Some s -> s = encode (smul (2 ^ Z.of_nat (S k)) P).
Proof.
  revert xs x y P; induction l as [|s l IH]; intros xs x y P HP E k s' Hk; [done|]. destruct xs as [|x' xs]; [done|].
  apply check_doubles_cons in E as (E1 & E2 & E). pose proof (check_double_ok _ _ _ _ _ HP E2) as H'. destruct k as [|k].
  - injection Hk as <-. rewrite smul_pow_1. exact (check_encoding_ok _ _ _ E1 H').
  - rewrite <- smul_pow_S. exact (IH _ _ _ _ H' E k s' Hk).
Qed.

Definition entry_at (B P : point) (e : Z * list Z) : Prop := e.2 = encode (B + smul e.1 P)%G.

Lemma check_commitments_cons a x y a' s l x' xs m x1 y1 st : check_commitments a x y ((a', s) :: l) (x' :: xs) ((m, (x1, y1)) :: st) = true ->
  a' = a + m /\ check_encoding s x' = true /\ check_sum x1 y1 (third x1 y1) x y x' (ordinate s) = true /\
  check_commitments a' x' (ordinate s) l xs st = true.
Proof.
  cbn [check_commitments]. intros [[E1%Z.eqb_eq E2]%andb_true_iff [E3 E4]%if_both]%if_both. exact (conj E1 (conj E2 (conj E3 E4))).
Qed.

Lemma check_commitments_ok l xs st a x y B P : at_xy (B + smul a P)%G x y -> Forall (fun s => at_xy (smul s.1 P) s.2.1 s.2.2) st ->
  check_commitments a x y l xs st = true -> Forall (entry_at B P) l.
Proof.
  revert xs st a x y; induction l as [|[a' s] l IH]; intros xs st a x y HP Hst E; [constructor|].
  destruct xs as [|x' xs]; [done|]. destruct st as [|[m [x1 y1]] st]; [done|]. apply check_commitments_cons in E as (-> & E1 & E2 & E).
  apply Forall_cons in Hst as [[Hx Hy] Hst]. cbn [fst snd] in *.
  assert (at_xy (B + smul (a + m) P)%G x' (ordinate s)) as H'.
  { assert (B + smul (a + m) P = smul m P + (B + smul a P))%G as -> by group_ring. destruct HP as [Px Py].
    exact (check_sum_ok _ _ _ _ _ _ _ _ _ E2 Hx Hy (third_ok x1 y1 _ (conj Hx Hy)) Px Py). }
  constructor; [exact (check_encoding_ok _ _ _ E1 H')|]. exact (IH _ _ _ _ _ H' Hst E).
Qed.

(** ** The point [H] *)

(** [toPoint(cn_fast_hash(G))], of which [H] is eight times. *)
Definition hashed_x : Z := 0x7f922060f891a845bf7f1768f19a0ac52a9020c9894aa388c7f4febd90584ce7.
Definition hashed_y : Z := 0x610ecd2a7669d82030f1d9971a446b49054d16bfff2950a3bcd7bb9ac09d601e.

Section HPoint.
Open Scope Zmod_scope.

Lemma hashed_on_curve : Zmod.eqb (ed_d * of_Z hashed_x * of_Z hashed_x * of_Z hashed_y * of_Z hashed_y)
  (of_Z hashed_y * of_Z hashed_y - of_Z hashed_x * of_Z hashed_x - 1) = true.
Proof. by vm_compute. Qed.

Definition hashed_point : point := Point (of_Z hashed_x) (of_Z hashed_y) hashed_on_curve.
End HPoint.

Definition H_point : point := smul 8 hashed_point.

Definition H_x : Z := nth 0 H2_x 0.
Definition H_y : Z := ordinate H.

Lemma iter_8 P : Nat.iter 3 (fun P => P + P)%G P = smul 8 P.
Proof. cbn [Nat.iter nat_rect]. group_ring. Qed.

Lemma H_at : at_xy H_point H_x H_y.
Proof.
  unfold H_point. rewrite <- iter_8. eapply (check_proj_ok (Nat.iter 3 proj_dbl (hashed_x, hashed_y, 1))); [|by vm_compute].
  apply proj_iter_ok, proj_affine; reflexivity.
Qed.

Lemma H_encode : H = encode H_point.
Proof. apply (check_encoding_ok _ H_x); [by vm_compute|exact H_at]. Qed.

Lemma H_order : smul ell H_point = gzero.
Proof. exact (cofactor_order hashed_point). Qed.

Lemma ge_p3_H_ok : p3_ok ge_p3_H H_point.
Proof.
  destruct H_at as [Ex Ey]. exists (of_Z 1). rewrite Ex, Ey. split; [exact F_one_nz|]. split_and!; apply rep_const; vm_compute; reflexivity.
Qed.

(** ** The tables of multiples *)

Lemma H2_checked : check_doubles H_x H_y (tail H2) (tail H2_x) = true.
Proof. by vm_compute. Qed.

Lemma H2_ok i s : H2 !! i = Some s -> s = encode (smul (2 ^ Z.of_nat i) H_point).
Proof.
  destruct i as [|i]; intros E; [injection E as <-; rewrite smul_1; exact H_encode|].
  exact (check_doubles_ok _ _ _ _ _ H_at H2_checked i s E).
Qed.

Lemma length_H2 : length H2 = 64%nat.
Proof. reflexivity. Qed.

Lemma powers_checked : check_powers H_x H_y (tail power10_xy) = true.
Proof. by vm_compute. Qed.

Lemma powers_ok k q : power10_xy !! k = Some q -> at_xy (smul (10 ^ Z.of_nat k) H_point) q.1 q.2.
Proof.
  destruct k as [|k]; intros E; [injection E as <-; rewrite smul_1; exact H_at|]. exact (check_powers_ok _ _ _ _ H_at powers_checked k q E).
Qed.

Lemma steps_ok : Forall (fun s => at_xy (smul s.1 H_point) s.2.1 s.2.2) steps.
Proof.
  assert (Forall (fun s => at_xy (smul s.1 H_point) s.2.1 s.2.2) (zip (map (fun k => 10 ^ Z.of_nat k) (seq 0 19)) power10_xy)) as Hp.
  { apply Forall_lookup. intros k ? (m & q & -> & Em & Eq)%lookup_zip_with_Some. cbn [fst snd].
    rewrite list_lookup_fmap in Em. destruct (seq 0 19 !! k) as [j|] eqn:Ej; [|done]. apply lookup_seq in Ej as [-> _]. injection Em as <-.
    exact (powers_ok k q Eq). }
  unfold steps. apply Forall_app. split; [by apply Forall_take|]. apply Forall_concat. apply Forall_map.
  eapply Forall_impl; [exact Hp|]. intros s Hs. by apply Forall_replicate.
Qed.

Lemma commitments_checked : check_commitments 0 base_x base_y (tail zero_commitments) (tail zero_x) steps = true.
Proof. by vm_compute. Qed.

Definition zero_first : list Z := (nth 0 zero_commitments (0, [])).2.

Lemma zero_first_ok : zero_first = encode (base_point + smul 0 H_point)%G.
Proof.
  apply (check_encoding_ok zero_first base_x); [by vm_compute|]. rewrite smul_0, gadd_0_r.
  assert (ordinate zero_first = base_y) as -> by (by vm_compute). split; reflexivity.
Qed.

Lemma zero_commitments_ok : Forall (entry_at base_point H_point) zero_commitments.
Proof.
  assert (zero_commitments = (0, zero_first) :: tail zero_commitments) as -> by reflexivity. constructor; [exact zero_first_ok|].
  eapply check_commitments_ok; [|exact steps_ok|exact commitments_checked]. rewrite smul_0, gadd_0_r. split; reflexivity.
Qed.
