(* ===== verification/Generators.v ===== *)
(** * The generators

    [src/crypto/generators.cpp]: the five generators as constants, the static
    representations [init_gens] builds from them, and the functions that
    reproduce each constant from its definition, which a debug build asserts.

    The theorem says that initialisation never fails, in a debug build and in a
    release build: every constant decodes, and reproducing it by hashing gives
    the same bytes.  The points the hashes map to are given as certificates of
    the Elligator 2 map and checked. *)

From Stdlib Require Import Zmod.
From S2P Require Import Prelude Varint Limbs ScalarOps Primes FieldOps Group Edwards GroupOps ScalarMult CurveTables CurveOrder HashToPoint Keccak Blake2b Crypto Signatures RctTables.

#[local] Abbreviation B := base_point.

(** ** Definitions *)

Definition G : list Z := 0x58 :: replicate 31 0x66.

Definition T : list Z := [
  220; 66; 225; 211; 48; 123; 45; 75; 59; 2; 114; 154; 190; 87; 126; 35;
  29; 121; 71; 129; 65; 203; 91; 49; 12; 169; 250; 110; 18; 118; 22; 163].

Definition U : list Z := [
  138; 148; 142; 40; 84; 7; 58; 160; 188; 184; 47; 134; 60; 128; 134; 91;
  92; 201; 190; 23; 151; 35; 252; 28; 191; 28; 37; 184; 133; 89; 126; 84].

Definition V : list Z := [
  26; 66; 53; 9; 247; 103; 94; 145; 32; 17; 209; 75; 86; 16; 168; 87; 221;
  213; 136; 115; 52; 19; 181; 21; 224; 3; 188; 64; 85; 133; 91; 241].

Definition unbiased_hash_to_hash_to_ec (seed : list Z) : option (list Z) :=
  seed_hash ← cn_fast_hash seed;
  unbiased_hash_to_ec seed_hash.

Definition reproduce_generator_G : option (list Z) :=
  let four := <[0%nat := 4]> fe_0 in
  let five := <[0%nat := 5]> fe_0 in
  inv_five ← fe_invert five;
  y ← fe_mul four inv_five;
  fe_tobytes y.

(** The decoding is inside an assertion. *)
Definition reproduce_generator_H : option (list Z) :=
  H_temp_hash ← cn_fast_hash G;
  temp_p3 ← ge_frombytes_vartime H_temp_hash;
  temp_p3 ← temp_p3;
  temp_p1p1 ← ge_mul8 (ge_p3_to_p2 temp_p3);
  temp_p3 ← ge_p1p1_to_p3 temp_p1p1;
  ge_p3_tobytes temp_p3.

(** The characters of [Monero Generator T] and, for [U] and [V], of
    [Monero FCMP++ Generator]. *)
Definition T_seed : list Z := [77; 111; 110; 101; 114; 111; 32; 71; 101; 110; 101; 114; 97; 116; 111; 114; 32; 84].
Definition fcmp_seed : list Z := [77; 111; 110; 101; 114; 111; 32; 70; 67; 77; 80; 43; 43; 32; 71; 101; 110; 101; 114; 97; 116; 111; 114; 32].
Definition U_seed : list Z := fcmp_seed ++ [85].
Definition V_seed : list Z := fcmp_seed ++ [86].

Definition reproduce_generator_T : option (list Z) := unbiased_hash_to_hash_to_ec T_seed.
Definition reproduce_generator_U : option (list Z) := unbiased_hash_to_hash_to_ec U_seed.
Definition reproduce_generator_V : option (list Z) := unbiased_hash_to_hash_to_ec V_seed.

(** The static variables. *)
Record generators := Generators {
  G_p3 : ge_p3; H_p3 : ge_p3; T_p3 : ge_p3; U_p3 : ge_p3; V_p3 : ge_p3;
  G_cached : ge_cached; H_cached : ge_cached; T_cached : ge_cached; U_cached : ge_cached; V_cached : ge_cached }.

Definition reproduces (m : option (list Z)) (g : list Z) : option bool := r ← m; Some (bool_decide (r = g)).

(** [None]: a failing assertion of a debug build, or variables that stay
    unwritten in a release build. *)
Definition init_gens (debug : bool) : option generators :=
  G_p3 ← ge_frombytes_vartime G; G_p3 ← G_p3;
  H_p3 ← ge_frombytes_vartime H; H_p3 ← H_p3;
  T_p3 ← ge_frombytes_vartime T; T_p3 ← T_p3;
  U_p3 ← ge_frombytes_vartime U; U_p3 ← U_p3;
  V_p3 ← ge_frombytes_vartime V; V_p3 ← V_p3;
  G_cached ← ge_p3_to_cached G_p3;
  H_cached ← ge_p3_to_cached H_p3;
  T_cached ← ge_p3_to_cached T_p3;
  U_cached ← ge_p3_to_cached U_p3;
  V_cached ← ge_p3_to_cached V_p3;
  _ ← debug_only debug (reproduces reproduce_generator_G G);
  _ ← debug_only debug (reproduces reproduce_generator_H H);
  _ ← debug_only debug (reproduces reproduce_generator_T T);
  _ ← debug_only debug (reproduces reproduce_generator_U U);
  _ ← debug_only debug (reproduces reproduce_generator_V V);
  Some (Generators G_p3 H_p3 T_p3 U_p3 V_p3 G_cached H_cached T_cached U_cached V_cached).

Definition get_G_p3 (debug : bool) : option ge_p3 := G_p3 <$> init_gens debug.

(** ** Certificates of the Elligator 2 map *)

Record certificate := Certificate { c_first : bool; c_root : Z; c_x : Z; c_y : Z }.

Section Check.
Open Scope Zmod_scope.

Definition check_point (x y : Z) : bool :=
  Zmod.eqb (ed_d * of_Z x * of_Z x * of_Z y * of_Z y) (of_Z y * of_Z y - of_Z x * of_Z x - 1).

Definition check_first (u X x y : F) : bool :=
  let v := F2 * (u * u) in let w := v + 1 in let x0 := w * w - mA * mA * v in
  Zmod.eqb (X * X * x0) (F2 * mA * (mA + F2) * w) && Zmod.eqb (x * x) (X * u * (X * u)) &&
  (Zmod.to_Z x mod 2 =? 0)%Z && Zmod.eqb (y * (w - mA * v)) (- (mA * v) - w).

Definition check_second (u x y : F) : bool :=
  let v := F2 * (u * u) in let w := v + 1 in let x0 := w * w - mA * mA * v in
  Zmod.eqb (x * x * x0) (mA * (mA + F2) * w) && (Zmod.to_Z x mod 2 =? 1)%Z && Zmod.eqb (y * (w - mA)) (- mA - w).

Definition check_elligator (n : Z) (c : certificate) : bool :=
  if check_point (c_x c) (c_y c) then
    if c_first c then check_first (of_Z n) (of_Z (c_root c)) (of_Z (c_x c)) (of_Z (c_y c))
    else check_second (of_Z n) (of_Z (c_x c)) (of_Z (c_y c))
  else false.

Lemma F_eqb_ok (x y : F) : Zmod.eqb x y = true -> x = y.
Proof. intros E. by destruct (Zmod.eqb_spec x y). Qed.

Lemma check_first_ok u X P : check_first u X (px P) (py P) = true -> elligator u P.
Proof.
  unfold check_first. cbv zeta. intros E. apply andb_true_iff in E as [E H4%F_eqb_ok]. apply andb_true_iff in E as [E H3%Z.eqb_eq].
  apply andb_true_iff in E as [H1%F_eqb_ok H2%F_eqb_ok]. left. exists X. exact (conj H1 (conj H2 (conj H3 H4))).
Qed.

Lemma check_second_ok u P : check_second u (px P) (py P) = true -> elligator u P.
Proof.
  unfold check_second. cbv zeta. intros E. apply andb_true_iff in E as [E H4%F_eqb_ok]. apply andb_true_iff in E as [H1%F_eqb_ok H3%Z.eqb_eq].
  right. exact (conj H1 (conj H3 H4)).
Qed.

Lemma check_point_ok x y : check_point x y = true -> exists P, at_xy P x y.
Proof. unfold check_point. intros E. apply curve_eqb in E. destruct (on_curve _ _ E) as (P & Ex & Ey). exists P. exact (conj Ex Ey). Qed.

Lemma check_elligator_ok n c : check_elligator n c = true -> exists P, at_xy P (c_x c) (c_y c) /\ elligator (of_Z n) P.
Proof.
  unfold check_elligator. intros E. apply if_both in E as [E1 E]. destruct (check_point_ok _ _ E1) as (P & HP). exists P. split; [exact HP|].
  destruct HP as [Ex Ey]. rewrite <- Ex, <- Ey in E. destruct (c_first c); [exact (check_first_ok _ _ _ E)|exact (check_second_ok _ _ E)].
Qed.
End Check.

(** Is [s] the encoding of [8 P + 8 Q], given the abscissa of that point and the
    coordinates of [8 Q]? *)
Definition check_hash_sum (c c' : certificate) (qx qy tx : Z) (s : list Z) : bool :=
  if check_proj (Nat.iter 3 proj_dbl (c_x c', c_y c', 1)) qx qy then
    if check_proj (proj_madd (Nat.iter 3 proj_dbl (c_x c, c_y c, 1)) qx qy (third qx qy)) tx (ordinate s) then check_encoding s tx else false
  else false.

Lemma eight_at x y P : at_xy P x y -> proj_at (Nat.iter 3 proj_dbl (x, y, 1)) (smul 8 P).
Proof. intros [Ex Ey]. rewrite <- iter_8. exact (proj_iter_ok 3 _ _ (proj_affine _ _ _ Ex Ey)). Qed.

Lemma check_hash_sum_parts c c' qx qy tx s : check_hash_sum c c' qx qy tx s = true ->
  check_proj (Nat.iter 3 proj_dbl (c_x c', c_y c', 1)) qx qy = true /\
  check_proj (proj_madd (Nat.iter 3 proj_dbl (c_x c, c_y c, 1)) qx qy (third qx qy)) tx (ordinate s) = true /\ check_encoding s tx = true.
Proof. unfold check_hash_sum. intros E. apply if_both in E as [E1 E]. apply if_both in E as [E2 E3]. exact (conj E1 (conj E2 E3)). Qed.

Lemma check_hash_sum_ok c c' qx qy tx s P Q : check_hash_sum c c' qx qy tx s = true -> at_xy P (c_x c) (c_y c) -> at_xy Q (c_x c') (c_y c') ->
  s = encode (smul 8 P + smul 8 Q)%G.
Proof.
  intros (E1 & E2 & E3)%check_hash_sum_parts HP HQ.
  pose proof (check_proj_ok _ _ _ _ (eight_at _ _ _ HQ) E1) as H1. pose proof H1 as [Ex Ey].
  apply (check_encoding_ok s tx); [exact E3|].
  exact (check_proj_ok _ _ _ _ (proj_madd_ok _ _ _ _ _ _ (eight_at _ _ _ HP) Ex Ey (third_ok _ _ _ H1)) E2).
Qed.

Lemma unbiased_certified h d c c' qx qy tx s : Z.of_nat (length h) < 2 ^ 63 -> unbiased_digest h = d ->
  check_elligator (le_value (take 32 d)) c = true -> check_elligator (le_value (drop 32 d)) c' = true ->
  check_hash_sum c c' qx qy tx s = true -> unbiased_hash_to_ec h = Some s.
Proof.
  intros Hl Hd E E' Es. destruct (check_elligator_ok _ _ E) as (P & HP & MP). destruct (check_elligator_ok _ _ E') as (Q & HQ & MQ).
  destruct (unbiased_hash_to_ec_maps h Hl) as (r & Er & P' & Q' & MP' & MQ' & ->). rewrite Hd in MP', MQ'.
  rewrite Er, (check_hash_sum_ok _ _ _ _ _ _ _ _ Es HP HQ), (elligator_unique _ _ _ MP MP'), (elligator_unique _ _ _ MQ MQ'). reflexivity.
Qed.

(** ** The constants *)

Definition T_first : certificate := Certificate true
  0xef9a54f52f544dca3e8ab6f9a3f724056905cbdf54d05488705a0b773ccbf52
  0x3085996f243093756618b5aaf4d4f6a81707c2ff336b72b61d19c64cb0b919d2
  0x4505f379d49dcb881a72b055ee4acc546eef2049cbd0b53b3b8dd01c5f7a32cc.
Definition T_second : certificate := Certificate true
  0x7ab08126757fd5bc9762defbd1d91c650e4905432b263403f0941cf524873466
  0x34e4ce12f2f16168d153031aedbb558b7e5d4926eda5f8051e72d7db8dc6b46e
  0x4c60281360cd6e2e5cd83d69197c76504da26bf4f4f1ef1f79c66c740f388ec7.
Definition U_first : certificate := Certificate false
  0x66728e6e3819ff0f40a1f6713afcbe3db711c05ca65c89069481ab63adc7e8dd
  0x66728e6e3819ff0f40a1f6713afcbe3db711c05ca65c89069481ab63adc7e8dd
  0x150052a166af99b640894195415855792e92e576534396a07f19fa13bd7a81ee.
Definition U_second : certificate := Certificate true
  0x707f93be51a582b421cafc814fc2d5e5937e0885cde609abfac7ff2a74db5959
  0x201a3a3da8b221b48eb3ac17c406220c13975ecb7be3ba7c7cdbf92032abc09e
  0x45b8a25d65ce76405784ace6bb116b9d78fe7f97c6254c8e0c58cabb7055449b.
Definition V_first : certificate := Certificate true
  0x750e5be7fa749a308c3bf19789cf0eba2c2f8597b4b7fdce019f8e25a488115b
  0x3a2dfe1b246b7d641aaafc2813b34977a36165400e01fc05d1c992509fa65394
  0x7f1c75af1210928ff67d27d3b687a649179299ca71a77a2c0ff6e9af8cfdfc47.
Definition V_second : certificate := Certificate false
  0x5c81afe24df76709a2633cc8ac94b9eeddc9baf98525f96e4c928833d17d2315
  0x5c81afe24df76709a2633cc8ac94b9eeddc9baf98525f96e4c928833d17d2315
  0x2190f7b77f7cb113ddc916a289c73addc7c00ce32fc204bfb66e38adc4f9035b.

Definition T_hash : list Z := [
  214; 135; 75; 83; 25; 1; 26; 221; 218; 166; 91; 161; 163; 245; 146; 164;
  196; 219; 87; 163; 215; 140; 61; 38; 85; 182; 140; 119; 238; 99; 100; 45].

Lemma T_hashed : cn_fast_hash T_seed = Some T_hash.
Proof. by vm_compute. Qed.

Lemma T_from_seed : unbiased_hash_to_hash_to_ec T_seed = Some T.
Proof.
  unfold unbiased_hash_to_hash_to_ec. rewrite T_hashed, bind_some.
  eapply (unbiased_certified _ _ T_first T_second
    0x273bc7b5ebab7dd6c83a479239ab5a76c8dd9e34a12e2fb1192b1388d84dc09f
    0x1907fd3912fb3ca5d56b5443836f88dd744a22a196b07de532da27978531b6f5
    0x472d48449d622ef2667c0c5fbe7b7a0ef4611816a67d42104cd8540c6f166abf); [done|vm_compute; reflexivity|by vm_compute..].
Qed.

Definition U_hash : list Z := [
  55; 178; 161; 92; 138; 214; 92; 26; 102; 6; 167; 156; 45; 14; 123; 45;
  9; 164; 200; 37; 127; 8; 9; 55; 113; 232; 218; 37; 243; 90; 97; 108].

Lemma U_hashed : cn_fast_hash U_seed = Some U_hash.
Proof. by vm_compute. Qed.

Lemma U_from_seed : unbiased_hash_to_hash_to_ec U_seed = Some U.
Proof.
  unfold unbiased_hash_to_hash_to_ec. rewrite U_hashed, bind_some.
  eapply (unbiased_certified _ _ U_first U_second
    0x769f65fef2e742951385b58e477251a4ec3937a3b9c1800522b0ff837f8450ee
    0x57869df5bd3c18f1f3b0a24da8e340cc7e00e73a66aaa5aec8e9e294c79eed88
    0x54ba6d10f3f3bd8e0b26248760525a7b7463210c602a90be89d090dc1c67cdba); [done|vm_compute; reflexivity|by vm_compute..].
Qed.

Definition V_hash : list Z := [
  253; 35; 164; 165; 174; 19; 77; 126; 193; 92; 179; 154; 253; 14; 1; 20;
  111; 27; 229; 157; 74; 129; 12; 69; 64; 241; 184; 32; 30; 34; 43; 244].

Lemma V_hashed : cn_fast_hash V_seed = Some V_hash.
Proof. by vm_compute. Qed.

Lemma V_from_seed : unbiased_hash_to_hash_to_ec V_seed = Some V.
Proof.
  unfold unbiased_hash_to_hash_to_ec. rewrite V_hashed, bind_some.
  eapply (unbiased_certified _ _ V_first V_second
    0x5af0ce549bb3d6022279a7962032eb79749129e9b6a44618ec4162a7e33dfed1
    0x4a5a51429c060cd0a260c5f40d9a91f4d0f83f80655d6dd7ba221bbf050f32c9
    0x48401afeda8fdf63ec6fb46007c5eaab6b0111bf4c2b6276735c62b00c9d005d); [done|vm_compute; reflexivity|by vm_compute..].
Qed.

Lemma G_encode : G = encode B.
Proof.
  apply (check_encoding_ok G base_x); [by vm_compute|]. assert (ordinate G = base_y) as -> by (by vm_compute). split; reflexivity.
Qed.

Section Reproduction.
Open Scope Zmod_scope.
Add Ring F_ring_generators : (Zmod.ring_theory p25519).

(** [y = 4/5], and the abscissa of the base point is even. *)
Lemma G_reproduced : reproduce_generator_G = Some G.
Proof.
  apply returns_eq. unfold reproduce_generator_G. cbv zeta.
  assert (rep 101 (<[0%nat := 4%Z]> fe_0) (of_Z 4)) as H4 by (apply rep_const; by vm_compute).
  assert (rep 101 (<[0%nat := 5%Z]> fe_0) (of_Z 5)) as H5 by (apply rep_const; by vm_compute).
  eapply returns_bind; [eapply fe_invert_ok; [exact H5|lia]|]. cbn beta. intros i Hi. fe_step.
  eapply returns_mono; [eapply fe_tobytes_ok; [eassumption|lia]|]. cbn beta. intros s <-. rewrite G_encode. unfold encode.
  destruct base_point_spec as [Ey Ep]. rewrite Ep, Z.mul_0_r, Z.add_0_r. apply (f_equal (fun y => le_bytes 32 (Zmod.to_Z y))).
  assert (of_Z 5 <> 0) as Hnz by (by vm_compute).
  pose proof (F_inv_l _ Hnz) as Ei. revert Ey Ei Hnz. generalize (of_Z 5 : F), (of_Z 4 : F), (Zmod.inv (of_Z 5) : F). intros five four inv Ey Ei Hnz.
  apply (F_cancel five); [exact Hnz|]. rewrite Ey. transitivity (four * (inv * five)); [rewrite Ei|]; ring.
Qed.
End Reproduction.

Lemma G_hashed : cn_fast_hash G = Some (encode hashed_point).
Proof.
  assert (cn_fast_hash G = Some (le_bytes 32 (hashed_y + 2 ^ 255))) as -> by (by vm_compute). apply (f_equal Some).
  apply (check_encoding_ok _ hashed_x); [by vm_compute|].
  assert (ordinate (le_bytes 32 (hashed_y + 2 ^ 255)) = hashed_y) as -> by (by vm_compute). split; reflexivity.
Qed.

Lemma H_reproduced : reproduce_generator_H = Some H.
Proof.
  apply returns_eq. unfold reproduce_generator_H. eapply returns_bind_eq; [exact G_hashed|]. cbn beta.
  eapply returns_bind; [apply ge_frombytes_encode|]. cbn beta. intros ? (p & -> & Hp). rewrite bind_some. cbn beta.
  pose proof (ge_p3_to_p2_ok _ _ Hp) as Hp2. do 2 crypto_step. crypto_step. intros s <-. fold H_point. rewrite H_encode. reflexivity.
Qed.

(** A generator made by hashing. *)
Lemma hashed_generator seed g : unbiased_hash_to_hash_to_ec seed = Some g -> exists P, g = encode P /\ in_subgroup P.
Proof.
  unfold unbiased_hash_to_hash_to_ec. rewrite cn_fast_hash_some, bind_some. intros E.
  destruct (unbiased_hash_to_ec_ok (crypto_cn_fast_hash seed)) as (s & Es & H); [destruct (hash_key seed) as [-> _]; done|].
  rewrite Es in E. injection E as <-. exact H.
Qed.

Lemma decode_bind {A} s P (k : ge_p3 -> option A) (Q : A -> Prop) : s = encode P -> (forall p, p3_ok p P -> returns (k p) Q) ->
  returns (o ← ge_frombytes_vartime s; p ← o; k p) Q.
Proof. intros -> Hk. crypto_step. rewrite bind_some. cbn beta. by apply Hk. Qed.

Lemma reproduces_true m g : m = Some g -> reproduces m g = Some true.
Proof. intros ->. unfold reproduces. rewrite bind_some. by rewrite bool_decide_true. Qed.

#[local] Opaque ge_frombytes_vartime.

(** The representations of a generator. *)
Definition generator_ok (g : list Z) (p : ge_p3) (c : ge_cached) (P : point) : Prop := g = encode P /\ p3_ok p P /\ cached_ok c P /\ in_subgroup P.

Section Init.
Context (debug : bool) (PT PU PV : point).
Context (ET : T = encode PT) (HT : in_subgroup PT) (EU : U = encode PU) (HU : in_subgroup PU) (EV : V = encode PV) (HV : in_subgroup PV).

Definition generators_ok (g : generators) : Prop :=
  generator_ok G (G_p3 g) (G_cached g) B /\ generator_ok H (H_p3 g) (H_cached g) H_point /\ generator_ok T (T_p3 g) (T_cached g) PT /\
  generator_ok U (U_p3 g) (U_cached g) PU /\ generator_ok V (V_p3 g) (V_cached g) PV.

Lemma init_gens_ok : returns (init_gens debug) generators_ok.
Proof.
  unfold init_gens. apply (decode_bind G B _ _ G_encode). intros pG HpG. apply (decode_bind H H_point _ _ H_encode). intros pH HpH.
  apply (decode_bind T PT _ _ ET). intros pT HpT. apply (decode_bind U PU _ _ EU). intros pU HpU. apply (decode_bind V PV _ _ EV). intros pV HpV.
  eapply returns_bind; [exact (ge_p3_to_cached_ok _ _ HpG)|]. cbn beta. intros cG HcG.
  eapply returns_bind; [exact (ge_p3_to_cached_ok _ _ HpH)|]. cbn beta. intros cH HcH.
  eapply returns_bind; [exact (ge_p3_to_cached_ok _ _ HpT)|]. cbn beta. intros cT HcT.
  eapply returns_bind; [exact (ge_p3_to_cached_ok _ _ HpU)|]. cbn beta. intros cU HcU.
  eapply returns_bind; [exact (ge_p3_to_cached_ok _ _ HpV)|]. cbn beta. intros cV HcV.
  eapply returns_bind_eq; [apply debug_true, reproduces_true, G_reproduced|]. cbn beta.
  eapply returns_bind_eq; [apply debug_true, reproduces_true, H_reproduced|]. cbn beta.
  eapply returns_bind_eq; [apply debug_true, reproduces_true, T_from_seed|]. cbn beta.
  eapply returns_bind_eq; [apply debug_true, reproduces_true, U_from_seed|]. cbn beta.
  eapply returns_bind_eq; [apply debug_true, reproduces_true, V_from_seed|]. cbn beta. apply returns_some.
  unfold generators_ok, generator_ok. cbn [G_p3 H_p3 T_p3 U_p3 V_p3 G_cached H_cached T_cached U_cached V_cached].
  exact (conj (conj G_encode (conj HpG (conj HcG base_subgroup))) (conj (conj H_encode (conj HpH (conj HcH H_order)))
    (conj (conj ET (conj HpT (conj HcT HT))) (conj (conj EU (conj HpU (conj HcU HU))) (conj EV (conj HpV (conj HcV HV))))))).
Qed.
End Init.

Lemma generators_distinct : NoDup [G; H; T; U; V].
Proof. apply (bool_decide_unpack _). by vm_compute. Qed.

(** C39: The generators.  In a release build and in a debug build, where each
    constant is compared with its reproduction from its definition, initialisation
    succeeds; the static variables represent the points the constants encode, all
    of the prime order: [G] is the base point and [H] is eight times the point
    the hash of [G] encodes.  The constants reproduce: [G] from [y = 4/5], [H]
    from the hash of [G], and [T], [U], [V] from their seeds through Keccak,
    BLAKE2b and the Elligator 2 map. *)
Theorem generators_correct debug : exists g PT PU PV, init_gens debug = Some g /\ generators_ok PT PU PV g /\
  reproduce_generator_G = Some G /\ reproduce_generator_H = Some H /\
  reproduce_generator_T = Some T /\ reproduce_generator_U = Some U /\ reproduce_generator_V = Some V /\ NoDup [G; H; T; U; V].
Proof.
  destruct (hashed_generator T_seed T T_from_seed) as (PT & ET & HT), (hashed_generator U_seed U U_from_seed) as (PU & EU & HU),
    (hashed_generator V_seed V V_from_seed) as (PV & EV & HV).
  destruct (init_gens_ok debug PT PU PV ET HT EU HU EV HV) as (g & Eg & Hg).
  exists g, PT, PU, PV. split; [exact Eg|]. split; [exact Hg|]. split; [exact G_reproduced|]. split; [exact H_reproduced|].
  split; [exact T_from_seed|]. split; [exact U_from_seed|]. split; [exact V_from_seed|]. exact generators_distinct.
Qed.
