(* ===== verification/Base58.v ===== *)
(** * Base58 block encoding

    [src/common/base58.cpp]: data is cut in blocks of 8 bytes, each encoded
    as a fixed number of base-58 digits ([encoded_block_sizes]), and an
    address is a varint tag, the payload and 4 checksum bytes.  The loops
    over buffers are translated with the buffers; the reference is the
    positional notation of each block. *)

From S2P Require Import Prelude Varint IntUtil Keccak.

(** ** Tables *)

(** The ASCII codes of [alphabet]. *)
Definition alphabet : list Z :=
  [49; 50; 51; 52; 53; 54; 55; 56; 57;
   65; 66; 67; 68; 69; 70; 71; 72; 74; 75; 76; 77; 78; 80; 81; 82; 83; 84; 85; 86; 87; 88; 89; 90;
   97; 98; 99; 100; 101; 102; 103; 104; 105; 106; 107; 109; 110; 111; 112; 113; 114; 115; 116;
   117; 118; 119; 120; 121; 122].
Definition alphabet_size : Z := 58.
Definition encoded_block_sizes : list Z := [0; 2; 3; 5; 6; 7; 9; 10; 11].
Definition full_block_size : Z := 8.
Definition full_encoded_block_size : Z := 11.
Definition addr_checksum_size : Z := 4.

Definition alphabet_at (i : Z) : Z := nth (Z.to_nat i) alphabet 0.
Definition encoded_size_at (i : Z) : Z := nth (Z.to_nat i) encoded_block_sizes 0.

(** [reverse_alphabet]: the table built by the constructor, and its lookup. *)
Definition reverse_alphabet_data : list Z :=
  fold_left (fun m_data i => <[Z.to_nat (alphabet_at (Z.of_nat i) - alphabet_at 0) := Z.of_nat i]> m_data)
    (seq 0 58)
    (replicate (Z.to_nat (alphabet_at (alphabet_size - 1) - alphabet_at 0 + 1)) (-1)).

Definition reverse_alphabet (letter : Z) : Z :=
  let idx := u64 (sint 8 letter - alphabet_at 0) in
  if idx <? Z.of_nat (length reverse_alphabet_data)
  then nth (Z.to_nat idx) reverse_alphabet_data (-1) else -1.

(** [decoded_block_sizes]: likewise. *)
Definition decoded_block_sizes_data : list Z :=
  fold_left (fun m_data i => <[Z.to_nat (encoded_size_at (Z.of_nat i)) := Z.of_nat i]> m_data)
    (seq 0 9) (replicate (Z.to_nat (full_encoded_block_size + 1)) (-1)).

Definition decoded_block_sizes (encoded_block_size : Z) : Z :=
  nth (Z.to_nat encoded_block_size) decoded_block_sizes_data (-1).

(** ** Blocks *)

(** On a little-endian host [SWAP64BE] is [SWAP64]. *)
Definition uint_8be_to_64 (data : list Z) : Z :=
  SWAP64 (le_value (replicate (8 - length data) 0 ++ data)).

Definition uint_64_to_8be (num : Z) (size : nat) : list Z :=
  drop (8 - size) (le_bytes 8 (SWAP64 num)).

(** The loop of [encode_block]: [num], [i] and the buffer, [None] once a
    write falls outside the buffer. *)
Definition encode_block_step (s : Z * Z * option (list Z)) : Z * Z * option (list Z) :=
  let '(num, i, res) := s in
  let remainder := num mod alphabet_size in
  let num := num / alphabet_size in
  let res := match res with
             | Some r => if (0 <=? i) && (i <? Z.of_nat (length r))
                         then Some (<[Z.to_nat i := alphabet_at remainder]> r) else None
             | None => None
             end in
  (num, i - 1, res).

Definition encode_block (block res : list Z) : option (list Z) :=
  let num := uint_8be_to_64 block in
  let i := encoded_size_at (Z.of_nat (length block)) - 1 in
  match while_fuel (fun s : Z * Z * option (list Z) => 0 <? fst (fst s)) encode_block_step 64
          (num, i, Some res) with
  | Some (_, _, res) => res
  | None => None
  end.

(** The digit loop of [decode_block], from the last symbol to the first. *)
Fixpoint decode_block_loop (symbols : list Z) (res_num order : Z) : option Z :=
  match symbols with
  | [] => Some res_num
  | c :: symbols' =>
      let digit := reverse_alphabet c in
      if digit <? 0 then None
      else
        let '(lo, product_hi) := mul128 order (u64 digit) in
        let tmp := u64 (res_num + lo) in
        if (tmp <? res_num) || negb (0 =? product_hi) then None
        else decode_block_loop symbols' tmp (u64 (order * alphabet_size))
  end.

Definition decode_block (block : list Z) : option (list Z) :=
  let size := Z.of_nat (length block) in
  let res_size := decoded_block_sizes size in
  if res_size <=? 0 then None
  else
    match decode_block_loop (rev block) 0 1 with
    | None => None
    | Some res_num =>
        if (res_size <? full_block_size) && (u64 (Z.shiftl 1 (8 * res_size)) <=? res_num)
        then None
        else Some (uint_64_to_8be res_num (Z.to_nat res_size))
    end.

(** ** Buffers *)

(** Run [f] on [n] bytes of [buf] at offset [off]; the rest is untouched. *)
Definition on_slice (f : list Z -> option (list Z)) (off n : nat) (buf : list Z)
    : option (list Z) :=
  s ← f (take n (drop off buf));
  Some (take off buf ++ s ++ drop (off + n) buf).

Definition encode (data : list Z) : option (list Z) :=
  match data with
  | [] => Some []
  | _ =>
    let size := Z.of_nat (length data) in
    let full_block_count := size / full_block_size in
    let last_block_size := size mod full_block_size in
    let res_size := full_block_count * full_encoded_block_size
                    + encoded_size_at last_block_size in
    let res := replicate (Z.to_nat res_size) (alphabet_at 0) in
    res ← foldl (fun acc i =>
              res ← acc;
              on_slice (encode_block (chunk 8 data i)) (i * 11) 11 res)
            (Some res) (seq 0 (Z.to_nat full_block_count));
    if 0 <? last_block_size
    then
      on_slice (encode_block (take (Z.to_nat last_block_size)
                                   (drop (Z.to_nat full_block_count * 8) data)))
        (Z.to_nat full_block_count * 11) (Z.to_nat (encoded_size_at last_block_size)) res
    else Some res
  end.

Definition decode (enc : list Z) : option (list Z) :=
  match enc with
  | [] => Some []
  | _ =>
    let size := Z.of_nat (length enc) in
    let full_block_count := size / full_encoded_block_size in
    let last_block_size := size mod full_encoded_block_size in
    let last_block_decoded_size := decoded_block_sizes last_block_size in
    if last_block_decoded_size <? 0 then None
    else
      let data_size := full_block_count * full_block_size + last_block_decoded_size in
      let data := replicate (Z.to_nat data_size) 0 in
      data ← foldl (fun acc i =>
                data ← acc;
                on_slice (fun _ => decode_block (chunk 11 enc i)) (i * 8) 8 data)
              (Some data) (seq 0 (Z.to_nat full_block_count));
      if 0 <? last_block_size
      then
        on_slice (fun _ => decode_block (take (Z.to_nat last_block_size)
                                           (drop (Z.to_nat full_block_count * 11) enc)))
          (Z.to_nat full_block_count * 8) (Z.to_nat last_block_decoded_size) data
      else Some data
  end.

(** ** Reference: positional notation *)

(** The [m] base-58 digits of [x], least significant first, and back. *)
Fixpoint le58 (m : nat) (x : Z) : list Z :=
  match m with O => [] | S m' => x mod 58 :: le58 m' (x / 58) end.

Fixpoint value58 (ds : list Z) : Z :=
  match ds with [] => 0 | d :: ds' => d + 58 * value58 ds' end.

(** What a block of [n] bytes encodes to. *)
Definition block_spec (block : list Z) : list Z :=
  rev (map alphabet_at (le58 (Z.to_nat (encoded_size_at (Z.of_nat (length block))))
                             (be_value block))).

Lemma length_le58 m x : length (le58 m x) = m.
Proof. revert x; induction m as [|m IH]; intros x; simpl; [done|]. by rewrite IH. Qed.

Lemma le58_digits m x : Forall (fun d => 0 <= d < 58) (le58 m x).
Proof. revert x; induction m as [|m IH]; intros x; simpl; constructor; [zdm|apply IH]. Qed.

Lemma value58_range ds :
  Forall (fun d => 0 <= d < 58) ds -> 0 <= value58 ds < 58 ^ Z.of_nat (length ds).
Proof.
  induction 1 as [|d ds Hd Hds IH]; [simpl; lia|].
  cbn [value58 length]. rewrite Nat2Z.inj_succ, Z.pow_succ_r by lia. lia.
Qed.

Lemma value58_le58 m x : 0 <= x < 58 ^ Z.of_nat m -> value58 (le58 m x) = x.
Proof.
  revert x; induction m as [|m IH]; intros x Hx; [simpl in *; lia|].
  cbn [value58 le58]. rewrite Nat2Z.inj_succ, Z.pow_succ_r in Hx by lia.
  rewrite IH; [zdm|]. split; [zdm|]. apply Z.div_lt_upper_bound; lia.
Qed.

Lemma le58_value58 ds :
  Forall (fun d => 0 <= d < 58) ds -> le58 (length ds) (value58 ds) = ds.
Proof.
  induction 1 as [|d ds Hd Hds IH]; [done|]. cbn [value58 le58 length].
  assert ((d + 58 * value58 ds) / 58 = value58 ds) as -> by zdm.
  rewrite IH. f_equal. zdm.
Qed.

Lemma value58_snoc ds d :
  value58 (ds ++ [d]) = value58 ds + 58 ^ Z.of_nat (length ds) * d.
Proof.
  induction ds as [|x ds IH]; [simpl; lia|]. cbn [app value58 length].
  rewrite IH, Nat2Z.inj_succ, Z.pow_succ_r by lia. ring.
Qed.

Lemma le58_zero m : le58 m 0 = replicate m 0.
Proof.
  induction m as [|m IH]; [done|]. cbn [le58 replicate].
  change (0 / 58) with 0. by rewrite IH.
Qed.

(** ** The tables *)

Lemma reverse_alphabet_at d : 0 <= d < 58 -> reverse_alphabet (alphabet_at d) = d.
Proof.
  intros Hd.
  assert (forallb (fun d => reverse_alphabet (alphabet_at d) =? d) (seqZ 0 58) = true) as H
    by (by vm_compute).
  rewrite forallb_forall in H. apply Z.eqb_eq, H, list_elem_of_In, elem_of_seqZ. lia.
Qed.

Lemma alphabet_at_reverse c :
  is_u8 c -> 0 <= reverse_alphabet c ->
  reverse_alphabet c < 58 /\ alphabet_at (reverse_alphabet c) = c.
Proof.
  intros Hc.
  pose proof (byte_forall (fun c => (reverse_alphabet c <? 0) ||
     ((reverse_alphabet c <? 58) && (alphabet_at (reverse_alphabet c) =? c)))
     ltac:(by vm_compute) c Hc) as H.
  intros. rewrite orb_true_iff, andb_true_iff, !Z.ltb_lt, Z.eqb_eq in H. lia.
Qed.

Lemma alphabet_at_byte d : 0 <= d < 58 -> is_u8 (alphabet_at d).
Proof.
  intros Hd.
  assert (forallb (fun d => bool_decide (is_u8 (alphabet_at d))) (seqZ 0 58) = true) as H
    by (by vm_compute).
  rewrite forallb_forall in H. eapply bool_decide_eq_true_1, H, list_elem_of_In, elem_of_seqZ. lia.
Qed.

(** Block sizes: [encoded_block_sizes] is injective, [decoded_block_sizes]
    inverts it, and the digits suffice for the bytes. *)
Lemma sizes_ok n : 1 <= n <= 8 ->
  decoded_block_sizes (encoded_size_at n) = n /\
  2 <= encoded_size_at n <= 11 /\
  256 ^ n <= 58 ^ encoded_size_at n.
Proof.
  intros Hn.
  assert (n = 1 \/ n = 2 \/ n = 3 \/ n = 4 \/ n = 5 \/ n = 6 \/ n = 7 \/ n = 8) as H by lia.
  destruct_or! H; subst n; by vm_compute.
Qed.

Lemma decoded_sizes_ok m : 0 <= m <= 11 -> 0 < decoded_block_sizes m ->
  1 <= decoded_block_sizes m <= 8 /\ encoded_size_at (decoded_block_sizes m) = m.
Proof.
  intros Hm.
  assert (m = 0 \/ m = 1 \/ m = 2 \/ m = 3 \/ m = 4 \/ m = 5 \/ m = 6 \/ m = 7 \/ m = 8 \/
    m = 9 \/ m = 10 \/ m = 11) as H by lia.
  destruct_or! H; subst m; vm_compute; intuition congruence.
Qed.

(** ** Blocks *)

Lemma uint_8be_to_64_spec data :
  bytes_ok data -> (1 <= length data <= 8)%nat -> uint_8be_to_64 data = be_value data.
Proof.
  intros Hd Hlen. unfold uint_8be_to_64.
  rewrite SWAP64_le_value.
  - unfold be_value. rewrite rev_app_distr, le_value_app.
    rewrite rev_replicate, le_value_zeros. lia.
  - apply Forall_app. split; [apply Forall_replicate; by vm_compute|done].
  - rewrite length_app, length_replicate. lia.
Qed.

Lemma le_bytes_rev_be n x : rev (be_bytes n x) = le_bytes n x.
Proof. unfold be_bytes. apply rev_involutive. Qed.

Lemma SWAP64_be_bytes x : is_u64 x -> le_bytes 8 (SWAP64 x) = be_bytes 8 x.
Proof.
  intros Hx. rewrite <- (le_value_bytes 8 x) at 1 by (unfold is_uint in Hx; lia).
  rewrite SWAP64_le_value by (apply le_bytes_ok || apply length_le_bytes).
  unfold be_value. rewrite <- (length_be_bytes 8 x) at 1.
  apply le_bytes_value, be_bytes_ok.
Qed.

Lemma le_bytes_app n m x :
  le_bytes (n + m) x = le_bytes n x ++ le_bytes m (x / 256 ^ Z.of_nat n).
Proof.
  revert x; induction n as [|n IH]; intros x; [by rewrite Z.div_1_r|].
  cbn [Nat.add]. rewrite !le_bytes_S, IH, Nat2Z.inj_succ, Z.pow_succ_r by lia.
  by rewrite Z.div_div by lia.
Qed.

Lemma uint_64_to_8be_spec num size :
  is_u64 num -> (1 <= size <= 8)%nat -> uint_64_to_8be num size = be_bytes size num.
Proof.
  intros Hn Hs. unfold uint_64_to_8be. rewrite SWAP64_be_bytes by done.
  unfold be_bytes. replace 8%nat with (size + (8 - size))%nat at 2 by lia.
  rewrite le_bytes_app, rev_app_distr.
  rewrite drop_app_length'; [done|]. rewrite length_rev, length_le_bytes. lia.
Qed.

Lemma encode_block_loop fuel m num tail :
  0 <= num < 58 ^ Z.of_nat m -> (m <= fuel)%nat ->
  exists n' i',
  while_fuel (fun s : Z * Z * option (list Z) => 0 <? fst (fst s)) encode_block_step fuel
    (num, Z.of_nat m - 1, Some (replicate m (alphabet_at 0) ++ tail)) =
  Some (n', i', Some (rev (map alphabet_at (le58 m num)) ++ tail)).
Proof.
  revert m num tail; induction fuel as [|fuel IH]; intros m num tail Hn Hf;
    cbn [while_fuel fst].
  - assert (m = 0%nat) as -> by lia. simpl in Hn.
    assert (num = 0) as -> by lia. simpl. eauto.
  - destruct (Z.ltb_spec 0 num) as [Hpos|Hz].
    + destruct m as [|m]; [simpl in Hn; lia|].
      cbn [encode_block_step].
      replace ((0 <=? Z.of_nat (S m) - 1) &&
        (Z.of_nat (S m) - 1 <? Z.of_nat (length (replicate (S m) (alphabet_at 0) ++ tail))))
        with true by (symmetry; rewrite length_app, length_replicate; bcases).
      replace (Z.of_nat (S m) - 1) with (Z.of_nat m) by lia. rewrite Nat2Z.id.
      replace (replicate (S m) (alphabet_at 0) ++ tail)
        with (replicate m (alphabet_at 0) ++ alphabet_at 0 :: tail)
        by (rewrite replicate_S_end, <- app_assoc; done).
      rewrite insert_app_r_alt by (rewrite length_replicate; lia).
      rewrite length_replicate, Nat.sub_diag. cbn [insert list_insert].
      unfold alphabet_size.
      destruct (IH m (num / 58) (alphabet_at (num mod 58) :: tail)) as (n' & i' & ->); [|lia|].
      { rewrite Nat2Z.inj_succ, Z.pow_succ_r in Hn by lia.
        split; [zdm|]. apply Z.div_lt_upper_bound; lia. }
      exists n', i'. cbn [le58 map rev]. by rewrite <- app_assoc.
    + assert (num = 0) as -> by lia. rewrite le58_zero.
      eexists _, _. do 4 f_equal.
      rewrite <- fmap_replicate. change (fmap alphabet_at) with (map alphabet_at).
      by rewrite <- map_rev, rev_replicate.
Qed.

Lemma encode_block_spec block :
  bytes_ok block -> (1 <= length block <= 8)%nat ->
  encode_block block (replicate (Z.to_nat (encoded_size_at (Z.of_nat (length block)))) (alphabet_at 0))
  = Some (block_spec block).
Proof.
  intros Hb Hlen. unfold encode_block, block_spec. rewrite uint_8be_to_64_spec by done.
  destruct (sizes_ok (Z.of_nat (length block))) as (_ & Hsz & Hpow); [lia|].
  pose proof (be_value_range block Hb) as Hr.
  set (m := Z.to_nat (encoded_size_at (Z.of_nat (length block)))).
  replace (encoded_size_at (Z.of_nat (length block))) with (Z.of_nat m) in * by lia.
  destruct (encode_block_loop 64 m (be_value block) []) as (n' & i' & E); [lia|lia|].
  rewrite !app_nil_r in E. by rewrite E.
Qed.

Lemma length_block_spec block :
  length (block_spec block) = Z.to_nat (encoded_size_at (Z.of_nat (length block))).
Proof. unfold block_spec. by rewrite length_rev, length_map, length_le58. Qed.

Lemma pow58_u64 k : 0 <= k <= 10 -> is_u64 (58 ^ k).
Proof.
  intros Hk. split; [lia|]. apply Z.le_lt_trans with (58 ^ 10); [|by vm_compute].
  apply Z.pow_le_mono_r; lia.
Qed.

(** One round of the digit loop, overflow checks in arithmetic form. *)
Lemma decode_block_loop_step c cs res k :
  is_u8 c -> is_u64 res -> 0 <= k <= 10 ->
  decode_block_loop (c :: cs) res (u64 (58 ^ k)) =
    if (0 <=? reverse_alphabet c) && (res + 58 ^ k * reverse_alphabet c <? 2 ^ 64)
    then decode_block_loop cs (res + 58 ^ k * reverse_alphabet c) (u64 (58 ^ (k + 1)))
    else None.
Proof.
  intros Hc Hres Hk. cbn [decode_block_loop].
  destruct (Z.ltb_spec (reverse_alphabet c) 0).
  { destruct (Z.leb_spec 0 (reverse_alphabet c)); [lia|done]. }
  destruct (alphabet_at_reverse c Hc) as [Hd _]; [lia|].
  set (d := reverse_alphabet c) in *.
  destruct (Z.leb_spec 0 d); [|lia]. cbn [andb].
  pose proof (pow58_u64 k Hk) as Hp.
  rewrite (wrapu_small 64 (58 ^ k)), (wrapu_small 64 d) by (done || (unfold is_uint; lia)).
  destruct (mul128_spec (58 ^ k) d) as (Hlo & Hhi & E); [done|unfold is_uint; lia|].
  destruct (mul128 (58 ^ k) d) as [lo hi]. cbn [fst snd] in *.
  rewrite (Z.mul_comm (58 ^ k) alphabet_size). unfold alphabet_size.
  rewrite <- Z.pow_succ_r, Z.add_1_r by lia.
  rewrite <- E. clear E.
  destruct (Z.ltb_spec (res + (hi * 2 ^ 64 + lo)) (2 ^ 64)) as [Hfit|Hov].
  - assert (hi = 0) as -> by (unfold is_uint in *; lia).
    rewrite wrapu_small by (unfold is_uint in *; lia).
    destruct (Z.ltb_spec (res + lo) res); [unfold is_uint in *; lia|]. done.
  - destruct (Z.eqb_spec 0 hi) as [<-|]; [|by rewrite orb_true_r].
    replace (u64 (res + lo) <? res) with true; [done|]. symmetry. zdm.
Qed.

Lemma decode_block_loop_complete ds res k :
  Forall (fun d => 0 <= d < 58) ds -> is_u64 res -> 0 <= k ->
  k + Z.of_nat (length ds) <= 11 -> res + 58 ^ k * value58 ds < 2 ^ 64 ->
  decode_block_loop (map alphabet_at ds) res (u64 (58 ^ k)) = Some (res + 58 ^ k * value58 ds).
Proof.
  revert res k; induction ds as [|d ds IH]; intros res k Hds Hres Hk Hlen Hfit.
  { cbn [value58 map decode_block_loop]. f_equal. lia. }
  apply Forall_cons in Hds as [Hd Hds]. cbn [map].
  pose proof (value58_range ds Hds) as Hv. cbn [value58 length] in *.
  rewrite decode_block_loop_step; [|by apply alphabet_at_byte|done|lia].
  rewrite reverse_alphabet_at by done.
  assert (58 ^ (k + 1) = 58 * 58 ^ k) as Hp by (rewrite Z.add_1_r, Z.pow_succ_r by lia; lia).
  assert (0 < 58 ^ k) by lia.
  replace ((0 <=? d) && (res + 58 ^ k * d <? 2 ^ 64)) with true
    by (symmetry; rewrite andb_true_iff, Z.leb_le, Z.ltb_lt; nia).
  rewrite IH; [f_equal; rewrite Hp; ring|done| |lia|lia|rewrite Hp; nia].
  unfold is_uint in *. nia.
Qed.

Lemma decode_block_loop_sound cs res k v :
  bytes_ok cs -> is_u64 res -> 0 <= k -> k + Z.of_nat (length cs) <= 11 ->
  decode_block_loop cs res (u64 (58 ^ k)) = Some v ->
  exists ds, Forall (fun d => 0 <= d < 58) ds /\ cs = map alphabet_at ds /\
    v = res + 58 ^ k * value58 ds /\ is_u64 v.
Proof.
  revert res k; induction cs as [|c cs IH]; intros res k Hcs Hres Hk Hlen Hdec.
  { simpl in Hdec. simplify_eq. exists []. cbn [value58 map].
    split_and!; [constructor|done|lia|done]. }
  apply Forall_cons in Hcs as [Hc Hcs]. cbn [length] in Hlen.
  rewrite decode_block_loop_step in Hdec by (done || lia).
  destruct (_ && _) eqn:Hb; [|done].
  rewrite andb_true_iff, Z.leb_le, Z.ltb_lt in Hb.
  destruct (alphabet_at_reverse c Hc) as [Hd Hinv]; [lia|].
  set (d := reverse_alphabet c) in *. assert (0 < 58 ^ k) by lia.
  apply IH in Hdec as (ds & Hds & -> & -> & Hv); [|done|unfold is_uint in *; nia|lia|lia].
  exists (d :: ds). cbn [map value58]. rewrite Hinv.
  split_and!; [by constructor; [lia|]|done| |done].
  rewrite Z.add_1_r, Z.pow_succ_r by lia. ring.
Qed.

(** [decode_block] accepts exactly the encodings of blocks. *)
Lemma decode_block_complete block :
  bytes_ok block -> (1 <= length block <= 8)%nat ->
  decode_block (block_spec block) = Some block.
Proof.
  intros Hb Hlen. unfold decode_block. rewrite length_block_spec.
  destruct (sizes_ok (Z.of_nat (length block))) as (Hdec & Hsz & Hpow); [lia|].
  rewrite Z2Nat.id, Hdec by lia.
  destruct (Z.leb_spec (Z.of_nat (length block)) 0); [lia|].
  unfold block_spec at 1. rewrite rev_involutive.
  pose proof (be_value_range block Hb) as Hr.
  assert (256 ^ Z.of_nat (length block) <= 256 ^ 8) by (apply Z.pow_le_mono_r; lia).
  set (m := Z.to_nat (encoded_size_at (Z.of_nat (length block)))).
  replace (encoded_size_at (Z.of_nat (length block))) with (Z.of_nat m) in Hpow, Hsz by lia.
  pose proof (value58_le58 m (be_value block) ltac:(lia)) as Hval.
  pose proof (decode_block_loop_complete (le58 m (be_value block)) 0 0) as Hloop.
  rewrite Hval, length_le58 in Hloop. change (58 ^ 0) with 1 in Hloop.
  change (u64 1) with 1 in Hloop. change (256 ^ 8) with (2 ^ 64) in *.
  rewrite Hloop by (try (apply le58_digits); lia || by vm_compute).
  rewrite Z.mul_1_l, Z.add_0_l.
  replace (_ && _) with false.
  2: { symmetry. apply andb_false_iff. unfold full_block_size.
    destruct (Z.ltb_spec (Z.of_nat (length block)) 8); [right|by left].
    rewrite shiftl_mul, Z.mul_1_l by lia. rewrite pow256 in Hr.
    rewrite wrapu_small; [apply Z.leb_gt; lia|].
    split; [lia|]. apply Z.pow_lt_mono_r; lia. }
  rewrite Nat2Z.id, uint_64_to_8be_spec, be_bytes_value; try done.
  split; lia.
Qed.

Lemma decode_block_sound enc block :
  bytes_ok enc -> (length enc <= 11)%nat -> decode_block enc = Some block ->
  bytes_ok block /\ (1 <= length block <= 8)%nat /\
  Z.of_nat (length block) = decoded_block_sizes (Z.of_nat (length enc)) /\
  enc = block_spec block.
Proof.
  intros He Hlen. unfold decode_block.
  destruct (Z.leb_spec (decoded_block_sizes (Z.of_nat (length enc))) 0) as [|Hpos]; [done|].
  destruct (decoded_sizes_ok (Z.of_nat (length enc))) as [Hsz Henc]; [lia..|].
  set (n := decoded_block_sizes (Z.of_nat (length enc))) in *.
  destruct (decode_block_loop (rev enc) 0 1) as [v|] eqn:Hl; [|done].
  change 1 with (u64 (58 ^ 0)) in Hl.
  apply decode_block_loop_sound in Hl as (ds & Hds & Hrev & Hv & Hu64);
    [|by apply bytes_ok_rev|by vm_compute|lia|rewrite length_rev; lia].
  destruct (_ && _) eqn:Hov; [done|]. intros [= <-].
  rewrite uint_64_to_8be_spec by (done || lia). rewrite length_be_bytes, Z2Nat.id by lia.
  split_and!; [apply be_bytes_ok|lia|lia|done|].
  change (58 ^ 0) with 1 in Hv. rewrite Z.mul_1_l, Z.add_0_l in Hv.
  assert (0 <= v < 256 ^ n) as Hfit.
  { unfold is_uint in Hu64. split; [lia|]. unfold full_block_size in Hov.
    apply andb_false_iff in Hov as [Hov|Hov]; rewrite ?Z.ltb_ge, ?Z.leb_gt in Hov.
    - assert (n = 8) as -> by lia. change (256 ^ 8) with (2 ^ 64). lia.
    - rewrite shiftl_mul, Z.mul_1_l in Hov by lia.
      destruct (decide (n = 8)) as [->|]; [change (256 ^ 8) with (2 ^ 64); lia|].
      rewrite wrapu_small in Hov by (split; [lia|]; apply Z.pow_lt_mono_r; lia).
      rewrite <- (Z2Nat.id n), pow256, Z2Nat.id by lia. done. }
  unfold block_spec. rewrite length_be_bytes, Z2Nat.id, Henc, Nat2Z.id by lia.
  rewrite be_value_bytes by (rewrite Z2Nat.id by lia; done).
  rewrite Hv. rewrite <- (length_rev enc), Hrev, length_map, le58_value58 by done.
  rewrite <- Hrev. by rewrite rev_involutive.
Qed.

(** ** Buffers *)

Lemma on_slice_app f p s t :
  on_slice f (length p) (length s) (p ++ s ++ t) = r ← f s; Some (p ++ r ++ t).
Proof.
  unfold on_slice. rewrite drop_app_length, take_app_length, take_app_length.
  rewrite drop_app_add'; [|done]. by rewrite drop_app_length.
Qed.

(** The buffer after [n] full blocks. *)
Definition enc_prefix (data : list Z) (n : nat) : list Z :=
  concat (map (fun i => block_spec (chunk 8 data i)) (seq 0 n)).

Lemma length_full_spec b : length b = 8%nat -> length (block_spec b) = 11%nat.
Proof. intros H. by rewrite length_block_spec, H. Qed.

Lemma length_enc_prefix data n :
  (n * 8 <= length data)%nat -> length (enc_prefix data n) = (n * 11)%nat.
Proof.
  intros. apply length_concat_uniform. intros i Hi. apply length_full_spec, length_chunk. lia.
Qed.

Lemma enc_prefix_S data n :
  enc_prefix data (S n) = enc_prefix data n ++ block_spec (chunk 8 data n).
Proof.
  unfold enc_prefix. rewrite seq_S, map_app, concat_app. cbn [map concat].
  by rewrite app_nil_r.
Qed.

Lemma bytes_ok_chunk k l i : bytes_ok l -> bytes_ok (chunk k l i).
Proof. intros. unfold chunk. by apply Forall_take, Forall_drop. Qed.

Lemma encode_loop data n R :
  bytes_ok data -> (n * 8 <= length data)%nat -> (n * 11 <= R)%nat ->
  foldl (fun acc i => res ← acc; on_slice (encode_block (chunk 8 data i)) (i * 11) 11 res)
    (Some (replicate R (alphabet_at 0))) (seq 0 n)
  = Some (enc_prefix data n ++ replicate (R - n * 11) (alphabet_at 0)).
Proof.
  intros Hd. induction n as [|n IH]; intros Hlen HR; [simpl; by rewrite Nat.sub_0_r|].
  rewrite seq_S, foldl_app, IH by lia. cbn [foldl Nat.add].
  replace (R - n * 11)%nat with (11 + (R - S n * 11))%nat by lia.
  rewrite replicate_add.
  pose proof (on_slice_app (encode_block (chunk 8 data n)) (enc_prefix data n)
    (replicate 11 (alphabet_at 0)) (replicate (R - S n * 11) (alphabet_at 0))) as Hs.
  rewrite length_enc_prefix, length_replicate in Hs by lia. etransitivity; [exact Hs|].
  pose proof (length_chunk 8 data n ltac:(lia)) as Hc.
  pose proof (encode_block_spec (chunk 8 data n) (bytes_ok_chunk _ _ _ Hd) ltac:(lia)) as He.
  rewrite Hc in He. change (Z.to_nat (encoded_size_at (Z.of_nat 8))) with 11%nat in He.
  rewrite He. simpl. by rewrite enc_prefix_S, <- app_assoc.
Qed.

(** The encoding of a whole buffer. *)
Definition enc_ref (data : list Z) : list Z :=
  let q := (length data / 8)%nat in
  enc_prefix data q ++
  (if decide (length data mod 8 = 0)%nat then [] else block_spec (drop (q * 8) data)).

Lemma encode_total data : bytes_ok data -> encode data = Some (enc_ref data).
Proof.
  intros Hd. destruct data as [|b0 data0] eqn:Hdata; [done|]. rewrite <- Hdata in *.
  assert (encode data = encode data) as E by done. unfold encode at 2 in E.
  rewrite Hdata in E at 2. rewrite E. clear E.
  unfold enc_ref, full_block_size, full_encoded_block_size.
  set (q := (length data / 8)%nat). set (r := (length data mod 8)%nat).
  assert (length data = 8 * q + r /\ r < 8)%nat as [Hlen Hr].
  { subst q r. split; [apply Nat.div_mod_eq|apply Nat.mod_upper_bound; lia]. }
  assert (Z.of_nat (length data) / 8 = Z.of_nat q) as -> by (subst q; zdm).
  assert (Z.of_nat (length data) mod 8 = Z.of_nat r) as -> by (subst r; zdm).
  rewrite !Nat2Z.id. cbv zeta.
  assert (0 <= encoded_size_at (Z.of_nat r)) as Hes.
  { destruct (decide (r = 0)%nat) as [->|]; [by vm_compute|].
    destruct (sizes_ok (Z.of_nat r)) as (_ & ? & _); lia. }
  rewrite encode_loop by (done || lia). cbn [mbind option_bind].
  replace (Z.to_nat (Z.of_nat q * 11 + encoded_size_at (Z.of_nat r)) - q * 11)%nat
    with (Z.to_nat (encoded_size_at (Z.of_nat r))) by lia.
  destruct (decide (r = 0)%nat) as [Hr0|Hr0].
  { rewrite Hr0. by rewrite !app_nil_r. }
  destruct (Z.ltb_spec 0 (Z.of_nat r)); [|lia].
  pose proof (on_slice_app (encode_block (take r (drop (q * 8) data))) (enc_prefix data q)
    (replicate (Z.to_nat (encoded_size_at (Z.of_nat r))) (alphabet_at 0)) []) as Hs.
  rewrite length_enc_prefix, length_replicate in Hs by lia.
  rewrite app_nil_r in Hs. rewrite Hs.
  rewrite take_ge by (rewrite length_drop; lia).
  assert (length (drop (q * 8) data) = r) as Hld by (rewrite length_drop; lia).
  pose proof (encode_block_spec (drop (q * 8) data) (Forall_drop _ _ _ Hd) ltac:(lia)) as He.
  rewrite Hld in He. rewrite He. cbn [mbind option_bind]. by rewrite app_nil_r.
Qed.

Fixpoint dec_prefix (enc : list Z) (n : nat) : option (list Z) :=
  match n with
  | O => Some []
  | S n' => p ← dec_prefix enc n'; b ← decode_block (chunk 11 enc n'); Some (p ++ b)
  end.

Lemma enc_prefix_ext d d' n :
  (forall i, (i < n)%nat -> chunk 8 d i = chunk 8 d' i) -> enc_prefix d n = enc_prefix d' n.
Proof.
  intros H. unfold enc_prefix. f_equal. apply map_ext_in. intros i Hi.
  apply in_seq in Hi. rewrite H; [done|lia].
Qed.

Lemma chunk_app_l {A} k (l t : list A) i :
  ((i + 1) * k <= length l)%nat -> chunk k (l ++ t) i = chunk k l i.
Proof.
  intros. unfold chunk. rewrite drop_app_le by lia. rewrite take_app_le; [done|].
  rewrite length_drop. lia.
Qed.

Lemma chunk_app_r {A} k (l s t : list A) n :
  length l = (n * k)%nat -> length s = k -> chunk k (l ++ s ++ t) n = s.
Proof. intros Hl Hs. unfold chunk. rewrite drop_app_length' by done. by apply take_app_length'. Qed.

Lemma dec_prefix_sound enc n p :
  bytes_ok enc -> (n * 11 <= length enc)%nat -> dec_prefix enc n = Some p ->
  bytes_ok p /\ length p = (n * 8)%nat /\ enc_prefix p n = take (n * 11) enc.
Proof.
  intros He. revert p; induction n as [|n IH]; intros p Hlen Hp; simpl in Hp.
  { simplify_eq. by repeat constructor. }
  destruct (dec_prefix enc n) as [p'|] eqn:Hp'; [|done]. simpl in Hp.
  destruct (decode_block (chunk 11 enc n)) as [b|] eqn:Hb; [|done]. simplify_eq/=.
  destruct (IH p') as (Hok & Hlp & Henc); [lia|done|].
  pose proof (length_chunk 11 enc n ltac:(lia)) as Hlc.
  apply decode_block_sound in Hb as (Hbok & _ & Hlb & Hspec);
    [|by apply bytes_ok_chunk|lia].
  rewrite Hlc in Hlb. change (decoded_block_sizes (Z.of_nat 11)) with 8 in Hlb.
  split_and!; [by apply Forall_app|rewrite length_app; lia|].
  rewrite enc_prefix_S.
  rewrite (enc_prefix_ext _ p') by (intros; apply chunk_app_l; lia).
  rewrite <- (app_nil_r (p' ++ b)), <- app_assoc, chunk_app_r by (done || lia).
  rewrite Henc, <- Hspec. unfold chunk. rewrite take_take_drop. f_equal. lia.
Qed.

Lemma dec_prefix_complete d n t :
  bytes_ok d -> (n * 8 <= length d)%nat ->
  dec_prefix (enc_prefix d n ++ t) n = Some (take (n * 8) d).
Proof.
  intros Hd. revert t; induction n as [|n IH]; intros t Hlen; [done|].
  cbn [dec_prefix]. rewrite enc_prefix_S, <- app_assoc, IH by lia.
  pose proof (length_chunk 8 d n ltac:(lia)) as Hlc.
  rewrite chunk_app_r by (rewrite ?length_enc_prefix by lia; by rewrite ?length_full_spec).
  cbn [mbind option_bind].
  rewrite decode_block_complete by (try apply bytes_ok_chunk; done || lia).
  cbn [mbind option_bind]. f_equal. unfold chunk. rewrite take_take_drop. f_equal. lia.
Qed.

Lemma decode_loop enc n R :
  bytes_ok enc -> (n * 11 <= length enc)%nat -> (n * 8 <= R)%nat ->
  foldl (fun acc i => data ← acc; on_slice (fun _ => decode_block (chunk 11 enc i)) (i * 8) 8 data)
    (Some (replicate R 0)) (seq 0 n)
  = p ← dec_prefix enc n; Some (p ++ replicate (R - n * 8) 0).
Proof.
  intros He. induction n as [|n IH]; intros Hlen HR; [simpl; by rewrite Nat.sub_0_r|].
  rewrite seq_S, foldl_app, IH by lia. cbn [foldl Nat.add dec_prefix].
  destruct (dec_prefix enc n) as [p|] eqn:Hp; [|done]. cbn [mbind option_bind].
  destruct (dec_prefix_sound enc n p He ltac:(lia) Hp) as (_ & Hlp & _).
  replace (R - n * 8)%nat with (8 + (R - S n * 8))%nat by lia.
  rewrite replicate_add.
  pose proof (on_slice_app (fun _ => decode_block (chunk 11 enc n)) p (replicate 8 0)
    (replicate (R - S n * 8) 0)) as Hs.
  rewrite Hlp, length_replicate in Hs. rewrite Hs.
  destruct (decode_block (chunk 11 enc n)); [|done]. cbn [mbind option_bind].
  by rewrite <- app_assoc.
Qed.

Lemma decode_unfold enc :
  bytes_ok enc ->
  let q := (length enc / 11)%nat in let r := (length enc mod 11)%nat in
  decode enc =
    if decoded_block_sizes (Z.of_nat r) <? 0 then None
    else p ← dec_prefix enc q;
         if decide (r = 0)%nat then Some p
         else b ← decode_block (drop (q * 11) enc); Some (p ++ b).
Proof.
  intros He. destruct enc as [|c0 enc0] eqn:Henc; [done|]. rewrite <- Henc in *. intros q r.
  assert (decode enc = decode enc) as E by done. unfold decode at 2 in E.
  rewrite Henc in E at 2. rewrite E. clear E.
  unfold full_block_size, full_encoded_block_size.
  assert (length enc = 11 * q + r /\ r < 11)%nat as [Hlen Hr].
  { subst q r. split; [apply Nat.div_mod_eq|apply Nat.mod_upper_bound; lia]. }
  assert (Z.of_nat (length enc) / 11 = Z.of_nat q) as -> by (subst q; zdm).
  assert (Z.of_nat (length enc) mod 11 = Z.of_nat r) as -> by (subst r; zdm).
  rewrite !Nat2Z.id. cbv zeta.
  destruct (Z.ltb_spec (decoded_block_sizes (Z.of_nat r)) 0) as [|Hdec]; [done|].
  rewrite decode_loop by (done || lia).
  destruct (dec_prefix enc q) as [p|] eqn:Hp; [|done]. cbn [mbind option_bind].
  destruct (dec_prefix_sound enc q p He ltac:(lia) Hp) as (_ & Hlp & _).
  replace (Z.to_nat (Z.of_nat q * 8 + decoded_block_sizes (Z.of_nat r)) - q * 8)%nat
    with (Z.to_nat (decoded_block_sizes (Z.of_nat r))) by lia.
  destruct (decide (r = 0)%nat) as [Hr0|Hr0]; [rewrite Hr0; by rewrite app_nil_r|].
  destruct (Z.ltb_spec 0 (Z.of_nat r)); [|lia].
  rewrite take_ge by (rewrite length_drop; lia).
  pose proof (on_slice_app (fun _ => decode_block (drop (q * 11) enc)) p
    (replicate (Z.to_nat (decoded_block_sizes (Z.of_nat r))) 0) []) as Hs.
  rewrite Hlp, length_replicate, app_nil_r in Hs. rewrite Hs.
  destruct (decode_block (drop (q * 11) enc)); [|done]. cbn [mbind option_bind].
  by rewrite app_nil_r.
Qed.

Lemma enc_ref_divmod data :
  let q := (length data / 8)%nat in let r := (length data mod 8)%nat in
  (length (enc_ref data) / 11 = q /\
   length (enc_ref data) mod 11 = Z.to_nat (encoded_size_at (Z.of_nat r)))%nat.
Proof.
  intros q r.
  assert (length data = 8 * q + r /\ r < 8)%nat as [Hlen Hr].
  { subst q r. split; [apply Nat.div_mod_eq|apply Nat.mod_upper_bound; lia]. }
  assert (length (enc_ref data) = q * 11 + Z.to_nat (encoded_size_at (Z.of_nat r)))%nat as E.
  { unfold enc_ref. fold q r. rewrite length_app, length_enc_prefix by lia.
    destruct (decide (r = 0)%nat) as [->|]; [done|].
    rewrite length_block_spec, length_drop. do 4 f_equal. lia. }
  assert (Z.to_nat (encoded_size_at (Z.of_nat r)) < 11)%nat as Hsmall.
  { do 8 (destruct r as [|r]; [by vm_compute; lia|]). lia. }
  rewrite E. split.
  - symmetry. apply Nat.div_unique with (Z.to_nat (encoded_size_at (Z.of_nat r))); lia.
  - symmetry. apply Nat.mod_unique with q; lia.
Qed.

Lemma decode_enc_ref data : bytes_ok data -> bytes_ok (enc_ref data) ->
  decode (enc_ref data) = Some data.
Proof.
  intros Hd He. rewrite decode_unfold by done.
  destruct (enc_ref_divmod data) as [-> ->].
  set (q := (length data / 8)%nat). set (r := (length data mod 8)%nat).
  assert (length data = 8 * q + r /\ r < 8)%nat as [Hlen Hr].
  { subst q r. split; [apply Nat.div_mod_eq|apply Nat.mod_upper_bound; lia]. }
  unfold enc_ref. fold q r. rewrite dec_prefix_complete by (done || lia).
  destruct (decide (r = 0)%nat) as [Hr0|Hr0].
  { rewrite Hr0. simpl. rewrite take_ge; [done|lia]. }
  destruct (sizes_ok (Z.of_nat r)) as (Hdec & Hsz & _); [lia|].
  rewrite Z2Nat.id, Hdec by lia.
  destruct (Z.ltb_spec (Z.of_nat r) 0); [lia|]. cbn [mbind option_bind].
  rewrite decide_False by lia.
  rewrite drop_app_length' by (rewrite length_enc_prefix; lia).
  rewrite decode_block_complete; [|by apply Forall_drop|rewrite length_drop; lia].
  cbn [mbind option_bind]. by rewrite take_drop.
Qed.

Lemma block_spec_ok b : bytes_ok (block_spec b).
Proof.
  unfold block_spec. apply bytes_ok_rev. unfold bytes_ok. rewrite Forall_map.
  eapply Forall_impl; [apply le58_digits|]. intros. by apply alphabet_at_byte.
Qed.

Lemma enc_ref_ok data : bytes_ok (enc_ref data).
Proof.
  unfold enc_ref. apply Forall_app. split.
  - unfold enc_prefix. apply Forall_concat. rewrite Forall_map. apply Forall_true.
    intros. apply block_spec_ok.
  - case_decide; [constructor|apply block_spec_ok].
Qed.

Lemma decode_sound enc data :
  bytes_ok enc -> decode enc = Some data -> bytes_ok data /\ enc_ref data = enc.
Proof.
  intros He Hdec. rewrite decode_unfold in Hdec by done.
  set (q := (length enc / 11)%nat) in *. set (r := (length enc mod 11)%nat) in *.
  assert (length enc = 11 * q + r /\ r < 11)%nat as [Hlen Hr].
  { subst q r. split; [apply Nat.div_mod_eq|apply Nat.mod_upper_bound; lia]. }
  destruct (Z.ltb_spec (decoded_block_sizes (Z.of_nat r)) 0) as [|Hd]; [done|].
  destruct (dec_prefix enc q) as [p|] eqn:Hp; [|done]. cbn [mbind option_bind] in Hdec.
  destruct (dec_prefix_sound enc q p He ltac:(lia) Hp) as (Hpok & Hlp & Henc).
  destruct (decide (r = 0)%nat) as [Hr0|Hr0].
  - simplify_eq. split; [done|]. unfold enc_ref.
    replace (length data / 8)%nat with q
      by (apply Nat.div_unique with 0%nat; lia).
    rewrite decide_True by (rewrite Hlp; apply Nat.Div0.mod_mul).
    rewrite app_nil_r, Henc. apply take_ge. lia.
  - destruct (decode_block (drop (q * 11) enc)) as [b|] eqn:Hb; [|done].
    cbn [mbind option_bind] in Hdec. simplify_eq.
    assert (length (drop (q * 11) enc) = r) as Hld by (rewrite length_drop; lia).
    apply decode_block_sound in Hb as (Hbok & Hlb & Hlbz & Hspec);
      [|by apply Forall_drop|lia].
    rewrite Hld in Hlbz.
    destruct (decoded_sizes_ok (Z.of_nat r)) as [_ Hinv]; [lia|lia|].
    assert (length b <> 8%nat) as Hne.
    { intros E. rewrite <- Hlbz, E in Hinv. change (encoded_size_at _) with 11 in Hinv. lia. }
    split; [by apply Forall_app|]. unfold enc_ref. rewrite length_app, Hlp.
    replace ((q * 8 + length b) / 8)%nat with q
      by (apply Nat.div_unique with (length b); lia).
    rewrite decide_False by (rewrite Nat.add_comm, Nat.Div0.mod_add, Nat.mod_small; lia).
    rewrite drop_app_length' by done. rewrite <- Hspec.
    rewrite (enc_prefix_ext _ p) by (intros; apply chunk_app_l; lia).
    by rewrite Henc, take_drop.
Qed.

(** ** Properties of the block code *)

(** Base58 encoding succeeds on every byte string and decoding gives the
    string back. *)
Theorem base58_roundtrip data :
  bytes_ok data -> exists enc, encode data = Some enc /\ decode enc = Some data.
Proof.
  intros Hd. exists (enc_ref data). split; [by apply encode_total|].
  apply decode_enc_ref; [done|apply enc_ref_ok].
Qed.

Lemma base58_roundtrip_witness :
  exists enc, encode [6; 21; 96; 19; 118; 40; 121; 247; 255; 255; 255; 255; 255] = Some enc /\
    decode enc = Some [6; 21; 96; 19; 118; 40; 121; 247; 255; 255; 255; 255; 255].
Proof.
  apply (base58_roundtrip [6; 21; 96; 19; 118; 40; 121; 247; 255; 255; 255; 255; 255]).
  apply (bool_decide_unpack _). by vm_compute.
Defined.

(** Base58 decoding is canonical: the only strings [decode] accepts are the
    ones [encode] produces, so two distinct strings never decode to the same
    data (bad symbols, bad lengths and overflowing blocks are all refused). *)
Theorem base58_decode_canonical enc data :
  bytes_ok enc -> decode enc = Some data -> bytes_ok data /\ encode data = Some enc.
Proof.
  intros He Hd. destruct (decode_sound enc data He Hd) as [Hok Hen].
  split; [done|]. by rewrite encode_total, Hen.
Qed.

Lemma base58_decode_canonical_witness :
  bytes_ok [255; 255] /\ encode [255; 255] = Some [76; 85; 118].
Proof.
  apply (base58_decode_canonical [76; 85; 118] [255; 255]);
    [apply (bool_decide_unpack _) | ]; by vm_compute.
Defined.

(** ** Addresses *)
Section Addr.
(** [crypto::cn_fast_hash] on a byte string: 32 bytes. *)
Context (cn_fast_hash : list Z -> list Z) `{!Hash32 cn_fast_hash}.

Definition encode_addr (tag : Z) (data : list Z) : option (list Z) :=
  v ← get_varint_data tag;
  let buf := v ++ data in
  let hash := cn_fast_hash buf in
  let buf := buf ++ take (Z.to_nat addr_checksum_size) hash in
  encode buf.

(** [tag] is a [uint64_t]. *)
Definition decode_addr (addr : list Z) : option (Z * list Z) :=
  addr_data ← decode addr;
  if Z.of_nat (length addr_data) <=? addr_checksum_size then None
  else
    let cut := (length addr_data - Z.to_nat addr_checksum_size)%nat in
    let checksum := drop cut addr_data in
    let addr_data := take cut addr_data in
    let expected_checksum := take (Z.to_nat addr_checksum_size) (cn_fast_hash addr_data) in
    if decide (expected_checksum = checksum) then
      let '(read, tag, _) := read_varint 64 addr_data in
      if read <=? 0 then None else Some (tag, drop (Z.to_nat read) addr_data)
    else None.

(** What [encode_addr] computes. *)
Lemma encode_addr_eq tag data :
  0 <= tag -> bytes_ok data ->
  let buf := varint_ref tag ++ data in
  bytes_ok (buf ++ take 4 (cn_fast_hash buf)) /\
  encode_addr tag data = Some (enc_ref (buf ++ take 4 (cn_fast_hash buf))).
Proof using Type*.
  intros Ht Hd buf.
  assert (bytes_ok (buf ++ take 4 (cn_fast_hash buf))) as Hok.
  { apply Forall_app. split; [|apply Forall_take, hash32_ok].
    apply Forall_app. split; [by apply varint_ref_ok|done]. }
  split; [done|]. unfold encode_addr, get_varint_data.
  rewrite write_varint_ref by done. cbn [mbind option_bind].
  change (Z.to_nat addr_checksum_size) with 4%nat. fold buf. by apply encode_total.
Qed.

(** An address decodes to the tag and the payload it was made from. *)
Lemma decode_encode_addr tag data :
  is_u64 tag -> bytes_ok data ->
  exists addr, encode_addr tag data = Some addr /\ decode_addr addr = Some (tag, data).
Proof using Type*.
  intros Ht Hd. destruct (encode_addr_eq tag data) as [Hok Henc]; [unfold is_uint in Ht; lia|done|].
  rewrite Henc. eexists. split; [done|]. unfold decode_addr.
  rewrite decode_enc_ref by (done || apply enc_ref_ok). cbn [mbind option_bind].
  set (buf := varint_ref tag ++ data) in *. change (Z.to_nat addr_checksum_size) with 4%nat.
  assert (length (buf ++ take 4 (cn_fast_hash buf)) = length buf + 4)%nat as Hlen
    by (rewrite length_app, length_take, hash32_len; lia).
  assert (0 < length buf)%nat as Hne.
  { subst buf. rewrite length_app. pose proof (varint_ref_nonempty tag). lia. }
  rewrite Hlen. unfold addr_checksum_size.
  destruct (Z.leb_spec (Z.of_nat (length buf + 4)) 4); [lia|].
  replace (length buf + 4 - 4)%nat with (length buf) by lia.
  rewrite drop_app_length, take_app_length, decide_True by done.
  destruct (read_varint_ref 64 tag data) as [Hr _]; [lia|done|]. subst buf. rewrite Hr.
  pose proof (varint_ref_nonempty tag).
  destruct (Z.leb_spec (Z.of_nat (length (varint_ref tag))) 0); [lia|].
  by rewrite Nat2Z.id, drop_app_length.
Qed.

(** An accepted address is the encoding of what it decodes to: same tag
    bytes, payload and checksum (the one exception is a payload-free address
    that ends inside its varint tag, which [read_varint] reads as a number). *)
Lemma decode_addr_sound addr tag data :
  bytes_ok addr -> decode_addr addr = Some (tag, data) ->
  is_u64 tag /\ bytes_ok data /\
  (encode_addr tag data = Some addr \/
   data = [] /\ exists tagbytes, Forall (Z.le 128) tagbytes /\
     encode (tagbytes ++ take 4 (cn_fast_hash tagbytes)) = Some addr).
Proof using Type*.
  intros Ha. unfold decode_addr. destruct (decode addr) as [d|] eqn:Hd; [|done].
  cbn [mbind option_bind]. change (Z.to_nat addr_checksum_size) with 4%nat.
  unfold addr_checksum_size.
  destruct (Z.leb_spec (Z.of_nat (length d)) 4); [done|].
  case_decide as Hck; [|done].
  destruct (decode_sound addr d Ha Hd) as [Hdok Henc].
  set (body := take (length d - 4) d) in *.
  assert (bytes_ok body) as Hbok by (unfold bytes_ok, body; by apply Forall_take).
  assert (d = body ++ take 4 (cn_fast_hash body)) as Ed
    by (rewrite Hck; symmetry; apply take_drop).
  destruct (read_varint 64 body) as [[read v] rest] eqn:Hr.
  destruct (Z.leb_spec read 0); [done|]. intros [= <- <-].
  destruct (read_varint_consumed 64 body read v rest) as (Hv & c & Hbody & Hlc & Hc);
    [lia|done|done|done|].
  rewrite <- Hlc, Nat2Z.id, Hbody, drop_app_length.
  assert (bytes_ok rest) as Hrest by (rewrite Hbody in Hbok; by apply Forall_app in Hbok as [_ ?]).
  split_and!; [done..|].
  destruct Hc as [->|(-> & Hc & _)]; [left|right].
  - destruct (encode_addr_eq v rest) as [_ ->]; [unfold is_uint in Hv; lia|done|].
    by rewrite <- Hbody, <- Ed, Henc.
  - split; [done|]. exists c. split; [done|]. rewrite app_nil_r in Hbody. subst c.
    rewrite <- Ed. by rewrite encode_total, Henc.
Qed.
End Addr.
