(* ===== verification/TreeHash.v ===== *)
(** * Merkle tree of transaction hashes

    [src/crypto/tree-hash.c]: the root hash of a block's transactions, the
    branch of one of them and its verification.  The tree code works in place
    on one buffer; it is translated with the buffer and related to the
    recursive definition of a tree. *)

From S2P Require Import Prelude Keccak.

(** ** Definitions *)

(** [tree_hash_cnt]: [pow] doubles from 2 while below [count]; 64 rounds
    of a 64-bit shift are more than the asserted [count <= 2^28] needs. *)
Definition tree_hash_cnt (count : Z) : option Z :=
  match while_fuel (fun pow => pow <? count) (fun pow => u64 (Z.shiftl pow 1)) 64 2 with
  | Some pow => Some (Z.shiftr pow 1)
  | None => None
  end.

Section Tree.
Context (cn_fast_hash : list Z -> list Z) `{!Hash32 cn_fast_hash}.

(** [buf[i]] of an array of 32-byte hashes; [cn_fast_hash(buf[i], 64, _)]. *)
Definition at_ (buf : list (list Z)) (i : nat) : list Z := nth i buf [].
Definition hash_pair (buf : list (list Z)) (i : nat) : list Z :=
  cn_fast_hash (at_ buf i ++ at_ buf (i + 1)).

(** The first loop: [j] from [p = 2 * cnt - count] to [cnt], [i] from [p]
    by steps of two, reading [hashes] and writing [ints]. *)
Definition tree_hash_first (hashes : list (list Z)) (p cnt : nat) (ints : list (list Z))
    : list (list Z) :=
  foldl (fun ints j => <[j := hash_pair hashes (p + 2 * (j - p))]> ints) ints (seq p (cnt - p)).

(** One level of the in-place loop, [cnt] already halved. *)
Definition tree_hash_level (cnt : nat) (ints : list (list Z)) : list (list Z) :=
  foldl (fun ints j => <[j := hash_pair ints (2 * j)]> ints) ints (seq 0 cnt).

Definition tree_hash_loop (s : nat * list (list Z)) : nat * list (list Z) :=
  let '(cnt, ints) := s in
  let cnt := (cnt / 2)%nat in (cnt, tree_hash_level cnt ints).

Definition tree_hash (hashes : list (list Z)) : option (list Z) :=
  let count := length hashes in
  if (count =? 0)%nat then None
  else if (count =? 1)%nat then Some (at_ hashes 0)
  else if (count =? 2)%nat then Some (hash_pair hashes 0)
  else
    cnt ← tree_hash_cnt (Z.of_nat count);
    let cnt := Z.to_nat cnt in
    let ints := replicate cnt (replicate 32 0) in
    let p := (2 * cnt - count)%nat in
    let ints := take p hashes ++ drop p ints in
    let ints := tree_hash_first hashes p cnt ints in
    '(_, ints) ← while_fuel (fun s : nat * list (list Z) => (2 <? fst s)%nat) tree_hash_loop 64 (cnt, ints);
    Some (hash_pair ints 0).

(** [*path = ( *path << 1) | bit] on a [uint32_t]. *)
Definition push_bit (path : Z) (bit : bool) : Z :=
  Z.lor (u32 (Z.shiftl path 1)) (if bit then 1 else 0).

(** [tree_path]. *)
Definition path_step (s : nat * Z) (i j : nat) : nat * Z :=
  let '(idx, path) := s in
  if (idx =? i)%nat || (idx =? i + 1)%nat then (j, push_bit path (negb (idx =? i)%nat)) else s.

Definition path_loop (s : nat * (nat * Z)) : nat * (nat * Z) :=
  let '(cnt, ip) := s in
  let cnt := (cnt / 2)%nat in
  (cnt, foldl (fun ip j => path_step ip (2 * j) j) ip (seq 0 cnt)).

Definition tree_path (count idx : nat) : option Z :=
  if (count =? 0)%nat then None
  else if (count =? 1)%nat then Some 0
  else if (count =? 2)%nat then Some (if (idx =? 0)%nat then 0 else 1)
  else
    cnt ← tree_hash_cnt (Z.of_nat count);
    let cnt := Z.to_nat cnt in
    let p := (2 * cnt - count)%nat in
    let ip := foldl (fun ip j => path_step ip (p + 2 * (j - p)) j) (idx, 0) (seq p (cnt - p)) in
    '(_, (idx, path)) ← while_fuel (fun s : nat * (nat * Z) => (2 <? fst s)%nat) path_loop 64 (cnt, ip);
    Some (if (idx =? 0)%nat || (idx =? 1)%nat then push_bit path (negb (idx =? 0)%nat) else path).

(** [tree_branch]: the index being followed, the branch so far ([*depth] is
    its length) and the path. *)
Record branch_state := mkBranch { b_idx : nat; b_branch : list (list Z); b_path : Z }.

(** [buf] is where the siblings are read: [hashes] at the first level,
    [ints] above it. *)
Definition branch_step (buf : list (list Z)) (s : branch_state) (i j : nat) : branch_state :=
  if (b_idx s =? i)%nat || (b_idx s =? i + 1)%nat
  then mkBranch j
         (b_branch s ++ [at_ buf (if (b_idx s =? i)%nat then i + 1 else i)%nat])
         (push_bit (b_path s) (negb (b_idx s =? i)%nat))
  else s.

Definition branch_first (hashes : list (list Z)) (p cnt : nat) (s : branch_state * list (list Z))
    : branch_state * list (list Z) :=
  foldl (fun s j =>
           let i := (p + 2 * (j - p))%nat in
           (branch_step hashes (fst s) i j, <[j := hash_pair hashes i]> (snd s)))
    s (seq p (cnt - p)).

Definition branch_level (cnt : nat) (s : branch_state * list (list Z))
    : branch_state * list (list Z) :=
  foldl (fun s j =>
           (branch_step (snd s) (fst s) (2 * j) j, <[j := hash_pair (snd s) (2 * j)]> (snd s)))
    s (seq 0 cnt).

Definition branch_loop (s : nat * (branch_state * list (list Z))) : nat * (branch_state * list (list Z)) :=
  let '(cnt, bs) := s in
  let cnt := (cnt / 2)%nat in (cnt, branch_level cnt bs).

Definition branch_last (s : branch_state) (ints : list (list Z)) : branch_state :=
  if (b_idx s =? 0)%nat || (b_idx s =? 1)%nat
  then mkBranch 0 (b_branch s ++ [at_ ints (if (b_idx s =? 0)%nat then 1 else 0)%nat])
         (push_bit (b_path s) (negb (b_idx s =? 0)%nat))
  else s.

(** The search [for (idx = 0; idx < count; ++idx) if (!memcmp(...)) break;]. *)
Fixpoint find_hash (hash : list Z) (hashes : list (list Z)) : nat :=
  match hashes with
  | [] => O
  | h :: hashes' => if decide (hash = h) then O else S (find_hash hash hashes')
  end.

(** Branch and path of [hash], [None] where the C function returns false. *)
Definition tree_branch (hashes : list (list Z)) (hash : list Z) : option (list (list Z) * Z) :=
  let count := length hashes in
  if (count =? 0)%nat then None
  else
    let idx := find_hash hash hashes in
    if (idx =? count)%nat then None
    else if (count =? 1)%nat then Some ([], 0)
    else if (count =? 2)%nat
    then Some ([at_ hashes (Z.to_nat (Z.lxor (Z.of_nat idx) 1))], if (idx =? 0)%nat then 0 else 1)
    else
      cnt ← tree_hash_cnt (Z.of_nat count);
      let cnt := Z.to_nat cnt in
      let ints := replicate cnt (replicate 32 0) in
      let p := (2 * cnt - count)%nat in
      let ints := take p hashes ++ drop p ints in
      let s := branch_first hashes p cnt (mkBranch idx [] 0, ints) in
      '(_, (s, ints)) ← while_fuel (fun s : nat * (branch_state * list (list Z)) => (2 <? fst s)%nat)
                          branch_loop 64 (cnt, s);
      let s := branch_last s ints in
      Some (b_branch s, b_path s).

Definition tree_branch_hash (hash : list Z) (branch : list (list Z)) (depth : nat) (path : Z)
    : list Z :=
  foldl (fun partial d =>
           let buffer := if negb (Z.land (Z.shiftr path (Z.of_nat (depth - d - 1))) 1 =? 0)
                         then at_ branch d ++ partial else partial ++ at_ branch d in
           cn_fast_hash buffer)
    hash (seq 0 depth).

Definition is_branch_in_tree (hash root : list Z) (branch : list (list Z)) (depth : nat) (path : Z)
    : bool :=
  bool_decide (tree_branch_hash hash branch depth path = root).

(** ** Reference tree *)

Fixpoint pairs (l : list (list Z)) : list (list Z) :=
  match l with
  | a :: b :: l' => cn_fast_hash (a ++ b) :: pairs l'
  | _ => []
  end.

(** The root of a complete tree of depth [k]. *)
Fixpoint mroot (k : nat) (l : list (list Z)) : list Z :=
  match k with O => at_ l 0 | S k' => mroot k' (pairs l) end.

(** A full level over an incomplete list: the first [p] leaves stand, the
    others are hashed by pairs. *)
Definition bottom (p : nat) (hashes : list (list Z)) : list (list Z) :=
  take p hashes ++ pairs (drop p hashes).

(** ** Arrays *)

Lemma at_insert_eq i x l : (i < length l)%nat -> at_ (<[i := x]> l) i = x.
Proof.
  intros. unfold at_. apply nth_lookup_Some. by rewrite list_lookup_insert_eq.
Qed.

Lemma at_insert_ne i j x l : i <> j -> at_ (<[i := x]> l) j = at_ l j.
Proof. intros. unfold at_. rewrite !nth_lookup, list_lookup_insert_ne by done. done. Qed.

Lemma at_eq l l' :
  length l = length l' -> (forall i, (i < length l)%nat -> at_ l i = at_ l' i) -> l = l'.
Proof. intros Hl H. apply (nth_ext _ _ [] []); [done|]. intros. by apply H. Qed.

Lemma at_app_l l l' i : (i < length l)%nat -> at_ (l ++ l') i = at_ l i.
Proof. apply app_nth1. Qed.

Lemma at_app_r l l' i : (length l <= i)%nat -> at_ (l ++ l') i = at_ l' (i - length l).
Proof. apply app_nth2. Qed.

Lemma at_take n l i : (i < n)%nat -> at_ (take n l) i = at_ l i.
Proof. intros. unfold at_. by rewrite !nth_lookup, lookup_take_lt. Qed.

Lemma at_drop n l i : at_ (drop n l) i = at_ l (n + i).
Proof. unfold at_. by rewrite !nth_lookup, lookup_drop. Qed.

(** A loop that writes [f j] at each [j] of a range. *)
Lemma fold_insert_spec (f : nat -> list Z) ints p n :
  (p + n <= length ints)%nat ->
  let r := foldl (fun acc j => <[j := f j]> acc) ints (seq p n) in
  length r = length ints /\
  forall i, at_ r i = if decide (p <= i < p + n)%nat then f i else at_ ints i.
Proof.
  intros Hlen. induction n as [|n IH]; intros r; subst r.
  - split; [done|]. intros i. case_decide; [lia|done].
  - rewrite seq_S, foldl_app. cbn [foldl].
    destruct IH as [Hl Hat]; [lia|]. split; [by rewrite length_insert|]. intros i.
    destruct (decide (i = p + n)%nat) as [->|Hne].
    + rewrite at_insert_eq by lia. rewrite decide_True by lia. done.
    + rewrite at_insert_ne, Hat by done. do 2 case_decide; lia || done.
Qed.

(** The in-place loop reads positions it has not written yet. *)
Lemma tree_hash_level_eq cnt ints :
  (2 * cnt <= length ints)%nat ->
  tree_hash_level cnt ints =
    foldl (fun acc j => <[j := hash_pair ints (2 * j)]> acc) ints (seq 0 cnt).
Proof.
  unfold tree_hash_level. induction cnt as [|n IH]; intros Hlen; [done|].
  rewrite seq_S, !foldl_app. rewrite IH by lia. cbn [foldl Nat.add].
  destruct (fold_insert_spec (fun j => hash_pair ints (2 * j)) ints 0 n) as [Hl Hat]; [lia|].
  f_equal. unfold hash_pair at 1. rewrite !Hat, !decide_False by lia. done.
Qed.

Lemma tree_hash_level_spec cnt ints :
  (2 * cnt <= length ints)%nat ->
  length (tree_hash_level cnt ints) = length ints /\
  forall i, at_ (tree_hash_level cnt ints) i =
    if decide (i < cnt)%nat then hash_pair ints (2 * i) else at_ ints i.
Proof.
  intros Hlen. rewrite tree_hash_level_eq by done.
  destruct (fold_insert_spec (fun j => hash_pair ints (2 * j)) ints 0 cnt) as [Hl Hat]; [lia|].
  split; [done|]. intros i. rewrite Hat. do 2 case_decide; lia || done.
Qed.

(** ** Levels of the reference tree *)

Lemma pairs_spec n l :
  length l = (2 * n)%nat ->
  length (pairs l) = n /\ forall i, (i < n)%nat -> at_ (pairs l) i = hash_pair l (2 * i).
Proof.
  revert l; induction n as [|n IH]; intros l Hl.
  - destruct l; [|simpl in Hl; lia]. split; [done|lia].
  - destruct l as [|a [|b l]]; simpl in Hl; try lia.
    destruct (IH l) as [H1 H2]; [lia|]. split; [simpl; lia|].
    intros [|i] Hi; [done|]. cbn [pairs]. unfold at_ at 1. cbn [nth].
    change (nth i (pairs l) []) with (at_ (pairs l) i). rewrite H2 by lia.
    replace (2 * S i)%nat with (S (S (2 * i))) by lia. done.
Qed.

Lemma level_pairs cnt ints :
  (2 * cnt <= length ints)%nat ->
  take cnt (tree_hash_level cnt ints) = pairs (take (2 * cnt) ints).
Proof.
  intros Hlen. destruct (tree_hash_level_spec cnt ints Hlen) as [Hl Hat].
  destruct (pairs_spec cnt (take (2 * cnt) ints)) as [Hpl Hpat]; [rewrite length_take; lia|].
  apply at_eq; rewrite length_take; [lia|]. intros i Hi.
  assert (i < cnt)%nat by lia. rewrite Hpat, at_take, Hat, decide_True by lia.
  unfold hash_pair. by rewrite !at_take by lia.
Qed.

Lemma first_bottom hashes p cnt :
  (p <= cnt)%nat -> length hashes = (2 * cnt - p)%nat ->
  tree_hash_first hashes p cnt (take p hashes ++ drop p (replicate cnt (replicate 32 0)))
  = bottom p hashes.
Proof.
  intros Hp Hlen. unfold tree_hash_first, bottom.
  set (ints := take p hashes ++ _).
  assert (length ints = cnt) as Hil
    by (subst ints; rewrite length_app, length_take, length_drop, length_replicate; lia).
  destruct (fold_insert_spec (fun j => hash_pair hashes (p + 2 * (j - p))) ints p (cnt - p))
    as [Hl Hat]; [lia|].
  destruct (pairs_spec (cnt - p) (drop p hashes)) as [Hpl Hpat]; [rewrite length_drop; lia|].
  apply at_eq; [rewrite length_app, length_take, Hpl; lia|].
  rewrite Hl, Hil. intros i Hi. rewrite Hat. case_decide.
  - rewrite at_app_r by (rewrite length_take; lia). rewrite length_take, Hpat by lia.
    unfold hash_pair. rewrite !at_drop. f_equal. f_equal; f_equal; lia.
  - rewrite at_app_l by (rewrite length_take; lia).
    subst ints. rewrite at_app_l by (rewrite length_take; lia). done.
Qed.

(** ** The root *)

Lemma mroot_1 l : length l = 2%nat -> mroot 1 l = hash_pair l 0.
Proof. destruct l as [|a [|b []]]; try done. Qed.

Lemma tree_hash_loop_spec k fuel ints :
  (1 <= k)%nat -> (k <= fuel)%nat -> length ints = (2 ^ k)%nat \/ (2 ^ k <= length ints)%nat ->
  exists cnt ints',
    while_fuel (fun s : nat * list (list Z) => (2 <? fst s)%nat) tree_hash_loop fuel (2 ^ k, ints)%nat
      = Some (cnt, ints') /\
    hash_pair ints' 0 = mroot k (take (2 ^ k) ints).
Proof.
  revert fuel ints; induction k as [|k IH]; intros fuel ints Hk Hf Hlen; [lia|].
  assert (2 ^ S k <= length ints)%nat as Hl by lia. clear Hlen.
  destruct (decide (k = 0)%nat) as [->|].
  - exists 2%nat, ints. change (2 ^ 1)%nat with 2%nat in *. split; [by destruct fuel|].
    rewrite mroot_1 by (rewrite length_take; lia). unfold hash_pair. by rewrite !at_take by lia.
  - destruct fuel as [|fuel]; [lia|]. cbn [while_fuel fst].
    assert (2 < 2 ^ S k)%nat as H2.
    { replace 2%nat with (2 ^ 1)%nat at 1 by done. apply Nat.pow_lt_mono_r; lia. }
    rewrite (proj2 (Nat.ltb_lt _ _) H2). cbn [tree_hash_loop].
    assert (2 ^ S k / 2 = 2 ^ k)%nat as -> by (rewrite Nat.pow_succ_r', Nat.mul_comm, Nat.div_mul; lia).
    rewrite Nat.pow_succ_r' in *.
    destruct (tree_hash_level_spec (2 ^ k) ints Hl) as [Hll _].
    destruct (IH fuel (tree_hash_level (2 ^ k) ints)) as (cnt & ints' & -> & Hroot); [lia..|].
    exists cnt, ints'. split; [done|]. rewrite Hroot, level_pairs by done. done.
Qed.

Lemma tree_hash_cnt_pow count :
  3 <= count <= 2 ^ 28 ->
  exists k, tree_hash_cnt count = Some (2 ^ k) /\ 1 <= k <= 27 /\ 2 ^ k < count <= 2 ^ (k + 1).
Proof.
  intros Hc. unfold tree_hash_cnt.
  destruct (while_fuel_total (fun pow => pow <? count) (fun pow => u64 (Z.shiftl pow 1))
    (fun pow => exists j, pow = 2 ^ j /\ 1 <= j <= 28 /\ 2 ^ (j - 1) < count)
    (fun pow => Z.to_nat (28 - Z.log2 pow))) with (fuel := 64%nat) (s := 2)
    as (pow & -> & (j & -> & Hj & Hlt) & Hstop).
  - intros pow (j & -> & Hj & Hlt) Hc2. apply Z.ltb_lt in Hc2.
    assert (j < 28).
    { destruct (decide (j = 28)) as [->|]; [lia|lia]. }
    rewrite shiftl_mul by lia. replace (2 ^ j * 2 ^ 1) with (2 ^ (j + 1)) by (by rewrite Z.pow_add_r by lia).
    rewrite wrapu_small; [|split; [lia|apply Z.pow_lt_mono_r; lia]].
    split; [|rewrite !Z.log2_pow2; lia].
    exists (j + 1). split_and!; try (done || lia). by replace (j + 1 - 1) with j by lia.
  - exists 1. split_and!; try (done || lia).
  - simpl. lia.
  - apply Z.ltb_ge in Hstop.
    assert (j <> 1). { intros ->. simpl in *. lia. }
    exists (j - 1). rewrite shiftr_div by lia.
    replace (2 ^ j) with (2 ^ (j - 1) * 2 ^ 1) by (rewrite <- Z.pow_add_r by lia; f_equal; lia).
    rewrite Z.div_mul by lia. replace (j - 1 + 1) with j by lia. split_and!; done || lia.
Qed.

(** The shape shared by the three tree functions on three leaves or more:
    [2^k] nodes on the lowest full level, [p] of them leaves. *)
Record shape (hashes : list (list Z)) (k p : nat) : Prop := {
  shape_3 : (3 <= length hashes)%nat;
  shape_cnt : tree_hash_cnt (Z.of_nat (length hashes)) = Some (2 ^ Z.of_nat k);
  shape_k : (1 <= k <= 27)%nat;
  shape_to_nat : Z.to_nat (2 ^ Z.of_nat k) = (2 ^ k)%nat;
  shape_p : (2 * 2 ^ k - length hashes = p)%nat;
  shape_pk : (p < 2 ^ k)%nat;
  shape_len : length hashes = (2 * 2 ^ k - p)%nat;
}.

Lemma tree_shape (hashes : list (list Z)) :
  (3 <= length hashes)%nat -> Z.of_nat (length hashes) <= 2 ^ 28 -> exists k p, shape hashes k p.
Proof.
  intros H3 Hmax. destruct (tree_hash_cnt_pow (Z.of_nat (length hashes)))
    as (k & Hcnt & Hk & Hb); [lia|].
  exists (Z.to_nat k), (2 * 2 ^ Z.to_nat k - length hashes)%nat.
  assert (Z.of_nat (2 ^ Z.to_nat k) = 2 ^ k) as E
    by (rewrite Nat2Z.inj_pow, Z2Nat.id by lia; done).
  rewrite Z.add_1_r, Z.pow_succ_r in Hb by lia. rewrite <- E in Hb.
  split; rewrite ?Z2Nat.id by lia; congruence || lia.
Qed.

(** [tree_hash] computes the root of the completed tree. *)
Lemma tree_hash_spec hashes k p :
  shape hashes k p -> tree_hash hashes = Some (mroot k (bottom p hashes)).
Proof.
  intros [H3 Hcnt Hk Hto Hp Hpk Hlen]. unfold tree_hash.
  destruct (Nat.eqb_spec (length hashes) 0); [lia|].
  destruct (Nat.eqb_spec (length hashes) 1); [lia|].
  destruct (Nat.eqb_spec (length hashes) 2); [lia|].
  rewrite Hcnt. cbn [mbind option_bind]. rewrite Hto, Hp, first_bottom by lia.
  destruct (pairs_spec (2 ^ k - p) (drop p hashes)) as [Hpl _]; [rewrite length_drop; lia|].
  assert (length (bottom p hashes) = 2 ^ k)%nat as Hbl
    by (unfold bottom; rewrite length_app, length_take, Hpl; lia).
  destruct (tree_hash_loop_spec k 64 (bottom p hashes)) as (cnt & ints' & -> & Hroot); [lia..|].
  cbn [mbind option_bind]. by rewrite Hroot, take_ge by lia.
Qed.

(** ** Branches *)

Definition sibling (idx : nat) : nat := if Nat.odd idx then (idx - 1)%nat else (idx + 1)%nat.

(** The bits and siblings from position [idx] of a complete level to the root. *)
Fixpoint climb (k : nat) (l : list (list Z)) (idx : nat) : list (bool * list Z) :=
  match k with
  | O => []
  | S k' => (Nat.odd idx, at_ l (sibling idx)) :: climb k' (pairs l) (idx / 2)
  end.

(** One level up, on the state of [tree_branch]. *)
Definition up (base : nat) (l : list (list Z)) (s : branch_state) : branch_state :=
  let rel := (b_idx s - base)%nat in
  mkBranch (base + rel / 2) (b_branch s ++ [at_ l (base + sibling rel)])
    (push_bit (b_path s) (Nat.odd rel)).

Lemma div2_odd n : exists h, (n / 2 = h)%nat /\
  ((n = 2 * h)%nat /\ Nat.odd n = false \/ (n = 2 * h + 1)%nat /\ Nat.odd n = true).
Proof.
  exists (n / 2)%nat. split; [done|]. pose proof (Nat.div2_odd n) as H.
  rewrite Nat.div2_div in H. destruct (Nat.odd n); cbn [Nat.b2n] in H; [right|left]; (split; [lia|done]).
Qed.

(** [branch_step] at pair [j] acts exactly when [idx] is in the pair. *)
Lemma branch_step_up base buf s j :
  (base <= b_idx s)%nat -> ((b_idx s - base) / 2 = j)%nat ->
  branch_step buf s (base + 2 * j) (base + j) = up base buf s.
Proof.
  intros Hb Hj. unfold branch_step, up, sibling.
  destruct (div2_odd (b_idx s - base)) as (h & Hd & Hh). rewrite Hd in *. subst j.
  destruct Hh as [[Hh ->]|[Hh ->]].
  - rewrite Hh. replace (b_idx s) with (base + 2 * h)%nat by lia. rewrite Nat.eqb_refl.
    cbn [orb negb]. do 3 f_equal. f_equal. lia.
  - rewrite Hh. replace (b_idx s) with (base + 2 * h + 1)%nat by lia.
    rewrite Nat.eqb_refl, orb_true_r. destruct (Nat.eqb_spec (base + 2 * h + 1) (base + 2 * h)); [lia|].
    cbn [negb]. do 3 f_equal. f_equal. lia.
Qed.

Lemma branch_step_skip buf s i j :
  b_idx s <> i -> b_idx s <> (i + 1)%nat -> branch_step buf s i j = s.
Proof. intros. unfold branch_step. bcases. Qed.

Lemma branch_level_spec n s ints :
  (2 * n <= length ints)%nat ->
  branch_level n (s, ints) =
    (if decide (b_idx s / 2 < n)%nat then up 0 ints s else s, tree_hash_level n ints).
Proof.
  unfold branch_level. induction n as [|n IH]; intros Hlen; [done|].
  rewrite seq_S, foldl_app. rewrite IH by lia. cbn [foldl fst snd Nat.add].
  unfold tree_hash_level at 4. rewrite seq_S, foldl_app. cbn [foldl Nat.add].
  change (foldl _ ints (seq 0 n)) with (tree_hash_level n ints). f_equal.
  destruct (tree_hash_level_spec n ints) as [Hl Hat]; [lia|].
  destruct (div2_odd (b_idx s)) as (h & Hd & Hh). rewrite Hd.
  destruct (decide (h < n)%nat) as [Hlt|Hge].
  - rewrite decide_True by lia. unfold up. rewrite Nat.sub_0_r, Hd.
    apply branch_step_skip; simpl; lia.
  - destruct (decide (h < S n)%nat) as [Heq|Hgt].
    + assert (h = n) as -> by lia.
      rewrite <- (branch_step_up 0 ints s n) by (rewrite ?Nat.sub_0_r; lia). cbn [Nat.add].
      unfold branch_step. rewrite Hat, decide_False; [done|].
      destruct (b_idx s =? 2 * n)%nat; lia.
    + apply branch_step_skip; lia.
Qed.

Lemma branch_first_spec hashes p cnt s ints :
  (p <= cnt)%nat -> (b_idx s < 2 * cnt - p)%nat ->
  branch_first hashes p cnt (s, ints) =
    (if decide (p <= b_idx s)%nat then up p hashes s else s, tree_hash_first hashes p cnt ints).
Proof.
  intros Hp Hidx. unfold branch_first, tree_hash_first.
  assert (forall n, foldl (fun (s : branch_state * list (list Z)) j =>
      (branch_step hashes (fst s) (p + 2 * (j - p)) j, <[j := hash_pair hashes (p + 2 * (j - p))]> (snd s)))
      (s, ints) (seq p n) =
    (if decide (p <= b_idx s /\ (b_idx s - p) / 2 < n)%nat then up p hashes s else s,
     foldl (fun ints j => <[j := hash_pair hashes (p + 2 * (j - p))]> ints) ints (seq p n))) as H.
  { induction n as [|n IH]; [rewrite decide_False by lia; done|].
    rewrite seq_S, !foldl_app, IH. cbn [foldl fst snd]. f_equal.
    replace (p + n - p)%nat with n by lia.
    destruct (div2_odd (b_idx s - p)) as (h & Hd & Hh). rewrite Hd.
    destruct (decide (p <= b_idx s /\ h < n)%nat) as [[Hb Hlt]|Hge].
    - rewrite decide_True by lia. unfold up. rewrite Hd. apply branch_step_skip; simpl; lia.
    - destruct (decide (p <= b_idx s /\ h < S n)%nat) as [[Hb Heq]|Hgt].
      + assert (h = n) as -> by lia. by apply branch_step_up.
      + apply branch_step_skip; lia. }
  rewrite H. f_equal. destruct (div2_odd (b_idx s - p)) as (h & Hd & Hh). rewrite Hd.
  do 2 case_decide; done || lia.
Qed.

Lemma branch_last_up s ints : (b_idx s < 2)%nat -> branch_last s ints = up 0 ints s.
Proof.
  intros H. unfold branch_last, up. rewrite Nat.sub_0_r.
  destruct (b_idx s) as [|[|]]; [done|done|lia].
Qed.

(** The loop over the levels and the last step follow [climb]. *)
Lemma branch_loop_spec k fuel s ints :
  (1 <= k)%nat -> (k <= fuel)%nat -> (2 ^ k <= length ints)%nat -> (b_idx s < 2 ^ k)%nat ->
  exists cnt s' ints',
    while_fuel (fun s : nat * (branch_state * list (list Z)) => (2 <? fst s)%nat) branch_loop fuel
      (2 ^ k, (s, ints))%nat = Some (cnt, (s', ints')) /\
    (b_idx s' < 2)%nat /\
    branch_last s' ints' =
      mkBranch 0 (b_branch s ++ map snd (climb k (take (2 ^ k) ints) (b_idx s)))
        (foldl push_bit (b_path s) (map fst (climb k (take (2 ^ k) ints) (b_idx s)))).
Proof.
  revert fuel s ints; induction k as [|k IH]; intros fuel s ints Hk Hf Hl Hidx; [lia|].
  assert (b_idx s < 2 * 2 ^ k)%nat as Hidx' by (rewrite Nat.pow_succ_r' in Hidx; lia).
  assert (sibling (b_idx s) < 2 * 2 ^ k)%nat as Hsib.
  { unfold sibling. destruct (div2_odd (b_idx s)) as (h & Hd & Hh).
    destruct Hh as [[? ->]|[? ->]]; lia. }
  destruct (decide (k = 0)%nat) as [->|].
  - exists 2%nat, s, ints. change (2 ^ 1)%nat with 2%nat in *. split; [by destruct fuel|].
    change (2 * 2 ^ 0)%nat with 2%nat in *. split; [done|].
    rewrite branch_last_up by lia. unfold up. cbn [climb map foldl fst snd].
    rewrite Nat.sub_0_r, at_take by lia. f_equal.
    destruct (b_idx s) as [|[|]]; [done|done|lia].
  - destruct fuel as [|fuel]; [lia|]. cbn [while_fuel fst].
    assert (2 < 2 ^ S k)%nat as H2.
    { replace 2%nat with (2 ^ 1)%nat at 1 by done. apply Nat.pow_lt_mono_r; lia. }
    rewrite (proj2 (Nat.ltb_lt _ _) H2). cbn [branch_loop].
    assert (2 ^ S k / 2 = 2 ^ k)%nat as -> by (rewrite Nat.pow_succ_r', Nat.mul_comm, Nat.div_mul; lia).
    rewrite Nat.pow_succ_r' in *. rewrite branch_level_spec by lia.
    assert (b_idx s / 2 < 2 ^ k)%nat as Hh by (apply Nat.Div0.div_lt_upper_bound; lia).
    rewrite decide_True by done.
    destruct (tree_hash_level_spec (2 ^ k) ints Hl) as [Hll _].
    destruct (IH fuel (up 0 ints s) (tree_hash_level (2 ^ k) ints))
      as (cnt & s' & ints' & -> & Hlt & Hlast); [lia|lia|lia|unfold up; simpl; by rewrite Nat.sub_0_r|].
    exists cnt, s', ints'. split; [done|]. split; [done|]. rewrite Hlast, level_pairs by done.
    cbn [climb map foldl fst snd]. unfold up. cbn [b_idx b_branch b_path Nat.add].
    rewrite Nat.sub_0_r, at_take, <- app_assoc by lia. done.
Qed.

(** ** Verification of a branch *)

Definition step_hash (partial : list Z) (bs : bool * list Z) : list Z :=
  if fst bs then cn_fast_hash (snd bs ++ partial) else cn_fast_hash (partial ++ snd bs).

Lemma step_hash_pair l idx :
  step_hash (at_ l idx) (Nat.odd idx, at_ l (sibling idx)) = hash_pair l (2 * (idx / 2)).
Proof.
  unfold step_hash, hash_pair, sibling. destruct (div2_odd idx) as (h & Hd & Hh). rewrite Hd.
  destruct Hh as [[Hh ->]|[Hh ->]]; cbn [fst snd]; subst idx; [done|].
  by replace (2 * h + 1 - 1)%nat with (2 * h)%nat by lia.
Qed.

Lemma climb_root k l idx :
  length l = (2 ^ k)%nat -> (idx < 2 ^ k)%nat ->
  foldl step_hash (at_ l idx) (climb k l idx) = mroot k l.
Proof.
  revert l idx; induction k as [|k IH]; intros l idx Hl Hidx; cbn [climb foldl mroot].
  { simpl in Hidx. by replace idx with 0%nat by lia. }
  rewrite Nat.pow_succ_r' in *. destruct (pairs_spec (2 ^ k) l Hl) as [Hpl Hpat].
  assert (idx / 2 < 2 ^ k)%nat by (apply Nat.Div0.div_lt_upper_bound; lia).
  rewrite step_hash_pair, <- Hpat by done. by apply IH.
Qed.

Lemma length_climb k l idx : length (climb k l idx) = k.
Proof. revert l idx; induction k as [|k IH]; intros; simpl; [done|]. by rewrite IH. Qed.

(** [path] as a list of bits, first level in the most significant one. *)
Lemma push_bit_eq path b : is_uint 31 path -> push_bit path b = 2 * path + (if b then 1 else 0).
Proof.
  intros Hp. unfold push_bit. rewrite shiftl_mul by lia.
  rewrite wrapu_small by (unfold is_uint in *; lia).
  rewrite lor_disjoint_r by (destruct b; lia). lia.
Qed.

Lemma push_bits_value bits :
  (length bits <= 32)%nat ->
  is_uint (Z.of_nat (length bits)) (foldl push_bit 0 bits) /\
  forall d, (d < length bits)%nat ->
    Z.testbit (foldl push_bit 0 bits) (Z.of_nat (length bits - d - 1)) = nth d bits false.
Proof.
  induction bits as [|b bits IH] using rev_ind; intros Hlen.
  { split; [by vm_compute|]. simpl. lia. }
  rewrite length_app in *. cbn [length] in *. rewrite foldl_app. cbn [foldl].
  destruct IH as [Hr Hbit]; [lia|].
  rewrite push_bit_eq by (eapply is_uint_mono; [|exact Hr]; lia).
  set (v := foldl push_bit 0 bits) in *. split.
  - unfold is_uint in *. rewrite Nat2Z.inj_add, Z.pow_add_r by lia.
    change (2 ^ Z.of_nat 1) with 2. destruct b; lia.
  - intros d Hd. destruct (decide (d = length bits)) as [->|].
    + replace (length bits + 1 - length bits - 1)%nat with 0%nat by lia.
      rewrite app_nth2, Nat.sub_diag by lia. cbn [nth Z.of_nat].
      destruct b; [apply Z.testbit_odd_0|rewrite Z.add_0_r; apply Z.testbit_even_0].
    + rewrite app_nth1 by lia. rewrite <- Hbit by lia.
      replace (Z.of_nat (length bits + 1 - d - 1)) with (Z.succ (Z.of_nat (length bits - d - 1))) by lia.
      destruct b; [apply Z.testbit_odd_succ; lia|rewrite Z.add_0_r; apply Z.testbit_even_succ; lia].
Qed.

Lemma bit_test path n :
  0 <= n -> negb (Z.land (Z.shiftr path n) 1 =? 0) = Z.testbit path n.
Proof.
  intros Hn. rewrite Z.testbit_odd. change 1 with (2 ^ 1 - 1). rewrite land_mask by lia.
  change (2 ^ 1) with 2. rewrite Zmod_odd. by destruct (Z.odd _).
Qed.

Lemma tree_branch_hash_steps hash steps :
  (length steps <= 32)%nat ->
  tree_branch_hash hash (map snd steps) (length steps) (foldl push_bit 0 (map fst steps))
  = foldl step_hash hash steps.
Proof.
  intros Hlen. unfold tree_branch_hash.
  destruct (push_bits_value (map fst steps)) as [_ Hbit]; [by rewrite length_map|].
  rewrite length_map in Hbit. set (path := foldl push_bit 0 _) in *.
  assert (forall n, (n <= length steps)%nat ->
    foldl (fun partial d =>
      cn_fast_hash (if negb (Z.land (Z.shiftr path (Z.of_nat (length steps - d - 1))) 1 =? 0)
                    then at_ (map snd steps) d ++ partial else partial ++ at_ (map snd steps) d))
      hash (seq 0 n) = foldl step_hash hash (take n steps)) as H.
  { induction n as [|n IH]; intros Hn; [done|].
    rewrite seq_S, foldl_app, IH by lia. cbn [foldl Nat.add].
    destruct (lookup_lt_is_Some_2 steps n) as [st Hst]; [lia|].
    rewrite (take_S_r _ _ _ Hst), foldl_app. cbn [foldl].
    rewrite bit_test, Hbit by lia.
    assert (nth n (map fst steps) false = fst st) as ->.
    { apply nth_lookup_Some. change (map fst steps) with (fst <$> steps).
      by rewrite list_lookup_fmap, Hst. }
    assert (at_ (map snd steps) n = snd st) as ->.
    { unfold at_. apply nth_lookup_Some. change (map snd steps) with (snd <$> steps).
      by rewrite list_lookup_fmap, Hst. }
    by destruct st as [[] sib]. }
  rewrite H, take_ge by lia. done.
Qed.

Lemma find_hash_spec h hashes :
  In h hashes ->
  (find_hash h hashes < length hashes)%nat /\ at_ hashes (find_hash h hashes) = h.
Proof.
  induction hashes as [|h' hashes IH]; [done|]. intros Hin. cbn [find_hash length].
  case_decide as Hd; [subst; split; [lia|done]|].
  destruct Hin as [->|Hin]; [done|]. destruct (IH Hin) as [H1 H2]. split; [lia|done].
Qed.

(** The steps from leaf [idx] of an incomplete list. *)
Definition leaf_steps (k p : nat) (hashes : list (list Z)) (idx : nat) : list (bool * list Z) :=
  if decide (p <= idx)%nat
  then (Nat.odd (idx - p), at_ hashes (p + sibling (idx - p)))
         :: climb k (bottom p hashes) (p + (idx - p) / 2)
  else climb k (bottom p hashes) idx.

Lemma leaf_steps_root k p hashes idx :
  (p <= 2 ^ k)%nat -> length hashes = (2 * 2 ^ k - p)%nat -> (idx < length hashes)%nat ->
  foldl step_hash (at_ hashes idx) (leaf_steps k p hashes idx) = mroot k (bottom p hashes).
Proof.
  intros Hp Hlen Hidx. unfold leaf_steps.
  destruct (pairs_spec (2 ^ k - p) (drop p hashes)) as [Hpl Hpat]; [rewrite length_drop; lia|].
  assert (length (bottom p hashes) = 2 ^ k)%nat as Hbl
    by (unfold bottom; rewrite length_app, length_take, Hpl; lia).
  case_decide as Hd.
  - cbn [foldl].
    assert ((idx - p) / 2 < 2 ^ k - p)%nat as Hh by (apply Nat.Div0.div_lt_upper_bound; lia).
    replace (at_ hashes idx) with (at_ (drop p hashes) (idx - p)) by (rewrite at_drop; f_equal; lia).
    rewrite <- at_drop, step_hash_pair, <- Hpat by done.
    replace (at_ (pairs (drop p hashes)) ((idx - p) / 2))
      with (at_ (bottom p hashes) (p + (idx - p) / 2)).
    + apply climb_root; [done|lia].
    + unfold bottom. rewrite at_app_r by (rewrite length_take; lia).
      f_equal. rewrite length_take. lia.
  - replace (at_ hashes idx) with (at_ (bottom p hashes) idx).
    + apply climb_root; [done|lia].
    + unfold bottom. rewrite at_app_l by (rewrite length_take; lia). apply at_take. lia.
Qed.

(** What [tree_branch] returns for a leaf of a list of three or more. *)
Lemma tree_branch_steps hashes h k p :
  In h hashes -> shape hashes k p ->
  let steps := leaf_steps k p hashes (find_hash h hashes) in
  tree_branch hashes h = Some (map snd steps, foldl push_bit 0 (map fst steps)).
Proof.
  intros Hin [H3 Hcnt Hk Hto Hp Hpk Hlen] steps.
  destruct (find_hash_spec h hashes Hin) as [Hidx _]. set (idx := find_hash h hashes) in *.
  unfold tree_branch. fold idx.
  destruct (Nat.eqb_spec (length hashes) 0); [lia|].
  destruct (Nat.eqb_spec idx (length hashes)); [lia|].
  destruct (Nat.eqb_spec (length hashes) 1); [lia|].
  destruct (Nat.eqb_spec (length hashes) 2); [lia|].
  rewrite Hcnt. cbn [mbind option_bind]. rewrite Hto, Hp.
  rewrite branch_first_spec by (simpl; lia). rewrite first_bottom by lia.
  destruct (pairs_spec (2 ^ k - p) (drop p hashes)) as [Hpl _]; [rewrite length_drop; lia|].
  assert (length (bottom p hashes) = 2 ^ k)%nat as Hbl
    by (unfold bottom; rewrite length_app, length_take, Hpl; lia).
  cbn [b_idx].
  set (s0 := if decide (p <= idx)%nat then _ else _).
  destruct (branch_loop_spec k 64 s0 (bottom p hashes)) as (cnt & s' & ints' & -> & _ & Hlast);
    [lia|lia|lia| |].
  { subst s0. case_decide; unfold up; cbn [b_idx]; [|lia].
    assert ((idx - p) / 2 < 2 ^ k - p)%nat by (apply Nat.Div0.div_lt_upper_bound; lia). lia. }
  cbn [mbind option_bind]. rewrite Hlast. cbn [b_branch b_path].
  rewrite (take_ge (bottom p hashes)) by lia.
  subst s0 steps. unfold leaf_steps. by case_decide.
Qed.

(** ** [tree_path] is the path of [tree_branch] *)

Definition proj (s : branch_state) : nat * Z := (b_idx s, b_path s).

Lemma path_step_proj buf s i j : path_step (proj s) i j = proj (branch_step buf s i j).
Proof. unfold path_step, branch_step, proj. by destruct (_ || _). Qed.

Lemma path_loop_proj (s : nat * (branch_state * list (list Z))) :
  path_loop (fst s, proj (fst (snd s))) =
    (fst (branch_loop s), proj (fst (snd (branch_loop s)))).
Proof.
  destruct s as [cnt [s ints]]. unfold path_loop, branch_loop, branch_level. cbn [fst snd].
  f_equal.
  apply (foldl_map_sim (fun s : branch_state * list (list Z) => proj (fst s))
           _ _ _ (s, ints)). intros. apply path_step_proj.
Qed.

Lemma tree_path_branch hashes h k p :
  In h hashes -> shape hashes k p ->
  tree_path (length hashes) (find_hash h hashes) =
    snd <$> tree_branch hashes h.
Proof.
  intros Hin [H3 Hcnt Hk Hto Hp Hpk Hlen].
  destruct (find_hash_spec h hashes Hin) as [Hidx _].
  unfold tree_branch, tree_path. set (idx := find_hash h hashes) in *.
  destruct (Nat.eqb_spec (length hashes) 0); [lia|].
  destruct (Nat.eqb_spec idx (length hashes)); [lia|].
  destruct (Nat.eqb_spec (length hashes) 1); [lia|].
  destruct (Nat.eqb_spec (length hashes) 2); [lia|].
  rewrite Hcnt. cbn [mbind option_bind]. rewrite Hto, Hp. unfold branch_first.
  set (ints := take p hashes ++ drop p (replicate (2 ^ k) (replicate 32 0))).
  change (idx, 0) with (proj (fst (mkBranch idx [] 0, ints))).
  rewrite (foldl_map_sim (fun s : branch_state * list (list Z) => proj (fst s))
    (fun (s : branch_state * list (list Z)) j =>
           let i := (p + 2 * (j - p))%nat in
           (branch_step hashes (fst s) i j, <[j := hash_pair hashes i]> (snd s))))
    by (intros; apply path_step_proj).
  set (s0 := foldl _ (mkBranch idx [] 0, ints) _).
  rewrite (while_fuel_map
    (fun s : nat * (branch_state * list (list Z)) => (fst s, proj (fst (snd s))))
    (fun s => (2 <? fst s)%nat) branch_loop _ _ (fun _ => eq_refl) path_loop_proj 64 ((2 ^ k)%nat, s0)).
  destruct (while_fuel _ _ _ _) as [[cnt [s' ints']]|]; [|done].
  cbn. unfold branch_last. by destruct (_ || _).
Qed.

(** ** Binding *)

(** What is hashed at each level on the way from a leaf to the root: the hash so
    far with its sibling, on the side the path says. *)
Definition branch_node (partial : list Z) (bs : bool * list Z) : list Z :=
  if fst bs then snd bs ++ partial else partial ++ snd bs.

Fixpoint branch_nodes (partial : list Z) (steps : list (bool * list Z)) : list (list Z) :=
  match steps with
  | [] => []
  | bs :: steps => let x := branch_node partial bs in x :: branch_nodes (cn_fast_hash x) steps
  end.

(** The turns of a path, whose most significant bit belongs to the leaf, with the
    siblings of a branch. *)
Definition branch_steps (branch : list (list Z)) (depth : nat) (path : Z) : list (bool * list Z) :=
  map (fun d => (Z.testbit path (Z.of_nat (depth - d - 1)), at_ branch d)) (seq 0 depth).

Lemma default_last_cons (d a : list Z) l : default d (last (a :: l)) = default a (last l).
Proof. rewrite last_cons. by destruct (last l). Qed.

Lemma tree_branch_hash_nodes h branch depth path :
  tree_branch_hash h branch depth path = default h (last (map cn_fast_hash (branch_nodes h (branch_steps branch depth path)))).
Proof.
  unfold tree_branch_hash, branch_steps. generalize (seq 0 depth) as ds. intros ds. revert h. induction ds as [|d ds IH]; intros h; [done|].
  cbn [map foldl branch_nodes]. rewrite bit_test by lia. unfold branch_node. cbn [fst snd]. rewrite IH.
  by rewrite default_last_cons.
Qed.

Lemma branch_nodes_inj l l' h h' :
  map fst l = map fst l' -> Forall (fun s => length (snd s) = 32%nat) l -> Forall (fun s => length (snd s) = 32%nat) l' ->
  length h = 32%nat -> length h' = 32%nat ->
  default h (last (map cn_fast_hash (branch_nodes h l))) = default h' (last (map cn_fast_hash (branch_nodes h' l'))) ->
  (h = h' /\ l = l') \/
  (exists i x y, branch_nodes h l !! i = Some x /\ branch_nodes h' l' !! i = Some y /\ x <> y /\ cn_fast_hash x = cn_fast_hash y).
Proof using Type*.
  revert l' h h'; induction l as [|[b s] l IH]; intros [|[b' s'] l'] h h' Hf Hl Hl' Hh Hh' E; try done; [by left|].
  cbn [map fst] in Hf. injection Hf as <- Hf. apply Forall_cons in Hl as [Hs Hl], Hl' as [Hs' Hl']. cbn [snd] in Hs, Hs'.
  cbn [branch_nodes map] in *. set (x := branch_node h (b, s)) in *. set (y := branch_node h' (b, s')) in *.
  rewrite !default_last_cons in E.
  destruct (IH l' _ _ Hf Hl Hl' (hash32_len x) (hash32_len y) E) as [[Exy ->]|(i & u & v & Hu & Hv & Huv)].
  - destruct (decide (x = y)) as [Exy'|]; [left|right; by exists 0%nat, x, y].
    assert (h = h' /\ s = s') as [-> ->]; [|done]. subst x y. unfold branch_node in Exy'. cbn [fst snd] in Exy'.
    destruct b; apply app_inj_1 in Exy' as [? ?]; try congruence; done.
  - right. by exists (S i), u, v.
Qed.

Lemma branch_steps_turns b b' depth path : map fst (branch_steps b depth path) = map fst (branch_steps b' depth path).
Proof. unfold branch_steps. by rewrite !map_map. Qed.

Lemma branch_steps_siblings b depth path : length b = depth -> map snd (branch_steps b depth path) = b.
Proof.
  intros <-. unfold branch_steps. rewrite map_map. cbn [snd]. apply list_eq. intros i. rewrite list_lookup_fmap.
  destruct (decide (i < length b)%nat) as [Hi|Hi]; [|by rewrite !lookup_ge_None_2 by (rewrite ?length_seq; lia)].
  rewrite lookup_seq_lt by done. cbn. unfold at_. destruct (lookup_lt_is_Some_2 b i Hi) as [x Hx]. by rewrite (nth_lookup_Some _ _ _ _ Hx).
Qed.

Lemma branch_steps_width b depth path : length b = depth -> Forall (fun x => length x = 32%nat) b ->
  Forall (fun s => length (snd s) = 32%nat) (branch_steps b depth path).
Proof. intros Hb Hf. rewrite <- (branch_steps_siblings b depth path Hb) in Hf. by apply Forall_fmap in Hf. Qed.

(** ** Properties *)

(** C12: Merkle completeness: for every leaf of a non-empty list of at most
    2^28 hashes, [tree_branch] produces a branch and a path which
    [is_branch_in_tree] accepts against the root [tree_hash] computes, and
    [tree_path] predicts that path from the leaf's index alone. *)
Theorem merkle_branch_complete hashes h :
  In h hashes -> Z.of_nat (length hashes) <= 2 ^ 28 ->
  exists branch path root,
    tree_branch hashes h = Some (branch, path) /\
    tree_hash hashes = Some root /\
    is_branch_in_tree h root branch (length branch) path = true /\
    tree_path (length hashes) (find_hash h hashes) = Some path.
Proof.
  intros Hin Hmax.
  destruct hashes as [|a [|b [|c l]]] eqn:E; [done| | |].
  - destruct Hin as [->|[]]. exists [], 0, h. unfold tree_branch, is_branch_in_tree. cbn.
    rewrite !decide_True, bool_decide_true by done. done.
  - unfold tree_branch, tree_path, tree_hash. cbn [find_hash length Nat.eqb].
    destruct (decide (h = a)) as [->|Ha].
    + exists [b], 0, (hash_pair [a; b] 0). split_and!; try done.
      unfold is_branch_in_tree. by rewrite bool_decide_true.
    + destruct Hin as [|[->|[]]]; [congruence|]. rewrite decide_True by done.
      exists [a], 1, (hash_pair [a; h] 0). split_and!; try done.
      unfold is_branch_in_tree. by rewrite bool_decide_true.
  - rewrite <- E in *. assert (3 <= length hashes)%nat as H3 by (rewrite E; simpl; lia).
    destruct (tree_shape hashes H3 Hmax) as (k & p & Hs).
    rewrite (tree_path_branch hashes h k p), (tree_branch_steps hashes h k p),
      (tree_hash_spec hashes k p) by done.
    destruct Hs as [_ _ Hk _ _ Hpk Hlen].
    eexists _, _, _. split_and!; [reflexivity..| |reflexivity].
    destruct (find_hash_spec h hashes Hin) as [Hidx Hat].
    set (steps := leaf_steps k p hashes (find_hash h hashes)).
    assert (length steps <= 32)%nat as Hsl
      by (subst steps; unfold leaf_steps; case_decide; simpl; rewrite length_climb; lia).
    unfold is_branch_in_tree. rewrite length_map, tree_branch_hash_steps by done.
    apply bool_decide_true. rewrite <- Hat at 1. apply leaf_steps_root; lia.
Qed.

(** C5: Merkle binding.  What [is_branch_in_tree] compares with the root is the
    hash of the last node on the way up from the leaf.  Two leaves with branches of
    the same depth along the same path that it accepts for one root are the same
    leaf with the same branch, or else, at some level, the two ways up hash two
    different nodes to the same value. *)
Theorem merkle_branch_binding h h' branch branch' root depth path :
  let nodes h branch := branch_nodes h (branch_steps branch depth path) in
  length h = 32%nat -> length h' = 32%nat ->
  length branch = depth -> length branch' = depth ->
  Forall (fun x => length x = 32%nat) branch -> Forall (fun x => length x = 32%nat) branch' ->
  (is_branch_in_tree h root branch depth path = true <-> root = default h (last (map cn_fast_hash (nodes h branch)))) /\
  (is_branch_in_tree h root branch depth path = true -> is_branch_in_tree h' root branch' depth path = true ->
   (h = h' /\ branch = branch') \/
   (exists i x y, nodes h branch !! i = Some x /\ nodes h' branch' !! i = Some y /\ x <> y /\ cn_fast_hash x = cn_fast_hash y)).
Proof using Type*.
  intros nodes Hh Hh' Hb Hb' Hf Hf'. unfold is_branch_in_tree. rewrite !bool_decide_eq_true, !tree_branch_hash_nodes. split; [by split|].
  intros E E'. rewrite <- E' in E.
  destruct (branch_nodes_inj _ _ h h' (branch_steps_turns branch branch' depth path) (branch_steps_width _ _ _ Hb Hf)
    (branch_steps_width _ _ _ Hb' Hf') Hh Hh' E) as [[-> El]|H]; [left|by right].
  split; [done|]. apply (f_equal (map snd)) in El. by rewrite !branch_steps_siblings in El.
Qed.
End Tree.

Lemma merkle_branch_complete_witness :
  let hashes := [replicate 32 1; replicate 32 2; replicate 32 3] in
  exists branch path root,
    tree_branch crypto_cn_fast_hash hashes (replicate 32 3) = Some (branch, path) /\
    tree_hash crypto_cn_fast_hash hashes = Some root /\
    is_branch_in_tree crypto_cn_fast_hash (replicate 32 3) root branch (length branch) path = true /\
    tree_path (length hashes) (find_hash (replicate 32 3) hashes) = Some path.
Proof.
  apply (merkle_branch_complete crypto_cn_fast_hash
           [replicate 32 1; replicate 32 2; replicate 32 3] (replicate 32 3)).
  - right. right. left. reflexivity.
  - simpl. lia.
Defined.

Lemma merkle_branch_binding_witness :
  let root := crypto_cn_fast_hash (replicate 32 2 ++ replicate 32 1) in
  is_branch_in_tree crypto_cn_fast_hash (replicate 32 1) root [replicate 32 2] 1 1 = true /\
  forall h' sibling, length h' = 32%nat -> length sibling = 32%nat -> is_branch_in_tree crypto_cn_fast_hash h' root [sibling] 1 1 = true ->
    (replicate 32 1 = h' /\ [replicate 32 2] = [sibling]) \/
    (exists i x y, [replicate 32 2 ++ replicate 32 1] !! i = Some x /\ [sibling ++ h'] !! i = Some y /\ x <> y /\ crypto_cn_fast_hash x = crypto_cn_fast_hash y).
Proof.
  intros root. assert (is_branch_in_tree crypto_cn_fast_hash (replicate 32 1) root [replicate 32 2] 1 1 = true) as Hr by (by vm_compute).
  split; [exact Hr|]. intros h' sibling Hh' Hs E.
  assert (Forall (fun x : list Z => length x = 32%nat) [replicate 32 2]) as H1 by (by repeat constructor).
  assert (Forall (fun x => length x = 32%nat) [sibling]) as H2 by (constructor; [exact Hs|constructor]).
  exact (proj2 (merkle_branch_binding crypto_cn_fast_hash (replicate 32 1) h' [replicate 32 2] [sibling] root 1 1 eq_refl Hh' eq_refl eq_refl H1 H2) Hr E).
Defined.

(** [tree_hash_cnt] is total on [3 .. 2^28] and returns the largest power of
    two strictly below [count] (half of [count] when [count] is itself a power
    of two, not [1 << floor(log2(count))] as its comment has it). *)
Theorem tree_hash_cnt_correct count :
  3 <= count <= 2 ^ 28 ->
  exists k, tree_hash_cnt count = Some (2 ^ k) /\ 2 ^ k < count <= 2 * 2 ^ k /\
    (count = 2 ^ Z.log2 count -> k = Z.log2 count - 1).
Proof.
  intros Hc. destruct (tree_hash_cnt_pow count Hc) as (k & Hk & Hr & Hb).
  exists k. rewrite Z.add_1_r, Z.pow_succ_r in Hb by lia. split_and!; try (done || lia).
  intros Hpow. rewrite Hpow in Hb. pose proof (Z.log2_nonneg count).
  assert (k < Z.log2 count) by (apply (Z.pow_lt_mono_r_iff 2); lia).
  assert (Z.log2 count <= k + 1); [|lia].
  apply (Z.pow_le_mono_r_iff 2); [lia|lia|]. rewrite Z.add_1_r, Z.pow_succ_r by lia. lia.
Qed.

Lemma tree_hash_cnt_witness :
  exists k, tree_hash_cnt 4 = Some (2 ^ k) /\ 2 ^ k < 4 <= 2 * 2 ^ k /\
    (4 = 2 ^ Z.log2 4 -> k = Z.log2 4 - 1).
Proof. apply (tree_hash_cnt_correct 4). lia. Defined.
