(* ===== verification/RctTypes.v ===== *)
(** * RingCT signature data

    [src/ringct/rctTypes.h] and [rctTypes.cpp]: the parts of a RingCT
    signature and their byte format.  Only the data and its serialization
    are here; the proofs' verification equations are not. *)

From S2P Require Import Prelude Varint BinaryArchive Config.

(** ** Definitions *)

(** [rct::key] is 32 bytes. *)
Definition key : codec (list Z) := serialize_blob 32.
Definition keyV : codec (list (list Z)) := do_serialize_container key.
Definition zero_key : list Z := replicate 32 0.

Definition RCTTypeNull : Z := 0.
Definition RCTTypeFull : Z := 1.
Definition RCTTypeSimple : Z := 2.
Definition RCTTypeBulletproof : Z := 3.
Definition RCTTypeBulletproof2 : Z := 4.
Definition RCTTypeCLSAG : Z := 5.
Definition RCTTypeBulletproofPlus : Z := 6.

Definition is_rct_bulletproof (type : Z) : bool :=
  (type =? RCTTypeBulletproof) || (type =? RCTTypeBulletproof2) || (type =? RCTTypeCLSAG).
Definition is_rct_bulletproof_plus (type : Z) : bool := type =? RCTTypeBulletproofPlus.
Definition is_rct_borromean (type : Z) : bool := (type =? RCTTypeSimple) || (type =? RCTTypeFull).
Definition is_rct_clsag (type : Z) : bool := (type =? RCTTypeCLSAG) || (type =? RCTTypeBulletproofPlus).

(** The types the serializers accept besides [RCTTypeNull]. *)
Definition rct_type_known (type : Z) : bool :=
  (type =? RCTTypeFull) || (type =? RCTTypeSimple) || (type =? RCTTypeBulletproof) ||
  (type =? RCTTypeBulletproof2) || (type =? RCTTypeCLSAG) || (type =? RCTTypeBulletproofPlus).

Record ctkey := Ctkey { dest : list Z; ct_mask : list Z }.

Record ecdhTuple := EcdhTuple { mask : list Z; amount : list Z }.

Definition ecdhTuple_c : codec ecdhTuple :=
  c_map (fun e => Some (mask e, amount e)) (fun '(m, a) => EcdhTuple m a) (c_pair key key).

(** From [RCTTypeBulletproof2] on: the first 8 bytes of the amount only. *)
Definition ecdhTuple_trunc_c : codec ecdhTuple :=
  c_map (fun e => Some (take 8 (amount e)))
        (fun trunc_amount => EcdhTuple zero_key (trunc_amount ++ replicate 24 0))
        (serialize_blob 8).

(** [boroSig] is a blob of [s0], [s1] and [ee]; [key64] one of 64 keys. *)
Record rangeSig := RangeSig { asig : list Z; Ci : list Z }.

Definition rangeSig_c : codec rangeSig :=
  c_map (fun r => Some (asig r, Ci r)) (fun '(a, c) => RangeSig a c)
        (c_pair (serialize_blob (64 * 32 + 64 * 32 + 32)) (serialize_blob (64 * 32))).

Record Bulletproof := MkBulletproof {
  bp_V : list (list Z);
  bp_A : list Z; bp_S : list Z; bp_T1 : list Z; bp_T2 : list Z;
  bp_taux : list Z; bp_mu : list Z;
  bp_L : list (list Z); bp_R : list (list Z);
  bp_a : list Z; bp_b : list Z; bp_t : list Z;
}.

(** [if (L.empty() || L.size() != R.size()) return false]. *)
Definition lr_ok (L R : list (list Z)) : bool :=
  negb (length L =? 0)%nat && (length L =? length R)%nat.

Definition Bulletproof_c : codec Bulletproof :=
  c_guard (fun p => lr_ok (bp_L p) (bp_R p))
    (c_map
      (fun p => Some (bp_V p, (bp_A p, (bp_S p, (bp_T1 p, (bp_T2 p, (bp_taux p, (bp_mu p,
                     (bp_L p, (bp_R p, (bp_a p, (bp_b p, bp_t p))))))))))))
      (fun '(V, (A, (S_, (T1, (T2, (taux, (mu, (L, (R, (a, (b, t))))))))))) =>
         MkBulletproof V A S_ T1 T2 taux mu L R a b t)
      (c_pair (c_skip []) (c_pair key (c_pair key (c_pair key (c_pair key (c_pair key (c_pair key
      (c_pair keyV (c_pair keyV (c_pair key (c_pair key key)))))))))))).

Record BulletproofPlus := MkBulletproofPlus {
  bpp_V : list (list Z);
  bpp_A : list Z; bpp_A1 : list Z; bpp_B : list Z;
  bpp_r1 : list Z; bpp_s1 : list Z; bpp_d1 : list Z;
  bpp_L : list (list Z); bpp_R : list (list Z);
}.

Definition BulletproofPlus_c : codec BulletproofPlus :=
  c_guard (fun p => lr_ok (bpp_L p) (bpp_R p))
    (c_map
      (fun p => Some (bpp_V p, (bpp_A p, (bpp_A1 p, (bpp_B p, (bpp_r1 p, (bpp_s1 p, (bpp_d1 p,
                     (bpp_L p, bpp_R p)))))))))
      (fun '(V, (A, (A1, (B, (r1, (s1, (d1, (L, R)))))))) =>
         MkBulletproofPlus V A A1 B r1 s1 d1 L R)
      (c_pair (c_skip []) (c_pair key (c_pair key (c_pair key (c_pair key (c_pair key (c_pair key
      (c_pair keyV keyV))))))))).

(** [n_bulletproof_amounts_base] and [n_bulletproof_max_amounts_base]; a failed
    check returns 0. *)
Definition n_bulletproof_amounts_base (L_size R_size V_size max_outputs : Z) : Z :=
  if negb (6 <=? L_size) then 0
  else if negb (L_size =? R_size) then 0
  else if negb (Z.shiftl 1 4 =? max_outputs) then 0
  else if negb (L_size <=? 6 + 4) then 0
  else if negb (V_size <=? u32 (Z.shiftl 1 (L_size - 6))) then 0
  else if negb (u32 (Z.shiftl 1 (L_size - 6)) <? u64 (V_size * 2)) then 0
  else if negb (0 <? V_size) then 0
  else V_size.

Definition n_bulletproof_max_amounts_base (L_size R_size max_outputs : Z) : Z :=
  if negb (6 <=? L_size) then 0
  else if negb (L_size =? R_size) then 0
  else if negb (Z.shiftl 1 4 =? max_outputs) then 0
  else if negb (L_size <=? 6 + 4) then 0
  else Z.shiftl 1 (L_size - 6).

Definition size {A} (l : list A) : Z := Z.of_nat (length l).

Definition n_bulletproof_amounts1 (proof : Bulletproof) : Z :=
  n_bulletproof_amounts_base (size (bp_L proof)) (size (bp_R proof)) (size (bp_V proof))
    BULLETPROOF_MAX_OUTPUTS.
Definition n_bulletproof_plus_amounts1 (proof : BulletproofPlus) : Z :=
  n_bulletproof_amounts_base (size (bpp_L proof)) (size (bpp_R proof)) (size (bpp_V proof))
    BULLETPROOF_PLUS_MAX_OUTPUTS.
Definition n_bulletproof_max_amounts1 (proof : Bulletproof) : Z :=
  n_bulletproof_max_amounts_base (size (bp_L proof)) (size (bp_R proof)) BULLETPROOF_MAX_OUTPUTS.
Definition n_bulletproof_plus_max_amounts1 (proof : BulletproofPlus) : Z :=
  n_bulletproof_max_amounts_base (size (bpp_L proof)) (size (bpp_R proof)) BULLETPROOF_PLUS_MAX_OUTPUTS.

(** The four sums over a vector of proofs have the same loop. *)
Fixpoint sum_amounts {A} (count : A -> Z) (proofs : list A) (n : Z) : Z :=
  match proofs with
  | [] => n
  | proof :: proofs' =>
      let n2 := count proof in
      if negb (n2 <? u64 (2 ^ 32 - 1 - n)) then 0
      else if n2 =? 0 then 0
      else sum_amounts count proofs' (n + n2)
  end.

Definition n_bulletproof_amounts (proofs : list Bulletproof) : Z :=
  sum_amounts n_bulletproof_amounts1 proofs 0.
Definition n_bulletproof_plus_amounts (proofs : list BulletproofPlus) : Z :=
  sum_amounts n_bulletproof_plus_amounts1 proofs 0.
Definition n_bulletproof_max_amounts (proofs : list Bulletproof) : Z :=
  sum_amounts n_bulletproof_max_amounts1 proofs 0.
Definition n_bulletproof_plus_max_amounts (proofs : list BulletproofPlus) : Z :=
  sum_amounts n_bulletproof_plus_max_amounts1 proofs 0.

(** *** The unprunable part: [rctSigBase::serialize_rctsig_base] *)

Record rctSigBase := RctSigBase {
  rct_type : Z;
  message : list Z;
  mixRing : list (list ctkey);
  pseudoOuts : list (list Z);
  ecdhInfo : list ecdhTuple;
  outPk : list ctkey;
  txnFee : Z;
}.

Definition rctSigBase_null : rctSigBase := RctSigBase RCTTypeNull zero_key [] [] [] [] 0.

(** [outPk[i].mask]; the destination is rebuilt from the output. *)
Definition outPk_c : codec ctkey :=
  c_map (fun k => Some (dest k, ct_mask k)) (fun '(d, m) => Ctkey d m)
        (c_pair (c_skip zero_key) key).

Definition ecdh_c (type : Z) : codec ecdhTuple :=
  if (type =? RCTTypeBulletproof2) || (type =? RCTTypeCLSAG) || (type =? RCTTypeBulletproofPlus)
  then ecdhTuple_trunc_c else ecdhTuple_c.

(** The members after [type], [type] itself known. *)
Definition rctSigBase_fields (inputs outputs : nat) (type : Z) : codec rctSigBase :=
  if type =? RCTTypeNull then
    c_map (fun b => if rct_type b =? type then Some tt else None) (fun _ => rctSigBase_null) c_unit
  else if negb (rct_type_known type) then c_fail
  else
    c_map
      (fun b => if rct_type b =? type
                then Some (message b, (mixRing b, (txnFee b, (pseudoOuts b, (ecdhInfo b, outPk b)))))
                else None)
      (fun '(msg, (ring, (fee, (po, (ei, pk))))) => RctSigBase type msg ring po ei pk fee)
      (c_pair (c_skip zero_key) (c_pair (c_skip [])
      (c_pair (serialize_varint 64)
      (c_pair (if type =? RCTTypeSimple then c_array inputs key else c_skip [])
      (c_pair (c_array outputs (ecdh_c type)) (c_array outputs outPk_c)))))).

Definition serialize_rctsig_base (inputs outputs : nat) : codec rctSigBase :=
  c_bind rct_type (serialize_uint 1) (rctSigBase_fields inputs outputs).

(** *** The prunable part: [rctSigPrunable::serialize_rctsig_prunable] *)

Record clsag := Clsag { cl_s : list (list Z); cl_c1 : list Z; cl_I : list Z; cl_D : list Z }.
Record mgSig := MgSig { mg_ss : list (list (list Z)); mg_cc : list Z; mg_II : list (list Z) }.

Record rctSigPrunable := RctSigPrunable {
  rangeSigs : list rangeSig;
  bulletproofs : list Bulletproof;
  bulletproofs_plus : list BulletproofPlus;
  MGs : list mgSig;
  CLSAGs : list clsag;
  p_pseudoOuts : list (list Z);
}.

Definition rctSigPrunable_null : rctSigPrunable := RctSigPrunable [] [] [] [] [] [].

Definition clsag_c (mixin : nat) : codec clsag :=
  c_map (fun c => Some (cl_s c, (cl_c1 c, (cl_I c, cl_D c)))) (fun '(s, (c1, (I_, D))) => Clsag s c1 I_ D)
        (c_pair (c_array (mixin + 1) key) (c_pair key (c_pair (c_skip zero_key) key))).

Definition mgSig_c (mixin ss2_elements : nat) : codec mgSig :=
  c_map (fun m => Some (mg_ss m, (mg_cc m, mg_II m))) (fun '(ss, (cc, II)) => MgSig ss cc II)
        (c_pair (c_array (mixin + 1) (c_array ss2_elements key)) (c_pair key (c_skip []))).

(** [nbp] is a [uint32_t], a varint except in [RCTTypeBulletproof]. *)
Definition bulletproofs_plus_c (type : Z) (outputs : nat) : codec (list BulletproofPlus) :=
  if type =? RCTTypeBulletproofPlus then
    c_guard (fun l => (length l <=? outputs)%nat
                      && negb (n_bulletproof_plus_max_amounts l <? Z.of_nat outputs))
      (c_counted (c_size (serialize_varint 32)) BulletproofPlus_c)
  else c_skip [].

Definition bulletproofs_c (type : Z) (outputs : nat) : codec (list Bulletproof) :=
  if is_rct_bulletproof type then
    c_guard (fun l => (length l <=? outputs)%nat
                      && negb (n_bulletproof_max_amounts l <? Z.of_nat outputs))
      (if (type =? RCTTypeBulletproof2) || (type =? RCTTypeCLSAG)
       then c_counted (c_size (serialize_varint 32)) Bulletproof_c
       else c_counted (c_size (serialize_uint 4)) Bulletproof_c)
  else c_skip [].

Definition rangeSigs_c (type : Z) (outputs : nat) : codec (list rangeSig) :=
  if (type =? RCTTypeBulletproofPlus) || is_rct_bulletproof type then c_skip []
  else c_array outputs rangeSig_c.

Definition mg_simple (type : Z) : bool :=
  (type =? RCTTypeSimple) || (type =? RCTTypeBulletproof) || (type =? RCTTypeBulletproof2).

Definition MGs_c (type : Z) (inputs mixin : nat) : codec (list mgSig) :=
  if is_rct_clsag type then c_skip []
  else
    let mg_elements := if mg_simple type then inputs else 1%nat in
    let mg_ss2_elements := ((if mg_simple type then 1 else inputs) + 1)%nat in
    c_array mg_elements (mgSig_c mixin mg_ss2_elements).

Definition CLSAGs_c (type : Z) (inputs mixin : nat) : codec (list clsag) :=
  if is_rct_clsag type then c_array inputs (clsag_c mixin) else c_skip [].

Definition prunable_pseudoOuts_c (type : Z) (inputs : nat) : codec (list (list Z)) :=
  if is_rct_bulletproof type || (type =? RCTTypeBulletproofPlus) then c_array inputs key
  else c_skip [].

Definition serialize_rctsig_prunable (type : Z) (inputs outputs : nat) (mixin : Z)
    : codec rctSigPrunable :=
  if 0xffffffff <=? Z.of_nat inputs then c_fail
  else if 0xffffffff <=? Z.of_nat outputs then c_fail
  else if 0xffffffff <=? mixin then c_fail
  else if type =? RCTTypeNull then c_skip rctSigPrunable_null
  else if negb (rct_type_known type) then c_fail
  else
    let mixin := Z.to_nat mixin in
    c_map
      (fun p => Some (bulletproofs_plus p, (bulletproofs p, (rangeSigs p,
                     (CLSAGs p, (MGs p, p_pseudoOuts p))))))
      (fun '(bpp, (bp, (rs, (cl, (mg, po))))) => RctSigPrunable rs bp bpp mg cl po)
      (c_pair (bulletproofs_plus_c type outputs)
      (c_pair (bulletproofs_c type outputs)
      (c_pair (rangeSigs_c type outputs)
      (c_pair (CLSAGs_c type inputs mixin)
      (c_pair (MGs_c type inputs mixin) (prunable_pseudoOuts_c type inputs)))))).

(** ** Laws *)

#[export] Instance key_ok : CodecOk key.
Proof. apply serialize_blob_ok. Qed.
#[export] Instance key_exact : Exact key.
Proof. done. Qed.
#[export] Instance key_produces : Produces key.
Proof. apply serialize_blob_produces. lia. Qed.
#[export] Instance keyV_ok : CodecOk keyV.
Proof. unfold keyV. apply _. Qed.
#[export] Instance keyV_exact : Exact keyV.
Proof. unfold keyV. apply _. Qed.

#[export] Instance ecdhTuple_ok : CodecOk ecdhTuple_c.
Proof. codec_record. Qed.

#[export] Instance ecdhTuple_trunc_ok : CodecOk ecdhTuple_trunc_c.
Proof.
  apply c_map_ok; [apply _|]. intros a bs. cbn. case_decide as Ha; [|done]. intros _.
  destruct Ha as [Hl _]. by rewrite take_app_length' by done.
Qed.

#[export] Instance ecdh_ok type : CodecOk (ecdh_c type).
Proof. unfold ecdh_c. case_match; apply _. Qed.

#[export] Instance rangeSig_ok : CodecOk rangeSig_c.
Proof. codec_record. Qed.

(** The size checks of a proof only look at members that are serialized. *)
Lemma Bulletproof_norm p :
  norm Bulletproof_c p =
    MkBulletproof [] (bp_A p) (bp_S p) (bp_T1 p) (bp_T2 p) (bp_taux p) (bp_mu p)
      (bp_L p) (bp_R p) (bp_a p) (bp_b p) (bp_t p).
Proof. cbn. by rewrite !map_id. Qed.

Lemma BulletproofPlus_norm p :
  norm BulletproofPlus_c p =
    MkBulletproofPlus [] (bpp_A p) (bpp_A1 p) (bpp_B p) (bpp_r1 p) (bpp_s1 p) (bpp_d1 p)
      (bpp_L p) (bpp_R p).
Proof. cbn. by rewrite !map_id. Qed.

#[export] Instance Bulletproof_ok : CodecOk Bulletproof_c.
Proof. apply c_guard_ok; [codec_record|]. intros p. pose proof (Bulletproof_norm p) as E. cbn [norm Bulletproof_c c_guard] in E. by rewrite E. Qed.

#[export] Instance BulletproofPlus_ok : CodecOk BulletproofPlus_c.
Proof. apply c_guard_ok; [codec_record|]. intros p. pose proof (BulletproofPlus_norm p) as E. cbn [norm BulletproofPlus_c c_guard] in E. by rewrite E. Qed.

#[export] Instance outPk_ok : CodecOk outPk_c.
Proof. codec_record. Qed.

#[export] Instance rctSigBase_fields_ok inputs outputs type :
  CodecOk (rctSigBase_fields inputs outputs type).
Proof.
  unfold rctSigBase_fields. destruct (Z.eqb_spec type RCTTypeNull) as [->|].
  { apply c_map_ok; [apply _|]. by intros []. }
  destruct (rct_type_known type); cbn [negb]; [|apply _].
  apply c_map_ok.
  - destruct (type =? RCTTypeSimple); apply _.
  - intros (msg & ring & fee & po & ei & pk) bs _. cbn [rct_type message mixRing txnFee
      RctTypes.pseudoOuts ecdhInfo outPk]. by rewrite Z.eqb_refl.
Qed.

Lemma rctSigBase_fields_type inputs outputs type b bs :
  enc (rctSigBase_fields inputs outputs type) b = Some bs -> rct_type b = type.
Proof.
  unfold rctSigBase_fields. repeat case_match; try done; cbn [enc c_map];
    destruct (Z.eqb_spec (rct_type b) type); done.
Qed.

#[export] Instance serialize_rctsig_base_ok inputs outputs :
  CodecOk (serialize_rctsig_base inputs outputs).
Proof. apply c_bind_ok; try apply _. apply rctSigBase_fields_type. Qed.

Lemma serialize_rctsig_base_norm_type inputs outputs b :
  rct_type (norm (serialize_rctsig_base inputs outputs) b) = rct_type b.
Proof.
  cbn [norm serialize_rctsig_base c_bind]. unfold rctSigBase_fields.
  destruct (Z.eqb_spec (rct_type b) RCTTypeNull) as [E|].
  - cbn [norm c_map]. rewrite Z.eqb_refl. cbn. done.
  - destruct (rct_type_known (rct_type b)); [|done].
    cbn [norm c_map negb]. by rewrite Z.eqb_refl.
Qed.

#[export] Instance clsag_ok mixin : CodecOk (clsag_c mixin).
Proof. codec_record. Qed.
#[export] Instance mgSig_ok mixin n : CodecOk (mgSig_c mixin n).
Proof. codec_record. Qed.

Lemma sum_amounts_map {A} (f : A -> A) (count : A -> Z) l n :
  (forall a, count (f a) = count a) -> sum_amounts count (map f l) n = sum_amounts count l n.
Proof.
  intros Hf. revert n; induction l as [|a l IH]; intros n; cbn [sum_amounts map]; [done|].
  by rewrite Hf, IH.
Qed.

#[export] Instance bulletproofs_plus_ok type outputs : CodecOk (bulletproofs_plus_c type outputs).
Proof.
  unfold bulletproofs_plus_c. case_match; [|apply _]. apply c_guard_ok; [apply _|].
  intros l. cbn [norm c_counted c_bind c_array]. rewrite length_map.
  unfold n_bulletproof_plus_max_amounts. rewrite sum_amounts_map; [done|].
  intros p. by rewrite BulletproofPlus_norm.
Qed.

#[export] Instance bulletproofs_ok type outputs : CodecOk (bulletproofs_c type outputs).
Proof.
  unfold bulletproofs_c. case_match; [|apply _].
  case_match; (apply c_guard_ok; [apply _|]); intros l; cbn [norm c_counted c_bind c_array];
    rewrite length_map; unfold n_bulletproof_max_amounts; (rewrite sum_amounts_map; [done|]);
    intros p; by rewrite Bulletproof_norm.
Qed.

#[export] Instance rangeSigs_ok type outputs : CodecOk (rangeSigs_c type outputs).
Proof. unfold rangeSigs_c. case_match; apply _. Qed.
#[export] Instance MGs_ok type inputs mixin : CodecOk (MGs_c type inputs mixin).
Proof. unfold MGs_c. case_match; apply _. Qed.
#[export] Instance CLSAGs_ok type inputs mixin : CodecOk (CLSAGs_c type inputs mixin).
Proof. unfold CLSAGs_c. case_match; apply _. Qed.
#[export] Instance prunable_pseudoOuts_ok type inputs : CodecOk (prunable_pseudoOuts_c type inputs).
Proof. unfold prunable_pseudoOuts_c. case_match; apply _. Qed.

#[export] Instance serialize_rctsig_prunable_ok type inputs outputs mixin :
  CodecOk (serialize_rctsig_prunable type inputs outputs mixin).
Proof. unfold serialize_rctsig_prunable. repeat (case_match; [apply _|]). codec_record. Qed.
