(* ===== verification/RctOps.v ===== *)
(** * RingCT operations

    [src/ringct/rctOps.cpp] and its header, [sc_reduce32copy] of
    [src/ringct/rctCryptoOps.c] and the conversions of amounts of
    [src/ringct/rctTypes.cpp]: keys as points and scalars, Pedersen commitments,
    sums of multiples of points given by their bytes, hashing of keys, and the
    encoding of the amount of an output for its receiver.

    Functions that throw have the type [exc A]: [None] is what C++ leaves
    undefined, a failed assertion or a wait for random numbers that never ends,
    as elsewhere, [Some None] an exception and [Some (Some a)] a result. *)

From Stdlib Require Import Zmod.
From S2P Require Import Prelude Varint Limbs ScalarOps Primes FieldOps Group Edwards GroupOps ScalarMult CurveTables CurveOrder HashToPoint Keccak Blake2b Crypto Signatures RctTables Generators RctTypes.

#[local] Abbreviation B := base_point.

(** ** Exceptions *)

Definition exc (A : Type) : Type := option (option A).

Definition throw {A} : exc A := Some None.

Definition ret {A} (a : A) : exc A := Some (Some a).

Definition ebind {A C} (m : exc A) (k : A -> exc C) : exc C :=
  match m with
  | None => None
  | Some None => Some None
  | Some (Some a) => k a
  end.

(** A call that does not throw. *)
Definition lift {A} (m : option A) : exc A := match m with None => None | Some a => Some (Some a) end.

Declare Scope exc_scope.
Delimit Scope exc_scope with exc.
Notation "x <- m ; k" := (ebind m (fun x => k)) (at level 20, m at level 100, k at level 200, right associativity) : exc_scope.
Notation "' p <- m ; k" := (ebind m (fun p => k)) (at level 20, p pattern, m at level 100, k at level 200, right associativity) : exc_scope.
Open Scope exc_scope.

(** [CHECK_AND_ASSERT_THROW_MES]. *)
Definition throw_unless (b : bool) : exc unit := if b then ret tt else throw.

(** [try { return ...; } catch (...) { return false; }]. *)
Definition catch_false (m : exc bool) : option bool := match m with None => None | Some None => Some false | Some (Some b) => Some b end.

(** ** Constants and conversions *)

Definition zero : list Z := replicate 32 0.
Definition identity : list Z := 1 :: replicate 31 0.

Definition curveOrder : list Z := [
  0xed; 0xd3; 0xf5; 0x5c; 0x1a; 0x63; 0x12; 0x58; 0xd6; 0x9c; 0xf7; 0xa2; 0xde; 0xf9; 0xde; 0x14;
  0x00; 0x00; 0x00; 0x00; 0x00; 0x00; 0x00; 0x00; 0x00; 0x00; 0x00; 0x00; 0x00; 0x00; 0x00; 0x10].

Definition EIGHT : list Z := 8 :: replicate 31 0.

Definition INV_EIGHT : list Z := [
  0x79; 0x2f; 0xdc; 0xe2; 0x29; 0xe5; 0x06; 0x61; 0xd0; 0xda; 0x1c; 0x7d; 0xb3; 0x9d; 0xd3; 0x07;
  0x00; 0x00; 0x00; 0x00; 0x00; 0x00; 0x00; 0x00; 0x00; 0x00; 0x00; 0x00; 0x00; 0x00; 0x00; 0x06].

Definition sc_reduce32copy (s : list Z) : option (list Z) := finish tail_ops (load_limbs s ++ [0]).

(** An amount as a key. *)
Definition d2h (val : Z) : list Z := le_bytes 8 val ++ drop 8 sc_0.

(** The bits of an amount, the lowest first. *)
Fixpoint d2b_from (n : nat) (val : Z) : list Z :=
  match n with
  | O => []
  | S n => Z.land val 1 :: d2b_from n (Z.shiftr val 1)
  end.

Definition d2b (val : Z) : list Z := d2b_from 64 val.

(** [None] when a byte above the eighth is not zero. *)
Definition h2d (test : list Z) : option Z :=
  if forallb (fun j => byte test j =? 0) (seq 8 24) then
    Some (foldl (fun amountd j => u64 (amountd * 256 + byte test j)) 0 (rev (seq 0 8)))
  else None.

Definition b2d (amountb : list Z) : Z := foldl (fun vali j => u64 (vali * 2 + nth j amountb 0)) 0 (rev (seq 0 64)).

Definition equalKeys (a b : list Z) : bool := foldl (fun rv i => if negb (byte a i =? byte b i) then false else rv) true (seq 0 32).

Definition is_rct_simple (type : Z) : bool :=
  (type =? RCTTypeSimple) || (type =? RCTTypeBulletproof) || (type =? RCTTypeBulletproof2) || (type =? RCTTypeCLSAG) || (type =? RCTTypeBulletproofPlus).

(** A matrix by columns. *)
Definition keyMInit (rows cols : nat) : list (list (list Z)) := replicate cols (replicate rows zero).

(** ** Hashing *)

(** [rct::cn_fast_hash] of some bytes, and of the bytes of a vector of keys. *)
Definition rct_cn_fast_hash (data : list Z) : option (list Z) := keccak data 32.

Definition cn_fast_hash_keys (keys : list (list Z)) : option (list Z) :=
  match keys with
  | [] => cn_fast_hash []
  | _ => rct_cn_fast_hash (concat keys)
  end.

Definition rct_hash_to_scalar (data : list Z) : option (list Z) := hash ← rct_cn_fast_hash data; sc_reduce32 hash.

Definition hash_to_scalar_keys (keys : list (list Z)) : option (list Z) := rv ← cn_fast_hash_keys keys; sc_reduce32 rv.

Definition hash_to_p3 (k : list Z) : option ge_p3 :=
  hash_key ← rct_cn_fast_hash k;
  hash_p2 ← ge_fromfe_frombytes_vartime hash_key;
  hash8_p1p1 ← ge_mul8 hash_p2;
  ge_p1p1_to_p3 hash8_p1p1.

(** ** Points *)

(** Does the data decode to a point of the prime order? *)
Definition toPointCheckOrder (data : list Z) : option bool :=
  P ← ge_frombytes_vartime data;
  match P with
  | None => Some false
  | Some P => R ← ge_scalarmult curveOrder P; tmp ← ge_tobytes R; Some (bool_decide (tmp = identity))
  end.

Definition isInMainSubgroup (A : list Z) : option bool := toPointCheckOrder A.

Definition scalarmultBase (a : list Z) : option (list Z) :=
  aG ← sc_reduce32copy a;
  point ← ge_scalarmult_base ge_base aG;
  ge_p3_tobytes point.

Definition scalarmultKey (P a : list Z) : exc (list Z) :=
  A <- ge_frombytes_vartime P;
  lift (R ← ge_scalarmult a A; ge_tobytes R).

Definition scalarmultH (a : list Z) : option (list Z) := R ← ge_scalarmult a ge_p3_H; ge_tobytes R.

Definition scalarmult8 (P : list Z) : exc (list Z) :=
  p3 <- ge_frombytes_vartime P;
  lift (p1 ← ge_mul8 (ge_p3_to_p2 p3); p2 ← ge_p1p1_to_p2 p1; ge_tobytes p2).

Definition scalarmult8_p3 (P : list Z) : exc ge_p3 :=
  p3 <- ge_frombytes_vartime P;
  lift (p1 ← ge_mul8 (ge_p3_to_p2 p3); ge_p1p1_to_p3 p1).

Definition addKeys (A B : list Z) : exc (list Z) :=
  B2 <- ge_frombytes_vartime B;
  A2 <- ge_frombytes_vartime A;
  lift (tmp2 ← ge_p3_to_cached B2; tmp3 ← ge_add A2 tmp2; A2 ← ge_p1p1_to_p3 tmp3; ge_p3_tobytes A2).

Definition subKeys (A B : list Z) : exc (list Z) :=
  B2 <- ge_frombytes_vartime B;
  A2 <- ge_frombytes_vartime A;
  lift (tmp2 ← ge_p3_to_cached B2; tmp3 ← ge_sub A2 tmp2; A2 ← ge_p1p1_to_p3 tmp3; ge_p3_tobytes A2).

Fixpoint addKeys_loop (p3 : ge_p3) (A : list (list Z)) : exc ge_p3 :=
  match A with
  | [] => ret p3
  | a :: A =>
      tmp <- ge_frombytes_vartime a;
      p3 <- lift (p2 ← ge_p3_to_cached tmp; p1 ← ge_add p3 p2; ge_p1p1_to_p3 p1);
      addKeys_loop p3 A
  end.

(** The sum of a vector of keys. *)
Definition addKeysV (A : list (list Z)) : exc (list Z) :=
  match A with
  | [] => ret identity
  | a :: A => p3 <- ge_frombytes_vartime a; p3 <- addKeys_loop p3 A; lift (ge_p3_tobytes p3)
  end.

(** [a G + B]. *)
Definition addKeys1 (a B : list Z) : exc (list Z) := aG <- lift (scalarmultBase a); addKeys aG B.

(** [a G + b B]. *)
Definition addKeys2 (a b B : list Z) : exc (list Z) :=
  B2 <- ge_frombytes_vartime B;
  lift (rv ← ge_double_scalarmult_base_vartime ge_Bi b B2 a; ge_tobytes rv).

Definition precomp (B : list Z) : exc (list ge_cached) := B2 <- ge_frombytes_vartime B; lift (ge_dsm_precomp B2).

(** [a A + b B], the second point precomputed or both. *)
Definition addKeys3 (a A b : list Z) (B : list ge_cached) : exc (list Z) :=
  A2 <- ge_frombytes_vartime A;
  lift (rv ← ge_double_scalarmult_precomp_vartime a A2 b B; ge_tobytes rv).

Definition addKeys3_precomp (a : list Z) (A : list ge_cached) (b : list Z) (B : list ge_cached) : option (list Z) :=
  rv ← ge_double_scalarmult_precomp_vartime2 a A b B; ge_tobytes rv.

Definition addKeys_aGbBcC (a b : list Z) (B : list ge_cached) (c : list Z) (C : list ge_cached) : option (list Z) :=
  rv ← ge_triple_scalarmult_base_vartime ge_Bi a b B c C; ge_tobytes rv.

Definition addKeys_aAbBcC (a : list Z) (A : list ge_cached) (b : list Z) (B : list ge_cached) (c : list Z) (C : list ge_cached) : option (list Z) :=
  rv ← ge_triple_scalarmult_precomp_vartime a A b B c C; ge_tobytes rv.

(** ** Keys and commitments *)

(** A random scalar and the random blocks left. *)
Definition skGen (draws : list (list Z)) : option (list Z * list (list Z)) := random32_unbiased draws.

Fixpoint skvGen_loop (rows : nat) (draws : list (list Z)) : option (list (list Z) * list (list Z)) :=
  match rows with
  | O => Some ([], draws)
  | S rows => '(sk, draws) ← skGen draws; '(rv, draws) ← skvGen_loop rows draws; Some (sk :: rv, draws)
  end.

Definition skvGen (rows : nat) (draws : list (list Z)) : exc (list (list Z) * list (list Z)) :=
  _ <- throw_unless (0 <? rows)%nat;
  lift (skvGen_loop rows draws).

Definition pkGen (draws : list (list Z)) : option (list Z * list (list Z)) :=
  '(sk, draws) ← skGen draws; pk ← scalarmultBase sk; Some (pk, draws).

Definition skpkGen (draws : list (list Z)) : option (list Z * list Z * list (list Z)) :=
  '(sk, draws) ← skGen draws; pk ← scalarmultBase sk; Some (sk, pk, draws).

(** [C = a G + amount H]. *)
Definition genC (a : list Z) (amount : Z) : exc (list Z) := addKeys2 a (d2h amount) H.

Definition commit (amount : Z) (mask : list Z) : exc (list Z) := genC mask amount.

(** Secret and public keys of an output of a given amount. *)
Definition ctskpkGen (amount : Z) (draws : list (list Z)) : exc (ctkey * ctkey * list (list Z)) :=
  '(sk_dest, pk_dest, draws) <- lift (skpkGen draws);
  '(sk_mask, pk_mask, draws) <- lift (skpkGen draws);
  bH <- lift (scalarmultH (d2h amount));
  pk_mask <- addKeys pk_mask bH;
  ret (Ctkey sk_dest sk_mask, Ctkey pk_dest pk_mask, draws).

Fixpoint H_TABLE_from (n : nat) (H_bit_p3 : ge_p3) : option (list ge_cached) :=
  match n with
  | O => Some []
  | S n =>
      H_bit_p1p1 ← ge_p3_dbl H_bit_p3;
      H_bit_p3 ← ge_p1p1_to_p3 H_bit_p1p1;
      c ← ge_p3_to_cached H_bit_p3;
      cs ← H_TABLE_from n H_bit_p3;
      Some (c :: cs)
  end.

Definition H_TABLE : option (list ge_cached) := c ← ge_p3_to_cached ge_p3_H; cs ← H_TABLE_from 63 ge_p3_H; Some (c :: cs).

(** [std::lower_bound]: the entries from the first with at least the amount. *)
Fixpoint lower_bound (amount : Z) (l : list (Z * list Z)) : list (Z * list Z) :=
  match l with
  | [] => []
  | e :: l' => if e.1 <? amount then lower_bound amount l' else l
  end.

Fixpoint add_bits (amount : Z) (i : nat) (table : list ge_cached) (res : ge_p3) : option ge_p3 :=
  match table with
  | [] => Some res
  | c :: table =>
      res ← (if negb (Z.land amount (u64 (Z.shiftl 1 (Z.of_nat i))) =? 0)
             then p1p1 ← ge_add res c; ge_p1p1_to_p3 p1p1 else Some res);
      add_bits amount (S i) table res
  end.

(** The commitment with mask 1. *)
Definition zeroCommitVartime (debug : bool) (amount : Z) : option (list Z) :=
  let computed :=
    (res_ge_p3 ← get_G_p3 debug;
     table ← H_TABLE;
     res_ge_p3 ← add_bits amount 0 table res_ge_p3;
     ge_p3_tobytes res_ge_p3) in
  match lower_bound amount zero_commitments with
  | (a, commitment) :: _ => if a =? amount then Some commitment else computed
  | [] => computed
  end.

(** ** The amount of an output *)

(** The characters of [amount] and of [commitment_mask]. *)
Definition amount_label : list Z := [97; 109; 111; 117; 110; 116].
Definition commitment_mask_label : list Z := [99; 111; 109; 109; 105; 116; 109; 101; 110; 116; 95; 109; 97; 115; 107].

Definition genAmountEncodingFactor (k : list Z) : option (list Z) := rct_cn_fast_hash (amount_label ++ k).

Definition genCommitmentMask (sk : list Z) : option (list Z) := rct_hash_to_scalar (commitment_mask_label ++ sk).

Definition xor8 (v k : list Z) : list Z := zip_with Z.lxor (take 8 v) (take 8 k) ++ drop 8 v.

Definition ecdhEncode (unmasked : ecdhTuple) (sharedSec : list Z) (v2 : bool) : option ecdhTuple :=
  if v2 then
    f ← genAmountEncodingFactor sharedSec;
    Some (EcdhTuple zero (xor8 (amount unmasked) f))
  else
    sharedSec1 ← rct_hash_to_scalar sharedSec;
    sharedSec2 ← rct_hash_to_scalar sharedSec1;
    m ← sc_add (mask unmasked) sharedSec1;
    a ← sc_add (amount unmasked) sharedSec2;
    Some (EcdhTuple m a).

Definition ecdhDecode (masked : ecdhTuple) (sharedSec : list Z) (v2 : bool) : option ecdhTuple :=
  if v2 then
    m ← genCommitmentMask sharedSec;
    f ← genAmountEncodingFactor sharedSec;
    Some (EcdhTuple m (xor8 (amount masked) f))
  else
    sharedSec1 ← rct_hash_to_scalar sharedSec;
    sharedSec2 ← rct_hash_to_scalar sharedSec1;
    m ← sc_sub (mask masked) sharedSec1;
    a ← sc_sub (amount masked) sharedSec2;
    Some (EcdhTuple m a).

(** ** Reasoning about calls that may throw *)

Definition yields {A} (m : exc A) (P : A -> Prop) : Prop := exists a, m = ret a /\ P a.

Lemma yields_ret {A} (a : A) (P : A -> Prop) : P a -> yields (ret a) P.
Proof. intros H. by exists a. Qed.

Lemma yields_bind {A C} (m : exc A) (k : A -> exc C) (P : A -> Prop) (Q : C -> Prop) :
  yields m P -> (forall a, P a -> yields (k a) Q) -> yields (ebind m k) Q.
Proof. intros (a & -> & Ha) Hk. exact (Hk a Ha). Qed.

Lemma yields_bind_eq {A C} (m : exc A) (a : A) (k : A -> exc C) (Q : C -> Prop) : m = ret a -> yields (k a) Q -> yields (ebind m k) Q.
Proof. intros -> H. exact H. Qed.

Lemma yields_mono {A} (m : exc A) (P Q : A -> Prop) : yields m P -> (forall a, P a -> Q a) -> yields m Q.
Proof. intros (a & E & Ha) H. exists a. split; [exact E|exact (H a Ha)]. Qed.

Lemma yields_lift {A} (m : option A) (P : A -> Prop) : returns m P -> yields (lift m) P.
Proof. intros (a & -> & Ha). by exists a. Qed.

Lemma yields_eq {A} (m : exc A) a : m = ret a <-> yields m (eq a).
Proof. split; [intros ->; by exists a|by intros (? & -> & <-)]. Qed.

Lemma ebind_ret {A C} (a : A) (k : A -> exc C) : ebind (ret a) k = k a.
Proof. reflexivity. Qed.

Lemma ebind_throw {A C} (k : A -> exc C) : ebind throw k = throw.
Proof. reflexivity. Qed.

Lemma ebind_lift {A C} (a : A) (k : A -> exc C) : ebind (lift (Some a)) k = k a.
Proof. reflexivity. Qed.

Lemma throw_unless_bind {A} b (k : unit -> exc A) : b = true -> ebind (throw_unless b) k = k tt.
Proof. by intros ->. Qed.

Lemma throw_unless_true b : b = true -> throw_unless b = ret tt.
Proof. by intros ->. Qed.

(** Decoding yields the point, or throws when there is none. *)
Lemma decode_yields P : yields (ge_frombytes_vartime (encode P)) (fun p => p3_ok p P).
Proof. destruct (ge_frombytes_encode P) as (? & E & p & -> & Hp). by exists p. Qed.

Definition is_point (s : list Z) : Prop := exists P, s = encode P.

Lemma decode_throws s : is_key s -> ~ is_point s -> ge_frombytes_vartime s = throw.
Proof. intros Hs Hn. destruct (decode_cases s Hs) as [H|[E _]]; [destruct (Hn H)|exact E]. Qed.

Lemma is_point_dec s : is_key s -> is_point s \/ ~ is_point s.
Proof. intros Hs. destruct (decode_cases s Hs) as [H|[_ H]]; [by left|right; intros [P ->]; by apply (H P)]. Qed.

(** One call. *)
Ltac exc_step :=
  lazymatch goal with
  | |- yields (ebind (ge_frombytes_vartime (encode _)) _) _ => eapply yields_bind; [apply decode_yields|cbn beta; intros ? ?]
  | |- yields (lift _) _ => apply yields_lift
  | |- yields (ebind (lift _) _) _ => eapply yields_bind; [apply yields_lift|]
  end.

(** ** Scalars and amounts *)

Lemma length_d2h x : length (d2h x) = 32%nat.
Proof. unfold d2h. by rewrite length_app, length_le_bytes. Qed.

Lemma d2h_bytes x : is_u64 x -> d2h x = le_bytes 32 x.
Proof.
  intros Hx. unfold is_uint in Hx. unfold d2h. change (drop 8 sc_0) with (replicate 24 0).
  assert (is_key (le_bytes 8 x ++ replicate 24 0)) as Hk.
  { split; [by rewrite length_app, length_le_bytes|]. apply Forall_app. split; [apply le_bytes_ok|]. apply Forall_replicate. by vm_compute. }
  rewrite (key_bytes _ Hk). f_equal. rewrite le_value_app, le_value_bytes by (change (256 ^ Z.of_nat 8) with (2 ^ 64); lia).
  change (le_value (replicate 24 0)) with 0. lia.
Qed.

Lemma d2h_value x : is_u64 x -> le_value (d2h x) = x.
Proof. intros Hx. rewrite d2h_bytes by done. unfold is_uint in Hx. apply le_value_bytes. change (256 ^ Z.of_nat 32) with (2 ^ 256). lia. Qed.

Lemma d2h_reduced x : is_u64 x -> reduced (d2h x).
Proof.
  intros Hx. split; [|rewrite d2h_value by done; unfold is_uint in Hx; pose proof ell_bounds; lia]. rewrite d2h_bytes by done.
  split; [apply length_le_bytes|apply le_bytes_ok].
Qed.

#[export] Hint Resolve d2h_reduced : scalars.

Lemma sc_reduce32copy_eq a : is_key a -> sc_reduce32copy a = Some (le_bytes 32 (le_value a mod ell)).
Proof. exact (sc_reduce32_eq a). Qed.

Lemma bytes_from_top s n acc : bytes_ok s -> (n <= length s)%nat -> (n <= 8)%nat -> 0 <= acc < 256 ^ (8 - Z.of_nat n) ->
  foldl (fun a j => u64 (a * 256 + byte s j)) acc (rev (seq 0 n)) = acc * 256 ^ Z.of_nat n + le_value (take n s).
Proof.
  intros Hs. revert acc. induction n as [|n IH]; intros acc Hl Hn Ha; [cbn; rewrite take_0; change (le_value []) with 0; lia|].
  rewrite rev_seq_S. cbn [foldl]. pose proof (byte_ok s n Hs) as Hb. unfold is_uint in Hb. change (2 ^ 8) with 256 in Hb.
  assert (256 ^ (8 - Z.of_nat n) = 256 * 256 ^ (8 - Z.of_nat (S n))) as E by (rewrite <- Z.pow_succ_r by lia; f_equal; lia).
  assert (256 ^ (8 - Z.of_nat n) <= 2 ^ 64) by (change (2 ^ 64) with (256 ^ 8); apply Z.pow_le_mono_r; lia).
  rewrite wrapu_small by (unfold is_uint; lia). rewrite IH by lia. rewrite le_value_take_S by (done || lia).
  rewrite Nat2Z.inj_succ, Z.pow_succ_r by lia. lia.
Qed.

(** The amount of a key is read back when it fits, and refused otherwise. *)
Lemma h2d_spec s : is_key s -> h2d s = if le_value s <? 2 ^ 64 then Some (le_value s) else None.
Proof.
  intros Hs. pose proof Hs as [Hl Hb]. pose proof (key_range s Hs) as Hr. unfold h2d. rewrite (bytes_from_top s 8 0) by (done || lia). rewrite Z.mul_0_l, Z.add_0_l.
  assert (le_value s = le_value (take 8 s) + 2 ^ 64 * le_value (drop 8 s)) as Ev.
  { rewrite <- (take_drop 8 s) at 1. rewrite le_value_app, length_take_le by lia. reflexivity. }
  pose proof (le_value_range (take 8 s) ltac:(by apply Forall_take)) as Ht. rewrite length_take_le in Ht by lia. change (256 ^ Z.of_nat 8) with (2 ^ 64) in Ht.
  pose proof (le_value_range (drop 8 s) ltac:(by apply Forall_drop)) as Hd.
  destruct (forallb _ _) eqn:E.
  - rewrite forallb_forall in E. assert (drop 8 s = replicate 24 0) as Ez.
    { apply (nth_ext _ _ 0 0); [rewrite length_drop, length_replicate; lia|]. intros i Hi. rewrite length_drop in Hi.
      assert (nth i (drop 8 s) 0 = byte s (8 + i)) as -> by (unfold byte; rewrite nth_skipn; reflexivity).
      rewrite nth_lookup, lookup_replicate_2 by lia. apply Z.eqb_eq, E, in_seq. lia. }
    rewrite Ez in Ev. change (le_value (replicate 24 0)) with 0 in Ev. rewrite Ev, Z.mul_0_r, Z.add_0_r. by rewrite (proj2 (Z.ltb_lt _ _)) by lia.
  - destruct (Z.ltb_spec (le_value s) (2 ^ 64)) as [Hlt|]; [|done]. exfalso. apply not_true_iff_false in E. apply E. apply forallb_forall. intros j Hj%in_seq.
    rewrite (key_bytes s Hs), byte_le_bytes by lia. apply Z.eqb_eq. rewrite Z.div_small; [done|]. split; [lia|].
    eapply Z.lt_le_trans; [exact Hlt|]. apply Z.pow_le_mono_r; lia.
Qed.

Lemma h2d_d2h x : is_u64 x -> h2d (d2h x) = Some x.
Proof.
  intros Hx. destruct (d2h_reduced x Hx) as [Hk _]. rewrite h2d_spec, d2h_value by done. unfold is_uint in Hx. by rewrite (proj2 (Z.ltb_lt _ _)) by lia.
Qed.

Lemma equalKeys_spec a b : is_key a -> is_key b -> equalKeys a b = bool_decide (a = b).
Proof.
  intros [La Ha] [Lb Hb]. assert (forall l rv, foldl (fun rv i => if negb (byte a i =? byte b i) then false else rv) rv l = rv && forallb (fun i => byte a i =? byte b i) l) as E.
  { induction l as [|i l IH]; intros rv; cbn [foldl forallb]; [by rewrite andb_true_r|]. rewrite IH. destruct (byte a i =? byte b i), rv; done. }
  unfold equalKeys. rewrite E. cbn [andb]. case_bool_decide as Hab.
  - subst b. apply forallb_forall. intros i _. apply Z.eqb_refl.
  - apply not_true_is_false. intros Ef. apply Hab. rewrite forallb_forall in Ef. apply (nth_ext _ _ 0 0); [lia|]. intros i Hi.
    apply Z.eqb_eq, Ef, in_seq. lia.
Qed.

(** ** Points through their bytes *)

Lemma two_precomp2_ok a Ai P b Bi Q : reduced a -> reduced b -> odd_multiples cached_ok Ai P -> odd_multiples cached_ok Bi Q ->
  returns (ge_double_scalarmult_precomp_vartime2 a Ai b Bi) (fun r => p2_ok r (smul (le_value a) P + smul (le_value b) Q)%G).
Proof. intros Ha Hb HA HB. apply double_precomp2_ok; [by apply reduced_scalar_ok|by apply reduced_scalar_ok|exact HA|exact HB]. Qed.

Lemma three_base_ok a b Bi P c Ci Q : reduced a -> reduced b -> reduced c -> odd_multiples cached_ok Bi P -> odd_multiples cached_ok Ci Q ->
  returns (ge_triple_scalarmult_base_vartime ge_Bi a b Bi c Ci) (fun r => p2_ok r (smul (le_value a) B + smul (le_value b) P + smul (le_value c) Q)%G).
Proof.
  intros Ha Hb Hc HB HC. apply triple_base_ok; [exact ge_Bi_ok|by apply reduced_scalar_ok|by apply reduced_scalar_ok|by apply reduced_scalar_ok|exact HB|exact HC].
Qed.

Lemma three_precomp_ok a Ai P b Bi Q c Ci R : reduced a -> reduced b -> reduced c ->
  odd_multiples cached_ok Ai P -> odd_multiples cached_ok Bi Q -> odd_multiples cached_ok Ci R ->
  returns (ge_triple_scalarmult_precomp_vartime a Ai b Bi c Ci) (fun r => p2_ok r (smul (le_value a) P + smul (le_value b) Q + smul (le_value c) R)%G).
Proof.
  intros Ha Hb Hc HA HB HC. apply triple_precomp_ok; [by apply reduced_scalar_ok|by apply reduced_scalar_ok|by apply reduced_scalar_ok|exact HA|exact HB|exact HC].
Qed.

Lemma tobytes_eq r P : p2_ok r P -> ge_tobytes r = Some (encode P).
Proof. intros Hr. apply returns_eq. exact (ge_tobytes_ok r P Hr). Qed.

Lemma p3_tobytes_eq r P : p3_ok r P -> ge_p3_tobytes r = Some (encode P).
Proof. intros Hr. apply returns_eq. exact (ge_p3_tobytes_ok r P Hr). Qed.

(** A call that computes a point, then its bytes. *)
Lemma then_tobytes (m : option ge_p2) P : returns m (fun r => p2_ok r P) -> (r ← m; ge_tobytes r) = Some (encode P).
Proof. intros (r & -> & Hr). rewrite bind_some. exact (tobytes_eq r P Hr). Qed.

Lemma then_p3_tobytes (m : option ge_p3) P : returns m (fun r => p3_ok r P) -> (r ← m; ge_p3_tobytes r) = Some (encode P).
Proof. intros (r & -> & Hr). rewrite bind_some. exact (p3_tobytes_eq r P Hr). Qed.

Lemma scalarmultBase_ok a : is_key a -> scalarmultBase a = Some (encode (smul (le_value a) B)).
Proof.
  intros Ha. unfold scalarmultBase. rewrite sc_reduce32copy_eq, bind_some by done.
  rewrite (then_p3_tobytes _ (smul (le_value (le_bytes 32 (le_value a mod ell))) B)); [|apply mul_base_ok, mod_reduced].
  by rewrite mod_value, smul_ell.
Qed.

Lemma scalarmultKey_ok P a : reduced a -> scalarmultKey (encode P) a = ret (encode (smul (le_value a) P)).
Proof.
  intros Ha. apply yields_eq. unfold scalarmultKey. exc_step. exc_step. apply returns_eq, then_tobytes. by apply mul_ok.
Qed.

Lemma scalarmultH_ok a : reduced a -> scalarmultH a = Some (encode (smul (le_value a) H_point)).
Proof. intros Ha. apply then_tobytes. exact (mul_ok a _ _ Ha ge_p3_H_ok). Qed.

Lemma scalarmult8_ok P : scalarmult8 (encode P) = ret (encode (smul 8 P)).
Proof.
  apply yields_eq. unfold scalarmult8. exc_step. exc_step. eapply returns_bind; [eapply ge_mul8_ok, ge_p3_to_p2_ok; eassumption|].
  cbn beta. intros p1 Hp1. apply returns_eq, then_tobytes. exact (ge_p1p1_to_p2_ok _ _ Hp1).
Qed.

Lemma scalarmult8_p3_ok P : yields (scalarmult8_p3 (encode P)) (fun p => p3_ok p (smul 8 P)).
Proof.
  unfold scalarmult8_p3. exc_step. exc_step. eapply returns_bind; [eapply ge_mul8_ok, ge_p3_to_p2_ok; eassumption|].
  cbn beta. intros p1 Hp1. exact (ge_p1p1_to_p3_ok _ _ Hp1).
Qed.

(** The sum of two points, as [addKeys] and its relatives compute it. *)
Lemma add_p3_ok p q P Q : p3_ok p P -> p3_ok q Q ->
  returns (c ← ge_p3_to_cached q; s ← ge_add p c; ge_p1p1_to_p3 s) (fun r => p3_ok r (P + Q)%G).
Proof. intros Hp Hq. do 2 crypto_step. exact (ge_p1p1_to_p3_ok _ _ ltac:(eassumption)). Qed.

Lemma addKeys_ok P Q : addKeys (encode P) (encode Q) = ret (encode (P + Q)%G).
Proof. apply yields_eq. unfold addKeys. do 2 exc_step. exc_step. do 4 crypto_step. auto. Qed.

Lemma subKeys_ok P Q : subKeys (encode P) (encode Q) = ret (encode (P - Q)%G).
Proof. apply yields_eq. unfold subKeys. do 2 exc_step. exc_step. do 4 crypto_step. auto. Qed.

Lemma addKeys_loop_ok l p P : p3_ok p P -> yields (addKeys_loop p (map encode l)) (fun r => p3_ok r (P + gsum l)%G).
Proof.
  revert p P. induction l as [|Q l IH]; intros p P Hp; cbn [map addKeys_loop].
  - apply yields_ret. change (gsum []) with (gzero : point). by rewrite gadd_0_r.
  - eapply yields_bind; [apply decode_yields|]. cbn beta. intros q Hq. eapply yields_bind; [apply yields_lift, (add_p3_ok p q P Q Hp Hq)|]. cbn beta. intros r Hr.
    assert (P + gsum (Q :: l) = P + Q + gsum l)%G as -> by (rewrite gsum_cons; group_ring). exact (IH r _ Hr).
Qed.

Lemma addKeysV_ok l : addKeysV (map encode l) = ret (encode (gsum l)).
Proof.
  destruct l as [|P l]; [cbn [map addKeysV]; f_equal; f_equal; symmetry; exact infinity_encode|]. apply yields_eq. cbn [map addKeysV].
  eapply yields_bind; [apply decode_yields|]. cbn beta. intros p Hp. eapply yields_bind; [apply (addKeys_loop_ok l p P Hp)|]. cbn beta. intros r Hr.
  apply yields_lift. rewrite gsum_cons. exact (ge_p3_tobytes_ok _ _ Hr).
Qed.

Lemma addKeys1_ok a P : is_key a -> addKeys1 a (encode P) = ret (encode (smul (le_value a) B + P)%G).
Proof. intros Ha. unfold addKeys1. rewrite scalarmultBase_ok by done. exact (addKeys_ok _ P). Qed.

Lemma addKeys2_ok a b P : reduced a -> reduced b -> addKeys2 a b (encode P) = ret (encode (smul (le_value a) B + smul (le_value b) P)%G).
Proof.
  intros Ha Hb. apply yields_eq. unfold addKeys2. exc_step. exc_step. apply returns_eq, then_tobytes. rewrite gadd_comm. by apply two_base_ok.
Qed.

Lemma precomp_yields P : yields (precomp (encode P)) (fun t => odd_multiples cached_ok t P).
Proof. unfold precomp. exc_step. exc_step. by apply ge_dsm_precomp_ok. Qed.

Lemma addKeys3_ok a P b Bi Q : reduced a -> reduced b -> odd_multiples cached_ok Bi Q ->
  addKeys3 a (encode P) b Bi = ret (encode (smul (le_value a) P + smul (le_value b) Q)%G).
Proof. intros Ha Hb HB. apply yields_eq. unfold addKeys3. exc_step. exc_step. apply returns_eq, then_tobytes. by apply two_precomp_ok. Qed.

Lemma addKeys3_precomp_ok a Ai P b Bi Q : reduced a -> reduced b -> odd_multiples cached_ok Ai P -> odd_multiples cached_ok Bi Q ->
  addKeys3_precomp a Ai b Bi = Some (encode (smul (le_value a) P + smul (le_value b) Q)%G).
Proof. intros Ha Hb HA HB. apply then_tobytes. by apply two_precomp2_ok. Qed.

Lemma addKeys_aGbBcC_ok a b Bi P c Ci Q : reduced a -> reduced b -> reduced c -> odd_multiples cached_ok Bi P -> odd_multiples cached_ok Ci Q ->
  addKeys_aGbBcC a b Bi c Ci = Some (encode (smul (le_value a) B + smul (le_value b) P + smul (le_value c) Q)%G).
Proof. intros Ha Hb Hc HB HC. apply then_tobytes. by apply three_base_ok. Qed.

Lemma addKeys_aAbBcC_ok a Ai P b Bi Q c Ci R : reduced a -> reduced b -> reduced c ->
  odd_multiples cached_ok Ai P -> odd_multiples cached_ok Bi Q -> odd_multiples cached_ok Ci R ->
  addKeys_aAbBcC a Ai b Bi c Ci = Some (encode (smul (le_value a) P + smul (le_value b) Q + smul (le_value c) R)%G).
Proof. intros Ha Hb Hc HA HB HC. apply then_tobytes. by apply three_precomp_ok. Qed.

(** ** Hashing *)

Lemma rct_cn_fast_hash_some data : rct_cn_fast_hash data = Some (crypto_cn_fast_hash data).
Proof.
  unfold rct_cn_fast_hash. destruct (cn_fast_hash_keccak data) as (h & E & -> & _). f_equal. rewrite cn_fast_hash_some in E. by injection E.
Qed.

Lemma cn_fast_hash_keys_some keys : cn_fast_hash_keys keys = Some (crypto_cn_fast_hash (concat keys)).
Proof. destruct keys; [apply cn_fast_hash_some|apply rct_cn_fast_hash_some]. Qed.

Lemma rct_hash_to_scalar_eq data : rct_hash_to_scalar data = Some (le_bytes 32 (Hs data)).
Proof. unfold rct_hash_to_scalar. rewrite rct_cn_fast_hash_some, bind_some. apply sc_reduce32_eq, hash_key. Qed.

Lemma hash_to_scalar_keys_eq keys : hash_to_scalar_keys keys = Some (le_bytes 32 (Hs (concat keys))).
Proof. unfold hash_to_scalar_keys. rewrite cn_fast_hash_keys_some, bind_some. apply sc_reduce32_eq, hash_key. Qed.

Lemma hash_to_p3_eq k : hash_to_p3 k = biased_hash_to_ec k.
Proof. unfold hash_to_p3, biased_hash_to_ec. by rewrite rct_cn_fast_hash_some, cn_fast_hash_some. Qed.

Lemma hash_to_p3_ok k P : hashes_to k P -> returns (hash_to_p3 k) (fun p => p3_ok p P).
Proof. intros (p & E & Hp & _). rewrite hash_to_p3_eq, E. by apply returns_some. Qed.

(** ** The prime subgroup *)

Lemma curveOrder_value : le_value curveOrder = ell.
Proof. by vm_compute. Qed.

Lemma curveOrder_key : is_key curveOrder.
Proof. apply key_shaped_ok. by vm_compute. Qed.

Lemma toPointCheckOrder_ok s : is_key s -> returns (toPointCheckOrder s) (fun b => b = true <-> exists P, s = encode P /\ in_subgroup P).
Proof.
  intros Hs. unfold toPointCheckOrder. destruct (is_point_dec s Hs) as [[P ->]|Hn].
  - destruct (decode_yields P) as (p & -> & Hp). unfold ret. rewrite bind_some.
    eapply returns_bind; [apply (ge_scalarmult_ok curveOrder p P curveOrder_key); [by vm_compute|exact Hp]|]. cbn beta. intros r Hr.
    rewrite (tobytes_eq _ _ Hr), bind_some, curveOrder_value. apply returns_some. rewrite bool_decide_eq_true. change identity with infinity. rewrite encode_infinity.
    split; [intros E; exists P; split; [reflexivity|exact E]|intros (Q & E & HQ); apply encode_inj in E; rewrite E; exact HQ].
  - rewrite (decode_throws s Hs Hn). unfold throw. rewrite bind_some. apply returns_some. split; [done|]. intros (P & -> & _). destruct Hn. by exists P.
Qed.

(** ** Commitments *)

(** The commitment to [x] with mask [a]. *)
Definition pedersen (a x : Z) : point := (smul a B + smul x H_point)%G.

Lemma pedersen_add a x b y : (pedersen a x + pedersen b y)%G = pedersen (a + b) (x + y).
Proof. unfold pedersen. group_ring. Qed.

Lemma H_subgroup : in_subgroup H_point.
Proof. exact H_order. Qed.

Lemma pedersen_mod a x : pedersen (a mod ell) x = pedersen a x.
Proof. unfold pedersen. by rewrite smul_ell. Qed.

Lemma pedersen_subgroup a x : in_subgroup (pedersen a x).
Proof. unfold pedersen. apply in_subgroup_add; apply in_subgroup_smul; [exact base_subgroup|exact H_subgroup]. Qed.

Lemma addKeys2_H a b : reduced a -> reduced b -> addKeys2 a b H = ret (encode (pedersen (le_value a) (le_value b))).
Proof. intros Ha Hb. rewrite H_encode. exact (addKeys2_ok a b H_point Ha Hb). Qed.

Lemma commit_ok x a : is_u64 x -> reduced a -> commit x a = ret (encode (pedersen (le_value a) x)).
Proof. intros Hx Ha. unfold commit, genC. rewrite H_encode, addKeys2_ok by auto with scalars. unfold pedersen. by rewrite d2h_value. Qed.

Lemma H_TABLE_from_ok n p k : p3_ok p (smul k H_point) ->
  returns (H_TABLE_from n p) (fun t => length t = n /\ forall j, (j < n)%nat -> exists c, t !! j = Some c /\ cached_ok c (smul (2 ^ Z.of_nat (S j) * k) H_point)).
Proof.
  revert p k; induction n as [|n IH]; intros p k Hp; cbn [H_TABLE_from]; [apply returns_some; split; [done|lia]|].
  eapply returns_bind; [exact (ge_p3_dbl_ok _ _ Hp)|]. cbn beta. intros d Hd. eapply returns_bind; [exact (ge_p1p1_to_p3_ok _ _ Hd)|]. cbn beta. intros q Hq.
  assert (smul k H_point + smul k H_point = smul (2 * k) H_point)%G as E by group_ring. rewrite E in Hq.
  eapply returns_bind; [exact (ge_p3_to_cached_ok _ _ Hq)|]. cbn beta. intros c Hc.
  eapply returns_bind; [exact (IH q (2 * k) Hq)|]. cbn beta. intros t [Ht Hj]. apply returns_some. split; [cbn; by rewrite Ht|]. intros [|j] Hjn.
  - exists c. split; [done|]. exact Hc.
  - destruct (Hj j ltac:(lia)) as (c' & Ec & Hc'). exists c'. split; [exact Ec|].
    replace (2 ^ Z.of_nat (S (S j)) * k) with (2 ^ Z.of_nat (S j) * (2 * k)); [exact Hc'|]. rewrite (Nat2Z.inj_succ (S j)), Z.pow_succ_r by lia. lia.
Qed.

Definition table_ok (i : nat) (t : list ge_cached) : Prop := forall j c, t !! j = Some c -> cached_ok c (smul (2 ^ Z.of_nat (i + j)) H_point).

Lemma H_TABLE_ok : returns H_TABLE (fun t => length t = 64%nat /\ table_ok 0 t).
Proof.
  unfold H_TABLE. eapply returns_bind; [exact (ge_p3_to_cached_ok _ _ ge_p3_H_ok)|]. cbn beta. intros c Hc.
  eapply returns_bind; [apply (H_TABLE_from_ok 63 ge_p3_H 1); rewrite smul_1; exact ge_p3_H_ok|]. cbn beta. intros t [Ht Hj]. apply returns_some.
  split; [cbn; by rewrite Ht|]. intros [|j] c' E; rewrite Nat.add_0_l; [injection E as <-|change ((c :: t) !! S j) with (t !! j) in E].
  - change (2 ^ Z.of_nat 0) with 1. rewrite smul_1. exact Hc.
  - destruct (Hj j) as (c2 & E2 & H2); [apply lookup_lt_Some in E; lia|]. rewrite E2 in E. injection E as <-. by rewrite Z.mul_1_r in H2.
Qed.

Lemma amount_bit_test x i : is_u64 x -> (i < 64)%nat -> negb (Z.land x (u64 (Z.shiftl 1 (Z.of_nat i))) =? 0) = Z.testbit x (Z.of_nat i).
Proof.
  intros Hx Hi. rewrite Z.shiftl_1_l. rewrite wrapu_small by (unfold is_uint; split; [apply Z.pow_nonneg; lia|apply Z.pow_lt_mono_r; lia]).
  destruct (Z.testbit x (Z.of_nat i)) eqn:E.
  - destruct (Z.eqb_spec (Z.land x (2 ^ Z.of_nat i)) 0) as [E0|]; [|done]. apply (f_equal (fun v => Z.testbit v (Z.of_nat i))) in E0.
    rewrite Z.land_spec, E, Z.pow2_bits_true, Z.bits_0 in E0 by lia. done.
  - assert (Z.land x (2 ^ Z.of_nat i) = 0) as ->; [|done]. apply Z.bits_inj'. intros n Hn. rewrite Z.land_spec, Z.bits_0.
    destruct (Z.eq_dec n (Z.of_nat i)) as [->|Hne]; [by rewrite E|]. rewrite Z.pow2_bits_false by lia. apply andb_false_r.
Qed.

(** The bits of the amount from [i] on. *)
Lemma add_bits_ok x t i p P : is_u64 x -> (i + length t <= 64)%nat -> table_ok i t -> p3_ok p P ->
  returns (add_bits x i t p) (fun r => p3_ok r (P + smul (2 ^ Z.of_nat i * ((x / 2 ^ Z.of_nat i) mod 2 ^ Z.of_nat (length t))) H_point)%G).
Proof.
  intros Hx. revert i p P; induction t as [|c t IH]; intros i p P Hi Ht Hp; cbn [add_bits length].
  { apply returns_some. change (2 ^ Z.of_nat 0) with 1. rewrite Z.mod_1_r, Z.mul_0_r, smul_0, gadd_0_r. exact Hp. }
  cbn [length] in Hi. rewrite amount_bit_test by (done || lia).
  set (b := Z.b2z (Z.testbit x (Z.of_nat i))).
  eapply (returns_bind _ _ (fun r => p3_ok r (P + smul (b * 2 ^ Z.of_nat i) H_point)%G)).
  { unfold b. destruct (Z.testbit x (Z.of_nat i)); cbn [Z.b2z].
    - pose proof (Ht 0%nat c eq_refl) as Hc. rewrite Nat.add_0_r in Hc. rewrite Z.mul_1_l.
      eapply returns_bind; [exact (ge_add_ok _ _ _ _ Hp Hc)|]. cbn beta. intros s Hs. exact (ge_p1p1_to_p3_ok _ _ Hs).
    - rewrite Z.mul_0_l, smul_0, gadd_0_r. apply returns_some. exact Hp. }
  cbn beta. intros r Hr. eapply returns_mono; [apply (IH (S i) r (P + smul (b * 2 ^ Z.of_nat i) H_point)%G); [lia| |exact Hr]|].
  { intros j c' E. replace (S i + j)%nat with (i + S j)%nat by lia. exact (Ht (S j) c' E). }
  cbn beta. intros r' Hr'. assert (2 ^ Z.of_nat i * ((x / 2 ^ Z.of_nat i) mod 2 ^ Z.of_nat (S (length t))) =
    b * 2 ^ Z.of_nat i + 2 ^ Z.of_nat (S i) * ((x / 2 ^ Z.of_nat (S i)) mod 2 ^ Z.of_nat (length t))) as E.
  { unfold b. rewrite !Nat2Z.inj_succ, !Z.pow_succ_r, Z.rem_mul_r, Z.div_div by (lia || (apply Z.pow_pos_nonneg; lia) || (apply Z.pow_nonzero; lia)).
    rewrite Z.testbit_spec' by lia. rewrite (Z.mul_comm 2 (2 ^ Z.of_nat i)). lia. }
  rewrite E. assert (P + smul (b * 2 ^ Z.of_nat i + 2 ^ Z.of_nat (S i) * ((x / 2 ^ Z.of_nat (S i)) mod 2 ^ Z.of_nat (length t))) H_point =
    P + smul (b * 2 ^ Z.of_nat i) H_point + smul (2 ^ Z.of_nat (S i) * ((x / 2 ^ Z.of_nat (S i)) mod 2 ^ Z.of_nat (length t))) H_point)%G as -> by group_ring.
  exact Hr'.
Qed.

Lemma lower_bound_suffix x l : exists pre, l = pre ++ lower_bound x l.
Proof.
  induction l as [|e l [pre IH]]; [by exists []|]. cbn [lower_bound]. destruct (e.1 <? x); [|by exists []]. exists (e :: pre). cbn [app]. by rewrite <- IH.
Qed.

Lemma zeroCommitVartime_ok debug x : is_u64 x -> zeroCommitVartime debug x = Some (encode (pedersen 1 x)).
Proof.
  intros Hx. unfold zeroCommitVartime. cbv zeta.
  match goal with |- context [if _ then Some _ else ?m] => assert (m = Some (encode (pedersen 1 x))) as E end.
  { apply returns_eq. unfold get_G_p3. destruct (hashed_generator T_seed T T_from_seed) as (PT & ET & HT), (hashed_generator U_seed U U_from_seed) as (PU & EU & HU),
      (hashed_generator V_seed V V_from_seed) as (PV & EV & HV).
    destruct (init_gens_ok debug PT PU PV ET HT EU HU EV HV) as (g & -> & (_ & Hg & _) & _). cbn [fmap option_fmap option_map]. rewrite bind_some.
    eapply returns_bind; [exact H_TABLE_ok|]. cbn beta. intros t [Hl Ht].
    eapply returns_bind; [apply (add_bits_ok x t 0 (G_p3 g) B Hx); [lia|exact Ht|exact Hg]|]. cbn beta. intros r Hr. rewrite Hl in Hr.
    change (2 ^ Z.of_nat 0) with 1 in Hr. rewrite Z.div_1_r, Z.mul_1_l, Z.mod_small in Hr by exact Hx.
    unfold pedersen. rewrite smul_1. exact (ge_p3_tobytes_ok _ _ Hr). }
  destruct (lower_bound_suffix x zero_commitments) as [pre Epre].
  destruct (lower_bound x zero_commitments) as [|[a c] l]; [exact E|]. destruct (Z.eqb_spec a x) as [->|_]; [|exact E].
  pose proof zero_commitments_ok as Hz. rewrite Epre in Hz. apply Forall_app in Hz as [_ Hz]. apply Forall_cons in Hz as [Hc _].
  unfold entry_at in Hc. cbn [fst snd] in Hc. rewrite Hc. unfold pedersen. rewrite smul_1. reflexivity.
Qed.

(** C23: Pedersen commitments.  For every amount of 64 bits and every mask below
    the order, [commit] returns the encoding of [mask G + amount H]; the sum of
    two commitments, as [addKeys] computes it from their bytes, is the commitment
    to the sum of the amounts with the sum of the masks, whenever the amounts do
    not overflow; and [zeroCommitVartime], from its table of 173 precomputed
    commitments or bit by bit from the table of doublings of [H], returns the
    commitment with mask 1, in a debug build as in a release build. *)
Theorem commitments_correct debug x y a b : is_u64 x -> is_u64 y -> is_u64 (x + y) -> reduced a -> reduced b ->
  exists cx cy ab,
    commit x a = ret cx /\ cx = encode (pedersen (le_value a) x) /\ commit y b = ret cy /\
    sc_add a b = Some ab /\ addKeys cx cy = commit (x + y) ab /\
    lift (zeroCommitVartime debug x) = commit x (1 :: replicate 31 0).
Proof.
  intros Hx Hy Hxy Ha Hb. exists (encode (pedersen (le_value a) x)), (encode (pedersen (le_value b) y)), (le_bytes 32 ((le_value a + le_value b) mod ell)).
  rewrite !commit_ok, sc_add_eq, addKeys_ok, zeroCommitVartime_ok by (apply Ha || apply Hb || apply mod_reduced || assumption || exact (small_reduced 1 ltac:(lia))).
  rewrite mod_value, pedersen_mod, pedersen_add. split_and!; reflexivity.
Qed.

Lemma commitments_witness : exists c, commit 5 (3 :: replicate 31 0) = ret c.
Proof.
  destruct (commitments_correct true 5 7 (3 :: replicate 31 0) (4 :: replicate 31 0) ltac:(done) ltac:(done) ltac:(done)
    (small_reduced 3 ltac:(lia)) (small_reduced 4 ltac:(lia))) as (c & _ & _ & E & _).
  exists c. exact E.
Defined.

(** ** The amount of an output *)

Lemma zip_xor_cancel (a b : list Z) : length a = length b -> zip_with Z.lxor (zip_with Z.lxor a b) b = a.
Proof.
  revert b; induction a as [|x a IH]; intros [|y b] E; try done. cbn [zip_with]. rewrite IH by (by injection E).
  by rewrite Z.lxor_assoc, Z.lxor_nilpotent, Z.lxor_0_r.
Qed.

Lemma xor8_involutive v k : (8 <= length v)%nat -> (8 <= length k)%nat -> xor8 (xor8 v k) k = v.
Proof.
  intros Hv Hk. unfold xor8. set (z := zip_with Z.lxor (take 8 v) (take 8 k)).
  assert (length z = 8%nat) as Hz by (unfold z; rewrite length_zip_with, !length_take; lia).
  rewrite take_app_length', drop_app_length' by done. unfold z. rewrite zip_xor_cancel by (rewrite !length_take; lia). apply take_drop.
Qed.

(** Adding and subtracting a scalar. *)
Lemma sc_add_sub m s : reduced m -> reduced s -> exists r, sc_add m s = Some r /\ reduced r /\ sc_sub r s = Some m.
Proof.
  intros Hm Hs. exists (le_bytes 32 ((le_value m + le_value s) mod ell)). split; [apply sc_add_eq; [apply Hm|apply Hs]|]. split; [apply mod_reduced|].
  rewrite sc_sub_eq, mod_value by (apply Hs || apply mod_reduced). f_equal. rewrite Zminus_mod_idemp_l.
  replace (le_value m + le_value s - le_value s) with (le_value m) by lia. by apply reduced_bytes.
Qed.

(** The first form. *)
Lemma ecdh_long_ok m a secret : reduced m -> reduced a -> is_key secret ->
  exists e, ecdhEncode (EcdhTuple m a) secret false = Some e /\ reduced (mask e) /\ reduced (amount e) /\ ecdhDecode e secret false = Some (EcdhTuple m a).
Proof.
  intros Hm Ha Hk. set (s1 := le_bytes 32 (Hs secret)). set (s2 := le_bytes 32 (Hs s1)). assert (reduced s1) as H1 by apply mod_reduced. assert (reduced s2) as H2 by apply mod_reduced.
  destruct (sc_add_sub m s1 Hm H1) as (m' & Em & Hm' & Em'), (sc_add_sub a s2 Ha H2) as (a' & Ea & Ha' & Ea').
  exists (EcdhTuple m' a'). unfold ecdhEncode, ecdhDecode. rewrite (rct_hash_to_scalar_eq secret), !bind_some. fold s1. rewrite (rct_hash_to_scalar_eq s1), !bind_some. fold s2.
  cbn [mask amount]. rewrite Em, bind_some, Ea, bind_some, Em', bind_some, Ea', bind_some. by split_and!.
Qed.

(** The second form. *)
Lemma ecdh_short_ok m a secret : length a = 32%nat -> is_key secret ->
  exists e m', ecdhEncode (EcdhTuple m a) secret true = Some e /\ mask e = zero /\ genCommitmentMask secret = Some m' /\ reduced m' /\
    ecdhDecode e secret true = Some (EcdhTuple m' a).
Proof.
  intros La Hk. set (f := crypto_cn_fast_hash (amount_label ++ secret)). set (m' := le_bytes 32 (Hs (commitment_mask_label ++ secret))).
  assert (genAmountEncodingFactor secret = Some f) as Ef by apply rct_cn_fast_hash_some.
  assert (genCommitmentMask secret = Some m') as Em by apply rct_hash_to_scalar_eq.
  exists (EcdhTuple zero (xor8 a f)), m'. unfold ecdhEncode, ecdhDecode. rewrite Ef, Em, !bind_some.
  split; [reflexivity|]. split; [reflexivity|]. split; [reflexivity|]. split; [apply mod_reduced|]. cbn [amount].
  rewrite xor8_involutive; [done|lia|]. destruct (hash_key (amount_label ++ secret) : is_key f) as [-> _]. lia.
Qed.

(** Amounts of outputs.  What the sender encodes with the shared secret the
    receiver decodes: in the first form the mask and the amount, both below the
    order, come back; in the second form the amount comes back, the mask sent is
    zero and the mask decoded is the one derived from the secret.  An amount of 64
    bits is written as a key and read back, and a larger value is refused. *)
Theorem ecdh_roundtrip t secret x : reduced (mask t) -> reduced (amount t) -> is_key secret -> is_u64 x ->
  (exists e, ecdhEncode t secret false = Some e /\ ecdhDecode e secret false = Some t) /\
  (exists e m, ecdhEncode t secret true = Some e /\ mask e = zero /\ genCommitmentMask secret = Some m /\ reduced m /\
     ecdhDecode e secret true = Some (EcdhTuple m (amount t))) /\
  h2d (d2h x) = Some x /\ (forall s, is_key s -> 2 ^ 64 <= le_value s -> h2d s = None).
Proof.
  destruct t as [m a]. cbn [mask amount]. intros Hm Ha Hk Hx. split; [|split; [|split]].
  - destruct (ecdh_long_ok m a secret Hm Ha Hk) as (e & E & _ & _ & E'). by exists e.
  - apply ecdh_short_ok; [apply Ha|exact Hk].
  - by apply h2d_d2h.
  - intros s Hs Hge. rewrite h2d_spec by done. by rewrite (proj2 (Z.ltb_ge _ _)) by lia.
Qed.

Lemma ecdh_roundtrip_witness : exists e, ecdhEncode (EcdhTuple (3 :: replicate 31 0) (5 :: replicate 31 0)) (7 :: replicate 31 0) false = Some e.
Proof.
  destruct (proj1 (ecdh_roundtrip (EcdhTuple (3 :: replicate 31 0) (5 :: replicate 31 0)) (7 :: replicate 31 0) 9 (small_reduced 3 ltac:(lia))
    (small_reduced 5 ltac:(lia)) (proj1 (small_reduced 7 ltac:(lia))) ltac:(done))) as (e & E & _).
  exists e. exact E.
Defined.
