(* ===== verification/RingWalk.v ===== *)
(** * Walking around a ring

    The loop both linkable ring signatures of [src/ringct/rctSigs.cpp] are made
    with: from the member after the signer, each member gets random responses and
    turns the challenge before it into the one after it, until the index comes back
    to the signer; the challenge of the first member is put aside on the way.  The
    loop is stated once, for any kind of responses, and proved to compute the chain
    of challenges.  So is the loop of the verifiers, which follows the chain from the
    first member to the last. *)

From Stdlib Require Import Zmod.
From S2P Require Import Prelude Varint Limbs ScalarOps Primes FieldOps Group Edwards GroupOps ScalarMult CurveTables CurveOrder HashToPoint Keccak Blake2b Crypto Signatures RctTables Generators RctTypes RctOps.

(** ** Definitions *)

Record walk_state (T : Type) := WalkState { ws_s : list T; ws_c : list Z; ws_c1 : option (list Z); ws_draws : list (list Z) }.
Arguments WalkState {_} _ _ _ _.
Arguments ws_s {_} _.
Arguments ws_c {_} _.
Arguments ws_c1 {_} _.
Arguments ws_draws {_} _.

(** The loop of a verifier: [ret None] is a refusal, on the way or because a
    challenge is zero. *)
Fixpoint ring_check {K T : Type} (round : K -> T -> list Z -> exc (option (list Z))) (ks : list K) (ss : list T) (c : list Z) : exc (option (list Z)) :=
  match ks with
  | [] => ret (Some c)
  | k :: ks =>
      match ss with
      | [] => None
      | s :: ss =>
          c_new <- round k s c;
          match c_new with
          | None => ret None
          | Some c_new => if bool_decide (c_new = zero) then ret None else ring_check round ks ss c_new
          end
      end
  end.

(** ** Chains of challenges *)

Section Chain.
Context {M T : Type} (step : M -> T -> Z -> Z).

(** The challenge after the last member. *)
Fixpoint ring_chain (l : list M) (ss : list T) (c : Z) : Z :=
  match l, ss with
  | m :: l, s :: ss => ring_chain l ss (step m s c)
  | _, _ => c
  end.

(** All challenges, from the one after the first member. *)
Fixpoint ring_challenges (l : list M) (ss : list T) (c : Z) : list Z :=
  match l, ss with
  | m :: l, s :: ss => step m s c :: ring_challenges l ss (step m s c)
  | _, _ => []
  end.

Lemma ring_chain_app l1 l2 s1 s2 c : length s1 = length l1 -> ring_chain (l1 ++ l2) (s1 ++ s2) c = ring_chain l2 s2 (ring_chain l1 s1 c).
Proof. revert s1 c; induction l1 as [|m l1 IH]; intros [|s s1] c E; try done. cbn [app ring_chain]. apply IH. by injection E. Qed.

Lemma ring_chain_range l ss c : (forall m s c, 0 <= step m s c < ell) -> 0 <= c < ell -> 0 <= ring_chain l ss c < ell.
Proof. intros H. revert ss c; induction l as [|m l IH]; intros [|s ss] c Hc; cbn [ring_chain]; try done. apply IH, H. Qed.
End Chain.

(** A challenge as its bytes. *)
Lemma challenge_bytes c : 0 <= c < ell -> reduced (le_bytes 32 c) /\ le_value (le_bytes 32 c) = c.
Proof. intros Hc. rewrite <- (Z.mod_small c ell) by done. rewrite mod_value. split; [apply mod_reduced|done]. Qed.

Lemma challenge_zero c : 0 <= c < ell -> le_bytes 32 c = zero <-> c = 0.
Proof. intros Hc. split; [|by intros ->]. intros E. apply challenge_bytes in Hc as [_ Hc]. rewrite <- Hc, E. by vm_compute. Qed.

(** ** Verifiers *)

Section Check.
Context {K M T : Type} (round : K -> T -> list Z -> exc (option (list Z))) (step : M -> T -> Z -> Z) (member : K -> M -> Prop) (ok : K -> T -> Prop).
Context (step_range : forall m s c, 0 <= step m s c < ell).
Context (member_unique : forall k m m', member k m -> member k m' -> m = m').
Context (member_dec : forall k s, ok k s -> (exists m, member k m) \/ (forall m, ~ member k m)).
Context (round_member : forall k s m c, ok k s -> member k m -> reduced c -> round k s c = ret (Some (le_bytes 32 (step m s (le_value c))))).
Context (round_other : forall k s c, ok k s -> (forall m, ~ member k m) -> reduced c -> round k s c = throw \/ round k s c = ret None).

Lemma members_unique ks l l' : Forall2 member ks l -> Forall2 member ks l' -> l = l'.
Proof.
  intros H. revert l'. induction H as [|k m ks l Hm _ IH]; intros l' H'; inversion H' as [|? m' ? l2 Hm' Hl']; subst; [done|]. f_equal; [exact (member_unique _ _ _ Hm Hm')|exact (IH _ Hl')].
Qed.

(** The members of a ring the loop goes through. *)
Definition nonzero_ring (ks : list K) (ss : list T) (c : list Z) (l : list M) : Prop :=
  Forall2 member ks l /\ Forall (fun c => c <> 0) (ring_challenges step l ss (le_value c)).

Lemma nonzero_ring_cons k ks s ss c m l : member k m -> let x := step m s (le_value c) in
  nonzero_ring (k :: ks) (s :: ss) c l <-> x <> 0 /\ exists l', l = m :: l' /\ nonzero_ring ks ss (le_bytes 32 x) l'.
Proof.
  intros Hm x. destruct (challenge_bytes x (step_range _ _ _)) as [_ Ex]. unfold nonzero_ring. rewrite Ex. split.
  - intros (Ho & Hz). inversion Ho as [|? m' ? l2 Hm' Ho']; subst. assert (m' = m) as -> by exact (member_unique k m' m Hm' Hm).
    cbn [ring_challenges] in Hz. apply Forall_cons in Hz as [Hz0 Hz]. split; [exact Hz0|]. exists l2. by split_and!.
  - intros (Hx & l' & -> & Ho & Hz). split; [by constructor|]. cbn [ring_challenges]. constructor; [exact Hx|exact Hz].
Qed.

(** The loop goes through when there are members for all keys and no challenge is
    zero, and fails otherwise. *)
Lemma ring_check_ok ks ss : Forall2 ok ks ss -> forall c, reduced c -> let r := ring_check round ks ss c in
  (exists l, nonzero_ring ks ss c l /\ r = ret (Some (le_bytes 32 (ring_chain step l ss (le_value c))))) \/
  ((r = throw /\ (forall l, ~ Forall2 member ks l) \/ r = ret None) /\ forall l, ~ nonzero_ring ks ss c l).
Proof.
  induction 1 as [|k s ks ss Hks Hrest IH]; intros c Hc r; unfold r; cbn [ring_check].
  { left. exists []. split; [by split; constructor|]. cbn [ring_chain]. f_equal. f_equal. apply key_bytes, Hc. }
  destruct (member_dec k s Hks) as [[m Hm]|Hn].
  2:{ assert (forall l, ~ Forall2 member (k :: ks) l) as Hnl by (intros l Ho; inversion Ho as [|? m ? ? Hm]; subst; exact (Hn _ Hm)).
      right. split; [destruct (round_other k s c Hks Hn Hc) as [-> | ->]; [by left|by right]|]. intros l (Ho & _). inversion Ho as [|? m ? ? Hm]; subst. exact (Hn _ Hm). }
  rewrite (round_member k s m c Hks Hm Hc), ebind_ret. pose proof (fun l => nonzero_ring_cons k ks s ss c m l Hm) as Hcons. cbv zeta in Hcons.
  set (x := step m s (le_value c)) in *. rewrite (bool_decide_ext _ _ (challenge_zero x (step_range _ _ _))). case_bool_decide as Hx.
  { right. split; [by right|]. intros l Hr. apply Hcons in Hr as [? _]. done. }
  destruct (challenge_bytes x (step_range _ _ _)) as [Hxr Ex]. destruct (IH (le_bytes 32 x) Hxr) as [(l & Hr & E)|[Hr Hno]].
  - left. exists (m :: l). split; [apply Hcons; split; [exact Hx|by exists l]|]. cbn [ring_chain]. fold x. rewrite <- Ex at 2. exact E.
  - right. split; [destruct Hr as [[-> Hm']|Hr]; [left|by right]; split; [done|]; intros l Ho; inversion Ho as [|? ? ? l' _ Ho']; subst; exact (Hm' l' Ho')|].
    intros l Hr'. apply Hcons in Hr' as (_ & l' & _ & Hr'). by apply (Hno l').
Qed.
End Check.

(** ** Generators *)

Section Walk.
Context {T : Type} (draw : list (list Z) -> exc (T * list (list Z))) (round : nat -> T -> list Z -> exc (list Z)) (n l : nat).

(** [while (i != l)]: responses at random, the next challenge, the next index, and
    the first challenge when the index wraps around. *)
Fixpoint ring_walk (fuel i : nat) (st : walk_state T) : exc (walk_state T) :=
  if (i =? l)%nat then ret st
  else
    match fuel with
    | O => None
    | S fuel =>
        '(s, draws) <- draw (ws_draws st);
        c <- round i s (ws_c st);
        let i' := ((i + 1) mod n)%nat in
        ring_walk fuel i' (WalkState (<[i := s]> (ws_s st)) c (if (i' =? 0)%nat then Some c else ws_c1 st) draws)
    end.

(** From the challenge after the signer. *)
Definition walk_from_signer (z : T) (c : list Z) (draws : list (list Z)) : exc (walk_state T) :=
  let i := ((l + 1) mod n)%nat in
  ring_walk n i (WalkState (replicate n z) c (if (i =? 0)%nat then Some c else None) draws).

(** What the draws and the rounds do. *)
Context (step : nat -> T -> Z -> Z) (ok : T -> Prop) (takes : T -> list (list Z) -> list (list Z) -> Prop).
Context (draw_takes : forall s d d', takes s d d' -> Forall is_key d -> draw d = ret (s, d') /\ ok s /\ Forall is_key d').
Context (round_step : forall i s c, (i < n)%nat -> i <> l -> ok s -> reduced c -> round i s c = ret (le_bytes 32 (step i s (le_value c)))).
Context (step_range : forall i s c, 0 <= step i s c < ell).

Fixpoint walk_chain (i : nat) (ss : list T) (c : Z) : Z :=
  match ss with
  | [] => c
  | s :: ss => walk_chain (S i) ss (step i s c)
  end.

Inductive takes_all : list T -> list (list Z) -> list (list Z) -> Prop :=
| takes_nil d : takes_all [] d d
| takes_cons s ss d d' d'' : takes s d d' -> takes_all ss d' d'' -> takes_all (s :: ss) d d''.

Lemma takes_app a b d rest : takes_all (a ++ b) d rest -> exists d', takes_all a d d' /\ takes_all b d' rest.
Proof.
  revert d. induction a as [|k a IH]; intros d H; [exists d; split; [constructor|done]|]. inversion H as [|? ? ? d1 ? E Hd]; subst.
  destruct (IH d1 Hd) as (d' & H1 & H2). exists d'. split; [by econstructor|done].
Qed.

Lemma takes_ok ss d rest : takes_all ss d rest -> Forall is_key d -> Forall ok ss /\ Forall is_key rest.
Proof.
  induction 1 as [|s ss d d' d'' E _ IH]; intros Hd; [by split|]. destruct (draw_takes _ _ _ E Hd) as (_ & Hs & Hd'). destruct (IH Hd') as [? ?]. split; [by constructor|done].
Qed.

Lemma walk_chain_range i ss c : 0 <= c < ell -> 0 <= walk_chain i ss c < ell.
Proof. revert i c. induction ss as [|s ss IH]; intros i c Hc; cbn [walk_chain]; [done|]. apply IH, step_range. Qed.

Lemma walk_chain_app i a b c : walk_chain i (a ++ b) c = walk_chain (i + length a) b (walk_chain i a c).
Proof.
  revert i c. induction a as [|s a IH]; intros i c; cbn [app walk_chain length]; [by rewrite Nat.add_0_r|]. rewrite IH. f_equal. lia.
Qed.

Lemma ring_walk_step fuel i st s d : (i < n)%nat -> i <> l -> takes s (ws_draws st) d -> Forall is_key (ws_draws st) -> reduced (ws_c st) ->
  let c := le_bytes 32 (step i s (le_value (ws_c st))) in let i' := ((i + 1) mod n)%nat in
  ring_walk (S fuel) i st = ring_walk fuel i' (WalkState (<[i := s]> (ws_s st)) c (if (i' =? 0)%nat then Some c else ws_c1 st) d).
Proof.
  intros Hn Hi Ht Hd Hc c i'. destruct (draw_takes _ _ _ Ht Hd) as (Ed & Hs & _). cbn [ring_walk]. rewrite (proj2 (Nat.eqb_neq _ _) Hi).
  rewrite Ed, ebind_ret, (round_step i s (ws_c st) Hn Hi Hs Hc), ebind_ret. reflexivity.
Qed.

(** Consecutive members, none of them the signer. *)
Lemma ring_walk_segment ks : forall i A X Bz c o d d' fuel,
  (i + length ks <= n)%nat -> (forall j, (i <= j < i + length ks)%nat -> j <> l) -> length A = i -> length X = length ks ->
  takes_all ks d d' -> Forall is_key d -> reduced c ->
  let c' := le_bytes 32 (walk_chain i ks (le_value c)) in
  ring_walk (length ks + fuel) (i mod n) (WalkState (A ++ X ++ Bz) c o d) =
  ring_walk fuel ((i + length ks) mod n) (WalkState (A ++ ks ++ Bz) c' (match ks with [] => o | _ => if (i + length ks =? n)%nat then Some c' else o end) d').
Proof.
  induction ks as [|k ks IH]; intros i A X Bz c o d d' fuel Hn Hl HA HX Hd Hdk Hc c'; unfold c'.
  { destruct X; [|done]. inversion Hd; subst. cbn [length walk_chain]. rewrite Nat.add_0_r. f_equal. f_equal. apply key_bytes, Hc. }
  destruct X as [|x X]; [done|]. cbn [length] in Hn, Hl, HX. inversion Hd as [|? ? ? d1 ? Ek Hd1]; subst. destruct (draw_takes _ _ _ Ek Hdk) as (_ & _ & Hdk1).
  cbn [length]. rewrite (Nat.mod_small (length A)) by lia. change (S (length ks) + fuel)%nat with (S (length ks + fuel)).
  rewrite (ring_walk_step (length ks + fuel) (length A) (WalkState (A ++ (x :: X) ++ Bz) c o d) k d1 ltac:(lia) ltac:(apply Hl; lia) Ek Hdk Hc). cbn [ws_s ws_c ws_c1 ws_draws].
  set (c1 := le_bytes 32 (step (length A) k (le_value c))). destruct (challenge_bytes _ (step_range (length A) k (le_value c)) : reduced c1 /\ le_value c1 = _) as [Hc1 Ec1].
  rewrite (insert_app_r_alt A) by lia. rewrite Nat.sub_diag. cbn [app]. change (<[0%nat := k]> (x :: ?r)) with (k :: r).
  replace (A ++ k :: X ++ Bz) with ((A ++ [k]) ++ X ++ Bz) by (by rewrite <- app_assoc).
  rewrite (IH (length A + 1)%nat (A ++ [k]) X Bz c1 _ d1 d' fuel); [|lia|intros j Hj; apply Hl; lia|rewrite length_app; reflexivity|lia|exact Hd1|exact Hdk1|exact Hc1].
  replace ((A ++ [k]) ++ ks ++ Bz) with (A ++ k :: ks ++ Bz) by (by rewrite <- app_assoc). cbn [walk_chain]. rewrite Ec1.
  replace (length A + 1 + length ks)%nat with (length A + S (length ks))%nat by lia. rewrite Nat.add_1_r. f_equal. f_equal. destruct ks as [|k' ks].
  - cbn [length walk_chain]. rewrite Nat.add_1_r. destruct (Nat.eqb_spec (S (length A)) n) as [E|E].
    + rewrite E, Nat.Div0.mod_same. reflexivity.
    + rewrite Nat.mod_small by (cbn [length] in Hn; lia). reflexivity.
  - rewrite Nat.mod_small by (cbn [length] in Hn; lia). reflexivity.
Qed.

(** All the way around. *)
Lemma walk_from_signer_ok z c d k1 k2 d' : (l < n)%nat -> length k1 = (n - l - 1)%nat -> length k2 = l -> takes_all (k1 ++ k2) d d' -> Forall is_key d -> reduced c ->
  let c1 := walk_chain (S l) k1 (le_value c) in
  walk_from_signer z c d = ret (WalkState (k2 ++ z :: k1) (le_bytes 32 (walk_chain 0 k2 c1)) (Some (le_bytes 32 c1)) d').
Proof.
  intros Hl H1 H2 Hd Hdk Hc c1. apply takes_app in Hd as (d1 & Hd1 & Hd2). pose proof (takes_ok _ _ _ Hd1 Hdk) as [_ Hdk1]. unfold walk_from_signer. cbv zeta.
  replace n with (length k1 + (length k2 + 1))%nat at 1 by lia.
  replace (replicate n z) with (replicate (l + 1) z ++ replicate (length k1) z ++ []) by (rewrite app_nil_r, <- replicate_add; f_equal; lia).
  assert (0 <= c1 < ell) as Hr by (apply walk_chain_range; by apply reduced_range). destruct (challenge_bytes _ Hr) as [Hc1 Ec1].
  rewrite (ring_walk_segment k1 (l + 1) _ _ [] c _ d d1); [|lia|lia|by rewrite length_replicate|by rewrite length_replicate|done|done|done].
  rewrite (Nat.add_1_r l). fold c1. replace (S l + length k1)%nat with n by lia. rewrite Nat.Div0.mod_same, Nat.eqb_refl.
  assert (match k1 with [] => if (S l mod n =? 0)%nat then Some c else None | _ :: _ => Some (le_bytes 32 c1) end = Some (le_bytes 32 c1)) as ->.
  { destruct k1; [|done]. replace (S l) with n by (cbn in H1; lia). rewrite Nat.Div0.mod_same. cbn [Nat.eqb]. f_equal. unfold c1. cbn [walk_chain]. apply key_bytes, Hc. }
  replace (replicate (S l) z ++ k1 ++ []) with ([] ++ replicate l z ++ z :: k1) by (rewrite app_nil_r, replicate_S_end, <- app_assoc; reflexivity).
  pose proof (ring_walk_segment k2 0 [] (replicate l z) (z :: k1) (le_bytes 32 c1) (Some (le_bytes 32 c1)) d1 d' 1) as Hseg. cbv zeta in Hseg. rewrite Nat.Div0.mod_0_l in Hseg.
  rewrite Hseg; [|lia|lia|reflexivity|by rewrite length_replicate|done|done|done].
  cbn [app Nat.add]. rewrite Nat.mod_small by lia. cbn [ring_walk]. rewrite H2, Nat.eqb_refl, Ec1. f_equal. f_equal.
  destruct k2; [done|]. rewrite (proj2 (Nat.eqb_neq _ _)) by lia. reflexivity.
Qed.
End Walk.

(** The chain by indices is the chain over the members. *)
Lemma walk_chain_members {M T} (step : M -> T -> Z -> Z) (ring seg : list M) : forall i (ks : list T) c,
  (forall j m, seg !! j = Some m -> ring !! (i + j)%nat = Some m) -> length ks = length seg ->
  walk_chain (fun i s c => match ring !! i with Some m => step m s c | None => 0 end) i ks c = ring_chain step seg ks c.
Proof.
  induction seg as [|m seg IH]; intros i [|k ks] c Hr Hl; try done. cbn [walk_chain ring_chain].
  pose proof (Hr 0%nat m eq_refl) as Hm. rewrite Nat.add_0_r in Hm. rewrite Hm. apply IH; [|by injection Hl]. intros j m' E. rewrite <- (Hr (S j) m' E). f_equal. lia.
Qed.

(** The walk over the members of a ring. *)
Lemma walk_members_ok {M T} draw round (step : M -> T -> Z -> Z) ok takes pre m post z c d (k1 k2 : list T) d' :
  let ring := pre ++ m :: post in let n := length ring in let l := length pre in
  (forall s d d', takes s d d' -> Forall is_key d -> draw d = ret (s, d') /\ ok s /\ Forall is_key d') ->
  (forall i m s c, ring !! i = Some m -> ok s -> reduced c -> round i s c = ret (le_bytes 32 (step m s (le_value c)))) ->
  (forall m s c, 0 <= step m s c < ell) ->
  length k1 = length post -> length k2 = length pre -> takes_all takes (k1 ++ k2) d d' -> Forall is_key d -> reduced c ->
  let c1 := ring_chain step post k1 (le_value c) in
  walk_from_signer draw round n l z c d = ret (WalkState (k2 ++ z :: k1) (le_bytes 32 (ring_chain step pre k2 c1)) (Some (le_bytes 32 c1)) d').
Proof.
  intros ring n l Hdraw Hround Hrange H1 H2 Hd Hdk Hc c1. assert (n = (length pre + S (length post))%nat) as En by (unfold n, ring; rewrite length_app; reflexivity).
  set (stp := fun i s c => match ring !! i with Some m => step m s c | None => 0 end).
  assert (forall i s c, (i < n)%nat -> i <> l -> ok s -> reduced c -> round i s c = ret (le_bytes 32 (stp i s (le_value c)))) as Hr.
  { intros i s c0 Hi _ Hs Hc0. destruct (lookup_lt_is_Some_2 ring i Hi) as [m' Hm']. unfold stp. rewrite Hm'. exact (Hround i m' s c0 Hm' Hs Hc0). }
  assert (forall i s c, 0 <= stp i s c < ell) as Hsr by (intros i s c0; unfold stp; destruct (ring !! i); [apply Hrange|pose proof ell_bounds; lia]).
  rewrite (walk_from_signer_ok draw round n l stp ok takes Hdraw Hr Hsr z c d k1 k2 d' ltac:(lia) ltac:(lia) H2 Hd Hdk Hc). unfold stp.
  rewrite (walk_chain_members step ring post (S l)) by (done || (intros j m' E; unfold ring; rewrite lookup_app_r by lia; replace (S l + j - length pre)%nat with (S j) by lia; exact E)).
  rewrite (walk_chain_members step ring pre 0) by (done || (intros j m' E; apply lookup_app_l_Some; exact E)). reflexivity.
Qed.

(** One scalar for each member. *)
Lemma skGen_takes s d d' : random_scalar d = Some (s, d') -> Forall is_key d -> lift (skGen d) = ret (s, d') /\ reduced s /\ Forall is_key d'.
Proof. intros E Hd. unfold skGen. destruct (random_scalar_some _ _ _ Hd E) as (Hk & _ & Hd' & _). split; [|done]. unfold random_scalar in E. by rewrite E. Qed.

Lemma draws_takes ks d d' : draws_to ks d d' -> takes_all (fun s d d' => random_scalar d = Some (s, d')) ks d d'.
Proof. induction 1; by econstructor. Qed.
