(* ===== verification/Clsag.v ===== *)
(** * CLSAG signatures

    The CLSAG part of [src/ringct/rctSigs.cpp], generation and verification of the
    signature of an input, with the functions of [src/device/device_default.cpp]
    it calls on the software device.

    The verifier is characterised on arbitrary bytes by the ring equation it
    checks, and the signature the generator returns for any ring and any place of
    the signer is shown to satisfy that equation. *)

From Stdlib Require Import Zmod.
From S2P Require Import Prelude Varint Limbs ScalarOps Primes FieldOps Group Edwards GroupOps ScalarMult CurveTables CurveOrder HashToPoint Keccak Blake2b Crypto Signatures RctTables Generators RctTypes RctOps RingWalk.

#[local] Abbreviation B := base_point.

(** ** Definitions *)

(** [config::HASH_KEY_CLSAG_ROUND] and [config::HASH_KEY_CLSAG_AGG_0], [_AGG_1]. *)
Definition HASH_KEY_CLSAG_ROUND : list Z := [67; 76; 83; 65; 71; 95; 114; 111; 117; 110; 100].
Definition HASH_KEY_CLSAG_AGG_0 : list Z := [67; 76; 83; 65; 71; 95; 97; 103; 103; 95; 48].
Definition HASH_KEY_CLSAG_AGG_1 : list Z := [67; 76; 83; 65; 71; 95; 97; 103; 103; 95; 49].

(** A label copied over a zero key. *)
Definition domain_key (label : list Z) : list Z := label ++ drop (length label) sc_0.

(** The random scalar [a], then [I], [D], [a G] and [a H]. *)
Definition clsag_prepare (p z Hk : list Z) (draws : list (list Z)) : exc (list Z * list Z * list Z * list Z * list Z * list (list Z)) :=
  '(a, aG, draws) <- lift (skpkGen draws);
  aH <- scalarmultKey Hk a;
  I_ <- scalarmultKey Hk p;
  D <- scalarmultKey Hk z;
  ret (a, aG, aH, I_, D, draws).

Definition clsag_hash (data : list (list Z)) : option (list Z) := hash_to_scalar_keys data.

Definition clsag_sign (c a p z mu_P mu_C : list Z) : option (list Z) :=
  s0_p_mu_P ← sc_mul mu_P p;
  s0_add_z_mu_C ← sc_muladd mu_C z s0_p_mu_P;
  sc_mulsub c s0_add_z_mu_C a.

(** The keys an aggregation coefficient hashes. *)
Definition mu_to_hash (label : list Z) (P C_nonzero : list (list Z)) (I_ D C_offset : list Z) : list (list Z) :=
  domain_key label :: P ++ C_nonzero ++ [I_; D; C_offset].

(** The keys a round hashes before [L] and [R]. *)
Definition c_to_hash (P C_nonzero : list (list Z)) (C_offset message : list Z) : list (list Z) :=
  domain_key HASH_KEY_CLSAG_ROUND :: P ++ C_nonzero ++ [C_offset; message].

(** The challenge after a member of the ring. *)
Definition clsag_round (prefix : list (list Z)) (mu_P mu_C : list Z) (I_precomp D_precomp : list ge_cached)
    (s c key : list Z) (P_precomp C_precomp : list ge_cached) : option (list Z) :=
  c_p ← sc_mul mu_P c;
  c_c ← sc_mul mu_C c;
  L ← addKeys_aGbBcC s c_p P_precomp c_c C_precomp;
  Hi_p3 ← hash_to_p3 key;
  H_precomp ← ge_dsm_precomp Hi_p3;
  R ← addKeys_aAbBcC s H_precomp c_p I_precomp c_c D_precomp;
  clsag_hash (prefix ++ [L; R]).

(** The round of the generator at an index of the ring. *)
Definition clsag_gen_round (P C : list (list Z)) (prefix : list (list Z)) (mu_P mu_C : list Z) (I_precomp D_precomp : list ge_cached)
    (i : nat) (s c : list Z) : exc (list Z) :=
  P_precomp <- precomp (default [] (P !! i));
  C_precomp <- precomp (default [] (C !! i));
  lift (clsag_round prefix mu_P mu_C I_precomp D_precomp s c (default [] (P !! i)) P_precomp C_precomp).

Definition CLSAG_Gen (message : list Z) (P : list (list Z)) (p : list Z) (C : list (list Z)) (z : list Z) (C_nonzero : list (list Z))
    (C_offset : list Z) (l : nat) (draws : list (list Z)) : exc (clsag * list (list Z)) :=
  let n := length P in
  _ <- throw_unless (n =? length C)%nat;
  _ <- throw_unless (n =? length C_nonzero)%nat;
  _ <- throw_unless (l <? n)%nat;
  H_p3 <- lift (hash_to_p3 (default [] (P !! l)));
  Hk <- lift (ge_p3_tobytes H_p3);
  '(a, aG, aH, I_, D, draws) <- clsag_prepare p z Hk draws;
  I_precomp <- precomp I_;
  D_precomp <- precomp D;
  sig_D <- scalarmultKey D INV_EIGHT;
  mu_P <- lift (hash_to_scalar_keys (mu_to_hash HASH_KEY_CLSAG_AGG_0 P C_nonzero I_ sig_D C_offset));
  mu_C <- lift (hash_to_scalar_keys (mu_to_hash HASH_KEY_CLSAG_AGG_1 P C_nonzero I_ sig_D C_offset));
  let prefix := c_to_hash P C_nonzero C_offset message in
  c <- lift (clsag_hash (prefix ++ [aG; aH]));
  st <- walk_from_signer (fun draws => lift (skGen draws)) (clsag_gen_round P C prefix mu_P mu_C I_precomp D_precomp) n l zero c draws;
  s <- lift (clsag_sign (ws_c st) a p z mu_P mu_C);
  c1 <- lift (ws_c1 st);
  ret (Clsag (<[l := s]> (ws_s st)) c1 I_ sig_D, ws_draws st).

Fixpoint sub_offset (pubs : list ctkey) (Cout : list Z) : exc (list (list Z)) :=
  match pubs with
  | [] => ret []
  | k :: pubs => tmp <- subKeys (ct_mask k) Cout; C <- sub_offset pubs Cout; ret (tmp :: C)
  end.

Definition proveRctCLSAGSimple (message : list Z) (pubs : list ctkey) (inSk : ctkey) (c_out Cout : list Z) (index : nat) (draws : list (list Z))
    : exc (clsag * list (list Z)) :=
  _ <- throw_unless (negb (bool_decide (pubs = [])));
  C <- sub_offset pubs Cout;
  zero_commit_sk <- lift (sc_sub (ct_mask inSk) c_out);
  CLSAG_Gen message (map dest pubs) (dest inSk) C zero_commit_sk (map ct_mask pubs) Cout index draws.

(** The round of the verifier: [ret None] when the commitment is no point. *)
Definition clsag_ver_round (prefix : list (list Z)) (mu_P mu_C : list Z) (I_precomp D_precomp : list ge_cached) (C_offset_cached : ge_cached)
    (k : ctkey) (s c : list Z) : exc (option (list Z)) :=
  P_precomp <- precomp (dest k);
  temp_p3 <- lift (ge_frombytes_vartime (ct_mask k));
  match temp_p3 with
  | None => ret None
  | Some temp_p3 =>
      C_precomp <- lift (temp_p1 ← ge_sub temp_p3 C_offset_cached; temp_p3 ← ge_p1p1_to_p3 temp_p1; ge_dsm_precomp temp_p3);
      c_new <- lift (clsag_round prefix mu_P mu_C I_precomp D_precomp s c (dest k) P_precomp C_precomp);
      ret (Some c_new)
  end.

Definition verRctCLSAGSimple_try (message : list Z) (sig : clsag) (pubs : list ctkey) (C_offset : list Z) : exc bool :=
  if negb (1 <=? length pubs)%nat then ret false
  else if negb (length pubs =? length (cl_s sig))%nat then ret false
  else if negb (forallb (fun s => sc_check s =? 0) (cl_s sig)) then ret false
  else if negb (sc_check (cl_c1 sig) =? 0) then ret false
  else if bool_decide (cl_I sig = identity) then ret false
  else
    C_offset_p3 <- lift (ge_frombytes_vartime C_offset);
    match C_offset_p3 with
    | None => ret false
    | Some C_offset_p3 =>
        C_offset_cached <- lift (ge_p3_to_cached C_offset_p3);
        D_8 <- scalarmult8 (cl_D sig);
        if bool_decide (D_8 = identity) then ret false
        else
          I_precomp <- precomp (cl_I sig);
          D_precomp <- precomp D_8;
          let P := map dest pubs in
          let C := map ct_mask pubs in
          mu_P <- lift (hash_to_scalar_keys (mu_to_hash HASH_KEY_CLSAG_AGG_0 P C (cl_I sig) (cl_D sig) C_offset));
          mu_C <- lift (hash_to_scalar_keys (mu_to_hash HASH_KEY_CLSAG_AGG_1 P C (cl_I sig) (cl_D sig) C_offset));
          c <- ring_check (clsag_ver_round (c_to_hash P C C_offset message) mu_P mu_C I_precomp D_precomp C_offset_cached) pubs (cl_s sig) (cl_c1 sig);
          match c with
          | None => ret false
          | Some c => c_new <- lift (sc_sub c (cl_c1 sig)); ret (sc_isnonzero c_new =? 0)
          end
    end.

Definition verRctCLSAGSimple (message : list Z) (sig : clsag) (pubs : list ctkey) (C_offset : list Z) : option bool :=
  catch_false (verRctCLSAGSimple_try message sig pubs C_offset).

(** ** The ring equation *)

(** A member: its key, its commitment and the point its key hashes to. *)
Record rmember := Rmember { rm_P : point; rm_C : point; rm_HP : point }.

Definition rmember_ok (m : rmember) : Prop := hashes_to (encode (rm_P m)) (rm_HP m).

Definition rmember_ctkey (m : rmember) : ctkey := Ctkey (encode (rm_P m)) (encode (rm_C m)).

Definition ring_keys (l : list rmember) : list (list Z) := map (fun m => encode (rm_P m)) l.
Definition ring_commitments (l : list rmember) : list (list Z) := map (fun m => encode (rm_C m)) l.

Section Equation.
Context (prefix : list (list Z)) (mu_P mu_C : Z) (I D Coff : point).

(** The challenge after a member, from its response and the challenge before it. *)
Definition clsag_step (m : rmember) (s : list Z) (c : Z) : Z :=
  let c_p := (mu_P * c) mod ell in
  let c_c := (mu_C * c) mod ell in
  Hs (concat (prefix ++ [encode (smul (le_value s) B + smul c_p (rm_P m) + smul c_c (rm_C m - Coff))%G;
                         encode (smul (le_value s) (rm_HP m) + smul c_p I + smul c_c D)%G])).

Lemma clsag_step_range m s c : 0 <= clsag_step m s c < ell.
Proof. apply Hs_range. Qed.
End Equation.

Lemma cons_eq {A} (a b : A) l l' : a :: l = b :: l' -> a = b /\ l = l'.
Proof. by injection 1. Qed.

(** A pair of keys stands for a member. *)
Definition is_member (k : ctkey) (m : rmember) : Prop := rmember_ok m /\ k = rmember_ctkey m.

Lemma rmember_unique k m m' : is_member k m -> is_member k m' -> m = m'.
Proof.
  destruct m as [P C HP], m' as [P' C' HP']. unfold is_member, rmember_ok, rmember_ctkey. cbn [rm_P rm_C rm_HP]. intros [Hm ->] [Hm' E].
  pose proof (f_equal dest E) as E1. pose proof (f_equal ct_mask E) as E2. cbn [dest ct_mask] in E1, E2. apply encode_inj in E1, E2. subst P' C'. f_equal. exact (hashes_to_unique _ _ _ Hm Hm').
Qed.

Lemma are_members pubs l : Forall2 is_member pubs l <-> Forall rmember_ok l /\ pubs = map rmember_ctkey l.
Proof.
  split.
  - induction 1 as [|k m pubs l [Hm ->] _ [IH ->]]; [by split|]. split; [by constructor|reflexivity].
  - intros [Hl ->]. induction Hl as [|m l Hm _ IH]; cbn [map]; constructor; [by split|exact IH].
Qed.

Lemma ring_unique pubs l l' : Forall rmember_ok l -> Forall rmember_ok l' -> pubs = map rmember_ctkey l -> pubs = map rmember_ctkey l' -> l = l'.
Proof.
  intros Hl Hl' E E'. exact (members_unique is_member rmember_unique pubs l l' (proj2 (are_members _ _) (conj Hl E)) (proj2 (are_members _ _) (conj Hl' E'))).
Qed.

Lemma decide_points k : is_key (dest k) -> is_key (ct_mask k) ->
  (exists m, is_member k m) \/ ~ (is_point (dest k) /\ is_point (ct_mask k)).
Proof.
  destruct k as [d c]. cbn [dest ct_mask]. intros Hd Hc. destruct (is_point_dec d Hd) as [[P ->]|]; [|by right; intros []].
  destruct (is_point_dec c Hc) as [[C ->]|]; [|by right; intros []]. left. destruct (biased_hash_to_ec_ok (encode P)) as [HP H].
  exists (Rmember P C HP). split; [exact H|reflexivity].
Qed.

Section Round.
Context (prefix : list (list Z)) (mu_P mu_C : list Z) (I D Coff : point) (I_pre D_pre : list ge_cached).
Context (HmP : reduced mu_P) (HmC : reduced mu_C) (HI : odd_multiples cached_ok I_pre I) (HD : odd_multiples cached_ok D_pre D).

#[local] Abbreviation step := (clsag_step prefix (le_value mu_P) (le_value mu_C) I D Coff).

Lemma clsag_round_ok m s c P_pre C_pre : rmember_ok m -> reduced s -> reduced c ->
  odd_multiples cached_ok P_pre (rm_P m) -> odd_multiples cached_ok C_pre (rm_C m - Coff)%G ->
  clsag_round prefix mu_P mu_C I_pre D_pre s c (encode (rm_P m)) P_pre C_pre = Some (le_bytes 32 (step m s (le_value c))).
Proof.
  intros Hm Hs Hc HP HC. unfold clsag_round. rewrite (sc_mul_eq mu_P c), bind_some by (apply HmP || apply Hc). rewrite (sc_mul_eq mu_C c), bind_some by (apply HmC || apply Hc).
  pose proof (mod_reduced (le_value mu_P * le_value c)) as Hp. pose proof (mod_reduced (le_value mu_C * le_value c)) as Hq.
  assert (le_value (le_bytes 32 ((le_value mu_P * le_value c) mod ell)) = (le_value mu_P * le_value c) mod ell) as Ep by apply mod_value.
  assert (le_value (le_bytes 32 ((le_value mu_C * le_value c) mod ell)) = (le_value mu_C * le_value c) mod ell) as Eq by apply mod_value.
  unfold clsag_step. set (cp := le_bytes 32 ((le_value mu_P * le_value c) mod ell)) in *. set (cc := le_bytes 32 ((le_value mu_C * le_value c) mod ell)) in *.
  rewrite <- Ep, <- Eq. clearbody cp cc.
  rewrite (addKeys_aGbBcC_ok s cp P_pre (rm_P m) cc C_pre (rm_C m - Coff)%G Hs Hp Hq HP HC), bind_some.
  destruct (hash_to_p3_ok _ _ Hm) as (h & -> & Hh). rewrite bind_some. destruct (ge_dsm_precomp_ok _ _ Hh) as (hp & -> & Hhp). rewrite bind_some.
  rewrite (addKeys_aAbBcC_ok s hp (rm_HP m) cp I_pre I cc D_pre D Hs Hp Hq Hhp HI HD), bind_some.
  unfold clsag_hash. apply hash_to_scalar_keys_eq.
Qed.

(** The keys and responses the verifier gets. *)
Definition checked (k : ctkey) (s : list Z) : Prop := is_key (dest k) /\ is_key (ct_mask k) /\ reduced s.

Lemma clsag_ver_round_member cached k s m c : cached_ok cached Coff -> checked k s -> is_member k m -> reduced c ->
  clsag_ver_round prefix mu_P mu_C I_pre D_pre cached k s c = ret (Some (le_bytes 32 (step m s (le_value c)))).
Proof.
  intros Hco (_ & _ & Hs) [Hm ->] Hc. unfold clsag_ver_round, rmember_ctkey. cbn [dest ct_mask].
  destruct (precomp_yields (rm_P m)) as (pp & -> & Hpp). rewrite ebind_ret. destruct (decode_yields (rm_C m)) as (cm & -> & Hcm). unfold ret at 1. rewrite ebind_lift.
  destruct (ge_sub_ok _ _ _ _ Hcm Hco) as (d & -> & Hd). rewrite bind_some. destruct (ge_p1p1_to_p3_ok _ _ Hd) as (d3 & -> & Hd3). rewrite bind_some.
  destruct (ge_dsm_precomp_ok _ _ Hd3) as (cp & -> & Hcp). rewrite ebind_lift.
  rewrite (clsag_round_ok m s c pp cp Hm Hs Hc Hpp Hcp), ebind_lift. reflexivity.
Qed.

Lemma member_points k : is_key (dest k) -> is_key (ct_mask k) -> (forall m, ~ is_member k m) -> ~ (is_point (dest k) /\ is_point (ct_mask k)).
Proof. intros Hd Hm Hn. destruct (decide_points k Hd Hm) as [[m H]|H]; [destruct (Hn m H)|exact H]. Qed.

(** A key that does not decode ends it. *)
Lemma clsag_ver_round_other cached k s c : checked k s -> (forall m, ~ is_member k m) ->
  let r := clsag_ver_round prefix mu_P mu_C I_pre D_pre cached k s c in r = throw \/ r = ret None.
Proof.
  intros (Hd & Hm & _) Hno r. pose proof (member_points k Hd Hm Hno) as Hn. unfold r, clsag_ver_round. destruct (is_point_dec _ Hd) as [[P EP]|Hd'].
  - right. rewrite EP. destruct (precomp_yields P) as (pp & -> & _). rewrite ebind_ret. destruct (is_point_dec _ Hm) as [HC|Hm'].
    + destruct Hn. split; [by exists P|exact HC].
    + rewrite (decode_throws _ Hm Hm'). reflexivity.
  - left. unfold precomp. rewrite (decode_throws _ Hd Hd'). reflexivity.
Qed.

Lemma member_decided k s : checked k s -> (exists m, is_member k m) \/ (forall m, ~ is_member k m).
Proof.
  intros (Hd & Hm & _). destruct (decide_points k Hd Hm) as [H|H]; [by left|]. right. intros m [_ ->]. apply H. split; by eexists.
Qed.

(** The loop of the verifier on any keys. *)
Lemma clsag_check_ok cached : cached_ok cached Coff -> forall pubs s c, Forall2 checked pubs s -> reduced c ->
  let r := ring_check (clsag_ver_round prefix mu_P mu_C I_pre D_pre cached) pubs s c in
  (exists l, nonzero_ring step is_member pubs s c l /\ r = ret (Some (le_bytes 32 (ring_chain step l s (le_value c))))) \/
  ((r = throw /\ (forall l, ~ Forall2 is_member pubs l) \/ r = ret None) /\ forall l, ~ nonzero_ring step is_member pubs s c l).
Proof.
  intros Hco pubs s c Hok Hc. refine (ring_check_ok _ step is_member checked (clsag_step_range _ _ _ _ _ _) rmember_unique member_decided _ _ pubs s Hok c Hc).
  - intros k si m c' H1 H2 H3. exact (clsag_ver_round_member cached k si m c' Hco H1 H2 H3).
  - intros k si c' H1 H2 _. exact (clsag_ver_round_other cached k si c' H1 H2).
Qed.
End Round.

(** ** Verification *)

(** An aggregation coefficient. *)
Definition mu_scalar (label : list Z) (l : list rmember) (I D Coff : point) : Z :=
  Hs (concat (mu_to_hash label (ring_keys l) (ring_commitments l) (encode I) (encode D) (encode Coff))).

Section Valid.
Context (message : list Z) (l : list rmember) (Coff I D : point).

Definition round_prefix : list (list Z) := c_to_hash (ring_keys l) (ring_commitments l) (encode Coff) message.

(** The challenges of the signature with key image [I] and auxiliary image [D]. *)
Definition sig_step : rmember -> list Z -> Z -> Z :=
  clsag_step round_prefix (mu_scalar HASH_KEY_CLSAG_AGG_0 l I D Coff) (mu_scalar HASH_KEY_CLSAG_AGG_1 l I D Coff) I (smul 8 D) Coff.

(** What a signature has to satisfy: the chain from [c1] comes back to [c1]. *)
Definition valid_clsag (s : list (list Z)) (c1 : list Z) : Prop :=
  l <> [] /\ length s = length l /\ Forall reduced s /\ reduced c1 /\ I <> gzero /\ smul 8 D <> gzero /\
  Forall (fun c => c <> 0) (ring_challenges sig_step l s (le_value c1)) /\ ring_chain sig_step l s (le_value c1) = le_value c1.
End Valid.

(** A signature over keys given by their bytes. *)
Definition clsag_verifies (message : list Z) (sig : clsag) (pubs : list ctkey) (C_offset : list Z) : Prop :=
  exists l Coff I D, Forall rmember_ok l /\ pubs = map rmember_ctkey l /\ C_offset = encode Coff /\ cl_I sig = encode I /\ cl_D sig = encode D /\
    valid_clsag message l Coff I D (cl_s sig) (cl_c1 sig).

Definition clsag_keys (sig : clsag) : Prop := Forall is_key (cl_s sig) /\ is_key (cl_c1 sig) /\ is_key (cl_I sig) /\ is_key (cl_D sig).

(** A verifier that returns, and decides [V]. *)
Definition decides (m : exc bool) (V : Prop) : Prop := exists b, catch_false m = Some b /\ (b = true <-> V).

Lemma decides_false m V : m = throw \/ m = ret false -> ~ V -> decides m V.
Proof. intros [-> | ->] H; exists false; (split; [reflexivity|]); split; done. Qed.

Lemma decides_ret b V : (b = true <-> V) -> decides (ret b) V.
Proof. intros H. by exists b. Qed.

Lemma decides_iff m V W : (V <-> W) -> decides m V -> decides m W.
Proof. intros H (b & E & Hb). exists b. split; [exact E|]. by rewrite Hb. Qed.

Lemma all_checked s : Forall is_key s -> forallb (fun s => sc_check s =? 0) s = true <-> Forall reduced s.
Proof.
  induction 1 as [|x s Hx _ IH]; cbn [forallb]; [done|]. rewrite andb_true_iff, IH, Forall_cons, reduced_check, bool_decide_eq_true by done.
  split; [intros [? ?]; split; [by split|done]|intros [[_ ?] ?]; by split].
Qed.

Lemma ring_keys_ctkeys l : map dest (map rmember_ctkey l) = ring_keys l /\ map ct_mask (map rmember_ctkey l) = ring_commitments l.
Proof. rewrite !map_map. split; reflexivity. Qed.

Lemma sub_is_zero a b : reduced a -> reduced b -> lift (sc_sub a b) = ret (le_bytes 32 ((le_value a - le_value b) mod ell)) /\
  ((sc_isnonzero (le_bytes 32 ((le_value a - le_value b) mod ell)) =? 0) = true <-> le_value a = le_value b).
Proof.
  intros Ha Hb. split; [rewrite sc_sub_eq by (apply Ha || apply Hb); reflexivity|]. rewrite sc_isnonzero_eq, mod_value by apply mod_reduced.
  pose proof (reduced_range a Ha). pose proof (reduced_range b Hb). pose proof ell_bounds.
  destruct (Z.eqb_spec ((le_value a - le_value b) mod ell) 0) as [E|E]; cbn [Z.eqb].
  - split; [|done]. intros _. apply Z.mod_divide in E as [q E]; [|lia]. assert (q = 0) by nia. nia.
  - split; [done|]. intros E'. destruct E. by rewrite E', Z.sub_diag.
Qed.

Lemma ring_ctkeys l : Forall (fun k => is_key (dest k) /\ is_key (ct_mask k)) (map rmember_ctkey l).
Proof. induction l as [|m l IH]; constructor; [split; apply encode_key|exact IH]. Qed.

Lemma clsag_verifies_iff message sig ring Coff I D : Forall rmember_ok ring -> cl_I sig = encode I -> cl_D sig = encode D ->
  clsag_verifies message sig (map rmember_ctkey ring) (encode Coff) <-> valid_clsag message ring Coff I D (cl_s sig) (cl_c1 sig).
Proof.
  intros Ho EI ED. split; [|intros Hv; by exists ring, Coff, I, D]. intros (l & Co & I' & D' & Hl & Ep & EC & EI' & ED' & Hv).
  rewrite EI in EI'. rewrite ED in ED'. apply encode_inj in EC, EI', ED'. rewrite EC, EI', ED', (ring_unique _ _ _ Ho Hl eq_refl Ep). exact Hv.
Qed.

Lemma pubs_checked pubs : forall s, Forall (fun k => is_key (dest k) /\ is_key (ct_mask k)) pubs -> length s = length pubs -> Forall reduced s -> Forall2 checked pubs s.
Proof.
  induction pubs as [|k l IH]; intros [|si s] Hk Hl Hs; try done. apply Forall_cons in Hk as [[Hd Hm] Hk], Hs as [Hs Hss].
  constructor; [by split_and!|]. apply IH; [exact Hk|by injection Hl|exact Hss].
Qed.

Section Verify.
Context (message : list Z) (sig : clsag) (pubs : list ctkey) (C_offset : list Z).
Context (Hsig : clsag_keys sig) (Hpubs : Forall (fun k => is_key (dest k) /\ is_key (ct_mask k)) pubs) (Hoff : is_key C_offset).

(** The verifier from the point where the points of the signature are decoded. *)
Lemma verRctCLSAG_decoded Coff I D cached I_pre D_pre : cached_ok cached Coff -> odd_multiples cached_ok I_pre I -> odd_multiples cached_ok D_pre (smul 8 D) ->
  C_offset = encode Coff -> cl_I sig = encode I -> cl_D sig = encode D -> pubs <> [] -> length (cl_s sig) = length pubs ->
  Forall reduced (cl_s sig) -> reduced (cl_c1 sig) -> I <> gzero -> smul 8 D <> gzero ->
  decides (mu_P <- lift (hash_to_scalar_keys (mu_to_hash HASH_KEY_CLSAG_AGG_0 (map dest pubs) (map ct_mask pubs) (cl_I sig) (cl_D sig) C_offset));
           mu_C <- lift (hash_to_scalar_keys (mu_to_hash HASH_KEY_CLSAG_AGG_1 (map dest pubs) (map ct_mask pubs) (cl_I sig) (cl_D sig) C_offset));
           c <- ring_check (clsag_ver_round (c_to_hash (map dest pubs) (map ct_mask pubs) C_offset message) mu_P mu_C I_pre D_pre cached) pubs (cl_s sig) (cl_c1 sig);
           match c with
           | None => ret false
           | Some c => c_new <- lift (sc_sub c (cl_c1 sig)); ret (sc_isnonzero c_new =? 0)
           end)
    (clsag_verifies message sig pubs C_offset).
Proof.
  intros Hc HI HD EC EI ED Hne Hl Hr Hc1 HI0 HD0. rewrite !hash_to_scalar_keys_eq, !ebind_lift.
  match goal with |- context [clsag_ver_round ?p (le_bytes 32 (Hs ?a)) (le_bytes 32 (Hs ?b))] => set (prefix := p); set (da := a); set (db := b) end.
  destruct (Hs_key da) as [Ha Ea], (Hs_key db) as [Hb Eb].
  pose proof (clsag_check_ok prefix _ _ I (smul 8 D) Coff I_pre D_pre Ha Hb HI HD cached Hc pubs (cl_s sig) (cl_c1 sig) (pubs_checked _ _ Hpubs Hl Hr) Hc1) as Hloop.
  cbv zeta in Hloop. rewrite Ea, Eb in Hloop. set (stp := clsag_step prefix (Hs da) (Hs db) I (smul 8 D) Coff) in *.
  set (V := nonzero_ring stp is_member pubs (cl_s sig) (cl_c1 sig)) in *.
  set (ch l := ring_chain stp l (cl_s sig) (le_value (cl_c1 sig))) in *.
  assert (clsag_verifies message sig pubs C_offset <-> exists l, V l /\ ch l = le_value (cl_c1 sig)) as Hiff.
  { split.
    - intros (l & Co & I' & D' & Ho & Ep & EC' & EI' & ED' & Hv). rewrite EC in EC'. rewrite EI in EI'. rewrite ED in ED'. apply encode_inj in EC', EI', ED'.
      subst Co I' D'. exists l. destruct Hv as (_ & _ & _ & _ & _ & _ & Hz & Hch). unfold V, ch, stp, prefix, da, db, nonzero_ring. rewrite are_members.
      destruct (ring_keys_ctkeys l) as [Ed Em]. rewrite EI, ED, EC, Ep, Ed, Em. split; [split; [split; [exact Ho|reflexivity]|exact Hz]|exact Hch].
    - intros (l & (Hm & Hz) & Hch). apply are_members in Hm as [Ho Ep]. exists l, Coff, I, D. unfold ch, stp, prefix, da, db in *.
      destruct (ring_keys_ctkeys l) as [Ed Em]. rewrite EI, ED, EC, Ep, Ed, Em in Hz, Hch.
      assert (length pubs = length l) as Epl by (rewrite Ep; apply length_map).
      split; [exact Ho|]. split; [exact Ep|]. split; [exact EC|]. split; [exact EI|]. split; [exact ED|]. unfold valid_clsag.
      split; [intros ->; by apply Hne|]. split; [congruence|]. split; [exact Hr|]. split; [exact Hc1|]. split; [exact HI0|]. split; [exact HD0|]. split; [exact Hz|exact Hch]. }
  apply (decides_iff _ _ _ (iff_sym Hiff)). destruct Hloop as [(l & Hv & E)|[Hbad Hno]].
  - change (ret (Some (le_bytes 32 _))) with (ret (Some (le_bytes 32 (ch l)))) in E. rewrite E, ebind_ret. clear E. assert (0 <= ch l < ell) as Hchr by (apply ring_chain_range; [apply clsag_step_range|by apply reduced_range]).
    destruct (challenge_bytes _ Hchr) as [Hcr Ecr]. destruct (sub_is_zero _ _ Hcr Hc1) as [-> Hz]. rewrite ebind_ret. apply decides_ret. rewrite Hz, Ecr.
    split; [intros E; by exists l|]. intros (l' & (Hm' & _) & E). destruct Hv as (Hm & _). by rewrite (members_unique is_member rmember_unique pubs l l' Hm Hm').
  - apply decides_false; [destruct Hbad as [[-> _] | ->]; [by left|by right]|]. intros (l & Hv & _). exact (Hno l Hv).
Qed.

Lemma verRctCLSAGSimple_ok : decides (verRctCLSAGSimple_try message sig pubs C_offset) (clsag_verifies message sig pubs C_offset).
Proof.
  destruct Hsig as (Hs & Hc & HI & HD). unfold verRctCLSAGSimple_try.
  destruct (Nat.leb_spec 1 (length pubs)) as [H1|H1]; cbn [negb].
  2:{ apply decides_false; [by right|]. intros (l & Coff & I & D & _ & -> & _ & _ & _ & Hne & _). rewrite length_map in H1. destruct l; [done|cbn in H1; lia]. }
  destruct (Nat.eqb_spec (length pubs) (length (cl_s sig))) as [H2|H2]; cbn [negb].
  2:{ apply decides_false; [by right|]. intros (l & Coff & I & D & _ & -> & _ & _ & _ & _ & Hl & _). rewrite length_map in H2. congruence. }
  destruct (forallb _ (cl_s sig)) eqn:E3; cbn [negb].
  2:{ apply decides_false; [by right|]. intros (l & Coff & I & D & _ & _ & _ & _ & _ & _ & _ & Hr & _). apply (all_checked _ Hs) in Hr. congruence. }
  apply (all_checked _ Hs) in E3. rewrite reduced_check by done. case_bool_decide as H4; cbn [negb].
  2:{ apply decides_false; [by right|]. intros (l & Coff & I & D & _ & _ & _ & _ & _ & _ & _ & _ & [_ Hr] & _). done. }
  assert (reduced (cl_c1 sig)) as Hc1 by (by split). change identity with infinity. case_bool_decide as H5.
  { apply decides_false; [by right|]. intros (l & Coff & I & D & _ & _ & _ & EI & _ & _ & _ & _ & _ & HI0 & _). rewrite EI in H5. apply encode_infinity in H5. exact (HI0 H5). }
  destruct (is_point_dec _ Hoff) as [[Coff EC]|Hn].
  2:{ rewrite (decode_throws _ Hoff Hn). apply decides_false; [by right|]. intros (l & Coff & I & D & _ & _ & EC & _). apply Hn. by exists Coff. }
  rewrite EC. destruct (decode_yields Coff) as (p & -> & Hp). unfold ret at 1. rewrite ebind_lift.
  destruct (ge_p3_to_cached_ok _ _ Hp) as (cached & -> & Hcached). rewrite ebind_lift.
  destruct (is_point_dec _ HD) as [[D ED]|Hn].
  2:{ unfold scalarmult8. rewrite (decode_throws _ HD Hn). apply decides_false; [by left|]. intros (l & Co & I & D & _ & _ & _ & _ & ED & _). apply Hn. by exists D. }
  rewrite ED, scalarmult8_ok, ebind_ret. case_bool_decide as H6.
  { apply encode_infinity in H6. apply decides_false; [by right|]. intros (l & Co & I & D' & _ & _ & _ & _ & ED' & _ & _ & _ & _ & _ & HD0 & _).
    rewrite ED in ED'. apply encode_inj in ED'. rewrite ED' in H6. exact (HD0 H6). }
  destruct (is_point_dec _ HI) as [[I EI]|Hn].
  2:{ unfold precomp at 1. rewrite (decode_throws _ HI Hn). apply decides_false; [by left|]. intros (l & Co & I & D' & _ & _ & _ & EI & _). apply Hn. by exists I. }
  rewrite EI. destruct (precomp_yields I) as (I_pre & -> & HIp). rewrite ebind_ret. destruct (precomp_yields (smul 8 D)) as (D_pre & -> & HDp). rewrite ebind_ret.
  cbv zeta. rewrite <- EC, <- ED, <- EI.
  apply (verRctCLSAG_decoded Coff I D cached I_pre D_pre Hcached HIp HDp EC EI ED); [intros E; rewrite E in H1; cbn in H1; lia|by symmetry|exact E3|exact Hc1| |].
  - intros E. apply H5. rewrite EI, E. apply infinity_encode.
  - intros E. apply H6. rewrite E. apply infinity_encode.
Qed.
End Verify.

(** ** Generation *)

Definition ring_offsets (Coff : point) (l : list rmember) : list (list Z) := map (fun m => encode (rm_C m - Coff)%G) l.

Lemma sub_offset_ok Coff l : sub_offset (map rmember_ctkey l) (encode Coff) = ret (ring_offsets Coff l).
Proof.
  induction l as [|m l IH]; [reflexivity|]. cbn [map sub_offset]. change (ct_mask (rmember_ctkey m)) with (encode (rm_C m)).
  rewrite subKeys_ok, ebind_ret, IH, ebind_ret. reflexivity.
Qed.

Lemma ring_key_at l i m : l !! i = Some m -> default [] (ring_keys l !! i) = encode (rm_P m).
Proof. intros E. unfold ring_keys. rewrite list_lookup_fmap, E. reflexivity. Qed.

Lemma ring_offset_at Coff l i m : l !! i = Some m -> default [] (ring_offsets Coff l !! i) = encode (rm_C m - Coff)%G.
Proof. intros E. unfold ring_offsets. rewrite list_lookup_fmap, E. reflexivity. Qed.

Section Loop.
Context (prefix : list (list Z)) (mu_P mu_C : list Z) (I D Coff : point) (I_pre D_pre : list ge_cached).
Context (HmP : reduced mu_P) (HmC : reduced mu_C) (HI : odd_multiples cached_ok I_pre I) (HD : odd_multiples cached_ok D_pre D).
Context (ring : list rmember).

#[local] Abbreviation step := (clsag_step prefix (le_value mu_P) (le_value mu_C) I D Coff).

Lemma clsag_gen_round_ok : Forall rmember_ok ring -> forall i m s c, ring !! i = Some m -> reduced s -> reduced c ->
  clsag_gen_round (ring_keys ring) (ring_offsets Coff ring) prefix mu_P mu_C I_pre D_pre i s c = ret (le_bytes 32 (step m s (le_value c))).
Proof.
  intros Ho i m s c Hm Hs Hc. pose proof (Forall_lookup_1 _ _ _ _ Ho Hm) as Hmo. unfold clsag_gen_round.
  rewrite (ring_key_at ring i m Hm), (ring_offset_at Coff ring i m Hm). destruct (precomp_yields (rm_P m)) as (pp & -> & Hpp). rewrite ebind_ret.
  destruct (precomp_yields (rm_C m - Coff)%G) as (cp & -> & Hcp). rewrite ebind_ret.
  rewrite (clsag_round_ok prefix mu_P mu_C I D Coff I_pre D_pre HmP HmC HI HD m s c pp cp Hmo Hs Hc Hpp Hcp). reflexivity.
Qed.
End Loop.

Lemma INV_EIGHT_reduced : reduced INV_EIGHT.
Proof. split; [apply key_shaped_ok; by vm_compute|by vm_compute]. Qed.

Lemma eight_inv P : in_subgroup P -> smul 8 (smul (le_value INV_EIGHT) P) = P.
Proof.
  intros HP. transitivity (smul (8 * le_value INV_EIGHT) P); [group_ring|]. rewrite <- (smul_reduce _ P HP).
  replace ((8 * le_value INV_EIGHT) mod ell) with 1 by (by vm_compute). apply smul_1.
Qed.

(** The response of the signer brings the chain to the first commitment. *)
Lemma signer_closes prefix muP muC p z a c s HP Coff m : le_value s = (a - c * ((muP * p + muC * z) mod ell)) mod ell -> in_subgroup HP -> rm_P m = smul p B -> (rm_C m - Coff)%G = smul z B -> rm_HP m = HP ->
  clsag_step prefix muP muC (smul p HP) (smul z HP) Coff m s c =
  Hs (concat (prefix ++ [encode (smul a B); encode (smul a HP)])).
Proof.
  intros Es HH EP EC EH. unfold clsag_step. rewrite Es, EP, EC, EH.
  assert (forall Q, in_subgroup Q -> (smul ((a - c * ((muP * p + muC * z) mod ell)) mod ell) Q + smul ((muP * c) mod ell) (smul p Q) + smul ((muC * c) mod ell) (smul z Q) = smul a Q)%G) as Hq.
  { intros Q HQ. rewrite !(smul_reduce _ _ HQ), !(smul_reduce _ _ (in_subgroup_smul _ _ HQ)).
    transitivity (smul (a + c * (muP * p + muC * z)) Q - smul c (smul ((muP * p + muC * z) mod ell) Q))%G; [group_ring|].
    rewrite (smul_reduce _ _ HQ). group_ring. }
  rewrite (Hq B base_subgroup), (Hq HP HH). reflexivity.
Qed.

Lemma clsag_sign_eq c a p z mu_P mu_C : reduced c -> reduced a -> reduced p -> reduced z -> reduced mu_P -> reduced mu_C ->
  clsag_sign c a p z mu_P mu_C = Some (le_bytes 32 ((le_value a - le_value c * ((le_value mu_P * le_value p + le_value mu_C * le_value z) mod ell)) mod ell)).
Proof.
  intros Hc Ha Hp Hz HP HC. unfold clsag_sign. rewrite sc_mul_eq, bind_some by (apply HP || apply Hp).
  rewrite sc_muladd_eq, bind_some, mod_value, Zplus_mod_idemp_l by (apply HC || apply Hz || apply mod_reduced).
  rewrite sc_mulsub_eq, mod_value by (apply Hc || apply Ha || apply mod_reduced). reflexivity.
Qed.

Lemma clsag_prepare_ok p z HP draws a rest : reduced p -> reduced z -> reduced a -> skGen draws = Some (a, rest) ->
  clsag_prepare p z (encode HP) draws = ret (a, encode (smul (le_value a) B), encode (smul (le_value a) HP),
    encode (smul (le_value p) HP), encode (smul (le_value z) HP), rest).
Proof.
  intros Hp Hz Ha E. unfold clsag_prepare, skpkGen. rewrite E, bind_some, scalarmultBase_ok, bind_some, ebind_lift by apply Ha.
  rewrite (scalarmultKey_ok HP a Ha), ebind_ret, (scalarmultKey_ok HP p Hp), ebind_ret, (scalarmultKey_ok HP z Hz), ebind_ret. reflexivity.
Qed.

Section Complete.
Context (message p z : list Z) (pre post : list rmember) (m : rmember) (Coff : point).
Context (Hp : reduced p) (Hz : reduced z) (EP : rm_P m = smul (le_value p) B) (EC : (rm_C m - Coff)%G = smul (le_value z) B).
Context (Hring : Forall rmember_ok (pre ++ m :: post)).

#[local] Abbreviation ring := (pre ++ m :: post).
#[local] Abbreviation I := (smul (le_value p) (rm_HP m)).
#[local] Abbreviation D := (smul (le_value INV_EIGHT) (smul (le_value z) (rm_HP m))).
#[local] Abbreviation chain := (ring_chain (sig_step message ring Coff I D)).

(** The signature from the random scalars, [a] first, then one for each member
    after the signer and one for each before. *)
Definition clsag_of (a : list Z) (k1 k2 : list (list Z)) : clsag :=
  let c := Hs (concat (round_prefix message ring Coff ++ [encode (smul (le_value a) B); encode (smul (le_value a) (rm_HP m))])) in
  let c1 := chain post k1 c in
  let cl := chain pre k2 c1 in
  let w := (mu_scalar HASH_KEY_CLSAG_AGG_0 ring I D Coff * le_value p + mu_scalar HASH_KEY_CLSAG_AGG_1 ring I D Coff * le_value z) mod ell in
  Clsag (k2 ++ le_bytes 32 ((le_value a - cl * w) mod ell) :: k1) (le_bytes 32 c1) (encode I) (encode D).

Lemma signer_subgroup : in_subgroup (rm_HP m).
Proof. apply Forall_app in Hring as [_ H]. apply Forall_cons in H as [(_ & _ & _ & H) _]. exact H. Qed.

Lemma aux_image : smul 8 D = smul (le_value z) (rm_HP m).
Proof. apply eight_inv, in_subgroup_smul, signer_subgroup. Qed.

Lemma step_fold : clsag_step (round_prefix message ring Coff) (mu_scalar HASH_KEY_CLSAG_AGG_0 ring I D Coff) (mu_scalar HASH_KEY_CLSAG_AGG_1 ring I D Coff)
  I (smul (le_value z) (rm_HP m)) Coff = sig_step message ring Coff I D.
Proof. unfold sig_step. by rewrite aux_image. Qed.

Lemma sig_chain_range l s c : 0 <= c < ell -> 0 <= chain l s c < ell.
Proof. apply ring_chain_range, clsag_step_range. Qed.

Lemma CLSAG_Gen_ok draws a k1 k2 rest : draws_to (a :: k1 ++ k2) draws rest -> Forall is_key draws -> length k1 = length post -> length k2 = length pre ->
  CLSAG_Gen message (ring_keys ring) p (ring_offsets Coff ring) z (ring_commitments ring) (encode Coff) (length pre) draws = ret (clsag_of a k1 k2, rest).
Proof.
  intros Hd Hdk H1 H2. inversion Hd as [|? ? ? d1 ? Ea Hd1]; subst. destruct (random_scalar_some _ _ _ Hdk Ea) as (Ha & _ & Hdk1 & _).
  assert (length (ring_keys ring) = length ring) as Ln by apply length_map. assert (length (ring_offsets Coff ring) = length ring) as Lo by apply length_map.
  assert (length (ring_commitments ring) = length ring) as Lc by apply length_map. unfold CLSAG_Gen. cbv zeta. 
  assert ((length pre <? length ring)%nat = true) as Hlt by (apply Nat.ltb_lt; rewrite length_app; cbn [length]; lia).
  rewrite Ln, Lo, Lc, Nat.eqb_refl, Hlt. cbn [throw_unless]. rewrite !ebind_ret.
  assert (ring !! length pre = Some m) as Em by (by apply list_lookup_middle). rewrite (ring_key_at _ _ _ Em).
  assert (rmember_ok m) as Hm by (apply Forall_app in Hring as [_ H]; by apply Forall_cons in H as [? _]).
  destruct (hash_to_p3_ok _ _ Hm) as (h & -> & Hh). rewrite ebind_lift, (p3_tobytes_eq _ _ Hh), ebind_lift.
  rewrite (clsag_prepare_ok p z (rm_HP m) draws a d1 Hp Hz Ha Ea), ebind_ret.
  destruct (precomp_yields I) as (ip & -> & Hip). rewrite ebind_ret. destruct (precomp_yields (smul (le_value z) (rm_HP m))) as (dp & -> & Hdp). rewrite ebind_ret.
  rewrite (scalarmultKey_ok _ _ INV_EIGHT_reduced), ebind_ret, !hash_to_scalar_keys_eq, !ebind_lift.
  fold (mu_scalar HASH_KEY_CLSAG_AGG_0 ring I D Coff). fold (mu_scalar HASH_KEY_CLSAG_AGG_1 ring I D Coff). fold (round_prefix message ring Coff).
  destruct (Hs_key (concat (mu_to_hash HASH_KEY_CLSAG_AGG_0 (ring_keys ring) (ring_commitments ring) (encode I) (encode D) (encode Coff)))) as [HmP EmP].
  destruct (Hs_key (concat (mu_to_hash HASH_KEY_CLSAG_AGG_1 (ring_keys ring) (ring_commitments ring) (encode I) (encode D) (encode Coff)))) as [HmC EmC].
  fold (mu_scalar HASH_KEY_CLSAG_AGG_0 ring I D Coff) in HmP, EmP. fold (mu_scalar HASH_KEY_CLSAG_AGG_1 ring I D Coff) in HmC, EmC.
  set (muP := le_bytes 32 (mu_scalar HASH_KEY_CLSAG_AGG_0 ring I D Coff)) in *. set (muC := le_bytes 32 (mu_scalar HASH_KEY_CLSAG_AGG_1 ring I D Coff)) in *.
  set (data := concat (round_prefix message ring Coff ++ _)). destruct (Hs_key data) as [Hc Ec].
  pose proof (walk_members_ok (fun draws => lift (skGen draws)) _ _ reduced _ pre m post zero (le_bytes 32 (Hs data)) d1 k1 k2 rest skGen_takes
    (clsag_gen_round_ok (round_prefix message ring Coff) muP muC I (smul (le_value z) (rm_HP m)) Coff ip dp HmP HmC Hip Hdp ring Hring) (clsag_step_range _ _ _ _ _ _)
    H1 H2 (draws_takes _ _ _ Hd1) Hdk1 Hc) as Hloop.
  cbv zeta in Hloop. rewrite Hloop, ebind_ret. clear Hloop. cbn [ws_c ws_c1 ws_s ws_draws].
  rewrite EmP, EmC, Ec, step_fold.
  set (c1 := chain post k1 (Hs data)). assert (0 <= c1 < ell) as Hc1 by (apply sig_chain_range, Hs_range).
  set (cl := chain pre k2 c1). assert (0 <= cl < ell) as Hcl by (by apply sig_chain_range). destruct (challenge_bytes _ Hcl) as [Hclr Ecl].
  rewrite (clsag_sign_eq _ _ _ _ _ _ Hclr Ha Hp Hz HmP HmC), EmP, EmC, Ecl, !ebind_lift. rewrite <- H2, insert_app_r_alt, Nat.sub_diag by lia. reflexivity.
Qed.

Lemma clsag_of_closes a k1 k2 : length k1 = length post -> length k2 = length pre ->
  let sig := clsag_of a k1 k2 in chain ring (cl_s sig) (le_value (cl_c1 sig)) = le_value (cl_c1 sig).
Proof.
  intros H1 H2 sig. unfold sig, clsag_of. cbn [cl_s cl_c1]. set (data := concat _). set (c1 := chain post k1 (Hs data)).
  assert (0 <= c1 < ell) as Hc1 by (apply sig_chain_range, Hs_range). destruct (challenge_bytes _ Hc1) as [_ Ec1]. rewrite Ec1.
  rewrite ring_chain_app by done. cbn [ring_chain]. set (cl := chain pre k2 c1). 
  match goal with |- chain post k1 ?x = _ => assert (x = Hs data) as ->; [|reflexivity] end.
  rewrite <- step_fold. exact (signer_closes _ _ _ _ _ _ cl _ (rm_HP m) Coff m (mod_value _) signer_subgroup EP EC eq_refl).
Qed.
End Complete.

(** C4: Verification of a CLSAG signature on arbitrary bytes.  For any message,
    signature, ring of keys and commitments and commitment offset,
    [verRctCLSAGSimple] returns, also when something below it throws, and it
    accepts exactly when the ring is not empty, every key, commitment and image is
    the encoding of a point, there is one response for each member, the responses
    and the first challenge are below the order, neither image is the identity
    (the auxiliary one after multiplication by 8), and the chain of challenges
    that starts at the first one comes back to it without meeting zero. *)
Theorem clsag_verify_correct message sig pubs C_offset : clsag_keys sig -> Forall (fun k => is_key (dest k) /\ is_key (ct_mask k)) pubs -> is_key C_offset ->
  exists b, verRctCLSAGSimple message sig pubs C_offset = Some b /\ (b = true <-> clsag_verifies message sig pubs C_offset).
Proof. intros Hs Hp Hc. exact (verRctCLSAGSimple_ok message sig pubs C_offset Hs Hp Hc). Qed.

Lemma clsag_verify_witness : exists b, verRctCLSAGSimple zero (Clsag [zero] zero zero zero) [Ctkey zero zero] zero = Some b.
Proof.
  pose proof (proj1 (small_reduced 0 ltac:(lia)) : is_key zero) as Hz.
  assert (clsag_keys (Clsag [zero] zero zero zero)) as H1 by (split; [by constructor|by split_and!]).
  assert (Forall (fun k => is_key (dest k) /\ is_key (ct_mask k)) [Ctkey zero zero]) as H2 by (constructor; [by split|by constructor]).
  destruct (clsag_verify_correct zero _ _ zero H1 H2 Hz) as (b & E & _).
  exists b. exact E.
Defined.

(** C6: CLSAG signatures are complete.  Let a ring of any size hold at any place
    the output with one-time secret [p] and mask [a] of the amount [x], and let
    the pseudo output commit to the same amount with mask [b].  Then
    [proveRctCLSAGSimple] returns a signature, whatever the other members, once the
    random numbers give one scalar for each member; its key image is
    [p Hp(P)], which depends on the output only and not on the ring; its chain of
    challenges closes; and [verRctCLSAGSimple] accepts it exactly when neither image
    is the identity and no challenge is zero. *)
Theorem clsag_complete message p a b x pre post HP draws ks rest :
  let m := Rmember (smul (le_value p) B) (pedersen (le_value a) x) HP in
  let ring := pre ++ m :: post in
  let Coff := pedersen (le_value b) x in
  let image := smul (le_value p) HP in
  let aux := smul (le_value a - le_value b) HP in
  reduced p -> reduced a -> reduced b -> Forall rmember_ok ring -> Forall is_key draws -> draws_to ks draws rest -> length ks = length ring ->
  exists sig D, proveRctCLSAGSimple message (map rmember_ctkey ring) (Ctkey p a) b (encode Coff) (length pre) draws = ret (sig, rest) /\
    cl_I sig = encode image /\ cl_D sig = encode D /\ smul 8 D = aux /\
    ring_chain (sig_step message ring Coff image D) ring (cl_s sig) (le_value (cl_c1 sig)) = le_value (cl_c1 sig) /\
    (verRctCLSAGSimple message sig (map rmember_ctkey ring) (encode Coff) = Some true <->
     image <> gzero /\ aux <> gzero /\ Forall (fun c => c <> 0) (ring_challenges (sig_step message ring Coff image D) ring (cl_s sig) (le_value (cl_c1 sig)))).
Proof.
  intros m ring Coff image aux Hp Ha Hb Hring Hdk Hd Hks.
  destruct ks as [|k ks]; [unfold ring in Hks; rewrite length_app in Hks; cbn in Hks; lia|].
  assert (length ks = (length post + length pre)%nat) as Lk by (unfold ring in Hks; rewrite length_app in Hks; cbn in Hks; lia).
  rewrite <- (take_drop (length post) ks) in Hd. set (k1 := take (length post) ks) in *. set (k2 := drop (length post) ks) in *.
  assert (length k1 = length post) as L1 by (unfold k1; rewrite length_take; lia). assert (length k2 = length pre) as L2 by (unfold k2; rewrite length_drop; lia).
  set (z := le_bytes 32 ((le_value a - le_value b) mod ell)). assert (reduced z) as Hz by apply mod_reduced. assert (le_value z = (le_value a - le_value b) mod ell) as Ez by apply mod_value.
  assert ((rm_C m - Coff)%G = smul (le_value z) B) as EC by (rewrite Ez, smul_ell; unfold m, Coff, pedersen; cbn [rm_C]; group_ring).
  pose proof (clsag_of_closes message p z pre post m Coff eq_refl EC Hring k k1 k2 L1 L2) as Hcl. cbv zeta in Hcl.
  set (sig := clsag_of message p z pre post m Coff k k1 k2) in *. set (D := smul (le_value INV_EIGHT) (smul (le_value z) HP)).
  assert (smul 8 D = aux) as ED by (unfold D; rewrite (aux_image z pre post m Hring : smul 8 (smul _ (smul _ HP)) = _), Ez; apply smul_reduce, (signer_subgroup pre post m Hring)).
  exists sig, D. split; [|split; [reflexivity|split; [reflexivity|split; [exact ED|split; [exact Hcl|]]]]].
  { unfold proveRctCLSAGSimple. rewrite bool_decide_false by (unfold ring; by destruct pre). cbn [negb throw_unless]. rewrite ebind_ret, sub_offset_ok, ebind_ret.
    cbn [dest ct_mask]. rewrite sc_sub_eq, ebind_lift by (apply Ha || apply Hb). destruct (ring_keys_ctkeys ring) as [-> ->].
    exact (CLSAG_Gen_ok message p z pre post m Coff Hp Hz Hring draws k k1 k2 rest Hd Hdk L1 L2). }
  pose proof (draws_to_keys _ _ _ Hd Hdk) as [Hkr _]. apply Forall_cons in Hkr as [_ Hkr]. apply Forall_app in Hkr as [Hk1 Hk2].
  assert (Forall reduced (cl_s sig)) as Hsr.
  { apply Forall_app. split; [exact (Forall_impl _ _ _ Hk2 (fun _ H => proj1 H))|]. constructor; [apply mod_reduced|exact (Forall_impl _ _ _ Hk1 (fun _ H => proj1 H))]. }
  assert (reduced (cl_c1 sig)) as Hc1r by (apply challenge_bytes, sig_chain_range, Hs_range).
  assert (clsag_keys sig) as Hsk.
  { split; [exact (Forall_impl _ _ _ Hsr (fun _ H => proj1 H))|]. split; [exact (proj1 Hc1r)|]. split; apply encode_key. }
  destruct (verRctCLSAGSimple_ok message sig (map rmember_ctkey ring) (encode Coff) Hsk (ring_ctkeys ring) (encode_key Coff)) as (v & Ev & Hv).
  unfold verRctCLSAGSimple. rewrite Ev. rewrite (clsag_verifies_iff message sig ring Coff image D Hring eq_refl eq_refl) in Hv.
  transitivity (v = true); [split; [by injection 1|by intros ->]|]. rewrite Hv. unfold valid_clsag. rewrite ED.
  assert (ring <> []) as Hne by (unfold ring; by destruct pre).
  assert (length (cl_s sig) = length ring) as Hls by (unfold sig, clsag_of, ring; cbn [cl_s]; rewrite !length_app; cbn [length]; lia).
  tauto.
Qed.

Lemma clsag_complete_witness : exists HP sig, proveRctCLSAGSimple zero (map rmember_ctkey [Rmember (smul (le_value (3 :: replicate 31 0)) B) (pedersen (le_value (4 :: replicate 31 0)) 9) HP])
  (Ctkey (3 :: replicate 31 0) (4 :: replicate 31 0)) (5 :: replicate 31 0) (encode (pedersen (le_value (5 :: replicate 31 0)) 9)) 0 [7 :: replicate 31 0] = ret (sig, []).
Proof.
  destruct (biased_hash_to_ec_ok (encode (smul (le_value (3 :: replicate 31 0)) B))) as (HP & H). exists HP.
  assert (Forall rmember_ok ([] ++ [Rmember (smul (le_value (3 :: replicate 31 0)) B) (pedersen (le_value (4 :: replicate 31 0)) 9) HP])) as Hm by (apply Forall_singleton; exact H).
  destruct (clsag_complete zero (3 :: replicate 31 0) (4 :: replicate 31 0) (5 :: replicate 31 0) 9 [] [] HP [7 :: replicate 31 0] [le_bytes 32 (7 mod ell)] []
    (small_reduced 3 ltac:(lia)) (small_reduced 4 ltac:(lia)) (small_reduced 5 ltac:(lia)) Hm sample_draw_key (draws_cons _ _ _ _ _ sample_draw (draws_nil _)) eq_refl) as (sig & _ & E & _).
  exists sig. exact E.
Defined.
