(* ===== verification/RangeProof.v ===== *)
(** * Range proofs by Borromean signatures

    The first range proofs of [src/ringct/rctSigs.cpp]: [genBorromean],
    [verifyBorromean], [proveRange] and [verRange].  An amount is committed to bit
    by bit, and a Borromean signature shows that each commitment is to nothing or
    to its power of two. *)

From Stdlib Require Import Zmod.
From S2P Require Import Prelude Varint Limbs ScalarOps Primes FieldOps Group Edwards GroupOps ScalarMult CurveTables CurveOrder HashToPoint Keccak Blake2b Crypto Signatures RctTables Generators RctTypes RctOps Clsag.

#[local] Abbreviation B := base_point.

(** ** Definitions *)

Record boroSig := BoroSig { bs_s0 : list (list Z); bs_s1 : list (list Z); bs_ee : list Z }.

(** [n] keys of a blob. *)
Fixpoint key_blocks (n : nat) (blob : list Z) : list (list Z) :=
  match n with
  | O => []
  | S n => take 32 blob :: key_blocks n (drop 32 blob)
  end.

(** The fields of a signature as they lie in memory. *)
Definition boroSig_of (blob : list Z) : boroSig :=
  BoroSig (key_blocks 64 blob) (key_blocks 64 (drop 2048 blob)) (take 32 (drop 4096 blob)).

Definition boroSig_blob (bb : boroSig) : list Z := concat (bs_s0 bb) ++ concat (bs_s1 bb) ++ bs_ee bb.

(** The first loop of [genBorromean]: [alpha], [L[1]] and [s1] for each bit.  Where
    the bit is set, [s1] is left for the second loop. *)
Fixpoint boro_first (indices : list Z) (P2 : list (list Z)) (draws : list (list Z)) : exc (list (list Z * list Z * list Z) * list (list Z)) :=
  match indices, P2 with
  | [], [] => ret ([], draws)
  | b :: indices, P :: P2s =>
      '(alpha, draws) <- lift (skGen draws);
      L_naught <- lift (scalarmultBase alpha);
      '(L1, s1, draws) <-
        (if b =? 0 then
           '(s1, draws) <- lift (skGen draws);
           c <- lift (rct_hash_to_scalar L_naught);
           L1 <- addKeys2 s1 c P;
           ret (L1, s1, draws)
         else if b =? 1 then ret (L_naught, zero, draws)
         else None);
      '(rest, draws) <- boro_first indices P2s draws;
      ret ((alpha, L1, s1) :: rest, draws)
  | _, _ => None
  end.

(** The second loop: [s0] and [s1] for each bit. *)
Fixpoint boro_second (ee : list Z) (indices : list Z) (x P1 : list (list Z)) (first : list (list Z * list Z * list Z)) (draws : list (list Z))
    : exc (list (list Z * list Z) * list (list Z)) :=
  match indices, x, P1, first with
  | [], [], [], [] => ret ([], draws)
  | b :: indices, x :: xs, P :: P1, (alpha, _, s1) :: first =>
      '(s0, s1, draws) <-
        (if b =? 0 then s0 <- lift (sc_mulsub x ee alpha); ret (s0, s1, draws)
         else
           '(s0, draws) <- lift (skGen draws);
           LL <- addKeys2 s0 ee P;
           cc <- lift (rct_hash_to_scalar LL);
           s1 <- lift (sc_mulsub x cc alpha);
           ret (s0, s1, draws));
      '(rest, draws) <- boro_second ee indices xs P1 first draws;
      ret ((s0, s1) :: rest, draws)
  | _, _, _, _ => None
  end.

Definition genBorromean (x P1 P2 : list (list Z)) (indices : list Z) (draws : list (list Z)) : exc (boroSig * list (list Z)) :=
  '(first, draws) <- boro_first indices P2 draws;
  ee <- lift (rct_hash_to_scalar (concat (map (fun t => snd (fst t)) first)));
  '(second, draws) <- boro_second ee indices x P1 first draws;
  ret (BoroSig (map fst second) (map snd second) ee, draws).

(** The loop of [verifyBorromean], on points that are decoded. *)
Fixpoint boro_verify_loop (ee : list Z) (s0 s1 : list (list Z)) (P1 P2 : list ge_p3) : option (list (list Z)) :=
  match s0, s1, P1, P2 with
  | [], [], [], [] => Some []
  | s0 :: s0s, s1 :: s1s, Pa :: P1s, Pb :: P2s =>
      p2 ← ge_double_scalarmult_base_vartime ge_Bi ee Pa s0;
      LL ← ge_tobytes p2;
      chash ← rct_hash_to_scalar LL;
      p2 ← ge_double_scalarmult_base_vartime ge_Bi chash Pb s1;
      Lv1 ← ge_tobytes p2;
      rest ← boro_verify_loop ee s0s s1s P1s P2s;
      Some (Lv1 :: rest)
  | _, _, _, _ => None
  end.

Definition verifyBorromean (bb : boroSig) (P1 P2 : list ge_p3) : option bool :=
  Lv1 ← boro_verify_loop (bs_ee bb) (bs_s0 bb) (bs_s1 bb) P1 P2;
  eeComputed ← rct_hash_to_scalar (concat Lv1);
  Some (equalKeys eeComputed (bs_ee bb)).

Fixpoint decode_keys (P : list (list Z)) : option (option (list ge_p3)) :=
  match P with
  | [] => Some (Some [])
  | k :: P =>
      p ← ge_frombytes_vartime k;
      match p with
      | None => Some None
      | Some p => ps ← decode_keys P; Some (match ps with None => None | Some ps => Some (p :: ps) end)
      end
  end.

(** On keys: [false] when one of them is no point. *)
Definition verifyBorromean_keys (bb : boroSig) (P1 P2 : list (list Z)) : option bool :=
  p1 ← decode_keys P1;
  p2 ← decode_keys P2;
  match p1, p2 with
  | Some p1, Some p2 => verifyBorromean bb p1 p2
  | _, _ => Some false
  end.

Record range_state := RangeState { rg_C : list Z; rg_mask : list Z; rg_a : list (list Z); rg_Ci : list (list Z); rg_CiH : list (list Z); rg_draws : list (list Z) }.

Definition range_step (b : Z) (H2i : list Z) (st : range_state) : exc range_state :=
  '(a, draws) <- lift (skGen (rg_draws st));
  C <- (if b =? 0 then lift (scalarmultBase a) else if b =? 1 then addKeys1 a H2i else None);
  CiH <- subKeys C H2i;
  mask <- lift (sc_add (rg_mask st) a);
  sum <- addKeys (rg_C st) C;
  ret (RangeState sum mask (rg_a st ++ [a]) (rg_Ci st ++ [C]) (rg_CiH st ++ [CiH]) draws).

Fixpoint range_loop (b : list Z) (H2s : list (list Z)) (st : range_state) : exc range_state :=
  match b, H2s with
  | b :: bs, H2i :: H2s => st <- range_step b H2i st; range_loop bs H2s st
  | _, _ => ret st
  end.

(** The commitment, its mask and the proof. *)
Definition proveRange (amount : Z) (draws : list (list Z)) : exc (list Z * list Z * rangeSig * list (list Z)) :=
  let b := d2b amount in
  st <- range_loop b H2 (RangeState identity sc_0 [] [] [] draws);
  '(asig, draws) <- genBorromean (rg_a st) (rg_Ci st) (rg_CiH st) b (rg_draws st);
  ret (rg_C st, rg_mask st, RangeSig (boroSig_blob asig) (concat (rg_Ci st)), draws).

(** [None] inside when a key is no point; otherwise the points of the proof, those
    less the powers of two, and their sum. *)
Fixpoint ver_range_loop (H2s Cis : list (list Z)) (Ctmp : ge_p3) : option (option (list ge_p3 * list ge_p3 * ge_p3)) :=
  match H2s, Cis with
  | H2i :: H2s, Ci :: Cis =>
      p3 ← ge_frombytes_vartime H2i;
      match p3 with
      | None => Some None
      | Some p3 =>
          cached ← ge_p3_to_cached p3;
          asCi ← ge_frombytes_vartime Ci;
          match asCi with
          | None => Some None
          | Some asCi =>
              p1 ← ge_sub asCi cached;
              cached ← ge_p3_to_cached asCi;
              CiH ← ge_p1p1_to_p3 p1;
              p1 ← ge_add Ctmp cached;
              Ctmp ← ge_p1p1_to_p3 p1;
              r ← ver_range_loop H2s Cis Ctmp;
              Some (match r with None => None | Some (cs, hs, sum) => Some (asCi :: cs, CiH :: hs, sum) end)
          end
      end
  | _, _ => Some (Some ([], [], Ctmp))
  end.

Definition verRange (C : list Z) (as_ : rangeSig) : option bool :=
  r ← ver_range_loop H2 (key_blocks 64 (Ci as_)) ge_p3_identity;
  match r with
  | None => Some false
  | Some (asCi, CiH, Ctmp_p3) =>
      Ctmp ← ge_p3_tobytes Ctmp_p3;
      if negb (equalKeys C Ctmp) then Some false
      else verifyBorromean (boroSig_of (asig as_)) asCi CiH
  end.

(** ** The equation of a Borromean signature *)

(** A bit with its pair of points; the signer knows [x B = P1] or [x B = P2]. *)
Record boro_item := BoroItem { it_P1 : point; it_P2 : point }.

Definition boro_LL (ee s0 : Z) (it : boro_item) : point := (smul ee (it_P1 it) + smul s0 B)%G.

Definition boro_Lv (ee s0 s1 : Z) (it : boro_item) : point := (smul (Hs (encode (boro_LL ee s0 it))) (it_P2 it) + smul s1 B)%G.

(** The points the verifier hashes. *)
Fixpoint boro_points (ee : Z) (s0 s1 : list (list Z)) (items : list boro_item) : list (list Z) :=
  match s0, s1, items with
  | a :: s0, b :: s1, it :: items => encode (boro_Lv ee (le_value a) (le_value b) it) :: boro_points ee s0 s1 items
  | _, _, _ => []
  end.

Lemma two_base_scalars a A P b : scalar_ok a -> scalar_ok b -> p3_ok A P ->
  returns (ge_double_scalarmult_base_vartime ge_Bi a A b) (fun r => p2_ok r (smul (le_value a) P + smul (le_value b) B)%G).
Proof. apply double_base_ok. exact ge_Bi_ok. Qed.

Lemma verify_loop_ok ee s0 s1 items p1 p2 : scalar_ok ee -> Forall scalar_ok s0 -> Forall scalar_ok s1 ->
  length s0 = length items -> length s1 = length items -> Forall2 (fun p it => p3_ok p (it_P1 it)) p1 items -> Forall2 (fun p it => p3_ok p (it_P2 it)) p2 items ->
  boro_verify_loop ee s0 s1 p1 p2 = Some (boro_points (le_value ee) s0 s1 items).
Proof.
  intros He Hs0 Hs1 L0 L1 H1 H2. revert s0 s1 p2 Hs0 Hs1 L0 L1 H2. induction H1 as [|p it p1 items Hp H1 IH]; intros s0 s1 p2 Hs0 Hs1 L0 L1 H2.
  - inversion H2. by destruct s0, s1.
  - inversion H2 as [|q ? p2' ? Hq H2']; subst. destruct s0 as [|a s0], s1 as [|b s1]; try done. apply Forall_cons in Hs0 as [Ha Hs0], Hs1 as [Hb Hs1].
    cbn [boro_verify_loop boro_points]. destruct (two_base_scalars _ _ _ _ He Ha Hp) as (r & -> & Hr). rewrite bind_some, (tobytes_eq _ _ Hr), bind_some.
    fold (boro_LL (le_value ee) (le_value a) it). rewrite rct_hash_to_scalar_eq, bind_some.
    destruct (Hs_key (encode (boro_LL (le_value ee) (le_value a) it))) as [Hc Ec].
    destruct (two_base_scalars _ _ _ _ (reduced_scalar_ok _ Hc) Hb Hq) as (r2 & -> & Hr2). rewrite bind_some, (tobytes_eq _ _ Hr2), bind_some, Ec.
    rewrite (IH s0 s1 p2' Hs0 Hs1 ltac:(by injection L0) ltac:(by injection L1) H2'), bind_some. reflexivity.
Qed.

(** What the verifier checks. *)
Definition valid_boro (bb : boroSig) (items : list boro_item) : Prop :=
  bs_ee bb = le_bytes 32 (Hs (concat (boro_points (le_value (bs_ee bb)) (bs_s0 bb) (bs_s1 bb) items))).

Definition boro_shape (bb : boroSig) (n : nat) : Prop :=
  length (bs_s0 bb) = n /\ length (bs_s1 bb) = n /\ Forall scalar_ok (bs_s0 bb) /\ Forall scalar_ok (bs_s1 bb) /\ scalar_ok (bs_ee bb).

Lemma verifyBorromean_ok bb items p1 p2 : boro_shape bb (length items) ->
  Forall2 (fun p it => p3_ok p (it_P1 it)) p1 items -> Forall2 (fun p it => p3_ok p (it_P2 it)) p2 items ->
  returns (verifyBorromean bb p1 p2) (fun b => b = true <-> valid_boro bb items).
Proof.
  intros (L0 & L1 & Hs0 & Hs1 & He) H1 H2. unfold verifyBorromean. rewrite (verify_loop_ok _ _ _ items) by done. rewrite bind_some, rct_hash_to_scalar_eq, bind_some.
  apply returns_some. rewrite equalKeys_spec by (apply mod_reduced || apply He). rewrite bool_decide_eq_true. unfold valid_boro. split; intros E; by symmetry.
Qed.

(** ** Generation *)

(** A bit, the secret the signer has, and the points. *)
Record boro_secret := BoroSecret { bt_bit : Z; bt_x : list Z; bt_item : boro_item }.

Definition secret_ok (b : boro_secret) : Prop :=
  reduced (bt_x b) /\ (bt_bit b = 0 /\ it_P1 (bt_item b) = smul (le_value (bt_x b)) B \/ bt_bit b = 1 /\ it_P2 (bt_item b) = smul (le_value (bt_x b)) B).

(** What the first loop leaves for a bit. *)
Definition first_ok (b : boro_secret) (t : list Z * list Z * list Z) : Prop :=
  let '(alpha, L1, s1) := t in
  reduced alpha /\
  (if bt_bit b =? 0 then reduced s1 /\ L1 = encode (smul (le_value s1) B + smul (Hs (encode (smul (le_value alpha) B))) (it_P2 (bt_item b)))%G
   else L1 = encode (smul (le_value alpha) B)).

(** Random scalars each loop takes. *)
Definition need_first (l : list boro_secret) : nat := foldr (fun b n => ((if (bt_bit b =? 0)%Z then 2 else 1) + n)%nat) 0%nat l.
Definition need_second (l : list boro_secret) : nat := foldr (fun b n => ((if (bt_bit b =? 0)%Z then 0 else 1) + n)%nat) 0%nat l.

Lemma need_all l : (need_first l + need_second l = 2 * length l)%nat.
Proof. induction l as [|b l IH]; [done|]. unfold need_first, need_second in *. cbn [foldr length]. destruct (bt_bit b =? 0); lia. Qed.

(** One draw. *)
Lemma draw_one k ks d rest : draws_to (k :: ks) d rest -> Forall is_key d -> exists d', skGen d = Some (k, d') /\ reduced k /\ Forall is_key d' /\ draws_to ks d' rest.
Proof.
  intros H Hd. inversion H as [|? ? ? d' ? E Hr]; subst. exists d'. destruct (random_scalar_some _ _ _ Hd E) as (Hk & _ & Hd' & _). by split_and!.
Qed.

Lemma boro_first_ok l : forall ks d rest, Forall secret_ok l -> draws_to ks d rest -> length ks = need_first l -> Forall is_key d ->
  yields (boro_first (map bt_bit l) (map (fun b => encode (it_P2 (bt_item b))) l) d) (fun r => snd r = rest /\ Forall2 first_ok l (fst r)).
Proof.
  induction l as [|b l IH]; intros ks d rest Hl Hd Hn Hk; cbn [map boro_first].
  { destruct ks; [|done]. inversion Hd; subst. apply yields_ret. split; [done|constructor]. }
  apply Forall_cons in Hl as [[_ Hb] Hl]. unfold need_first in Hn. cbn [foldr] in Hn. fold (need_first l) in Hn.
  destruct ks as [|alpha ks]; [destruct (bt_bit b =? 0); cbn in Hn; lia|].
  destruct (draw_one _ _ _ _ Hd Hk) as (d1 & -> & Ha & Hk1 & Hd1). rewrite ebind_lift, scalarmultBase_ok, ebind_lift by apply Ha.
  destruct Hb as [[Eb _]|[Eb _]]; rewrite Eb in *; cbn [Z.eqb Pos.eqb] in *.
  - destruct ks as [|s1 ks]; [cbn in Hn; lia|]. destruct (draw_one _ _ _ _ Hd1 Hk1) as (d2 & -> & Hs1 & Hk2 & Hd2). rewrite ebind_lift, rct_hash_to_scalar_eq, ebind_lift.
    destruct (Hs_key (encode (smul (le_value alpha) B))) as [Hc Ec]. rewrite (addKeys2_ok _ _ _ Hs1 Hc), ebind_ret. cbn beta. rewrite ebind_ret, Ec.
    eapply yields_bind; [apply (IH ks d2 rest Hl Hd2); [cbn [length] in Hn; lia|exact Hk2]|]. cbn beta. intros [r d3] [E Hr]. cbn [fst snd] in *. apply yields_ret. cbn [fst snd].
    split; [exact E|]. constructor; [|exact Hr]. unfold first_ok. rewrite Eb. cbn [Z.eqb]. split; [exact Ha|]. split; [exact Hs1|reflexivity].
  - rewrite ebind_ret. eapply yields_bind; [apply (IH ks d1 rest Hl Hd1); [cbn [length] in Hn; lia|exact Hk1]|]. cbn beta. intros [r d3] [E Hr]. cbn [fst snd] in *. apply yields_ret. cbn [fst snd].
    split; [exact E|]. constructor; [|exact Hr]. unfold first_ok. rewrite Eb. cbn [Z.eqb]. split; [exact Ha|reflexivity].
Qed.

(** The point of a bit comes out as it was hashed. *)
Lemma close_first ee x alpha s1 it L1 : it_P1 it = smul x B -> L1 = encode (smul s1 B + smul (Hs (encode (smul alpha B))) (it_P2 it))%G ->
  encode (boro_Lv ee ((alpha - x * ee) mod ell) s1 it) = L1.
Proof.
  intros E ->. unfold boro_Lv, boro_LL. rewrite E, smul_ell, gadd_comm.
  assert (smul ee (smul x B) + smul (alpha - x * ee) B = smul alpha B)%G as -> by group_ring. reflexivity.
Qed.

Lemma close_second ee x alpha s0 it : it_P2 it = smul x B ->
  boro_Lv ee s0 ((alpha - x * Hs (encode (boro_LL ee s0 it))) mod ell) it = smul alpha B.
Proof. intros E. unfold boro_Lv. rewrite E, smul_ell. group_ring. Qed.

Lemma boro_second_ok ee l first : Forall2 first_ok l first -> Forall secret_ok l -> reduced ee -> forall ks d rest, draws_to ks d rest -> length ks = need_second l -> Forall is_key d ->
  yields (boro_second ee (map bt_bit l) (map bt_x l) (map (fun b => encode (it_P1 (bt_item b))) l) first d) (fun r => snd r = rest /\
    length (fst r) = length l /\ Forall reduced (map fst (fst r)) /\ Forall reduced (map snd (fst r)) /\
    boro_points (le_value ee) (map fst (fst r)) (map snd (fst r)) (map bt_item l) = map (fun t => snd (fst t)) first).
Proof.
  intros Hf Hl He. revert Hl. induction Hf as [|b [[alpha L1] s1] l first Hb Hf IH]; intros Hl ks d rest Hd Hn Hk; cbn [map boro_second].
  { destruct ks; [|done]. inversion Hd; subst. apply yields_ret. split_and!; try constructor. }
  apply Forall_cons in Hl as [[Hx Hbit] Hl]. unfold need_second in Hn. cbn [foldr] in Hn. fold (need_second l) in Hn. unfold first_ok in Hb.
  destruct Hbit as [[Eb EP]|[Eb EP]]; rewrite Eb in *; cbn [Z.eqb Pos.eqb] in *.
  - destruct Hb as (Ha & Hs1 & EL). rewrite sc_mulsub_eq by (apply Hx || apply He || apply Ha). rewrite ebind_lift, ebind_ret.
    eapply yields_bind; [apply (IH Hl ks d rest Hd); [cbn [length] in Hn; lia|exact Hk]|]. cbn beta. intros [r d2] (E & Len & H0 & H1 & Ep). cbn [fst snd] in *. apply yields_ret. cbn [fst snd map].
    split; [exact E|]. split; [cbn [length]; by rewrite Len|]. split; [constructor; [apply mod_reduced|exact H0]|]. split; [constructor; [exact Hs1|exact H1]|].
    cbn [boro_points]. rewrite Ep. f_equal. rewrite mod_value. exact (close_first _ _ _ _ _ _ EP EL).
  - destruct Hb as (Ha & EL). destruct ks as [|s0 ks]; [cbn in Hn; lia|]. destruct (draw_one _ _ _ _ Hd Hk) as (d1 & -> & Hs0 & Hk1 & Hd1). rewrite ebind_lift.
    rewrite (addKeys2_ok _ _ _ Hs0 He), ebind_ret, gadd_comm. fold (boro_LL (le_value ee) (le_value s0) (bt_item b)). rewrite rct_hash_to_scalar_eq, ebind_lift.
    destruct (Hs_key (encode (boro_LL (le_value ee) (le_value s0) (bt_item b)))) as [Hc Ec].
    rewrite sc_mulsub_eq by (apply Hx || apply Hc || apply Ha). rewrite ebind_lift, ebind_ret, Ec.
    eapply yields_bind; [apply (IH Hl ks d1 rest Hd1); [cbn [length] in Hn; lia|exact Hk1]|]. cbn beta. intros [r d2] (E & Len & H0 & H1 & Ep). cbn [fst snd] in *. apply yields_ret. cbn [fst snd map].
    split; [exact E|]. split; [cbn [length]; by rewrite Len|]. split; [constructor; [exact Hs0|exact H0]|]. split; [constructor; [apply mod_reduced|exact H1]|].
    cbn [boro_points]. rewrite Ep, EL. f_equal. rewrite mod_value. apply (f_equal encode). exact (close_second _ _ _ _ _ EP).
Qed.

(** The signature of the bits is valid. *)
Lemma genBorromean_ok l ks d rest : Forall secret_ok l -> draws_to ks d rest -> length ks = (2 * length l)%nat -> Forall is_key d ->
  yields (genBorromean (map bt_x l) (map (fun b => encode (it_P1 (bt_item b))) l) (map (fun b => encode (it_P2 (bt_item b))) l) (map bt_bit l) d)
    (fun r => snd r = rest /\ valid_boro (fst r) (map bt_item l) /\ boro_shape (fst r) (length l)).
Proof.
  intros Hl Hd Hn Hk. pose proof (need_all l) as Hall. rewrite <- (take_drop (need_first l) ks) in Hd. apply draws_to_app in Hd as (d1 & Hd1 & Hd2).
  pose proof (draws_to_keys _ _ _ Hd1 Hk) as [_ Hk1]. unfold genBorromean.
  eapply yields_bind; [apply (boro_first_ok l _ d d1 Hl Hd1); [rewrite length_take; lia|exact Hk]|]. cbn beta. intros [first d1'] [E Hf]. cbn [fst snd] in *. subst d1'.
  rewrite rct_hash_to_scalar_eq, ebind_lift. set (data := concat _). destruct (Hs_key data) as [He Ee].
  eapply yields_bind; [apply (boro_second_ok _ l first Hf Hl He _ d1 rest Hd2); [rewrite length_drop; lia|exact Hk1]|]. cbn beta.
  intros [second d2] (E & Len & H0 & H1 & Ep). cbn [fst snd] in *. apply yields_ret. cbn [fst snd]. split; [exact E|]. split.
  - unfold valid_boro. cbn [bs_ee bs_s0 bs_s1]. rewrite Ep. reflexivity.
  - unfold boro_shape. cbn [bs_ee bs_s0 bs_s1]. rewrite !length_map. split; [exact Len|]. split; [exact Len|].
    split; [exact (Forall_impl _ _ _ H0 reduced_scalar_ok)|]. split; [exact (Forall_impl _ _ _ H1 reduced_scalar_ok)|exact (reduced_scalar_ok _ He)].
Qed.

(** ** The commitments to the bits *)

(** The points of the proof at the bits from [i] on: each, and each less its power
    of two. *)
Fixpoint range_items (i : nat) (pts : list point) : list boro_item :=
  match pts with
  | [] => []
  | P :: pts => BoroItem P (P - smul (2 ^ Z.of_nat i) H_point)%G :: range_items (S i) pts
  end.

Definition powers_from (i : nat) (l : list (list Z)) : Prop := forall j s, l !! j = Some s -> s = encode (smul (2 ^ Z.of_nat (i + j)) H_point).

Lemma powers_cons i s l : powers_from i (s :: l) -> s = encode (smul (2 ^ Z.of_nat i) H_point) /\ powers_from (S i) l.
Proof.
  intros H. split; [rewrite (H 0%nat s eq_refl), Nat.add_0_r; reflexivity|]. intros j s' E. rewrite (H (S j) s' E). by rewrite Nat.add_succ_r.
Qed.

Lemma H2_powers : powers_from 0 H2.
Proof. intros j s E. exact (H2_ok j s E). Qed.

(** The loop of the verifier, on points. *)
Lemma ver_range_loop_ok l : forall i pts T Q, powers_from i l -> length l = length pts -> p3_ok T Q ->
  returns (ver_range_loop l (map encode pts) T) (fun r => exists cs hs sum, r = Some (cs, hs, sum) /\
    Forall2 (fun p it => p3_ok p (it_P1 it)) cs (range_items i pts) /\ Forall2 (fun p it => p3_ok p (it_P2 it)) hs (range_items i pts) /\ p3_ok sum (Q + gsum pts)%G).
Proof.
  induction l as [|s l IH]; intros i [|P pts] T Q Hp Hl HT; try done; cbn [map ver_range_loop range_items].
  { apply returns_some. exists [], [], T. change (gsum []) with (gzero : point). rewrite gadd_0_r. split_and!; [done|constructor|constructor|exact HT]. }
  apply powers_cons in Hp as [-> Hp]. destruct (decode_yields (smul (2 ^ Z.of_nat i) H_point)) as (h & -> & Hh). unfold ret. rewrite bind_some.
  destruct (ge_p3_to_cached_ok _ _ Hh) as (hc & -> & Hhc). rewrite bind_some. destruct (decode_yields P) as (c & -> & Hc). unfold ret. rewrite bind_some.
  destruct (ge_sub_ok _ _ _ _ Hc Hhc) as (d & -> & Hd). rewrite bind_some. destruct (ge_p3_to_cached_ok _ _ Hc) as (cc & -> & Hcc). rewrite bind_some.
  destruct (ge_p1p1_to_p3_ok _ _ Hd) as (d3 & -> & Hd3). rewrite bind_some. destruct (ge_add_ok _ _ _ _ HT Hcc) as (t & -> & Ht). rewrite bind_some.
  destruct (ge_p1p1_to_p3_ok _ _ Ht) as (t3 & -> & Ht3). rewrite bind_some.
  eapply returns_bind; [exact (IH (S i) pts t3 (Q + P)%G Hp ltac:(by injection Hl) Ht3)|]. cbn beta. intros r (cs & hs & sum & -> & H1 & H2 & H3). apply returns_some.
  exists (c :: cs), (d3 :: hs), sum. split; [reflexivity|]. split; [constructor; [exact Hc|exact H1]|]. split; [constructor; [exact Hd3|exact H2]|].
  rewrite gsum_cons. assert (Q + (P + gsum pts) = Q + P + gsum pts)%G as -> by group_ring. exact H3.
Qed.

(** On other bytes it stops. *)
Lemma ver_range_loop_bad l : forall i keys T Q, powers_from i l -> length l = length keys -> Forall is_key keys -> p3_ok T Q -> ~ (exists pts, keys = map encode pts) ->
  ver_range_loop l keys T = Some None.
Proof.
  induction l as [|s l IH]; intros i [|k keys] T Q Hp Hl Hk HT Hn; try done; cbn [ver_range_loop]; [destruct Hn; by exists []|].
  apply Forall_cons in Hk as [Hk Hks]. apply powers_cons in Hp as [-> Hp]. destruct (decode_yields (smul (2 ^ Z.of_nat i) H_point)) as (h & -> & Hh). unfold ret. rewrite bind_some.
  destruct (ge_p3_to_cached_ok _ _ Hh) as (hc & -> & Hhc). rewrite bind_some. destruct (is_point_dec _ Hk) as [[P ->]|Hk'].
  2:{ rewrite (decode_throws _ Hk Hk'). unfold throw. rewrite bind_some. reflexivity. }
  destruct (decode_yields P) as (c & -> & Hc). unfold ret. rewrite bind_some.
  destruct (ge_sub_ok _ _ _ _ Hc Hhc) as (d & -> & Hd). rewrite bind_some. destruct (ge_p3_to_cached_ok _ _ Hc) as (cc & -> & Hcc). rewrite bind_some.
  destruct (ge_p1p1_to_p3_ok _ _ Hd) as (d3 & -> & Hd3). rewrite bind_some. destruct (ge_add_ok _ _ _ _ HT Hcc) as (t & -> & Ht). rewrite bind_some.
  destruct (ge_p1p1_to_p3_ok _ _ Ht) as (t3 & -> & Ht3). rewrite bind_some.
  rewrite (IH (S i) keys t3 (Q + P)%G Hp ltac:(by injection Hl) Hks Ht3); [rewrite bind_some; reflexivity|]. intros [pts ->]. apply Hn. by exists (P :: pts).
Qed.

Lemma points_dec keys : Forall is_key keys -> (exists pts, keys = map encode pts) \/ ~ (exists pts, keys = map encode pts).
Proof.
  induction 1 as [|k keys Hk _ IH]; [left; by exists []|]. destruct (is_point_dec k Hk) as [[P ->]|Hn].
  - destruct IH as [[pts ->]|IH]; [left; by exists (P :: pts)|]. right. intros [[|Q pts] E]; [done|]. cbn [map] in E. apply cons_eq in E as [_ ->]. apply IH. by exists pts.
  - right. intros [[|Q pts] E]; [done|]. cbn [map] in E. apply cons_eq in E as [-> _]. apply Hn. by exists Q.
Qed.

Lemma map_encode_inj l l' : map encode l = map encode l' -> l = l'.
Proof.
  revert l'. induction l as [|P l IH]; intros [|Q l'] E; try done. cbn [map] in E. apply cons_eq in E as [E1 E2]. apply encode_inj in E1. subst Q. f_equal. exact (IH l' E2).
Qed.

Lemma length_range_items i pts : length (range_items i pts) = length pts.
Proof. revert i. induction pts as [|P pts IH]; intros i; cbn [range_items length]; [done|]. by rewrite IH. Qed.

Lemma length_blocks n blob : length (key_blocks n blob) = n.
Proof. revert blob. induction n as [|n IH]; intros blob; cbn [key_blocks length]; [done|]. by rewrite IH. Qed.

(** What a proof has to satisfy: it holds 64 points that add up to the commitment,
    and the Borromean equation of those and of those less their powers of two. *)
Definition valid_range (C : list Z) (as_ : rangeSig) : Prop :=
  exists pts, key_blocks 64 (Ci as_) = map encode pts /\ C = encode (gsum pts) /\ valid_boro (boroSig_of (asig as_)) (range_items 0 pts).

Lemma verRange_ok C as_ : is_key C -> Forall is_key (key_blocks 64 (Ci as_)) -> boro_shape (boroSig_of (asig as_)) 64 ->
  returns (verRange C as_) (fun b => b = true <-> valid_range C as_).
Proof.
  intros HC Hk Hs. unfold verRange, valid_range. assert (length H2 = length (key_blocks 64 (Ci as_))) as Hl by (rewrite length_blocks; exact length_H2).
  destruct (points_dec _ Hk) as [[pts E]|Hn].
  2:{ rewrite (ver_range_loop_bad H2 0 _ ge_p3_identity gzero H2_powers Hl Hk ge_p3_0_ok Hn), bind_some. apply returns_some. split; [done|].
      intros (pts & E & _). destruct Hn. by exists pts. }
  rewrite E in *. rewrite length_map in Hl. eapply returns_bind; [exact (ver_range_loop_ok H2 0 pts ge_p3_identity gzero H2_powers Hl ge_p3_0_ok)|].
  cbn beta. intros r (cs & hs & sum & -> & H1 & H2' & H3). rewrite gadd_0_l in H3. rewrite (p3_tobytes_eq _ _ H3), bind_some, equalKeys_spec by (done || apply encode_key).
  assert (length pts = 64%nat) as Lp by (rewrite <- Hl; exact length_H2).
  case_bool_decide as EC; cbn [negb].
  - assert (boro_shape (boroSig_of (asig as_)) (length (range_items 0 pts))) as Hs' by (by rewrite length_range_items, Lp).
    eapply returns_mono; [exact (verifyBorromean_ok _ _ _ _ Hs' H1 H2')|]. cbn beta. intros b ->. split; [intros Hv; by exists pts|].
    intros (pts' & E' & _ & Hv). apply map_encode_inj in E'. by rewrite E'.
  - apply returns_some. split; [done|]. intros (pts' & E' & EC' & _). apply map_encode_inj in E'. destruct EC. by rewrite E'.
Qed.

(** ** The prover *)

(** The secret of a bit of the proof. *)
Definition range_secret (i : nat) (b : Z) (a : list Z) : boro_secret :=
  let P := pedersen (le_value a) (b * 2 ^ Z.of_nat i) in BoroSecret b a (BoroItem P (P - smul (2 ^ Z.of_nat i) H_point)%G).

Fixpoint range_secrets (i : nat) (bs : list Z) (ks : list (list Z)) : list boro_secret :=
  match bs, ks with
  | b :: bs, a :: ks => range_secret i b a :: range_secrets (S i) bs ks
  | _, _ => []
  end.

Lemma range_secret_ok i b a : is_bit b -> reduced a -> secret_ok (range_secret i b a).
Proof.
  intros Hb Ha. split; [exact Ha|]. unfold range_secret. cbn [bt_bit bt_item it_P1 it_P2 bt_x]. unfold pedersen. destruct Hb as [-> | ->]; [left|right]; (split; [reflexivity|]).
  - rewrite Z.mul_0_l. rewrite smul_0. apply gadd_0_r.
  - rewrite Z.mul_1_l. group_ring.
Qed.

Lemma range_step_ok i b a st d m v : is_bit b -> reduced a -> skGen (rg_draws st) = Some (a, d) -> reduced m -> rg_mask st = m -> rg_C st = encode (pedersen (le_value m) v) ->
  let it := bt_item (range_secret i b a) in let m' := le_bytes 32 ((le_value m + le_value a) mod ell) in
  range_step b (encode (smul (2 ^ Z.of_nat i) H_point)) st =
    ret (RangeState (encode (pedersen (le_value m') (v + b * 2 ^ Z.of_nat i))) m' (rg_a st ++ [a]) (rg_Ci st ++ [encode (it_P1 it)]) (rg_CiH st ++ [encode (it_P2 it)]) d).
Proof.
  intros Hb Ha Ed Hm Em EC it m'. unfold range_step. rewrite Ed, ebind_lift.
  assert ((if b =? 0 then lift (scalarmultBase a) else if b =? 1 then addKeys1 a (encode (smul (2 ^ Z.of_nat i) H_point)) else None) = ret (encode (it_P1 it))) as ->.
  { unfold it, range_secret. cbn [bt_item it_P1]. unfold pedersen. destruct Hb as [-> | ->]; cbn [Z.eqb Pos.eqb].
    - rewrite scalarmultBase_ok by apply Ha. rewrite Z.mul_0_l, smul_0, gadd_0_r. reflexivity.
    - rewrite addKeys1_ok by apply Ha. rewrite Z.mul_1_l. reflexivity. }
  rewrite ebind_ret, subKeys_ok, ebind_ret, Em, sc_add_eq, ebind_lift, EC, addKeys_ok, ebind_ret by (apply Hm || apply Ha).
  unfold it, range_secret, m'. cbn [bt_item it_P1 it_P2]. rewrite pedersen_add, mod_value, pedersen_mod. reflexivity.
Qed.

Lemma range_loop_ok bs : forall i H2s ks st rest m v, Forall is_bit bs -> powers_from i H2s -> length H2s = length bs -> length ks = length bs ->
  draws_to ks (rg_draws st) rest -> Forall is_key (rg_draws st) -> reduced m -> rg_mask st = m -> rg_C st = encode (pedersen (le_value m) v) ->
  let l := range_secrets i bs ks in
  exists m', reduced m' /\ pedersen (le_value m') (v + 2 ^ Z.of_nat i * bval bs) = (pedersen (le_value m) v + gsum (map (fun b => it_P1 (bt_item b)) l))%G /\
    range_loop bs H2s st = ret (RangeState (encode (pedersen (le_value m') (v + 2 ^ Z.of_nat i * bval bs))) m' (rg_a st ++ map bt_x l)
    (rg_Ci st ++ map (fun b => encode (it_P1 (bt_item b))) l) (rg_CiH st ++ map (fun b => encode (it_P2 (bt_item b))) l) rest).
Proof.
  induction bs as [|b bs IH]; intros i H2s ks st rest m v Hb Hp Hl Hk Hd Hdk Hm Em EC l.
  { destruct ks; [|done]. destruct H2s; [|done]. inversion Hd; subst. exists (rg_mask st). unfold l. cbn [range_secrets map range_loop]. rewrite !app_nil_r.
    change (bval []) with 0. rewrite Z.mul_0_r, Z.add_0_r, <- EC. split; [done|]. split; [symmetry; apply gadd_0_r|by destruct st]. }
  destruct ks as [|a ks], H2s as [|h H2s]; try done. apply Forall_cons in Hb as [Hb Hbs]. apply powers_cons in Hp as [-> Hp].
  destruct (draw_one _ _ _ _ Hd Hdk) as (d1 & Ed & Ha & Hk1 & Hd1). cbn [range_loop]. rewrite (range_step_ok i b a st d1 m v Hb Ha Ed Hm Em EC), ebind_ret.
  match goal with |- context [range_loop _ _ ?s] => set (st1 := s) end.
  destruct (IH (S i) H2s ks st1 rest (rg_mask st1) (v + b * 2 ^ Z.of_nat i) Hbs Hp ltac:(by injection Hl) ltac:(by injection Hk) Hd1 Hk1 (mod_reduced _) eq_refl eq_refl) as (m' & Hm' & Esum & ->).
  replace (v + b * 2 ^ Z.of_nat i + 2 ^ Z.of_nat (S i) * bval bs) with (v + 2 ^ Z.of_nat i * bval (b :: bs)) in *
    by (rewrite bval_cons, Nat2Z.inj_succ, Z.pow_succ_r by lia; lia).
  exists m'. split; [exact Hm'|]. unfold st1. cbn [rg_a rg_Ci rg_CiH]. rewrite <- !app_assoc. unfold l. cbn [range_secrets map app]. split; [|reflexivity].
  rewrite Esum, gsum_cons. unfold st1. cbn [rg_mask]. rewrite mod_value, pedersen_mod, <- pedersen_add. unfold range_secret at 1. cbn [bt_item it_P1]. symmetry. apply gadd_assoc.
Qed.

Lemma d2b_from_bits n x : Forall is_bit (d2b_from n x) /\ length (d2b_from n x) = n.
Proof.
  revert x. induction n as [|n IH]; intros x; cbn [d2b_from]; [by split|]. destruct (IH (Z.shiftr x 1)) as [H1 H2]. split; [|cbn [length]; by rewrite H2].
  constructor; [|exact H1]. change 1 with (Z.ones 1). rewrite Z.land_ones by lia. change (2 ^ 1) with 2. pose proof (Z.mod_pos_bound x 2 ltac:(lia)). unfold is_bit. lia.
Qed.

Lemma d2b_from_value n x : 0 <= x -> bval (d2b_from n x) = x mod 2 ^ Z.of_nat n.
Proof.
  revert x. induction n as [|n IH]; intros x Hx; cbn [d2b_from]; [change (2 ^ Z.of_nat 0) with 1; by rewrite Z.mod_1_r|].
  rewrite bval_cons, IH by (by apply Z.shiftr_nonneg). rewrite Z.shiftr_div_pow2 by lia. change (2 ^ 1) with 2. change 1 with (Z.ones 1). rewrite Z.land_ones by lia.
  change (2 ^ 1) with 2. rewrite Nat2Z.inj_succ, Z.pow_succ_r, Z.rem_mul_r by lia. reflexivity.
Qed.

Lemma range_secrets_ok bs : forall i ks, Forall is_bit bs -> Forall reduced ks -> length ks = length bs ->
  let l := range_secrets i bs ks in Forall secret_ok l /\ length l = length bs /\ map bt_bit l = bs /\ map bt_item l = range_items i (map (fun b => it_P1 (bt_item b)) l).
Proof.
  induction bs as [|b bs IH]; intros i [|a ks] Hb Hk Hl l; try done. apply Forall_cons in Hb as [Hb Hbs], Hk as [Ha Hks].
  destruct (IH (S i) ks Hbs Hks ltac:(by injection Hl)) as (H1 & H2 & H3 & H4). unfold l. cbn [range_secrets map length range_items].
  split; [constructor; [by apply range_secret_ok|exact H1]|]. split; [by rewrite H2|]. split; [by rewrite H3|]. rewrite H4. reflexivity.
Qed.

Lemma key_blocks_concat (l : list (list Z)) rest n : Forall (fun k => length k = 32%nat) l -> length l = n -> key_blocks n (concat l ++ rest) = l.
Proof.
  intros Hl. revert n. induction Hl as [|k l Hk _ IH]; intros n <-; [done|]. cbn [length key_blocks concat]. rewrite <- app_assoc, take_app_length', drop_app_length' by done. by rewrite IH.
Qed.

Lemma length_concat_keys (l : list (list Z)) : Forall (fun k => length k = 32%nat) l -> length (concat l) = (32 * length l)%nat.
Proof. induction 1 as [|k l Hk _ IH]; [done|]. cbn [concat length]. rewrite length_app, IH, Hk. lia. Qed.

(** A signature is read back from its blob. *)
Lemma boroSig_roundtrip bb : boro_shape bb 64 -> boroSig_of (boroSig_blob bb) = bb.
Proof.
  intros (L0 & L1 & H0 & H1 & He). assert (forall l, Forall scalar_ok l -> Forall (fun k : list Z => length k = 32%nat) l) as Hlen.
  { intros l Hl. exact (Forall_impl _ _ _ Hl (fun k H => proj1 (proj1 H))). }
  apply Hlen in H0, H1. destruct bb as [s0 s1 ee]. cbn [bs_s0 bs_s1 bs_ee] in *. unfold boroSig_of, boroSig_blob. cbn [bs_s0 bs_s1 bs_ee]. f_equal.
  - exact (key_blocks_concat s0 _ 64 H0 L0).
  - rewrite drop_app_length' by (rewrite length_concat_keys by done; lia). exact (key_blocks_concat s1 _ 64 H1 L1).
  - rewrite app_assoc, drop_app_length' by (rewrite length_app, !length_concat_keys by done; lia). apply take_ge. destruct He as [[-> _] _]. lia.
Qed.

Lemma proveRange_ok amount draws ks rest : is_u64 amount -> Forall is_key draws -> draws_to ks draws rest -> length ks = 192%nat ->
  exists C mask sig, proveRange amount draws = ret (C, mask, sig, rest) /\ reduced mask /\ C = encode (pedersen (le_value mask) amount) /\
    valid_range C sig /\ Forall is_key (key_blocks 64 (Ci sig)) /\ boro_shape (boroSig_of (asig sig)) 64.
Proof.
  intros Hx Hdk Hd Hn. rewrite <- (take_drop 64 ks) in Hd. apply draws_to_app in Hd as (d1 & Hd1 & Hd2). pose proof (draws_to_keys _ _ _ Hd1 Hdk) as [Hk1 Hdk1].
  set (bs := d2b amount). destruct (d2b_from_bits 64 amount : Forall is_bit bs /\ length bs = 64%nat) as [Hb Lb].
  assert (length (take 64 ks) = length bs) as Lk by (rewrite length_take, Lb; lia).
  assert (encode (pedersen (le_value sc_0) 0) = identity) as E0.
  { unfold pedersen. change (le_value sc_0) with 0. rewrite !smul_0, gadd_0_l. exact infinity_encode. }
  destruct (range_loop_ok bs 0 H2 (take 64 ks) (RangeState identity sc_0 [] [] [] draws) d1 sc_0 0 Hb H2_powers ltac:(by rewrite Lb) Lk Hd1 Hdk
    (small_reduced 0 ltac:(lia)) eq_refl (eq_sym E0)) as (m & Hm & Esum & Eloop).
  destruct (range_secrets_ok bs 0 (take 64 ks) Hb (Forall_impl _ _ _ Hk1 (fun _ H => proj1 H)) Lk) as (Hsec & Ll & Ebit & Eit).
  set (l := range_secrets 0 bs (take 64 ks)) in *. cbn [rg_a rg_Ci rg_CiH app] in Eloop. set (pts := map (fun b => it_P1 (bt_item b)) l) in *.
  assert (0 + 2 ^ Z.of_nat 0 * bval bs = amount) as Ev.
  { unfold bs, d2b. rewrite d2b_from_value by (unfold is_uint in Hx; lia). change (2 ^ Z.of_nat 0) with 1. rewrite Z.mod_small; [lia|exact Hx]. }
  rewrite Ev in Eloop, Esum. unfold proveRange. cbv zeta. fold bs. rewrite Eloop, ebind_ret. cbn [rg_a rg_Ci rg_CiH rg_C rg_mask rg_draws].
  destruct (genBorromean_ok l (drop 64 ks) d1 rest Hsec Hd2 ltac:(rewrite length_drop; lia) Hdk1) as ([bb d2] & Eg & Er & Hv & Hs). rewrite Ebit in Eg. rewrite Eg, ebind_ret.
  cbn [fst snd] in *. subst d2. assert (length l = 64%nat) as L64 by lia. rewrite L64 in Hs.
  eexists _, m, _. split; [reflexivity|]. cbn [asig Ci]. rewrite (boroSig_roundtrip bb Hs).
  assert (key_blocks 64 (concat (map (fun b => encode (it_P1 (bt_item b))) l)) = map encode pts) as Ek.
  { unfold pts. rewrite map_map, <- (app_nil_r (concat _)). apply key_blocks_concat; [|by rewrite length_map]. apply Forall_map, Forall_true. intros b. apply encode_key. }
  split; [exact Hm|]. split; [reflexivity|]. rewrite Ek. split; [|split; [apply Forall_map, Forall_true; intros; apply encode_key|exact Hs]].
  exists pts. cbn [asig Ci]. split; [exact Ek|]. rewrite (boroSig_roundtrip bb Hs), <- Eit. split; [|exact Hv].
  apply (f_equal encode). rewrite Esum. change (le_value sc_0) with 0. unfold pedersen. rewrite !smul_0, !gadd_0_l. reflexivity.
Qed.

(** C10: Range proofs.  For every amount of 64 bits, once the random numbers give
    192 scalars, [proveRange] returns a commitment to the amount, its mask and a
    proof, and [verRange] accepts the proof for that commitment.  On any
    commitment and any proof whose scalars are below [2^253], [verRange] returns,
    and accepts exactly when the proof holds 64 points that add up to the commitment
    and the Borromean equation holds for those points and for those points less
    [2^i H]; the proof is refused when one of its keys is no point. *)
Theorem range_proof_correct amount draws ks rest C' sig' : is_u64 amount -> Forall is_key draws -> draws_to ks draws rest -> length ks = 192%nat ->
  is_key C' -> Forall is_key (key_blocks 64 (Ci sig')) -> boro_shape (boroSig_of (asig sig')) 64 ->
  (exists C mask sig, proveRange amount draws = ret (C, mask, sig, rest) /\ reduced mask /\ commit amount mask = ret C /\ verRange C sig = Some true) /\
  (exists b, verRange C' sig' = Some b /\ (b = true <-> valid_range C' sig')).
Proof.
  intros Hx Hdk Hd Hn HC Hk Hs. split; [|exact (verRange_ok C' sig' HC Hk Hs)].
  destruct (proveRange_ok amount draws ks rest Hx Hdk Hd Hn) as (C & mask & sig & E & Hm & EC & Hv & Hk2 & Hs2). exists C, mask, sig.
  split; [exact E|]. split; [exact Hm|]. split; [rewrite commit_ok, EC by done; reflexivity|].
  destruct (verRange_ok C sig ltac:(rewrite EC; apply encode_key) Hk2 Hs2) as (b & Eb & Hb). rewrite Eb. f_equal. exact (proj2 Hb Hv).
Qed.

Lemma repeated_draws n : draws_to (replicate n (le_bytes 32 (7 mod ell))) (replicate n (7 :: replicate 31 0)) [].
Proof.
  induction n as [|n IH]; cbn [replicate]; [constructor|]. econstructor; [|exact IH]. rewrite random_scalar_cons by exact (proj1 (small_reduced 7 ltac:(lia))).
  rewrite decide_True; [reflexivity|]. split; by vm_compute.
Qed.

Lemma range_proof_witness : exists C mask sig, proveRange 5 (replicate 192 (7 :: replicate 31 0)) = ret (C, mask, sig, []) /\ verRange C sig = Some true.
Proof.
  assert (Forall is_key (replicate 192 (7 :: replicate 31 0))) as Hd by (apply Forall_replicate; exact (proj1 (small_reduced 7 ltac:(lia)))).
  pose proof (proj1 (small_reduced 0 ltac:(lia)) : is_key zero) as Hz.
  assert (Forall is_key (key_blocks 64 (Ci (RangeSig (replicate 4128 0) (replicate 2048 0))))) as Hk.
  { replace (key_blocks _ _) with (replicate 64 zero) by (by vm_compute). apply Forall_replicate. exact Hz. }
  assert (boro_shape (boroSig_of (asig (RangeSig (replicate 4128 0) (replicate 2048 0)))) 64) as Hs.
  { replace (boroSig_of _) with (BoroSig (replicate 64 zero) (replicate 64 zero) zero) by (by vm_compute).
    pose proof (reduced_scalar_ok _ (small_reduced 0 ltac:(lia)) : scalar_ok zero) as Hz'. split_and!; [done|done|by apply Forall_replicate|by apply Forall_replicate|exact Hz']. }
  destruct (proj1 (range_proof_correct 5 _ _ [] zero (RangeSig (replicate 4128 0) (replicate 2048 0)) ltac:(done) Hd (repeated_draws 192)
    (length_replicate _ _) Hz Hk Hs)) as (C & mask & sig & E & _ & _ & Ev).
  exists C, mask, sig. split; [exact E|exact Ev].
Defined.
