(* ===== verification/Mlsag.v ===== *)
(** * MLSAG signatures

    The MLSAG part of [src/ringct/rctSigs.cpp]: signatures over a matrix of keys,
    with their use for one input and for all inputs of a transaction, and the
    functions of [src/device/device_default.cpp] they call.  A matrix is a list of
    columns, one for each member of the ring; the first [dsRows] rows are linkable. *)

From Stdlib Require Import Zmod.
From S2P Require Import Prelude Varint Limbs ScalarOps Primes FieldOps Group Edwards GroupOps ScalarMult CurveTables CurveOrder HashToPoint Keccak Blake2b Crypto Signatures RctTables Generators RctTypes RctOps RingWalk Clsag RangeProof.

#[local] Abbreviation B := base_point.

(** ** Definitions *)

(** [a], [a G], [a H] and the key image. *)
Definition mlsag_prepare (Hk xx : list Z) (draws : list (list Z)) : exc (list Z * list Z * list Z * list Z * list (list Z)) :=
  '(a, aG, draws) <- lift (skpkGen draws);
  aHP <- scalarmultKey Hk a;
  II <- scalarmultKey Hk xx;
  ret (a, aG, aHP, II, draws).

Definition mlsag_hash (toHash : list (list Z)) : option (list Z) := hash_to_scalar_keys toHash.

Fixpoint mlsag_responses (c : list Z) (xx alpha : list (list Z)) : option (list (list Z)) :=
  match xx, alpha with
  | x :: xx, a :: alpha => s ← sc_mulsub c x a; ss ← mlsag_responses c xx alpha; Some (s :: ss)
  | _, _ => Some []
  end.

Definition mlsag_sign (c : list Z) (xx alpha : list (list Z)) (rows dsRows : nat) (ss : list (list Z)) : exc (list (list Z)) :=
  _ <- throw_unless (dsRows <=? rows)%nat;
  _ <- throw_unless (length xx =? rows)%nat;
  _ <- throw_unless (length alpha =? rows)%nat;
  _ <- throw_unless (length ss =? rows)%nat;
  lift (mlsag_responses c xx alpha).

(** The two loops over the rows of the signer: [alpha], the images, their tables
    and what is hashed after the message. *)
Fixpoint mlsag_init (ds : nat) (pk xx : list (list Z)) (draws : list (list Z))
    : exc (list (list Z) * list (list Z) * list (list ge_cached) * list (list Z) * list (list Z)) :=
  match pk, xx with
  | k :: pk, x :: xx =>
      match ds with
      | S ds =>
          Hi_p3 <- lift (hash_to_p3 k);
          Hi <- lift (ge_p3_tobytes Hi_p3);
          '(a, aG, aHP, II, draws) <- mlsag_prepare Hi x draws;
          Ip <- precomp II;
          '(alpha, IIs, Ips, toHash, draws) <- mlsag_init ds pk xx draws;
          ret (a :: alpha, II :: IIs, Ip :: Ips, k :: aG :: aHP :: toHash, draws)
      | O =>
          '(a, aG, draws) <- lift (skpkGen draws);
          '(alpha, IIs, Ips, toHash, draws) <- mlsag_init O pk xx draws;
          ret (a :: alpha, IIs, Ips, k :: aG :: toHash, draws)
      end
  | _, _ => ret ([], [], [], [], draws)
  end.

(** [R] of a linkable row, as the generator and as the verifier compute it. *)
Definition mlsag_R_gen (s k c : list Z) (Ip : list ge_cached) : exc (list Z) :=
  Hi_p3 <- lift (hash_to_p3 k);
  Hi <- lift (ge_p3_tobytes Hi_p3);
  addKeys3 s Hi c Ip.

Definition mlsag_R_ver (s k c : list Z) (Ip : list ge_cached) : exc (list Z) :=
  hash8_p3 <- lift (hash_to_p3 k);
  lift (R_p2 ← ge_double_scalarmult_precomp_vartime s hash8_p3 c Ip; ge_tobytes R_p2).

Section Rounds.
Context (R_of : list Z -> list Z -> list Z -> list ge_cached -> exc (list Z)).

(** What a column adds to the hash: the rows with an image, then the others. *)
Fixpoint mlsag_column (c : list Z) (Ip : list (list ge_cached)) (pk ss : list (list Z)) : exc (list (list Z)) :=
  match pk, ss with
  | k :: pk, s :: ss =>
      L <- addKeys2 s c k;
      match Ip with
      | I_ :: Ip => R <- R_of s k c I_; rest <- mlsag_column c Ip pk ss; ret (k :: L :: R :: rest)
      | [] => rest <- mlsag_column c [] pk ss; ret (k :: L :: rest)
      end
  | _, _ => ret []
  end.

Definition mlsag_round (message : list Z) (Ip : list (list ge_cached)) (pk ss : list (list Z)) (c : list Z) : exc (list Z) :=
  toHash <- mlsag_column c Ip pk ss;
  lift (mlsag_hash (message :: toHash)).
End Rounds.

Definition MLSAG_Gen (message : list Z) (pk : list (list (list Z))) (xx : list (list Z)) (index dsRows : nat) (draws : list (list Z))
    : exc (mgSig * list (list Z)) :=
  let cols := length pk in
  _ <- throw_unless (2 <=? cols)%nat;
  _ <- throw_unless (index <? cols)%nat;
  let rows := length (default [] (pk !! 0%nat)) in
  _ <- throw_unless (1 <=? rows)%nat;
  _ <- throw_unless (forallb (fun col => length col =? rows)%nat (tail pk));
  _ <- throw_unless (length xx =? rows)%nat;
  _ <- throw_unless (dsRows <=? rows)%nat;
  '(alpha, II, Ip, toHash, draws) <- mlsag_init dsRows (default [] (pk !! index)) xx draws;
  c <- lift (mlsag_hash (message :: toHash));
  st <- walk_from_signer (skvGen rows) (fun i ss c => mlsag_round mlsag_R_gen message Ip (default [] (pk !! i)) ss c) cols index (replicate rows zero) c draws;
  ss <- mlsag_sign (ws_c st) xx alpha rows dsRows (default [] (ws_s st !! index));
  cc <- lift (ws_c1 st);
  ret (MgSig (<[index := ss]> (ws_s st)) cc II, ws_draws st).

(** [ret None]: one of the images is the identity. *)
Fixpoint mlsag_images (II : list (list Z)) : exc (option (list (list ge_cached))) :=
  match II with
  | [] => ret (Some [])
  | I_ :: II =>
      if bool_decide (I_ = identity) then ret None
      else Ip <- precomp I_; Ips <- mlsag_images II; ret (match Ips with Some Ips => Some (Ip :: Ips) | None => None end)
  end.

Definition mlsag_ver_round (message : list Z) (Ip : list (list ge_cached)) (col ss : list (list Z)) (c : list Z) : exc (option (list Z)) :=
  c <- mlsag_round mlsag_R_ver message Ip col ss c;
  ret (Some c).

Definition MLSAG_Ver (message : list Z) (pk : list (list (list Z))) (rv : mgSig) (dsRows : nat) : exc bool :=
  let cols := length pk in
  let rows := length (default [] (pk !! 0%nat)) in
  if negb (2 <=? cols)%nat then ret false
  else if negb (1 <=? rows)%nat then ret false
  else if negb (forallb (fun col => length col =? rows)%nat (tail pk)) then ret false
  else if negb (length (mg_II rv) =? dsRows)%nat then ret false
  else if negb (length (mg_ss rv) =? cols)%nat then ret false
  else if negb (forallb (fun col => length col =? rows)%nat (mg_ss rv)) then ret false
  else if negb (dsRows <=? rows)%nat then ret false
  else if negb (forallb (forallb (fun s => sc_check s =? 0)) (mg_ss rv)) then ret false
  else if negb (sc_check (mg_cc rv) =? 0) then ret false
  else
    Ip <- mlsag_images (mg_II rv);
    match Ip with
    | None => ret false
    | Some Ip =>
        c <- ring_check (mlsag_ver_round message Ip) pk (mg_ss rv) (mg_cc rv);
        match c with
        | None => ret false
        | Some c_old => c <- lift (sc_sub c_old (mg_cc rv)); ret (sc_isnonzero c =? 0)
        end
    end.

(** *** One input *)

Fixpoint mg_simple_matrix (pubs : list ctkey) (Cout : list Z) : exc (list (list (list Z))) :=
  match pubs with
  | [] => ret []
  | k :: pubs => m1 <- subKeys (ct_mask k) Cout; M <- mg_simple_matrix pubs Cout; ret ([dest k; m1] :: M)
  end.

Definition proveRctMGSimple (message : list Z) (pubs : list ctkey) (inSk : ctkey) (a Cout : list Z) (index : nat) (draws : list (list Z))
    : exc (mgSig * list (list Z)) :=
  _ <- throw_unless (1 <=? length pubs)%nat;
  sk1 <- lift (sc_sub (ct_mask inSk) a);
  M <- mg_simple_matrix pubs Cout;
  MLSAG_Gen message M [dest inSk; sk1] index 1 draws.

(** [Some None]: a commitment is no point. *)
Fixpoint ver_simple_matrix (pubs : list ctkey) (Ccached : ge_cached) : option (option (list (list (list Z)))) :=
  match pubs with
  | [] => Some (Some [])
  | k :: pubs =>
      p3 ← ge_frombytes_vartime (ct_mask k);
      match p3 with
      | None => Some None
      | Some p3 =>
          p1 ← ge_sub p3 Ccached;
          p3 ← ge_p1p1_to_p3 p1;
          m1 ← ge_p3_tobytes p3;
          M ← ver_simple_matrix pubs Ccached;
          Some (match M with None => None | Some M => Some ([dest k; m1] :: M) end)
      end
  end.

Definition verRctMGSimple_try (message : list Z) (mg : mgSig) (pubs : list ctkey) (C : list Z) : exc bool :=
  if negb (1 <=? length pubs)%nat then ret false
  else
    Cp3 <- lift (ge_frombytes_vartime C);
    match Cp3 with
    | None => ret false
    | Some Cp3 =>
        Ccached <- lift (ge_p3_to_cached Cp3);
        M <- lift (ver_simple_matrix pubs Ccached);
        match M with
        | None => ret false
        | Some M => MLSAG_Ver message M mg 1
        end
    end.

Definition verRctMGSimple (message : list Z) (mg : mgSig) (pubs : list ctkey) (C : list Z) : option bool :=
  catch_false (verRctMGSimple_try message mg pubs C).

(** *** All inputs *)

(** [addKeys] and [subKeys] into the last row. *)
Fixpoint add_masks (acc : list Z) (l : list ctkey) : exc (list Z) :=
  match l with
  | [] => ret acc
  | k :: l => acc <- addKeys acc (ct_mask k); add_masks acc l
  end.

Fixpoint sub_masks (acc : list Z) (l : list ctkey) : exc (list Z) :=
  match l with
  | [] => ret acc
  | k :: l => acc <- subKeys acc (ct_mask k); sub_masks acc l
  end.

Fixpoint mg_input_sums (pubs : list (list ctkey)) : exc (list (list Z)) :=
  match pubs with
  | [] => ret []
  | col :: pubs => s <- add_masks identity col; r <- mg_input_sums pubs; ret (s :: r)
  end.

Fixpoint mg_balances (sums : list (list Z)) (outPk : list ctkey) (txnFeeKey : list Z) : exc (list (list Z)) :=
  match sums with
  | [] => ret []
  | s :: sums => s <- sub_masks s outPk; s <- subKeys s txnFeeKey; r <- mg_balances sums outPk txnFeeKey; ret (s :: r)
  end.

(** The keys of each column, and in the last row its commitments less the outputs
    and the fee. *)
Definition mg_matrix (pubs : list (list ctkey)) (outPk : list ctkey) (txnFeeKey : list Z) : exc (list (list (list Z))) :=
  sums <- mg_input_sums pubs;
  last <- mg_balances sums outPk txnFeeKey;
  ret (zip_with (fun col s => map dest col ++ [s]) pubs last).

Fixpoint add_scalars (acc : list Z) (l : list (list Z)) : option (list Z) :=
  match l with
  | [] => Some acc
  | k :: l => acc ← sc_add acc k; add_scalars acc l
  end.

Fixpoint sub_scalars (acc : list Z) (l : list (list Z)) : option (list Z) :=
  match l with
  | [] => Some acc
  | k :: l => acc ← sc_sub acc k; sub_scalars acc l
  end.

Definition proveRctMG (message : list Z) (pubs : list (list ctkey)) (inSk outSk outPk : list ctkey) (index : nat) (txnFeeKey : list Z) (draws : list (list Z))
    : exc (mgSig * list (list Z)) :=
  let cols := length pubs in
  _ <- throw_unless (1 <=? cols)%nat;
  let rows := length (default [] (pubs !! 0%nat)) in
  _ <- throw_unless (1 <=? rows)%nat;
  _ <- throw_unless (forallb (fun col => length col =? rows)%nat (tail pubs));
  _ <- throw_unless (length inSk =? rows)%nat;
  _ <- throw_unless (length outSk =? length outPk)%nat;
  sums <- mg_input_sums pubs;
  sk_last <- lift (add_scalars sc_0 (map ct_mask inSk));
  last <- mg_balances sums outPk txnFeeKey;
  sk_last <- lift (sub_scalars sk_last (map ct_mask outSk));
  MLSAG_Gen message (zip_with (fun col s => map dest col ++ [s]) pubs last) (map dest inSk ++ [sk_last]) index rows draws.

Definition verRctMG (mg : mgSig) (pubs : list (list ctkey)) (outPk : list ctkey) (txnFeeKey message : list Z) : exc bool :=
  let cols := length pubs in
  let rows := length (default [] (pubs !! 0%nat)) in
  if negb (1 <=? cols)%nat then ret false
  else if negb (1 <=? rows)%nat then ret false
  else if negb (forallb (fun col => length col =? rows)%nat (tail pubs)) then ret false
  else
    M <- mg_matrix pubs outPk txnFeeKey;
    MLSAG_Ver message M mg rows.

(** ** The ring equation *)

(** An entry of the matrix: its key and the point its key hashes to. *)
Record mrow := Mrow { mr_P : point; mr_HP : point }.

Definition mrow_ok (m : mrow) : Prop := hashes_to (encode (mr_P m)) (mr_HP m).

Definition column_keys (col : list mrow) : list (list Z) := map (fun m => encode (mr_P m)) col.

(** What a column with images [Is] adds to the hash. *)
Fixpoint mlsag_terms (Is : list point) (col : list mrow) (ss : list (list Z)) (c : Z) : list (list Z) :=
  match col, ss with
  | m :: col, s :: ss =>
      let L := (smul (le_value s) B + smul c (mr_P m))%G in
      match Is with
      | Ii :: Is => encode (mr_P m) :: encode L :: encode (smul (le_value s) (mr_HP m) + smul c Ii)%G :: mlsag_terms Is col ss c
      | [] => encode (mr_P m) :: encode L :: mlsag_terms [] col ss c
      end
  | _, _ => []
  end.

Definition mlsag_step (message : list Z) (Is : list point) (col : list mrow) (ss : list (list Z)) (c : Z) : Z :=
  Hs (concat (message :: mlsag_terms Is col ss c)).

Lemma mlsag_step_range message Is col ss c : 0 <= mlsag_step message Is col ss c < ell.
Proof. apply Hs_range. Qed.

(** Keys that stand for a column. *)
Definition is_column (keys : list (list Z)) (col : list mrow) : Prop := Forall mrow_ok col /\ keys = column_keys col.

Lemma column_unique keys col col' : is_column keys col -> is_column keys col' -> col = col'.
Proof.
  intros [H ->] [H' E]. revert col' H' E. induction H as [|m col Hm _ IH]; intros [|m' col'] H' E; try done. cbn [column_keys map] in E. apply cons_eq in E as [E1 E2].
  apply Forall_cons in H' as [Hm' H']. apply encode_inj in E1. f_equal; [|exact (IH col' H' E2)]. destruct m as [P HP], m' as [P' HP']. cbn [mr_P] in E1. subst P'. f_equal.
  exact (hashes_to_unique _ _ _ Hm Hm').
Qed.

Lemma column_points keys : (exists col, is_column keys col) <-> (exists pts, keys = map encode pts).
Proof.
  split.
  - intros (col & _ & ->). exists (map mr_P col). unfold column_keys. by rewrite map_map.
  - intros (pts & ->). induction pts as [|P pts (col & Hc & E)]; [by exists []|]. destruct (biased_hash_to_ec_ok (encode P)) as [HP H].
    exists (Mrow P HP :: col). split; [constructor; [exact H|exact Hc]|]. cbn [map column_keys]. rewrite E. reflexivity.
Qed.

Lemma column_dec keys : Forall is_key keys -> (exists col, is_column keys col) \/ (forall col, ~ is_column keys col).
Proof.
  intros Hk. destruct (points_dec keys Hk) as [H|H]; [left; by apply column_points|]. right. intros col Hc. apply H. apply column_points. by exists col.
Qed.

(** ** Rounds *)

Section Round.
Context (R_of : list Z -> list Z -> list Z -> list ge_cached -> exc (list Z)).

(** What the computation of [R] is for. *)
Definition computes_R : Prop := forall s m c Ip I, mrow_ok m -> reduced s -> reduced c -> odd_multiples cached_ok Ip I ->
  R_of s (encode (mr_P m)) c Ip = ret (encode (smul (le_value s) (mr_HP m) + smul (le_value c) I)%G).

Context (HR : computes_R).

Lemma mlsag_column_ok c col : reduced c -> Forall mrow_ok col -> forall Ip Is ss, Forall2 (odd_multiples cached_ok) Ip Is -> length ss = length col -> Forall reduced ss ->
  mlsag_column R_of c Ip (column_keys col) ss = ret (mlsag_terms Is col ss (le_value c)).
Proof.
  intros Hc. induction 1 as [|m col Hm _ IH]; intros Ip Is [|s ss] HI Hl Hs; try done. apply Forall_cons in Hs as [Hs Hss]. injection Hl as Hl.
  cbn [column_keys map mlsag_column mlsag_terms]. rewrite (addKeys2_ok s c _ Hs Hc), ebind_ret. fold (column_keys col). destruct HI as [|ip I Ip Is Hi HI].
  - rewrite (IH [] [] ss) by (constructor || done). rewrite ebind_ret. reflexivity.
  - rewrite (HR s m c ip I Hm Hs Hc Hi), ebind_ret, (IH Ip Is ss HI Hl Hss), ebind_ret. reflexivity.
Qed.

Lemma mlsag_round_ok message c col Ip Is ss : reduced c -> Forall mrow_ok col -> Forall2 (odd_multiples cached_ok) Ip Is -> length ss = length col -> Forall reduced ss ->
  mlsag_round R_of message Ip (column_keys col) ss c = ret (le_bytes 32 (mlsag_step message Is col ss (le_value c))).
Proof.
  intros Hc Hcol HI Hl Hs. unfold mlsag_round. rewrite (mlsag_column_ok c col Hc Hcol Ip Is ss HI Hl Hs), ebind_ret. unfold mlsag_hash. rewrite hash_to_scalar_keys_eq. reflexivity.
Qed.

(** A key that is no point. *)
Lemma mlsag_column_bad c keys : reduced c -> Forall is_key keys -> ~ (exists pts, keys = map encode pts) -> forall Ip Is ss, Forall2 (odd_multiples cached_ok) Ip Is ->
  length ss = length keys -> Forall reduced ss -> mlsag_column R_of c Ip keys ss = throw.
Proof.
  intros Hc Hk. induction Hk as [|k keys Hk _ IH]; intros Hn Ip Is ss HI Hl Hs; [destruct Hn; by exists []|]. destruct ss as [|s ss]; [done|].
  apply Forall_cons in Hs as [Hs Hss]. injection Hl as Hl. cbn [mlsag_column]. destruct (is_point_dec k Hk) as [[P ->]|Hk'].
  2:{ unfold addKeys2. rewrite (decode_throws _ Hk Hk'). reflexivity. }
  assert (~ (exists pts, keys = map encode pts)) as Hn' by (intros [pts ->]; apply Hn; by exists (P :: pts)).
  rewrite (addKeys2_ok s c _ Hs Hc), ebind_ret. destruct HI as [|ip I Ip Is Hi HI].
  - rewrite (IH Hn' [] [] ss) by (constructor || done). reflexivity.
  - destruct (biased_hash_to_ec_ok (encode P)) as [HP HH]. pose proof (HR s (Mrow P HP) c ip I HH Hs Hc Hi) as ER. cbn [mr_P mr_HP] in ER.
    rewrite ER, ebind_ret, (IH Hn' Ip Is ss HI Hl Hss). reflexivity.
Qed.
End Round.

Lemma R_gen_ok : computes_R mlsag_R_gen.
Proof.
  intros s m c Ip I Hm Hs Hc HI. unfold mlsag_R_gen. destruct (hash_to_p3_ok _ _ Hm) as (h & -> & Hh). rewrite ebind_lift, (p3_tobytes_eq _ _ Hh), ebind_lift.
  exact (addKeys3_ok s (mr_HP m) c Ip I Hs Hc HI).
Qed.

Lemma R_ver_ok : computes_R mlsag_R_ver.
Proof.
  intros s m c Ip I Hm Hs Hc HI. unfold mlsag_R_ver. destruct (hash_to_p3_ok _ _ Hm) as (h & -> & Hh). rewrite ebind_lift.
  rewrite (then_tobytes _ _ (two_precomp_ok s h _ c Ip I Hs Hc Hh HI)). reflexivity.
Qed.

(** ** Verification *)

Section Valid.
Context (message : list Z) (cols : list (list mrow)) (Is : list point).

(** What a signature has to satisfy: the chain from [cc] comes back to [cc]. *)
Definition valid_mlsag (ss : list (list (list Z))) (cc : list Z) (dsRows : nat) : Prop :=
  (2 <= length cols)%nat /\ length ss = length cols /\
  (exists rows, (1 <= rows)%nat /\ (dsRows <= rows)%nat /\ Forall (fun col => length col = rows) cols /\ Forall (fun s => length s = rows) ss) /\
  length Is = dsRows /\ Forall (fun P => P <> gzero) Is /\ Forall (Forall reduced) ss /\ reduced cc /\
  Forall (fun c => c <> 0) (ring_challenges (mlsag_step message Is) cols ss (le_value cc)) /\ ring_chain (mlsag_step message Is) cols ss (le_value cc) = le_value cc.
End Valid.

(** A signature over keys given by their bytes. *)
Definition mlsag_verifies (message : list Z) (pk : list (list (list Z))) (rv : mgSig) (dsRows : nat) : Prop :=
  exists cols Is, Forall2 is_column pk cols /\ mg_II rv = map encode Is /\ valid_mlsag message cols Is (mg_ss rv) (mg_cc rv) dsRows.

Definition mgSig_keys (rv : mgSig) : Prop := Forall (Forall is_key) (mg_ss rv) /\ is_key (mg_cc rv) /\ Forall is_key (mg_II rv).

Lemma mlsag_images_ok II : Forall is_key II ->
  (exists Is Ip, II = map encode Is /\ Forall (fun P => P <> gzero) Is /\ mlsag_images II = ret (Some Ip) /\ Forall2 (odd_multiples cached_ok) Ip Is) \/
  ((mlsag_images II = throw /\ ~ Forall is_point II \/ mlsag_images II = ret None) /\ ~ (exists Is, II = map encode Is /\ Forall (fun P => P <> gzero) Is)).
Proof.
  induction 1 as [|k II Hk _ IH]; cbn [mlsag_images].
  { left. exists [], []. split_and!; try done; constructor. }
  change identity with infinity. case_bool_decide as E0.
  { right. split; [by right|]. intros ([|P Is] & E & Hz); [done|]. cbn [map] in E. apply cons_eq in E as [E _]. apply Forall_cons in Hz as [Hz _]. apply Hz, encode_infinity. congruence. }
  destruct (is_point_dec k Hk) as [[P EP]|Hn].
  2:{ right. unfold precomp. rewrite (decode_throws _ Hk Hn). split; [left; split; [done|]; rewrite Forall_cons; by intros [? _]|]. intros ([|P Is] & E & _); [done|]. cbn [map] in E. apply cons_eq in E as [E _]. apply Hn. by exists P. }
  assert (P <> gzero) as HP by (intros ->; apply E0; rewrite EP; exact infinity_encode). rewrite EP. destruct (precomp_yields P) as (ip & -> & Hip). rewrite ebind_ret.
  destruct IH as [(Is & Ip & -> & Hz & -> & HI)|[Hbad Hno]].
  - left. exists (P :: Is), (ip :: Ip). split; [reflexivity|]. split; [by constructor|]. split; [reflexivity|by constructor].
  - right. split; [destruct Hbad as [[-> Hp] | ->]; [left|by right]; split; [done|]; rewrite Forall_cons; by intros [_ ?]|]. intros ([|Q Is] & E & Hz); [done|]. cbn [map] in E. apply cons_eq in E as [_ E]. apply Forall_cons in Hz as [_ Hz].
    apply Hno. by exists Is.
Qed.

Definition column_checked (keys ss : list (list Z)) : Prop := Forall is_key keys /\ length ss = length keys /\ Forall reduced ss.

Lemma mlsag_check_ok message Ip Is pk ss c : Forall2 (odd_multiples cached_ok) Ip Is -> Forall2 column_checked pk ss -> reduced c ->
  let r := ring_check (mlsag_ver_round message Ip) pk ss c in
  (exists l, nonzero_ring (mlsag_step message Is) is_column pk ss c l /\ r = ret (Some (le_bytes 32 (ring_chain (mlsag_step message Is) l ss (le_value c))))) \/
  ((r = throw /\ (forall l, ~ Forall2 is_column pk l) \/ r = ret None) /\ forall l, ~ nonzero_ring (mlsag_step message Is) is_column pk ss c l).
Proof.
  intros HI Hok Hc. refine (ring_check_ok _ (mlsag_step message Is) is_column column_checked (mlsag_step_range _ _) column_unique _ _ _ pk ss Hok c Hc).
  - intros keys s (Hk & _). exact (column_dec keys Hk).
  - intros keys s col c' (_ & Hl & Hs) [Hcol ->] Hc'. unfold mlsag_ver_round.
    rewrite (mlsag_round_ok _ R_ver_ok message c' col Ip Is s Hc' Hcol HI) by (done || (unfold column_keys in Hl; by rewrite length_map in Hl)). reflexivity.
  - intros keys s c' (Hk & Hl & Hs) Hn Hc'. left. unfold mlsag_ver_round, mlsag_round.
    rewrite (mlsag_column_bad _ R_ver_ok c' keys Hc' Hk) with (Is := Is); [reflexivity| |exact HI|exact Hl|exact Hs].
    intros H. apply column_points in H as [col Hcol]. exact (Hn col Hcol).
Qed.

Lemma forallb_lengths {A} n (l : list (list A)) : forallb (fun col => length col =? n)%nat l = true <-> Forall (fun col => length col = n) l.
Proof. rewrite forallb_forall, List.Forall_forall. setoid_rewrite Nat.eqb_eq. done. Qed.

Lemma all_columns_checked l : Forall (Forall is_key) l -> forallb (forallb (fun s => sc_check s =? 0)) l = true <-> Forall (Forall reduced) l.
Proof. induction 1 as [|s l Hs _ IH]; cbn [forallb]; [done|]. rewrite andb_true_iff, IH, Forall_cons, (all_checked s Hs). done. Qed.

(** All columns have as many rows as the first. *)
Lemma rectangular {A} (pk : list (list A)) n : (1 <= length pk)%nat -> Forall (fun col => length col = n) pk <-> length (default [] (pk !! 0%nat)) = n /\ Forall (fun col => length col = n) (tail pk).
Proof. intros Hl. destruct pk as [|col pk]; [cbn in Hl; lia|]. rewrite Forall_cons. reflexivity. Qed.

Lemma column_lengths pk cols n : Forall2 is_column pk cols -> Forall (fun col => length col = n) pk <-> Forall (fun col => length col = n) cols.
Proof.
  induction 1 as [|keys col pk cols [_ ->] _ IH]; [done|]. rewrite !Forall_cons, IH. unfold column_keys. by rewrite length_map.
Qed.

Lemma columns_checked pk ss n : Forall (Forall is_key) pk -> Forall (fun col => length col = n) pk -> length ss = length pk -> Forall (fun s => length s = n) ss -> Forall (Forall reduced) ss ->
  Forall2 column_checked pk ss.
Proof.
  intros Hk. revert ss. induction Hk as [|col pk Hc _ IH]; intros [|s ss] Hn Hl Hsl Hs; try done. apply Forall_cons in Hn as [Hn Hns], Hsl as [Hsl Hsls], Hs as [Hs Hss].
  constructor; [split_and!; [done|lia|done]|]. apply IH; [done|by injection Hl|done|done].
Qed.

(** A verifier that returns a bit that decides [V], or throws where [V] is false
    and [T] is true. *)
Definition settles (m : exc bool) (V T : Prop) : Prop := (exists b, m = ret b /\ (b = true <-> V)) \/ (m = throw /\ ~ V /\ T).

Lemma settles_false V T : ~ V -> settles (ret false) V T.
Proof. intros H. left. exists false. by split. Qed.

Lemma settles_decides m V T : settles m V T -> decides m V.
Proof. intros [(b & -> & H)|(-> & H & _)]; [by apply decides_ret|by apply decides_false; [left|]]. Qed.

Lemma columns_of_points pk : Forall (Forall is_point) pk -> exists l, Forall2 is_column pk l.
Proof.
  induction 1 as [|keys pk Hk _ (l & Hl)]; [by exists []|]. assert (exists pts, keys = map encode pts) as Hp.
  { clear -Hk. induction Hk as [|k keys [P ->] _ (pts & ->)]; [by exists []|by exists (P :: pts)]. }
  apply column_points in Hp as [col Hc]. exists (col :: l). by constructor.
Qed.

(** The checks before the points are looked at. *)
Definition mlsag_shape (pk : list (list (list Z))) (rv : mgSig) (dsRows : nat) : Prop :=
  let rows := length (default [] (pk !! 0%nat)) in
  (2 <= length pk)%nat /\ (1 <= rows)%nat /\ Forall (fun col => length col = rows) (tail pk) /\ length (mg_II rv) = dsRows /\ length (mg_ss rv) = length pk /\
  Forall (fun s => length s = rows) (mg_ss rv) /\ (dsRows <= rows)%nat /\ Forall (Forall reduced) (mg_ss rv) /\ reduced (mg_cc rv).

Section Verify.
Context (message : list Z) (pk : list (list (list Z))) (rv : mgSig) (dsRows : nat).
Context (Hpk : Forall (Forall is_key) pk) (Hrv : mgSig_keys rv).

#[local] Abbreviation rows := (length (default [] (pk !! 0%nat))).

(** Where it throws. *)
#[local] Abbreviation throws := (mlsag_shape pk rv dsRows /\ ~ (Forall is_point (mg_II rv) /\ Forall (Forall is_point) pk)).

Lemma mlsag_verifies_shape : mlsag_verifies message pk rv dsRows -> mlsag_shape pk rv dsRows.
Proof.
  intros (cols & Is & Hcols & EI & H2 & Hss & (n & H1 & Hds & Hn & Hsn) & HIs & _ & Hr & Hc & _). pose proof (Forall2_length _ _ _ Hcols) as Hlen.
  apply (column_lengths pk cols n Hcols) in Hn. apply rectangular in Hn as [En Hn]; [|lia]. unfold mlsag_shape. cbv zeta. rewrite En. split_and!; try done; [lia|by rewrite EI, length_map|lia].
Qed.

(** The verifier once they have passed. *)
Lemma MLSAG_Ver_points : mlsag_shape pk rv dsRows ->
  settles (Ip <- mlsag_images (mg_II rv);
           match Ip with
           | None => ret false
           | Some Ip =>
               c <- ring_check (mlsag_ver_round message Ip) pk (mg_ss rv) (mg_cc rv);
               match c with
               | None => ret false
               | Some c_old => c <- lift (sc_sub c_old (mg_cc rv)); ret (sc_isnonzero c =? 0)
               end
           end) (mlsag_verifies message pk rv dsRows) throws.
Proof.
  intros Hshape. pose proof Hshape as (H2 & H1 & Ht & HII & Hss & Hsl & Hds & Hr & Hc). destruct Hrv as (_ & _ & HIk). assert (Forall (fun col => length col = rows) pk) as Hn by (apply rectangular; [lia|by split]).
  destruct (mlsag_images_ok _ HIk) as [(Is & Ip & EI & Hz & -> & HI)|[Hbad Hno]].
  2:{ assert (~ mlsag_verifies message pk rv dsRows) as Hnv by (intros (cols & Is & _ & EI & _ & _ & _ & _ & Hz & _); apply Hno; by exists Is).
      destruct Hbad as [[-> Hp] | ->]; [right|by apply settles_false]. split; [done|]. split; [done|]. split; [done|]. by intros [? _]. }
  rewrite ebind_ret. pose proof (mlsag_check_ok message Ip Is pk (mg_ss rv) (mg_cc rv) HI (columns_checked _ _ _ Hpk Hn Hss Hsl Hr) Hc) as Hloop. cbv zeta in Hloop.
  assert (mlsag_verifies message pk rv dsRows <-> exists l, nonzero_ring (mlsag_step message Is) is_column pk (mg_ss rv) (mg_cc rv) l /\
    ring_chain (mlsag_step message Is) l (mg_ss rv) (le_value (mg_cc rv)) = le_value (mg_cc rv)) as Hiff.
  { split.
    - intros (cols & Is' & Hcols & EI' & _ & _ & _ & _ & _ & _ & _ & Hz' & Hch). rewrite EI in EI'. apply map_encode_inj in EI'. subst Is'. exists cols. by split.
    - intros (l & [Hm Hz'] & Hch). exists l, Is. split; [exact Hm|]. split; [exact EI|]. pose proof (Forall2_length _ _ _ Hm) as Hlen.
      split; [lia|]. split; [lia|]. split; [exists rows; split_and!; try done; by apply (column_lengths pk l)|].
      split; [by rewrite <- HII, EI, length_map|]. by split_and!. }
  destruct Hloop as [(l & Hv & ->)|[Hbad Hno]].
  - rewrite ebind_ret. assert (0 <= ring_chain (mlsag_step message Is) l (mg_ss rv) (le_value (mg_cc rv)) < ell) as Hchr
      by (apply ring_chain_range; [apply mlsag_step_range|by apply reduced_range]).
    destruct (challenge_bytes _ Hchr) as [Hcr Ecr]. destruct (sub_is_zero _ _ Hcr Hc) as [-> Hzero]. rewrite ebind_ret. left. eexists. split; [reflexivity|]. rewrite Hiff, Hzero, Ecr.
    split; [intros E; by exists l|]. intros (l' & (Hm' & _) & E). destruct Hv as (Hm & _). by rewrite (members_unique is_column column_unique pk l l' Hm Hm').
  - assert (~ mlsag_verifies message pk rv dsRows) as Hnv by (rewrite Hiff; intros (l & Hv & _); exact (Hno l Hv)).
    destruct Hbad as [[-> Hp] | ->]; [right|by apply settles_false]. split; [done|]. split; [done|]. split; [done|].
    intros [_ Hpt]. destruct (columns_of_points _ Hpt) as [l Hl]. exact (Hp l Hl).
Qed.

Lemma MLSAG_Ver_settles : settles (MLSAG_Ver message pk rv dsRows) (mlsag_verifies message pk rv dsRows) throws.
Proof.
  pose proof mlsag_verifies_shape as Hshape. unfold mlsag_shape in Hshape. cbv zeta in Hshape. destruct Hrv as (Hsk & Hck & _). unfold MLSAG_Ver. cbv zeta.
  destruct (Nat.leb_spec 2 (length pk)) as [H2|H2]; cbn [negb]; [|apply settles_false; intros Hv; apply Hshape in Hv; lia].
  destruct (Nat.leb_spec 1 rows) as [H1|H1]; cbn [negb]; [|apply settles_false; intros Hv; apply Hshape in Hv; lia].
  destruct (forallb (fun col => length col =? rows)%nat (tail pk)) eqn:E3; cbn [negb].
  2:{ apply settles_false. intros (_ & _ & Hv & _)%Hshape. apply forallb_lengths in Hv. congruence. }
  destruct (Nat.eqb_spec (length (mg_II rv)) dsRows) as [H4|H4]; cbn [negb]; [|apply settles_false; intros (_ & _ & _ & Hv & _)%Hshape; done].
  destruct (Nat.eqb_spec (length (mg_ss rv)) (length pk)) as [H5|H5]; cbn [negb]; [|apply settles_false; intros (_ & _ & _ & _ & Hv & _)%Hshape; done].
  destruct (forallb (fun col => length col =? rows)%nat (mg_ss rv)) eqn:E6; cbn [negb].
  2:{ apply settles_false. intros (_ & _ & _ & _ & _ & Hv & _)%Hshape. apply forallb_lengths in Hv. congruence. }
  destruct (Nat.leb_spec dsRows rows) as [H7|H7]; cbn [negb]; [|apply settles_false; intros Hv; apply Hshape in Hv; lia].
  destruct (forallb (forallb _) (mg_ss rv)) eqn:E8; cbn [negb].
  2:{ apply settles_false. intros (_ & _ & _ & _ & _ & _ & _ & Hv & _)%Hshape. apply (all_columns_checked _ Hsk) in Hv. congruence. }
  rewrite reduced_check by done. case_bool_decide as H9; cbn [negb].
  2:{ apply settles_false. intros (_ & _ & _ & _ & _ & _ & _ & _ & [_ Hv])%Hshape. done. }
  apply forallb_lengths in E3, E6. apply (all_columns_checked _ Hsk) in E8. apply MLSAG_Ver_points. by split_and!.
Qed.
Lemma MLSAG_Ver_ok : decides (MLSAG_Ver message pk rv dsRows) (mlsag_verifies message pk rv dsRows).
Proof. exact (settles_decides _ _ _ MLSAG_Ver_settles). Qed.
End Verify.

(** ** Generation *)

(** The images of the linkable rows of the signer, and what its rows hash. *)
Fixpoint image_points (ds : nat) (col : list mrow) (xx : list (list Z)) : list point :=
  match ds, col, xx with
  | S ds, m :: col, x :: xx => smul (le_value x) (mr_HP m) :: image_points ds col xx
  | _, _, _ => []
  end.

Fixpoint first_terms (ds : nat) (col : list mrow) (alpha : list (list Z)) : list (list Z) :=
  match col, alpha with
  | m :: col, a :: alpha =>
      match ds with
      | S ds => encode (mr_P m) :: encode (smul (le_value a) B) :: encode (smul (le_value a) (mr_HP m)) :: first_terms ds col alpha
      | O => encode (mr_P m) :: encode (smul (le_value a) B) :: first_terms O col alpha
      end
  | _, _ => []
  end.

Fixpoint responses (c : Z) (xx alpha : list (list Z)) : list (list Z) :=
  match xx, alpha with
  | x :: xx, a :: alpha => le_bytes 32 ((le_value a - c * le_value x) mod ell) :: responses c xx alpha
  | _, _ => []
  end.

(** The signer knows the secrets of its column. *)
Definition knows (m : mrow) (x : list Z) : Prop := mrow_ok m /\ reduced x /\ mr_P m = smul (le_value x) B.

Lemma skpkGen_ok d a d' : skGen d = Some (a, d') -> reduced a -> skpkGen d = Some (a, encode (smul (le_value a) B), d').
Proof. intros E Ha. unfold skpkGen. rewrite E, bind_some, scalarmultBase_ok, bind_some by apply Ha. reflexivity. Qed.

Lemma mlsag_init_ok col xx : Forall2 knows col xx -> forall ds ks d rest, length ks = length col -> draws_to ks d rest -> Forall is_key d ->
  exists Ip, mlsag_init ds (column_keys col) xx d = ret (ks, map encode (image_points ds col xx), Ip, first_terms ds col ks, rest) /\
    Forall2 (odd_multiples cached_ok) Ip (image_points ds col xx).
Proof.
  induction 1 as [|m x col xx (Hm & Hx & EP) _ IH]; intros ds [|a ks] d rest Hl Hd Hdk; try done.
  { inversion Hd; subst. exists []. split; [by destruct ds|by destruct ds; constructor]. }
  destruct (draw_one _ _ _ _ Hd Hdk) as (d1 & Ed & Ha & Hk1 & Hd1). cbn [column_keys map mlsag_init]. fold (column_keys col). destruct ds as [|ds].
  - rewrite (skpkGen_ok _ _ _ Ed Ha), ebind_lift. destruct (IH 0%nat ks d1 rest ltac:(by injection Hl) Hd1 Hk1) as (Ip & -> & HI). rewrite ebind_ret. exists Ip. split; [reflexivity|exact HI].
  - destruct (hash_to_p3_ok _ _ Hm) as (h & -> & Hh). rewrite ebind_lift, (p3_tobytes_eq _ _ Hh), ebind_lift.
    unfold mlsag_prepare. rewrite (skpkGen_ok _ _ _ Ed Ha), ebind_lift, (scalarmultKey_ok _ _ Ha), ebind_ret, (scalarmultKey_ok _ _ Hx), ebind_ret, ebind_ret.
    destruct (precomp_yields (smul (le_value x) (mr_HP m))) as (ip & -> & Hip). rewrite ebind_ret.
    destruct (IH ds ks d1 rest ltac:(by injection Hl) Hd1 Hk1) as (Ip & -> & HI). rewrite ebind_ret. exists (ip :: Ip). split; [reflexivity|]. constructor; [exact Hip|exact HI].
Qed.

(** The responses of the signer bring back what was hashed first. *)
Lemma responses_close c col xx : Forall2 knows col xx -> forall ds ks, length ks = length col ->
  mlsag_terms (image_points ds col xx) col (responses c xx ks) c = first_terms ds col ks.
Proof.
  induction 1 as [|m x col xx (Hm & Hx & EP) _ IH]; intros ds [|a ks] Hl; try done. injection Hl as Hl. cbn [responses mlsag_terms first_terms].
  assert (forall Q, in_subgroup Q -> (smul ((le_value a - c * le_value x) mod ell) Q + smul c (smul (le_value x) Q) = smul (le_value a) Q)%G) as Hq.
  { intros Q HQ. rewrite gadd_comm. exact (response_cancels c (le_value x) (le_value a) Q HQ). }
  assert (in_subgroup (mr_HP m)) as HH by (destruct Hm as (_ & _ & _ & H); exact H).
  rewrite mod_value, EP, (Hq B base_subgroup). destruct ds as [|ds]; cbn [image_points].
  - specialize (IH 0%nat ks Hl). destruct col, xx; cbn [image_points] in IH; by rewrite IH.
  - rewrite (Hq _ HH), (IH ds ks Hl). reflexivity.
Qed.

Lemma mlsag_responses_ok c xx : reduced c -> Forall reduced xx -> forall alpha, length alpha = length xx -> Forall reduced alpha ->
  mlsag_responses c xx alpha = Some (responses (le_value c) xx alpha).
Proof.
  intros Hc. induction 1 as [|x xx Hx _ IH]; intros [|a alpha] Hl Ha; try done. apply Forall_cons in Ha as [Ha Has]. cbn [mlsag_responses responses].
  rewrite sc_mulsub_eq, bind_some, (IH alpha ltac:(by injection Hl) Has), bind_some by (apply Hc || apply Hx || apply Ha). reflexivity.
Qed.

Lemma responses_reduced c xx alpha : Forall reduced (responses c xx alpha).
Proof. revert alpha. induction xx as [|x xx IH]; intros [|a alpha]; cbn [responses]; constructor; [apply mod_reduced|apply IH]. Qed.

Lemma length_responses c xx alpha : length alpha = length xx -> length (responses c xx alpha) = length xx.
Proof. revert alpha. induction xx as [|x xx IH]; intros [|a alpha] Hl; try done. cbn [responses length]. f_equal. apply IH. by injection Hl. Qed.

(** The responses of a member: a scalar for each row. *)
Definition takes_rows (rows : nat) (ss : list (list Z)) (d d' : list (list Z)) : Prop := length ss = rows /\ draws_to ss d d'.

Lemma skvGen_loop_ok ss d d' : draws_to ss d d' -> skvGen_loop (length ss) d = Some (ss, d').
Proof. induction 1 as [|k ks d d' rest E _ IH]; [done|]. cbn [length skvGen_loop]. unfold skGen, random_scalar in *. rewrite E, bind_some, IH, bind_some. reflexivity. Qed.

Lemma skvGen_takes rows ss d d' : (1 <= rows)%nat -> takes_rows rows ss d d' -> Forall is_key d -> skvGen rows d = ret (ss, d') /\ (length ss = rows /\ Forall reduced ss) /\ Forall is_key d'.
Proof.
  intros Hr [Hl Hd] Hdk. destruct (draws_to_keys _ _ _ Hd Hdk) as [Hk Hd']. split; [|split; [split; [exact Hl|exact (Forall_impl _ _ _ Hk (fun _ H => proj1 H))]|exact Hd']].
  unfold skvGen. rewrite throw_unless_true, ebind_ret by (apply Nat.ltb_lt; lia). rewrite <- Hl, (skvGen_loop_ok _ _ _ Hd). reflexivity.
Qed.

Lemma draws_rows rows n : forall ks d rest, draws_to ks d rest -> length ks = (n * rows)%nat -> exists sss, length sss = n /\ takes_all (takes_rows rows) sss d rest.
Proof.
  induction n as [|n IH]; intros ks d rest Hd Hl.
  { destruct ks; [|done]. inversion Hd; subst. exists []. split; [done|constructor]. }
  rewrite <- (take_drop rows ks) in Hd. apply draws_to_app in Hd as (d1 & Hd1 & Hd2). destruct (IH (drop rows ks) d1 rest Hd2) as (sss & Hn & Ht); [rewrite length_drop; lia|].
  exists (take rows ks :: sss). split; [cbn [length]; by rewrite Hn|]. econstructor; [|exact Ht]. split; [rewrite length_take; lia|exact Hd1].
Qed.

Lemma matrix_row (ring : list (list mrow)) i col : ring !! i = Some col -> default [] (map column_keys ring !! i) = column_keys col.
Proof. intros E. rewrite list_lookup_fmap, E. reflexivity. Qed.

Lemma knows_reduced col xx : Forall2 knows col xx -> Forall reduced xx.
Proof. induction 1 as [|m x c l (_ & Hx & _) _ IH]; [constructor|]. constructor; [exact Hx|exact IH]. Qed.

Section Gen.
Context (message : list Z) (pre post : list (list mrow)) (col : list mrow) (xx : list (list Z)) (ds : nat).

#[local] Abbreviation ring := (pre ++ col :: post).
#[local] Abbreviation rows := (length col).
#[local] Abbreviation Is := (image_points ds col xx).
#[local] Abbreviation step := (mlsag_step message Is).

Context (H2 : (2 <= length ring)%nat) (H1 : (1 <= rows)%nat) (Hds : (ds <= rows)%nat) (Hok : Forall (Forall mrow_ok) ring) (Hlen : Forall (fun c => length c = rows) ring).
Context (Hknow : Forall2 knows col xx).

Lemma gen_throws {A} (k : exc A) :
  (_ <- throw_unless (2 <=? length (map column_keys ring))%nat;
   _ <- throw_unless (length pre <? length (map column_keys ring))%nat;
   _ <- throw_unless (1 <=? length (default [] (map column_keys ring !! 0%nat)))%nat;
   _ <- throw_unless (forallb (fun c => length c =? length (default [] (map column_keys ring !! 0%nat)))%nat (tail (map column_keys ring)));
   _ <- throw_unless (length xx =? length (default [] (map column_keys ring !! 0%nat)))%nat;
   _ <- throw_unless (ds <=? length (default [] (map column_keys ring !! 0%nat)))%nat; k) = k /\ length (default [] (map column_keys ring !! 0%nat)) = rows.
Proof.
  assert (Forall (fun c => length c = rows) (map column_keys ring)) as Hn.
  { apply Forall_map. eapply Forall_impl; [exact Hlen|]. cbn beta. intros c Hc. unfold column_keys. by rewrite length_map. }
  apply rectangular in Hn as [E0 Ht]; [|rewrite length_map; lia]. split; [|exact E0]. rewrite E0, length_map.
  assert (length xx = rows) as Ex by (symmetry; exact (Forall2_length _ _ _ Hknow)).
  rewrite !throw_unless_true, !ebind_ret; [reflexivity|by apply Nat.leb_le|by apply Nat.eqb_eq|by apply forallb_lengths|by apply Nat.leb_le| |by apply Nat.leb_le].
  apply Nat.ltb_lt. rewrite length_app. cbn [length]. lia.
Qed.

Lemma gen_round_ok Ip : Forall2 (odd_multiples cached_ok) Ip Is -> forall i c ss x, ring !! i = Some c -> length ss = rows /\ Forall reduced ss -> reduced x ->
  mlsag_round mlsag_R_gen message Ip (default [] (map column_keys ring !! i)) ss x = ret (le_bytes 32 (step c ss (le_value x))).
Proof.
  intros HI i c ss x Ei [Hl Hs] Hx. rewrite (matrix_row _ _ _ Ei). apply (mlsag_round_ok _ R_gen_ok message x c Ip Is ss Hx); [exact (Forall_lookup_1 _ _ _ _ Hok Ei)|exact HI| |exact Hs].
  rewrite Hl. symmetry. exact (Forall_lookup_1 _ _ _ _ Hlen Ei).
Qed.

Lemma MLSAG_Gen_ok ks draws rest : draws_to ks draws rest -> length ks = (length ring * rows)%nat -> Forall is_key draws ->
  exists rv, MLSAG_Gen message (map column_keys ring) xx (length pre) ds draws = ret (rv, rest) /\ mg_II rv = map encode Is /\
    length (mg_ss rv) = length ring /\ Forall (fun s => length s = rows) (mg_ss rv) /\ Forall (Forall reduced) (mg_ss rv) /\ reduced (mg_cc rv) /\
    ring_chain step ring (mg_ss rv) (le_value (mg_cc rv)) = le_value (mg_cc rv).
Proof.
  intros Hd Hks Hdk. assert (length ring = (length pre + S (length post))%nat) as Ln by (rewrite length_app; reflexivity).
  assert (length ks = (rows + (length post + length pre) * rows)%nat) as Lk by (rewrite Hks, Ln; lia).
  rewrite <- (take_drop rows ks) in Hd. apply draws_to_app in Hd as (d1 & Hd1 & Hd2). set (alpha := take rows ks) in *. assert (length alpha = rows) as La by (unfold alpha; rewrite length_take; lia).
  pose proof (draws_to_keys _ _ _ Hd1 Hdk) as [Hka Hdk1]. assert (Forall reduced alpha) as Har by exact (Forall_impl _ _ _ Hka (fun _ H => proj1 H)).
  destruct (draws_rows rows (length post + length pre) _ _ _ Hd2 ltac:(rewrite length_drop; lia)) as (sss & Lsss & Ht).
  rewrite <- (take_drop (length post) sss) in Ht. set (k1 := take (length post) sss) in *. set (k2 := drop (length post) sss) in *.
  assert (length k1 = length post) as L1 by (unfold k1; rewrite length_take; lia). assert (length k2 = length pre) as L2 by (unfold k2; rewrite length_drop; lia).
  unfold MLSAG_Gen. cbv zeta. match goal with |- context [ebind (throw_unless _) (fun _ => ebind (throw_unless _) (fun _ => ebind (throw_unless _) (fun _ => ebind (throw_unless _)
    (fun _ => ebind (throw_unless _) (fun _ => ebind (throw_unless _) (fun _ => ?k))))))] => destruct (gen_throws k) as [-> Erows] end.
  assert (ring !! length pre = Some col) as Ecol by (by apply list_lookup_middle). rewrite Erows, (matrix_row _ _ _ Ecol), length_map.
  destruct (mlsag_init_ok col xx Hknow ds alpha draws d1 La Hd1 Hdk) as (Ip & -> & HI). rewrite ebind_ret. unfold mlsag_hash. rewrite hash_to_scalar_keys_eq, ebind_lift.
  set (data := concat (message :: first_terms ds col alpha)). destruct (Hs_key data) as [Hc Ec].
  pose proof (walk_members_ok (skvGen rows) (fun i ss c => mlsag_round mlsag_R_gen message Ip (default [] (map column_keys ring !! i)) ss c) step
    (fun ss => length ss = rows /\ Forall reduced ss) (takes_rows rows) pre col post (replicate rows zero) (le_bytes 32 (Hs data)) d1 k1 k2 rest
    (fun ss d d' => skvGen_takes rows ss d d' H1)) as Hw. cbv zeta in Hw.
  rewrite Hw; clear Hw; [|exact (gen_round_ok Ip HI)|apply mlsag_step_range|exact L1|exact L2|exact Ht|exact Hdk1|exact Hc].
  rewrite ebind_ret. cbn [ws_c ws_c1 ws_s ws_draws]. rewrite Ec. set (c1 := ring_chain step post k1 (Hs data)). set (cl := ring_chain step pre k2 c1).
  assert (0 <= c1 < ell) as Hc1 by (apply ring_chain_range; [apply mlsag_step_range|apply Hs_range]). assert (0 <= cl < ell) as Hcl by (by apply ring_chain_range; [apply mlsag_step_range|]).
  destruct (challenge_bytes _ Hc1) as [Hc1r Ec1], (challenge_bytes _ Hcl) as [Hclr Ecl].
  assert (length xx = rows) as Ex by (symmetry; exact (Forall2_length _ _ _ Hknow)).
  assert (mlsag_sign (le_bytes 32 cl) xx alpha rows ds (default [] ((k2 ++ replicate rows zero :: k1) !! length pre)) = ret (responses cl xx alpha)) as ->.
  { unfold mlsag_sign. rewrite <- L2, list_lookup_middle by reflexivity. change (default [] (Some ?a)) with a. rewrite length_replicate, Ex, La.
    rewrite !throw_unless_true, !ebind_ret by (apply Nat.eqb_refl || by apply Nat.leb_le). rewrite (mlsag_responses_ok _ _ Hclr) by (done || lia || exact (knows_reduced _ _ Hknow)). by rewrite Ecl. }
  rewrite ebind_ret, ebind_lift. rewrite <- L2, insert_app_r_alt, Nat.sub_diag by lia. change (<[0%nat := ?a]> (?b :: ?r)) with (a :: r).
  eexists. split; [reflexivity|]. cbn [mg_II mg_ss mg_cc]. pose proof (takes_ok _ _ _ (fun ss d d' => skvGen_takes rows ss d d' H1) _ _ _ Ht Hdk1) as [Hss _]. apply Forall_app in Hss as [Hs1 Hs2].
  split; [reflexivity|]. split; [rewrite !length_app; cbn [length]; lia|].
  split; [apply Forall_app; split; [exact (Forall_impl _ _ _ Hs2 (fun _ H => proj1 H))|constructor; [rewrite length_responses; lia|exact (Forall_impl _ _ _ Hs1 (fun _ H => proj1 H))]]|].
  split; [apply Forall_app; split; [exact (Forall_impl _ _ _ Hs2 (fun _ H => proj2 H))|constructor; [apply responses_reduced|exact (Forall_impl _ _ _ Hs1 (fun _ H => proj2 H))]]|].
  split; [exact Hc1r|]. rewrite Ec1, ring_chain_app by done. fold cl. cbn [ring_chain].
  assert (step col (responses cl xx alpha) cl = Hs data) as -> by (unfold mlsag_step; rewrite (responses_close cl col xx Hknow ds alpha La); reflexivity). reflexivity.
Qed.
End Gen.

(** A generated signature is accepted unless an image is the identity or a
    challenge zero. *)
Lemma mlsag_generated message pre col post xx ds ks draws rest :
  let ring := pre ++ col :: post in let rows := length col in let Is := image_points ds col xx in
  (2 <= length ring)%nat -> (1 <= rows)%nat -> (ds <= rows)%nat -> Forall (Forall mrow_ok) ring -> Forall (fun c => length c = rows) ring -> Forall2 knows col xx ->
  draws_to ks draws rest -> length ks = (length ring * rows)%nat -> Forall is_key draws ->
  exists rv, MLSAG_Gen message (map column_keys ring) xx (length pre) ds draws = ret (rv, rest) /\ mg_II rv = map encode Is /\
    ring_chain (mlsag_step message Is) ring (mg_ss rv) (le_value (mg_cc rv)) = le_value (mg_cc rv) /\
    (catch_false (MLSAG_Ver message (map column_keys ring) rv ds) = Some true <->
     Forall (fun P => P <> gzero) Is /\ Forall (fun c => c <> 0) (ring_challenges (mlsag_step message Is) ring (mg_ss rv) (le_value (mg_cc rv)))).
Proof.
  intros ring rows Is H2 H1 Hds Hok Hlen Hknow Hd Hks Hdk.
  destruct (MLSAG_Gen_ok message pre post col xx ds H2 H1 Hds Hok Hlen Hknow ks draws rest Hd Hks Hdk) as (rv & Eg & EI & Ls & Hsl & Hsr & Hc & Hch).
  exists rv. split; [exact Eg|]. split; [exact EI|]. split; [exact Hch|].
  assert (Forall2 is_column (map column_keys ring) ring) as Hcols.
  { clear -Hok. induction Hok as [|c l Hc _ IH]; cbn [map]; constructor; [by split|exact IH]. }
  assert (Forall (Forall is_key) (map column_keys ring)) as Hpk by (apply Forall_map, Forall_true; intros c; apply Forall_map, Forall_true; intros m; apply encode_key).
  assert (mgSig_keys rv) as Hrv.
  { split; [eapply Forall_impl; [exact Hsr|]; cbn beta; intros s Hs; exact (Forall_impl _ _ _ Hs (fun _ H => proj1 H))|]. split; [apply Hc|].
    rewrite EI. apply Forall_map, Forall_true. intros P. apply encode_key. }
  destruct (MLSAG_Ver_ok message (map column_keys ring) rv ds Hpk Hrv) as (b & -> & Hb). transitivity (b = true); [split; [by injection 1|by intros ->]|]. rewrite Hb.
  assert (length Is = ds) as LI.
  { unfold Is. assert (length xx = rows) as Ex by (symmetry; exact (Forall2_length _ _ _ Hknow)). clear -Hds Ex. unfold rows in *. revert xx ds Hds Ex.
    induction col as [|m col IH]; intros [|x xx] [|ds] Hds Ex; cbn in *; try done; try lia. f_equal. apply IH; lia. }
  split.
  - intros (cols & Is' & Hc' & EI' & _ & _ & _ & _ & Hz & _ & _ & Hnz & _). rewrite EI in EI'. apply map_encode_inj in EI'. subst Is'.
    rewrite (members_unique is_column column_unique _ _ _ Hcols Hc'). by split.
  - intros [Hz Hnz]. exists ring, Is. split; [exact Hcols|]. split; [exact EI|]. split; [exact H2|]. split; [exact Ls|]. split; [exists rows; by split_and!|]. by split_and!.
Qed.

(** *** Matrices with a row of balances *)

Section Balance.
Context (f : list rmember -> point).

(** The keys of the members of a column, then its balance. *)
Definition balance_column (ms : list rmember) : list (list Z) := map (fun m => encode (rm_P m)) ms ++ [encode (f ms)].

Definition member_rows (ms : list rmember) : list mrow := map (fun m => Mrow (rm_P m) (rm_HP m)) ms.

Lemma balance_columns l : Forall (Forall rmember_ok) l -> exists cols, map column_keys cols = map balance_column l /\ Forall (Forall mrow_ok) cols /\ length cols = length l /\
  (forall i ms, l !! i = Some ms -> exists HP', cols !! i = Some (member_rows ms ++ [Mrow (f ms) HP'])).
Proof.
  induction 1 as [|ms l Hm _ (cols & E & Hok & Hl & Hi)]; [exists []; split_and!; try done; constructor|].
  destruct (biased_hash_to_ec_ok (encode (f ms))) as [HP' HH]. exists ((member_rows ms ++ [Mrow (f ms) HP']) :: cols). split.
  { cbn [map]. rewrite E. f_equal. unfold column_keys, balance_column, member_rows. rewrite map_app, map_map. reflexivity. }
  split; [constructor; [apply Forall_app; split; [by apply Forall_map|constructor; [exact HH|constructor]]|exact Hok]|].
  split; [cbn [length]; by rewrite Hl|]. intros [|i] ms' Em; [|exact (Hi i ms' Em)]. injection Em as <-. by exists HP'.
Qed.

(** The key images of the signer. *)
Fixpoint key_images (ms : list rmember) (xx : list (list Z)) : list point :=
  match ms, xx with
  | m :: ms, x :: xx => smul (le_value x) (rm_HP m) :: key_images ms xx
  | _, _ => []
  end.

Definition owns (m : rmember) (x : list Z) : Prop := rmember_ok m /\ reduced x /\ rm_P m = smul (le_value x) B.

Lemma owns_knows ms xx HP' z : Forall2 owns ms xx -> reduced z -> f ms = smul (le_value z) B -> hashes_to (encode (f ms)) HP' ->
  Forall2 knows (member_rows ms ++ [Mrow (f ms) HP']) (xx ++ [z]) /\ image_points (length ms) (member_rows ms ++ [Mrow (f ms) HP']) (xx ++ [z]) = key_images ms xx.
Proof.
  intros Ho Hz Ef HH. split.
  - apply Forall2_app; [|constructor; [split; [exact HH|split; [exact Hz|exact Ef]]|constructor]]. clear Ef HH.
    induction Ho as [|m x ms' xx' (Hm & Hx & E) _ IH]; cbn [member_rows map]; constructor; [split; [exact Hm|split; [exact Hx|exact E]]|exact IH].
  - clear Ef HH. generalize (f ms). intros Q. induction Ho as [|m x ms' xx' _ _ IH]; [reflexivity|]. cbn [member_rows map app length image_points key_images]. f_equal. exact IH.
Qed.

(** The signature for a column whose balance the signer can open. *)
Lemma balance_complete message pre ms post xx z ks draws rest :
  let l := pre ++ ms :: post in let r := length ms in
  (2 <= length l)%nat -> (1 <= r)%nat -> Forall (Forall rmember_ok) l -> Forall (fun c => length c = r) l ->
  Forall2 owns ms xx -> reduced z -> f ms = smul (le_value z) B ->
  draws_to ks draws rest -> length ks = (length l * (r + 1))%nat -> Forall is_key draws ->
  exists rv cols, MLSAG_Gen message (map balance_column l) (xx ++ [z]) (length pre) r draws = ret (rv, rest) /\ mg_II rv = map encode (key_images ms xx) /\
    Forall2 is_column (map balance_column l) cols /\
    ring_chain (mlsag_step message (key_images ms xx)) cols (mg_ss rv) (le_value (mg_cc rv)) = le_value (mg_cc rv) /\
    (catch_false (MLSAG_Ver message (map balance_column l) rv r) = Some true <->
     Forall (fun P => P <> gzero) (key_images ms xx) /\ Forall (fun c => c <> 0) (ring_challenges (mlsag_step message (key_images ms xx)) cols (mg_ss rv) (le_value (mg_cc rv)))).
Proof.
  intros l r H2 H1 Hok Hlen Ho Hz Ef Hd Hks Hdk. destruct (balance_columns l Hok) as (cols & Ecols & Hcok & Lc & Hat).
  assert (l !! length pre = Some ms) as Em by (by apply list_lookup_middle). destruct (Hat _ _ Em) as [HP' Ecol]. set (col := member_rows ms ++ [Mrow (f ms) HP']) in *.
  assert (length col = (r + 1)%nat) as Lcol by (unfold col, member_rows; rewrite length_app, length_map; reflexivity).
  assert (Forall (fun c => length c = length col) cols) as Hcl.
  { rewrite Lcol. apply Forall_lookup_2. intros i c Ei. destruct (lookup_lt_is_Some_2 l i) as [ms' Ei']; [rewrite <- Lc; by eapply lookup_lt_Some|].
    destruct (Hat i ms' Ei') as [HP2 Ei2]. rewrite Ei in Ei2. injection Ei2 as ->. unfold member_rows. rewrite length_app, length_map. cbn [length]. pose proof (Forall_lookup_1 _ _ _ _ Hlen Ei'). cbn beta in *. lia. }
  assert (hashes_to (encode (f ms)) HP') as HH.
  { pose proof (Forall_lookup_1 _ _ _ _ Hcok Ecol) as Hc. apply Forall_app in Hc as [_ Hc]. by apply Forall_cons in Hc as [Hc _]. }
  destruct (owns_knows ms xx HP' z Ho Hz Ef HH) as [Hk EI]. fold col r in Hk, EI.
  rewrite <- (take_drop_middle cols _ col Ecol) in *. set (cpre := take (length pre) cols) in *. set (cpost := drop (S (length pre)) cols) in *.
  assert (length (cpre ++ col :: cpost) = length l) as Lr by exact Lc.
  assert (length cpre = length pre) as Lp by (unfold cpre; rewrite length_take; unfold l in Lr; rewrite !length_app in Lr; cbn [length] in Lr; unfold cpre, cpost in Lr; rewrite length_take, length_drop in Lr; lia).
  destruct (mlsag_generated message cpre col cpost (xx ++ [z]) r ks draws rest ltac:(lia) ltac:(lia) ltac:(lia) Hcok Hcl Hk Hd ltac:(rewrite Hks; lia) Hdk) as (rv & Eg & EII & Hch & Hv).
  rewrite EI, Lp, Ecols in *. exists rv, (cpre ++ col :: cpost). split; [exact Eg|]. split; [exact EII|]. split; [|split; [exact Hch|exact Hv]].
  rewrite <- Ecols. clear -Hcok. induction Hcok as [|c cs Hc _ IH]; cbn [map]; constructor; [by split|exact IH].
Qed.
End Balance.

(** *** One input *)

Definition offset_balance (Coff : point) (ms : list rmember) : point := match ms with m :: _ => (rm_C m - Coff)%G | [] => gzero end.

Definition simple_matrix (Coff : point) (l : list rmember) : list (list (list Z)) := map (balance_column (offset_balance Coff)) (map (fun m => [m]) l).

Lemma mg_simple_matrix_ok Coff l : mg_simple_matrix (map rmember_ctkey l) (encode Coff) = ret (simple_matrix Coff l).
Proof.
  induction l as [|m l IH]; [reflexivity|]. cbn [map mg_simple_matrix]. change (ct_mask (rmember_ctkey m)) with (encode (rm_C m)). rewrite subKeys_ok, ebind_ret, IH, ebind_ret. reflexivity.
Qed.

Lemma ver_simple_matrix_ok Coff cached l : cached_ok cached Coff -> ver_simple_matrix (map rmember_ctkey l) cached = Some (Some (simple_matrix Coff l)).
Proof.
  intros Hc. induction l as [|m l IH]; [reflexivity|]. cbn [map ver_simple_matrix]. change (ct_mask (rmember_ctkey m)) with (encode (rm_C m)).
  destruct (decode_yields (rm_C m)) as (p & -> & Hp). unfold ret. rewrite bind_some. destruct (ge_sub_ok _ _ _ _ Hp Hc) as (d & -> & Hd). rewrite bind_some.
  destruct (ge_p1p1_to_p3_ok _ _ Hd) as (d3 & -> & Hd3). rewrite bind_some, (p3_tobytes_eq _ _ Hd3), bind_some, IH, bind_some. reflexivity.
Qed.

Lemma verRctMGSimple_eq message mg l Coff : l <> [] -> verRctMGSimple message mg (map rmember_ctkey l) (encode Coff) = catch_false (MLSAG_Ver message (simple_matrix Coff l) mg 1).
Proof.
  intros Hl. unfold verRctMGSimple, verRctMGSimple_try. rewrite length_map. destruct (Nat.leb_spec 1 (length l)) as [H|H]; [|destruct l; [done|cbn in H; lia]]. cbn [negb].
  destruct (decode_yields Coff) as (p & -> & Hp). unfold ret at 1. rewrite ebind_lift. destruct (ge_p3_to_cached_ok _ _ Hp) as (c & -> & Hc). rewrite ebind_lift.
  rewrite (ver_simple_matrix_ok Coff c l Hc), ebind_lift. reflexivity.
Qed.

(** The signature of one input, in the form before CLSAG.  Let a ring of at
    least two members hold at any place the output with one-time secret [p] and
    mask [a] of the amount [x], and let the pseudo output commit to the same amount
    with mask [b].  Once the random numbers give two scalars for each member,
    [proveRctMGSimple] returns a signature with the key image [p Hp(P)] whose chain of
    challenges closes, and [verRctMGSimple] accepts it exactly when the image is not
    the identity and no challenge is zero.  A ring of a single member is refused by
    throwing. *)
Theorem mg_simple_complete message p a b x pre post HP ks draws rest :
  let m := Rmember (smul (le_value p) B) (pedersen (le_value a) x) HP in
  let ring := pre ++ m :: post in
  let Coff := pedersen (le_value b) x in
  let image := smul (le_value p) HP in
  reduced p -> reduced a -> reduced b -> Forall rmember_ok ring -> Forall is_key draws -> draws_to ks draws rest -> length ks = (2 * length ring)%nat ->
  ((2 <= length ring)%nat ->
   exists rv cols, proveRctMGSimple message (map rmember_ctkey ring) (Ctkey p a) b (encode Coff) (length pre) draws = ret (rv, rest) /\ mg_II rv = [encode image] /\
     Forall2 is_column (simple_matrix Coff ring) cols /\
     ring_chain (mlsag_step message [image]) cols (mg_ss rv) (le_value (mg_cc rv)) = le_value (mg_cc rv) /\
     (verRctMGSimple message rv (map rmember_ctkey ring) (encode Coff) = Some true <->
      image <> gzero /\ Forall (fun c => c <> 0) (ring_challenges (mlsag_step message [image]) cols (mg_ss rv) (le_value (mg_cc rv))))) /\
  (length ring = 1%nat -> proveRctMGSimple message (map rmember_ctkey ring) (Ctkey p a) b (encode Coff) (length pre) draws = throw).
Proof.
  intros m ring Coff image Hp Ha Hb Hring Hdk Hd Hks. assert (ring <> []) as Hne by (unfold ring; by destruct pre).
  set (z := le_bytes 32 ((le_value a - le_value b) mod ell)).
  assert (proveRctMGSimple message (map rmember_ctkey ring) (Ctkey p a) b (encode Coff) (length pre) draws = MLSAG_Gen message (simple_matrix Coff ring) [p; z] (length pre) 1 draws) as ->.
  { unfold proveRctMGSimple. rewrite throw_unless_true, ebind_ret by (rewrite length_map; apply Nat.leb_le; unfold ring; rewrite length_app; cbn [length]; lia).
    cbn [dest ct_mask]. rewrite sc_sub_eq, ebind_lift, mg_simple_matrix_ok, ebind_ret by (apply Ha || apply Hb). reflexivity. }
  split.
  - intros H2. assert (reduced z) as Hz by apply mod_reduced. assert (le_value z = (le_value a - le_value b) mod ell) as Ez by apply mod_value.
    assert (offset_balance Coff [m] = smul (le_value z) B) as Ef by (rewrite Ez, smul_ell; unfold m, Coff, pedersen; cbn [offset_balance rm_C]; group_ring).
    assert (rmember_ok m) as Hm by (apply Forall_app in Hring as [_ H]; by apply Forall_cons in H as [? _]).
    assert (Forall2 owns [m] [p]) as Ho by (constructor; [split; [exact Hm|split; [exact Hp|reflexivity]]|constructor]).
    assert (map (fun m => [m]) ring = map (fun m => [m]) pre ++ [m] :: map (fun m => [m]) post) as El by (unfold ring; rewrite map_app; reflexivity).
    destruct (balance_complete (offset_balance Coff) message (map (fun m => [m]) pre) [m] (map (fun m => [m]) post) [p] z ks draws rest) as (rv & cols & Eg & EII & Hcols & Hch & Hv);
      try rewrite <- El; try rewrite !length_map; try assumption; try done.
    + apply Forall_map. eapply Forall_impl; [exact Hring|]. cbn beta. intros m' Hm'. by constructor.
    + apply Forall_map, Forall_true. done.
    + rewrite Hks. cbn [length]. lia.
    + rewrite <- El in Eg, Hcols, Hv. rewrite length_map in Eg. change (length [m]) with 1%nat in *. fold (simple_matrix Coff ring) in Eg, Hcols, Hv.
      exists rv, cols. split; [exact Eg|]. split; [exact EII|]. split; [exact Hcols|]. split; [exact Hch|]. rewrite (verRctMGSimple_eq message rv ring Coff Hne), Hv.
      cbn [key_images rm_HP]. rewrite Forall_singleton. reflexivity.
  - intros H1. unfold MLSAG_Gen, simple_matrix. rewrite !length_map, H1. reflexivity.
Qed.

(** *** All inputs *)

(** What the sender knows of an input and of an output. *)
Record in_opening := InOpening { io_x : list Z; io_mask : list Z; io_amount : Z; io_HP : point }.
Record out_opening := OutOpening { oo_sec : list Z; oo_dest : list Z; oo_mask : list Z; oo_amount : Z }.

Definition in_member (o : in_opening) : rmember := Rmember (smul (le_value (io_x o)) B) (pedersen (le_value (io_mask o)) (io_amount o)) (io_HP o).
Definition in_secret (o : in_opening) : ctkey := Ctkey (io_x o) (io_mask o).
Definition out_commitment (o : out_opening) : point := pedersen (le_value (oo_mask o)) (oo_amount o).
Definition out_public (o : out_opening) : ctkey := Ctkey (oo_dest o) (encode (out_commitment o)).
Definition out_secret (o : out_opening) : ctkey := Ctkey (oo_sec o) (oo_mask o).

Definition in_ok (o : in_opening) : Prop := reduced (io_x o) /\ reduced (io_mask o) /\ rmember_ok (in_member o).
Definition sum_of {A} (g : A -> Z) (l : list A) : Z := foldr (fun a v => g a + v) 0 l.

Lemma add_masks_ok l : forall Q, add_masks (encode Q) (map rmember_ctkey l) = ret (encode (Q + gsum (map rm_C l))%G).
Proof.
  induction l as [|m l IH]; intros Q; cbn [map add_masks]; [change (gsum []) with (gzero : point); by rewrite gadd_0_r|].
  change (ct_mask (rmember_ctkey m)) with (encode (rm_C m)). rewrite addKeys_ok, ebind_ret, IH, gsum_cons, gadd_assoc. reflexivity.
Qed.

Lemma sub_masks_ok l : forall Q, sub_masks (encode Q) (map out_public l) = ret (encode (Q - gsum (map out_commitment l))%G).
Proof.
  induction l as [|o l IH]; intros Q; cbn [map sub_masks].
  - change (gsum []) with (gzero : point). assert (Q - gzero = Q)%G as -> by group_ring. reflexivity.
  - change (ct_mask (out_public o)) with (encode (out_commitment o)). rewrite subKeys_ok, ebind_ret, IH, gsum_cons.
    assert (Q - out_commitment o - gsum (map out_commitment l) = Q - (out_commitment o + gsum (map out_commitment l)))%G as -> by group_ring. reflexivity.
Qed.

(** The inputs of a column less the outputs and the fee. *)
Definition tx_balance (outs : list out_opening) (fee : Z) (ms : list rmember) : point :=
  (gsum (map rm_C ms) - gsum (map out_commitment outs) - smul fee H_point)%G.

Lemma mg_input_sums_ok l : mg_input_sums (map (map rmember_ctkey) l) = ret (map (fun ms => encode (gsum (map rm_C ms))) l).
Proof.
  induction l as [|ms l IH]; [reflexivity|]. cbn [map mg_input_sums]. change identity with infinity. rewrite <- infinity_encode, add_masks_ok, ebind_ret, IH, ebind_ret, gadd_0_l. reflexivity.
Qed.

Lemma mg_balances_ok outs fee l :
  mg_balances (map (fun ms => encode (gsum (map rm_C ms))) l) (map out_public outs) (encode (smul fee H_point)) = ret (map (fun ms => encode (tx_balance outs fee ms)) l).
Proof.
  induction l as [|ms l IH]; [reflexivity|]. cbn [map mg_balances]. rewrite sub_masks_ok, ebind_ret, subKeys_ok, ebind_ret, IH, ebind_ret. reflexivity.
Qed.

Lemma zip_matrix outs fee l :
  zip_with (fun col s => map dest col ++ [s]) (map (map rmember_ctkey) l) (map (fun ms => encode (tx_balance outs fee ms)) l) = map (balance_column (tx_balance outs fee)) l.
Proof. induction l as [|ms l IH]; [reflexivity|]. cbn [map zip_with]. rewrite IH, map_map. reflexivity. Qed.

Lemma add_scalars_ok l : forall acc, reduced acc -> Forall reduced l -> exists r, add_scalars acc l = Some r /\ le_value r = (le_value acc + sum_of le_value l) mod ell /\ reduced r.
Proof.
  induction l as [|k l IH]; intros acc Ha Hl; cbn [add_scalars].
  { exists acc. unfold sum_of. cbn [foldr]. rewrite Z.add_0_r, Z.mod_small by (by apply reduced_range). done. }
  apply Forall_cons in Hl as [Hk Hl]. rewrite sc_add_eq, bind_some by (apply Ha || apply Hk). destruct (IH _ (mod_reduced (le_value acc + le_value k)) Hl) as (r & E & Ev & Hr). exists r.
  split; [exact E|]. split; [|exact Hr]. rewrite Ev, mod_value. unfold sum_of. cbn [foldr]. rewrite Zplus_mod_idemp_l. f_equal. lia.
Qed.

Lemma sub_scalars_ok l : forall acc, reduced acc -> Forall reduced l -> exists r, sub_scalars acc l = Some r /\ le_value r = (le_value acc - sum_of le_value l) mod ell /\ reduced r.
Proof.
  induction l as [|k l IH]; intros acc Ha Hl; cbn [sub_scalars].
  { exists acc. unfold sum_of. cbn [foldr]. rewrite Z.sub_0_r, Z.mod_small by (by apply reduced_range). done. }
  apply Forall_cons in Hl as [Hk Hl]. rewrite sc_sub_eq, bind_some by (apply Ha || apply Hk). destruct (IH _ (mod_reduced (le_value acc - le_value k)) Hl) as (r & E & Ev & Hr). exists r.
  split; [exact E|]. split; [|exact Hr]. rewrite Ev, mod_value. unfold sum_of. cbn [foldr]. rewrite Zminus_mod_idemp_l. f_equal. lia.
Qed.

(** Sums of commitments commit to the sums. *)
Lemma gsum_pedersen {A} (g h : A -> Z) l : gsum (map (fun o => pedersen (g o) (h o)) l) = pedersen (sum_of g l) (sum_of h l).
Proof.
  induction l as [|o l IH]; [unfold sum_of, pedersen; cbn [foldr]; rewrite !smul_0; symmetry; apply gadd_0_l|]. cbn [map]. rewrite gsum_cons, IH, pedersen_add. reflexivity.
Qed.

Lemma tx_balance_opens ins outs fee : sum_of io_amount ins = sum_of oo_amount outs + fee ->
  tx_balance outs fee (map in_member ins) = smul (sum_of (fun o => le_value (io_mask o)) ins - sum_of (fun o => le_value (oo_mask o)) outs) B.
Proof.
  intros Eb. unfold tx_balance. rewrite map_map. change (fun x => rm_C (in_member x)) with (fun o => pedersen (le_value (io_mask o)) (io_amount o)).
  change out_commitment with (fun o => pedersen (le_value (oo_mask o)) (oo_amount o)). rewrite !gsum_pedersen, Eb. unfold pedersen. group_ring.
Qed.

Lemma sum_of_map {A C} (g : C -> Z) (h : A -> C) l : sum_of g (map h l) = sum_of (fun a => g (h a)) l.
Proof. induction l as [|a l IH]; [done|]. unfold sum_of in *. cbn [map foldr]. by rewrite IH. Qed.

Lemma ins_own ins : Forall in_ok ins -> Forall2 owns (map in_member ins) (map io_x ins).
Proof. induction 1 as [|o ins (Hx & _ & Hm) _ IH]; cbn [map]; constructor; [split; [exact Hm|split; [exact Hx|reflexivity]]|exact IH]. Qed.

Section Full.
Context (message : list Z) (l : list (list rmember)) (r : nat) (outs : list out_opening) (fee : Z).
Context (H1 : (1 <= length l)%nat) (Hr : (1 <= r)%nat) (Hlen : Forall (fun c => length c = r) l).

#[local] Abbreviation pubs := (map (map rmember_ctkey) l).
#[local] Abbreviation feeKey := (encode (smul fee H_point)).

Lemma pubs_rows : length (default [] (pubs !! 0%nat)) = r /\ Forall (fun c => length c = r) (tail pubs).
Proof.
  apply rectangular; [rewrite length_map; lia|]. apply Forall_map. eapply Forall_impl; [exact Hlen|]. cbn beta. intros c Hc. by rewrite length_map.
Qed.

Lemma verRctMG_eq mg : verRctMG mg pubs (map out_public outs) feeKey message = MLSAG_Ver message (map (balance_column (tx_balance outs fee)) l) mg r.
Proof.
  destruct pubs_rows as [E0 Ht]. unfold verRctMG. rewrite E0, length_map. destruct (Nat.leb_spec 1 (length l)); [|lia]. destruct (Nat.leb_spec 1 r); [|lia].
  rewrite (proj2 (forallb_lengths _ _) Ht). cbn [negb]. unfold mg_matrix. rewrite mg_input_sums_ok, ebind_ret, mg_balances_ok, ebind_ret, ebind_ret, zip_matrix. reflexivity.
Qed.

Lemma proveRctMG_eq ins index draws : length ins = r -> Forall in_ok ins -> Forall (fun o => reduced (oo_mask o)) outs -> exists z,
  reduced z /\ le_value z = (sum_of (fun o => le_value (io_mask o)) ins - sum_of (fun o => le_value (oo_mask o)) outs) mod ell /\
  proveRctMG message pubs (map in_secret ins) (map out_secret outs) (map out_public outs) index feeKey draws =
    MLSAG_Gen message (map (balance_column (tx_balance outs fee)) l) (map io_x ins ++ [z]) index r draws.
Proof.
  intros Hi Hins Houts. destruct pubs_rows as [E0 Ht].
  destruct (add_scalars_ok (map io_mask ins) sc_0 (small_reduced 0 ltac:(lia))) as (s1 & E1 & V1 & Hs1); [apply Forall_map; exact (Forall_impl _ _ _ Hins (fun _ H => proj1 (proj2 H)))|].
  destruct (sub_scalars_ok (map oo_mask outs) s1 Hs1) as (z & E2 & V2 & Hz); [by apply Forall_map|]. exists z. split; [exact Hz|]. split.
  - rewrite V2, V1, !sum_of_map, Zminus_mod_idemp_l. change (le_value sc_0) with 0. by rewrite Z.add_0_l.
  - unfold proveRctMG. rewrite E0, !length_map.
    rewrite !throw_unless_true, !ebind_ret by (apply Nat.eqb_refl || by apply Nat.leb_le || by apply Nat.eqb_eq || by apply forallb_lengths).
    rewrite mg_input_sums_ok, ebind_ret, map_map. change (fun x => ct_mask (in_secret x)) with io_mask. rewrite E1, ebind_lift, mg_balances_ok, ebind_ret.
    rewrite map_map. change (fun x => ct_mask (out_secret x)) with oo_mask. rewrite E2, ebind_lift, zip_matrix, map_map. reflexivity.
Qed.
End Full.

Lemma mg_full_ok message pre ins post outs fee ks draws rest :
  let ms := map in_member ins in let l := pre ++ ms :: post in let pubs := map (map rmember_ctkey) l in
  let images := key_images ms (map io_x ins) in let feeKey := encode (smul fee H_point) in
  (2 <= length l)%nat -> ins <> [] -> Forall in_ok ins -> Forall (fun o => reduced (oo_mask o)) outs -> Forall (Forall rmember_ok) l -> Forall (fun c => length c = length ins) l ->
  sum_of io_amount ins = sum_of oo_amount outs + fee ->
  draws_to ks draws rest -> length ks = (length l * (length ins + 1))%nat -> Forall is_key draws ->
  exists rv cols, proveRctMG message pubs (map in_secret ins) (map out_secret outs) (map out_public outs) (length pre) feeKey draws = ret (rv, rest) /\
    mg_II rv = map encode images /\ Forall2 is_column (map (balance_column (tx_balance outs fee)) l) cols /\
    ring_chain (mlsag_step message images) cols (mg_ss rv) (le_value (mg_cc rv)) = le_value (mg_cc rv) /\
    (catch_false (verRctMG rv pubs (map out_public outs) feeKey message) = Some true <->
     Forall (fun P => P <> gzero) images /\ Forall (fun c => c <> 0) (ring_challenges (mlsag_step message images) cols (mg_ss rv) (le_value (mg_cc rv)))).
Proof.
  intros ms l pubs images feeKey H2 Hne Hins Houts Hok Hlen Eb Hd Hks Hdk.
  assert (length ms = length ins) as Lm by apply length_map. assert (1 <= length ins)%nat as Hi by (destruct ins; [done|cbn [length]; lia]).
  destruct (proveRctMG_eq message l (length ins) outs fee ltac:(lia) Hi Hlen ins (length pre) draws eq_refl Hins Houts) as (z & Hz & Ez & Eprove).
  assert (tx_balance outs fee ms = smul (le_value z) B) as Ef by (rewrite Ez, smul_ell; exact (tx_balance_opens ins outs fee Eb)).
  destruct (balance_complete (tx_balance outs fee) message pre ms post (map io_x ins) z ks draws rest H2 ltac:(lia) Hok ltac:(by rewrite Lm) (ins_own ins Hins) Hz Ef Hd
    ltac:(by rewrite Lm) Hdk) as (rv & cols & Eg & EII & Hcols & Hch & Hv).
  rewrite Lm in Eg, Hv. exists rv, cols. split; [transitivity (MLSAG_Gen message (map (balance_column (tx_balance outs fee)) l) (map io_x ins ++ [z]) (length pre) (length ins) draws); [exact Eprove|exact Eg]|].
  split; [exact EII|]. split; [exact Hcols|]. split; [exact Hch|]. unfold pubs. rewrite (verRctMG_eq message l (length ins) outs fee ltac:(lia) Hi Hlen). exact Hv.
Qed.

Lemma fee_key fee : is_u64 fee -> scalarmultH (d2h fee) = Some (encode (smul fee H_point)).
Proof. intros Hf. rewrite (scalarmultH_ok _ (d2h_reduced fee Hf)), (d2h_value fee Hf). reflexivity. Qed.

(** The signature of all inputs of a full transaction.  Let the ring be a
    matrix of at least two columns with an output for each input, and let the
    sender own one column, with the secrets and the openings of its commitments, and
    the openings of the commitments of the outputs.  If the amounts of the inputs are
    those of the outputs and the fee, [proveRctMG] returns a signature whose images are
    [x Hp(P)] for each input and whose chain of challenges closes over the matrix with
    the row of balances, and [verRctMG] accepts it exactly when no image is the identity
    and no challenge is zero. *)
Theorem mg_full_complete message pre ins post outs fee feeKey ks draws rest :
  let ms := map in_member ins in let l := pre ++ ms :: post in let pubs := map (map rmember_ctkey) l in
  let images := key_images ms (map io_x ins) in
  (2 <= length l)%nat -> ins <> [] -> Forall in_ok ins -> Forall (fun o => reduced (oo_mask o)) outs -> Forall (Forall rmember_ok) l -> Forall (fun c => length c = length ins) l ->
  is_u64 fee -> scalarmultH (d2h fee) = Some feeKey -> sum_of io_amount ins = sum_of oo_amount outs + fee ->
  draws_to ks draws rest -> length ks = (length l * (length ins + 1))%nat -> Forall is_key draws ->
  exists rv cols, proveRctMG message pubs (map in_secret ins) (map out_secret outs) (map out_public outs) (length pre) feeKey draws = ret (rv, rest) /\
    mg_II rv = map encode images /\ Forall2 is_column (map (balance_column (tx_balance outs fee)) l) cols /\
    ring_chain (mlsag_step message images) cols (mg_ss rv) (le_value (mg_cc rv)) = le_value (mg_cc rv) /\
    (catch_false (verRctMG rv pubs (map out_public outs) feeKey message) = Some true <->
     Forall (fun P => P <> gzero) images /\ Forall (fun c => c <> 0) (ring_challenges (mlsag_step message images) cols (mg_ss rv) (le_value (mg_cc rv)))).
Proof.
  intros ms l pubs images H2 Hne Hins Houts Hok Hlen Hfee EF Eb Hd Hks Hdk.
  pose proof (Some_inj _ _ (eq_trans (eq_sym EF) (fee_key fee Hfee))) as EK. clear EF. subst feeKey. by apply (mg_full_ok message pre ins post outs fee ks draws rest).
Qed.

(** C11: Verification of an MLSAG signature on arbitrary bytes.  Let the message, the
    matrix of keys, the signature and the number of linkable rows be any.  [MLSAG_Ver]
    returns false where the matrix is not rectangular with at least two columns and a
    row, or the responses and images do not have its shape, or a scalar is not below
    the order.  Otherwise, if every key and image is the encoding of a point, it
    returns, and the result is true exactly when no image is the identity and the chain
    of challenges comes back to the first without meeting zero.  It throws only in the
    remaining case, a key or an image that is no point, where the signature is not
    valid. *)
Theorem mlsag_verify_correct message pk rv dsRows : Forall (Forall is_key) pk -> mgSig_keys rv ->
  (~ mlsag_shape pk rv dsRows -> MLSAG_Ver message pk rv dsRows = ret false) /\
  (Forall is_point (mg_II rv) -> Forall (Forall is_point) pk -> exists b, MLSAG_Ver message pk rv dsRows = ret b) /\
  (MLSAG_Ver message pk rv dsRows = throw \/ exists b, MLSAG_Ver message pk rv dsRows = ret b) /\
  (MLSAG_Ver message pk rv dsRows = ret true <-> mlsag_verifies message pk rv dsRows).
Proof.
  intros Hpk Hrv. pose proof (mlsag_verifies_shape message pk rv dsRows) as Hs. destruct (MLSAG_Ver_settles message pk rv dsRows Hpk Hrv) as [(b & -> & Hb)|(-> & Hn & Hsh & Hp)].
  - split; [intros Hns; destruct b; [destruct Hns; by apply Hs, Hb|done]|]. split; [by exists b|]. split; [right; by exists b|].
    rewrite <- Hb. split; [intros E; by injection E|by intros ->].
  - split; [done|]. split; [intros H1 H2; by destruct Hp|]. split; [by left|]. by split.
Qed.

(** Two columns of one point each, a signature of the right shape: it is looked at and
    refused or accepted; with no columns it is refused at once. *)
Lemma mlsag_verify_witness : MLSAG_Ver zero [] (MgSig [] zero []) 1 = ret false /\
  exists b, MLSAG_Ver zero [[encode B]; [encode B]] (MgSig [[zero]; [zero]] zero [encode B]) 1 = ret b.
Proof.
  pose proof (proj1 (small_reduced 0 ltac:(lia)) : is_key zero) as Hz. split.
  - assert (mgSig_keys (MgSig [] zero [])) as H2 by (split; [constructor|split; [exact Hz|constructor]]).
    apply (proj1 (mlsag_verify_correct zero [] (MgSig [] zero []) 1 (Forall_nil_2 _) H2)). intros (H & _). cbn in H. lia.
  - assert (Forall is_key [zero]) as H0 by (apply Forall_singleton; exact Hz). assert (Forall is_key [encode B]) as HB by (apply Forall_singleton, encode_key).
    assert (Forall is_point [encode B]) as HP by (apply Forall_singleton; by exists B).
    assert (Forall (Forall is_key) [[zero]; [zero]]) as H1 by (constructor; [exact H0|apply Forall_singleton; exact H0]).
    assert (Forall (Forall is_key) [[encode B]; [encode B]]) as H3 by (constructor; [exact HB|apply Forall_singleton; exact HB]).
    assert (Forall (Forall is_point) [[encode B]; [encode B]]) as H4 by (constructor; [exact HP|apply Forall_singleton; exact HP]).
    assert (mgSig_keys (MgSig [[zero]; [zero]] zero [encode B])) as H2 by (split; [exact H1|split; [exact Hz|exact HB]]).
    exact (proj1 (proj2 (mlsag_verify_correct zero _ (MgSig [[zero]; [zero]] zero [encode B]) 1 H3 H2)) HP H4).
Defined.

(** A member other than the signer. *)
Lemma some_member : exists HP, rmember_ok (Rmember B B HP).
Proof. destruct (biased_hash_to_ec_ok (encode B)) as [HP H]. exists HP. exact H. Qed.

Lemma repeated_draw_keys n : Forall is_key (replicate n (7 :: replicate 31 0)).
Proof. apply Forall_replicate. exact (proj1 (small_reduced 7 ltac:(lia))). Qed.

Lemma mg_simple_witness : exists HP m' rv, proveRctMGSimple zero (map rmember_ctkey [Rmember (smul (le_value (3 :: replicate 31 0)) B) (pedersen (le_value (4 :: replicate 31 0)) 9) HP; m'])
  (Ctkey (3 :: replicate 31 0) (4 :: replicate 31 0)) (5 :: replicate 31 0) (encode (pedersen (le_value (5 :: replicate 31 0)) 9)) 0 (replicate 4 (7 :: replicate 31 0)) = ret (rv, []).
Proof.
  destruct (biased_hash_to_ec_ok (encode (smul (le_value (3 :: replicate 31 0)) B))) as (HP & H). destruct some_member as (HP' & H'). exists HP, (Rmember B B HP').
  assert (Forall rmember_ok ([] ++ Rmember (smul (le_value (3 :: replicate 31 0)) B) (pedersen (le_value (4 :: replicate 31 0)) 9) HP :: [Rmember B B HP'])) as Hm
    by (constructor; [exact H|constructor; [exact H'|constructor]]).
  destruct (proj1 (mg_simple_complete zero (3 :: replicate 31 0) (4 :: replicate 31 0) (5 :: replicate 31 0) 9 [] [Rmember B B HP'] HP _ _ []
    (small_reduced 3 ltac:(lia)) (small_reduced 4 ltac:(lia)) (small_reduced 5 ltac:(lia)) Hm (repeated_draw_keys 4) (repeated_draws 4) (length_replicate _ _)) ltac:(cbn; lia))
    as (rv & _ & E & _).
  exists rv. exact E.
Defined.

Lemma mg_full_witness : exists HP m' feeKey rv,
  let ins := [InOpening (3 :: replicate 31 0) (4 :: replicate 31 0) 9 HP] in let outs := [OutOpening zero zero (5 :: replicate 31 0) 7] in
  proveRctMG zero (map (map rmember_ctkey) [map in_member ins; [m']]) (map in_secret ins) (map out_secret outs) (map out_public outs) 0 feeKey (replicate 4 (7 :: replicate 31 0)) = ret (rv, []).
Proof.
  destruct (biased_hash_to_ec_ok (encode (smul (le_value (3 :: replicate 31 0)) B))) as (HP & H). destruct some_member as (HP' & H').
  set (ins := [InOpening (3 :: replicate 31 0) (4 :: replicate 31 0) 9 HP]). set (outs := [OutOpening zero zero (5 :: replicate 31 0) 7]).
  assert (Forall in_ok ins) as Hins by (constructor; [split; [exact (small_reduced 3 ltac:(lia))|split; [exact (small_reduced 4 ltac:(lia))|exact H]]|constructor]).
  assert (Forall (fun o => reduced (oo_mask o)) outs) as Houts by (constructor; [exact (small_reduced 5 ltac:(lia))|constructor]).
  assert (Forall (Forall rmember_ok) ([] ++ map in_member ins :: [[Rmember B B HP']])) as Hok by (constructor; [constructor; [exact H|constructor]|constructor; [constructor; [exact H'|constructor]|constructor]]).
  assert (Forall (fun c => length c = length ins) ([] ++ map in_member ins :: [[Rmember B B HP']])) as Hlen by (constructor; [reflexivity|constructor; [reflexivity|constructor]]).
  assert (ins <> []) as Hne by (unfold ins; discriminate).
  destruct (mg_full_complete zero [] ins [[Rmember B B HP']] outs 2 _ _ _ [] ltac:(cbn; lia) Hne Hins Houts Hok Hlen ltac:(done) (scalarmultH_ok _ (d2h_reduced 2 ltac:(done))) eq_refl
    (repeated_draws 4) (length_replicate _ _) (repeated_draw_keys 4)) as (rv & _ & E & _).
  exists HP, (Rmember B B HP'). eexists _, rv. exact E.
Defined.
