(* ===== verification/TxFormat.v ===== *)
(** * Transactions and blocks

    [src/cryptonote_basic/cryptonote_basic.h]: transactions, block headers
    and blocks, and their consensus byte format.  The cached hashes and
    sizes of the C++ objects are not part of the model. *)

From S2P Require Import Prelude Varint BinaryArchive Config RctTypes.

(** ** Definitions *)

Definition CURRENT_TRANSACTION_VERSION : Z := 2.
Definition CRYPTONOTE_MAX_TX_PER_BLOCK : Z := 0x10000000.

(** [std::vector<uint8_t>], [std::vector<uint64_t>]. *)
Definition bytes_c : codec (list Z) := do_serialize_container (serialize_uint 1).
Definition offsets_c : codec (list Z) := do_serialize_container (serialize_varint 64).

(** *** Outputs *)

Record txout_to_script := TxoutToScript { keys : list (list Z); script : list Z }.

Definition txout_to_script_c : codec txout_to_script :=
  c_map (fun t => Some (keys t, script t)) (fun '(k, s) => TxoutToScript k s)
        (c_pair (do_serialize_container (serialize_blob 32)) bytes_c).

Inductive txout_target_v :=
  | Txout_to_script (t : txout_to_script)
  | Txout_to_scripthash (hash : list Z)
  | Txout_to_key (key : list Z)
  | Txout_to_tagged_key (key view_tag : list Z).

Definition txout_tag (t : txout_target_v) : Z :=
  match t with
  | Txout_to_script _ => 0x0
  | Txout_to_scripthash _ => 0x1
  | Txout_to_key _ => 0x2
  | Txout_to_tagged_key _ _ => 0x3
  end.

(** [variant_reader::read]: the case with the tag, or failure. *)
Definition txout_case (tag : Z) : codec txout_target_v :=
  if tag =? 0x0 then
    c_map (fun t => match t with Txout_to_script s => Some s | _ => None end)
          Txout_to_script txout_to_script_c
  else if tag =? 0x1 then
    c_map (fun t => match t with Txout_to_scripthash h => Some h | _ => None end)
          Txout_to_scripthash (serialize_blob 32)
  else if tag =? 0x2 then
    c_map (fun t => match t with Txout_to_key k => Some k | _ => None end)
          Txout_to_key (serialize_blob 32)
  else if tag =? 0x3 then
    c_map (fun t => match t with Txout_to_tagged_key k v => Some (k, v) | _ => None end)
          (fun '(k, v) => Txout_to_tagged_key k v)
          (c_pair (serialize_blob 32) (serialize_blob 1))
  else c_fail.

Definition txout_target_c : codec txout_target_v :=
  c_bind txout_tag (serialize_uint 1) txout_case.

Record tx_out := TxOut { out_amount : Z; target : txout_target_v }.

Definition tx_out_c : codec tx_out :=
  c_map (fun o => Some (out_amount o, target o)) (fun '(a, t) => TxOut a t)
        (c_pair (serialize_varint 64) txout_target_c).

(** *** Inputs *)

Record txin_to_script := TxinToScript { ts_prev : list Z; ts_prevout : Z; ts_sigset : list Z }.
Record txin_to_scripthash := TxinToScripthash {
  tsh_prev : list Z; tsh_prevout : Z; tsh_script : txout_to_script; tsh_sigset : list Z }.
Record txin_to_key := TxinToKey { in_amount : Z; key_offsets : list Z; k_image : list Z }.

Definition txin_to_script_c : codec txin_to_script :=
  c_map (fun t => Some (ts_prev t, (ts_prevout t, ts_sigset t)))
        (fun '(p, (o, s)) => TxinToScript p o s)
        (c_pair (serialize_blob 32) (c_pair (serialize_varint 64) bytes_c)).

Definition txin_to_scripthash_c : codec txin_to_scripthash :=
  c_map (fun t => Some (tsh_prev t, (tsh_prevout t, (tsh_script t, tsh_sigset t))))
        (fun '(p, (o, (c, s))) => TxinToScripthash p o c s)
        (c_pair (serialize_blob 32) (c_pair (serialize_varint 64)
        (c_pair txout_to_script_c bytes_c))).

Definition txin_to_key_c : codec txin_to_key :=
  c_map (fun t => Some (in_amount t, (key_offsets t, k_image t)))
        (fun '(a, (k, i)) => TxinToKey a k i)
        (c_pair (serialize_varint 64) (c_pair offsets_c (serialize_blob 32))).

Inductive txin_v :=
  | Txin_gen (height : Z)
  | Txin_to_script (t : txin_to_script)
  | Txin_to_scripthash (t : txin_to_scripthash)
  | Txin_to_key (t : txin_to_key).

Definition txin_tag (t : txin_v) : Z :=
  match t with
  | Txin_gen _ => 0xff
  | Txin_to_script _ => 0x0
  | Txin_to_scripthash _ => 0x1
  | Txin_to_key _ => 0x2
  end.

Definition txin_case (tag : Z) : codec txin_v :=
  if tag =? 0xff then
    c_map (fun t => match t with Txin_gen h => Some h | _ => None end)
          Txin_gen (serialize_varint 64)
  else if tag =? 0x0 then
    c_map (fun t => match t with Txin_to_script s => Some s | _ => None end)
          Txin_to_script txin_to_script_c
  else if tag =? 0x1 then
    c_map (fun t => match t with Txin_to_scripthash s => Some s | _ => None end)
          Txin_to_scripthash txin_to_scripthash_c
  else if tag =? 0x2 then
    c_map (fun t => match t with Txin_to_key k => Some k | _ => None end)
          Txin_to_key txin_to_key_c
  else c_fail.

Definition txin_c : codec txin_v := c_bind txin_tag (serialize_uint 1) txin_case.

(** *** Transactions *)

Record transaction_prefix := TransactionPrefix {
  version : Z;
  unlock_time : Z;
  vin : list txin_v;
  vout : list tx_out;
  extra : list Z;
}.

(** [if (version == 0 || CURRENT_TRANSACTION_VERSION < version) return false]. *)
Definition version_ok (v : Z) : bool := negb ((v =? 0) || (CURRENT_TRANSACTION_VERSION <? v)).

Definition transaction_prefix_c : codec transaction_prefix :=
  c_map (fun t => Some (version t, (unlock_time t, (vin t, (vout t, extra t)))))
        (fun '(v, (u, (i, (o, e)))) => TransactionPrefix v u i o e)
        (c_pair (c_guard version_ok (serialize_varint 64))
        (c_pair (serialize_varint 64)
        (c_pair (do_serialize_container txin_c)
        (c_pair (do_serialize_container tx_out_c) bytes_c)))).

(** [transaction::get_signature_size]. *)
Definition get_signature_size (tx_in : txin_v) : nat :=
  match tx_in with
  | Txin_gen _ | Txin_to_script _ | Txin_to_scripthash _ => 0
  | Txin_to_key t => length (key_offsets t)
  end.

(** The signatures of a version 1 transaction: one vector per input, of the
    size the input gives, no counts in the data.  An empty [signatures] is
    written as nothing when no input has signatures; the reader always makes
    one vector per input. *)
Fixpoint enc_signatures (sizes : list nat) (signatures : list (list (list Z))) : option (list Z) :=
  match sizes, signatures with
  | [], [] => Some []
  | n :: sizes, s :: signatures =>
      x ← enc (c_array n (serialize_blob 64)) s; y ← enc_signatures sizes signatures; Some (x ++ y)
  | _, _ => None
  end.

Fixpoint dec_signatures (sizes : list nat) (bytes : list Z)
    : option (list (list (list Z)) * list Z) :=
  match sizes with
  | [] => Some ([], bytes)
  | n :: sizes =>
      '(s, bytes) ← dec (c_array n (serialize_blob 64)) bytes;
      '(l, bytes) ← dec_signatures sizes bytes; Some (s :: l, bytes)
  end.

Definition no_signatures (sizes : list nat) : bool := forallb (fun n => (n =? 0)%nat) sizes.

Definition signatures_c (sizes : list nat) : codec (list (list (list Z))) := {|
  enc signatures :=
    match signatures with
    | [] => if no_signatures sizes then Some [] else None
    | _ => enc_signatures sizes signatures
    end;
  dec := dec_signatures sizes;
  norm signatures := match signatures with [] => map (fun _ => []) sizes | _ => signatures end;
|}.

Record rctSig := RctSig { rct_base : rctSigBase; rct_p : rctSigPrunable }.
Definition rctSig_null : rctSig := RctSig rctSigBase_null rctSigPrunable_null.

(** Members after the prefix. *)
Record tx_sigs := TxSigs { signatures : list (list (list Z)); rct_signatures : rctSig }.

(** [vin[0]]'s ring size less one, a [size_t]. *)
Definition tx_mixin (p : transaction_prefix) : Z :=
  match vin p with
  | Txin_to_key t :: _ => u64 (Z.of_nat (length (key_offsets t)) - 1)
  | _ => 0
  end.

Definition rctSig_c (p : transaction_prefix) : codec rctSig :=
  let inputs := length (vin p) in
  let outputs := length (vout p) in
  c_map (fun r => Some (rct_base r, rct_p r)) (fun '(b, q) => RctSig b q)
    (c_dep (serialize_rctsig_base inputs outputs) (fun b =>
       if rct_type b =? RCTTypeNull then c_skip rctSigPrunable_null
       else serialize_rctsig_prunable (rct_type b) inputs outputs (tx_mixin p))).

Definition tx_sigs_c (p : transaction_prefix) : codec tx_sigs :=
  c_map (fun s => Some (signatures s, rct_signatures s)) (fun '(s, r) => TxSigs s r)
    (if version p =? 1 then
       c_pair (signatures_c (map get_signature_size (vin p))) (c_skip rctSig_null)
     else
       c_pair (c_skip []) (if (length (vin p) =? 0)%nat then c_skip rctSig_null else rctSig_c p)).

Record transaction := Transaction { tx_prefix : transaction_prefix; tx_sig : tx_sigs }.

(** [transaction::do_serialize_object] of a transaction that is not pruned. *)
Definition transaction_c : codec transaction :=
  c_map (fun t => Some (tx_prefix t, tx_sig t)) (fun '(p, s) => Transaction p s)
        (c_dep transaction_prefix_c tx_sigs_c).

(** [transaction::serialize_base]: the prefix and the unprunable signature
    data; what the reader builds is marked pruned. *)
Definition tx_base_sigs_c (p : transaction_prefix) : codec tx_sigs :=
  c_map (fun s => Some (signatures s, (rct_base (rct_signatures s), rct_p (rct_signatures s))))
        (fun '(s, (b, q)) => TxSigs s (RctSig b q))
    (c_pair (c_skip [])
    (c_pair (if (version p =? 1) || (length (vin p) =? 0)%nat then c_skip rctSigBase_null
             else serialize_rctsig_base (length (vin p)) (length (vout p)))
            (c_skip rctSigPrunable_null))).

Definition transaction_base_c : codec transaction :=
  c_map (fun t => Some (tx_prefix t, tx_sig t)) (fun '(p, s) => Transaction p s)
        (c_dep transaction_prefix_c tx_base_sigs_c).

(** *** Blocks *)

Record block_header := BlockHeader {
  major_version : Z;
  minor_version : Z;
  timestamp : Z;
  prev_id : list Z;
  nonce : Z;
}.

Definition block_header_c : codec block_header :=
  c_map (fun h => Some (major_version h, (minor_version h, (timestamp h, (prev_id h, nonce h)))))
        (fun '(a, (i, (t, (p, n)))) => BlockHeader a i t p n)
        (c_pair (serialize_varint 8) (c_pair (serialize_varint 8)
        (c_pair (serialize_varint 64) (c_pair (serialize_blob 32) (serialize_uint 4))))).

Record block := Block { header : block_header; miner_tx : transaction; tx_hashes : list (list Z) }.

Definition block_c : codec block :=
  c_map (fun b => Some (header b, (miner_tx b, tx_hashes b)))
        (fun '(h, (t, l)) => Block h t l)
        (c_pair block_header_c (c_pair transaction_c
        (c_guard (fun l => negb (CRYPTONOTE_MAX_TX_PER_BLOCK <? Z.of_nat (length l)))
                 (do_serialize_container (serialize_blob 32))))).

(** ** Laws *)

#[export] Instance bytes_c_ok : CodecOk bytes_c.
Proof. unfold bytes_c. apply _. Qed.
#[export] Instance bytes_c_exact : Exact bytes_c.
Proof. unfold bytes_c. apply _. Qed.
#[export] Instance offsets_c_ok : CodecOk offsets_c.
Proof. unfold offsets_c. apply _. Qed.
#[export] Instance offsets_c_exact : Exact offsets_c.
Proof. unfold offsets_c. apply _. Qed.

#[export] Instance txout_to_script_ok : CodecOk txout_to_script_c.
Proof. codec_record. Qed.
#[export] Instance txout_to_script_exact : Exact txout_to_script_c.
Proof. codec_record_exact. Qed.

#[export] Instance txout_case_ok tag : CodecOk (txout_case tag).
Proof. unfold txout_case. repeat (case_match; [codec_record|]). apply _. Qed.

#[export] Instance txout_case_exact tag : Exact (txout_case tag).
Proof.
  unfold txout_case. repeat (case_match; [apply c_map_exact; [apply _|by intros [] ? [= <-]]|]).
  apply _.
Qed.

Lemma txout_case_tag tag t bs : enc (txout_case tag) t = Some bs -> txout_tag t = tag.
Proof.
  unfold txout_case.
  repeat (match goal with |- context [Z.eqb ?x ?y] => destruct (Z.eqb_spec x y) as [->|] end;
    [by destruct t|]). done.
Qed.

#[export] Instance txout_target_ok : CodecOk txout_target_c.
Proof. apply c_bind_ok; try apply _. apply txout_case_tag. Qed.
#[export] Instance txout_target_exact : Exact txout_target_c.
Proof. unfold txout_target_c. apply _. Qed.

#[export] Instance tx_out_ok : CodecOk tx_out_c.
Proof. codec_record. Qed.
#[export] Instance tx_out_exact : Exact tx_out_c.
Proof. codec_record_exact. Qed.
#[export] Instance tx_out_produces : Produces tx_out_c.
Proof. unfold tx_out_c. apply _. Qed.

#[export] Instance txin_to_script_ok : CodecOk txin_to_script_c.
Proof. codec_record. Qed.
#[export] Instance txin_to_script_exact : Exact txin_to_script_c.
Proof. codec_record_exact. Qed.
#[export] Instance txin_to_scripthash_ok : CodecOk txin_to_scripthash_c.
Proof. codec_record. Qed.
#[export] Instance txin_to_scripthash_exact : Exact txin_to_scripthash_c.
Proof. codec_record_exact. Qed.
#[export] Instance txin_to_key_ok : CodecOk txin_to_key_c.
Proof. codec_record. Qed.
#[export] Instance txin_to_key_exact : Exact txin_to_key_c.
Proof. codec_record_exact. Qed.

#[export] Instance txin_case_ok tag : CodecOk (txin_case tag).
Proof. unfold txin_case. repeat (case_match; [codec_record|]). apply _. Qed.

#[export] Instance txin_case_exact tag : Exact (txin_case tag).
Proof.
  unfold txin_case. repeat (case_match; [apply c_map_exact; [apply _|by intros [] ? [= <-]]|]).
  apply _.
Qed.

Lemma txin_case_tag tag t bs : enc (txin_case tag) t = Some bs -> txin_tag t = tag.
Proof.
  unfold txin_case.
  repeat (match goal with |- context [Z.eqb ?x ?y] => destruct (Z.eqb_spec x y) as [->|] end;
    [by destruct t|]). done.
Qed.

#[export] Instance txin_ok : CodecOk txin_c.
Proof. apply c_bind_ok; try apply _. apply txin_case_tag. Qed.
#[export] Instance txin_exact : Exact txin_c.
Proof. unfold txin_c. apply _. Qed.
#[export] Instance txin_produces : Produces txin_c.
Proof. unfold txin_c. apply _. Qed.

#[export] Instance transaction_prefix_ok : CodecOk transaction_prefix_c.
Proof. codec_record. Qed.
#[export] Instance transaction_prefix_exact : Exact transaction_prefix_c.
Proof. codec_record_exact. Qed.

(** *** Signatures of version 1 *)

Lemma enc_signatures_rt sizes sigs bs :
  enc_signatures sizes sigs = Some bs ->
  bytes_ok bs /\ forall rest, dec_signatures sizes (bs ++ rest) = Some (sigs, rest).
Proof.
  revert sigs bs; induction sizes as [|n sizes IH]; intros [|s sigs] bs; try done.
  { intros [= <-]. split; [constructor|done]. }
  cbn [enc_signatures dec_signatures].
  destruct (enc (c_array n (serialize_blob 64)) s) as [x|] eqn:Ex; [|done]. cbn [mbind option_bind].
  destruct (enc_signatures sizes sigs) as [y|] eqn:Ey; [|done]. intros [= <-].
  destruct (codec_rt _ _ Ex) as [Hx Rx], (IH _ _ Ey) as [Hy Ry].
  split; [by apply bytes_ok_app|]. intros rest.
  rewrite <- app_assoc, Rx. cbn [mbind option_bind]. by rewrite Ry, exact_norm.
Qed.

Lemma dec_signatures_canon sizes s sigs rest :
  bytes_ok s -> dec_signatures sizes s = Some (sigs, rest) ->
  length sigs = length sizes /\
  exists p bs, s = p ++ rest /\ enc_signatures sizes sigs = Some bs /\
    (p = bs \/ rest = [] /\ cut_off p bs).
Proof.
  revert s sigs; induction sizes as [|n sizes IH]; intros s sigs Hs; cbn [dec_signatures].
  { intros [= <- <-]. split; [done|]. exists [], []. by eauto. }
  destruct (dec (c_array n (serialize_blob 64)) s) as [[x s']|] eqn:Ea; [|done].
  cbn [mbind option_bind]. destruct (dec_signatures sizes s') as [[l s'']|] eqn:Eb; [|done].
  intros [= <- <-]. destruct (codec_canon _ _ _ Hs Ea) as (_ & p & bx & Hp & Hx & Cp).
  assert (bytes_ok s') as Hs' by (rewrite Hp in Hs; by apply bytes_ok_app in Hs as [_ ?]).
  destruct (IH _ _ Hs' Eb) as (Hn & q & y & Hq & Hy & Cq).
  cbn [length enc_signatures]. rewrite Hn. split; [done|].
  destruct (canon_seq _ _ _ _ _ _ _ Hp Hq Cp Cq) as [Hpq Cpq].
  exists (p ++ q), (bx ++ y). split; [done|]. rewrite Hx. cbn [mbind option_bind]. by rewrite Hy.
Qed.

Lemma no_signatures_enc sizes : no_signatures sizes = true ->
  enc_signatures sizes (map (fun _ => []) sizes) = Some [].
Proof.
  induction sizes as [|n sizes IH]; cbn [no_signatures forallb map enc_signatures]; [done|].
  intros [Hn Hs]%andb_prop. apply Nat.eqb_eq in Hn as ->. cbn. unfold no_signatures in IH.
  by rewrite IH.
Qed.

#[export] Instance signatures_ok sizes : CodecOk (signatures_c sizes).
Proof.
  split; cbn [enc dec norm signatures_c].
  - intros [|s sigs] bs; [|apply enc_signatures_rt].
    destruct (no_signatures sizes) eqn:Hn; [|done]. intros [= <-].
    by apply enc_signatures_rt, no_signatures_enc.
  - intros s sigs rest Hs Hd. destruct (dec_signatures_canon _ _ _ _ Hs Hd) as (Hl & p & bs & Hex).
    destruct sigs as [|x sigs]; [|by eauto].
    destruct sizes; [|done]. split; [done|]. exists p, bs. by cbn.
  - intros [|s sigs] bs; [|done]. destruct (no_signatures sizes) eqn:Hn; [|done].
    destruct sizes as [|n sizes]; [done|]. intros [= <-]. by apply no_signatures_enc.
Qed.

(** *** Transactions and blocks *)

#[export] Instance rctSig_ok p : CodecOk (rctSig_c p).
Proof.
  apply c_map_ok; [|by intros [b q] bs _]. apply c_dep_ok_norm; [apply _| |].
  - intros b. case_match; apply _.
  - intros b. by rewrite serialize_rctsig_base_norm_type.
Qed.

#[export] Instance tx_sigs_ok p : CodecOk (tx_sigs_c p).
Proof. unfold tx_sigs_c. case_match; [codec_record|]. case_match; codec_record. Qed.

#[export] Instance transaction_ok : CodecOk transaction_c.
Proof. codec_record. Qed.

#[export] Instance tx_base_sigs_ok p : CodecOk (tx_base_sigs_c p).
Proof. unfold tx_base_sigs_c. case_match; codec_record. Qed.

#[export] Instance transaction_base_ok : CodecOk transaction_base_c.
Proof. codec_record. Qed.

#[export] Instance block_header_ok : CodecOk block_header_c.
Proof. codec_record. Qed.
#[export] Instance block_header_exact : Exact block_header_c.
Proof. codec_record_exact. Qed.

#[export] Instance block_ok : CodecOk block_c.
Proof. codec_record. Qed.

(** ** What survives serialization

    The members that are not in the byte format come back as their
    constructors set them: the message, the ring and the output destinations
    of a RingCT signature, the commitments [V] of a range proof, the key
    images [I] and [II], everything that belongs to another signature type,
    and from [RCTTypeBulletproof2] on all but 8 bytes of an encrypted amount. *)

Definition restored_ecdh (type : Z) (e : ecdhTuple) : ecdhTuple :=
  if (type =? RCTTypeBulletproof2) || (type =? RCTTypeCLSAG) || (type =? RCTTypeBulletproofPlus)
  then EcdhTuple zero_key (take 8 (amount e) ++ replicate 24 0) else e.

Definition restored_base (b : rctSigBase) : rctSigBase :=
  if rct_type b =? RCTTypeNull then rctSigBase_null
  else RctSigBase (rct_type b) zero_key []
         (if rct_type b =? RCTTypeSimple then RctTypes.pseudoOuts b else [])
         (map (restored_ecdh (rct_type b)) (ecdhInfo b))
         (map (fun k => Ctkey zero_key (ct_mask k)) (outPk b)) (txnFee b).

Definition restored_prunable (type : Z) (p : rctSigPrunable) : rctSigPrunable :=
  if type =? RCTTypeNull then rctSigPrunable_null
  else RctSigPrunable
    (if is_rct_borromean type then rangeSigs p else [])
    (if is_rct_bulletproof type
     then map (fun b => MkBulletproof [] (bp_A b) (bp_S b) (bp_T1 b) (bp_T2 b) (bp_taux b)
                          (bp_mu b) (bp_L b) (bp_R b) (bp_a b) (bp_b b) (bp_t b)) (bulletproofs p)
     else [])
    (if is_rct_bulletproof_plus type
     then map (fun b => MkBulletproofPlus [] (bpp_A b) (bpp_A1 b) (bpp_B b) (bpp_r1 b) (bpp_s1 b)
                          (bpp_d1 b) (bpp_L b) (bpp_R b)) (bulletproofs_plus p)
     else [])
    (if is_rct_clsag type then [] else map (fun m => MgSig (mg_ss m) (mg_cc m) []) (MGs p))
    (if is_rct_clsag type then map (fun c => Clsag (cl_s c) (cl_c1 c) zero_key (cl_D c)) (CLSAGs p)
     else [])
    (if is_rct_borromean type then [] else p_pseudoOuts p).

Definition restored_sigs (p : transaction_prefix) (s : tx_sigs) : tx_sigs :=
  if version p =? 1 then
    TxSigs (match signatures s with [] => map (fun _ => []) (vin p) | l => l end) rctSig_null
  else if (length (vin p) =? 0)%nat then TxSigs [] rctSig_null
  else
    let r := rct_signatures s in
    TxSigs [] (RctSig (restored_base (rct_base r)) (restored_prunable (rct_type (rct_base r)) (rct_p r))).

Definition restored (t : transaction) : transaction :=
  Transaction (tx_prefix t) (restored_sigs (tx_prefix t) (tx_sig t)).

Definition restored_block (b : block) : block :=
  Block (header b) (restored (miner_tx b)) (tx_hashes b).

Lemma rct_base_norm inputs outputs b bs :
  enc (serialize_rctsig_base inputs outputs) b = Some bs ->
  norm (serialize_rctsig_base inputs outputs) b = restored_base b /\
  (rct_type b = RCTTypeNull \/ rct_type_known (rct_type b) = true).
Proof.
  cbn [enc norm serialize_rctsig_base c_bind]. destruct (enc (serialize_uint 1) _); [|done].
  cbn [mbind option_bind]. unfold rctSigBase_fields, restored_base.
  destruct (Z.eqb_spec (rct_type b) RCTTypeNull) as [E|E].
  { intros _. cbn [norm c_map]. rewrite Z.eqb_refl. by eauto. }
  destruct (rct_type_known (rct_type b)); cbn [negb]; [|done]. intros _.
  split; [|by right]. cbn [norm c_map]. rewrite Z.eqb_refl. cbn.
  f_equal.
  - case_match; [|done]. apply map_id.
  - unfold restored_ecdh, ecdh_c. case_match; [done|]. cbn.
    apply map_ext. by intros [].
Qed.

Lemma map_id_ext {A} (f : A -> A) l : (forall a, f a = a) -> map f l = l.
Proof. intros Hf. rewrite <- (map_id l) at 2. by apply map_ext. Qed.

Lemma map_map_id {A} (l : list (list A)) : map (map (fun a => a)) l = l.
Proof. apply map_id_ext. intros a. apply map_id. Qed.

Lemma rct_prunable_norm type inputs outputs mixin p bs :
  rct_type_known type = true ->
  enc (serialize_rctsig_prunable type inputs outputs mixin) p = Some bs ->
  norm (serialize_rctsig_prunable type inputs outputs mixin) p = restored_prunable type p.
Proof.
  intros Hk. unfold serialize_rctsig_prunable. do 3 (case_match; [done|]). intros _.
  assert (type = 1 \/ type = 2 \/ type = 3 \/ type = 4 \/ type = 5 \/ type = 6) as Ht.
  { unfold rct_type_known in Hk. rewrite !orb_true_iff, !Z.eqb_eq in Hk.
    unfold RCTTypeFull, RCTTypeSimple, RCTTypeBulletproof, RCTTypeBulletproof2, RCTTypeCLSAG,
      RCTTypeBulletproofPlus in Hk. lia. }
  destruct p as [rs bp bpp mg cl po].
  destruct Ht as [->|[->|[->|[->|[->| ->]]]]]; cbn; f_equal;
    try (apply map_id || done); (apply map_ext || apply map_id_ext); intros []; cbn;
    rewrite ?map_id, ?map_map_id; done.
Qed.

Lemma transaction_norm t bs :
  enc transaction_c t = Some bs -> norm transaction_c t = restored t.
Proof.
  destruct t as [p s]. cbn [enc norm transaction_c c_map c_dep mbind option_bind tx_prefix tx_sig fst snd].
  rewrite exact_norm. destruct (enc transaction_prefix_c p); [|done]. cbn [mbind option_bind].
  destruct (enc (tx_sigs_c p) s) eqn:Hs; [|done]. intros _. unfold restored. cbn [tx_prefix tx_sig].
  f_equal. revert Hs. unfold tx_sigs_c, restored_sigs. destruct s as [sigs [b q]].
  destruct (version p =? 1).
  { intros _. cbn. destruct sigs; [|done]. by rewrite map_map. }
  destruct (length (vin p) =? 0)%nat; [done|].
  cbn [enc norm c_map c_pair c_dep c_skip rctSig_c mbind option_bind fst snd signatures
    rct_signatures rct_base rct_p].
  destruct (enc (serialize_rctsig_base _ _) b) eqn:Hb; [|done]. cbn [mbind option_bind].
  destruct (rct_base_norm _ _ _ _ Hb) as [-> Ht].
  destruct (Z.eqb_spec (rct_type b) RCTTypeNull) as [E|E].
  { intros _. unfold restored_prunable. by rewrite E. }
  destruct Ht as [?|Hk]; [done|].
  destruct (enc (serialize_rctsig_prunable _ _ _ _) q) eqn:Hq; [|done]. intros _.
  by rewrite (rct_prunable_norm _ _ _ _ _ _ Hk Hq).
Qed.

Lemma block_norm b bs : enc block_c b = Some bs -> norm block_c b = restored_block b.
Proof.
  destruct b as [h t l]. cbn [enc norm block_c c_map c_pair c_dep mbind option_bind header miner_tx
    tx_hashes fst snd c_guard].
  destruct (enc block_header_c h); [|done]. cbn [mbind option_bind].
  destruct (enc transaction_c t) eqn:Ht; [|done]. intros _.
  rewrite (transaction_norm _ _ Ht), (exact_norm h). unfold restored_block. cbn.
  by rewrite map_id.
Qed.

(** ** Properties *)

(** A version 2 transaction with one input of ring size 2, one output and a
    Bulletproof+ of one amount, and a coinbase block. *)
Definition sample_tx : transaction :=
  let k := fun n => replicate 32 n in
  let bpp := MkBulletproofPlus [k 9] (k 1) (k 2) (k 3) (k 4) (k 5) (k 6)
               (replicate 6 (k 7)) (replicate 6 (k 8)) in
  Transaction
    (TransactionPrefix 2 0 [Txin_to_key (TxinToKey 0 [300; 7] (k 10))]
       [TxOut 0 (Txout_to_tagged_key (k 11) [255])] [1; 2; 3])
    (TxSigs []
       (RctSig (RctSigBase RCTTypeBulletproofPlus (k 12) [] []
                  [EcdhTuple (k 13) (k 14)] [Ctkey (k 15) (k 16)] 30000)
               (RctSigPrunable [] [] [bpp] [] [Clsag [k 17; k 18] (k 19) (k 20) (k 21)] [k 22]))).

Definition sample_coinbase : transaction :=
  Transaction (TransactionPrefix 2 60 [Txin_gen 5] [TxOut 600000000000 (Txout_to_key (replicate 32 1))] [])
              (TxSigs [] rctSig_null).

Definition sample_block : block :=
  Block (BlockHeader 16 16 1700000000 (replicate 32 2) 12345) sample_coinbase [].

(** C1: reading back the blob of a transaction that was written gives the
    transaction with the members outside the byte format reset, for both
    versions and all RingCT types, and writing that gives the same blob. *)
Theorem tx_blob_roundtrip t blob :
  dump_binary transaction_c t = Some blob ->
  parse_binary transaction_c blob = Some (restored t) /\
  dump_binary transaction_c (restored t) = Some blob.
Proof.
  intros H. rewrite <- (transaction_norm t blob H). by apply parse_dump; [apply _|].
Qed.

Lemma tx_blob_roundtrip_witness :
  match dump_binary transaction_c sample_tx with
  | Some blob => parse_binary transaction_c blob = Some (restored sample_tx) /\
                 dump_binary transaction_c (restored sample_tx) = Some blob
  | None => False
  end.
Proof.
  destruct (dump_binary transaction_c sample_tx) as [blob|] eqn:E.
  - exact (tx_blob_roundtrip sample_tx blob E).
  - vm_compute in E. discriminate E.
Defined.

(** C2: the blob of a transaction is determined by the transaction: a blob
    that parses is the one the parsed transaction is written as, unless it ends
    inside a varint: its last bytes all have the continuation bit and stand
    where the written blob ends with the whole varint of the same value, the
    two blobs being equal before it. *)
Theorem tx_blob_canonical blob t :
  bytes_ok blob -> parse_binary transaction_c blob = Some t ->
  exists bs, dump_binary transaction_c t = Some bs /\ (blob = bs \/ cut_off blob bs).
Proof.
  intros Hb Hp. destruct (dump_parse transaction_c t blob transaction_ok Hb Hp) as [_ H]. exact H.
Qed.

Lemma tx_blob_canonical_witness :
  match dump_binary transaction_c sample_tx with
  | Some blob => exists bs,
      dump_binary transaction_c (restored sample_tx) = Some bs /\ (blob = bs \/ cut_off blob bs)
  | None => False
  end.
Proof.
  destruct (dump_binary transaction_c sample_tx) as [blob|] eqn:E.
  - apply (tx_blob_canonical blob (restored sample_tx)).
    + by destruct (codec_rt sample_tx blob E).
    + rewrite <- (transaction_norm _ _ E). by apply parse_dump; [apply _|].
  - vm_compute in E. discriminate E.
Defined.

(** Blocks: the header, the coinbase transaction and the transaction
    hashes survive a round trip, and a blob that parses as a block is the
    blob of that block unless it ends inside a varint. *)
Theorem block_blob_roundtrip b blob blob' b' :
  dump_binary block_c b = Some blob ->
  bytes_ok blob' -> parse_binary block_c blob' = Some b' ->
  parse_binary block_c blob = Some (restored_block b) /\
  dump_binary block_c (restored_block b) = Some blob /\
  exists bs, dump_binary block_c b' = Some bs /\ (blob' = bs \/ cut_off blob' bs).
Proof.
  intros H Hb Hp. rewrite <- (block_norm b blob H).
  destruct (parse_dump block_c b blob block_ok H) as [H1 H2]. split; [done|]. split; [done|].
  destruct (dump_parse block_c b' blob' block_ok Hb Hp) as [_ H3]. exact H3.
Qed.

Lemma block_blob_roundtrip_witness :
  match dump_binary block_c sample_block with
  | Some blob =>
      parse_binary block_c blob = Some (restored_block sample_block) /\
      dump_binary block_c (restored_block sample_block) = Some blob /\
      exists bs, dump_binary block_c (restored_block sample_block) = Some bs /\
        (blob = bs \/ cut_off blob bs)
  | None => False
  end.
Proof.
  destruct (dump_binary block_c sample_block) as [blob|] eqn:E.
  - apply (block_blob_roundtrip sample_block blob blob (restored_block sample_block) E).
    + by destruct (codec_rt sample_block blob E).
    + by destruct (parse_dump block_c _ _ block_ok E).
  - vm_compute in E. discriminate E.
Defined.

(** The blob of a block without transactions ends in the count 0. *)
Lemma block_blob_count b blob : tx_hashes b = [] -> dump_binary block_c b = Some blob ->
  exists p, blob = p ++ [0] /\ forall c, dec (serialize_varint 64) c = Some (0, []) -> parse_binary block_c (p ++ c) = Some (restored_block b).
Proof.
  intros Hb E. unfold dump_binary in E. pose proof (block_norm b blob E) as En. destruct b as [h t l]. cbn [tx_hashes] in Hb. subst l. revert E.
  cbn [enc block_c c_map c_pair c_dep mbind option_bind header miner_tx tx_hashes fst snd c_guard].
  destruct (enc block_header_c h) as [x|] eqn:Ex; [|done]. cbn [mbind option_bind]. destruct (enc transaction_c t) as [y|] eqn:Ey; [|done].
  intros E. injection E as <-. exists (x ++ y). rewrite <- app_assoc. split; [done|]. intros c Hc.
  destruct (codec_rt _ _ Ex) as [_ Rx], (codec_rt _ _ Ey) as [_ Ry]. rewrite <- app_assoc.
  assert (dec (c_guard (fun l => negb (CRYPTONOTE_MAX_TX_PER_BLOCK <? Z.of_nat (length l))) (do_serialize_container (serialize_blob 32))) c = Some ([], [])) as Hl.
  { cbn [dec c_guard]. by rewrite (dec_empty _ _ Hc). }
  unfold parse_binary, block_c.
  rewrite (dec_map _ _ _ _ _ _ (dec_pair _ _ _ _ _ _ _ (Rx _) (dec_pair _ _ _ _ _ [] [] (Ry _) Hl))).
  rewrite (exact_norm h), (transaction_norm _ _ Ey). reflexivity.
Qed.

(** C38: block blobs are malleable, in exactly nine ways.  The blob of a block
    without transactions ends in the count 0; the blobs that parse as the same
    block are that blob and the ones with one to nine bytes 128 in place of the
    final 0, because the varint reader accepts a varint that the end of the
    input cuts off. *)
Theorem block_blob_malleable b blob : tx_hashes b = [] -> dump_binary block_c b = Some blob ->
  exists p, blob = p ++ [0] /\ forall blob', bytes_ok blob' ->
    (parse_binary block_c blob' = Some (restored_block b) <-> blob' = blob \/ exists k, (1 <= k <= 9)%nat /\ blob' = p ++ replicate k 128).
Proof.
  intros Hb E. destruct (block_blob_count b blob Hb E) as (p & -> & Hp). exists p. split; [done|]. intros blob' Hb'. split.
  - intros E'. destruct (dump_parse block_c _ blob' block_ok Hb' E') as (_ & bs & Ed & [->|Hc]).
    + left. rewrite <- (block_norm _ _ E) in Ed. unfold dump_binary in *. rewrite (codec_stable _ _ E) in Ed. by injection Ed as <-.
    + right. rewrite <- (block_norm _ _ E) in Ed. unfold dump_binary in *. rewrite (codec_stable _ _ E) in Ed. injection Ed as <-.
      by apply cut_off_zero.
  - intros [->|(k & Hk & ->)]; apply Hp; [done|]. do 10 (destruct k as [|k]; [first [lia|by vm_compute]|]). lia.
Qed.

Lemma block_blob_malleable_witness :
  match dump_binary block_c sample_block with
  | Some blob => exists p, blob = p ++ [0] /\ parse_binary block_c (p ++ [128]) = Some (restored_block sample_block)
  | None => False
  end.
Proof.
  destruct (dump_binary block_c sample_block) as [blob|] eqn:E; [|vm_compute in E; discriminate E].
  destruct (block_blob_malleable sample_block blob eq_refl E) as (p & -> & H). exists p. split; [done|].
  apply H; [|right; exists 1%nat; by split; [lia|]].
  destruct (codec_rt sample_block _ E) as [Hok _]. apply Forall_app in Hok as [Hok _]. apply Forall_app. split; [done|]. repeat constructor; done.
Defined.
