(* ===== verification/RctSigs.v ===== *)
(** * Confidential transactions

    The transaction level of [src/ringct/rctSigs.cpp]: the hash the ring signatures
    sign ([get_pre_mlsag_hash], for every type), making and verifying a full
    transaction ([genRct], [verRct]) and decoding the amount of an output
    ([decodeRct], for every type).

    Simple transactions ([genRctSimple], [verRctSemanticsSimple],
    [verRctNonSemanticsSimple]) and the bulletproofs they call are not modelled; the
    ring signatures they use are in [Clsag] and [Mlsag].  The thread pool of the
    verifier runs jobs that share nothing, here one after the other. *)

From Stdlib Require Import Zmod.
From S2P Require Import Prelude Varint BinaryArchive Limbs ScalarOps Primes FieldOps Group Edwards GroupOps ScalarMult CurveTables CurveOrder HashToPoint Keccak Blake2b Crypto Signatures RctTables Generators RctTypes RctOps RingWalk Clsag RangeProof Mlsag TxFormat.

#[local] Abbreviation B := base_point.
#[local] Abbreviation zero := RctOps.zero.

(** ** The hash that is signed *)

Definition bulletproof_keys (p : Bulletproof) : list (list Z) :=
  [bp_A p; bp_S p; bp_T1 p; bp_T2 p; bp_taux p; bp_mu p] ++ bp_L p ++ bp_R p ++ [bp_a p; bp_b p; bp_t p].

Definition bulletproof_plus_keys (p : BulletproofPlus) : list (list Z) :=
  [bpp_A p; bpp_A1 p; bpp_B p; bpp_r1 p; bpp_s1 p; bpp_d1 p] ++ bpp_L p ++ bpp_R p.

Definition rangeSig_keys (r : rangeSig) : list (list Z) :=
  let bb := boroSig_of (asig r) in bs_s0 bb ++ bs_s1 bb ++ [bs_ee bb] ++ key_blocks 64 (Ci r).

(** The keys of the range proofs. *)
Definition proof_keys (rv : rctSig) : list (list Z) :=
  let type := rct_type (rct_base rv) in
  if (type =? RCTTypeBulletproof) || (type =? RCTTypeBulletproof2) || (type =? RCTTypeCLSAG) then concat (map bulletproof_keys (bulletproofs (rct_p rv)))
  else if type =? RCTTypeBulletproofPlus then concat (map bulletproof_plus_keys (bulletproofs_plus (rct_p rv)))
  else concat (map rangeSig_keys (rangeSigs (rct_p rv))).

Definition mlsag_prehash (hashes : list (list Z)) : option (list Z) := cn_fast_hash_keys hashes.

Definition get_pre_mlsag_hash (rv : rctSig) : exc (list Z) :=
  let base := rct_base rv in
  _ <- throw_unless (negb (bool_decide (length (mixRing base) = 0%nat)));
  let inputs := if is_rct_simple (rct_type base) then length (mixRing base) else length (default [] (mixRing base !! 0%nat)) in
  let outputs := length (ecdhInfo base) in
  match enc (serialize_rctsig_base inputs outputs) base with
  | None => throw
  | Some sig_base_blob =>
      h <- lift (cn_fast_hash sig_base_blob);
      p <- lift (cn_fast_hash_keys (proof_keys rv));
      lift (mlsag_prehash [message base; h; p])
  end.

(** ** Decoding an output *)

(** Are amounts encoded in the short form? *)
Definition short_amount (type : Z) : bool := (type =? RCTTypeBulletproof2) || (type =? RCTTypeCLSAG) || (type =? RCTTypeBulletproofPlus).

(** The amount and the mask; for a type that is not known the amount is 0, and the
    mask is left alone, here [zero]. *)
Definition decodeRct (rv : rctSig) (sk : list Z) (i : nat) : exc (Z * list Z) :=
  let base := rct_base rv in
  if negb (negb (rct_type base =? RCTTypeNull) && (rct_type base <=? RCTTypeBulletproofPlus)) then ret (0, zero)
  else
    _ <- throw_unless (i <? length (ecdhInfo base))%nat;
    _ <- throw_unless (length (outPk base) =? length (ecdhInfo base))%nat;
    ecdh_info <- lift (e ← ecdhInfo base !! i; ecdhDecode e sk (short_amount (rct_type base)));
    let mask := mask ecdh_info in
    let amount := amount ecdh_info in
    C <- lift (ct_mask <$> outPk base !! i);
    _ <- throw_unless (sc_check mask =? 0);
    _ <- throw_unless (sc_check amount =? 0);
    Ctmp <- addKeys2 mask amount H;
    _ <- throw_unless (equalKeys C Ctmp);
    match h2d amount with
    | None => throw
    | Some amount_8 => ret (amount_8, mask)
    end.

(** ** Full transactions *)

(** What is made for an output: its keys, its range proof, the encoded amount and
    the mask. *)
Record made_output := MadeOutput { mo_pk : ctkey; mo_range : rangeSig; mo_ecdh : ecdhTuple; mo_mask : list Z }.

Fixpoint make_outputs (destinations : list (list Z)) (amounts : list Z) (amount_keys : list (list Z)) (draws : list (list Z))
    : exc (list made_output * list (list Z)) :=
  match destinations, amounts, amount_keys with
  | [], _, _ => ret ([], draws)
  | d :: ds, a :: amounts, k :: ks =>
      '(C, mask, sig, draws) <- proveRange a draws;
      e <- lift (ecdhEncode (EcdhTuple mask (d2h a)) k (short_amount RCTTypeFull));
      '(outs, draws) <- make_outputs ds amounts ks draws;
      ret (MadeOutput (Ctkey d C) sig e mask :: outs, draws)
  | _, _, _ => None
  end.

(** The signature and the secret masks of the outputs. *)
Definition genRct (message : list Z) (inSk : list ctkey) (destinations : list (list Z)) (amounts : list Z) (ring : list (list ctkey))
    (amount_keys : list (list Z)) (index : nat) (draws : list (list Z)) : exc (rctSig * list (list Z) * list (list Z)) :=
  let nd := length destinations in
  _ <- throw_unless ((length amounts =? nd)%nat || (length amounts =? nd + 1)%nat);
  _ <- throw_unless (length amount_keys =? nd)%nat;
  _ <- throw_unless (index <? length ring)%nat;
  _ <- throw_unless (forallb (fun col => length col =? length inSk)%nat ring);
  _ <- throw_unless (length inSk <? 2)%nat;
  '(outs, draws) <- make_outputs destinations amounts amount_keys draws;
  let fee := if (nd <? length amounts)%nat then default 0 (amounts !! nd) else 0 in
  txnFeeKey <- lift (scalarmultH (d2h fee));
  let base := RctSigBase RCTTypeFull message ring [] (map mo_ecdh outs) (map mo_pk outs) fee in
  let p mgs := RctSigPrunable (map mo_range outs) [] [] mgs [] [] in
  prehash <- get_pre_mlsag_hash (RctSig base (p []));
  '(mg, draws) <- proveRctMG prehash ring inSk (map (fun o => Ctkey zero (mo_mask o)) outs) (map mo_pk outs) index txnFeeKey draws;
  ret (RctSig base (p [mg]), map mo_mask outs, draws).

(** All jobs ran and returned true. *)
Fixpoint all_true (results : list (option bool)) : option bool :=
  match results with
  | [] => Some true
  | r :: results => b ← r; bs ← all_true results; Some (b && bs)
  end.

Definition verRct_try (rv : rctSig) (semantics : bool) : exc bool :=
  let base := rct_base rv in
  if semantics then lift (all_true (zip_with (fun k r => verRange (ct_mask k) r) (outPk base) (rangeSigs (rct_p rv))))
  else
    txnFeeKey <- lift (scalarmultH (d2h (txnFee base)));
    prehash <- get_pre_mlsag_hash rv;
    mg <- lift (MGs (rct_p rv) !! 0%nat);
    verRctMG mg (mixRing base) (outPk base) txnFeeKey prehash.

Definition verRct (rv : rctSig) (semantics : bool) : option bool :=
  let base := rct_base rv in
  if negb (rct_type base =? RCTTypeFull) then Some false
  else if semantics && negb ((length (outPk base) =? length (rangeSigs (rct_p rv)))%nat && (length (outPk base) =? length (ecdhInfo base))%nat
                             && (length (MGs (rct_p rv)) =? 1)%nat) then Some false
  else catch_false (verRct_try rv semantics).

(** ** Outputs *)

(** What an output made for an amount and a shared secret is good for. *)
Definition made_ok (a : Z) (k : list Z) (o : made_output) : Prop :=
  reduced (mo_mask o) /\ ct_mask (mo_pk o) = encode (pedersen (le_value (mo_mask o)) a) /\ verRange (ct_mask (mo_pk o)) (mo_range o) = Some true /\
  reduced (mask (mo_ecdh o)) /\ reduced (amount (mo_ecdh o)) /\ ecdhDecode (mo_ecdh o) k false = Some (EcdhTuple (mo_mask o) (d2h a)).

(** Amounts with the keys that hide them. *)
Definition amount_ok (ak : Z * list Z) : Prop := is_u64 (fst ak) /\ is_key (snd ak).

Lemma make_outputs_ok destinations : forall l more ks draws rest, length l = length destinations -> Forall amount_ok l ->
  draws_to ks draws rest -> length ks = (length destinations * 192)%nat -> Forall is_key draws ->
  exists outs, make_outputs destinations (map fst l ++ more) (map snd l) draws = ret (outs, rest) /\ map (fun o => dest (mo_pk o)) outs = destinations /\
    Forall2 (fun ak o => made_ok (fst ak) (snd ak) o) l outs.
Proof.
  induction destinations as [|d ds IH]; intros [|[a k] l] more ks draws rest Hl Hok Hd Hks Hdk; try done; cbn [map app make_outputs].
  { destruct ks; [|done]. inversion Hd; subst. exists []. split_and!; [reflexivity|done|constructor]. }
  apply Forall_cons in Hok as [[Ha Hk] Hok]. cbn [fst snd length] in *. rewrite <- (take_drop 192 ks) in Hd. apply draws_to_app in Hd as (d1 & Hd1 & Hd2).
  pose proof (draws_to_keys _ _ _ Hd1 Hdk) as [_ Hdk1].
  destruct (proveRange_ok a draws (take 192 ks) d1 Ha Hdk Hd1 ltac:(rewrite length_take; lia)) as (C & m & sig & -> & Hm & EC & Hv & Hk2 & Hs2). rewrite ebind_ret.
  destruct (ecdh_long_ok m (d2h a) k Hm (d2h_reduced a Ha) Hk) as (e & Ee & He1 & He2 & Ed). change (short_amount RCTTypeFull) with false. rewrite Ee, ebind_lift.
  destruct (IH l more (drop 192 ks) d1 rest ltac:(by injection Hl) Hok Hd2 ltac:(rewrite length_drop; lia) Hdk1) as (outs & -> & Edest & Hmade). rewrite ebind_ret.
  eexists. split; [reflexivity|]. split; [cbn [map mo_pk dest]; by rewrite Edest|]. constructor; [|exact Hmade]. unfold made_ok. cbn [fst snd mo_mask mo_pk ct_mask mo_range mo_ecdh].
  split; [exact Hm|]. split; [exact EC|]. split; [|split; [exact He1|split; [exact He2|exact Ed]]].
  destruct (verRange_ok C sig ltac:(rewrite EC; apply encode_key) Hk2 Hs2) as (b & -> & Hb). f_equal. exact (proj2 Hb Hv).
Qed.

(** The outputs as the sender knows them. *)
Definition opening_of (ak : Z * list Z) (o : made_output) : out_opening := OutOpening zero (dest (mo_pk o)) (mo_mask o) (fst ak).

Lemma openings_of l outs : Forall2 (fun ak o => made_ok (fst ak) (snd ak) o) l outs ->
  let ops := zip_with opening_of l outs in
  map mo_pk outs = map out_public ops /\ map (fun o => Ctkey zero (mo_mask o)) outs = map out_secret ops /\ Forall (fun o => reduced (oo_mask o)) ops /\ sum_of oo_amount ops = sum_of fst l /\
  map oo_mask ops = map mo_mask outs /\ map oo_amount ops = map fst l /\ map oo_dest ops = map (fun o => dest (mo_pk o)) outs.
Proof.
  induction 1 as [|ak o l outs (Hm & EC & _) _ (E1 & E2 & E3 & E4 & E5 & E6 & E7)]; [split_and!; try done; constructor|]. cbn [zip_with map]. split_and!.
  - rewrite E1. f_equal. unfold out_public, opening_of, out_commitment. cbn [oo_dest oo_mask oo_amount]. rewrite <- EC. by destruct (mo_pk o).
  - rewrite E2. reflexivity.
  - constructor; [exact Hm|exact E3].
  - unfold sum_of in *. cbn [foldr]. rewrite E4. reflexivity.
  - rewrite E5. reflexivity.
  - rewrite E6. reflexivity.
  - rewrite E7. reflexivity.
Qed.

Lemma all_ranges l outs : Forall2 (fun ak o => made_ok (fst ak) (snd ak) o) l outs -> all_true (zip_with (fun k r => verRange (ct_mask k) r) (map mo_pk outs) (map mo_range outs)) = Some true.
Proof. induction 1 as [|ak o l outs (_ & _ & Hv & _) _ IH]; [reflexivity|]. cbn [map zip_with all_true]. rewrite Hv, bind_some, IH, bind_some. reflexivity. Qed.

(** ** The hash that is signed *)

(** It depends on the base and on the range proofs only. *)
Lemma prehash_stable base rs bp bpp mg mg' cl cl' po po' :
  get_pre_mlsag_hash (RctSig base (RctSigPrunable rs bp bpp mg cl po)) = get_pre_mlsag_hash (RctSig base (RctSigPrunable rs bp bpp mg' cl' po')).
Proof. reflexivity. Qed.

Lemma enc_key k : is_key k -> enc key k = Some k.
Proof. intros Hk. cbn [key enc serialize_blob]. by rewrite decide_True. Qed.

Lemma enc_list_some {A} (c : codec A) l : Forall (fun a => exists x, enc c a = Some x) l -> exists x, enc_list c l = Some x.
Proof. induction 1 as [|a l (x & E) _ (y & E')]; [by exists []|]. cbn [enc_list]. rewrite E, bind_some, E', bind_some. by eexists. Qed.

(** A base of full type is written. *)
Lemma enc_full_base base inputs : rct_type base = RCTTypeFull -> is_u64 (txnFee base) -> length (outPk base) = length (ecdhInfo base) ->
  Forall (fun e => is_key (mask e) /\ is_key (amount e)) (ecdhInfo base) -> Forall (fun k => is_key (ct_mask k)) (outPk base) ->
  exists blob, enc (serialize_rctsig_base inputs (length (ecdhInfo base))) base = Some blob.
Proof.
  intros Et Hf Hl He Hp. cbn [serialize_rctsig_base c_bind enc]. rewrite Et. cbn [serialize_uint enc]. rewrite decide_True by (by vm_compute). rewrite bind_some.
  unfold rctSigBase_fields. cbn [Z.eqb Pos.eqb RCTTypeNull RCTTypeFull rct_type_known RCTTypeSimple orb negb c_map enc]. rewrite Et. cbn [Z.eqb Pos.eqb RCTTypeFull]. rewrite bind_some.
  cbn [c_pair c_dep c_skip enc fst snd c_array serialize_varint]. rewrite Hl, !Nat.eqb_refl, decide_True by exact Hf. destruct (index_some (txnFee base) Hf) as (v & -> & _).
  destruct (enc_list_some (ecdh_c RCTTypeFull) (ecdhInfo base)) as [x ->].
  { eapply Forall_impl; [exact He|]. cbn beta. intros e [Hm Ha]. change (ecdh_c RCTTypeFull) with ecdhTuple_c. unfold ecdhTuple_c.
    cbn [c_map c_pair c_dep enc mbind option_bind fst snd]. rewrite (enc_key _ Hm), bind_some, (enc_key _ Ha), bind_some. by eexists. }
  destruct (enc_list_some outPk_c (outPk base)) as [y ->].
  { eapply Forall_impl; [exact Hp|]. cbn beta. intros k Hk. unfold outPk_c. cbn [c_map c_pair c_dep c_skip enc mbind option_bind fst snd]. rewrite (enc_key _ Hk), bind_some. by eexists. }
  rewrite !bind_some. by eexists.
Qed.

(** ** Decoding *)

Definition rct_type_ok (type : Z) : bool := negb (type =? RCTTypeNull) && (type <=? RCTTypeBulletproofPlus).

Lemma equalKeys_refl k : is_key k -> equalKeys k k = true.
Proof. intros Hk. rewrite equalKeys_spec by exact Hk. apply bool_decide_true. reflexivity. Qed.

Lemma decodeRct_ok rv sk i e k a m : let base := rct_base rv in rct_type_ok (rct_type base) = true -> length (outPk base) = length (ecdhInfo base) ->
  ecdhInfo base !! i = Some e -> outPk base !! i = Some k -> ecdhDecode e sk (short_amount (rct_type base)) = Some (EcdhTuple m (d2h a)) ->
  reduced m -> is_u64 a -> ct_mask k = encode (pedersen (le_value m) a) -> decodeRct rv sk i = ret (a, m).
Proof.
  intros base Ht Hl Ee Ek Ed Hm Ha EC. unfold decodeRct. fold base. unfold rct_type_ok in Ht. rewrite Ht. cbn [negb].
  rewrite (throw_unless_bind _ _ (proj2 (Nat.ltb_lt _ _) (lookup_lt_Some _ _ _ Ee))), (throw_unless_bind _ _ (proj2 (Nat.eqb_eq _ _) Hl)), Ee, bind_some, Ed, ebind_lift. cbn [mask amount].
  assert (ct_mask <$> outPk base !! i = Some (encode (pedersen (le_value m) a))) as -> by (rewrite Ek, <- EC; reflexivity). rewrite ebind_lift. pose proof (d2h_reduced a Ha) as Hd.
  rewrite (throw_unless_bind _ _ (reduced_checked _ Hm)), (throw_unless_bind _ _ (reduced_checked _ Hd)), (addKeys2_H _ _ Hm Hd), ebind_ret, (d2h_value a Ha).
  rewrite (throw_unless_bind _ _ (equalKeys_refl _ (encode_key _))), (h2d_d2h a Ha). reflexivity.
Qed.

Lemma lxor_bytes a b : bytes_ok a -> bytes_ok b -> bytes_ok (zip_with Z.lxor a b).
Proof.
  intros Ha. revert b. induction Ha as [|x a Hx _ IH]; intros b Hb; [constructor|]. destruct Hb as [|y b Hy Hb]; [constructor|]. cbn [zip_with]. constructor; [|exact (IH b Hb)].
  by apply is_uint_lxor.
Qed.

Lemma xor8_key v k : is_key v -> is_key k -> is_key (xor8 v k).
Proof.
  intros [Lv Hv] [Lk Hk]. unfold xor8. split; [rewrite length_app, length_zip_with, length_drop, !length_take; lia|].
  apply Forall_app. split; [apply lxor_bytes; by apply Forall_take|by apply Forall_drop].
Qed.

Lemma ecdhDecode_keys e sk v2 t : is_key (mask e) -> is_key (amount e) -> is_key sk -> ecdhDecode e sk v2 = Some t -> is_key (mask t) /\ is_key (amount t).
Proof.
  intros Hm Ha Hsk. unfold ecdhDecode. destruct v2.
  - unfold genCommitmentMask, genAmountEncodingFactor. rewrite rct_hash_to_scalar_eq, bind_some, rct_cn_fast_hash_some, bind_some. intros E. injection E as <-. cbn [mask amount].
    split; [apply mod_reduced|]. apply xor8_key; [exact Ha|apply hash_key].
  - rewrite (rct_hash_to_scalar_eq sk), bind_some, rct_hash_to_scalar_eq, bind_some, !sc_sub_eq, !bind_some by (assumption || apply mod_reduced). intros E. injection E as <-. cbn [mask amount].
    split; apply mod_reduced.
Qed.

(** An amount is only reported when the commitment of the output opens to it. *)
Lemma decodeRct_sound rv sk i a m : let base := rct_base rv in rct_type_ok (rct_type base) = true -> is_key sk ->
  Forall (fun e => is_key (mask e) /\ is_key (amount e)) (ecdhInfo base) -> Forall (fun k => is_key (ct_mask k)) (outPk base) ->
  decodeRct rv sk i = ret (a, m) -> exists k, outPk base !! i = Some k /\ reduced m /\ is_u64 a /\ commit a m = ret (ct_mask k).
Proof.
  intros base Ht Hsk He Hk. unfold decodeRct. fold base. unfold rct_type_ok in Ht. rewrite Ht. cbn [negb].
  destruct (i <? length (ecdhInfo base))%nat; cbn [throw_unless]; [|done]. rewrite ebind_ret. destruct (length (outPk base) =? length (ecdhInfo base))%nat; cbn [throw_unless]; [|done]. rewrite ebind_ret.
  destruct (ecdhInfo base !! i) as [e|] eqn:Ee; [|done]. rewrite bind_some. destruct (Forall_lookup_1 _ _ _ _ He Ee) as [Hem Hea].
  destruct (ecdhDecode e sk (short_amount (rct_type base))) as [[m' a']|] eqn:Ed; [|done]. rewrite ebind_lift. cbn [mask amount].
  destruct (outPk base !! i) as [k|] eqn:Ek; [|done]. cbn [fmap option_fmap option_map]. rewrite ebind_lift. pose proof (Forall_lookup_1 _ _ _ _ Hk Ek) as Hkm.
  assert (is_key m' /\ is_key a') as [Hm' Ha'] by exact (ecdhDecode_keys e sk _ (EcdhTuple m' a') Hem Hea Hsk Ed).
  rewrite reduced_check by done. case_bool_decide as H1; cbn [throw_unless]; [|done]. rewrite ebind_ret. rewrite reduced_check by done. case_bool_decide as H2; cbn [throw_unless]; [|done]. rewrite ebind_ret.
  assert (reduced m') as Hm by (by split). assert (reduced a') as Ha by (by split). 
  rewrite (addKeys2_H _ _ Hm Ha), ebind_ret.
  rewrite equalKeys_spec by (done || apply encode_key). case_bool_decide as EC; cbn [throw_unless]; [|done]. rewrite ebind_ret, h2d_spec by done.
  destruct (Z.ltb_spec (le_value a') (2 ^ 64)) as [Hlt|]; [|done]. unfold ret. intros E. injection E as <- <-. exists k. split; [reflexivity|]. split; [exact Hm|].
  pose proof (reduced_range _ Ha). assert (is_u64 (le_value a')) as Hu by (unfold is_uint; lia). split; [exact Hu|]. rewrite (commit_ok _ _ Hu Hm), EC. reflexivity.
Qed.

(** ** Full transactions *)

(** The parts of a signature [genRct] makes. *)
Definition full_base (message : list Z) (ring : list (list ctkey)) (outs : list made_output) (fee : Z) : rctSigBase :=
  RctSigBase RCTTypeFull message ring [] (map mo_ecdh outs) (map mo_pk outs) fee.

Definition full_sig (message : list Z) (ring : list (list ctkey)) (outs : list made_output) (fee : Z) (mgs : list mgSig) : rctSig :=
  RctSig (full_base message ring outs fee) (RctSigPrunable (map mo_range outs) [] [] mgs [] []).

Lemma full_prehash message ring l outs fee mgs : Forall2 (fun ak o => made_ok (fst ak) (snd ak) o) l outs -> is_u64 fee -> ring <> [] ->
  exists h, get_pre_mlsag_hash (full_sig message ring outs fee mgs) = ret h.
Proof.
  intros Hm Hf Hr. unfold get_pre_mlsag_hash, full_sig. cbn [rct_base]. rewrite throw_unless_bind.
  2:{ unfold full_base. cbn [mixRing]. rewrite bool_decide_false; [reflexivity|]. by destruct ring. }
  cbv zeta. destruct (enc_full_base (full_base message ring outs fee) (length (default [] (ring !! 0%nat)))) as [blob E]; unfold full_base; cbn [rct_type txnFee outPk ecdhInfo].
  - reflexivity.
  - exact Hf.
  - by rewrite !length_map.
  - apply Forall_map. clear -Hm. induction Hm as [|ak o l outs (_ & _ & _ & H1 & H2 & _) _ IH]; constructor; [split; [apply H1|apply H2]|exact IH].
  - apply Forall_map. clear -Hm. induction Hm as [|ak o l outs (_ & EC & _) _ IH]; constructor; [rewrite EC; apply encode_key|exact IH].
  - change (is_rct_simple RCTTypeFull) with false. cbv iota. unfold full_base in E. cbn [ecdhInfo mixRing] in E |- *. rewrite E, cn_fast_hash_some, ebind_lift, cn_fast_hash_keys_some, ebind_lift.
    unfold mlsag_prehash. rewrite cn_fast_hash_keys_some. by eexists.
Qed.

Lemma full_decode message ring l outs fee mgs i a k : Forall2 (fun ak o => made_ok (fst ak) (snd ak) o) l outs -> Forall amount_ok l -> l !! i = Some (a, k) ->
  exists mask, map mo_mask outs !! i = Some mask /\ decodeRct (full_sig message ring outs fee mgs) k i = ret (a, mask).
Proof.
  intros Hm Hok Ei. destruct (Forall2_lookup_l _ _ _ _ _ Hm Ei) as (o & Eo & Hmask & EC & _ & _ & _ & Ed). cbn [fst snd] in *. pose proof (Forall_lookup_1 _ _ _ _ Hok Ei) as [Ha _].
  exists (mo_mask o). split; [rewrite list_lookup_fmap, Eo; reflexivity|].
  apply (decodeRct_ok _ k i (mo_ecdh o) (mo_pk o) a (mo_mask o)); unfold full_sig, full_base; cbn [rct_base rct_type outPk ecdhInfo]; [reflexivity|by rewrite !length_map| | |exact Ed|exact Hmask|exact Ha|exact EC];
    rewrite list_lookup_fmap, Eo; reflexivity.
Qed.

Section Full.
Context (msg : list Z) (o : in_opening) (pre post : list rmember) (destinations : list (list Z)) (l : list (Z * list Z)) (fee : Z).

#[local] Abbreviation m := (in_member o).
#[local] Abbreviation ring := (map (fun m => [m]) (pre ++ m :: post)).
#[local] Abbreviation pubs := (map (map rmember_ctkey) ring).
#[local] Abbreviation image := (smul (le_value (io_x o)) (io_HP o)).

Context (Ho : in_ok o) (Hring : Forall rmember_ok (pre ++ m :: post)) (H2 : (2 <= length ring)%nat).
Context (Hl : length l = length destinations) (Hok : Forall amount_ok l) (Hfee : is_u64 fee) (Hbal : io_amount o = sum_of fst l + fee).

(** A signature with the image of the input, whose chain closes over the columns of the
    ring: a key and the commitment of the member less those of the outputs and the fee. *)
Definition full_signature (ops : list out_opening) (h : list Z) (mg : mgSig) (cols : list (list mrow)) : Prop :=
  mg_II mg = [encode image] /\ Forall2 is_column (map (balance_column (tx_balance ops fee)) ring) cols /\
  ring_chain (mlsag_step h [image]) cols (mg_ss mg) (le_value (mg_cc mg)) = le_value (mg_cc mg).

#[local] Abbreviation signs outs := (full_signature (zip_with opening_of l outs)).

(** The ring signature over the outputs that were made. *)
Lemma full_ring outs h ks draws rest : Forall2 (fun ak o => made_ok (fst ak) (snd ak) o) l outs ->
  draws_to ks draws rest -> length ks = (length ring * 2)%nat -> Forall is_key draws ->
  exists mg cols, proveRctMG h pubs [in_secret o] (map (fun o => Ctkey zero (mo_mask o)) outs) (map mo_pk outs) (length pre) (encode (smul fee H_point)) draws = ret (mg, rest) /\
    signs outs h mg cols /\
    (catch_false (verRctMG mg pubs (map mo_pk outs) (encode (smul fee H_point)) h) = Some true <->
     image <> gzero /\ Forall (fun c => c <> 0) (ring_challenges (mlsag_step h [image]) cols (mg_ss mg) (le_value (mg_cc mg)))).
Proof.
  intros Hm Hd Hks Hdk. destruct (openings_of l outs Hm) as (E1 & E2 & Hmask & Esum & _). rewrite E1, E2. set (ops := zip_with opening_of l outs) in *.
  assert (ring = map (fun m => [m]) pre ++ map in_member [o] :: map (fun m => [m]) post) as Er by (rewrite map_app; reflexivity).
  destruct (mg_full_ok h (map (fun m => [m]) pre) [o] (map (fun m => [m]) post) ops fee ks draws rest) as (mg & cols & Eg & EII & Hcols & Hch & Hv); try rewrite <- Er; try assumption.
  - done.
  - by constructor.
  - apply Forall_map. eapply Forall_impl; [exact Hring|]. cbn beta. intros m' Hm'. by constructor.
  - apply Forall_map, Forall_true. done.
  - rewrite Esum. change (sum_of io_amount [o]) with (io_amount o + 0). rewrite Hbal. lia.
  - rewrite <- Er in Eg, Hv, Hcols. rewrite length_map in Eg. exists mg, cols. split; [exact Eg|]. split; [exact (conj EII (conj Hcols Hch))|]. change (map in_member [o]) with [m] in Hv. change (map io_x [o]) with [io_x o] in Hv. cbn [key_images] in Hv.
    change (rm_HP m) with (io_HP o) in Hv. rewrite Hv, Forall_singleton. reflexivity.
Qed.

Lemma genRct_ok ks draws rest : draws_to ks draws rest -> length ks = (length destinations * 192 + length ring * 2)%nat -> Forall is_key draws ->
  exists outs mg h cols, Forall2 (fun ak o => made_ok (fst ak) (snd ak) o) l outs /\ map (fun o => dest (mo_pk o)) outs = destinations /\ signs outs h mg cols /\ let rv := full_sig msg pubs outs fee [mg] in
    genRct msg [in_secret o] destinations (map fst l ++ [fee]) pubs (map snd l) (length pre) draws = ret (rv, map mo_mask outs, rest) /\
    get_pre_mlsag_hash rv = ret h /\
    (catch_false (verRctMG mg pubs (map mo_pk outs) (encode (smul fee H_point)) h) = Some true <->
     image <> gzero /\ Forall (fun c => c <> 0) (ring_challenges (mlsag_step h [image]) cols (mg_ss mg) (le_value (mg_cc mg)))).
Proof.
  intros Hd Hks Hdk. rewrite <- (take_drop (length destinations * 192) ks) in Hd. apply draws_to_app in Hd as (d1 & Hd1 & Hd2). pose proof (draws_to_keys _ _ _ Hd1 Hdk) as [_ Hdk1].
  destruct (make_outputs_ok destinations l [fee] _ draws d1 Hl Hok Hd1 ltac:(rewrite length_take; lia) Hdk) as (outs & Eo & Edest & Hm).
  assert (pubs <> []) as Hne by (intros E; apply (f_equal length) in E; rewrite length_map in E; cbn in E; lia).
  destruct (full_prehash msg pubs l outs fee [] Hm Hfee Hne) as [h Eh].
  destruct (full_ring outs h _ d1 rest Hm Hd2 ltac:(rewrite length_drop; lia) Hdk1) as (mg & cols & Eg & Hsg & Hv). exists outs, mg, h, cols. split; [exact Hm|]. split; [exact Edest|]. split; [exact Hsg|]. cbv zeta.
  assert (length (map fst l ++ [fee]) = (length destinations + 1)%nat) as La by (rewrite length_app, length_map; cbn [length]; lia).
  split; [|split; [exact Eh|exact Hv]]. unfold genRct. cbv zeta. rewrite La.
  rewrite throw_unless_bind by (rewrite Nat.eqb_refl; apply orb_true_r). rewrite throw_unless_bind by (rewrite length_map; by apply Nat.eqb_eq).
  rewrite throw_unless_bind by (apply Nat.ltb_lt; rewrite !length_map, length_app; cbn [length]; lia).
  rewrite throw_unless_bind by (apply forallb_lengths, Forall_map, Forall_map, Forall_true; done). rewrite throw_unless_bind by reflexivity.
  assert ((length destinations <? length destinations + 1)%nat = true) as Hlt by (apply Nat.ltb_lt; lia).
  rewrite Eo, ebind_ret, Hlt. rewrite lookup_app_r, length_map, Hl, Nat.sub_diag by (rewrite length_map; lia).
  change (default 0 ([fee] !! 0%nat)) with fee. rewrite (fee_key fee Hfee), ebind_lift. change (get_pre_mlsag_hash (RctSig _ _)) with (get_pre_mlsag_hash (full_sig msg pubs outs fee [])). rewrite Eh, ebind_ret, Eg, ebind_ret. reflexivity.
Qed.
End Full.

Lemma verRct_full msg ring l outs fee mg : Forall2 (fun ak o => made_ok (fst ak) (snd ak) o) l outs -> verRct (full_sig msg ring outs fee [mg]) true = Some true.
Proof.
  intros Hm. unfold verRct, full_sig, full_base. cbn [rct_base rct_type outPk rct_p rangeSigs ecdhInfo MGs length]. change (RCTTypeFull =? RCTTypeFull) with true. cbn [negb]. rewrite !length_map, !Nat.eqb_refl.
  cbn [andb negb Nat.eqb]. unfold verRct_try. cbn [rct_base rct_p outPk rangeSigs]. rewrite (all_ranges l outs Hm). reflexivity.
Qed.

Lemma verRct_ring msg ring outs fee mg h : is_u64 fee -> get_pre_mlsag_hash (full_sig msg ring outs fee [mg]) = ret h ->
  verRct (full_sig msg ring outs fee [mg]) false = catch_false (verRctMG mg ring (map mo_pk outs) (encode (smul fee H_point)) h).
Proof.
  intros Hf Eh. unfold verRct. change (rct_type (rct_base (full_sig msg ring outs fee [mg])) =? RCTTypeFull) with true. cbn [negb andb]. unfold verRct_try.
  change (txnFee (rct_base (full_sig msg ring outs fee [mg]))) with fee. rewrite (fee_key fee Hf), ebind_lift, Eh, ebind_ret. reflexivity.
Qed.

(** C3: A full confidential transaction, from end to end.  Let the sender own one
    member of a ring of at least two, with the opening of its commitment, and let the
    amount of the input be the sum of the amounts of the outputs and the fee.  Then
    [genRct] returns a signature with the fee, an output for each destination and
    amount, and the masks of their commitments.  Its range proofs and its shape pass
    the first part of [verRct].  Its one ring signature carries the key image
    [x Hp(P)], and its challenges chain round the columns of the ring, each the key of
    a member and its commitment less those of the outputs and the fee; it passes the
    second part of [verRct] exactly when the image is not the identity and none of
    these challenges is zero.  And [decodeRct] with the shared secret of any output
    gives its receiver the amount that was sent and the mask of its commitment. *)
Theorem rct_full_complete msg o pre post destinations l fee ks draws rest :
  let ring := map (fun m => [m]) (pre ++ in_member o :: post) in let pubs := map (map rmember_ctkey) ring in let image := smul (le_value (io_x o)) (io_HP o) in
  in_ok o -> Forall rmember_ok (pre ++ in_member o :: post) -> (2 <= length ring)%nat -> length l = length destinations -> Forall amount_ok l -> is_u64 fee ->
  io_amount o = sum_of fst l + fee -> Forall is_key draws -> draws_to ks draws rest -> length ks = (length destinations * 192 + length ring * 2)%nat ->
  exists rv outs mg h cols, genRct msg [in_secret o] destinations (map fst l ++ [fee]) pubs (map snd l) (length pre) draws = ret (rv, map oo_mask outs, rest) /\
    txnFee (rct_base rv) = fee /\ outPk (rct_base rv) = map out_public outs /\ map oo_dest outs = destinations /\ map oo_amount outs = map fst l /\
    verRct rv true = Some true /\
    MGs (rct_p rv) = [mg] /\ mg_II mg = [encode image] /\ get_pre_mlsag_hash rv = ret h /\
    Forall2 is_column (map (balance_column (tx_balance outs fee)) ring) cols /\
    ring_chain (mlsag_step h [image]) cols (mg_ss mg) (le_value (mg_cc mg)) = le_value (mg_cc mg) /\
    (verRct rv false = Some true <-> image <> gzero /\ Forall (fun c => c <> 0) (ring_challenges (mlsag_step h [image]) cols (mg_ss mg) (le_value (mg_cc mg)))) /\
    (forall i a k, l !! i = Some (a, k) -> exists mask, map oo_mask outs !! i = Some mask /\ decodeRct rv k i = ret (a, mask)).
Proof.
  intros ring pubs image Ho Hring H2 Hl Hok Hfee Hbal Hdk Hd Hks.
  destruct (genRct_ok msg o pre post destinations l fee Ho Hring H2 Hl Hok Hfee Hbal ks draws rest Hd Hks Hdk) as (outs & mg & h & cols & Hm & Edest & (EII & Hcols & Hch) & Eg & Eh & Hv).
  destruct (openings_of l outs Hm) as (E1 & _ & _ & _ & E5 & E6 & E7).
  exists (full_sig msg pubs outs fee [mg]), (zip_with opening_of l outs), mg, h, cols. rewrite E5. split; [exact Eg|]. split; [reflexivity|]. split; [exact E1|]. split; [by rewrite E7|]. split; [exact E6|].
  split; [exact (verRct_full _ _ l _ _ _ Hm)|]. split; [reflexivity|]. split; [exact EII|]. split; [exact Eh|]. split; [exact Hcols|]. split; [exact Hch|].
  split; [rewrite (verRct_ring msg pubs outs fee mg h Hfee Eh); exact Hv|]. intros i a k Ei. exact (full_decode _ _ l _ _ _ i a k Hm Hok Ei).
Qed.

Lemma rct_full_witness : exists HP m' rv masks, let o := InOpening (3 :: replicate 31 0) (4 :: replicate 31 0) 9 HP in
  genRct zero [in_secret o] [zero] [7; 2] (map (map rmember_ctkey) (map (fun m => [m]) [in_member o; m'])) [zero] 0 (replicate 196 (7 :: replicate 31 0)) = ret (rv, masks, []).
Proof.
  destruct (biased_hash_to_ec_ok (encode (smul (le_value (3 :: replicate 31 0)) B))) as (HP & H). destruct some_member as (HP' & H').
  set (o := InOpening (3 :: replicate 31 0) (4 :: replicate 31 0) 9 HP).
  assert (in_ok o) as Ho by (split; [exact (small_reduced 3 ltac:(lia))|split; [exact (small_reduced 4 ltac:(lia))|exact H]]).
  assert (Forall rmember_ok ([] ++ in_member o :: [Rmember B B HP'])) as Hr by (constructor; [exact H|constructor; [exact H'|constructor]]).
  assert (Forall amount_ok [(7, zero)]) as Ha by (constructor; [split; [done|exact (proj1 (small_reduced 0 ltac:(lia)))]|constructor]).
  destruct (rct_full_complete zero o [] [Rmember B B HP'] [zero] [(7, zero)] 2 _ _ [] Ho Hr ltac:(cbn; lia) eq_refl Ha ltac:(done) eq_refl (repeated_draw_keys 196) (repeated_draws 196)
    (length_replicate _ _)) as (rv & outs & _ & _ & _ & E & _).
  exists HP, (Rmember B B HP'), rv, (map oo_mask outs). exact E.
Defined.

(** C7: Decoding is sound.  For any signature of a known type and any secret,
    [decodeRct] reports an amount only if it has 64 bits, the mask is below the order
    and the commitment of the output opens to them: a receiver is never told an amount
    the output does not carry.  Conversely it reports the amount and the mask whenever
    the encoded pair decodes to an opening of the commitment. *)
Theorem decodeRct_correct rv sk i e k m a : let base := rct_base rv in
  rct_type_ok (rct_type base) = true -> is_key sk -> Forall (fun e => is_key (mask e) /\ is_key (amount e)) (ecdhInfo base) -> Forall (fun k => is_key (ct_mask k)) (outPk base) ->
  length (outPk base) = length (ecdhInfo base) -> ecdhInfo base !! i = Some e -> outPk base !! i = Some k ->
  (forall a m, decodeRct rv sk i = ret (a, m) -> reduced m /\ is_u64 a /\ commit a m = ret (ct_mask k)) /\
  (reduced m -> is_u64 a -> ecdhDecode e sk (short_amount (rct_type base)) = Some (EcdhTuple m (d2h a)) -> commit a m = ret (ct_mask k) -> decodeRct rv sk i = ret (a, m)).
Proof.
  intros base Ht Hsk He Hk Hl Ee Ek. split.
  - intros a' m' E. destruct (decodeRct_sound rv sk i a' m' Ht Hsk He Hk E) as (k' & Ek' & H). fold base in Ek'. rewrite Ek in Ek'. injection Ek' as <-. exact H.
  - intros Hm Ha Ed Ec. rewrite (commit_ok a m Ha Hm) in Ec. apply Some_inj, Some_inj in Ec. exact (decodeRct_ok rv sk i e k a m Ht Hl Ee Ek Ed Hm Ha (eq_sym Ec)).
Qed.

Lemma decodeRct_witness : exists e C, decodeRct (RctSig (RctSigBase RCTTypeFull zero [] [] [e] [Ctkey zero C] 0) rctSigPrunable_null) zero 0 = ret (7, 5 :: replicate 31 0) /\
  commit 7 (5 :: replicate 31 0) = ret C.
Proof.
  pose proof (proj1 (small_reduced 0 ltac:(lia)) : is_key zero) as Hz. pose proof (small_reduced 5 ltac:(lia) : reduced (5 :: replicate 31 0)) as Hm. assert (is_u64 7) as Ha by done.
  destruct (ecdh_long_ok _ (d2h 7) zero Hm (d2h_reduced 7 Ha) Hz) as (e & _ & [He1 _] & [He2 _] & Ed). pose proof (commit_ok 7 _ Ha Hm) as EC.
  set (C := encode _) in EC. exists e, C. split; [|exact EC].
  assert (Forall (fun e => is_key (mask e) /\ is_key (amount e)) [e]) as H1 by (constructor; [exact (conj He1 He2)|constructor]).
  assert (Forall (fun k => is_key (ct_mask k)) [Ctkey zero C]) as H2 by (constructor; [apply encode_key|constructor]).
  exact (proj2 (decodeRct_correct (RctSig (RctSigBase RCTTypeFull zero [] [] [e] [Ctkey zero C] 0) rctSigPrunable_null) zero 0 e (Ctkey zero C) (5 :: replicate 31 0) 7
    eq_refl Hz H1 H2 eq_refl eq_refl eq_refl) Hm Ha Ed EC).
Defined.
