(* ===== verification/FormatUtils.v ===== *)
(** * Amounts, fees and offsets

    [src/cryptonote_basic/cryptonote_format_utils.cpp]: overflow checks and
    totals of amounts, fees, decimal amounts, output types, ring member
    offsets and the weight of a transaction. *)

From S2P Require Import Prelude Config BinaryArchive RctTypes TxFormat.

(** ** Definitions *)

(** *** Amounts *)

(** [None]: an input that is not [txin_to_key] ends the function with an error. *)
Fixpoint inputs_money (money : Z) (ins : list txin_v) : option Z :=
  match ins with
  | [] => Some money
  | Txin_to_key t :: ins => inputs_money (u64 (money + in_amount t)) ins
  | _ => None
  end.

Definition get_inputs_money_amount (tx : transaction) : option Z := inputs_money 0 (vin (tx_prefix tx)).

Fixpoint inputs_overflow_loop (money : Z) (ins : list txin_v) : bool :=
  match ins with
  | [] => true
  | Txin_to_key t :: ins =>
      if u64 (in_amount t + money) <? money then false
      else inputs_overflow_loop (u64 (money + in_amount t)) ins
  | _ => false
  end.

Definition check_inputs_overflow (tx : transaction) : bool := inputs_overflow_loop 0 (vin (tx_prefix tx)).

Fixpoint outs_overflow_loop (money : Z) (outs : list tx_out) : bool :=
  match outs with
  | [] => true
  | o :: outs =>
      if u64 (out_amount o + money) <? money then false
      else outs_overflow_loop (u64 (money + out_amount o)) outs
  end.

Definition check_outs_overflow (tx : transaction) : bool := outs_overflow_loop 0 (vout (tx_prefix tx)).

Definition check_money_overflow (tx : transaction) : bool :=
  check_inputs_overflow tx && check_outs_overflow tx.

Definition get_outs_money_amount (tx : transaction) : Z :=
  foldl (fun outputs_amount o => u64 (outputs_amount + out_amount o)) 0 (vout (tx_prefix tx)).

(** [get_tx_fee(tx, fee)]: the fee, or [None] where it returns false. *)
Definition get_tx_fee (tx : transaction) : option Z :=
  if 1 <? version (tx_prefix tx) then Some (txnFee (rct_base (rct_signatures (tx_sig tx))))
  else
    amount_in ← inputs_money 0 (vin (tx_prefix tx));
    let amount_out := get_outs_money_amount tx in
    if amount_out <=? amount_in then Some (amount_in - amount_out) else None.

Definition get_tx_fee_or_zero (tx : transaction) : Z := default 0 (get_tx_fee tx).

Definition get_block_height (b : block) : Z :=
  match vin (tx_prefix (miner_tx b)) with
  | [Txin_gen height] => height
  | _ => 0
  end.

Definition check_inputs_types_supported (tx : transaction) : bool :=
  forallb (fun i => match i with Txin_to_key _ => true | _ => false end) (vin (tx_prefix tx)).

(** *** Output types *)

Definition is_to_key (t : txout_target_v) : bool := match t with Txout_to_key _ => true | _ => false end.
Definition is_to_tagged_key (t : txout_target_v) : bool :=
  match t with Txout_to_tagged_key _ _ => true | _ => false end.

Definition check_output_types (tx : transaction) (hf_version : Z) : bool :=
  let outs := vout (tx_prefix tx) in
  forallb (fun o =>
    if HF_VERSION_VIEW_TAGS <? hf_version then is_to_tagged_key (target o)
    else if hf_version <? HF_VERSION_VIEW_TAGS then is_to_key (target o)
    else (is_to_key (target o) || is_to_tagged_key (target o))
         && match outs with o0 :: _ => txout_tag (target o) =? txout_tag (target o0) | [] => false end)
    outs.

(** *** Decimal amounts *)

(** [while (amount % 10 == 0) amount /= 10]: 20 rounds remove every trailing
    zero of a 64-bit amount that is not 0. *)
Definition is_valid_decomposed_amount (amount : Z) : option bool :=
  if amount =? 0 then Some false
  else
    amount ← while_fuel (fun a => a mod 10 =? 0) (fun a => a / 10) 20 amount;
    Some (amount <? 10).

(** ["%llu"]: decimal digits, most significant first, of a 64-bit number. *)
Fixpoint digits_loop (fuel : nat) (n : Z) (acc : list Z) : list Z :=
  match fuel with
  | O => acc
  | S fuel => if n <? 10 then n :: acc else digits_loop fuel (n / 10) (n mod 10 :: acc)
  end.
Definition print_digits (n : Z) : list Z := digits_loop 20 n [].

(** [strtoull] of a string of digits, before its range check. *)
Definition digits_value (ds : list Z) : Z := foldl (fun v d => 10 * v + d) 0 ds.

(** The carry, from the least significant digit kept: the digits, and
    whether it went past the first one. *)
Fixpoint bump_digits (ds : list Z) : list Z * bool :=
  match ds with
  | [] => ([], true)
  | d :: ds =>
      let '(ds', bump) := bump_digits ds in
      if bump then if d =? 9 then (0 :: ds', true) else (d + 1 :: ds', false)
      else (d :: ds', false)
  end.

Definition round_money_up (amount significant_digits : Z) : option Z :=
  if significant_digits =? 0 then None
  else
    let buf := print_digits amount in
    let buf :=
      if significant_digits <? Z.of_nat (length buf) then
        let hi := take (Z.to_nat significant_digits) buf in
        let lo := drop (Z.to_nat significant_digits) buf in
        if forallb (fun d => d =? 0) lo then buf
        else
          let '(hi, bump) := bump_digits hi in
          let buf := hi ++ replicate (length lo) 0 in
          if bump then 1 :: buf else buf
      else buf in
    let ull := digits_value buf in
    if UINT64_MAX <? ull then None
    else if (ull =? 0) && negb (amount =? 0) then None
    else Some ull.

(** *** Ring member offsets *)

(** [res[i] += res[i-1]] from the second element on. *)
Fixpoint to_absolute (prev : Z) (off : list Z) : list Z :=
  match off with
  | [] => []
  | x :: off => let a := u64 (x + prev) in a :: to_absolute a off
  end.

Definition relative_output_offsets_to_absolute (off : list Z) : list Z :=
  match off with [] => [] | x :: off => x :: to_absolute x off end.

(** [res[i] -= res[i-1]] from the last element down to the second. *)
Fixpoint to_relative (prev : Z) (off : list Z) : list Z :=
  match off with
  | [] => []
  | x :: off => u64 (x - prev) :: to_relative x off
  end.

Definition absolute_output_offsets_to_relative (off : list Z) : list Z :=
  match merge_sort Z.le off with [] => [] | x :: off => x :: to_relative x off end.

(** *** Weight *)

(** [while ((1u << nlr) < n) ++nlr] for [n <= 2^31]. *)
Definition log2_up_loop (n : Z) : option Z :=
  while_fuel (fun nlr => u32 (Z.shiftl 1 nlr) <? n) (fun nlr => nlr + 1) 32 0.

(** [None]: one of the assertions throws. *)
Definition get_transaction_weight_clawback (tx : transaction) (n_padded_outputs : Z) : option Z :=
  let plus := rct_type (rct_base (rct_signatures (tx_sig tx))) =? RCTTypeBulletproofPlus in
  let bp_base := (32 * ((if plus then 6 else 9) + 7 * 2)) / 2 in
  let n_outputs := Z.of_nat (length (vout (tx_prefix tx))) in
  if n_padded_outputs <=? 2 then Some 0
  else
    nlr ← log2_up_loop n_padded_outputs;
    let nlr := nlr + 6 in
    let bp_size := u64 (32 * ((if plus then 6 else 9) + 2 * nlr)) in
    if negb (n_outputs <=? BULLETPROOF_MAX_OUTPUTS) then None
    else if negb (bp_size <=? u64 (bp_base * n_padded_outputs)) then None
    else Some (u64 (u64 (u64 (bp_base * n_padded_outputs) - bp_size) * 4) / 5).

Definition get_transaction_weight (tx : transaction) (blob_size : Z) : option Z :=
  if version (tx_prefix tx) <? 2 then Some blob_size
  else
    let rv := rct_signatures (tx_sig tx) in
    let bulletproof := is_rct_bulletproof (rct_type (rct_base rv)) in
    let bulletproof_plus := is_rct_bulletproof_plus (rct_type (rct_base rv)) in
    if negb bulletproof && negb bulletproof_plus then Some blob_size
    else
      let n_padded_outputs := if bulletproof_plus then n_bulletproof_plus_max_amounts (bulletproofs_plus (rct_p rv))
                              else n_bulletproof_max_amounts (bulletproofs (rct_p rv)) in
      bp_clawback ← get_transaction_weight_clawback tx n_padded_outputs;
      if negb (bp_clawback <=? UINT64_MAX - blob_size) then None
      else Some (blob_size + bp_clawback).

(** ** Totals *)

Definition sum_amounts (l : list Z) : Z := foldr Z.add 0 l.

Lemma sum_cons x l : sum_amounts (x :: l) = x + sum_amounts l.
Proof. done. Qed.

Lemma sum_amounts_nonneg l : Forall is_u64 l -> 0 <= sum_amounts l.
Proof. induction 1 as [|x l [Hx _] _ IH]; [done|]. rewrite sum_cons. lia. Qed.

Lemma outs_overflow_loop_spec money outs :
  is_u64 money -> Forall is_u64 (map out_amount outs) ->
  outs_overflow_loop money outs = (money + sum_amounts (map out_amount outs) <? 2 ^ 64).
Proof.
  revert money; induction outs as [|o outs IH]; intros money Hm Ho; cbn [outs_overflow_loop map].
  { unfold is_uint in Hm. change (sum_amounts []) with 0. bcase; lia. }
  inversion_clear Ho as [|? ? Ho1 Ho2]. pose proof (sum_amounts_nonneg _ Ho2) as Hs. rewrite sum_cons.
  destruct (decide (out_amount o + money < 2 ^ 64)) as [Hlt|Hge].
  - rewrite !wrapu_small by (unfold is_uint in *; lia). destruct (Z.ltb_spec (out_amount o + money) money); [unfold is_uint in *; lia|].
    rewrite IH by (try done; unfold is_uint in *; lia). f_equal. lia.
  - assert (u64 (out_amount o + money) = out_amount o + money - 2 ^ 64) as -> by zdm.
    unfold is_uint in *. bcase; [|lia]. symmetry. apply Z.ltb_ge. lia.
Qed.

Lemma outs_money_spec tx :
  get_outs_money_amount tx = u64 (sum_amounts (map out_amount (vout (tx_prefix tx)))).
Proof.
  unfold get_outs_money_amount. set (outs := vout _).
  change 0 with (u64 0) at 1. replace (sum_amounts _) with (0 + sum_amounts (map out_amount outs)) by lia.
  generalize 0. induction outs as [|o outs IH]; intros acc; cbn [foldl map].
  { f_equal. change (sum_amounts []) with 0. lia. }
  replace (u64 (u64 acc + out_amount o)) with (u64 (acc + out_amount o)) by (unfold wrapu; by rewrite Z.add_mod_idemp_l).
  rewrite IH, sum_cons. f_equal. lia.
Qed.

(** ** Decimal digits *)

Definition digit (d : Z) : Prop := 0 <= d < 10.

Lemma digits_value_acc ds v : foldl (fun v d => 10 * v + d) v ds = v * 10 ^ Z.of_nat (length ds) + digits_value ds.
Proof.
  unfold digits_value. revert v; induction ds as [|d ds IH]; intros v; cbn [foldl length]; [lia|].
  rewrite IH, (IH (10 * 0 + d)), Nat2Z.inj_succ, Z.pow_succ_r by lia. lia.
Qed.

Lemma digits_value_cons d ds : digits_value (d :: ds) = d * 10 ^ Z.of_nat (length ds) + digits_value ds.
Proof. unfold digits_value at 1. cbn [foldl]. rewrite digits_value_acc. lia. Qed.

Lemma digits_value_app a b : digits_value (a ++ b) = digits_value a * 10 ^ Z.of_nat (length b) + digits_value b.
Proof. unfold digits_value at 1. rewrite foldl_app. apply digits_value_acc. Qed.

Lemma digits_value_range ds : Forall digit ds -> 0 <= digits_value ds < 10 ^ Z.of_nat (length ds).
Proof.
  induction 1 as [|d ds Hd _ IH]; [done|]. rewrite digits_value_cons. cbn [length].
  rewrite Nat2Z.inj_succ, Z.pow_succ_r by lia. unfold digit in Hd. nia.
Qed.

Lemma digits_value_zeros n : digits_value (replicate n 0) = 0.
Proof. induction n as [|n IH]; [done|]. cbn [replicate]. rewrite digits_value_cons, IH. lia. Qed.

Lemma digits_zero ds : Forall digit ds -> forallb (fun d => d =? 0) ds = (digits_value ds =? 0).
Proof.
  induction 1 as [|d ds Hd Hds IH]; [done|]. cbn [forallb]. rewrite IH, digits_value_cons.
  pose proof (digits_value_range ds Hds). pose proof (Z.pow_pos_nonneg 10 (Z.of_nat (length ds)) ltac:(lia) ltac:(lia)).
  unfold digit in Hd. destruct (Z.eqb_spec d 0), (Z.eqb_spec (digits_value ds) 0), (Z.eqb_spec (d * 10 ^ Z.of_nat (length ds) + digits_value ds) 0); nia.
Qed.

Lemma digits_loop_spec fuel n acc : (0 < fuel)%nat -> 0 <= n < 10 ^ Z.of_nat fuel ->
  exists ds, digits_loop fuel n acc = ds ++ acc /\ digits_value ds = n /\ Forall digit ds /\
    (1 <= length ds)%nat /\ (length ds = 1%nat \/ 10 ^ (Z.of_nat (length ds) - 1) <= n).
Proof.
  revert n acc; induction fuel as [|fuel IH]; intros n acc Hf Hn; [lia|]. cbn [digits_loop].
  destruct (Z.ltb_spec n 10) as [Hlt|Hge].
  { exists [n]. split; [done|]. split; [cbn; lia|]. split; [repeat constructor; lia|]. cbn. lia. }
  rewrite Nat2Z.inj_succ, Z.pow_succ_r in Hn by lia.
  destruct fuel as [|fuel]; [cbn in Hn; lia|].
  destruct (IH (n / 10) (n mod 10 :: acc)) as (ds & -> & Hv & Hd & Hl & Hlo); [lia|zdm|].
  exists (ds ++ [n mod 10]). rewrite <- app_assoc. split; [done|]. rewrite digits_value_app, Hv, length_app.
  cbn [length digits_value foldl]. split; [change (Z.of_nat 1) with 1; rewrite Z.pow_1_r; zdm|].
  split; [apply Forall_app; split; [done|]; repeat constructor; zdm|]. split; [lia|]. right.
  replace (Z.of_nat (length ds + 1) - 1) with (Z.of_nat (length ds)) by lia.
  destruct Hlo as [E|Hlo]; [rewrite E; cbn; lia|].
  replace (Z.of_nat (length ds)) with (Z.succ (Z.of_nat (length ds) - 1)) by lia.
  rewrite Z.pow_succ_r by lia. zdm.
Qed.

Lemma bump_digits_spec ds : Forall digit ds ->
  let '(ds', bump) := bump_digits ds in
  length ds' = length ds /\
  digits_value ds' + (if bump then 10 ^ Z.of_nat (length ds) else 0) = digits_value ds + 1.
Proof.
  induction 1 as [|d ds Hd _ IH]; [done|]. cbn [bump_digits length].
  destruct (bump_digits ds) as [ds' bump]. destruct IH as [El Ev].
  rewrite Nat2Z.inj_succ, Z.pow_succ_r by lia.
  destruct bump; [destruct (Z.eqb_spec d 9)|]; cbn [length]; rewrite !digits_value_cons, El; split; lia.
Qed.

(** Rounding up to a multiple of [10^k]. *)
Definition ceil_to (k a : Z) : Z := (a + 10 ^ k - 1) / 10 ^ k * 10 ^ k.

Lemma ceil_to_split k hi lo : 0 <= k -> 0 <= lo < 10 ^ k ->
  ceil_to k (hi * 10 ^ k + lo) = (if lo =? 0 then hi else hi + 1) * 10 ^ k.
Proof.
  intros Hk Hlo. unfold ceil_to. f_equal. destruct (Z.eqb_spec lo 0) as [->|].
  - replace (hi * 10 ^ k + 0 + 10 ^ k - 1) with ((10 ^ k - 1) + hi * 10 ^ k) by lia.
    rewrite Z.div_add, Z.div_small by lia. lia.
  - replace (hi * 10 ^ k + lo + 10 ^ k - 1) with ((lo - 1) + (hi + 1) * 10 ^ k) by lia.
    rewrite Z.div_add, Z.div_small by lia. lia.
Qed.

Lemma ceil_to_ge k a : 0 <= k -> 0 <= a -> a <= ceil_to k a < a + 10 ^ k.
Proof.
  intros Hk Ha. unfold ceil_to. pose proof (Z.pow_pos_nonneg 10 k ltac:(lia) Hk) as Hp.
  pose proof (Z.div_mod (a + 10 ^ k - 1) (10 ^ k)). pose proof (Z.mod_pos_bound (a + 10 ^ k - 1) (10 ^ k)). lia.
Qed.

Lemma ceil_to_least k a q : 0 <= k -> a <= q * 10 ^ k -> ceil_to k a <= q * 10 ^ k.
Proof.
  intros Hk Ha. unfold ceil_to. pose proof (Z.pow_pos_nonneg 10 k ltac:(lia) Hk) as Hp.
  apply Z.mul_le_mono_nonneg_r; [lia|]. apply Z.lt_succ_r, Z.div_lt_upper_bound; lia.
Qed.

Lemma ceil_to_mono k a b : 0 <= k -> 0 <= b -> a <= b -> ceil_to k a <= ceil_to k b.
Proof. intros Hk Hb Ha. apply ceil_to_least; [done|]. pose proof (ceil_to_ge k b Hk Hb). unfold ceil_to in *. lia. Qed.

Lemma print_digits_spec n : is_u64 n ->
  digits_value (print_digits n) = n /\ Forall digit (print_digits n) /\
  (1 <= length (print_digits n))%nat /\
  (length (print_digits n) = 1%nat \/ 10 ^ (Z.of_nat (length (print_digits n)) - 1) <= n) /\
  n < 10 ^ Z.of_nat (length (print_digits n)).
Proof.
  intros [Hn0 Hn]. destruct (digits_loop_spec 20 n []) as (ds & E & Hv & Hd & Hl & Hlo); [lia|cbn; lia|].
  unfold print_digits. rewrite E, app_nil_r. pose proof (digits_value_range ds Hd). split_and!; try done. lia.
Qed.

Lemma round_buf_spec amount d : is_u64 amount -> 0 < d ->
  let buf := print_digits amount in
  let k := Z.max 0 (Z.of_nat (length buf) - d) in
  round_money_up amount d = if ceil_to k amount <=? UINT64_MAX then Some (ceil_to k amount) else None.
Proof.
  intros Ha Hd buf k. destruct (print_digits_spec amount Ha) as (Hv & Hdig & Hl & _ & Hlt). fold buf in Hv, Hdig, Hl, Hlt.
  unfold round_money_up. destruct (Z.eqb_spec d 0); [lia|]. fold buf. cbv zeta.
  set (res := if d <? Z.of_nat (length buf) then _ else buf).
  assert (digits_value res = ceil_to k amount) as Er.
  { unfold res. destruct (Z.ltb_spec d (Z.of_nat (length buf))) as [Hlong|Hshort].
    - set (hi := take _ buf). set (lo := drop _ buf). pose proof (take_drop (Z.to_nat d) buf) as Eb. fold hi lo in Eb.
      assert (Forall digit hi /\ Forall digit lo) as [Hhi Hlo] by (split; [by apply Forall_take|by apply Forall_drop]).
      assert (Z.of_nat (length lo) = k) as Ek by (unfold lo; rewrite length_drop; lia).
      pose proof (digits_value_range lo Hlo) as Hr. rewrite Ek in Hr.
      assert (amount = digits_value hi * 10 ^ k + digits_value lo) as Ea
        by (by rewrite <- Hv, <- Eb, digits_value_app, Ek).
      assert (ceil_to k amount = (if digits_value lo =? 0 then digits_value hi else digits_value hi + 1) * 10 ^ k) as ->
        by (rewrite Ea; apply ceil_to_split; lia).
      rewrite digits_zero by done.
      destruct (digits_value lo =? 0) eqn:Ez.
      + apply Z.eqb_eq in Ez. rewrite <- Eb, digits_value_app, Ek, Ez. lia.
      + pose proof (bump_digits_spec hi Hhi) as Hb. destruct (bump_digits hi) as [hi' bump]. destruct Hb as [El Eb'].
        destruct bump; rewrite ?digits_value_cons, ?digits_value_app, ?length_app, ?length_replicate,
          ?digits_value_zeros, ?Nat2Z.inj_add, ?Ek, ?Z.pow_add_r by lia; rewrite ?El; nia.
    - replace k with 0 by lia. unfold ceil_to. rewrite Z.pow_0_r, Z.div_1_r. lia. }
  rewrite Er. assert (0 <= amount <= ceil_to k amount) as Hc.
  { unfold is_uint in Ha. pose proof (ceil_to_ge k amount). lia. }
  destruct (Z.ltb_spec UINT64_MAX (ceil_to k amount)), (Z.leb_spec (ceil_to k amount) UINT64_MAX); try lia; [done|].
  destruct (Z.eqb_spec (ceil_to k amount) 0), (Z.eqb_spec amount 0); cbn; try done; lia.
Qed.

(** More money does not round to less. *)
Lemma round_money_up_mono d a b : 0 < d -> 0 <= a <= b -> b + 10 ^ 19 < 2 ^ 64 -> 
  exists a' b', round_money_up a d = Some a' /\ round_money_up b d = Some b' /\ a <= a' <= b'.
Proof.
  intros Hd Hab Hb. assert (is_u64 a /\ is_u64 b) as [Ha' Hb'] by (unfold is_uint; lia).
  destruct (print_digits_spec a Ha') as (_ & _ & Hl & Hlo & Hhi), (print_digits_spec b Hb') as (_ & _ & Hl' & Hlo' & Hhi').
  rewrite !round_buf_spec by done. cbv zeta.
  set (n := Z.of_nat (length (print_digits a))) in *. set (n' := Z.of_nat (length (print_digits b))) in *.
  assert (forall x y, 0 <= x -> 0 <= y -> 10 ^ x < 10 ^ y -> x < y) as Hpow.
  { intros x y Hx Hy Hxy. destruct (decide (x < y)); [done|]. pose proof (Z.pow_le_mono_r 10 y x). lia. }
  assert (n <= n').
  { destruct Hlo as [E|Hlo]; [lia|]. assert (n - 1 < n'); [|lia]. apply Hpow; lia. }
  assert (n' <= 20).
  { destruct Hlo' as [E|Hlo']; [lia|]. assert (n' - 1 < 20); [|lia]. apply Hpow; lia. }
  set (k := Z.max 0 (n - d)). set (k' := Z.max 0 (n' - d)).
  pose proof (ceil_to_ge k a) as Ga. pose proof (ceil_to_ge k' b) as Gb.
  assert (10 ^ k' <= 10 ^ 19) by (apply Z.pow_le_mono_r; lia).
  assert (ceil_to k a <= ceil_to k' b).
  { unfold ceil_to at 2. replace k' with ((k' - k) + k) by lia. rewrite Z.pow_add_r, Z.mul_assoc by lia.
    apply ceil_to_least; [lia|]. rewrite <- Z.mul_assoc, <- Z.pow_add_r by lia.
    replace (k' - k + k) with k' by lia. fold (ceil_to k' b). lia. }
  unfold UINT64_MAX. destruct (Z.leb_spec (ceil_to k a) (2 ^ 64 - 1)); [|lia].
  destruct (Z.leb_spec (ceil_to k' b) (2 ^ 64 - 1)); [|lia]. eexists _, _. split_and!; [done|done|lia|lia].
Qed.

(** ** Decomposed amounts *)

Lemma decomposed_loop_spec n amount fuel : (n <= fuel)%nat -> 0 < amount < 10 ^ Z.of_nat n ->
  exists k, 0 <= k /\ amount mod 10 ^ k = 0 /\
    while_fuel (fun a => a mod 10 =? 0) (fun a => a / 10) fuel amount = Some (amount / 10 ^ k) /\
    (amount / 10 ^ k) mod 10 <> 0.
Proof.
  revert amount fuel; induction n as [|n IH]; intros amount fuel Hf Ha; [cbn in Ha; lia|].
  rewrite Nat2Z.inj_succ, Z.pow_succ_r in Ha by lia. destruct fuel as [|fuel]; [lia|]. cbn [while_fuel].
  destruct (Z.eqb_spec (amount mod 10) 0) as [E|E].
  - destruct (IH (amount / 10) fuel) as (k & Hk & Hm & Hw & Hne); [lia|zdm|].
    exists (k + 1). rewrite Z.pow_add_r, Z.pow_1_r, (Z.mul_comm (10 ^ k)), <- Z.div_div by lia.
    split; [lia|]. split; [|done].
    pose proof (Z.div_mod amount 10 ltac:(lia)) as Hdm. rewrite E in Hdm.
    pose proof (Z.div_mod (amount / 10) (10 ^ k) ltac:(lia)) as Hdm2. rewrite Hm in Hdm2.
    rewrite Hdm at 1. rewrite Hdm2 at 1. replace (10 * (10 ^ k * (amount / 10 / 10 ^ k) + 0) + 0)
      with (amount / 10 / 10 ^ k * (10 * 10 ^ k)) by lia. apply Z.mod_mul. lia.
  - exists 0. rewrite Z.pow_0_r, Z.div_1_r, Z.mod_1_r. done.
Qed.

(** ** Offsets *)

Lemma to_absolute_sorted prev off : is_u64 prev -> Forall is_u64 off -> prev + sum_amounts off < 2 ^ 64 ->
  StronglySorted Z.le (prev :: to_absolute prev off) /\ Forall is_u64 (to_absolute prev off) /\
  to_relative prev (to_absolute prev off) = off.
Proof.
  revert prev; induction off as [|x off IH]; intros prev Hp Ho Hs; cbn [to_absolute to_relative].
  { split; [by repeat constructor|]. done. }
  inversion_clear Ho as [|? ? Hx Ho']. rewrite sum_cons in Hs. pose proof (sum_amounts_nonneg _ Ho') as Hn.
  unfold is_uint in *. rewrite (wrapu_small 64 (x + prev)) by (unfold is_uint; lia).
  destruct (IH (x + prev)) as (Hsort & Hu & Hrel); [lia|done|lia|].
  split; [|split; [by constructor; [lia|]|]].
  - constructor; [done|]. inversion_clear Hsort as [|? ? Hs' Hall]. constructor; [lia|].
    eapply Forall_impl; [exact Hall|]. cbn. lia.
  - rewrite Hrel. f_equal. rewrite wrapu_small by (unfold is_uint; lia). lia.
Qed.

Lemma to_relative_absolute prev off : StronglySorted Z.le (prev :: off) -> Forall is_u64 (prev :: off) ->
  to_absolute prev (to_relative prev off) = off.
Proof.
  revert prev; induction off as [|x off IH]; intros prev Hs Hu; [done|]. cbn [to_relative to_absolute].
  inversion_clear Hs as [|? ? Hs' Hall]. inversion_clear Hall as [|? ? Hle _].
  inversion_clear Hu as [|? ? Hp Hu']. inversion Hu' as [|? ? Hx Hu'']; subst. unfold is_uint in *.
  rewrite (wrapu_small 64 (x - prev)), wrapu_small by (unfold is_uint; lia).
  replace (x - prev + prev) with x by lia. f_equal. by apply IH.
Qed.

(** A valid decomposed amount has one digit that is not 0, the first. *)
Lemma decomposed_amount_spec amount : is_u64 amount ->
  exists r, is_valid_decomposed_amount amount = Some r /\
    (r = true <-> exists d k, 1 <= d <= 9 /\ 0 <= k /\ amount = d * 10 ^ k).
Proof.
  intros [Ha0 Ha]. unfold is_valid_decomposed_amount. destruct (Z.eqb_spec amount 0) as [->|Hne].
  { exists false. split; [done|]. split; [done|]. intros (d & k & Hd & Hk & E).
    pose proof (Z.pow_pos_nonneg 10 k). nia. }
  destruct (decomposed_loop_spec 20 amount 20) as (k & Hk & Hm & Hw & Hn); [lia|cbn; lia|].
  rewrite Hw. cbn [mbind option_bind]. eexists. split; [done|].
  pose proof (Z.pow_pos_nonneg 10 k ltac:(lia) Hk) as Hp. pose proof (Z.div_mod amount (10 ^ k) ltac:(lia)) as Hdm.
  rewrite Hm in Hdm. rewrite Z.ltb_lt. split.
  - intros Hlt. exists (amount / 10 ^ k), k. split; [|lia]. split; [|lia].
    pose proof (Z.div_pos amount (10 ^ k) ltac:(lia) Hp). destruct (decide (amount / 10 ^ k = 0)) as [E|]; [|lia].
    rewrite E in Hn. done.
  - intros (d & j & Hd & Hj & E). set (q := amount / 10 ^ k) in *. clearbody q.
    destruct (decide (j <= k)) as [Hle|Hgt].
    + replace k with (j + (k - j)) in Hdm by lia. rewrite Z.pow_add_r in Hdm by lia.
      pose proof (Z.pow_pos_nonneg 10 j ltac:(lia) Hj). pose proof (Z.pow_pos_nonneg 10 (k - j) ltac:(lia) ltac:(lia)).
      assert (d = 10 ^ (k - j) * q) by nia. nia.
    + exfalso. apply Hn. replace j with (k + 1 + (j - k - 1)) in E by lia. rewrite !Z.pow_add_r, Z.pow_1_r in E by lia.
      assert (q = d * 10 ^ (j - k - 1) * 10) as -> by nia. apply Z.mod_mul. lia.
Qed.

(** ** Properties *)

(** Ring member offsets: the relative form is read back from the absolute
    one when the offsets add up below [2^64], and relative offsets made from
    any absolute ones give these back in order. *)
Theorem offsets_roundtrip :
  (forall off, Forall is_u64 off -> sum_amounts off < 2 ^ 64 ->
     absolute_output_offsets_to_relative (relative_output_offsets_to_absolute off) = off) /\
  (forall off, Forall is_u64 off ->
     relative_output_offsets_to_absolute (absolute_output_offsets_to_relative off) = merge_sort Z.le off).
Proof.
  split; intros off Hu.
  - intros Hs. destruct off as [|x off]; [done|]. cbn [relative_output_offsets_to_absolute].
    inversion_clear Hu as [|? ? Hx Hu']. rewrite sum_cons in Hs.
    destruct (to_absolute_sorted x off Hx Hu' Hs) as (Hsort & _ & Hrel).
    unfold absolute_output_offsets_to_relative. rewrite (merge_sort_sorted _ Hsort). by rewrite Hrel.
  - unfold absolute_output_offsets_to_relative. pose proof (merge_sort_strongly off) as Hs.
    rewrite <- (merge_sort_Permutation Z.le off) in Hu.
    destruct (merge_sort Z.le off) as [|x l]; [done|]. cbn [relative_output_offsets_to_absolute].
    by rewrite to_relative_absolute.
Qed.

(** [round_money_up] with [d] significant digits rounds up to a multiple of
    [10^k], where [d + k] is the number of decimal digits of the amount (or
    [k] is 0 when it has at most [d]); it throws exactly when the result does
    not fit in 64 bits. *)
Theorem round_money_up_correct amount d : is_u64 amount -> 0 < d ->
  exists k, 0 <= k /\ amount < 10 ^ (d + k) /\ (k = 0 \/ 10 ^ (d + k - 1) <= amount) /\
  round_money_up amount d = if ceil_to k amount <=? UINT64_MAX then Some (ceil_to k amount) else None.
Proof.
  intros Ha Hd. destruct (print_digits_spec amount Ha) as (_ & _ & Hl & Hlo & Hlt).
  exists (Z.max 0 (Z.of_nat (length (print_digits amount)) - d)). split; [lia|].
  split; [eapply Z.lt_le_trans; [exact Hlt|]; apply Z.pow_le_mono_r; lia|].
  split; [|by apply round_buf_spec].
  destruct (decide (Z.of_nat (length (print_digits amount)) <= d)); [left; lia|right].
  destruct Hlo as [E|Hlo]; [lia|]. eapply Z.le_trans; [|exact Hlo]. apply Z.pow_le_mono_r; lia.
Qed.

Lemma round_money_up_witness : is_u64 123456 /\ round_money_up 123456 2 = Some 130000.
Proof.
  split; [done|]. destruct (round_money_up_correct 123456 2) as (k & Hk & Hlt & Hlo & ->); [done|lia|].
  assert (k = 4) as ->; [|by vm_compute].
  assert (k < 5) by (destruct (decide (k < 5)); [done|]; destruct Hlo as [|Hlo]; [lia|];
    pose proof (Z.pow_le_mono_r 10 6 (2 + k - 1)); lia).
  assert (3 < k); [|lia]. destruct (decide (3 < k)); [done|].
  pose proof (Z.pow_le_mono_r 10 (2 + k) 5). lia.
Defined.
