(* ===== verification/HardFork.v ===== *)
(** * Hard fork voting

    [src/cryptonote_basic/hardfork.cpp], [hardfork.h] and the schedules of
    [src/hardforks/hardforks.cpp].  A [HardFork] object follows the chain: it
    keeps the effective votes of the last [window_size] blocks with a count
    per version, and the index of the fork in force.  The chain itself is
    the database, a parameter of the object in the source and a record of
    the blocks' versions and of the stored fork versions here. *)

From stdpp Require Import gmap.
From S2P Require Import Prelude.

(** ** Definitions *)

Record hardfork_t := Hardfork {
  hf_version : Z;
  hf_height : Z;
  hf_threshold : Z;
  hf_time : Z;
}.

(** The part of [BlockchainDB] the object uses: the major and minor version
    of each block, and the fork version stored per height.  A lookup that
    fails throws ([None]). *)
Record BlockchainDB := DB {
  db_blocks : list (Z * Z);
  db_hf_versions : gmap Z Z;
}.

Definition db_height (db : BlockchainDB) : Z := Z.of_nat (length (db_blocks db)).

Definition get_block_from_height (db : BlockchainDB) (height : Z) : option (Z * Z) :=
  if height <? 0 then None else db_blocks db !! Z.to_nat height.

Definition get_hard_fork_version (db : BlockchainDB) (height : Z) : option Z :=
  db_hf_versions db !! height.

Definition set_hard_fork_version (db : BlockchainDB) (height version : Z) : BlockchainDB :=
  DB (db_blocks db) (<[height := version]> (db_hf_versions db)).

Record HardFork := MkHardFork {
  forked_time : Z;
  update_time : Z;
  window_size : Z;
  default_threshold_percent : Z;
  original_version : Z;
  original_version_till_height : Z;
  heights : list hardfork_t;
  versions : list Z;         (* rolling window of the last blocks' votes, oldest first *)
  last_versions : list Z;    (* count of each version in the window *)
  current_fork_index : Z;
}.

Definition DEFAULT_ORIGINAL_VERSION_TILL_HEIGHT : Z := 0.
Definition DEFAULT_FORKED_TIME : Z := 31557600.
Definition DEFAULT_UPDATE_TIME : Z := 31557600 / 2.
Definition DEFAULT_WINDOW_SIZE : Z := 10080.
Definition DEFAULT_THRESHOLD_PERCENT : Z := 80.

(** The constructor; it throws on a bad window or threshold. *)
Definition hardfork_new (original_version original_version_till_height forked_time update_time
    window_size default_threshold_percent : Z) : option HardFork :=
  if window_size =? 0 then None
  else if 100 <? default_threshold_percent then None
  else Some (MkHardFork forked_time update_time window_size default_threshold_percent
               original_version original_version_till_height [] [] (replicate 256 0) 0).

Definition with_heights (hf : HardFork) (hs : list hardfork_t) : HardFork :=
  MkHardFork (forked_time hf) (update_time hf) (window_size hf) (default_threshold_percent hf)
    (original_version hf) (original_version_till_height hf) hs (versions hf) (last_versions hf)
    (current_fork_index hf).

Definition with_window (hf : HardFork) (vs counts : list Z) : HardFork :=
  MkHardFork (forked_time hf) (update_time hf) (window_size hf) (default_threshold_percent hf)
    (original_version hf) (original_version_till_height hf) (heights hf) vs counts
    (current_fork_index hf).

Definition with_index (hf : HardFork) (i : Z) : HardFork :=
  MkHardFork (forked_time hf) (update_time hf) (window_size hf) (default_threshold_percent hf)
    (original_version hf) (original_version_till_height hf) (heights hf) (versions hf)
    (last_versions hf) i.

(** [::get_block_vote] and [::get_block_version] of a block. *)
Definition get_block_vote (b : Z * Z) : Z := if snd b =? 0 then 1 else snd b.
Definition block_major (b : Z * Z) : Z := fst b.

(** [heights.back()]. *)
Definition back {A} (l : list A) : option A := last l.

(** [add_fork(version, height, threshold, time)]: the object and the result. *)
Definition add_fork (hf : HardFork) (version height threshold time : Z) : HardFork * bool :=
  if version =? 0 then (hf, false)
  else if match back (heights hf) with
          | Some f => (version <=? hf_version f) || (height <=? hf_height f) || (time <=? hf_time f)
          | None => false
          end then (hf, false)
  else if 100 <? threshold then (hf, false)
  else (with_heights hf (heights hf ++ [Hardfork version height threshold time]), true).

Definition add_fork_default (hf : HardFork) (version height time : Z) : HardFork * bool :=
  add_fork hf version height (default_threshold_percent hf) time.

Definition get_effective_version (hf : HardFork) (voting_version : Z) : Z :=
  match back (heights hf) with
  | Some f => if hf_version f <? voting_version then hf_version f else voting_version
  | None => voting_version
  end.

(** [heights[i]]. *)
Definition fork_at (hf : HardFork) (i : Z) : option hardfork_t :=
  if i <? 0 then None else heights hf !! Z.to_nat i.

Definition do_check (hf : HardFork) (block_version voting_version : Z) : option bool :=
  f ← fork_at hf (current_fork_index hf);
  Some ((block_version =? hf_version f) && (hf_version f <=? voting_version)).

Definition check (hf : HardFork) (block : Z * Z) : option bool :=
  do_check hf (block_major block) (get_block_vote block).

Definition count_of (hf : HardFork) (v : Z) : Z := nth (Z.to_nat v) (last_versions hf) 0.

(** [get_voted_fork_index]: the forks from the last to the first, the votes
    accumulated on the way. *)
Fixpoint voted_loop (hf : HardFork) (height : Z) (forks : list hardfork_t) (accumulated_votes : Z)
    : option Z :=
  match forks with
  | [] => None
  | f :: forks' =>
      let accumulated_votes := u32 (accumulated_votes + count_of hf (hf_version f)) in
      let threshold := u32 (u64 (window_size hf * hf_threshold f + 99) / 100) in
      if (hf_height f <=? height) && (threshold <=? accumulated_votes)
      then Some (Z.of_nat (length forks'))
      else voted_loop hf height forks' accumulated_votes
  end.

Definition get_voted_fork_index (hf : HardFork) (height : Z) : Z :=
  default (current_fork_index hf) (voted_loop hf height (rev (heights hf)) 0).

Definition do_check_for_height (hf : HardFork) (block_version voting_version height : Z) : option bool :=
  f ← fork_at hf (get_voted_fork_index hf height);
  Some ((block_version =? hf_version f) && (hf_version f <=? voting_version)).

Definition check_for_height (hf : HardFork) (block : Z * Z) (height : Z) : option bool :=
  do_check_for_height hf (block_major block) (get_block_vote block) height.

(** [last_versions[v]++] and [last_versions[v]--] on [unsigned int]. *)
Definition bump (v d : Z) (counts : list Z) : list Z :=
  <[Z.to_nat v := u32 (nth (Z.to_nat v) counts 0 + d)]> counts.

(** [while (versions.size() >= window_size)]: drop from the front. *)
Fixpoint trim_window (w : Z) (vs counts : list Z) : list Z * list Z :=
  match vs with
  | [] => ([], counts)
  | old_version :: vs' =>
      if w <=? Z.of_nat (length vs) then trim_window w vs' (bump old_version (-1) counts)
      else (vs, counts)
  end.

(** [if (voted > current_fork_index) current_fork_index = voted]. *)
Definition raise_index (hf : HardFork) (height : Z) : HardFork :=
  let voted := u8 (get_voted_fork_index hf height) in
  if current_fork_index hf <? voted then with_index hf voted else hf.

(** [add(block_version, voting_version, height)]. *)
Definition add_versions (hf : HardFork) (db : BlockchainDB) (block_version voting_version height : Z)
    : option (HardFork * BlockchainDB * bool) :=
  ok ← do_check hf block_version voting_version;
  if negb ok then Some (hf, db, false)
  else
    f ← fork_at hf (current_fork_index hf);
    let db := set_hard_fork_version db height (hf_version f) in
    let voting_version := get_effective_version hf voting_version in
    let '(vs, counts) := trim_window (window_size hf) (versions hf) (last_versions hf) in
    let counts := bump voting_version 1 counts in
    let hf := with_window hf (vs ++ [voting_version]) counts in
    Some (raise_index hf (height + 1), db, true).

Definition add (hf : HardFork) (db : BlockchainDB) (block : Z * Z) (height : Z)
    : option (HardFork * BlockchainDB * bool) :=
  add_versions hf db (block_major block) (get_block_vote block) height.

(** [get_block_version(height)]. *)
Definition get_block_version (hf : HardFork) (db : BlockchainDB) (height : Z) : option Z :=
  if height <=? original_version_till_height hf then Some (original_version hf)
  else block_major <$> get_block_from_height db height.

(** [versions.clear()] and the counts zeroed. *)
Definition clear_window (hf : HardFork) : HardFork := with_window hf [] (replicate 256 0).

(** The loop that reads votes from the database for [n] heights from [h]. *)
Fixpoint scan_votes (hf : HardFork) (db : BlockchainDB) (h : Z) (n : nat) : option HardFork :=
  match n with
  | O => Some hf
  | S n' =>
      b ← get_block_from_height db h;
      let v := get_effective_version hf (get_block_vote b) in
      scan_votes (with_window hf (versions hf ++ [v]) (bump v 1 (last_versions hf))) db (h + 1) n'
  end.

(** [while (current_fork_index > 0 && heights[current_fork_index].version > start_version)
    --current_fork_index], over the forks below the index, nearest first. *)
Fixpoint lower_index (start_version : Z) (below : list hardfork_t) : Z :=
  match below with
  | [] => 0
  | f :: below' =>
      if (0 <? Z.of_nat (length below')) && (start_version <? hf_version f)
      then lower_index start_version below' else Z.of_nat (length below')
  end.

(** Adding the blocks from [h] on, [n] of them; results are ignored. *)
Fixpoint add_blocks (hf : HardFork) (db : BlockchainDB) (h : Z) (n : nat)
    : option (HardFork * BlockchainDB) :=
  match n with
  | O => Some (hf, db)
  | S n' =>
      b ← get_block_from_height db h;
      '(hf, db, _) ← add hf db b h;
      add_blocks hf db (h + 1) n'
  end.

Definition reorganize_from_block_height (hf : HardFork) (db : BlockchainDB) (height : Z)
    : option (HardFork * BlockchainDB * bool) :=
  if db_height db <=? height then Some (hf, db, false)
  else
    let hf := clear_window hf in
    let w := window_size hf in
    let rescan_height := if w - 1 <=? height then height - (w - 1) else 0 in
    start_version ← (if height =? 0 then Some (original_version hf) else get_hard_fork_version db height);
    let below := rev (take (Z.to_nat (current_fork_index hf + 1)) (heights hf)) in
    let hf := with_index hf (lower_index start_version below) in
    hf ← scan_votes hf db rescan_height (Z.to_nat (height + 1 - rescan_height));
    let hf := raise_index hf (height + 1) in
    let bc_height := db_height db in
    '(hf, db) ← add_blocks hf db (height + 1) (Z.to_nat (bc_height - (height + 1)));
    Some (hf, db, true).

Definition reorganize_from_chain_height (hf : HardFork) (db : BlockchainDB) (height : Z)
    : option (HardFork * BlockchainDB * bool) :=
  if height =? 0 then Some (hf, db, false) else reorganize_from_block_height hf db (height - 1).

(** [while (current_fork_index + 1 < heights.size() && heights[current_fork_index].version != lastv)
    ++current_fork_index], from index [i] with the forks from there on. *)
Fixpoint find_index (lastv : Z) (i : Z) (forks : list hardfork_t) : Z :=
  match forks with
  | f :: ((_ :: _) as forks') =>
      if negb (hf_version f =? lastv) then find_index lastv (i + 1) forks' else i
  | _ => i
  end.

Definition rescan_from_block_height (hf : HardFork) (db : BlockchainDB) (height : Z)
    : option (HardFork * bool) :=
  if db_height db <=? height then Some (hf, false)
  else
    let hf := clear_window hf in
    hf ← scan_votes hf db height (Z.to_nat (db_height db - height));
    lastv ← get_hard_fork_version db (db_height db - 1);
    let hf := with_index hf (find_index lastv 0 (heights hf)) in
    Some (raise_index hf (db_height db), true).

Definition rescan_from_chain_height (hf : HardFork) (db : BlockchainDB) (height : Z)
    : option (HardFork * bool) :=
  if height =? 0 then Some (hf, false) else rescan_from_block_height hf db (height - 1).

Definition init (hf : HardFork) (db : BlockchainDB) : option HardFork :=
  let hf := match heights hf with
            | [] => with_heights hf [Hardfork (original_version hf) 0 0 0]
            | _ => hf
            end in
  let hf := with_index (clear_window hf) 0 in
  let height := db_height db in
  let height := if window_size hf <? height then height - (window_size hf - 1) else 1 in
  '(hf, _) ← rescan_from_chain_height hf db height;
  Some hf.

(** [on_block_popped]: one round per popped height, downwards. *)
Definition pop_step (db : BlockchainDB) (s : option (HardFork * Z)) : option (HardFork * Z) :=
  '(hf, height) ← s;
  version ← back (versions hf);
  let counts := bump version (-1) (last_versions hf) in
  let vs := removelast (versions hf) in
  version ← get_hard_fork_version db height;
  Some (with_window hf (version :: vs) (bump version 1 counts), u64 (height - 1)).

(** [for (current_fork_index = heights.size() - 1; current_fork_index > 0; --current_fork_index)
    if (new_chain_height >= heights[current_fork_index].height) break], forks from the last. *)
Fixpoint scheduled_index (height : Z) (forks : list hardfork_t) : Z :=
  match forks with
  | [] => 0
  | f :: forks' =>
      if Z.of_nat (length forks') =? 0 then 0
      else if hf_height f <=? height then Z.of_nat (length forks')
      else scheduled_index height forks'
  end.

(** [None] is a thrown assertion or lookup, or a pop from an empty window.
    Each of the [nblocks] heights takes one round; with no block left the
    index passes below 0 and the next round looks up a height that wrapped,
    which throws. *)
Definition on_block_popped (hf : HardFork) (db : BlockchainDB) (nblocks : Z) : option HardFork :=
  if nblocks <=? 0 then None
  else
    let new_chain_height := db_height db in
    let old_chain_height := u64 (new_chain_height + nblocks) in
    '(s) ← while_fuel
        (fun s : option (HardFork * Z) =>
           match s with Some (_, height) => new_chain_height <=? height | None => false end)
        (pop_step db) (S (Z.to_nat nblocks)) (Some (hf, u64 (old_chain_height - 1)));
    '(hf, _) ← s;
    Some (with_index hf (scheduled_index new_chain_height (rev (heights hf)))).

Inductive State := LikelyForked | UpdateNeeded | Ready.

Definition get_state (hf : HardFork) (t : Z) : option State :=
  if (length (heights hf) <=? 1)%nat then Some Ready
  else
    f ← back (heights hf);
    let t_last_fork := hf_time f in
    if t_last_fork + forked_time hf <=? t then Some LikelyForked
    else if t_last_fork + update_time hf <=? t then Some UpdateNeeded
    else Some Ready.

Definition get_current_version (hf : HardFork) : option Z :=
  hf_version <$> fork_at hf (current_fork_index hf).

(** [get]: above the chain's height a debug build stops at [assert(false)], a
    release build returns 255. *)
Definition get (hf : HardFork) (db : BlockchainDB) (height : Z) : option Z :=
  if db_height db <? height then Some 255
  else if height =? db_height db then get_current_version hf
  else get_hard_fork_version db height.

Definition get_ideal_version (hf : HardFork) : option Z := hf_version <$> back (heights hf).

(** [get_ideal_version(height)]: the forks from the last down to the second. *)
Fixpoint ideal_loop (original height : Z) (forks : list hardfork_t) : Z :=
  match forks with
  | f :: ((_ :: _) as forks') =>
      if hf_height f <=? height then hf_version f else ideal_loop original height forks'
  | _ => original
  end.

Definition get_ideal_version_at (hf : HardFork) (height : Z) : Z :=
  ideal_loop (original_version hf) height (rev (heights hf)).

Fixpoint earliest_loop (version height : Z) (forks : list hardfork_t) : Z :=
  match forks with
  | [] => height
  | f :: forks' => if version <=? hf_version f then earliest_loop version (hf_height f) forks' else height
  end.

Definition get_earliest_ideal_height_for_version (hf : HardFork) (version : Z) : Z :=
  earliest_loop version UINT64_MAX (rev (heights hf)).

(** [get_next_version]: [prev] is the fork after the one looked at. *)
Fixpoint next_loop (original height : Z) (prev : option hardfork_t) (forks : list hardfork_t) : Z :=
  match forks with
  | [] => original
  | f :: forks' =>
      if hf_height f <=? height then hf_version (default f prev)
      else next_loop original height (Some f) forks'
  end.

Definition get_next_version (hf : HardFork) (db : BlockchainDB) : Z :=
  next_loop (original_version hf) (db_height db) None (rev (heights hf)).

(** [get_voting_info]: window, votes, threshold, earliest height, voting
    version, enabled. *)
Definition get_voting_info (hf : HardFork) (version : Z) : option (Z * Z * Z * Z * Z * bool) :=
  f ← fork_at hf (current_fork_index hf);
  l ← back (heights hf);
  let enabled := version <=? hf_version f in
  let window := u32 (Z.of_nat (length (versions hf))) in
  let votes := foldl (fun votes n => u32 (votes + count_of hf n)) 0
                 (seqZ version (256 - version)) in
  let threshold := u32 (window * hf_threshold f + 99) / 100 in
  Some (window, votes, threshold, get_earliest_ideal_height_for_version hf version,
        hf_version l, enabled).

(** *** Schedules *)

Definition mainnet_hard_forks : list hardfork_t := [
  Hardfork 1 1 0 1341378000;
  Hardfork 2 1009827 0 1442763710;
  Hardfork 3 1141317 0 1458558528;
  Hardfork 4 1220516 0 1483574400;
  Hardfork 5 1288616 0 1489520158;
  Hardfork 6 1400000 0 1503046577;
  Hardfork 7 1546000 0 1521303150;
  Hardfork 8 1685555 0 1535889547;
  Hardfork 9 1686275 0 1535889548;
  Hardfork 10 1788000 0 1549792439;
  Hardfork 11 1788720 0 1550225678;
  Hardfork 12 1978433 0 1571419280;
  Hardfork 13 2210000 0 1598180817;
  Hardfork 14 2210720 0 1598180818;
  Hardfork 15 2688888 0 1656629117;
  Hardfork 16 2689608 0 1656629118].

Definition testnet_hard_forks : list hardfork_t := [
  Hardfork 1 1 0 1341378000;
  Hardfork 2 624634 0 1445355000;
  Hardfork 3 800500 0 1472415034;
  Hardfork 4 801219 0 1472415035;
  Hardfork 5 802660 0 (1472415036 + 86400 * 180);
  Hardfork 6 971400 0 1501709789;
  Hardfork 7 1057027 0 1512211236;
  Hardfork 8 1057058 0 1533211200;
  Hardfork 9 1057778 0 1533297600;
  Hardfork 10 1154318 0 1550153694;
  Hardfork 11 1155038 0 1550225678;
  Hardfork 12 1308737 0 1569582000;
  Hardfork 13 1543939 0 1599069376;
  Hardfork 14 1544659 0 1599069377;
  Hardfork 15 1982800 0 1652727000;
  Hardfork 16 1983520 0 1652813400].

Definition stagenet_hard_forks : list hardfork_t := [
  Hardfork 1 1 0 1341378000;
  Hardfork 2 32000 0 1521000000;
  Hardfork 3 33000 0 1521120000;
  Hardfork 4 34000 0 1521240000;
  Hardfork 5 35000 0 1521360000;
  Hardfork 6 36000 0 1521480000;
  Hardfork 7 37000 0 1521600000;
  Hardfork 8 176456 0 1537821770;
  Hardfork 9 177176 0 1537821771;
  Hardfork 10 269000 0 1550153694;
  Hardfork 11 269720 0 1550225678;
  Hardfork 12 454721 0 1571419280;
  Hardfork 13 675405 0 1598180817;
  Hardfork 14 676125 0 1598180818;
  Hardfork 15 1151000 0 1656629117;
  Hardfork 16 1151720 0 1656629118].

(** [Blockchain::init] loads the table of its network; results are ignored. *)
Definition load_forks (hf : HardFork) (forks : list hardfork_t) : HardFork :=
  foldl (fun hf f => fst (add_fork hf (hf_version f) (hf_height f) (hf_threshold f) (hf_time f)))
    hf forks.

(** ** The vote window *)

(** The counts are those of the votes in the window. *)
Definition occ (v : Z) (vs : list Z) : Z := Z.of_nat (count_occ Z.eq_dec vs v).

Record table_ok (counts vs : list Z) : Prop := {
  table_len : length counts = 256%nat;
  table_u8 : Forall is_u8 vs;
  table_size : Z.of_nat (length vs) < 2 ^ 32;
  table_count : forall v, is_u8 v -> nth (Z.to_nat v) counts 0 = occ v vs;
}.

Lemma occ_perm v vs vs' : Permutation vs vs' -> occ v vs = occ v vs'.
Proof.
  intros Hp. unfold occ. f_equal. induction Hp; simpl; repeat case_match; congruence.
Qed.

Lemma occ_cons v x vs : occ v (x :: vs) = (if decide (x = v) then 1 else 0) + occ v vs.
Proof. unfold occ. simpl. destruct (Z.eq_dec x v); case_decide; try done; lia. Qed.

Lemma occ_bound v vs : 0 <= occ v vs <= Z.of_nat (length vs).
Proof.
  unfold occ. pose proof (count_occ_bound Z.eq_dec v vs). lia.
Qed.

Lemma nth_bump v d counts w : is_u8 v -> is_u8 w -> length counts = 256%nat ->
  nth (Z.to_nat w) (bump v d counts) 0 =
    if decide (v = w) then u32 (nth (Z.to_nat v) counts 0 + d) else nth (Z.to_nat w) counts 0.
Proof.
  intros Hv Hw Hl. unfold bump, is_uint in *. rewrite !nth_lookup. case_decide as E.
  - subst. rewrite list_lookup_insert_eq by lia. done.
  - rewrite list_lookup_insert_ne by lia. done.
Qed.

Lemma table_add counts vs v vs' :
  table_ok counts vs -> is_u8 v -> Permutation vs' (v :: vs) -> Z.of_nat (length vs') < 2 ^ 32 ->
  table_ok (bump v 1 counts) vs'.
Proof.
  intros [Hl Hu Hs Hc] Hv Hp Hlen. split; [|by rewrite Hp; constructor|done|].
  - unfold bump. by rewrite length_insert.
  - intros w Hw. rewrite nth_bump by done. rewrite (occ_perm _ _ _ Hp), occ_cons.
    case_decide as E; [|by rewrite Hc].
    subst. rewrite Hc by done. apply Permutation_length in Hp. simpl in Hp.
    pose proof (occ_bound w vs). rewrite wrapu_small; [lia|]. unfold is_uint. lia.
Qed.

Lemma table_sub counts vs v vs' :
  table_ok counts vs -> Permutation vs (v :: vs') -> table_ok (bump v (-1) counts) vs'.
Proof.
  intros [Hl Hu Hs Hc] Hp. pose proof (Permutation_length Hp) as Hlen. simpl in Hlen.
  rewrite Hp in Hu. inversion_clear Hu as [|? ? Hv Hu'].
  split; [unfold bump; by rewrite length_insert|done|lia|].
  intros w Hw. rewrite nth_bump by done. specialize (Hc w Hw).
  rewrite (occ_perm _ _ _ Hp), occ_cons in Hc. case_decide as E; [|lia].
  subst. rewrite Hc. pose proof (occ_bound w vs'). rewrite wrapu_small; [lia|]. unfold is_uint. lia.
Qed.

Lemma table_nil : table_ok (replicate 256 0) [].
Proof.
  split; [done|constructor|done|]. intros v Hv. rewrite nth_lookup.
  destruct (replicate 256 0 !! _) eqn:E; [by apply lookup_replicate_1 in E as [-> _]|done].
Qed.

Lemma trim_spec w vs counts : 0 < w -> table_ok counts vs ->
  exists counts', trim_window w vs counts = (lastn (Z.to_nat (w - 1)) vs, counts') /\
    table_ok counts' (lastn (Z.to_nat (w - 1)) vs).
Proof.
  intros Hw. revert counts; induction vs as [|v vs IH]; intros counts Ht; cbn [trim_window].
  { exists counts. done. }
  destruct (Z.leb_spec w (Z.of_nat (length (v :: vs)))) as [Hle|Hlt].
  - destruct (IH (bump v (-1) counts)) as (counts' & -> & Ht'); [by eapply table_sub|].
    exists counts'. unfold lastn. cbn [length] in *.
    replace (S (length vs) - Z.to_nat (w - 1))%nat with (S (length vs - Z.to_nat (w - 1))) by lia.
    done.
  - exists counts. unfold lastn. cbn [length] in *.
    replace (S (length vs) - Z.to_nat (w - 1))%nat with 0%nat by lia. done.
Qed.

(** ** The schedule and the invariant *)

Definition fork_lt (f g : hardfork_t) : Prop :=
  hf_version f < hf_version g /\ hf_height f < hf_height g /\ hf_time f < hf_time g.

Definition fork_ok (f : hardfork_t) : Prop :=
  is_u8 (hf_version f) /\ is_u64 (hf_height f) /\ 0 <= hf_threshold f <= 100.

Definition schedule_ok (hs : list hardfork_t) : Prop :=
  StronglySorted fork_lt hs /\ Forall fork_ok hs.

Record hf_inv (hf : HardFork) : Prop := {
  inv_window : 0 < window_size hf < 2 ^ 32;
  inv_table : table_ok (last_versions hf) (versions hf);
  inv_size : Z.of_nat (length (versions hf)) <= window_size hf;
  inv_sched : schedule_ok (heights hf);
  inv_index : 0 <= current_fork_index hf < Z.of_nat (length (heights hf));
}.

Lemma sorted_snoc hs f g : StronglySorted fork_lt (hs ++ [f]) -> fork_lt f g ->
  StronglySorted fork_lt ((hs ++ [f]) ++ [g]).
Proof.
  intros Hs Hfg. assert (forall x, x ∈ hs ++ [f] -> fork_lt x g) as Hall.
  { intros x. rewrite elem_of_app, list_elem_of_singleton. intros [Hx| ->]; [|done].
    apply StronglySorted_app_1_elem_of with (x1 := x) (x2 := f) in Hs;
      [|done|by apply list_elem_of_singleton].
    unfold fork_lt in *. lia. }
  revert Hs Hall. generalize (hs ++ [f]). intros l Hl Hall.
  induction Hl as [|x l Hl IH Hx]; simpl; [repeat constructor|].
  constructor; [apply IH; set_solver|]. apply Forall_app. split; [done|].
  constructor; [apply Hall; set_solver|constructor].
Qed.

Lemma last_decompose {A} (l : list A) x : last l = Some x -> exists l', l = l' ++ [x].
Proof. intros H. apply last_Some in H. done. Qed.

(** [add_fork] keeps the schedule sorted in version, height and time. *)
Lemma add_fork_schedule hf version height threshold time :
  schedule_ok (heights hf) -> is_u8 version -> is_u64 height -> is_u8 threshold ->
  schedule_ok (heights (fst (add_fork hf version height threshold time))) /\
  (snd (add_fork hf version height threshold time) = true ->
   heights (fst (add_fork hf version height threshold time))
   = heights hf ++ [Hardfork version height threshold time]).
Proof.
  intros [Hs Hok] Hv Hh Ht. unfold add_fork, back. destruct (version =? 0); [done|].
  destruct (last (heights hf)) as [f|] eqn:Hlast.
  - destruct (_ || _) eqn:Hc; [done|]. rewrite !orb_false_iff, !Z.leb_gt in Hc.
    destruct (Z.ltb_spec 100 threshold); [done|]. cbn [fst snd heights with_heights].
    split; [|done]. destruct (last_decompose _ _ Hlast) as [hs Hhs]. rewrite Hhs in *. split.
    + apply sorted_snoc; [done|]. unfold fork_lt. cbn. lia.
    + apply Forall_app. split; [done|]. repeat constructor; cbn; unfold is_uint in *; lia.
  - destruct (Z.ltb_spec 100 threshold); [done|]. cbn [fst snd heights with_heights].
    split; [|done]. apply last_None in Hlast. rewrite Hlast. split; [repeat constructor|].
    repeat constructor; cbn; unfold is_uint in *; lia.
Qed.

(** ** Counting votes *)

(** The votes in the window for fork [n] or a later one. *)
Definition votes_from (hf : HardFork) (n : nat) : Z :=
  Z.of_nat (length (filter (fun v => v ∈ map hf_version (drop n (heights hf))) (versions hf))).

(** The votes fork [f] needs. *)
Definition needed (hf : HardFork) (f : hardfork_t) : Z := (window_size hf * hf_threshold f + 99) / 100.

Definition eligible (hf : HardFork) (height : Z) (n : nat) : Prop :=
  exists f, heights hf !! n = Some f /\ hf_height f <= height /\ needed hf f <= votes_from hf n.

Lemma votes_from_range hf n : 0 <= votes_from hf n <= Z.of_nat (length (versions hf)).
Proof. unfold votes_from. pose proof (length_filter (fun v => v ∈ map hf_version (drop n (heights hf))) (versions hf)). lia. Qed.

Lemma length_filter_or {A} (P Q R : A -> Prop) `{!forall x, Decision (P x), !forall x, Decision (Q x),
    !forall x, Decision (R x)} (l : list A) :
  (forall x, R x <-> P x \/ Q x) -> (forall x, P x -> Q x -> False) ->
  length (filter R l) = (length (filter P l) + length (filter Q l))%nat.
Proof.
  intros HR Hd. induction l as [|x l IH]; [done|]. rewrite !filter_cons.
  destruct (decide (P x)), (decide (Q x)), (decide (R x)); cbn [length]; try lia;
    exfalso; specialize (HR x); specialize (Hd x); tauto.
Qed.

Lemma filter_occ v vs : Z.of_nat (length (filter (fun x => x = v) vs)) = occ v vs.
Proof.
  induction vs as [|x vs IH]; [done|]. rewrite filter_cons, occ_cons, <- IH.
  repeat case_decide; cbn [length]; lia.
Qed.

(** One fork further down the list adds its own votes. *)
Lemma votes_from_step hf n f : StronglySorted fork_lt (heights hf) -> heights hf !! n = Some f ->
  votes_from hf n = votes_from hf (S n) + occ (hf_version f) (versions hf).
Proof.
  intros Hs Hf. unfold votes_from. rewrite <- filter_occ, <- Nat2Z.inj_add. f_equal.
  rewrite (drop_S _ _ _ Hf). cbn [map].
  apply (length_filter_or (fun v => v ∈ map hf_version (drop (S n) (heights hf)))
    (fun v => v = hf_version f)).
  - intros x. rewrite elem_of_cons. tauto.
  - intros x Hx ->. apply list_elem_of_In, in_map_iff in Hx as (g & Hg & Hin).
    rewrite <- (take_drop_middle _ _ _ Hf) in Hs.
    apply StronglySorted_app_1_r in Hs. inversion_clear Hs as [|? ? _ Hall].
    rewrite Forall_forall in Hall. apply list_elem_of_In in Hin.
    specialize (Hall g Hin). unfold fork_lt in Hall. lia.
Qed.

Lemma voted_loop_spec hf height n :
  hf_inv hf -> (n <= length (heights hf))%nat ->
  match voted_loop hf height (rev (take n (heights hf))) (votes_from hf n) with
  | Some i => exists k, i = Z.of_nat k /\ (k < n)%nat /\ eligible hf height k /\
                forall m, (k < m < n)%nat -> ~ eligible hf height m
  | None => forall m, (m < n)%nat -> ~ eligible hf height m
  end.
Proof.
  intros Hinv. induction n as [|n IH]; intros Hn; [cbn; intros m Hm; lia|].
  destruct (lookup_lt_is_Some_2 (heights hf) n ltac:(lia)) as [f Hf].
  rewrite (take_S_r _ _ _ Hf), rev_app_distr. cbn [rev app voted_loop].
  destruct Hinv as [Hw [Hl Hu Hs Hc] Hsz [Hsort Hok] Hi] eqn:Ei. clear Ei.
  assert (fork_ok f) as (Hv & Hh & Ht) by (eapply Forall_lookup_1; eauto).
  unfold count_of. rewrite Hc by done. rewrite <- votes_from_step by done.
  pose proof (votes_from_range hf n). rewrite (wrapu_small 32 (votes_from hf n)) by (unfold is_uint; lia).
  rewrite length_rev, length_take, Nat.min_l by lia.
  assert (u32 (u64 (window_size hf * hf_threshold f + 99) / 100) = needed hf f) as ->.
  { unfold needed. rewrite (wrapu_small 64) by (unfold is_uint; nia).
    apply wrapu_small. unfold is_uint. split; [apply Z.div_pos; nia|apply Z.div_lt_upper_bound; nia]. }
  destruct (Z.leb_spec (hf_height f) height), (Z.leb_spec (needed hf f) (votes_from hf n)); cbn [andb].
  1: { exists n. split; [done|]. split; [lia|]. split; [by exists f|]. intros; lia. }
  all: specialize (IH ltac:(lia)); assert (~ eligible hf height n) as Hne
    by (intros (g & Hg & ? & ?); simplify_eq; lia);
    destruct (voted_loop _ _ _ _) as [i|];
    [destruct IH as (k & -> & Hk & He & Hm); exists k; split; [done|]; split; [lia|]; split; [done|];
     intros m Hm'; destruct (decide (m = n)) as [->|]; [done|apply Hm; lia]
    |intros m Hm; destruct (decide (m = n)) as [->|]; [done|apply IH; lia]].
Qed.

(** The voted fork is the last one that is due and has the votes, or the
    current one. *)
Lemma voted_spec hf height : hf_inv hf ->
  (exists k, get_voted_fork_index hf height = Z.of_nat k /\ (k < length (heights hf))%nat /\
     eligible hf height k /\ forall m, (k < m)%nat -> ~ eligible hf height m) \/
  (get_voted_fork_index hf height = current_fork_index hf /\ forall m, ~ eligible hf height m).
Proof.
  intros Hinv. pose proof (voted_loop_spec hf height (length (heights hf)) Hinv ltac:(done)) as H.
  unfold get_voted_fork_index. rewrite take_ge in H by done.
  assert (votes_from hf (length (heights hf)) = 0) as E.
  { unfold votes_from. rewrite drop_ge by done. cbn [map].
    induction (versions hf) as [|v vs IH]; [done|].
    rewrite filter_cons_False by (apply not_elem_of_nil). done. }
  assert (forall m, ~ (m < length (heights hf))%nat -> ~ eligible hf height m) as Hout.
  { intros m Hm (f & Hf & _). apply lookup_lt_Some in Hf. lia. }
  rewrite E in H. destruct (voted_loop _ _ _ _) as [i|]; cbn [default].
  - left. destruct H as (k & -> & Hk & He & Hm). exists k. split; [done|]. split; [done|].
    split; [done|]. intros m Hkm. destruct (decide (m < length (heights hf))%nat); auto.
  - right. split; [done|]. intros m. destruct (decide (m < length (heights hf))%nat); auto.
Qed.

(** ** Operations keep the invariant *)

Lemma sorted_version_bound hs base i f :
  StronglySorted fork_lt hs -> Forall (fun g => base <= hf_version g) hs -> hs !! i = Some f ->
  base + Z.of_nat i <= hf_version f.
Proof.
  intros Hs. revert base i; induction Hs as [|g hs Hs IH Hg]; intros base i Hb Hi; [done|].
  inversion_clear Hb as [|? ? Hg0 Hb']. destruct i as [|i]; cbn in Hi; [simplify_eq; lia|].
  enough (base + 1 + Z.of_nat i <= hf_version f) by lia. apply IH; [|done].
  eapply Forall_impl; [exact Hg|]. intros x Hx. unfold fork_lt in Hx. lia.
Qed.

Lemma schedule_index_u8 hf k : schedule_ok (heights hf) -> (k < length (heights hf))%nat ->
  is_u8 (Z.of_nat k).
Proof.
  intros [Hs Hok] Hk. destruct (lookup_lt_is_Some_2 _ _ Hk) as [f Hf].
  pose proof (Forall_lookup_1 _ _ _ _ Hok Hf) as ([_ Hv] & _).
  pose proof (sorted_version_bound (heights hf) 0 k f Hs) as Hb.
  unfold is_uint. specialize (Hb ltac:(eapply Forall_impl; [exact Hok|]; by intros x ([] & _)) Hf). lia.
Qed.

Lemma voted_range hf height : hf_inv hf ->
  0 <= get_voted_fork_index hf height < Z.of_nat (length (heights hf)) /\
  u8 (get_voted_fork_index hf height) = get_voted_fork_index hf height.
Proof.
  intros Hinv. destruct (voted_spec hf height Hinv) as [(k & -> & Hk & _)|[-> _]].
  - split; [lia|]. apply wrapu_small, (schedule_index_u8 hf); [apply Hinv|done].
  - pose proof (inv_index hf Hinv) as Hi. split; [done|].
    rewrite <- (Z2Nat.id (current_fork_index hf)) by lia.
    apply wrapu_small, (schedule_index_u8 hf); [apply Hinv|lia].
Qed.

Lemma raise_index_spec hf height : hf_inv hf ->
  raise_index hf height =
    with_index hf (Z.max (current_fork_index hf) (get_voted_fork_index hf height)) /\
  hf_inv (raise_index hf height).
Proof.
  intros Hinv. destruct (voted_range hf height Hinv) as [Hr Hu]. unfold raise_index. rewrite Hu.
  destruct Hinv as [Hw Ht Hsz Hs Hi].
  destruct (Z.ltb_spec (current_fork_index hf) (get_voted_fork_index hf height)).
  - rewrite Z.max_r by lia. done.
  - rewrite Z.max_l by lia. by destruct hf.
Qed.

Lemma effective_u8 hf v : schedule_ok (heights hf) -> is_u8 v -> is_u8 (get_effective_version hf v).
Proof.
  intros [_ Hok] Hv. unfold get_effective_version, back. destruct (last (heights hf)) as [f|] eqn:Hl; [|done].
  case_match; [|done]. apply last_decompose in Hl as [hs Hhs]. rewrite Hhs in Hok.
  apply Forall_app in Hok as [_ Hf]. inversion_clear Hf as [|? ? Hf' _]. apply Hf'.
Qed.

Lemma vote_u8 b : is_u8 (snd b) -> is_u8 (get_block_vote b).
Proof. unfold get_block_vote. case_match; [done|done]. Qed.

(** The window after a vote: the last [window_size] votes. *)
Lemma push_vote_inv hf v : hf_inv hf -> is_u8 v ->
  exists vs counts counts', trim_window (window_size hf) (versions hf) (last_versions hf) = (vs, counts) /\
    counts' = bump v 1 counts /\
    vs ++ [v] = lastn (Z.to_nat (window_size hf)) (versions hf ++ [v]) /\
    hf_inv (with_window hf (vs ++ [v]) counts').
Proof.
  intros [Hw Ht Hsz Hs Hi] Hv.
  destruct (trim_spec (window_size hf) (versions hf) (last_versions hf)) as (counts & -> & Ht');
    [lia|done|].
  eexists _, counts, _. split; [done|]. split; [done|].
  split; [replace (Z.to_nat (window_size hf)) with (S (Z.to_nat (window_size hf - 1))) by lia;
          by rewrite lastn_snoc|].
  pose proof (length_lastn (Z.to_nat (window_size hf - 1)) (versions hf)) as Hl.
  assert (Z.of_nat (length (lastn (Z.to_nat (window_size hf - 1)) (versions hf) ++ [v]))
    <= window_size hf) as Hlen by (rewrite length_app; cbn [length]; lia).
  split; cbn; try done. eapply table_add; [exact Ht'|done| |lia].
  by rewrite Permutation_app_comm.
Qed.

(** [add] accepts exactly the blocks of the current version with a vote for
    it or higher; it then stores the version, shifts the window by the
    effective vote and moves to the voted fork if that is later. *)
Lemma add_spec hf db b height :
  hf_inv hf -> is_u8 (snd b) ->
  exists f, fork_at hf (current_fork_index hf) = Some f /\
  if (fst b =? hf_version f) && (hf_version f <=? get_block_vote b) then
    exists hf', add hf db b height = Some (hf', set_hard_fork_version db height (hf_version f), true) /\
      hf_inv hf' /\ heights hf' = heights hf /\ window_size hf' = window_size hf /\
      versions hf' = lastn (Z.to_nat (window_size hf))
                       (versions hf ++ [get_effective_version hf (get_block_vote b)]) /\
      current_fork_index hf <= current_fork_index hf' /\
      current_fork_index hf' =
        Z.max (current_fork_index hf)
              (get_voted_fork_index (with_index hf' (current_fork_index hf)) (height + 1))
  else add hf db b height = Some (hf, db, false).
Proof.
  intros Hinv Hb. pose proof (inv_index hf Hinv) as Hi.
  destruct (lookup_lt_is_Some_2 (heights hf) (Z.to_nat (current_fork_index hf)) ltac:(lia)) as [f Hf].
  assert (fork_at hf (current_fork_index hf) = Some f) as Hfa.
  { unfold fork_at. destruct (Z.ltb_spec (current_fork_index hf) 0); [lia|done]. }
  exists f. split; [done|]. unfold add, add_versions, do_check. rewrite Hfa. cbn [mbind option_bind].
  unfold block_major. destruct (_ && _); cbn [negb]; [|done]. rewrite ?Hfa. cbn [mbind option_bind].
  set (v := get_effective_version hf (get_block_vote b)).
  assert (is_u8 v) as Hv by (apply effective_u8; [apply Hinv|by apply vote_u8]).
  destruct (push_vote_inv hf v Hinv Hv) as (vs & counts & counts' & -> & <- & Hvs & Hinv').
  destruct (raise_index_spec _ (height + 1) Hinv') as [Hr Hrinv].
  eexists. split; [reflexivity|]. split; [done|]. rewrite Hr.
  cbn [heights window_size versions current_fork_index with_index with_window]. rewrite Hvs.
  split; [done|]. split; [done|]. split; [done|]. split; [lia|]. done.
Qed.

(** The votes of a chain, as the object counts them. *)
Definition chain_votes (hf : HardFork) (blocks : list (Z * Z)) : list Z :=
  map (fun b => get_effective_version hf (get_block_vote b)) blocks.

Lemma scan_spec hf db h n :
  table_ok (last_versions hf) (versions hf) -> schedule_ok (heights hf) ->
  Forall (fun b => is_u8 (snd b)) (db_blocks db) ->
  0 <= h -> h + Z.of_nat n <= db_height db ->
  Z.of_nat (length (versions hf)) + Z.of_nat n < 2 ^ 32 ->
  exists counts,
    let vs := versions hf ++ chain_votes hf (take n (drop (Z.to_nat h) (db_blocks db))) in
    scan_votes hf db h n = Some (with_window hf vs counts) /\ table_ok counts vs.
Proof.
  intros Ht Hs Hb. revert hf h Ht Hs; induction n as [|n IH]; intros hf h Ht Hs Hh Hn Hsz; cbn [scan_votes].
  { exists (last_versions hf). cbn. rewrite app_nil_r. split; [by destruct hf|done]. }
  unfold db_height in *.
  destruct (lookup_lt_is_Some_2 (db_blocks db) (Z.to_nat h) ltac:(lia)) as [b Hlook].
  unfold get_block_from_height. destruct (Z.ltb_spec h 0); [lia|]. rewrite Hlook. cbn [mbind option_bind].
  set (v := get_effective_version hf (get_block_vote b)).
  assert (is_u8 v) as Hv.
  { apply effective_u8; [done|]. apply vote_u8. exact (Forall_lookup_1 _ _ _ _ Hb Hlook). }
  rewrite (drop_S _ _ _ Hlook). cbn [take]. set (hf1 := with_window hf _ _).
  destruct (IH hf1 (h + 1)) as (counts & Hscan & Htab).
  - cbn. eapply table_add; [done|done| |rewrite length_app; cbn [length]; lia].
    by rewrite Permutation_app_comm.
  - done.
  - lia.
  - lia.
  - cbn. rewrite length_app. cbn [length]. lia.
  - exists counts. cbn [versions hf1 with_window] in *.
    replace (Z.to_nat (h + 1)) with (S (Z.to_nat h)) in * by lia.
    rewrite <- app_assoc in Hscan, Htab. cbn [app chain_votes map] in *. by split.
Qed.

Lemma find_index_range lastv i hs : hs <> [] ->
  i <= find_index lastv i hs < i + Z.of_nat (length hs).
Proof.
  revert i; induction hs as [|f hs IH]; intros i Hne; [done|]. cbn [find_index].
  destruct hs as [|g hs]; [cbn; lia|]. destruct (hf_version f =? lastv); cbn [negb]; [cbn [length]; lia|].
  specialize (IH (i + 1) ltac:(done)). cbn [length] in *. lia.
Qed.

Lemma chain_votes_heights hf hf' bs : heights hf' = heights hf -> chain_votes hf' bs = chain_votes hf bs.
Proof. intros H. unfold chain_votes, get_effective_version. by rewrite H. Qed.

Lemma rescan_spec hf db h :
  0 < window_size hf < 2 ^ 32 -> schedule_ok (heights hf) -> heights hf <> [] ->
  Forall (fun b => is_u8 (snd b)) (db_blocks db) ->
  is_Some (get_hard_fork_version db (db_height db - 1)) ->
  0 <= h < db_height db -> db_height db - h <= window_size hf ->
  exists hf' lastv hf1, rescan_from_block_height hf db h = Some (hf', true) /\ hf_inv hf' /\
    heights hf' = heights hf /\ window_size hf' = window_size hf /\
    versions hf' = chain_votes hf (drop (Z.to_nat h) (db_blocks db)) /\
    get_hard_fork_version db (db_height db - 1) = Some lastv /\
    hf1 = with_index hf' (find_index lastv 0 (heights hf)) /\ hf_inv hf1 /\
    hf' = raise_index hf1 (db_height db).
Proof.
  intros Hw Hs Hne Hb [lastv Hlast] Hh Hsz. unfold rescan_from_block_height.
  destruct (Z.leb_spec (db_height db) h); [lia|].
  destruct (scan_spec (clear_window hf) db h (Z.to_nat (db_height db - h))) as (counts & -> & Ht);
    [apply table_nil|done|done|lia|lia|cbn; lia|]. cbn [versions clear_window with_window app] in *.
  rewrite (take_ge (drop _ _)) in Ht by (rewrite length_drop; unfold db_height in *; lia).
  rewrite (take_ge (drop _ _)) by (rewrite length_drop; unfold db_height in *; lia).
  rewrite (chain_votes_heights hf) in Ht by done. rewrite (chain_votes_heights hf) by done.
  cbn [mbind option_bind]. rewrite Hlast. cbn [mbind option_bind].
  set (vs := chain_votes hf _) in *. set (i := find_index lastv 0 (heights hf)).
  assert (0 <= i < Z.of_nat (length (heights hf))) as Hi by (by apply find_index_range).
  assert (hf_inv (with_index (with_window (clear_window hf) vs counts) i)) as Hinv.
  { split; cbn; try done. unfold vs, chain_votes. rewrite length_map, length_drop.
    unfold db_height in *. lia. }
  destruct (raise_index_spec _ (db_height db) Hinv) as [Hr Hrinv].
  exists (raise_index (with_index (with_window (clear_window hf) vs counts) i) (db_height db)).
  exists lastv, (with_index (with_window (clear_window hf) vs counts) i).
  split; [done|]. split; [done|]. rewrite Hr. cbn. done.
Qed.

(** What the object is given: a valid window size and schedule, and a chain
    whose top has a stored fork version. *)
Record setup_ok (hf : HardFork) (db : BlockchainDB) : Prop := {
  setup_window : 0 < window_size hf < 2 ^ 32;
  setup_sched : schedule_ok (heights hf);
  setup_nonempty : heights hf <> [];
  setup_blocks : Forall (fun b => is_u8 (snd b)) (db_blocks db);
  setup_chain : 0 < db_height db;
  setup_stored : is_Some (get_hard_fork_version db (db_height db - 1));
}.

(** [init] rebuilds the window from the chain: the votes of its last
    [window_size] blocks. *)
Lemma init_spec hf db : setup_ok hf db ->
  exists hf' lastv hf1, init hf db = Some hf' /\ hf_inv hf' /\
    heights hf' = heights hf /\ window_size hf' = window_size hf /\
    versions hf' = lastn (Z.to_nat (window_size hf)) (chain_votes hf (db_blocks db)) /\
    get_hard_fork_version db (db_height db - 1) = Some lastv /\
    hf1 = with_index hf' (find_index lastv 0 (heights hf)) /\ hf_inv hf1 /\
    hf' = raise_index hf1 (db_height db).
Proof.
  intros [Hw Hs Hne Hb Hc Hst]. unfold init.
  destruct (heights hf) as [|f fs] eqn:Ehs; [done|]. rewrite <- Ehs in *.
  set (hf0 := with_index (clear_window hf) 0).
  set (h := if window_size hf0 <? db_height db then db_height db - (window_size hf0 - 1) else 1).
  assert (1 <= h /\ h - 1 = Z.max 0 (db_height db - window_size hf)) as [Hh1 Hh].
  { unfold h. cbn [window_size hf0 with_index clear_window with_window]. bcase; lia. }
  destruct (rescan_spec hf0 db (h - 1)) as (hf' & lastv & hf1 & Hres & H); try done.
  { lia. }
  { cbn [window_size hf0 with_index clear_window with_window]. lia. }
  exists hf', lastv, hf1. unfold rescan_from_chain_height.
  destruct (Z.eqb_spec h 0); [lia|]. rewrite Hres. split; [done|].
  destruct H as (Hinv & Hhs & Hws & Hvs & Hrest). split; [done|]. split; [done|]. split; [done|].
  split; [|done]. rewrite Hvs, (chain_votes_heights hf) by done. unfold lastn, chain_votes.
  rewrite length_map, <- skipn_map. f_equal. unfold db_height in *. lia.
Qed.

(** ** Forks on schedule

    In all three schedules every threshold is 0: a fork takes effect at its
    height whatever the votes. *)

(** The fork in force at a height: the last one at or below it, or the first. *)
Definition in_force (hs : list hardfork_t) (height : Z) (k : nat) : Prop :=
  (k = 0%nat \/ exists f, hs !! k = Some f /\ hf_height f <= height) /\
  forall m f, (k < m)%nat -> hs !! m = Some f -> height < hf_height f.

Lemma in_force_unique hs height k k' : (k < length hs)%nat -> (k' < length hs)%nat ->
  in_force hs height k -> in_force hs height k' -> k = k'.
Proof.
  intros Hk Hk' [H1 H2] [H1' H2'].
  destruct (decide (k = k')) as [|Hne]; [done|]. exfalso.
  destruct (decide (k < k')%nat) as [Hlt|Hge].
  - destruct H1' as [->|(f & Hf & Hle)]; [lia|]. specialize (H2 k' f Hlt Hf). lia.
  - destruct H1 as [->|(f & Hf & Hle)]; [lia|]. specialize (H2' k f ltac:(lia) Hf). lia.
Qed.

Lemma scheduled_index_spec hs height : hs <> [] ->
  exists k, scheduled_index height (rev hs) = Z.of_nat k /\ (k < length hs)%nat /\ in_force hs height k.
Proof.
  induction hs as [|f hs IH] using rev_ind; intros Hne; [done|]. clear Hne.
  rewrite rev_app_distr. cbn [rev app scheduled_index]. rewrite length_rev, length_app. cbn [length].
  destruct (Z.eqb_spec (Z.of_nat (length hs)) 0) as [E|E].
  { exists 0%nat. destruct hs; [|cbn in E; lia]. split; [done|]. split; [cbn; lia|].
    split; [by left|]. intros m g Hm Hg. apply lookup_lt_Some in Hg. cbn in Hg. lia. }
  destruct (Z.leb_spec (hf_height f) height) as [Hle|Hlt].
  - exists (length hs). split; [done|]. split; [lia|]. split.
    + right. exists f. split; [|done]. by rewrite lookup_app_r, Nat.sub_diag by lia.
    + intros m g Hm Hg. apply lookup_lt_Some in Hg. rewrite length_app in Hg. cbn in Hg. lia.
  - destruct IH as (k & -> & Hk & H1 & H2); [by destruct hs|]. exists k. split; [done|]. split; [lia|].
    split.
    + destruct H1 as [->|(g & Hg & Hgl)]; [by left|right]. exists g.
      by rewrite lookup_app_l by (by apply lookup_lt_Some in Hg).
    + intros m g Hm Hg. destruct (decide (m < length hs)%nat).
      * apply (H2 m); [done|]. by rewrite lookup_app_l in Hg.
      * apply lookup_app_Some in Hg as [Hg|[_ Hg]]; [by apply lookup_lt_Some in Hg|].
        destruct (m - length hs)%nat; cbn in Hg; by simplify_eq.
Qed.

Definition no_voting (hs : list hardfork_t) : Prop := Forall (fun f => hf_threshold f = 0) hs.

(** Without thresholds the voted fork is the one in force. *)
Lemma voted_scheduled hf height : hf_inv hf -> no_voting (heights hf) ->
  (exists f, heights hf !! 0%nat = Some f /\ hf_height f <= height) ->
  get_voted_fork_index hf height = scheduled_index height (rev (heights hf)).
Proof.
  intros Hinv Hnv (f0 & Hf0 & Hh0).
  assert (heights hf <> []) as Hne by (intros E; by rewrite E in Hf0).
  destruct (scheduled_index_spec (heights hf) height Hne) as (k' & -> & Hk' & Hin').
  assert (forall m f, heights hf !! m = Some f -> hf_height f <= height -> eligible hf height m) as Hel.
  { intros m f Hf Hle. exists f. split; [done|]. split; [done|].
    pose proof (Forall_lookup_1 _ _ _ _ Hnv Hf) as Ht. cbn in Ht. unfold needed. rewrite Ht.
    pose proof (votes_from_range hf m). rewrite Z.mul_0_r. change ((0 + 99) / 100) with 0. lia. }
  destruct (voted_spec hf height Hinv) as [(k & -> & Hk & He & Hm)|[_ Hnone]];
    [|exfalso; by apply (Hnone 0%nat), (Hel _ f0)].
  f_equal. apply (in_force_unique (heights hf) height); try done. split.
  - right. destruct He as (f & Hf & Hle & _). by exists f.
  - intros m f Hlt Hf. destruct (decide (hf_height f <= height)); [|lia].
    exfalso. by apply (Hm m Hlt), (Hel m f).
Qed.

Lemma scheduled_mono hs h h' : hs <> [] -> h <= h' ->
  scheduled_index h (rev hs) <= scheduled_index h' (rev hs).
Proof.
  intros Hne Hle.
  destruct (scheduled_index_spec hs h Hne) as (k & -> & Hk & H1 & _).
  destruct (scheduled_index_spec hs h' Hne) as (k' & -> & Hk' & _ & H2').
  destruct (decide (k <= k')%nat) as [|Hgt]; [lia|].
  destruct H1 as [->|(f & Hf & Hfh)]; [lia|]. specialize (H2' k f ltac:(lia) Hf). lia.
Qed.

(** ** Popping blocks *)

Definition stored_ok (db : BlockchainDB) (n : Z) : Prop :=
  forall h, 0 <= h < n -> exists v, get_hard_fork_version db h = Some v /\ is_u8 v.

Lemma removelast_perm {A} (l : list A) x : last l = Some x -> Permutation l (x :: removelast l).
Proof.
  intros H. apply last_decompose in H as [l' ->]. rewrite removelast_last.
  by rewrite Permutation_app_comm.
Qed.

Lemma pop_step_inv hf db height v :
  hf_inv hf -> versions hf <> [] -> get_hard_fork_version db height = Some v -> is_u8 v ->
  exists hf', pop_step db (Some (hf, height)) = Some (hf', u64 (height - 1)) /\ hf_inv hf' /\
    heights hf' = heights hf /\ window_size hf' = window_size hf /\
    current_fork_index hf' = current_fork_index hf /\
    versions hf' = v :: removelast (versions hf) /\ length (versions hf') = length (versions hf).
Proof.
  intros [Hw Ht Hsz Hs Hi] Hne Hv Hu. cbn [pop_step mbind option_bind]. unfold back.
  destruct (last (versions hf)) as [x|] eqn:Hl; [|by apply last_None in Hl].
  cbn [mbind option_bind]. rewrite Hv. cbn [mbind option_bind]. eexists. split; [done|].
  pose proof (removelast_perm _ _ Hl) as Hp. pose proof (Permutation_length Hp) as Hlen. cbn in Hlen.
  split; [|cbn; split_and!; try done; lia]. split; cbn; try done.
  - eapply table_add; [eapply table_sub; [exact Ht|exact Hp]|done|done|]. cbn.
    destruct Ht as [_ _ Hlt _]. lia.
  - lia.
Qed.

(** [on_block_popped] ends, keeps the window consistent and full, and puts
    the fork back to the scheduled one. *)
Lemma on_block_popped_spec hf db nblocks :
  hf_inv hf -> versions hf <> [] -> 0 < nblocks -> 0 < db_height db -> db_height db + nblocks < 2 ^ 64 ->
  stored_ok db (db_height db + nblocks) ->
  exists hf', on_block_popped hf db nblocks = Some hf' /\ hf_inv hf' /\
    heights hf' = heights hf /\ window_size hf' = window_size hf /\
    length (versions hf') = length (versions hf) /\
    current_fork_index hf' = scheduled_index (db_height db) (rev (heights hf)).
Proof.
  intros Hinv Hne Hn Hpos Hmax Hst. unfold on_block_popped.
  destruct (Z.leb_spec nblocks 0) as [|_]; [lia|]. set (H := db_height db) in *.
  rewrite (wrapu_small 64 (H + nblocks)), (wrapu_small 64 (H + nblocks - 1)) by (unfold is_uint; lia).
  destruct (while_fuel_total
    (fun s : option (HardFork * Z) => match s with Some (_, height) => H <=? height | None => false end)
    (pop_step db)
    (fun s => match s with
              | Some (hf', height) => H - 1 <= height < H + nblocks /\ hf_inv hf' /\
                  heights hf' = heights hf /\ window_size hf' = window_size hf /\
                  length (versions hf') = length (versions hf)
              | None => False end)
    (fun s => match s with Some (_, height) => Z.to_nat (height - H + 1) | None => 0%nat end))
    with (fuel := S (Z.to_nat nblocks)) (s := Some (hf, H + nblocks - 1)) as (s & -> & HI & _).
  - intros [[hf1 height]|]; [|by intros []]. intros (Hr & Hinv1 & Hh & Hws & Hl) Hc. apply Z.leb_le in Hc.
    destruct (Hst height ltac:(lia)) as (v & Hv & Hu).
    destruct (pop_step_inv hf1 db height v) as (hf2 & -> & Hinv2 & Hh2 & Hw2 & _ & _ & Hl2); try done.
    { intros E. rewrite E in Hl. by destruct (versions hf). }
    rewrite wrapu_small by (unfold is_uint; lia). split; [|lia].
    split; [lia|]. split; [done|]. split; [congruence|]. split; [congruence|].
    congruence.
  - split; [lia|]. done.
  - lia.
  - cbn [mbind option_bind]. destruct s as [[hf1 height]|]; [|done].
    destruct HI as (_ & [Hw Ht Hsz Hs Hi] & Hh & Hws & Hl). cbn [mbind option_bind]. eexists. split; [done|].
    cbn. rewrite Hh. split; [|done].
    destruct (scheduled_index_spec (heights hf) H) as (k & -> & Hk & _).
    { pose proof (inv_index hf Hinv). destruct (heights hf); [cbn in *; lia|done]. }
    split; cbn; rewrite ?Hh; try done. 1: by rewrite Hh in Hs. lia.
Qed.

(** ** The object and the chain together *)

(** Growing: the database appends the block and calls [add] with its height;
    only accepted blocks get there ([check] comes first). *)
Inductive hf_grow : HardFork * BlockchainDB -> HardFork * BlockchainDB -> Prop :=
  | grow_add hf db b hf' db' :
      is_u8 (snd b) -> db_height db + 1 < 2 ^ 64 ->
      add hf (DB (db_blocks db ++ [b]) (db_hf_versions db)) b (db_height db) = Some (hf', db', true) ->
      hf_grow (hf, db) (hf', db').

(** Growing, popping the top block (the genesis block stays), or the rescan
    after a reorganisation, at the height of the chain. *)
Inductive hf_step : HardFork * BlockchainDB -> HardFork * BlockchainDB -> Prop :=
  | step_grow s s' : hf_grow s s' -> hf_step s s'
  | step_pop hf db blocks b hf' :
      db_blocks db = blocks ++ [b] -> blocks <> [] ->
      on_block_popped hf (DB blocks (db_hf_versions db)) 1 = Some hf' ->
      hf_step (hf, db) (hf', DB blocks (db_hf_versions db))
  | step_reorganize hf db hf' db' :
      reorganize_from_chain_height hf db (db_height db) = Some (hf', db', true) ->
      hf_step (hf, db) (hf', db').

Lemma lower_index_range start_version below : below <> [] ->
  0 <= lower_index start_version below < Z.of_nat (length below).
Proof.
  induction below as [|f below IH]; intros Hne; [done|]. cbn [lower_index length].
  destruct ((0 <? Z.of_nat (length below)) && (start_version <? hf_version f)) eqn:E; [|lia].
  apply andb_true_iff in E as [E _]. apply Z.ltb_lt in E.
  specialize (IH ltac:(by destruct below)). lia.
Qed.

(** The rescan at the height of the chain: the window is rebuilt from the
    last blocks and the fork can only move to the voted one. *)
Lemma reorganize_top_spec hf db :
  hf_inv hf -> Forall (fun b => is_u8 (snd b)) (db_blocks db) -> 0 < db_height db ->
  stored_ok db (db_height db) ->
  exists hf', reorganize_from_chain_height hf db (db_height db) = Some (hf', db, true) /\ hf_inv hf' /\
    heights hf' = heights hf /\ window_size hf' = window_size hf /\
    versions hf' = lastn (Z.to_nat (window_size hf)) (chain_votes hf (db_blocks db)) /\
    exists i hf1, 0 <= i <= current_fork_index hf /\ hf1 = with_index hf' i /\ hf_inv hf1 /\
      hf' = raise_index hf1 (db_height db).
Proof.
  intros Hinv Hb Hpos Hst. unfold reorganize_from_chain_height, reorganize_from_block_height.
  destruct (Z.eqb_spec (db_height db) 0); [lia|].
  destruct (Z.leb_spec (db_height db) (db_height db - 1)) as [|_]; [lia|]. set (H := db_height db) in *.
  assert (exists sv, (if H - 1 =? 0 then Some (original_version (clear_window hf))
    else get_hard_fork_version db (H - 1)) = Some sv) as [sv ->].
  { destruct (Z.eqb_spec (H - 1) 0); [by eauto|]. destruct (Hst (H - 1) ltac:(lia)) as (v & Hv & _). by eauto. }
  cbn [mbind option_bind]. set (i := lower_index sv _).
  destruct Hinv as [Hw Ht Hsz Hs Hi].
  assert (0 <= i <= current_fork_index hf) as Hir.
  { unfold i. cbn [heights current_fork_index clear_window with_window].
    set (below := rev _). assert (length below = Z.to_nat (current_fork_index hf + 1)) as Hl
      by (unfold below; rewrite length_rev, length_take; lia).
    pose proof (lower_index_range sv below) as Hlow. destruct below; [cbn in Hl; lia|].
    specialize (Hlow ltac:(done)). lia. }
  set (rh := if window_size (clear_window hf) - 1 <=? H - 1 then _ else 0).
  assert (rh = Z.max 0 (H - window_size hf)) as Hrh by (unfold rh; cbn [window_size clear_window with_window]; bcase; lia). clearbody rh.
  destruct (scan_spec (with_index (clear_window hf) i) db rh (Z.to_nat (H - 1 + 1 - rh)))
    as (counts & -> & Htab); try done; [apply table_nil|lia|lia|cbn; lia|].
  cbn [versions with_index clear_window with_window app] in *. cbn [mbind option_bind].
  rewrite (chain_votes_heights hf) in Htab by done. rewrite (chain_votes_heights hf) by done.
  assert (take (Z.to_nat (H - 1 + 1 - rh)) (drop (Z.to_nat rh) (db_blocks db)) =
    lastn (Z.to_nat (window_size hf)) (db_blocks db)) as E.
  { unfold H, db_height in *. rewrite take_ge by (rewrite length_drop; lia). unfold lastn. f_equal. lia. }
  rewrite E in *. clear E. set (vs := chain_votes hf _) in *.
  set (hf1 := with_window _ vs counts). replace (H - 1 + 1) with H by lia. rewrite Z.sub_diag.
  assert (hf_inv hf1) as Hinv1.
  { split; cbn; try done; [|lia]. unfold vs, chain_votes. rewrite length_map, length_lastn. lia. }
  destruct (raise_index_spec hf1 H Hinv1) as [Hr Hrinv]. cbn [Z.to_nat add_blocks mbind option_bind].
  exists (raise_index hf1 H). split; [done|]. split; [done|]. rewrite Hr. cbn.
  split; [done|]. split; [done|]. split.
  { unfold vs, lastn, chain_votes. by rewrite length_map, skipn_map. }
  exists i, hf1. done.
Qed.

(** What [add] does to the pair. *)
Lemma grow_spec hf db hf' db' : hf_inv hf -> hf_grow (hf, db) (hf', db') ->
  exists b f, is_u8 (snd b) /\ db_blocks db' = db_blocks db ++ [b] /\
    fork_at hf (current_fork_index hf) = Some f /\
    db_hf_versions db' = <[db_height db := hf_version f]> (db_hf_versions db) /\
    fst b = hf_version f /\ hf_version f <= get_block_vote b /\
    hf_inv hf' /\ heights hf' = heights hf /\ window_size hf' = window_size hf /\
    versions hf' = lastn (Z.to_nat (window_size hf))
                     (versions hf ++ [get_effective_version hf (get_block_vote b)]) /\
    current_fork_index hf' =
      Z.max (current_fork_index hf)
            (get_voted_fork_index (with_index hf' (current_fork_index hf)) (db_height db')).
Proof.
  intros Hinv Hg. inversion_clear Hg as [? ? b ? ? Hb Hlt Hadd].
  set (db1 := DB (db_blocks db ++ [b]) (db_hf_versions db)) in *.
  destruct (add_spec hf db1 b (db_height db) Hinv Hb) as (f & Hf & Hspec).
  destruct (_ && _) eqn:Hc; [|rewrite Hspec in Hadd; done].
  destruct Hspec as (hf1 & Heq & Hinv1 & Hh & Hws & Hvs & _ & Hi).
  rewrite Heq in Hadd. injection Hadd as <- <-.
  apply andb_prop in Hc as [Hc1 Hc2]. apply Z.eqb_eq in Hc1. apply Z.leb_le in Hc2.
  exists b, f. unfold db_height in *. cbn [db_blocks db_hf_versions set_hard_fork_version db1] in *.
  replace (Z.of_nat (length (db_blocks db ++ [b]))) with (Z.of_nat (length (db_blocks db)) + 1)
    by (rewrite length_app; cbn [length]; lia).
  split_and!; done.
Qed.

(** Invariant of the pair for a schedule [hs] without voting. *)
Record sys_inv (hs : list hardfork_t) (s : HardFork * BlockchainDB) : Prop := {
  sys_hf : hf_inv (fst s);
  sys_heights : heights (fst s) = hs;
  sys_window : versions (fst s) <> [];
  sys_chain : 0 < db_height (snd s) < 2 ^ 64;
  sys_stored : stored_ok (snd s) (db_height (snd s));
  sys_blocks : Forall (fun b => is_u8 (snd b)) (db_blocks (snd s));
  sys_index : current_fork_index (fst s) = scheduled_index (db_height (snd s)) (rev hs);
}.

Lemma grow_sys hs s s' f0 :
  no_voting hs -> hs !! 0%nat = Some f0 -> hf_height f0 <= 1 ->
  sys_inv hs s -> hf_grow s s' -> sys_inv hs s'.
Proof.
  intros Hnv Hf0 Hh0 [Hinv Hh Hwin Hc Hst Hbs Hi] Hg. destruct s as [hf db], s' as [hf' db']. cbn [fst snd] in *.
  assert (db_height db + 1 < 2 ^ 64) as Hmax by (by inversion Hg).
  destruct (grow_spec _ _ _ _ Hinv Hg) as (b & f & Hb & Hbl & Hf & Hver & _ & _ & Hinv' & Hh' & Hws' & Hvs' & Hi').
  assert (db_height db' = db_height db + 1) as Hdb'
    by (unfold db_height; rewrite Hbl, length_app; cbn [length]; lia).
  assert (is_u8 (hf_version f)) as Hfu.
  { unfold fork_at in Hf. case_match; [done|]. destruct (inv_sched hf Hinv) as [_ Hok].
    by destruct (Forall_lookup_1 _ _ _ _ Hok Hf). }
  pose proof (inv_window hf Hinv) as Hw.
  split; cbn [fst snd]; [done|congruence| |lia| |rewrite Hbl; apply Forall_app_2, Forall_singleton; done|].
  - rewrite Hvs'. intros E%(f_equal length). rewrite length_lastn, length_app in E. cbn [length] in E. lia.
  - intros h Hr. unfold get_hard_fork_version. rewrite Hver.
    destruct (decide (h = db_height db)) as [->|]; [rewrite lookup_insert_eq; by eauto|].
    rewrite lookup_insert_ne by done. apply Hst. lia.
  - assert (hf_inv (with_index hf' (current_fork_index hf))) as Hinv1.
    { destruct Hinv' as [? ? ? ? _]. split; cbn; try done. rewrite Hh'. apply Hinv. }
    rewrite Hi', (voted_scheduled _ _ Hinv1); cbn; rewrite ?Hh', ?Hh.
    + rewrite Hi. apply Z.max_r, scheduled_mono; [by destruct hs|lia].
    + done.
    + exists f0. split; [done|lia].
Qed.

Lemma pop_sys hs hf db blocks b :
  sys_inv hs (hf, db) -> db_blocks db = blocks ++ [b] -> blocks <> [] ->
  exists hf', on_block_popped hf (DB blocks (db_hf_versions db)) 1 = Some hf' /\
    sys_inv hs (hf', DB blocks (db_hf_versions db)).
Proof.
  intros [Hinv Hh Hwin Hc Hst Hbs Hi] Hbl Hne. cbn [fst snd] in *.
  set (db' := DB blocks (db_hf_versions db)) in *.
  assert (db_height db = db_height db' + 1) as Hdb
    by (unfold db_height; rewrite Hbl, length_app; cbn [length db' db_blocks]; lia).
  assert (0 < db_height db') as Hpos by (unfold db_height; cbn; destruct blocks; [done|cbn; lia]).
  destruct (on_block_popped_spec hf db' 1) as (hf1 & Heq & Hinv1 & Hh1 & Hw1 & Hl1 & Hi1);
    try done; try lia.
  { intros h Hr. rewrite Hdb in Hst. by apply Hst. }
  exists hf1. split; [done|].
  split; cbn [fst snd]; [done|congruence| |lia| |rewrite Hbl in Hbs; by apply Forall_app in Hbs as [? _]|congruence].
  - intros E. rewrite E in Hl1. by destruct (versions hf).
  - intros h Hr. apply Hst. lia.
Qed.

Lemma raise_scheduled hs hf i f0 height :
  hf_inv (with_index hf i) -> heights hf = hs -> no_voting hs -> hs !! 0%nat = Some f0 ->
  hf_height f0 <= height -> i <= scheduled_index height (rev hs) ->
  current_fork_index (raise_index (with_index hf i) height) = scheduled_index height (rev hs).
Proof.
  intros Hinv Hh Hnv Hf0 Hh0 Hi. destruct (raise_index_spec _ height Hinv) as [-> _].
  cbn [current_fork_index with_index]. rewrite (voted_scheduled _ height Hinv); cbn; rewrite ?Hh; [lia|done|by eauto].
Qed.

Lemma reorganize_sys hs hf db f0 :
  no_voting hs -> hs !! 0%nat = Some f0 -> hf_height f0 <= 1 -> sys_inv hs (hf, db) ->
  exists hf', reorganize_from_chain_height hf db (db_height db) = Some (hf', db, true) /\
    sys_inv hs (hf', db).
Proof.
  intros Hnv Hf0 Hh0 [Hinv Hh Hwin Hc Hst Hbl Hi]. cbn [fst snd] in *.
  destruct (reorganize_top_spec hf db Hinv Hbl ltac:(lia) Hst)
    as (hf1 & Heq & Hinv1 & Hh1 & Hw1 & Hv1 & i & hf2 & Hi1 & -> & Hinv2 & Hr).
  pose proof (inv_window hf Hinv). exists hf1. split; [done|].
  split; cbn [fst snd]; try done; [congruence| |].
  - rewrite Hv1. intros E%(f_equal length). rewrite length_lastn in E. unfold chain_votes in E.
    rewrite length_map in E. unfold db_height in Hc. cbn [length] in E. lia.
  - rewrite Hr. apply (raise_scheduled hs hf1 i f0); try done; [congruence|lia|lia].
Qed.

Lemma step_sys hs s s' f0 :
  no_voting hs -> hs !! 0%nat = Some f0 -> hf_height f0 <= 1 ->
  sys_inv hs s -> hf_step s s' -> sys_inv hs s'.
Proof.
  intros Hnv Hf0 Hh0 Hs Hstep. inversion Hstep as [|hf db blocks b hf' Hbl Hne Hpop|hf db hf' db' Hre]; subst.
  - by eapply grow_sys.
  - destruct (pop_sys _ _ _ _ _ Hs Hbl Hne) as (hf1 & Heq & ?). rewrite Hpop in Heq. by injection Heq as <-.
  - destruct (reorganize_sys _ _ _ f0 Hnv Hf0 Hh0 Hs) as (hf1 & Heq & ?).
    rewrite Hre in Heq. by injection Heq as <- <-.
Qed.

(** On schedule, [add] answers whether the block has the version in force and
    votes for it. *)
Lemma add_sys hs hf db b v :
  sys_inv hs (hf, db) -> is_u8 (snd b) -> get_current_version hf = Some v ->
  exists hf' db', add hf (DB (db_blocks db ++ [b]) (db_hf_versions db)) b (db_height db) =
    Some (hf', db', (fst b =? v) && (v <=? get_block_vote b)).
Proof.
  intros [Hinv _ _ _ _ _ _] Hb Hv. cbn [fst snd] in *.
  destruct (add_spec hf (DB (db_blocks db ++ [b]) (db_hf_versions db)) b (db_height db) Hinv Hb) as (f & Hf & H).
  unfold get_current_version in Hv. rewrite Hf in Hv. injection Hv as <-.
  destruct (_ && _); [|by eauto]. destruct H as (hf' & -> & _). by eauto.
Qed.

Lemma find_index_found lastv i hs k f : StronglySorted fork_lt hs -> hs !! k = Some f ->
  hf_version f = lastv -> find_index lastv i hs = i + Z.of_nat k.
Proof.
  intros Hs. revert i k; induction Hs as [|g hs Hs IH Hg]; intros i k Hk Hv; [done|]. cbn [find_index].
  destruct hs as [|g' hs'].
  { destruct k; [lia|done]. }
  destruct k as [|k]; cbn in Hk.
  - simplify_eq. rewrite Z.eqb_refl. cbn. lia.
  - assert (hf_version g <> lastv) as Hne.
    { rewrite Forall_forall in Hg. specialize (Hg f ltac:(by eapply list_elem_of_lookup_2)).
      unfold fork_lt in Hg. lia. }
    destruct (Z.eqb_spec (hf_version g) lastv); [done|]. cbn [negb].
    rewrite (IH (i + 1) k Hk Hv). lia.
Qed.

(** The fork in force, read by the two loops over the schedule. *)
Lemma ideal_scheduled hs f0 height : hs !! 0%nat = Some f0 ->
  hf_version <$> hs !! Z.to_nat (scheduled_index height (rev hs)) =
  Some (ideal_loop (hf_version f0) height (rev hs)).
Proof.
  induction hs as [|f hs IH] using rev_ind; intros Hf0; [done|].
  rewrite rev_app_distr. cbn [rev app scheduled_index ideal_loop]. rewrite length_rev.
  destruct hs as [|g hs]; [cbn in *; by simplify_eq|].
  destruct (rev (g :: hs)) as [|r rs] eqn:E.
  { apply (f_equal length) in E. rewrite length_rev in E. done. }
  destruct (Z.eqb_spec (Z.of_nat (length (g :: hs))) 0); [cbn in *; lia|].
  destruct (hf_height f <=? height).
  - rewrite Nat2Z.id, lookup_app_r, Nat.sub_diag by lia. done.
  - rewrite <- IH by (by cbn in * ). rewrite <- E.
    destruct (scheduled_index_spec (g :: hs) height) as (k & -> & Hk & _); [done|].
    by rewrite lookup_app_l by lia.
Qed.

(** A chain whose top block was added under the loaded schedule, with a
    schedule that starts at or below height 1 and has no voting. *)
Record on_chain (hf : HardFork) (db : BlockchainDB) : Prop := {
  chain_setup : setup_ok hf db;
  chain_height : db_height db < 2 ^ 64;
  chain_stored : stored_ok db (db_height db);
  chain_no_voting : no_voting (heights hf);
  chain_first : exists f0, heights hf !! 0%nat = Some f0 /\ hf_height f0 <= 1 /\
                  hf_version f0 = original_version hf;
  chain_top : exists k f, get_hard_fork_version db (db_height db - 1) = Some (hf_version f) /\
                heights hf !! k = Some f /\ hf_height f <= db_height db;
}.

Lemma init_sys hf db : on_chain hf db ->
  exists hf1, init hf db = Some hf1 /\ sys_inv (heights hf) (hf1, db).
Proof.
  intros [Hsetup Hmax Hst Hnv (f0 & Hf0 & Hh0 & _) (k & f & Hv & Hk & Hkh)].
  destruct (init_spec hf db Hsetup) as (hf1 & lastv & hf2 & Hinit & Hinv & Hh & Hw & Hvs & Hlast & -> & Hinv2 & Hr).
  exists hf1. split; [done|]. destruct Hsetup as [Hwin [Hs Hok] Hne Hb Hc Hsome].
  rewrite Hv in Hlast. injection Hlast as <-.
  rewrite (find_index_found _ _ _ k f) in * by done.
  split; cbn [fst snd]; try done; try lia.
  - rewrite Hvs. intros E%(f_equal length). rewrite length_lastn in E. unfold chain_votes in E.
    rewrite length_map in E. unfold db_height in Hc. cbn [length] in E. lia.
  - rewrite Hr. apply (raise_scheduled _ _ _ f0); try done; [lia|].
    destruct (scheduled_index_spec (heights hf) (db_height db) Hne) as (k' & -> & _ & _ & Hk').
    destruct (decide (k' < k)%nat) as [Hlt|]; [|lia]. specialize (Hk' k f Hlt Hk). lia.
Qed.

(** ** Properties *)

(** C17: A block is accepted exactly when its major version is the current
    fork's and it votes for at least that version; otherwise nothing changes.
    An accepted block has the current version stored at its height, its
    effective vote enters the window (which keeps the last [window_size]
    votes, its table counting them), and the fork moves to the last one that
    is due at the next height and has its share of the window's votes, or
    stays; it never moves back. *)
Theorem hard_fork_add_correct hf db b height :
  hf_inv hf -> is_u8 (snd b) ->
  exists f, fork_at hf (current_fork_index hf) = Some f /\
  if (fst b =? hf_version f) && (hf_version f <=? get_block_vote b) then
    exists hf', add hf db b height = Some (hf', set_hard_fork_version db height (hf_version f), true) /\
      hf_inv hf' /\ heights hf' = heights hf /\
      versions hf' = lastn (Z.to_nat (window_size hf))
                       (versions hf ++ [get_effective_version hf (get_block_vote b)]) /\
      current_fork_index hf <= current_fork_index hf' /\
      (current_fork_index hf < current_fork_index hf' ->
         eligible hf' (height + 1) (Z.to_nat (current_fork_index hf'))) /\
      forall m, (Z.to_nat (current_fork_index hf') < m)%nat -> ~ eligible hf' (height + 1) m
  else add hf db b height = Some (hf, db, false).
Proof.
  intros Hinv Hb. destruct (add_spec hf db b height Hinv Hb) as (f & Hf & H). exists f. split; [done|].
  destruct (_ && _); [|done]. destruct H as (hf' & Hadd & Hinv' & Hh & Hw & Hvs & Hle & Hi).
  exists hf'. split; [done|]. split; [done|]. split; [done|]. split; [done|]. split; [done|].
  pose proof (inv_index hf Hinv) as Hr.
  assert (hf_inv (with_index hf' (current_fork_index hf))) as Hinv1.
  { destruct Hinv' as [? ? ? ? _]. split; cbn; try done. by rewrite Hh. }
  destruct (voted_spec _ (height + 1) Hinv1) as [(k & Hk & Hkl & He & Hm)|[Hk Hm]]; rewrite Hk in Hi;
    cbn [current_fork_index with_index] in Hi.
  - split; [intros Hlt; by replace (Z.to_nat _) with k by lia|].
    intros m Hmk. apply Hm. lia.
  - split; [lia|]. intros m _. apply Hm.
Qed.

(** C18: From [init] on a chain that follows a schedule without voting, through
    any sequence of accepted blocks, popped blocks and rescans at the height of
    the chain, the object keeps its invariant and the version it enforces for
    the next block is the scheduled version at the height of the chain.  No
    such call fails on the way: a block is answered, accepted exactly when it
    has the scheduled version and votes for at least it, popping any block but
    the genesis block returns, and so does a rescan, with [true]. *)
Theorem hard_fork_on_schedule hf db : on_chain hf db ->
  exists hf1, init hf db = Some hf1 /\
  forall s, rtc hf_step (hf1, db) s ->
    let scheduled := get_ideal_version_at hf (db_height (snd s)) in
    hf_inv (fst s) /\ heights (fst s) = heights hf /\
    get_current_version (fst s) = Some scheduled /\
    (forall b, is_u8 (snd b) -> exists hf' db',
       add (fst s) (DB (db_blocks (snd s) ++ [b]) (db_hf_versions (snd s))) b (db_height (snd s)) =
       Some (hf', db', (fst b =? scheduled) && (scheduled <=? get_block_vote b))) /\
    (forall blocks b, db_blocks (snd s) = blocks ++ [b] -> blocks <> [] -> exists hf',
       on_block_popped (fst s) (DB blocks (db_hf_versions (snd s))) 1 = Some hf') /\
    exists hf', reorganize_from_chain_height (fst s) (snd s) (db_height (snd s)) = Some (hf', snd s, true).
Proof.
  intros Hc. destruct (init_sys hf db Hc) as (hf1 & Hinit & Hsys). exists hf1. split; [done|].
  destruct Hc as [_ _ _ Hnv (f0 & Hf0 & Hh0 & Ho) _]. intros s Hrtc scheduled.
  assert (sys_inv (heights hf) s) as Hs.
  { clear Hinit. induction Hrtc as [|s1 s2 s3 H1 _ IH]; [done|].
    apply IH. by apply (step_sys _ s1 s2 f0). }
  pose proof Hs as [Hinv Hh _ _ _ _ Hi].
  assert (get_current_version (fst s) = Some scheduled) as Hv.
  { unfold scheduled, get_current_version, get_ideal_version_at, fork_at. rewrite Hi, Hh, <- Ho.
    pose proof (inv_index _ Hinv) as Hr.
    destruct (Z.ltb_spec (scheduled_index (db_height s.2) (rev (heights hf))) 0).
    - rewrite <- Hi in *. lia.
    - by apply ideal_scheduled. }
  destruct s as [hf2 db2]. split; [done|]. split; [done|]. split; [done|]. split_and!.
  - intros b Hb. by apply (add_sys (heights hf)).
  - intros blocks b Hbl Hne. destruct (pop_sys _ _ _ _ _ Hs Hbl Hne) as (hf' & ? & _). by exists hf'.
  - destruct (reorganize_sys _ _ _ f0 Hnv Hf0 Hh0 Hs) as (hf' & ? & _). by exists hf'.
Qed.

(** C19: The window is the chain's: after [init], and after any number of
    accepted blocks, it holds the effective votes of the last [window_size]
    blocks of the chain, in order. *)
Theorem hard_fork_window_correct hf db hf1 s :
  setup_ok hf db -> init hf db = Some hf1 -> rtc hf_grow (hf1, db) s ->
  versions (fst s) = lastn (Z.to_nat (window_size hf)) (chain_votes hf (db_blocks (snd s))).
Proof.
  intros Hset Hinit Hrtc.
  destruct (init_spec hf db Hset) as (? & _ & _ & Heq & Hinv & Hh & Hw & Hvs & _).
  rewrite Hinit in Heq. injection Heq as <-. clear Hinit Hset.
  remember (hf1, db) as s0 eqn:E.
  assert (hf_inv (fst s0) /\ heights (fst s0) = heights hf /\ window_size (fst s0) = window_size hf /\
    versions (fst s0) = lastn (Z.to_nat (window_size hf)) (chain_votes hf (db_blocks (snd s0)))) as H
    by (by subst).
  clear E Hinv Hh Hw Hvs. induction Hrtc as [[]|[hf2 db2] [hf3 db3] s3 H1 _ IH]; [apply H|].
  apply IH. cbn [fst snd] in *. destruct H as (Hinv & Hh & Hw & Hvs). pose proof (inv_window _ Hinv).
  destruct (grow_spec _ _ _ _ Hinv H1) as (b & f & _ & Hbl & _ & _ & _ & _ & Hinv3 & Hh3 & Hw3 & Hvs3 & _).
  split; [done|]. split; [congruence|]. split; [congruence|]. rewrite Hvs3, Hvs, Hbl, Hw.
  rewrite lastn_app_lastn by (cbn [length]; lia). f_equal. unfold chain_votes. rewrite map_app.
  cbn [map]. unfold get_effective_version. by rewrite Hh.
Qed.

(** The rescan of a reorganisation, at the height of the chain, leaves the
    database alone and makes the window the effective votes of the last
    [window_size] blocks again, whatever pops had left in it. *)
Theorem hard_fork_reorganize_correct hf db :
  hf_inv hf -> Forall (fun b => is_u8 (snd b)) (db_blocks db) -> 0 < db_height db ->
  stored_ok db (db_height db) ->
  exists hf', reorganize_from_chain_height hf db (db_height db) = Some (hf', db, true) /\ hf_inv hf' /\
    heights hf' = heights hf /\
    versions hf' = lastn (Z.to_nat (window_size hf)) (chain_votes hf (db_blocks db)).
Proof.
  intros Hinv Hb Hpos Hst.
  destruct (reorganize_top_spec hf db Hinv Hb Hpos Hst) as (hf' & Hre & Hinv' & Hh & _ & Hvs & _).
  by exists hf'.
Qed.

(** The three tables of the networks are accepted entry by entry: the
    object holds the whole table, strictly increasing in version, height and
    time, and no fork of it asks for votes. *)
Theorem network_tables_load ov till forks hf :
  forks ∈ [mainnet_hard_forks; testnet_hard_forks; stagenet_hard_forks] ->
  hardfork_new ov till DEFAULT_FORKED_TIME DEFAULT_UPDATE_TIME DEFAULT_WINDOW_SIZE
    DEFAULT_THRESHOLD_PERCENT = Some hf ->
  heights (load_forks hf forks) = forks /\ schedule_ok forks /\ no_voting forks.
Proof.
  intros Hf Hnew. vm_compute in Hnew. injection Hnew as <-.
  rewrite !elem_of_cons, elem_of_nil in Hf.
  destruct Hf as [->|[->|[->|[]]]]; (split; [by vm_compute|]); apply (bool_decide_unpack _); by vm_compute.
Qed.

(** *** Instances *)

(** Two forks loaded on a chain of three blocks. *)
Definition example_db : BlockchainDB :=
  DB [(1, 1); (1, 2); (1, 1)] (list_to_map [(0, 1); (1, 1); (2, 1)]).

Definition example_hf : HardFork :=
  MkHardFork DEFAULT_FORKED_TIME DEFAULT_UPDATE_TIME 2 DEFAULT_THRESHOLD_PERCENT 1 0
    [Hardfork 1 1 0 100; Hardfork 2 4 0 200] [] (replicate 256 0) 0.

Lemma example_setup : setup_ok example_hf example_db.
Proof.
  split; try done; apply (bool_decide_unpack _); by vm_compute.
Qed.

Lemma example_chain : on_chain example_hf example_db.
Proof.
  split; try done; [apply example_setup| | | |].
  - intros h Hh. assert (h = 0 \/ h = 1 \/ h = 2) as [->|[->| ->]] 
      by (change (db_height example_db) with 3 in Hh; lia);
      exists 1; by vm_compute.
  - apply (bool_decide_unpack _). by vm_compute.
  - eexists. by vm_compute.
  - exists 0%nat, (Hardfork 1 1 0 100). by vm_compute.
Qed.

Lemma example_inv : hf_inv example_hf.
Proof. split; [done|apply table_nil|done|apply example_setup|done]. Qed.

(** One accepted block brings the example to height 4 and its second fork;
    popping it brings the first fork back. *)
Lemma hard_fork_on_schedule_witness : exists hf1 s hf2, init example_hf example_db = Some hf1 /\
  rtc hf_step (hf1, example_db) s /\ db_height (snd s) = 4 /\ get_current_version (fst s) = Some 2 /\
  on_block_popped (fst s) (DB (db_blocks example_db) (db_hf_versions (snd s))) 1 = Some hf2 /\
  get_current_version hf2 = Some 1.
Proof.
  destruct (hard_fork_on_schedule example_hf example_db example_chain) as (hf1 & Hinit & H).
  destruct (add hf1 (DB (db_blocks example_db ++ [(1, 1)]) (db_hf_versions example_db)) (1, 1) 3)
    as [[[hf2 db2] r]|] eqn:E; vm_compute in Hinit; injection Hinit as <-; [|by vm_compute in E].
  assert (db_blocks db2 = db_blocks example_db ++ [(1, 1)] /\ r = true) as [Hd ->]
    by (vm_compute in E; by injection E as <- <- <-).
  assert (db_height db2 = 4) as Hd4 by (unfold db_height; by rewrite Hd).
  assert (rtc hf_step (_, example_db) (hf2, db2)) as Hrtc
    by (eapply rtc_once, step_grow, (grow_add _ example_db (1, 1)); [done|done|exact E]).
  destruct (H _ Hrtc) as (_ & _ & Hv & _ & Hpop & _).
  destruct (Hpop _ _ Hd) as (hf3 & Hp); [done|].
  assert (rtc hf_step (_, example_db) (hf3, DB (db_blocks example_db) (db_hf_versions db2))) as Hrtc'
    by (eapply rtc_r; [exact Hrtc|]; by eapply step_pop).
  destruct (H _ Hrtc') as (_ & _ & Hv' & _).
  eexists _, (hf2, db2), hf3. split; [by vm_compute|]. split; [exact Hrtc|].
  split; [done|]. split; [cbn [snd] in Hv; by rewrite Hd4 in Hv|]. split; [exact Hp|]. exact Hv'.
Defined.

Lemma hard_fork_add_witness : exists f, fork_at example_hf 0 = Some f /\
  exists hf', add example_hf example_db (1, 1) 3 =
    Some (hf', set_hard_fork_version example_db 3 (hf_version f), true) /\ versions hf' = [1].
Proof.
  destruct (hard_fork_add_correct example_hf example_db (1, 1) 3 example_inv ltac:(done))
    as (f & Hf & H). exists f. split; [done|]. vm_compute in Hf. injection Hf as <-.
  destruct H as (hf' & Hadd & _ & _ & Hv & _). by exists hf'.
Defined.

Lemma hard_fork_window_witness : exists hf1, init example_hf example_db = Some hf1 /\ versions hf1 = [2; 1].
Proof.
  destruct (init example_hf example_db) as [hf1|] eqn:E; [|by vm_compute in E].
  exists hf1. split; [done|].
  apply (hard_fork_window_correct example_hf example_db hf1 (hf1, example_db) example_setup E). constructor.
Defined.

Lemma hard_fork_reorganize_witness : exists hf',
  reorganize_from_chain_height example_hf example_db 3 = Some (hf', example_db, true) /\ versions hf' = [2; 1].
Proof.
  destruct (hard_fork_reorganize_correct example_hf example_db example_inv) as (hf' & Hr & _ & _ & Hv);
    [apply example_setup|done|apply example_chain|]. by exists hf'.
Defined.

Lemma network_tables_load_witness :
  heights (load_forks (MkHardFork DEFAULT_FORKED_TIME DEFAULT_UPDATE_TIME DEFAULT_WINDOW_SIZE
    DEFAULT_THRESHOLD_PERCENT 1 0 [] [] (replicate 256 0) 0) stagenet_hard_forks) = stagenet_hard_forks.
Proof. apply (network_tables_load 1 0); [set_solver|by vm_compute]. Defined.

(** A popped block does not undo an added one: [on_block_popped] pushes the
    popped block's fork version at the front of the window, where the vote of
    an older block leaves it on [add]; on a chain shorter than the window it
    then holds more votes than there are blocks. *)
Lemma pop_window_differs : exists hf1 hf2 db2 hf3,
  init example_hf example_db = Some hf1 /\ versions hf1 = [2; 1] /\
  add hf1 (DB (db_blocks example_db ++ [(1, 1)]) (db_hf_versions example_db)) (1, 1) 3
    = Some (hf2, db2, true) /\
  on_block_popped hf2 (DB (db_blocks example_db) (db_hf_versions db2)) 1 = Some hf3 /\
  versions hf3 = [1; 1].
Proof. do 4 eexists. repeat (split; [by vm_compute|]). by vm_compute. Qed.
