(* ===== verification/MergeMining.v ===== *)
(** * Merge mining tags

    [src/cryptonote_basic/merge_mining.cpp]: the slot of an auxiliary chain
    in the merge mining tree, and the depth word that packs the number of
    auxiliary chains and the nonce into the tag of the coinbase. *)

From S2P Require Import Prelude IntUtil.

(** ** Definitions *)

(** [config::HASH_KEY_MM_SLOT]. *)
Definition HASH_KEY_MM_SLOT : Z := 109.

Section Slot.
(** [tools::sha256sum] is OpenSSL's SHA-256 of a buffer. *)
Context (sha256sum : list Z -> list Z).

(** [get_aux_slot]; [None] is the thrown assertion on [n_aux_chains]. *)
Definition get_aux_slot (id : list Z) (nonce n_aux_chains : Z) : option Z :=
  if n_aux_chains =? 0 then None
  else
    let buf := id ++ le_bytes 4 nonce ++ [HASH_KEY_MM_SLOT] in
    let res := sha256sum buf in
    Some (le_value (take 4 res) mod n_aux_chains).

(** The slot exists exactly when there is a chain, and is one of the
    [n_aux_chains] leaves of the tree. *)
Lemma get_aux_slot_range id nonce n :
  (forall l, bytes_ok (sha256sum l)) -> is_u32 n ->
  match get_aux_slot id nonce n with
  | Some slot => 0 <= slot < n
  | None => n = 0
  end.
Proof.
  intros Hsha Hn. unfold get_aux_slot, is_uint in *. bcase; [done|].
  apply Z.mod_pos_bound. lia.
Qed.
End Slot.

(** [encode_mm_depth]: [n_bits] grows from 1 until [1u << n_bits] reaches
    [n_aux_chains]; 32 rounds cover every 32-bit count.  [None] is a thrown
    assertion. *)
Definition mm_n_bits (n_aux_chains : Z) : option Z :=
  while_fuel (fun n_bits => u32 (Z.shiftl 1 n_bits) <? n_aux_chains)
             (fun n_bits => u32 (n_bits + 1)) 32 1.

Definition encode_mm_depth (n_aux_chains nonce : Z) : option Z :=
  if n_aux_chains <=? 0 then None
  else if 256 <? n_aux_chains then None
  else
    match mm_n_bits n_aux_chains with
    | None => None
    | Some n_bits =>
        Some (Z.lor (Z.lor (u32 (n_bits - 1)) (u32 (Z.shiftl (u32 (n_aux_chains - 1)) 3)))
                    (u64 (Z.shiftl nonce (3 + n_bits))))
    end.

(** [decode_mm_depth]: both out parameters; the call always succeeds. *)
Definition decode_mm_depth (depth : Z) : Z * Z :=
  let n_bits := 1 + Z.land depth 7 in
  (u32 (1 + Z.land (Z.shiftr depth 3) (Z.shiftl 1 n_bits - 1)),
   u32 (Z.shiftr depth (3 + n_bits))).

(** ** Lemmas *)

(** The counting loop stops at the least [n_bits >= 1] that can hold
    [n_aux_chains - 1], at most 8 for the counts the encoder accepts. *)
Lemma mm_n_bits_spec n :
  1 <= n <= 256 ->
  exists b, mm_n_bits n = Some b /\ 1 <= b <= 8 /\ n <= 2 ^ b /\ (b = 1 \/ 2 ^ (b - 1) < n).
Proof.
  intros Hn.
  destruct (while_fuel_total (fun b => u32 (Z.shiftl 1 b) <? n) (fun b => u32 (b + 1))
    (fun b => 1 <= b <= 8 /\ (b = 1 \/ 2 ^ (b - 1) < n)) (fun b => Z.to_nat (8 - b)))
    with (fuel := 32%nat) (s := 1) as (b & Hb & [Hr Hlo] & Hc).
  - intros s [Hs _] Hc. rewrite shiftl_mul, Z.mul_1_l in Hc by lia.
    apply Z.ltb_lt in Hc.
    assert (2 ^ s <= 2 ^ 8) by (apply Z.pow_le_mono_r; lia).
    rewrite wrapu_small in Hc by (unfold is_uint; lia).
    assert (s < 8) by (destruct (decide (s = 8)) as [->|]; lia).
    rewrite wrapu_small by (unfold is_uint; lia).
    split; [split; [lia|right]|lia]. by rewrite Z.add_simpl_r.
  - split; [lia|by left].
  - simpl; lia.
  - exists b. split; [exact Hb|]. split; [done|]. split; [|done].
    rewrite shiftl_mul, Z.mul_1_l in Hc by lia.
    assert (2 ^ b <= 2 ^ 8) by (apply Z.pow_le_mono_r; lia).
    rewrite wrapu_small in Hc by (unfold is_uint; lia). by apply Z.ltb_ge in Hc.
Qed.

(** The three fields of the depth word do not overlap. *)
Lemma encode_mm_depth_value n nonce b :
  1 <= n <= 256 -> is_u32 nonce -> mm_n_bits n = Some b ->
  1 <= b <= 8 -> n <= 2 ^ b ->
  encode_mm_depth n nonce = Some ((b - 1) + ((n - 1) + nonce * 2 ^ b) * 2 ^ 3).
Proof.
  intros Hn Hnonce Hb Hb8 Hle. unfold encode_mm_depth. unfold is_uint in Hnonce.
  destruct (Z.leb_spec n 0); [lia|]. destruct (Z.ltb_spec 256 n); [lia|].
  rewrite Hb. f_equal. rewrite !shiftl_mul by lia.
  rewrite (wrapu_small 32 (n - 1)) by (unfold is_uint; lia).
  rewrite !(wrapu_small 32) by (unfold is_uint; lia).
  assert (2 ^ (3 + b) <= 2 ^ 11) by (apply Z.pow_le_mono_r; lia).
  assert (0 < 2 ^ (3 + b)) by lia.
  rewrite wrapu_small by (unfold is_uint; nia).
  rewrite (lor_disjoint (b - 1) (n - 1) 3) by lia.
  rewrite lor_disjoint; rewrite ?Z.pow_add_r in * by lia; lia.
Qed.

(** ** Properties *)

(** For every number of auxiliary chains the encoder accepts and every
    32-bit nonce the depth word is computed (the bit-counting loop ends),
    fits 43 bits, and decodes to the same count and nonce. *)
Theorem mm_depth_roundtrip n_aux_chains nonce :
  1 <= n_aux_chains <= 256 -> is_u32 nonce ->
  exists depth, encode_mm_depth n_aux_chains nonce = Some depth /\
    is_uint 43 depth /\ decode_mm_depth depth = (n_aux_chains, nonce).
Proof.
  intros Hn Hnonce.
  destruct (mm_n_bits_spec n_aux_chains Hn) as (b & Hb & Hb8 & Hle & _).
  eexists. split; [by apply (encode_mm_depth_value _ _ b)|].
  assert (2 ^ b <= 2 ^ 8) by (apply Z.pow_le_mono_r; lia).
  unfold is_uint in Hnonce. split; [unfold is_uint; nia|].
  unfold decode_mm_depth. change 7 with (2 ^ 3 - 1).
  set (x := n_aux_chains - 1 + nonce * 2 ^ b).
  rewrite land_mask, Z.mod_add, Z.mod_small by lia.
  replace (1 + (b - 1)) with b by lia.
  rewrite shiftl_mul, Z.mul_1_l, !shiftr_div, land_mask by lia.
  rewrite Z.pow_add_r, <- Z.div_div by lia.
  rewrite Z.div_add, (Z.div_small (b - 1)) by lia. unfold x. rewrite Z.add_0_l.
  rewrite Z.mod_add, Z.div_add, Z.mod_small, Z.div_small by lia.
  rewrite !wrapu_small by (unfold is_uint; lia). f_equal; lia.
Qed.

Lemma mm_depth_roundtrip_witness :
  exists depth, encode_mm_depth 200 123456789 = Some depth /\
    is_uint 43 depth /\ decode_mm_depth depth = (200, 123456789).
Proof. apply mm_depth_roundtrip; [lia|]. unfold is_uint; lia. Defined.
