(* ===== verification/Difficulty.v ===== *)
(** * Proof of work difficulty

    [src/cryptonote_basic/difficulty.cpp]: the 256-bit test of a proof of
    work hash against a difficulty, done in 64-bit words with explicit
    carries or in wide integers, and the retargeting rule over a window of
    timestamps and cumulative difficulties. *)

From S2P Require Import Prelude IntUtil Config.

(** ** Definitions *)

(** The portable [mul] of the [#else] branch: [(low, high)]. *)
Definition mul (a b : Z) : Z * Z :=
  let aLow := Z.land a 0xFFFFFFFF in
  let aHigh := Z.shiftr a 32 in
  let bLow := Z.land b 0xFFFFFFFF in
  let bHigh := Z.shiftr b 32 in
  let res := u64 (aLow * bLow) in
  let lowRes1 := Z.land res 0xFFFFFFFF in
  let carry := Z.shiftr res 32 in
  let res := u64 (u64 (aHigh * bLow) + carry) in
  let highResHigh1 := Z.shiftr res 32 in
  let highResLow1 := Z.land res 0xFFFFFFFF in
  let res := u64 (aLow * bHigh) in
  let lowRes2 := Z.land res 0xFFFFFFFF in
  let carry := Z.shiftr res 32 in
  let res := u64 (u64 (aHigh * bHigh) + carry) in
  let highResHigh2 := Z.shiftr res 32 in
  let highResLow2 := Z.land res 0xFFFFFFFF in
  let r := u64 (highResLow1 + lowRes2) in
  let carry := Z.shiftr r 32 in
  let low := Z.lor (u64 (Z.shiftl r 32)) lowRes1 in
  let r := u64 (u64 (highResHigh1 + highResLow2) + carry) in
  let d3 := Z.land r 0xFFFFFFFF in
  let carry := Z.shiftr r 32 in
  let r := u64 (highResHigh2 + carry) in
  let high := Z.lor d3 (u64 (Z.shiftl r 32)) in
  (low, high).

(** The [__x86_64__] one. *)
Definition mul_x86_64 (a b : Z) : Z * Z := mul128 a b.

Definition cadd (a b : Z) : bool := u64 (a + b) <? a.

Definition cadc (a b : Z) (c : bool) : bool :=
  (u64 (a + b) <? a) || (c && (u64 (a + b) =? u64 (-1))).

Definition load_u64_from_hash (hash : list Z) (index : nat) : Z :=
  le_value (chunk 8 hash index).

Definition check_hash_64 (hash : list Z) (difficulty : Z) : bool :=
  let '(top, high) := mul (load_u64_from_hash hash 3) difficulty in
  if negb (high =? 0) then false
  else
    let '(_, cur) := mul (load_u64_from_hash hash 0) difficulty in
    let '(low, high) := mul (load_u64_from_hash hash 1) difficulty in
    let carry := cadd cur low in
    let cur := high in
    let '(low, high) := mul (load_u64_from_hash hash 2) difficulty in
    let carry := cadc cur low carry in
    let carry := cadc high top carry in
    negb carry.

Definition max64bit : Z := 2 ^ 64 - 1.
Definition max128bit : Z := 2 ^ 128 - 1.
Definition max256bit : Z := 2 ^ 256 - 1.

(** [FORCE_FULL_128_BITS] is defined: all four words, from the highest. *)
Definition check_hash_128 (hash : list Z) (difficulty : Z) : bool :=
  let hashVal :=
    foldl (fun hashVal i =>
             Z.lor (wrapu 512 (Z.shiftl hashVal 64)) (load_u64_from_hash hash (3 - i)))
          0 (seq 0 4) in
  wrapu 512 (hashVal * difficulty) <=? max256bit.

Definition check_hash (hash : list Z) (difficulty : Z) : bool :=
  if difficulty <=? max64bit then check_hash_64 hash difficulty
  else check_hash_128 hash difficulty.

(** [std::vector::resize] to a given size, new elements zero. *)
Definition resize0 (n : nat) (l : list Z) : list Z :=
  take n l ++ replicate (n - length l) 0.

(** The window kept of [length] sorted timestamps: [(cut_begin, cut_end)]. *)
Definition difficulty_cut (length : nat) : nat * nat :=
  if (length <=? DIFFICULTY_WINDOW - 2 * DIFFICULTY_CUT)%nat then (0%nat, length)
  else
    let cut_begin :=
      ((length - (DIFFICULTY_WINDOW - 2 * DIFFICULTY_CUT) + 1) / 2)%nat in
    (cut_begin, (cut_begin + (DIFFICULTY_WINDOW - 2 * DIFFICULTY_CUT))%nat).

Definition next_difficulty_64 (timestamps cumulative_difficulties : list Z) (target_seconds : Z) : Z :=
  let '(timestamps, cumulative_difficulties) :=
    if (DIFFICULTY_WINDOW <? length timestamps)%nat
    then (resize0 DIFFICULTY_WINDOW timestamps, resize0 DIFFICULTY_WINDOW cumulative_difficulties)
    else (timestamps, cumulative_difficulties) in
  let len := length timestamps in
  if (len <=? 1)%nat then 1
  else
    let timestamps := merge_sort Z.le timestamps in
    let '(cut_begin, cut_end) := difficulty_cut len in
    let time_span := u64 (nth (cut_end - 1) timestamps 0 - nth cut_begin timestamps 0) in
    let time_span := if time_span =? 0 then 1 else time_span in
    let total_work := u64 (nth (cut_end - 1) cumulative_difficulties 0
                           - nth cut_begin cumulative_difficulties 0) in
    let '(low, high) := mul total_work target_seconds in
    if negb (high =? 0) || (u64 (low + time_span - 1) <? low) then 0
    else u64 (low + time_span - 1) / time_span.

(** [difficulty_type] is Boost's unchecked [uint128_t]; the product is done
    in [uint256_t]. *)
Definition next_difficulty (timestamps cumulative_difficulties : list Z) (target_seconds : Z) : Z :=
  let '(timestamps, cumulative_difficulties) :=
    if (DIFFICULTY_WINDOW <? length timestamps)%nat
    then (resize0 DIFFICULTY_WINDOW timestamps, resize0 DIFFICULTY_WINDOW cumulative_difficulties)
    else (timestamps, cumulative_difficulties) in
  let len := length timestamps in
  if (len <=? 1)%nat then 1
  else
    let timestamps := merge_sort Z.le timestamps in
    let '(cut_begin, cut_end) := difficulty_cut len in
    let time_span := u64 (nth (cut_end - 1) timestamps 0 - nth cut_begin timestamps 0) in
    let time_span := if time_span =? 0 then 1 else time_span in
    let total_work := u128 (nth (cut_end - 1) cumulative_difficulties 0
                            - nth cut_begin cumulative_difficulties 0) in
    let res := wrapu 256 (total_work * target_seconds + time_span - 1) / time_span in
    if max128bit <? res then 0 else u128 res.

(** [hex]: digits pushed from the lowest, reversed, prefixed; characters are
    their ASCII codes.  32 digits are all a 128-bit value has. *)
Definition hex_chars : list Z :=
  [48; 49; 50; 51; 52; 53; 54; 55; 56; 57; 97; 98; 99; 100; 101; 102].

Definition hex_step (st : Z * list Z) : Z * list Z :=
  let '(v, s) := st in (Z.shiftr v 4, s ++ [nth (Z.to_nat (Z.land v 0xf)) hex_chars 0]).

Definition hex (v : Z) : option (list Z) :=
  match while_fuel (fun st => 0 <? fst st) hex_step 32 (v, []) with
  | None => None
  | Some (_, s) =>
      let s := if (length s =? 0)%nat then s ++ [48] else s in
      Some (48 :: 120 :: rev s)
  end.

(** ** The hash test *)

(** The portable product on the four partial products [P], [Q], [R], [T]. *)
Lemma split32 x : 0 <= x ->
  exists h l, Z.shiftr x 32 = h /\ Z.land x 0xFFFFFFFF = l /\
    x = h * 2 ^ 32 + l /\ 0 <= h /\ 0 <= l < 2 ^ 32.
Proof.
  intros Hx. exists (x / 2 ^ 32), (x mod 2 ^ 32).
  rewrite shiftr_div by lia. change 0xFFFFFFFF with (2 ^ 32 - 1).
  rewrite land_mask by lia. split_and!; zdm.
Qed.

Ltac split32 x :=
  let h := fresh "h" in let l := fresh "l" in
  destruct (split32 x) as (h & l & -> & -> & ? & ? & ?); [lia|].

Lemma mul_spec a b :
  is_u64 a -> is_u64 b ->
  is_u64 (fst (mul a b)) /\ is_u64 (snd (mul a b)) /\
  snd (mul a b) * 2 ^ 64 + fst (mul a b) = a * b.
Proof.
  intros Ha Hb. unfold mul. cbv zeta. pose proof (Z.mul_nonneg_nonneg a b) as Hab0.
  assert (a * b <= (2 ^ 64 - 1) * (2 ^ 64 - 1)) as Hab by (unfold is_uint in *; nia).
  unfold is_uint in Ha, Hb. split32 a. split32 b.
  assert (h < 2 ^ 32 /\ h0 < 2 ^ 32) as [? ?] by lia.
  pose proof (mul32_bound l l0 ltac:(lia) ltac:(lia)).
  pose proof (mul32_bound h l0 ltac:(lia) ltac:(lia)).
  pose proof (mul32_bound l h0 ltac:(lia) ltac:(lia)).
  pose proof (mul32_bound h h0 ltac:(lia) ltac:(lia)).
  assert (a * b = h * h0 * 2 ^ 64 + (h * l0 + l * h0) * 2 ^ 32 + l * l0) as E by (subst; ring).
  rewrite E in *. clear E.
  set (T := l * l0) in *. set (Q := h * l0) in *. set (R := l * h0) in *. set (P := h * h0) in *.
  clearbody T Q R P. cbn [fst snd].
  rewrite (wrapu_small 64 T), (wrapu_small 64 Q), (wrapu_small 64 R), (wrapu_small 64 P)
    by (unfold is_uint; lia).
  split32 T. rewrite (wrapu_small 64 (Q + _)) by (unfold is_uint; lia). split32 (Q + h1).
  split32 R. rewrite (wrapu_small 64 (P + _)) by (unfold is_uint; lia). split32 (P + h3).
  rewrite (wrapu_small 64 (l2 + l3)), (wrapu_small 64 (h2 + l4)) by (unfold is_uint; lia).
  rewrite !(shiftl_mul 32 _) by lia.
  assert (u64 ((l2 + l3) * 2 ^ 32) = (l2 + l3) mod 2 ^ 32 * 2 ^ 32) as -> by zdm.
  rewrite lor_disjoint_r by lia.
  rewrite (shiftr_div 32 (l2 + l3)) by lia.
  assert (exists c m, (l2 + l3) / 2 ^ 32 = c /\ (l2 + l3) mod 2 ^ 32 = m /\
    l2 + l3 = c * 2 ^ 32 + m /\ 0 <= c /\ 0 <= m < 2 ^ 32) as (c & m & -> & -> & ? & ? & ?).
  { exists ((l2 + l3) / 2 ^ 32), ((l2 + l3) mod 2 ^ 32). split_and!; zdm. }
  rewrite (wrapu_small 64 (h2 + l4 + c)) by (unfold is_uint; lia).
  split32 (h2 + l4 + c). rewrite (wrapu_small 64 (h4 + h5)) by (unfold is_uint; lia).
  rewrite wrapu_small by (unfold is_uint; lia).
  rewrite lor_disjoint by lia. unfold is_uint. lia.
Qed.

(** Both builds multiply alike, so the hash test is the same on either. *)
Lemma mul_builds_agree a b : is_u64 a -> is_u64 b -> mul_x86_64 a b = mul a b.
Proof.
  intros Ha Hb. unfold mul_x86_64.
  destruct (mul_spec a b Ha Hb) as (H1 & H2 & E). destruct (mul128_spec a b Ha Hb) as (H3 & H4 & E').
  destruct (mul a b), (mul128 a b). unfold is_uint in *. cbn [fst snd] in *. f_equal; lia.
Qed.

(** [(low, high)] of a product is its quotient and remainder by [2^64]. *)
Lemma mul_words a b : is_u64 a -> is_u64 b ->
  mul a b = ((a * b) mod 2 ^ 64, (a * b) / 2 ^ 64).
Proof.
  intros Ha Hb. destruct (mul_spec a b Ha Hb) as (Hl & Hh & E).
  destruct (mul a b) as [low high]. simpl in *. rewrite <- E. f_equal; zdm.
Qed.

(** The carry helpers decide whether a sum leaves 64 bits. *)
Lemma cadd_spec a b : is_u64 a -> is_u64 b -> cadd a b = (2 ^ 64 <=? a + b).
Proof.
  intros Ha Hb. unfold cadd. apply eq_true_iff_eq. rewrite Z.ltb_lt, Z.leb_le. zdm.
Qed.

Lemma cadc_spec a b c : is_u64 a -> is_u64 b -> cadc a b c = (2 ^ 64 <=? a + b + Z.b2z c).
Proof.
  intros Ha Hb. unfold cadc. apply eq_true_iff_eq.
  rewrite orb_true_iff, andb_true_iff, Z.ltb_lt, Z.eqb_eq, Z.leb_le.
  destruct c; unfold Z.b2z; zdm.
Qed.

Lemma load_u64_range hash i : bytes_ok hash -> (i < 4)%nat -> length hash = 32%nat ->
  is_u64 (load_u64_from_hash hash i).
Proof.
  intros Hok Hi Hlen. unfold load_u64_from_hash.
  pose proof (le_value_range (chunk 8 hash i)
    (Forall_take _ _ _ (Forall_drop _ _ _ Hok))) as Hr.
  rewrite length_chunk in Hr by lia. exact Hr.
Qed.

(** A 32-byte hash read as a little-endian number, from its four words. *)
Lemma hash_words hash : length hash = 32%nat ->
  le_value hash =
    load_u64_from_hash hash 0 + load_u64_from_hash hash 1 * 2 ^ 64 +
    load_u64_from_hash hash 2 * 2 ^ 128 + load_u64_from_hash hash 3 * 2 ^ 192.
Proof.
  intros Hlen. unfold load_u64_from_hash.
  pose proof (concat_chunks hash 8 4) as E. rewrite (take_ge hash) in E by lia.
  rewrite <- E at 1. cbn [seq map concat].
  rewrite !le_value_app, !length_chunk by lia. change (le_value []) with 0. lia.
Qed.

Lemma b2z_leb x y :
  exists c, Z.b2z (x <=? y) = c /\ (c = 1 /\ x <= y \/ c = 0 /\ y < x).
Proof. destruct (Z.leb_spec x y); eexists; (split; [reflexivity|]); simpl; lia. Qed.

(** The chain of carries over the eight words of the partial products tests
    the whole sum. *)
Lemma words_carry lo0 hi0 lo1 hi1 lo2 hi2 lo3 hi3 :
  is_u64 lo0 -> is_u64 hi0 -> is_u64 lo1 -> is_u64 hi1 ->
  is_u64 lo2 -> is_u64 hi2 -> is_u64 lo3 -> is_u64 hi3 ->
  (if negb (hi3 =? 0) then false
   else negb (cadc hi2 lo3 (cadc hi1 lo2 (cadd hi0 lo1)))) =
  ((hi0 * 2 ^ 64 + lo0) + (hi1 * 2 ^ 64 + lo1) * 2 ^ 64 + (hi2 * 2 ^ 64 + lo2) * 2 ^ 128
   + (hi3 * 2 ^ 64 + lo3) * 2 ^ 192 <? 2 ^ 256).
Proof.
  intros. rewrite !cadc_spec, cadd_spec by done. unfold is_uint in *.
  destruct (Z.eqb_spec hi3 0); simpl negb; cbn iota;
    [|symmetry; apply Z.ltb_ge; lia].
  destruct (b2z_leb (2 ^ 64) (hi0 + lo1)) as (c1 & -> & ?).
  destruct (b2z_leb (2 ^ 64) (hi1 + lo2 + c1)) as (c2 & -> & ?).
  rewrite <- Z.ltb_antisym. apply eq_true_iff_eq. rewrite !Z.ltb_lt. lia.
Qed.

Lemma check_hash_64_spec hash d :
  bytes_ok hash -> length hash = 32%nat -> is_u64 d ->
  check_hash_64 hash d = (le_value hash * d <? 2 ^ 256).
Proof.
  intros Hok Hlen Hd. unfold check_hash_64.
  pose proof (fun i Hi => load_u64_range hash i Hok Hi Hlen) as Hw.
  rewrite (hash_words hash Hlen).
  set (w0 := load_u64_from_hash hash 0) in *. set (w1 := load_u64_from_hash hash 1) in *.
  set (w2 := load_u64_from_hash hash 2) in *. set (w3 := load_u64_from_hash hash 3) in *.
  assert (is_u64 w0 /\ is_u64 w1 /\ is_u64 w2 /\ is_u64 w3) as (H0 & H1 & H2 & H3)
    by (split_and!; apply Hw; lia). clearbody w0 w1 w2 w3. clear Hw.
  destruct (mul_spec w0 d H0 Hd) as (L0 & U0 & E0).
  destruct (mul_spec w1 d H1 Hd) as (L1 & U1 & E1).
  destruct (mul_spec w2 d H2 Hd) as (L2 & U2 & E2).
  destruct (mul_spec w3 d H3 Hd) as (L3 & U3 & E3).
  destruct (mul w0 d) as [lo0 hi0], (mul w1 d) as [lo1 hi1], (mul w2 d) as [lo2 hi2],
    (mul w3 d) as [lo3 hi3]. cbn [fst snd] in *.
  rewrite (words_carry lo0 hi0 lo1 hi1 lo2 hi2 lo3 hi3) by done.
  rewrite E0, E1, E2, E3. f_equal. ring.
Qed.

Lemma push_word x w :
  0 <= x < 2 ^ 192 -> 0 <= w < 2 ^ 64 ->
  Z.lor (wrapu 512 (Z.shiftl x 64)) w = x * 2 ^ 64 + w.
Proof.
  intros. rewrite shiftl_mul by lia. rewrite wrapu_small by (unfold is_uint; lia).
  apply lor_disjoint_r; lia.
Qed.

Lemma check_hash_128_spec hash d :
  bytes_ok hash -> length hash = 32%nat -> is_u128 d ->
  check_hash_128 hash d = (le_value hash * d <? 2 ^ 256).
Proof.
  intros Hok Hlen Hd. unfold check_hash_128.
  pose proof (fun i Hi => load_u64_range hash i Hok Hi Hlen) as Hw.
  pose proof (le_value_range hash Hok) as Hr. rewrite Hlen in Hr.
  change (256 ^ Z.of_nat 32) with (2 ^ 256) in Hr.
  cbn [foldl seq Nat.sub]. unfold is_uint in *.
  pose proof (Hw 0%nat ltac:(lia)). pose proof (Hw 1%nat ltac:(lia)).
  pose proof (Hw 2%nat ltac:(lia)). pose proof (Hw 3%nat ltac:(lia)).
  rewrite (hash_words hash Hlen) in *.
  set (w0 := load_u64_from_hash hash 0) in *. set (w1 := load_u64_from_hash hash 1) in *.
  set (w2 := load_u64_from_hash hash 2) in *. set (w3 := load_u64_from_hash hash 3) in *.
  rewrite (push_word 0 w3), (push_word _ w2), (push_word _ w1), (push_word _ w0) by lia.
  match goal with |- context [wrapu 512 (?v * d)] =>
    match goal with |- _ = (?x * d <? _) => replace v with x by lia; set (h := x) in * end end.
  rewrite wrapu_small by (unfold is_uint; nia).
  apply eq_true_iff_eq. rewrite Z.leb_le, Z.ltb_lt. unfold max256bit. lia.
Qed.

(** ** Retargeting *)

(** The kept window is at most 600 blocks, has at least two, and cuts as many
    of the oldest as of the newest timestamps, up to one. *)
Lemma difficulty_cut_spec n b e :
  (2 <= n <= DIFFICULTY_WINDOW)%nat -> difficulty_cut n = (b, e) ->
  (b + 2 <= e <= n /\ e - b = Nat.min n 600 /\ n - e <= b <= n - e + 1)%nat.
Proof.
  unfold difficulty_cut, DIFFICULTY_WINDOW, DIFFICULTY_CUT. intros Hn.
  change (720 - 2 * 60)%nat with 600%nat.
  pose proof (Nat.div_mod_eq (n - 600 + 1) 2) as E.
  pose proof (Nat.mod_upper_bound (n - 600 + 1) 2 ltac:(lia)) as B.
  set (q := ((n - 600 + 1) / 2)%nat) in *. clearbody q.
  destruct (Nat.leb_spec n 600); intros [= <- <-]; lia.
Qed.

Lemma nth_forall (P : Z -> Prop) l i : Forall P l -> (i < length l)%nat -> P (nth i l 0).
Proof. rewrite Forall_forall. intros Hl Hi. apply Hl, list_elem_of_In, nth_In. done. Qed.

Lemma resize0_take n l : (n <= length l)%nat -> resize0 n l = take n l.
Proof. intros. unfold resize0. replace (n - length l)%nat with 0%nat by lia. apply app_nil_r. Qed.

Lemma nth_take_lt (l : list Z) i n : (i < n)%nat -> nth i (take n l) 0 = nth i l 0.
Proof.
  revert i n; induction l as [|x l IH]; intros i n Hi; destruct n, i; simpl; try (done || lia).
  apply IH. lia.
Qed.

(** Both retargeting functions run their formula on the first
    [DIFFICULTY_WINDOW] entries. *)
Definition window_len (timestamps : list Z) : nat := Nat.min (length timestamps) DIFFICULTY_WINDOW.

Lemma window_prepare ts cds :
  length ts = length cds ->
  (if (DIFFICULTY_WINDOW <? length ts)%nat
   then (resize0 DIFFICULTY_WINDOW ts, resize0 DIFFICULTY_WINDOW cds) else (ts, cds)) =
  (take (window_len ts) ts, take (window_len ts) cds).
Proof.
  intros Hlen. unfold window_len. destruct (Nat.ltb_spec DIFFICULTY_WINDOW (length ts)).
  - rewrite !resize0_take, Nat.min_r by lia. done.
  - rewrite Nat.min_l by lia. by rewrite !take_ge by lia.
Qed.

(** The data of one retargeting: the time span (at least one second) and the
    work of the kept window. *)
Definition window_span (timestamps : list Z) : Z :=
  let n := window_len timestamps in
  let sorted := merge_sort Z.le (take n timestamps) in
  Z.max 1 (nth (snd (difficulty_cut n) - 1) sorted 0 - nth (fst (difficulty_cut n)) sorted 0).

Definition window_work (timestamps cumulative_difficulties : list Z) : Z :=
  let n := window_len timestamps in
  nth (snd (difficulty_cut n) - 1) cumulative_difficulties 0
  - nth (fst (difficulty_cut n)) cumulative_difficulties 0.

Section Window.
Context (ts cds : list Z) (w : Z) (Hts : Forall is_u64 ts) (Hcds : Forall (is_uint w) cds)
  (Hinc : StronglySorted Z.lt cds) (Hlen : length ts = length cds)
  (H2 : (2 <= length ts)%nat).

Lemma window_bounds b e : difficulty_cut (window_len ts) = (b, e) ->
  (b + 2 <= e <= window_len ts /\ window_len ts <= length ts)%nat.
Proof using H2.
  clear - H2.
  intros Hc. destruct (difficulty_cut_spec (window_len ts) b e) as (? & _); [|done|];
    unfold window_len, DIFFICULTY_WINDOW in *; lia.
Qed.

Lemma window_span_spec b e :
  difficulty_cut (window_len ts) = (b, e) ->
  let sorted := merge_sort Z.le (take (window_len ts) ts) in
  let time_span := u64 (nth (e - 1) sorted 0 - nth b sorted 0) in
  (if time_span =? 0 then 1 else time_span) = window_span ts /\ 1 <= window_span ts < 2 ^ 64.
Proof using Hts H2.
  clear - Hts H2.
  intros Hc sorted time_span. unfold window_span. rewrite Hc. cbn [fst snd].
  fold sorted. destruct (window_bounds b e Hc) as [Hb Hn].
  assert (length sorted = window_len ts) as Hs.
  { unfold sorted. rewrite (Permutation_length (merge_sort_Permutation _ _)), length_take. lia. }
  assert (Forall is_u64 sorted) as Hok.
  { unfold sorted. rewrite (merge_sort_Permutation Z.le). by apply Forall_take. }
  pose proof (sorted_nth Z.le sorted b (e - 1) (merge_sort_strongly _)) as Hle.
  pose proof (nth_forall _ _ b Hok) as H0. pose proof (nth_forall _ _ (e - 1) Hok) as H1.
  rewrite Hs in *. specialize (Hle ltac:(lia)). specialize (H0 ltac:(lia)).
  specialize (H1 ltac:(lia)). unfold is_uint in *.
  unfold time_span. rewrite wrapu_small by (unfold is_uint; lia). bcase; lia.
Qed.

Lemma window_work_spec b e :
  difficulty_cut (window_len ts) = (b, e) ->
  wrapu w (nth (e - 1) (take (window_len ts) cds) 0 - nth b (take (window_len ts) cds) 0)
    = window_work ts cds /\
  0 < window_work ts cds < 2 ^ w.
Proof using Hcds Hinc Hlen H2.
  intros Hc. unfold window_work. rewrite Hc. cbn [fst snd].
  destruct (window_bounds b e Hc) as [Hb Hn]. rewrite !nth_take_lt by lia.
  pose proof (sorted_nth Z.lt cds b (e - 1) Hinc ltac:(lia)).
  pose proof (nth_forall _ _ b Hcds ltac:(lia)). pose proof (nth_forall _ _ (e - 1) Hcds ltac:(lia)).
  unfold is_uint in *. rewrite wrapu_small by (unfold is_uint; lia). lia.
Qed.
End Window.

Lemma ceil_div x s : 0 < s -> ((x + s - 1) / s - 1) * s < x <= (x + s - 1) / s * s.
Proof. intros. zdm || (pose proof (Z.div_mod (x + s - 1) s); pose proof (Z.mod_pos_bound (x + s - 1) s); nia). Qed.

Lemma window_long (ts cds : list Z) : length ts = length cds -> (2 <= length ts)%nat ->
  (length (take (window_len ts) ts) <=? 1)%nat = false /\
  length (take (window_len ts) ts) = window_len ts.
Proof.
  intros Hlen H2. rewrite length_take. unfold window_len, DIFFICULTY_WINDOW.
  split; [apply Nat.leb_gt|]; lia.
Qed.

(** What the two functions compute, in terms of the work and the span of
    the window. *)
Lemma next_difficulty_eq ts cds target :
  Forall is_u64 ts -> Forall is_u128 cds -> StronglySorted Z.lt cds ->
  length ts = length cds -> (2 <= length ts)%nat -> is_u64 target ->
  next_difficulty ts cds target =
    let r := (window_work ts cds * target + window_span ts - 1) / window_span ts in
    if max128bit <? r then 0 else r.
Proof.
  intros Hts Hcds Hinc Hlen H2 Ht. unfold next_difficulty.
  rewrite window_prepare by done.
  destruct (window_long ts cds Hlen H2) as [-> ->].
  destruct (difficulty_cut (window_len ts)) as [b e] eqn:Hc. cbv zeta.
  destruct (window_span_spec ts Hts H2 b e Hc) as [-> Hs].
  destruct (window_work_spec ts cds 128 Hcds Hinc Hlen H2 b e Hc) as [-> Hk].
  unfold is_uint in Ht. rewrite (wrapu_small 256) by (unfold is_uint; nia).
  bcase; [done|]. apply wrapu_small. unfold is_uint, max128bit in *.
  split; [apply Z.div_pos; nia|lia].
Qed.

Lemma next_difficulty_64_eq ts cds target :
  Forall is_u64 ts -> Forall is_u64 cds -> StronglySorted Z.lt cds ->
  length ts = length cds -> (2 <= length ts)%nat -> is_u64 target ->
  next_difficulty_64 ts cds target =
    let x := window_work ts cds * target + window_span ts - 1 in
    if 2 ^ 64 <=? x then 0 else x / window_span ts.
Proof.
  intros Hts Hcds Hinc Hlen H2 Ht. unfold next_difficulty_64.
  rewrite window_prepare by done.
  destruct (window_long ts cds Hlen H2) as [-> ->].
  destruct (difficulty_cut (window_len ts)) as [b e] eqn:Hc. cbv zeta.
  destruct (window_span_spec ts Hts H2 b e Hc) as [-> Hs].
  destruct (window_work_spec ts cds 64 Hcds Hinc Hlen H2 b e Hc) as [-> Hk].
  destruct (mul_spec (window_work ts cds) target) as (Hl & Hh & E); [unfold is_uint; lia|done|].
  destruct (mul (window_work ts cds) target) as [low high]. cbn [fst snd] in *. rewrite <- E.
  unfold is_uint in *.
  destruct (Z.eqb_spec high 0) as [->|]; cbn [negb orb].
  - rewrite Z.mul_0_l, Z.add_0_l. destruct (Z.leb_spec (2 ^ 64) (low + window_span ts - 1)).
    + destruct (Z.ltb_spec (u64 (low + window_span ts - 1)) low); [done|zdm].
    + rewrite wrapu_small by (unfold is_uint; lia).
      destruct (Z.ltb_spec (low + window_span ts - 1) low); [lia|done].
  - destruct (Z.leb_spec (2 ^ 64) (high * 2 ^ 64 + low + window_span ts - 1)); [done|lia].
Qed.

(** The digits of a 128-bit difficulty are all written within 32 rounds. *)
Lemma hex_total v : is_u128 v -> exists s, hex v = Some s /\ (2 < length s)%nat.
Proof.
  intros Hv. unfold hex.
  destruct (while_fuel_total (fun st : Z * list Z => 0 <? fst st) hex_step
    (fun st => 0 <= fst st < 2 ^ 128)
    (fun st => Z.to_nat (if fst st =? 0 then 0 else Z.log2 (fst st) / 4 + 1))) with
    (fuel := 32%nat) (s := (v, @nil Z)) as ([v' s] & -> & _).
  - intros [x s]. cbn [fst hex_step]. intros Hx Hc. apply Z.ltb_lt in Hc.
    rewrite shiftr_div by lia. split; [zdm|].
    destruct (Z.eqb_spec x 0); [lia|]. pose proof (Z.log2_nonneg x).
    destruct (Z.eqb_spec (x / 2 ^ 4) 0); [zdm|].
    rewrite <- Z.shiftr_div_pow2, Z.log2_shiftr by lia.
    assert (2 ^ 4 <= x) by zdm.
    assert (4 <= Z.log2 x) by (apply Z.log2_le_pow2; lia). rewrite Z.max_r by lia. zdm.
  - done.
  - cbn [fst]. destruct (Z.eqb_spec v 0); [simpl; lia|]. unfold is_uint in Hv.
    pose proof (Z.log2_nonneg v). assert (Z.log2 v < 128) by (apply Z.log2_lt_pow2; lia). zdm.
  - eexists. split; [reflexivity|]. destruct s as [|c s]; [simpl; lia|].
    cbn [length Nat.eqb rev]. rewrite length_app. simpl. lia.
Qed.

(** ** Properties *)

(** C14: the hash test accepts exactly the hashes whose value times the
    difficulty stays below 2^256, for every 128-bit difficulty: the carry
    chain of [check_hash_64] and the wide product of [check_hash_128] decide
    the same inequality. *)
Theorem check_hash_correct hash difficulty :
  bytes_ok hash -> length hash = 32%nat -> is_u128 difficulty ->
  check_hash hash difficulty = (le_value hash * difficulty <? 2 ^ 256).
Proof.
  intros Hok Hlen Hd. unfold check_hash, max64bit.
  destruct (Z.leb_spec difficulty (2 ^ 64 - 1)).
  - apply check_hash_64_spec; [done..|]. unfold is_uint in *. lia.
  - by apply check_hash_128_spec.
Qed.

Lemma check_hash_correct_witness :
  let hash := le_bytes 32 (2 ^ 192 + 5) in
  check_hash hash (2 ^ 64 - 1) = (le_value hash * (2 ^ 64 - 1) <? 2 ^ 256) /\
  check_hash hash (2 ^ 64 - 1) = true.
Proof.
  split; [|by vm_compute].
  apply check_hash_correct; [apply le_bytes_ok|by vm_compute|by vm_compute].
Defined.

(** C15: with at least two blocks, 64-bit timestamps and strictly increasing
    128-bit cumulative difficulties, the window indices are in range, the
    work of the window is positive, and the next difficulty is the least
    one that does the work of the window at the target rate over its time
    span, or 0 when that does not fit in 128 bits. *)
Theorem next_difficulty_correct ts cds target :
  Forall is_u64 ts -> Forall is_u128 cds -> StronglySorted Z.lt cds ->
  length ts = length cds -> (2 <= length ts)%nat -> is_u64 target -> 0 < target ->
  let '(b, e) := difficulty_cut (window_len ts) in
  let r := next_difficulty ts cds target in
  (b + 2 <= e <= length ts)%nat /\ 0 < window_work ts cds /\ 1 <= window_span ts /\
  (0 < r < 2 ^ 128 /\
     (r - 1) * window_span ts < window_work ts cds * target <= r * window_span ts
   \/ r = 0 /\ max128bit * window_span ts < window_work ts cds * target).
Proof.
  intros Hts Hcds Hinc Hlen H2 Ht Hpos.
  destruct (difficulty_cut (window_len ts)) as [b e] eqn:Hc. cbv zeta.
  pose proof (window_bounds ts H2 b e Hc).
  destruct (window_span_spec ts Hts H2 b e Hc) as [_ Hs].
  destruct (window_work_spec ts cds 128 Hcds Hinc Hlen H2 b e Hc) as [_ Hk].
  rewrite next_difficulty_eq by done. cbv zeta.
  pose proof (ceil_div (window_work ts cds * target) (window_span ts)) as Hq.
  set (q := (_ / _)) in *. unfold max128bit in *.
  split; [lia|]. split; [lia|]. split; [lia|]. specialize (Hq ltac:(lia)).
  destruct (Z.ltb_spec (2 ^ 128 - 1) q); [right|left]; nia.
Qed.

Lemma next_difficulty_correct_witness :
  let ts := [1000; 1130; 1100; 1390] in
  let cds := [10; 1010; 2020; 3050] in
  let '(b, e) := difficulty_cut (window_len ts) in
  let r := next_difficulty ts cds 120 in
  (b + 2 <= e <= length ts)%nat /\ 0 < window_work ts cds /\ 1 <= window_span ts /\
  (0 < r < 2 ^ 128 /\
     (r - 1) * window_span ts < window_work ts cds * 120 <= r * window_span ts
   \/ r = 0 /\ max128bit * window_span ts < window_work ts cds * 120).
Proof.
  apply (next_difficulty_correct [1000; 1130; 1100; 1390] [10; 1010; 2020; 3050] 120);
    try (apply (bool_decide_unpack _); by vm_compute); try (repeat constructor; lia).
Defined.

(** The order of the timestamps does not matter, and the original 64-bit
    retargeting returns either the same difficulty as the 128-bit one or the
    error value 0, the latter exactly when work times target time plus the
    span (less one) leaves 64 bits. *)
Theorem next_difficulty_agree ts ts' cds target :
  Forall is_u64 ts -> Forall is_u64 cds -> StronglySorted Z.lt cds ->
  length ts = length cds -> (2 <= length ts <= DIFFICULTY_WINDOW)%nat -> is_u64 target ->
  Permutation ts ts' ->
  next_difficulty ts' cds target = next_difficulty ts cds target /\
  next_difficulty_64 ts' cds target =
    (if 2 ^ 64 <=? window_work ts cds * target + window_span ts - 1 then 0
     else next_difficulty ts cds target).
Proof.
  intros Hts Hcds Hinc Hlen H2 Ht Hp.
  pose proof (Permutation_length Hp) as Hlen'.
  assert (Forall is_u64 ts') as Hts' by (by rewrite <- Hp).
  assert (Forall is_u128 cds) as Hcds128
    by (eapply Forall_impl; [exact Hcds|intros ?; apply is_uint_mono; lia]).
  assert (window_len ts' = window_len ts) as Hw by (unfold window_len; lia).
  assert (window_work ts' cds = window_work ts cds) as Hwork
    by (unfold window_work; by rewrite Hw).
  assert (window_span ts' = window_span ts) as Hspan.
  { unfold window_span, window_len in *. rewrite <- Hlen', !take_ge by lia.
    by rewrite (merge_sort_perm _ _ Hp). }
  rewrite next_difficulty_64_eq, !next_difficulty_eq by (done || lia).
  rewrite Hwork, Hspan. split; [done|]. cbv zeta. bcase; [done|].
  destruct (window_span_spec ts Hts ltac:(lia) _ _ (surjective_pairing _)) as [_ Hs].
  assert ((window_work ts cds * target + window_span ts - 1) / window_span ts <= max128bit).
  { apply Z.div_le_upper_bound; unfold max128bit; nia. }
  destruct (Z.ltb_spec max128bit
    ((window_work ts cds * target + window_span ts - 1) / window_span ts)); [lia|done].
Qed.

Lemma next_difficulty_agree_witness :
  let ts := [1000; 1130; 1100; 1390] in
  let ts' := [1130; 1000; 1390; 1100] in
  let cds := [10; 1010; 2020; 3050] in
  next_difficulty ts' cds 120 = next_difficulty ts cds 120 /\
  next_difficulty_64 ts' cds 120 =
    (if 2 ^ 64 <=? window_work ts cds * 120 + window_span ts - 1 then 0
     else next_difficulty ts cds 120).
Proof.
  apply (next_difficulty_agree [1000; 1130; 1100; 1390] [1130; 1000; 1390; 1100]
    [10; 1010; 2020; 3050] 120);
    try (apply (bool_decide_unpack _); by vm_compute); try (repeat constructor; lia).
Defined.
