(* ===== verification/BasicImpl.v ===== *)
(** * Block reward, addresses and hash templates

    [src/cryptonote_basic/cryptonote_basic_impl.cpp] and the network
    constants of [src/cryptonote_config.h]. *)

From Stdlib Require Import String.
From stdpp Require Import sets.
From S2P Require Import Prelude Config IntUtil Varint BinaryArchive Keccak GroupOps Crypto RctTables Generators Base58.

Local Close Scope string_scope.

(** ** Definitions *)

Definition get_min_block_weight (version : Z) : Z :=
  if version <? 2 then CRYPTONOTE_BLOCK_GRANTED_FULL_REWARD_ZONE_V1
  else if version <? 5 then CRYPTONOTE_BLOCK_GRANTED_FULL_REWARD_ZONE_V2
  else CRYPTONOTE_BLOCK_GRANTED_FULL_REWARD_ZONE_V5.

Definition get_max_tx_size : Z := CRYPTONOTE_MAX_TX_SIZE.

(** [get_block_reward]: [None] is [false], or one of the two asserts on the
    quotient that fails; [get_block_reward_wrapped] shows that they hold. *)
Definition get_block_reward (median_weight current_block_weight already_generated_coins version : Z)
    : option Z :=
  let target := if version <? 2 then DIFFICULTY_TARGET_V1 else DIFFICULTY_TARGET_V2 in
  let target_minutes := target / 60 in
  let emission_speed_factor := EMISSION_SPEED_FACTOR_PER_MINUTE - (target_minutes - 1) in
  let base_reward := Z.shiftr (u64 (MONEY_SUPPLY - already_generated_coins)) emission_speed_factor in
  let base_reward :=
    if base_reward <? FINAL_SUBSIDY_PER_MINUTE * target_minutes
    then FINAL_SUBSIDY_PER_MINUTE * target_minutes else base_reward in
  let full_reward_zone := get_min_block_weight version in
  let median_weight := if median_weight <? full_reward_zone then full_reward_zone else median_weight in
  if current_block_weight <=? median_weight then Some base_reward
  else if u64 (2 * median_weight) <? current_block_weight then None
  else
    let multiplicand := u64 (u64 (2 * median_weight) - current_block_weight) in
    let multiplicand := u64 (multiplicand * current_block_weight) in
    let '(product_lo, product_hi) := mul128 base_reward multiplicand in
    '((reward_hi, reward_lo), _) ← div128_64 product_hi product_lo median_weight;
    '((reward_hi, reward_lo), _) ← div128_64 reward_hi reward_lo median_weight;
    if negb (0 =? reward_hi) then None
    else if negb (reward_lo <? base_reward) then None
    else Some reward_lo.

(** *** Networks *)

Inductive network_type := MAINNET | TESTNET | STAGENET | FAKECHAIN | UNDEFINED.

Record config_t := Config {
  PUBLIC_ADDRESS_BASE58_PREFIX : Z;
  PUBLIC_INTEGRATED_ADDRESS_BASE58_PREFIX : Z;
  PUBLIC_SUBADDRESS_BASE58_PREFIX : Z;
  P2P_DEFAULT_PORT : Z;
  RPC_DEFAULT_PORT : Z;
  ZMQ_RPC_DEFAULT_PORT : Z;
  NETWORK_ID : list Z;
  GENESIS_TX : string;
  GENESIS_NONCE : Z;
}.

Definition network_id_prefix : list Z :=
  [0x12; 0x30; 0xF1; 0x71; 0x61; 0x04; 0x41; 0x61; 0x17; 0x31; 0x00; 0x82; 0x16; 0xA1; 0xA1].

Definition mainnet : config_t := Config 18 19 42 18080 18081 18082 (network_id_prefix ++ [0x10])
  "013c01ff0001ffffffffffff03029b2e4c0281c0b02e7c53291a94d1d0cbff8883f8024f5142ee494ffbbd08807121017767aafcde9be00dcfd098715ebcf7f410daebc582fda69d24a28e9d0bc890d1"
  10000.

Definition testnet : config_t := Config 53 54 63 28080 28081 28082 (network_id_prefix ++ [0x11])
  "013c01ff0001ffffffffffff03029b2e4c0281c0b02e7c53291a94d1d0cbff8883f8024f5142ee494ffbbd08807121017767aafcde9be00dcfd098715ebcf7f410daebc582fda69d24a28e9d0bc890d1"
  10001.

Definition stagenet : config_t := Config 24 25 36 38080 38081 38082 (network_id_prefix ++ [0x12])
  "013c01ff0001ffffffffffff0302df5d56da0c7d643ddd1ce61901c7bdc5fb1738bfe39fbe69c28a3a7032729c0f2101168d0c4ca86fb55a4cf6a36d31431be1c53a3bd7411bb24e8832410289fa6f3b"
  10002.

(** [get_config]; an invalid network type throws. *)
Definition get_config (nettype : network_type) : option config_t :=
  match nettype with
  | MAINNET => Some mainnet
  | TESTNET => Some testnet
  | STAGENET => Some stagenet
  | FAKECHAIN => Some mainnet
  | UNDEFINED => None
  end.

(** *** Addresses *)

Record account_public_address := AccountPublicAddress {
  m_spend_public_key : list Z;
  m_view_public_key : list Z;
}.

Definition account_public_address_c : codec account_public_address :=
  c_map (fun a => Some (m_spend_public_key a, m_view_public_key a))
        (fun '(s, v) => AccountPublicAddress s v)
        (c_pair (serialize_blob 32) (serialize_blob 32)).

Definition integrated_address_c : codec (account_public_address * list Z) :=
  c_pair account_public_address_c (serialize_blob 8).

Record address_parse_info := AddressParseInfo {
  address : account_public_address;
  is_subaddress : bool;
  has_payment_id : bool;
  payment_id : list Z;
}.

Section Address.
(** Keccak, and [crypto::check_key], the test that a public key is a point
    of the curve. *)
Context (cn_fast_hash : list Z -> list Z) `{!Hash32 cn_fast_hash} (check_key : list Z -> bool).

Definition get_account_address_as_str (nettype : network_type) (subaddress : bool)
    (adr : account_public_address) : option (list Z) :=
  config ← get_config nettype;
  let address_prefix :=
    if subaddress then PUBLIC_SUBADDRESS_BASE58_PREFIX config else PUBLIC_ADDRESS_BASE58_PREFIX config in
  blob ← dump_binary account_public_address_c adr;
  encode_addr cn_fast_hash address_prefix blob.

Definition get_account_integrated_address_as_str (nettype : network_type)
    (adr : account_public_address) (payment_id : list Z) : option (list Z) :=
  config ← get_config nettype;
  blob ← dump_binary integrated_address_c (adr, payment_id);
  encode_addr cn_fast_hash (PUBLIC_INTEGRATED_ADDRESS_BASE58_PREFIX config) blob.

(** [get_account_address_from_str]: the filled [info], or [None] for [false];
    [info.payment_id] is only written for an integrated address. *)
Definition get_account_address_from_str (info : address_parse_info) (nettype : network_type)
    (str : list Z) : option address_parse_info :=
  config ← get_config nettype;
  '(prefix, data) ← decode_addr cn_fast_hash str;
  '(is_sub, has_id) ←
    (if PUBLIC_INTEGRATED_ADDRESS_BASE58_PREFIX config =? prefix then Some (false, true)
     else if PUBLIC_ADDRESS_BASE58_PREFIX config =? prefix then Some (false, false)
     else if PUBLIC_SUBADDRESS_BASE58_PREFIX config =? prefix then Some (true, false)
     else None);
  info ←
    (if has_id : bool then
       '(adr, id) ← parse_binary integrated_address_c data;
       Some (AddressParseInfo adr is_sub has_id id)
     else
       adr ← parse_binary account_public_address_c data;
       Some (AddressParseInfo adr is_sub has_id (payment_id info)));
  if negb (check_key (m_spend_public_key (address info))) ||
     negb (check_key (m_view_public_key (address info)))
  then None else Some info.
End Address.

(** *** Hash prefixes *)

(** [compare_hash32_reversed_nbits]: the words from the highest, [nbits] bits
    of them in all. *)
Fixpoint compare_words (vs : list (Z * Z)) (nbits : Z) : Z :=
  match vs with
  | [] => 0
  | (va, vb) :: vs' =>
      if nbits =? 0 then 0
      else
        let msb_nbits := Z.min 64 nbits in
        let lsb_nbits_dropped := 64 - msb_nbits in
        let van := Z.shiftr va lsb_nbits_dropped in
        let vbn := Z.shiftr vb lsb_nbits_dropped in
        let nbits := nbits - msb_nbits in
        if van <? vbn then -1 else if vbn <? van then 1 else compare_words vs' nbits
  end.

Definition hash_be_words (h : list Z) : list Z :=
  map (fun n => le_value (chunk 8 h n)) [3; 2; 1; 0]%nat.

Definition compare_hash32_reversed_nbits (ha hb : list Z) (nbits : Z) : Z :=
  compare_words (zip (hash_be_words ha) (hash_be_words hb)) nbits.

(** [make_hash32_loose_template]: the words masked from the highest. *)
Fixpoint mask_words (vh : list Z) (nbits : Z) : list Z :=
  match vh with
  | [] => []
  | v :: vh' =>
      let msb_nbits := Z.min 64 nbits in
      let mask :=
        if msb_nbits =? 0 then 0
        else Z.lxor (2 ^ 64 - 1) (u64 (u64 (Z.shiftl 1 (64 - msb_nbits)) - 1)) in
      Z.land v mask :: mask_words vh' (nbits - msb_nbits)
  end.

Definition make_hash32_loose_template (nbits : Z) (h : list Z) : list Z :=
  concat (map (le_bytes 8) (rev (mask_words (hash_be_words h) nbits))).

(** ** The reward *)

(** The reward of a block that is not over the median: the emission curve,
    or the tail emission once that is higher. *)
Definition base_reward (already_generated_coins version : Z) : Z :=
  let minutes := if version <? 2 then 1 else 2 in
  Z.max (FINAL_SUBSIDY_PER_MINUTE * minutes)
        ((MONEY_SUPPLY - already_generated_coins) / 2 ^ (21 - minutes)).

Definition effective_median (median_weight version : Z) : Z :=
  Z.max median_weight (get_min_block_weight version).

(** The penalty formula over the effective median [M]. *)
Definition penalized (B M w : Z) : Z := B * ((2 * M - w) * w) / (M * M).

Lemma base_reward_range coins version : is_u64 coins ->
  0 < base_reward coins version < 2 ^ 64.
Proof.
  unfold base_reward, is_uint, FINAL_SUBSIDY_PER_MINUTE, MONEY_SUPPLY. intros Hc.
  case_match; simpl Z.sub; zdm.
Qed.

Lemma effective_median_bound m v b : 300000 <= b -> 0 <= m <= b -> 20000 <= effective_median m v <= b.
Proof.
  unfold effective_median, get_min_block_weight, CRYPTONOTE_BLOCK_GRANTED_FULL_REWARD_ZONE_V1,
    CRYPTONOTE_BLOCK_GRANTED_FULL_REWARD_ZONE_V2, CRYPTONOTE_BLOCK_GRANTED_FULL_REWARD_ZONE_V5.
  intros Hb Hm. repeat case_match; lia.
Qed.

Lemma effective_median_range m v : 0 <= m <= 2 ^ 32 -> 20000 <= effective_median m v <= 2 ^ 32.
Proof. intros Hm. apply effective_median_bound; lia. Qed.

Lemma effective_median_u64 m v : is_u64 m -> 20000 <= effective_median m v < 2 ^ 64.
Proof. unfold is_uint. intros Hm. pose proof (effective_median_bound m v (2 ^ 64 - 1)). lia. Qed.

(** Two 128-bit divisions by [M] divide by [M * M]. *)
Lemma reward_quotient {A} (k : Z -> Z -> option A) B mult M :
  is_u64 B -> is_u64 mult -> 0 < M < 2 ^ 64 -> B * mult < 2 ^ 64 * (M * M) ->
  (let '(product_lo, product_hi) := mul128 B mult in
   '((reward_hi, reward_lo), _) ← div128_64 product_hi product_lo M;
   '((reward_hi, reward_lo), _) ← div128_64 reward_hi reward_lo M;
   k reward_hi reward_lo) = k 0 (B * mult / (M * M)).
Proof.
  intros HB Hm HM Hlt. destruct (mul128_spec B mult HB Hm) as (Hlo & Hhi & E).
  destruct (mul128 B mult) as [lo hi]. cbn [fst snd] in *.
  destruct (div128_64_spec hi lo M) as (qh & ql & rh & rl & -> & Hqh & Hql & _ & _ & Hq & _);
    [done|done|lia|unfold is_uint; lia|]. cbn [mbind option_bind].
  destruct (div128_64_spec qh ql M) as (qh' & ql' & rh' & rl' & -> & Hqh' & Hql' & _ & _ & Hq' & _);
    [done|done|lia|unfold is_uint; lia|]. cbn [mbind option_bind].
  rewrite Hq, E, Z.div_div in Hq' by lia. unfold is_uint in *.
  assert (B * mult / (M * M) < 2 ^ 64) by (apply Z.div_lt_upper_bound; lia). f_equal; nia.
Qed.

Lemma penalty_bound M w : 0 < M < w -> w <= 2 * M -> 0 <= (2 * M - w) * w < M * M.
Proof. intros. split; nia. Qed.

(** The penalty formula as computed: the multiplicand is a [uint64_t]. *)
Definition penalized_u64 (B M w : Z) : Z := B * u64 ((2 * M - w) * w) / (M * M).

(** Up to 2^32 the multiplicand fits, above it is less than [M * M] anyway. *)
Lemma multiplicand_bound M w : 0 < M < w -> w <= 2 * M ->
  0 <= u64 ((2 * M - w) * w) < M * M /\
  (M <= 2 ^ 32 -> u64 ((2 * M - w) * w) = (2 * M - w) * w).
Proof.
  intros HM Hw. pose proof (penalty_bound M w HM Hw).
  pose proof (wrapu_range 64 ((2 * M - w) * w) ltac:(lia)) as Hr. unfold is_uint in Hr.
  destruct (Z.le_gt_cases M (2 ^ 32)).
  - assert (M * M <= 2 ^ 64) by nia. rewrite wrapu_small by (unfold is_uint; lia). lia.
  - assert (2 ^ 64 <= M * M) by nia. lia.
Qed.

Lemma penalized_u64_eq B M w : 0 < M < w -> w <= 2 * M -> M <= 2 ^ 32 ->
  penalized_u64 B M w = penalized B M w.
Proof. intros HM Hw Hs. unfold penalized_u64. by rewrite (proj2 (multiplicand_bound M w HM Hw) Hs). Qed.

Lemma penalized_u64_range B M w :
  0 < B -> 0 < M < w -> w <= 2 * M -> 0 <= penalized_u64 B M w < B.
Proof.
  intros HB HM Hw. destruct (multiplicand_bound M w HM Hw) as [? _]. unfold penalized_u64.
  split; [apply Z.div_pos; nia|]. apply Z.div_lt_upper_bound; nia.
Qed.

Lemma get_block_reward_wrapped m w coins v :
  is_u64 m -> is_u64 w -> is_u64 coins ->
  let M := effective_median m v in
  let B := base_reward coins v in
  get_block_reward m w coins v =
    if w <=? M then Some B else if u64 (2 * M) <? w then None else Some (penalized_u64 B M w).
Proof.
  intros Hm Hw Hc M B. unfold get_block_reward.
  pose proof (effective_median_u64 m v Hm) as HM. fold M in HM.
  pose proof (base_reward_range coins v Hc) as HB. fold B in HB. unfold is_uint in Hw, Hc.
  set (zone := get_min_block_weight v).
  assert ((if m <? zone then zone else m) = M) as -> by
    (unfold M, effective_median; fold zone; bcase; lia).
  match goal with |- context [mul128 ?b _] => assert (b = B) as -> end.
  { unfold B, base_reward, FINAL_SUBSIDY_PER_MINUTE, MONEY_SUPPLY, EMISSION_SPEED_FACTOR_PER_MINUTE,
      DIFFICULTY_TARGET_V1, DIFFICULTY_TARGET_V2.
    rewrite wrapu_small by (unfold is_uint; lia).
    destruct (v <? 2); [change (60 / 60) with 1|change (120 / 60) with 2];
      [change (20 - (1 - 1)) with (21 - 1)|change (20 - (2 - 1)) with (21 - 2)];
      (rewrite shiftr_div by lia); bcase; lia. }
  destruct (Z.leb_spec w M); [done|]. destruct (Z.ltb_spec (u64 (2 * M)) w) as [|Hle]; [done|].
  assert (u64 (2 * M) = 2 * M) as E2 by zdm. rewrite E2 in *.
  rewrite (wrapu_small 64 (2 * M - w)) by (unfold is_uint; lia).
  pose proof (proj1 (multiplicand_bound M w ltac:(lia) ltac:(lia))) as Hp.
  pose proof (penalized_u64_range B M w ltac:(lia) ltac:(lia) ltac:(lia)) as Hr. unfold penalized_u64 in *.
  set (mult := u64 ((2 * M - w) * w)) in *. assert (is_u64 mult) by (apply wrapu_range; lia).
  etransitivity; [apply (reward_quotient (fun hi lo =>
    if negb (0 =? hi) then None else if negb (lo <? B) then None else Some lo)); try done;
    unfold is_uint; nia|].
  cbn [Z.eqb negb]. destruct (Z.ltb_spec (B * mult / (M * M)) B); [done|lia].
Qed.

Lemma get_block_reward_range m w coins v R :
  is_u64 m -> is_u64 w -> is_u64 coins -> get_block_reward m w coins v = Some R -> is_u64 R.
Proof.
  intros Hm Hw Hc. rewrite get_block_reward_wrapped by done.
  pose proof (effective_median_u64 m v Hm) as HM. pose proof (base_reward_range coins v Hc) as HB.
  set (M := effective_median m v) in *. set (B := base_reward coins v) in *. unfold is_uint.
  assert (u64 (2 * M) <= 2 * M) by (apply Z.mod_le; lia).
  repeat bcase; try done; intros [= <-]; [lia|]. pose proof (penalized_u64_range B M w). lia.
Qed.

Lemma get_block_reward_eq m w coins v :
  0 <= m <= 2 ^ 32 -> is_u64 w -> is_u64 coins ->
  let M := effective_median m v in
  let B := base_reward coins v in
  get_block_reward m w coins v =
    if w <=? M then Some B else if 2 * M <? w then None else Some (penalized B M w).
Proof.
  intros Hm Hw Hc M B. rewrite get_block_reward_wrapped by (done || unfold is_uint; lia). fold M B.
  pose proof (effective_median_range m v Hm) as HM. fold M in HM.
  rewrite (wrapu_small 64 (2 * M)) by (unfold is_uint; lia).
  repeat bcase; try done. f_equal. apply penalized_u64_eq; lia.
Qed.

Lemma penalized_range B M w :
  0 < B -> 0 < M < w -> w <= 2 * M -> 0 <= penalized B M w < B.
Proof.
  intros HB HM Hw. pose proof (penalty_bound M w HM Hw). unfold penalized.
  split; [apply Z.div_pos; nia|]. apply Z.div_lt_upper_bound; nia.
Qed.

(** A heavier block does not earn more. *)
Lemma penalized_antitone B M w w' :
  0 < B -> 0 < M <= w -> w <= w' -> w' <= 2 * M -> penalized B M w' <= penalized B M w.
Proof.
  intros HB HM Hw Hw'. unfold penalized. apply Z.div_le_mono; [nia|].
  apply Z.mul_le_mono_nonneg_l; [lia|].
  assert (0 <= (w' - w) * (w + w' - 2 * M)) by nia. lia.
Qed.

(** ** Addresses *)

#[export] Instance account_public_address_ok : CodecOk account_public_address_c.
Proof. codec_record. Qed.
#[export] Instance account_public_address_exact : Exact account_public_address_c.
Proof. codec_record_exact. Qed.
#[export] Instance integrated_address_ok : CodecOk integrated_address_c.
Proof. unfold integrated_address_c. apply _. Qed.
#[export] Instance integrated_address_exact : Exact integrated_address_c.
Proof. unfold integrated_address_c. apply _. Qed.

#[export] Instance account_public_address_strict : Strict account_public_address_c.
Proof. apply c_map_strict; [apply _|]. by intros [] bs _. Qed.
#[export] Instance integrated_address_strict : Strict integrated_address_c.
Proof. unfold integrated_address_c. apply _. Qed.

(** The nine prefixes of the three networks are different. *)
Lemma prefixes_distinct nettype nettype' c c' :
  get_config nettype = Some c -> get_config nettype' = Some c' ->
  let ps := fun c => [PUBLIC_ADDRESS_BASE58_PREFIX c; PUBLIC_INTEGRATED_ADDRESS_BASE58_PREFIX c;
                      PUBLIC_SUBADDRESS_BASE58_PREFIX c] in
  c = c' \/ forall p, p ∈ ps c -> p ∈ ps c' -> False.
Proof.
  destruct nettype; intros [= <-]; destruct nettype'; intros [= <-];
    (by left) || (right; cbn; intros p; set_unfold; lia).
Qed.

Section AddressLaws.
Context (cn_fast_hash : list Z -> list Z) `{!Hash32 cn_fast_hash} (check_key : list Z -> bool).

(** The keys of an address a wallet can have. *)
Definition address_ok (adr : account_public_address) : Prop :=
  (length (m_spend_public_key adr) = 32%nat /\ bytes_ok (m_spend_public_key adr) /\
   check_key (m_spend_public_key adr) = true) /\
  (length (m_view_public_key adr) = 32%nat /\ bytes_ok (m_view_public_key adr) /\
   check_key (m_view_public_key adr) = true).

Lemma dump_address adr : address_ok adr ->
  exists blob, dump_binary account_public_address_c adr = Some blob /\ bytes_ok blob /\
    parse_binary account_public_address_c blob = Some adr.
Proof.
  intros [(Hl & Hb & _) (Hl' & Hb' & _)].
  assert (is_Some (dump_binary account_public_address_c adr)) as [blob Hd].
  { unfold dump_binary. cbn. by rewrite !decide_True by done. }
  exists blob. split; [done|]. split; [by destruct (codec_rt _ _ Hd)|].
  destruct (parse_dump _ _ _ account_public_address_ok Hd) as [Hp _].
  by rewrite exact_norm in Hp.
Qed.

Lemma dump_integrated adr id : address_ok adr -> length id = 8%nat -> bytes_ok id ->
  exists blob, dump_binary integrated_address_c (adr, id) = Some blob /\ bytes_ok blob /\
    parse_binary integrated_address_c blob = Some (adr, id).
Proof.
  intros [(Hl & Hb & _) (Hl' & Hb' & _)] Hid Hidb.
  assert (is_Some (dump_binary integrated_address_c (adr, id))) as [blob Hd].
  { unfold dump_binary. cbn. by rewrite !decide_True by done. }
  exists blob. split; [done|]. split; [by destruct (codec_rt _ _ Hd)|].
  destruct (parse_dump _ _ _ integrated_address_ok Hd) as [Hp _].
  by rewrite exact_norm in Hp.
Qed.

(** A network refuses the addresses of the other networks. *)
Lemma wrong_network info nettype config prefix data str :
  get_config nettype = Some config -> decode_addr cn_fast_hash str = Some (prefix, data) ->
  prefix ∉ [PUBLIC_ADDRESS_BASE58_PREFIX config; PUBLIC_INTEGRATED_ADDRESS_BASE58_PREFIX config;
            PUBLIC_SUBADDRESS_BASE58_PREFIX config] ->
  get_account_address_from_str cn_fast_hash check_key info nettype str = None.
Proof.
  intros Hc Hd Hp. unfold get_account_address_from_str. rewrite Hc, Hd. cbn [mbind option_bind].
  destruct (Z.eqb_spec (PUBLIC_INTEGRATED_ADDRESS_BASE58_PREFIX config) prefix); [set_solver|].
  destruct (Z.eqb_spec (PUBLIC_ADDRESS_BASE58_PREFIX config) prefix); [set_solver|].
  destruct (Z.eqb_spec (PUBLIC_SUBADDRESS_BASE58_PREFIX config) prefix); [set_solver|done].
Qed.

Lemma other_network info nettype config prefix data str :
  get_config nettype = Some config -> decode_addr cn_fast_hash str = Some (prefix, data) ->
  prefix ∈ [PUBLIC_ADDRESS_BASE58_PREFIX config; PUBLIC_INTEGRATED_ADDRESS_BASE58_PREFIX config;
            PUBLIC_SUBADDRESS_BASE58_PREFIX config] ->
  forall nettype', get_config nettype' <> Some config ->
    get_account_address_from_str cn_fast_hash check_key info nettype' str = None.
Proof.
  intros Hc Hdec Hin nettype' Hne.
  destruct (get_config nettype') as [c'|] eqn:Hc';
    [|unfold get_account_address_from_str; by rewrite Hc'].
  destruct (prefixes_distinct _ _ _ _ Hc Hc') as [<-|Hdist]; [done|].
  eapply wrong_network; [done|done|]. intros Hin'. by apply (Hdist prefix).
Qed.

Lemma standard_roundtrip info nettype config adr sub :
  get_config nettype = Some config -> address_ok adr ->
  exists str,
    get_account_address_as_str cn_fast_hash nettype sub adr = Some str /\
    get_account_address_from_str cn_fast_hash check_key info nettype str =
      Some (AddressParseInfo adr sub false (payment_id info)) /\
    forall nettype', get_config nettype' <> Some config ->
      get_account_address_from_str cn_fast_hash check_key info nettype' str = None.
Proof using Type*.
  intros Hc Hadr. destruct (dump_address adr Hadr) as (blob & Hd & Hb & Hp).
  destruct Hadr as [(_ & _ & Hk1) (_ & _ & Hk2)].
  set (prefix := if sub then PUBLIC_SUBADDRESS_BASE58_PREFIX config
                 else PUBLIC_ADDRESS_BASE58_PREFIX config).
  assert (is_u64 prefix) as Hpre.
  { unfold prefix, is_uint. clear -Hc. destruct sub, nettype; by simplify_eq/=. }
  destruct (decode_encode_addr cn_fast_hash prefix blob Hpre Hb) as (str & Henc & Hdec).
  exists str. split; [|split].
  - unfold get_account_address_as_str. rewrite Hc. cbn [mbind option_bind]. by rewrite Hd.
  - unfold get_account_address_from_str. rewrite Hc, Hdec. cbn [mbind option_bind].
    unfold prefix. clear -Hc Hp Hk1 Hk2.
    destruct sub, nettype; simplify_eq/=; rewrite Hp; cbn; by rewrite Hk1, Hk2.
  - apply (other_network info nettype config prefix blob); [done|done|].
    unfold prefix. destruct sub; set_solver.
Qed.

Lemma integrated_roundtrip info nettype config adr id :
  get_config nettype = Some config -> address_ok adr -> length id = 8%nat -> bytes_ok id ->
  exists str,
    get_account_integrated_address_as_str cn_fast_hash nettype adr id = Some str /\
    get_account_address_from_str cn_fast_hash check_key info nettype str =
      Some (AddressParseInfo adr false true id) /\
    forall nettype', get_config nettype' <> Some config ->
      get_account_address_from_str cn_fast_hash check_key info nettype' str = None.
Proof using Type*.
  intros Hc Hadr Hid Hidb. destruct (dump_integrated adr id Hadr Hid Hidb) as (blob & Hd & Hb & Hp).
  destruct Hadr as [(_ & _ & Hk1) (_ & _ & Hk2)].
  set (prefix := PUBLIC_INTEGRATED_ADDRESS_BASE58_PREFIX config).
  assert (is_u64 prefix) as Hpre.
  { unfold prefix, is_uint. clear -Hc. destruct nettype; by simplify_eq/=. }
  destruct (decode_encode_addr cn_fast_hash prefix blob Hpre Hb) as (str & Henc & Hdec).
  exists str. split; [|split].
  - unfold get_account_integrated_address_as_str. rewrite Hc. cbn [mbind option_bind]. by rewrite Hd.
  - unfold get_account_address_from_str. rewrite Hc, Hdec. cbn [mbind option_bind].
    unfold prefix. rewrite Z.eqb_refl. cbn [mbind option_bind]. rewrite Hp. cbn. by rewrite Hk1, Hk2.
  - apply (other_network info nettype config prefix blob); [done|done|]. unfold prefix. set_solver.
Qed.

(** C37: an address string parses to the keys, the kind (standard or
    subaddress; integrated with its payment id) it was made from, and no
    other network accepts it. *)
Theorem address_roundtrip info nettype config adr id :
  get_config nettype = Some config -> address_ok adr -> length id = 8%nat -> bytes_ok id ->
  (forall sub, exists str,
     get_account_address_as_str cn_fast_hash nettype sub adr = Some str /\
     get_account_address_from_str cn_fast_hash check_key info nettype str =
       Some (AddressParseInfo adr sub false (payment_id info)) /\
     forall nettype', get_config nettype' <> Some config ->
       get_account_address_from_str cn_fast_hash check_key info nettype' str = None) /\
  exists str,
    get_account_integrated_address_as_str cn_fast_hash nettype adr id = Some str /\
    get_account_address_from_str cn_fast_hash check_key info nettype str =
      Some (AddressParseInfo adr false true id) /\
    forall nettype', get_config nettype' <> Some config ->
      get_account_address_from_str cn_fast_hash check_key info nettype' str = None.
Proof using Type*.
  intros Hc Hadr Hid Hidb. split; [intros sub; by apply standard_roundtrip|].
  by apply integrated_roundtrip.
Qed.

(** An address string that parses is the one string of that network for
    the keys, kind and payment id it parses to, and both keys pass the curve
    check. *)
Theorem address_canonical info nettype str info' :
  bytes_ok str ->
  get_account_address_from_str cn_fast_hash check_key info nettype str = Some info' ->
  check_key (m_spend_public_key (address info')) = true /\
  check_key (m_view_public_key (address info')) = true /\
  (if has_payment_id info'
   then is_subaddress info' = false /\
     get_account_integrated_address_as_str cn_fast_hash nettype (address info') (payment_id info')
       = Some str
   else get_account_address_as_str cn_fast_hash nettype (is_subaddress info') (address info')
       = Some str).
Proof using Type*.
  intros Hs. unfold get_account_address_from_str.
  destruct (get_config nettype) as [config|] eqn:Hc; [|done]. cbn [mbind option_bind].
  destruct (decode_addr cn_fast_hash str) as [[prefix data]|] eqn:Hdec; [|done]. cbn [mbind option_bind].
  destruct (decode_addr_sound cn_fast_hash str prefix data Hs Hdec) as (_ & Hdata & Henc).
  assert (data <> [] -> encode_addr cn_fast_hash prefix data = Some str) as Henc'
    by (destruct Henc as [?|[? _]]; done).
  match goal with |- context [if ?b then Some (false, true) else ?e] =>
    destruct b eqn:E1; [|destruct e as [[is_sub [|]]|] eqn:E2] end; cbn [mbind option_bind]; try done.
  - apply Z.eqb_eq in E1 as <-.
    destruct (parse_binary integrated_address_c data) as [[adr id]|] eqn:Hp; [|done]. cbn [mbind option_bind address].
    destruct (check_key _) eqn:Hk1; [|done]. destruct (check_key (m_view_public_key adr)) eqn:Hk2; [|done].
    intros [= <-]. cbn. split; [done|]. split; [done|]. split; [done|].
    unfold get_account_integrated_address_as_str. rewrite Hc. cbn [mbind option_bind].
    rewrite (dump_parse_strict _ _ _ integrated_address_strict Hdata Hp). cbn. apply Henc'. by intros ->.
  - by repeat case_match; simplify_eq.
  - destruct (parse_binary account_public_address_c data) as [adr|] eqn:Hp; [|done]. cbn [mbind option_bind address].
    destruct (check_key _) eqn:Hk1; [|done]. destruct (check_key (m_view_public_key adr)) eqn:Hk2; [|done].
    intros [= <-]. cbn. split; [done|]. split; [done|].
    unfold get_account_address_as_str. rewrite Hc. cbn [mbind option_bind].
    rewrite (dump_parse_strict _ _ _ account_public_address_strict Hdata Hp). cbn.
    assert (prefix = if is_sub then PUBLIC_SUBADDRESS_BASE58_PREFIX config
                     else PUBLIC_ADDRESS_BASE58_PREFIX config) as <-.
    { revert E2. repeat (match goal with |- context [Z.eqb ?x ?y] => destruct (Z.eqb_spec x y) end;
        [by intros [= <-]|]). done. }
    apply Henc'. by intros ->.
Qed.
End AddressLaws.

(** ** Hash prefixes *)

(** The value of a list of words, the highest first. *)
Fixpoint wval (ws : list Z) : Z :=
  match ws with [] => 0 | w :: ws' => w * 2 ^ (64 * Z.of_nat (length ws')) + wval ws' end.

(** The [n] most significant bits of the words (all of them if there are
    fewer than [n]). *)
Definition wtop (n : Z) (ws : list Z) : Z :=
  let bits := 64 * Z.of_nat (length ws) in wval ws / 2 ^ (bits - Z.min n bits).

Definition top_bits (n : Z) (hash : list Z) : Z := le_value hash / 2 ^ (256 - Z.min n 256).

Definition cmp3 (x y : Z) : Z :=
  match x ?= y with Lt => -1 | Eq => 0 | Gt => 1 end.

Lemma wval_range ws : Forall is_u64 ws -> 0 <= wval ws < 2 ^ (64 * Z.of_nat (length ws)).
Proof.
  induction 1 as [|w ws Hw Hws IH]; [done|]. cbn [wval length].
  replace (64 * Z.of_nat (S (length ws))) with (64 + 64 * Z.of_nat (length ws)) by lia.
  rewrite Z.pow_add_r by lia. unfold is_uint in Hw. nia.
Qed.

Lemma wtop_0 ws : Forall is_u64 ws -> wtop 0 ws = 0.
Proof.
  intros H. unfold wtop. rewrite Z.min_l, Z.sub_0_r by lia.
  apply Z.div_small, wval_range, H.
Qed.

(** One word more: within it, or it and the rest. *)
Lemma wtop_cons n w ws : 0 <= n -> is_u64 w -> Forall is_u64 ws ->
  wtop n (w :: ws) =
    if n <=? 64 then w / 2 ^ (64 - n)
    else w * 2 ^ (Z.min (n - 64) (64 * Z.of_nat (length ws))) + wtop (n - 64) ws.
Proof.
  intros Hn Hw Hws. pose proof (wval_range ws Hws) as Hr. unfold wtop. cbn [wval length].
  set (L := 64 * Z.of_nat (length ws)) in *.
  replace (64 * Z.of_nat (S (length ws))) with (64 + L) by lia.
  assert (0 <= L) by lia. destruct (Z.leb_spec n 64).
  - rewrite (Z.min_l n) by lia. replace (64 + L - n) with (L + (64 - n)) by lia.
    rewrite Z.pow_add_r, <- Z.div_div by lia. f_equal.
    rewrite Z.div_add_l by lia. rewrite Z.div_small by lia. lia.
  - set (k := Z.min (n - 64) L). assert (0 <= k <= L) as Hk by lia.
    replace (64 + L - Z.min n (64 + L)) with (L - k) by lia.
    replace (2 ^ L) with (2 ^ k * 2 ^ (L - k)) by (rewrite <- Z.pow_add_r by lia; f_equal; lia).
    rewrite Z.mul_assoc, Z.div_add_l by lia. done.
Qed.

Lemma wtop_range n ws : 0 <= n -> Forall is_u64 ws ->
  0 <= wtop n ws < 2 ^ (Z.min n (64 * Z.of_nat (length ws))).
Proof.
  intros Hn Hws. pose proof (wval_range ws Hws) as Hr. unfold wtop.
  set (L := 64 * Z.of_nat (length ws)) in *. split; [apply Z.div_pos; lia|].
  apply Z.div_lt_upper_bound; [lia|]. rewrite <- Z.pow_add_r by lia.
  replace (L - Z.min n L + Z.min n L) with L by lia. lia.
Qed.

Lemma cmp3_lex x y x' y' B : 0 <= x' < B -> 0 <= y' < B ->
  cmp3 (x * B + x') (y * B + y') =
    if x <? y then -1 else if y <? x then 1 else cmp3 x' y'.
Proof.
  intros Hx Hy. unfold cmp3. destruct (Z.ltb_spec x y).
  - destruct (Z.compare_spec (x * B + x') (y * B + y')); nia.
  - destruct (Z.ltb_spec y x).
    + destruct (Z.compare_spec (x * B + x') (y * B + y')); nia.
    + assert (x = y) as -> by lia. by rewrite Zcompare_plus_compat.
Qed.

Lemma compare_words_spec vs n :
  0 <= n -> Forall is_u64 (map fst vs) -> Forall is_u64 (map snd vs) ->
  compare_words vs n = cmp3 (wtop n (map fst vs)) (wtop n (map snd vs)).
Proof.
  revert n; induction vs as [|[a b] vs IH]; intros n Hn Ha Hb; [done|].
  cbn [compare_words map fst snd] in *. inversion_clear Ha as [|? ? Ha0 Ha']. inversion_clear Hb as [|? ? Hb0 Hb'].
  destruct (Z.eqb_spec n 0) as [->|]; [by rewrite !wtop_0 by by constructor|].
  rewrite IH by (done || lia). rewrite !wtop_cons by done. rewrite !shiftr_div by lia.
  destruct (Z.leb_spec n 64).
  - rewrite Z.min_r, Z.sub_diag, !wtop_0 by (done || lia). unfold cmp3 at 2.
    destruct (Z.compare_spec (a / 2 ^ (64 - n)) (b / 2 ^ (64 - n)));
      repeat (bcase; try lia; try done).
  - rewrite Z.min_l, Z.sub_diag, !Z.pow_0_r, !Z.div_1_r by lia. rewrite !length_map.
    pose proof (wtop_range (n - 64) (map fst vs) ltac:(lia) Ha') as Hx.
    pose proof (wtop_range (n - 64) (map snd vs) ltac:(lia) Hb') as Hy.
    rewrite length_map in Hx, Hy. by rewrite cmp3_lex by done.
Qed.

(** The words of a hash and its value. *)
Lemma hash_be_words_ok h : length h = 32%nat -> bytes_ok h ->
  Forall is_u64 (hash_be_words h) /\ wval (hash_be_words h) = le_value h.
Proof.
  intros Hl Hb. split.
  - unfold hash_be_words. apply Forall_map, Forall_forall. intros i Hi.
    assert (i < 4)%nat by (revert Hi; set_unfold; lia).
    pose proof (le_value_range (chunk 8 h i) (Forall_take _ _ _ (Forall_drop _ _ _ Hb))) as Hr.
    rewrite length_chunk in Hr by lia. exact Hr.
  - pose proof (concat_chunks h 8 4) as E. rewrite (take_ge h) in E by lia.
    rewrite <- E at 2. cbn [seq map concat]. unfold hash_be_words. cbn [map wval length].
    rewrite !le_value_app, !length_chunk by lia. change (le_value []) with 0. lia.
Qed.

Lemma map_fst_zip_words h h' : map fst (zip (hash_be_words h) (hash_be_words h')) = hash_be_words h.
Proof. done. Qed.
Lemma map_snd_zip_words h h' : map snd (zip (hash_be_words h) (hash_be_words h')) = hash_be_words h'.
Proof. done. Qed.

Lemma wtop_hash n h : length h = 32%nat -> bytes_ok h -> wtop n (hash_be_words h) = top_bits n h.
Proof. intros Hl Hb. unfold wtop, top_bits. by destruct (hash_be_words_ok h Hl Hb) as [_ ->]. Qed.

Lemma mask_word v k : is_u64 v -> 0 < k <= 64 ->
  Z.land v (Z.lxor (2 ^ 64 - 1) (u64 (u64 (Z.shiftl 1 (64 - k)) - 1))) = v / 2 ^ (64 - k) * 2 ^ (64 - k).
Proof.
  intros Hv Hk. assert (2 ^ (64 - k) < 2 ^ 64) by (apply Z.pow_lt_mono_r; lia).
  rewrite shiftl_mul, Z.mul_1_l by lia.
  rewrite (wrapu_small 64 (2 ^ (64 - k))) by (unfold is_uint; lia).
  rewrite wrapu_small by (unfold is_uint; lia).
  rewrite <- shiftr_div, <- shiftl_mul by lia. rewrite <- Z.ldiff_ones_r by lia.
  apply is_uint_bits in Hv as [_ Hbits]; [|lia].
  apply Z.bits_inj'. intros i Hi. rewrite Z.land_spec, Z.lxor_spec, Z.ldiff_spec.
  replace (2 ^ 64 - 1) with (Z.ones 64) by done.
  replace (2 ^ (64 - k) - 1) with (Z.ones (64 - k)) by (rewrite Z.ones_equiv; lia).
  destruct (decide (64 <= i)) as [Hge|Hlt]; [by rewrite Hbits|].
  rewrite (Z.ones_spec_low 64 i) by lia. by rewrite xorb_true_l.
Qed.

Lemma mask_words_ok ws n : 0 <= n -> Forall is_u64 ws ->
  length (mask_words ws n) = length ws /\ Forall is_u64 (mask_words ws n) /\
  wtop n (mask_words ws n) = wtop n ws.
Proof.
  intros Hn Hws. revert n Hn; induction Hws as [|w ws Hw Hws IH]; intros n Hn; [done|].
  cbn [mask_words length].
  assert (exists k, Z.min 64 n = k /\ 0 <= k <= 64 /\ (n <= 64 -> k = n) /\ (64 < n -> k = 64))
    as (k & -> & Hk & Hk1 & Hk2) by (eexists; split; [reflexivity|lia]).
  destruct (IH (n - k) ltac:(lia)) as (IHl & IHok & IHt).
  assert (exists m, Z.land w (if k =? 0 then 0 else
      Z.lxor (2 ^ 64 - 1) (u64 (u64 (Z.shiftl 1 (64 - k)) - 1))) = m /\
      is_u64 m /\ m / 2 ^ (64 - k) = w / 2 ^ (64 - k)) as (m & -> & Hm & Hmw).
  { destruct (Z.eqb_spec k 0) as [->|].
    - exists 0. rewrite Z.land_0_r. unfold is_uint in *. split; [done|]. split; [lia|].
      rewrite Z.div_0_l by lia. symmetry. by apply Z.div_small.
    - eexists. split; [by apply mask_word; [|lia]|]. unfold is_uint in *.
      assert (0 < 2 ^ (64 - k)) by (apply Z.pow_pos_nonneg; lia).
      rewrite Z.div_mul by lia. split; [|done].
      pose proof (Z.div_mod w (2 ^ (64 - k))). pose proof (Z.mod_pos_bound w (2 ^ (64 - k))).
      pose proof (Z.div_pos w (2 ^ (64 - k))). nia. }
  split; [by rewrite IHl|]. split; [by constructor|].
  rewrite !wtop_cons by done. rewrite IHl. destruct (Z.leb_spec n 64).
  - by rewrite <- Hk1 by lia.
  - rewrite Hk2 in * by lia. rewrite Z.sub_diag, Z.pow_0_r, !Z.div_1_r in Hmw. by rewrite Hmw, IHt.
Qed.

Lemma template_words h n : length h = 32%nat -> bytes_ok h -> 0 <= n ->
  length (make_hash32_loose_template n h) = 32%nat /\
  bytes_ok (make_hash32_loose_template n h) /\
  hash_be_words (make_hash32_loose_template n h) = mask_words (hash_be_words h) n.
Proof.
  intros Hl Hb Hn. destruct (hash_be_words_ok h Hl Hb) as [Hw _].
  destruct (mask_words_ok _ n Hn Hw) as (Hml & Hmok & _). unfold make_hash32_loose_template.
  destruct (mask_words (hash_be_words h) n) as [|a [|b [|c [|d [|]]]]]; try done.
  assert (forall x, is_u64 x -> le_value (le_bytes 8 x) = x) as Hv by (intros; by apply le_value_bytes).
  rewrite !Forall_cons in Hmok. destruct Hmok as (Ha & Hb' & Hc & Hd & _).
  set (f := fun i => nth i [le_bytes 8 d; le_bytes 8 c; le_bytes 8 b; le_bytes 8 a] []).
  assert (forall i, (i < 4)%nat -> length (f i) = 8%nat) as Hf.
  { intros i Hi. do 4 (destruct i as [|i]; [apply length_le_bytes|]). lia. }
  change (concat (map (le_bytes 8) (rev [a; b; c; d]))) with (concat (map f (seq 0 4))).
  split; [by rewrite (length_concat_uniform f 8)|]. split.
  - cbn [seq map concat f nth]. unfold bytes_ok. rewrite !Forall_app. repeat split; apply le_bytes_ok || constructor.
  - unfold hash_be_words. rewrite <- (app_nil_r (concat _)). cbn [map].
    rewrite !(chunk_concat f 8 4) by (done || lia). cbn [f nth]. by rewrite !Hv.
Qed.

(** ** Properties *)

(** C13: For every median, weight and supply of 64 bits: the block reward is
    the emission of the supply left (at least the tail emission) up to the
    effective median weight [M], is refused above twice [M] (a [uint64_t]),
    and in between is the emission times (2M - w) w, that product modulo 2^64,
    divided by [M * M] and rounded down; it is then below the emission, so the
    asserts on the quotient hold.  Up to a median of 2^32 nothing wraps: the
    reward is the emission times the quadratic penalty (2M - w) w / M^2, and a
    heavier block never earns more. *)
Theorem block_reward_correct m w w' coins v :
  is_u64 m -> is_u64 w -> is_u64 w' -> is_u64 coins ->
  let M := effective_median m v in
  let B := base_reward coins v in
  get_block_reward m w coins v =
    (if w <=? M then Some B else if u64 (2 * M) <? w then None else Some (penalized_u64 B M w)) /\
  (M < w <= u64 (2 * M) -> 0 <= penalized_u64 B M w < B) /\
  (m <= 2 ^ 32 ->
     u64 (2 * M) = 2 * M /\
     (M < w <= 2 * M -> penalized_u64 B M w = penalized B M w) /\
     (w <= w' ->
        match get_block_reward m w coins v, get_block_reward m w' coins v with
        | Some r, Some r' => r' <= r
        | None, Some _ => False
        | _, None => True
        end)).
Proof.
  intros Hm Hw Hw' Hc M B.
  pose proof (effective_median_u64 m v Hm) as HM. fold M in HM.
  pose proof (base_reward_range coins v Hc) as HB. fold B in HB.
  split; [by apply get_block_reward_wrapped|]. split.
  - intros HMw. assert (u64 (2 * M) <= 2 * M) by (apply Z.mod_le; lia). apply penalized_u64_range; lia.
  - intros Hs. pose proof (effective_median_range m v) as HM'. fold M in HM'. unfold is_uint in Hm.
    split; [apply wrapu_small; unfold is_uint; lia|]. split; [intros; apply penalized_u64_eq; lia|].
    intros Hle. rewrite !get_block_reward_eq by (done || lia). fold M B.
    repeat (bcase; try lia); try done.
    + apply Z.lt_le_incl, penalized_range; lia.
    + apply penalized_antitone; lia.
Qed.

(** A weight over the median of an ordinary chain, and one over a median of
    2^33, where the product wraps and nothing is left of the reward. *)
Lemma block_reward_correct_witness :
  get_block_reward 350000 400000 18000000000000000000 16 = Some 834706969671 /\
  get_block_reward (2 ^ 33) (3 * 2 ^ 32) 18000000000000000000 16 = Some 0.
Proof.
  destruct (block_reward_correct 350000 400000 500000 18000000000000000000 16) as [H1 _];
    [unfold is_uint; lia..|].
  destruct (block_reward_correct (2 ^ 33) (3 * 2 ^ 32) (3 * 2 ^ 32) 18000000000000000000 16) as [H2 _];
    [unfold is_uint; lia..|].
  split; [etransitivity; [exact H1|]|etransitivity; [exact H2|]]; vm_compute; reflexivity.
Defined.

(** Comparing [nbits] bits of two hashes compares their [nbits] most
    significant bits as numbers, and the loose template of a hash matches
    exactly the hashes that share those bits with it. *)
Theorem hash_prefix_correct nbits h h' :
  0 <= nbits -> length h = 32%nat -> bytes_ok h -> length h' = 32%nat -> bytes_ok h' ->
  compare_hash32_reversed_nbits h h' nbits = cmp3 (top_bits nbits h) (top_bits nbits h') /\
  (compare_hash32_reversed_nbits (make_hash32_loose_template nbits h) h' nbits = 0 <->
   top_bits nbits h = top_bits nbits h').
Proof.
  intros Hn Hl Hb Hl' Hb'. unfold compare_hash32_reversed_nbits.
  destruct (hash_be_words_ok h Hl Hb) as [Hw _], (hash_be_words_ok h' Hl' Hb') as [Hw' _].
  destruct (template_words h nbits Hl Hb Hn) as (Htl & Htb & Htw).
  destruct (hash_be_words_ok _ Htl Htb) as [Hwt _].
  rewrite !compare_words_spec by (rewrite ?map_fst_zip_words, ?map_snd_zip_words; done).
  rewrite !map_fst_zip_words, !map_snd_zip_words, !wtop_hash by done. split; [done|].
  rewrite <- (wtop_hash nbits (make_hash32_loose_template nbits h)), Htw by done.
  destruct (mask_words_ok _ nbits Hn Hw) as (_ & _ & ->). rewrite wtop_hash by done.
  unfold cmp3. destruct (Z.compare_spec (top_bits nbits h) (top_bits nbits h')); lia.
Qed.

Lemma hash_prefix_correct_witness :
  let h := le_bytes 32 (2 ^ 255 + 2 ^ 130 + 1) in
  let h' := le_bytes 32 (2 ^ 255 + 2 ^ 131) in
  compare_hash32_reversed_nbits h h' 125 = cmp3 (top_bits 125 h) (top_bits 125 h') /\
  (compare_hash32_reversed_nbits (make_hash32_loose_template 125 h) h' 125 = 0 <->
   top_bits 125 h = top_bits 125 h').
Proof.
  apply hash_prefix_correct; try apply length_le_bytes; try apply le_bytes_ok. lia.
Defined.

(** The test of a public key in [Crypto]; it always returns. *)
Definition curve_check_key (key : list Z) : bool := default false (Crypto.check_key key).

(** The generators [G] and [H] as keys. *)
Definition sample_address : account_public_address := AccountPublicAddress G H.
Definition no_info : address_parse_info := AddressParseInfo sample_address false false [].

Lemma curve_check_encode P : curve_check_key (GroupOps.encode P) = true.
Proof. unfold curve_check_key. by rewrite check_key_encode. Qed.

Lemma key_checked key P : key = GroupOps.encode P -> length key = 32%nat /\ bytes_ok key /\ curve_check_key key = true.
Proof. intros ->. destruct (encode_key P) as [Hl Hb]. split; [exact Hl|]. split; [exact Hb|apply curve_check_encode]. Qed.

Lemma sample_address_ok : address_ok curve_check_key sample_address.
Proof. exact (conj (key_checked _ _ G_encode) (key_checked _ _ H_encode)). Qed.

Lemma address_roundtrip_witness :
  let check_key := curve_check_key in
  let id := [1; 2; 3; 4; 5; 6; 7; 8] in
  (forall sub, exists str,
     get_account_address_as_str crypto_cn_fast_hash STAGENET sub sample_address = Some str /\
     get_account_address_from_str crypto_cn_fast_hash check_key no_info STAGENET str =
       Some (AddressParseInfo sample_address sub false (payment_id no_info)) /\
     forall nettype', get_config nettype' <> Some stagenet ->
       get_account_address_from_str crypto_cn_fast_hash check_key no_info nettype' str = None) /\
  exists str,
    get_account_integrated_address_as_str crypto_cn_fast_hash STAGENET sample_address id = Some str /\
    get_account_address_from_str crypto_cn_fast_hash check_key no_info STAGENET str =
      Some (AddressParseInfo sample_address false true id) /\
    forall nettype', get_config nettype' <> Some stagenet ->
      get_account_address_from_str crypto_cn_fast_hash check_key no_info nettype' str = None.
Proof.
  apply (address_roundtrip crypto_cn_fast_hash curve_check_key no_info STAGENET);
    [done|exact sample_address_ok|done|apply (bool_decide_unpack _); by vm_compute].
Defined.

Lemma address_canonical_witness :
  match get_account_address_as_str crypto_cn_fast_hash MAINNET true sample_address with
  | Some str =>
      let check_key := curve_check_key in
      let info' := AddressParseInfo sample_address true false [] in
      check_key (m_spend_public_key (address info')) = true /\
      check_key (m_view_public_key (address info')) = true /\
      (if has_payment_id info'
       then is_subaddress info' = false /\
         get_account_integrated_address_as_str crypto_cn_fast_hash MAINNET (address info')
           (payment_id info') = Some str
       else get_account_address_as_str crypto_cn_fast_hash MAINNET (is_subaddress info')
              (address info') = Some str)
  | None => False
  end.
Proof.
  destruct (standard_roundtrip crypto_cn_fast_hash curve_check_key no_info MAINNET _ sample_address true eq_refl sample_address_ok) as (str & E & Hs & _).
  assert (bytes_ok str) as Hb by (vm_compute in E; injection E as <-; apply (bool_decide_unpack _); by vm_compute).
  rewrite E. exact (address_canonical crypto_cn_fast_hash curve_check_key no_info MAINNET str _ Hb Hs).
Defined.
