(* ===== verification/Pruning.v ===== *)
(** * Pruning

    The stripes of a pruned chain ([src/common/pruning.h], [pruning.cpp]): a
    seed names the stripe a node keeps, and four functions tell which blocks
    a peer with a given seed has.  The theorems say the height searches return
    the nearest height of the kind asked for. *)

From S2P Require Import Prelude Config.

(** ** Definitions *)

Definition PRUNING_SEED_LOG_STRIPES_SHIFT : Z := 7.
Definition PRUNING_SEED_LOG_STRIPES_MASK : Z := 7.
Definition PRUNING_SEED_STRIPE_SHIFT : Z := 0.
Definition PRUNING_SEED_STRIPE_MASK : Z := 127.

Definition get_pruning_log_stripes (pruning_seed : Z) : Z :=
  Z.land (Z.shiftr pruning_seed PRUNING_SEED_LOG_STRIPES_SHIFT) PRUNING_SEED_LOG_STRIPES_MASK.

Definition seed_stripe (pruning_seed : Z) : Z :=
  if pruning_seed =? 0 then 0
  else u32 (1 + Z.land (Z.shiftr pruning_seed PRUNING_SEED_STRIPE_SHIFT) PRUNING_SEED_STRIPE_MASK).

(** [None]: one of the two assertions throws. *)
Definition make_pruning_seed (stripe log_stripes : Z) : option Z :=
  if negb (log_stripes <=? PRUNING_SEED_LOG_STRIPES_MASK) then None
  else if negb ((0 <? stripe) && (stripe <=? u64 (Z.shiftl 1 log_stripes))) then None
  else Some (Z.lor (u32 (Z.shiftl log_stripes PRUNING_SEED_LOG_STRIPES_SHIFT))
                   (u32 (Z.shiftl (u32 (stripe - 1)) PRUNING_SEED_STRIPE_SHIFT))).

(** The second overload of [get_pruning_stripe]: the stripe of a block. *)
Definition get_pruning_stripe (block_height blockchain_height log_stripes : Z) : Z :=
  if blockchain_height <=? u64 (block_height + CRYPTONOTE_PRUNING_TIP_BLOCKS) then 0
  else u32 (u64 (Z.land (block_height / CRYPTONOTE_PRUNING_STRIPE_SIZE)
                   (u64 (u64 (Z.shiftl 1 log_stripes) - 1)) + 1)).

Definition has_unpruned_block (block_height blockchain_height pruning_seed : Z) : bool :=
  let stripe := seed_stripe pruning_seed in
  if stripe =? 0 then true
  else
    let log_stripes := get_pruning_log_stripes pruning_seed in
    let block_stripe := get_pruning_stripe block_height blockchain_height log_stripes in
    (block_stripe =? 0) || (block_stripe =? stripe).

Definition get_pruning_seed (block_height blockchain_height log_stripes : Z) : option Z :=
  let stripe := get_pruning_stripe block_height blockchain_height log_stripes in
  if stripe =? 0 then Some 0 else make_pruning_seed stripe log_stripes.

Definition get_next_unpruned_block_height (block_height blockchain_height pruning_seed : Z) : Z :=
  if negb (block_height <=? CRYPTONOTE_MAX_BLOCK_NUMBER + 1) then block_height
  else if negb (blockchain_height <=? CRYPTONOTE_MAX_BLOCK_NUMBER + 1) then block_height
  else
    let stripe := seed_stripe pruning_seed in
    if stripe =? 0 then block_height
    else if blockchain_height <=? u64 (block_height + CRYPTONOTE_PRUNING_TIP_BLOCKS) then block_height
    else
      let seed_log_stripes := get_pruning_log_stripes pruning_seed in
      let log_stripes := if negb (seed_log_stripes =? 0) then seed_log_stripes
                         else CRYPTONOTE_PRUNING_LOG_STRIPES in
      let mask := u64 (u64 (Z.shiftl 1 log_stripes) - 1) in
      let block_pruning_stripe :=
        u32 (u64 (Z.land (block_height / CRYPTONOTE_PRUNING_STRIPE_SIZE) mask + 1)) in
      if block_pruning_stripe =? stripe then block_height
      else
        let cycles := Z.shiftr (block_height / CRYPTONOTE_PRUNING_STRIPE_SIZE) log_stripes in
        let cycle_start := u64 (cycles + (if block_pruning_stripe <? stripe then 0 else 1)) in
        let h := u64 (u64 (cycle_start * Z.shiftl CRYPTONOTE_PRUNING_STRIPE_SIZE log_stripes)
                      + u32 (u32 (stripe - 1) * CRYPTONOTE_PRUNING_STRIPE_SIZE)) in
        if blockchain_height <? u64 (h + CRYPTONOTE_PRUNING_TIP_BLOCKS) then
          (if blockchain_height <? CRYPTONOTE_PRUNING_TIP_BLOCKS then 0
           else blockchain_height - CRYPTONOTE_PRUNING_TIP_BLOCKS)
        else if negb (block_height <=? h) then block_height
        else h.

Definition get_next_pruned_block_height (block_height blockchain_height pruning_seed : Z) : option Z :=
  let stripe := seed_stripe pruning_seed in
  if stripe =? 0 then Some blockchain_height
  else if blockchain_height <=? u64 (block_height + CRYPTONOTE_PRUNING_TIP_BLOCKS)
  then Some blockchain_height
  else
    let seed_log_stripes := get_pruning_log_stripes pruning_seed in
    let log_stripes := if negb (seed_log_stripes =? 0) then seed_log_stripes
                       else CRYPTONOTE_PRUNING_LOG_STRIPES in
    let mask := u64 (u64 (Z.shiftl 1 log_stripes) - 1) in
    let block_pruning_seed :=
      u32 (u64 (Z.land (block_height / CRYPTONOTE_PRUNING_STRIPE_SIZE) mask + 1)) in
    if negb (block_pruning_seed =? stripe) then Some block_height
    else
      let next_stripe := u32 (u64 (1 + Z.land block_pruning_seed mask)) in
      seed ← make_pruning_seed next_stripe (u32 log_stripes);
      Some (get_next_unpruned_block_height block_height blockchain_height seed).

(** [get_random_stripe], given the random byte drawn. *)
Definition get_random_stripe (rand : Z) : Z :=
  u32 (u64 (1 + rand mod Z.shiftl 1 CRYPTONOTE_PRUNING_LOG_STRIPES)).

(** ** Seeds *)

(** A seed that names a stripe: [make_pruning_seed] with more than one stripe. *)
Definition seed_for (stripe log_stripes seed : Z) : Prop :=
  1 <= log_stripes <= 7 /\ 1 <= stripe <= 2 ^ log_stripes /\
  make_pruning_seed stripe log_stripes = Some seed.

Lemma small_log log_stripes : 0 <= log_stripes <= 7 ->
  u64 (Z.shiftl 1 log_stripes) = 2 ^ log_stripes /\
  u64 (u64 (Z.shiftl 1 log_stripes) - 1) = 2 ^ log_stripes - 1 /\ 1 <= 2 ^ log_stripes <= 128.
Proof.
  intros Hl. rewrite Z.shiftl_1_l.
  assert (1 <= 2 ^ log_stripes <= 128) as Hp.
  { split; [apply (Z.pow_le_mono_r 2 0); lia|apply (Z.pow_le_mono_r 2 log_stripes 7); lia]. }
  rewrite (wrapu_small 64 (2 ^ log_stripes)) by (unfold is_uint; lia).
  rewrite (wrapu_small 64) by (unfold is_uint; lia). done.
Qed.

Lemma make_seed_value stripe log_stripes :
  0 <= log_stripes <= 7 -> 1 <= stripe <= 2 ^ log_stripes ->
  make_pruning_seed stripe log_stripes = Some (log_stripes * 128 + (stripe - 1)).
Proof.
  intros Hl Hs. destruct (small_log log_stripes Hl) as (E1 & _ & Hp). unfold make_pruning_seed.
  rewrite E1. unfold PRUNING_SEED_LOG_STRIPES_MASK, PRUNING_SEED_LOG_STRIPES_SHIFT, PRUNING_SEED_STRIPE_SHIFT.
  destruct (Z.leb_spec log_stripes 7), (Z.ltb_spec 0 stripe), (Z.leb_spec stripe (2 ^ log_stripes)); try lia.
  cbn [negb andb]. rewrite Z.shiftl_0_r, (shiftl_mul 7) by lia. change (2 ^ 7) with 128.
  rewrite !(wrapu_small 32) by (try apply wrapu_range; rewrite ?wrapu_small; unfold is_uint; lia).
  f_equal. change 128 with (2 ^ 7). by rewrite lor_disjoint_r by lia.
Qed.

Lemma seed_fields stripe log_stripes :
  0 <= log_stripes <= 7 -> 1 <= stripe <= 2 ^ log_stripes -> 0 < log_stripes ->
  seed_stripe (log_stripes * 128 + (stripe - 1)) = stripe /\
  get_pruning_log_stripes (log_stripes * 128 + (stripe - 1)) = log_stripes.
Proof.
  intros Hl Hs Hpos. destruct (small_log log_stripes Hl) as (_ & _ & Hp).
  unfold seed_stripe, get_pruning_log_stripes, PRUNING_SEED_STRIPE_SHIFT, PRUNING_SEED_STRIPE_MASK,
    PRUNING_SEED_LOG_STRIPES_SHIFT, PRUNING_SEED_LOG_STRIPES_MASK.
  rewrite Z.shiftr_0_r, shiftr_div by lia. change (2 ^ 7) with 128.
  destruct (Z.eqb_spec (log_stripes * 128 + (stripe - 1)) 0); [lia|].
  change (Z.land ?x 127) with (Z.land x (2 ^ 7 - 1)). change (Z.land ?x 7) with (Z.land x (2 ^ 3 - 1)).
  rewrite !land_mask by lia. change (2 ^ 7) with 128. change (2 ^ 3) with 8.
  split; [rewrite wrapu_small|]; zdm.
Qed.

(** ** Which blocks a seed keeps *)

(** A block below the tip with the stripe of the seed. *)
Definition in_stripe (stripe log_stripes b : Z) : Prop :=
  (b / CRYPTONOTE_PRUNING_STRIPE_SIZE) mod 2 ^ log_stripes = stripe - 1.

#[export] Instance in_stripe_dec stripe log_stripes b : Decision (in_stripe stripe log_stripes b).
Proof. unfold in_stripe. apply _. Defined.

Lemma block_stripe_value log_stripes b : 1 <= log_stripes <= 7 -> 0 <= b < 2 ^ 63 ->
  u32 (u64 (Z.land (b / CRYPTONOTE_PRUNING_STRIPE_SIZE) (u64 (u64 (Z.shiftl 1 log_stripes) - 1)) + 1))
  = (b / CRYPTONOTE_PRUNING_STRIPE_SIZE) mod 2 ^ log_stripes + 1.
Proof.
  intros Hl Hb. destruct (small_log log_stripes ltac:(lia)) as (_ & -> & Hp).
  rewrite land_mask by lia. pose proof (Z.mod_pos_bound (b / CRYPTONOTE_PRUNING_STRIPE_SIZE) (2 ^ log_stripes)).
  rewrite !wrapu_small by (rewrite ?wrapu_small; unfold is_uint; lia). done.
Qed.

Lemma tip_no_wrap b : 0 <= b < 2 ^ 63 ->
  u64 (b + CRYPTONOTE_PRUNING_TIP_BLOCKS) = b + CRYPTONOTE_PRUNING_TIP_BLOCKS.
Proof. intros Hb. apply wrapu_small. unfold is_uint, CRYPTONOTE_PRUNING_TIP_BLOCKS. lia. Qed.

Lemma has_unpruned_iff stripe log_stripes seed b H :
  seed_for stripe log_stripes seed -> 0 <= b < 2 ^ 63 ->
  has_unpruned_block b H seed = true <->
  H <= b + CRYPTONOTE_PRUNING_TIP_BLOCKS \/ in_stripe stripe log_stripes b.
Proof.
  intros (Hl & Hs & Hm) Hb. rewrite make_seed_value in Hm by lia. injection Hm as <-.
  destruct (seed_fields stripe log_stripes) as [E1 E2]; [lia|lia|lia|].
  unfold has_unpruned_block, get_pruning_stripe. rewrite E1, E2, tip_no_wrap, block_stripe_value by lia.
  pose proof (Z.mod_pos_bound (b / CRYPTONOTE_PRUNING_STRIPE_SIZE) (2 ^ log_stripes)).
  unfold in_stripe. destruct (Z.eqb_spec stripe 0); [lia|].
  destruct (Z.leb_spec H (b + CRYPTONOTE_PRUNING_TIP_BLOCKS)); [cbn; tauto|].
  rewrite orb_true_iff, !Z.eqb_eq. lia.
Qed.

(** The next block of a stripe, counted in stripes: from [q], whose stripe is
    another one, to [P * cycle + s]. *)
Lemma next_in_cycle P q s : 0 < P -> 0 <= s < P -> q mod P <> s ->
  let t := P * (q / P + (if q mod P <? s then 0 else 1)) + s in
  q < t <= q + P /\ t mod P = s /\ forall q', q <= q' < t -> q' mod P <> s.
Proof.
  intros HP Hs Hne t. pose proof (Z.div_mod q P ltac:(lia)) as Hq. pose proof (Z.mod_pos_bound q P HP).
  assert (q < t <= q + P) as Ht by (unfold t; bcase; lia). split; [done|]. split.
  - unfold t. rewrite Z.mul_comm, Z.add_comm, Z.mod_add, Z.mod_small by lia. done.
  - intros q' Hq' E. pose proof (Z.div_mod q' P ltac:(lia)) as Hq2. rewrite E in Hq2.
    unfold t in Hq'. set (k := q' / P) in *. set (c := q / P) in *. set (r := q mod P) in *.
    clearbody k c r. bcase.
    + assert (k < c) by (apply (Z.mul_lt_mono_pos_l P); lia).
      assert (P * k <= P * (c - 1)) by (apply Z.mul_le_mono_nonneg_l; lia). lia.
    + assert (k < c + 1) by (apply (Z.mul_lt_mono_pos_l P); lia).
      assert (P * k <= P * c) by (apply Z.mul_le_mono_nonneg_l; lia). lia.
Qed.

(** The search, on the stripes below the tip. *)
Lemma next_unpruned_value stripe log_stripes seed b H :
  seed_for stripe log_stripes seed ->
  0 <= b <= CRYPTONOTE_MAX_BLOCK_NUMBER + 1 -> 0 <= H <= CRYPTONOTE_MAX_BLOCK_NUMBER + 1 ->
  get_next_unpruned_block_height b H seed =
    let P := 2 ^ log_stripes in
    let q := b / CRYPTONOTE_PRUNING_STRIPE_SIZE in
    let t := P * (q / P + (if q mod P <? stripe - 1 then 0 else 1)) + (stripe - 1) in
    if decide (H <= b + CRYPTONOTE_PRUNING_TIP_BLOCKS) then b
    else if decide (q mod P = stripe - 1) then b
    else Z.min (t * CRYPTONOTE_PRUNING_STRIPE_SIZE) (H - CRYPTONOTE_PRUNING_TIP_BLOCKS).
Proof.
  intros (Hl & Hs & Hm) Hb HH. rewrite make_seed_value in Hm by lia. injection Hm as <-. cbv zeta.
  set (P := 2 ^ log_stripes). set (q := b / CRYPTONOTE_PRUNING_STRIPE_SIZE).
  set (t := P * _ + _).
  destruct (seed_fields stripe log_stripes) as [E1 E2]; [lia|lia|lia|].
  destruct (small_log log_stripes ltac:(lia)) as (_ & _ & Hp). fold P in Hp.
  unfold CRYPTONOTE_MAX_BLOCK_NUMBER in Hb, HH. unfold get_next_unpruned_block_height.
  rewrite E1, E2. cbv zeta. rewrite (tip_no_wrap b) by lia.
  destruct (Z.leb_spec b (CRYPTONOTE_MAX_BLOCK_NUMBER + 1)), (Z.leb_spec H (CRYPTONOTE_MAX_BLOCK_NUMBER + 1)),
    (Z.eqb_spec stripe 0), (Z.eqb_spec log_stripes 0); try (unfold CRYPTONOTE_MAX_BLOCK_NUMBER in *; lia).
  cbn [negb]. rewrite !(block_stripe_value log_stripes b) by lia. fold P q.
  destruct (Z.leb_spec H (b + CRYPTONOTE_PRUNING_TIP_BLOCKS)); case_decide; try lia.
  destruct (Z.eqb_spec (q mod P + 1) stripe); case_decide as Hq; try lia.
  assert (0 <= q <= 122071) as Hqr by (unfold q, CRYPTONOTE_PRUNING_STRIPE_SIZE; zdm).
  rewrite shiftr_div, shiftl_mul by lia. fold P.
  assert ((if q mod P + 1 <? stripe then 0 else 1) = (if q mod P <? stripe - 1 then 0 else 1)) as ->
    by (repeat bcase; lia).
  destruct (next_in_cycle P q (stripe - 1)) as (Ht & _ & _); [lia|lia|done|]. fold t in Ht.
  set (cy := q / P + _) in *.
  assert (0 <= cy <= 122072) as Hcy.
  { unfold cy. pose proof (Z.div_pos q P). pose proof (Z.div_le_upper_bound q P 122071). bcase; nia. }
  unfold CRYPTONOTE_PRUNING_STRIPE_SIZE, CRYPTONOTE_PRUNING_TIP_BLOCKS in *.
  rewrite (wrapu_small 64 cy), (wrapu_small 64 (cy * _)), (wrapu_small 32 (stripe - 1)),
    (wrapu_small 32 ((stripe - 1) * 4096)) by (unfold is_uint; nia).
  replace (cy * (4096 * P) + (stripe - 1) * 4096) with (t * 4096) by (unfold t; lia).
  rewrite (wrapu_small 64 (t * 4096)), (wrapu_small 64 (t * 4096 + 5500)) by (unfold is_uint; lia).
  assert (b < t * 4096) by (unfold q, CRYPTONOTE_PRUNING_STRIPE_SIZE in Ht; clearbody t; zdm).
  destruct (Z.ltb_spec H (t * 4096 + 5500)), (Z.ltb_spec H 5500), (Z.leb_spec b (t * 4096)); cbn [negb]; lia.
Qed.

(** A stripe ends where the next one starts: every block of [b]'s stripe up
    to the next stripe is in it. *)
Lemma next_stripe_range stripe log_stripes :
  1 <= log_stripes <= 7 -> 1 <= stripe <= 2 ^ log_stripes ->
  let next := 1 + stripe mod 2 ^ log_stripes in
  u32 (u64 (1 + Z.land stripe (u64 (u64 (Z.shiftl 1 log_stripes) - 1)))) = next /\
  1 <= next <= 2 ^ log_stripes /\ next - 1 <> stripe - 1 /\
  (stripe - 1 + 1) mod 2 ^ log_stripes = next - 1.
Proof.
  intros Hl Hs next. destruct (small_log log_stripes ltac:(lia)) as (_ & -> & Hp).
  assert (2 <= 2 ^ log_stripes) by (apply (Z.pow_le_mono_r 2 1); lia).
  rewrite land_mask by lia. pose proof (Z.mod_pos_bound stripe (2 ^ log_stripes)). unfold next.
  rewrite !wrapu_small by (rewrite ?wrapu_small; unfold is_uint; lia).
  split; [done|]. split; [lia|].
  split; [|replace (stripe - 1 + 1) with stripe by lia; lia].
  destruct (decide (stripe = 2 ^ log_stripes)) as [->|]; [rewrite Z.mod_same by lia; lia|].
  rewrite Z.mod_small by lia. lia.
Qed.

Lemma next_stripe_adjacent P q s : 2 <= P -> 0 <= s < P -> q mod P = s ->
  let s' := (s + 1) mod P in
  P * (q / P + (if q mod P <? s' then 0 else 1)) + s' = q + 1.
Proof.
  intros HP Hs Hq s'. pose proof (Z.div_mod q P ltac:(lia)) as Hdm. unfold s'.
  destruct (decide (s + 1 = P)) as [E|].
  - rewrite E, Z.mod_same by lia. destruct (Z.ltb_spec (q mod P) 0); lia.
  - rewrite (Z.mod_small (s + 1)) by lia. destruct (Z.ltb_spec (q mod P) (s + 1)); lia.
Qed.

(** The end of the block's stripe, or the block itself. *)
Lemma next_pruned_value stripe log_stripes seed b H :
  seed_for stripe log_stripes seed -> 0 <= b <= H -> H <= CRYPTONOTE_MAX_BLOCK_NUMBER + 1 ->
  get_next_pruned_block_height b H seed =
    Some (if decide (H <= b + CRYPTONOTE_PRUNING_TIP_BLOCKS) then H
          else if decide (in_stripe stripe log_stripes b)
          then Z.min ((b / CRYPTONOTE_PRUNING_STRIPE_SIZE + 1) * CRYPTONOTE_PRUNING_STRIPE_SIZE)
                     (H - CRYPTONOTE_PRUNING_TIP_BLOCKS)
          else b).
Proof.
  intros (Hl & Hs & Hm) Hb HH. rewrite make_seed_value in Hm by lia. injection Hm as <-.
  destruct (seed_fields stripe log_stripes) as [E1 E2]; [lia|lia|lia|].
  assert (H < 2 ^ 62) by (unfold CRYPTONOTE_MAX_BLOCK_NUMBER in *; lia).
  unfold get_next_pruned_block_height. rewrite E1, E2. cbv zeta. rewrite (tip_no_wrap b) by lia.
  destruct (Z.eqb_spec stripe 0), (Z.eqb_spec log_stripes 0); try lia. cbn [negb].
  rewrite !(block_stripe_value log_stripes b) by lia.
  destruct (Z.leb_spec H (b + CRYPTONOTE_PRUNING_TIP_BLOCKS)); case_decide; try lia; [done|].
  set (q := b / CRYPTONOTE_PRUNING_STRIPE_SIZE).
  destruct (Z.eqb_spec (q mod 2 ^ log_stripes + 1) stripe) as [Eq|Nq]; case_decide as Hin;
    unfold in_stripe in Hin; fold q in Hin; try lia; cbn [negb]; [|done].
  rewrite Eq. destruct (next_stripe_range stripe log_stripes) as (En & Hn & Hne & Hnm); [lia|lia|].
  rewrite En. set (next := 1 + stripe mod 2 ^ log_stripes) in *. clearbody next.
  rewrite (wrapu_small 32 log_stripes) by (unfold is_uint; lia).
  rewrite make_seed_value by lia. cbn [mbind option_bind]. f_equal.
  rewrite (next_unpruned_value next log_stripes); 
    [|split; [lia|]; split; [lia|by apply make_seed_value; lia]|lia|lia].
  cbv zeta. fold q. case_decide; [lia|]. case_decide; [lia|]. do 2 f_equal.
  rewrite <- Hnm. apply next_stripe_adjacent; [apply (Z.pow_le_mono_r 2 1); lia|lia|done].
Qed.

(** ** Properties *)

(** For a seed that names a stripe, [get_next_unpruned_block_height]
    returns the nearest height, at or above the given one, that a peer with
    that seed has: the peer has the block returned and none of those skipped. *)
Theorem next_unpruned_correct stripe log_stripes seed b H :
  seed_for stripe log_stripes seed ->
  0 <= b <= CRYPTONOTE_MAX_BLOCK_NUMBER + 1 -> 0 <= H <= CRYPTONOTE_MAX_BLOCK_NUMBER + 1 ->
  let r := get_next_unpruned_block_height b H seed in
  b <= r /\ has_unpruned_block r H seed = true /\
  forall b', b <= b' < r -> has_unpruned_block b' H seed = false.
Proof.
  intros Hseed Hb HH r. unfold r. rewrite (next_unpruned_value stripe log_stripes) by done. cbv zeta.
  pose proof Hseed as (Hl & Hs & _). destruct (small_log log_stripes ltac:(lia)) as (_ & _ & Hp).
  assert (b < 2 ^ 63 /\ H < 2 ^ 63) by (unfold CRYPTONOTE_MAX_BLOCK_NUMBER in *; lia).
  assert (forall b', 0 <= b' < 2 ^ 63 -> has_unpruned_block b' H seed = true <->
    H <= b' + CRYPTONOTE_PRUNING_TIP_BLOCKS \/ in_stripe stripe log_stripes b') as Hiff
    by (intros; by apply has_unpruned_iff).
  case_decide as Htip; [split; [lia|]; split; [apply Hiff; lia|intros; lia]|].
  case_decide as Hq; [split; [lia|]; split; [apply Hiff; [lia|by right]|intros; lia]|].
  destruct (next_in_cycle (2 ^ log_stripes) (b / CRYPTONOTE_PRUNING_STRIPE_SIZE) (stripe - 1))
    as (Ht & Htm & Hskip); [lia|lia|done|]. set (t := _ + (stripe - 1)) in *. clearbody t.
  assert (b < t * CRYPTONOTE_PRUNING_STRIPE_SIZE) by (unfold CRYPTONOTE_PRUNING_STRIPE_SIZE in *; zdm).
  split; [lia|]. split.
  - apply Hiff; [unfold CRYPTONOTE_PRUNING_TIP_BLOCKS in *; lia|].
    destruct (Z.min_spec (t * CRYPTONOTE_PRUNING_STRIPE_SIZE) (H - CRYPTONOTE_PRUNING_TIP_BLOCKS))
      as [[_ ->]|[_ ->]]; [right|left; lia].
    unfold in_stripe. rewrite Z.div_mul by done. done.
  - intros b' Hb'. apply not_true_iff_false. 
    rewrite Hiff by (unfold CRYPTONOTE_PRUNING_TIP_BLOCKS in *; lia). intros [|Hin]; [lia|].
    apply (Hskip (b' / CRYPTONOTE_PRUNING_STRIPE_SIZE)); [|done].
    unfold CRYPTONOTE_PRUNING_STRIPE_SIZE in *. zdm.
Qed.

(** [get_next_pruned_block_height] returns without throwing, at or above
    the given height; the peer has every block skipped, and the block returned
    is one it has pruned unless no block from the given height on is. *)
Theorem next_pruned_correct stripe log_stripes seed b H :
  seed_for stripe log_stripes seed ->
  0 <= b <= H -> H <= CRYPTONOTE_MAX_BLOCK_NUMBER + 1 ->
  exists r, get_next_pruned_block_height b H seed = Some r /\ b <= r <= H /\
  (forall b', b <= b' < r -> has_unpruned_block b' H seed = true) /\
  (has_unpruned_block r H seed = false \/
   forall b', b <= b' <= H -> has_unpruned_block b' H seed = true).
Proof.
  intros Hseed Hb HH. rewrite (next_pruned_value stripe log_stripes) by done. eexists. split; [done|].
  pose proof Hseed as (Hl & Hs & _).
  assert (H < 2 ^ 62) by (unfold CRYPTONOTE_MAX_BLOCK_NUMBER in *; lia).
  assert (forall b', 0 <= b' < 2 ^ 63 -> has_unpruned_block b' H seed = true <->
    H <= b' + CRYPTONOTE_PRUNING_TIP_BLOCKS \/ in_stripe stripe log_stripes b') as Hiff
    by (intros; by apply has_unpruned_iff).
  case_decide as Htip.
  { split; [lia|]. split; [|right]; intros b' Hb'; apply Hiff; lia. }
  case_decide as Hin.
  2: { split; [lia|]. split; [intros; lia|left]. apply not_true_iff_false. rewrite Hiff by lia. tauto. }
  set (q := b / CRYPTONOTE_PRUNING_STRIPE_SIZE) in *.
  assert (b < (q + 1) * CRYPTONOTE_PRUNING_STRIPE_SIZE) by (unfold q, CRYPTONOTE_PRUNING_STRIPE_SIZE; zdm).
  assert (forall b', b <= b' < (q + 1) * CRYPTONOTE_PRUNING_STRIPE_SIZE -> in_stripe stripe log_stripes b')
    as Hsame.
  { intros b' Hb'. unfold in_stripe. rewrite <- Hin. f_equal. unfold q, CRYPTONOTE_PRUNING_STRIPE_SIZE in *. zdm. }
  split; [unfold CRYPTONOTE_PRUNING_TIP_BLOCKS in *; lia|].
  split; [intros b' Hb'; apply Hiff; [unfold CRYPTONOTE_PRUNING_TIP_BLOCKS in *; lia|right; apply Hsame; lia]|].
  destruct (Z.min_spec ((q + 1) * CRYPTONOTE_PRUNING_STRIPE_SIZE) (H - CRYPTONOTE_PRUNING_TIP_BLOCKS))
    as [[Hlt ->]|[Hge ->]].
  - left. apply not_true_iff_false.
    rewrite Hiff by (unfold CRYPTONOTE_PRUNING_TIP_BLOCKS in *; lia). unfold in_stripe.
    rewrite Z.div_mul by done. intros [|E]; [lia|]. unfold in_stripe in Hin. fold q in Hin.
    destruct (next_stripe_range stripe log_stripes) as (_ & _ & Hne & Hnm); [lia|lia|].
    rewrite <- Z.add_mod_idemp_l, Hin in E by lia. lia.
  - right. intros b' Hb'. apply Hiff; [lia|].
    destruct (decide (b' < (q + 1) * CRYPTONOTE_PRUNING_STRIPE_SIZE)); [right; apply Hsame; lia|left; lia].
Qed.

(** ** Instances *)

Lemma next_unpruned_witness : seed_for 2 3 385 /\
  get_next_unpruned_block_height 10 100000 385 = 4096 /\ has_unpruned_block 4096 100000 385 = true.
Proof.
  assert (seed_for 2 3 385) as Hs by (split; [lia|]; split; [lia|by vm_compute]).
  split; [done|]. split; [by vm_compute|].
  pose proof (next_unpruned_correct 2 3 385 10 100000 Hs ltac:(done) ltac:(done)) as (_ & H & _). done.
Defined.

Lemma next_pruned_witness : seed_for 2 3 385 /\
  get_next_pruned_block_height 5000 100000 385 = Some 8192 /\ has_unpruned_block 8192 100000 385 = false.
Proof.
  assert (seed_for 2 3 385) as Hs by (split; [lia|]; split; [lia|by vm_compute]).
  split; [done|].
  destruct (next_pruned_correct 2 3 385 5000 100000 Hs ltac:(done) ltac:(done)) as (r & Hr & _ & _ & H).
  vm_compute in Hr. injection Hr as <-. split; [by vm_compute|].
  destruct H as [H|H]; [done|]. by vm_compute.
Defined.
