(* ===== verification/Median.v ===== *)
(** * Medians

    [contrib/epee/include/misc_language.h]: [get_mid] and [median] of a
    vector; [contrib/epee/include/rolling_median.h]: the median of the last
    [N] values, kept up to date in a circular queue whose indexes sit in two
    heaps around a median cell.  The source instantiates both at [uint64_t].

    The theorem is that the rolling structure, after any sequence of
    insertions, gives the median of the last [N] values inserted. *)

From Stdlib Require Import Zwf.
From S2P Require Import Prelude.

(** ** Definitions *)

(** [(a/2) + (b/2) + ((a - 2*(a/2)) + (b - 2*(b/2)))/2] on [uint64_t]. *)
Definition get_mid (a b : Z) : Z :=
  u64 (u64 (a / 2 + b / 2)
       + u64 (u64 (a - u64 (2 * (a / 2))) + u64 (b - u64 (2 * (b / 2)))) / 2).

Definition median (v : list Z) : Z :=
  match v with
  | [] => 0
  | [x] => x
  | _ =>
      let n := (length v / 2)%nat in
      let v := merge_sort Z.le v in
      if (length v mod 2 =? 0)%nat then get_mid (nth (n - 1) v 0) (nth n v 0) else nth n v 0
  end.

(** [heap] points at the middle of its storage: the cell of index [i] is at
    offset [i + N / 2].  The indexes and counts are [int] in the source and
    never exceed [N]; the size of the storage, [16 * N] bytes, is an [int] too,
    so the class is meant for [N] below 2^27 (the chain uses 100000). *)
Record rolling_median_t := RM {
  rm_data : list Z;   (* circular queue of values *)
  rm_pos : list Z;    (* index into heap for each value *)
  rm_heap : list Z;   (* max/median/min heap of indexes into data *)
  rm_N : Z;
  rm_idx : Z;         (* position in the circular queue *)
  rm_minCt : Z;
  rm_maxCt : Z;
  rm_sz : Z;
}.

Definition heap_at (s : rolling_median_t) (i : Z) : Z :=
  nth (Z.to_nat (i + rm_N s / 2)) (rm_heap s) 0.
Definition pos_at (s : rolling_median_t) (k : Z) : Z := nth (Z.to_nat k) (rm_pos s) 0.

(** [data[heap[i]]]. *)
Definition val (s : rolling_median_t) (i : Z) : Z := nth (Z.to_nat (heap_at s i)) (rm_data s) 0.

Definition set_heap (s : rolling_median_t) (i x : Z) : rolling_median_t :=
  RM (rm_data s) (rm_pos s) (<[Z.to_nat (i + rm_N s / 2) := x]> (rm_heap s)) (rm_N s) (rm_idx s)
    (rm_minCt s) (rm_maxCt s) (rm_sz s).
Definition set_pos (s : rolling_median_t) (k x : Z) : rolling_median_t :=
  RM (rm_data s) (<[Z.to_nat k := x]> (rm_pos s)) (rm_heap s) (rm_N s) (rm_idx s)
    (rm_minCt s) (rm_maxCt s) (rm_sz s).

Definition mmless (s : rolling_median_t) (i j : Z) : bool := val s i <? val s j.

Definition mmexchange (s : rolling_median_t) (i j : Z) : rolling_median_t :=
  let t := heap_at s i in
  let s := set_heap s i (heap_at s j) in
  let s := set_heap s j t in
  let s := set_pos s (heap_at s i) i in
  set_pos s (heap_at s j) j.

Definition mmCmpExch (s : rolling_median_t) (i j : Z) : rolling_median_t * bool :=
  if mmless s i j then (mmexchange s i j, true) else (s, false).

(** The loops below move to a child or to a parent in each round: [N] rounds
    are more than they take. *)
Fixpoint minSortDown_loop (fuel : nat) (s : rolling_median_t) (i : Z) : option rolling_median_t :=
  if i <=? rm_minCt s then
    match fuel with
    | O => None
    | S fuel =>
        let i := if (i <? rm_minCt s) && mmless s (i + 1) i then i + 1 else i in
        let '(s, swapped) := mmCmpExch s i (Z.quot i 2) in
        if swapped then minSortDown_loop fuel s (i * 2) else Some s
    end
  else Some s.

Definition minSortDown (s : rolling_median_t) (i : Z) : option rolling_median_t :=
  minSortDown_loop (Z.to_nat (rm_N s)) s (i * 2).

Fixpoint maxSortDown_loop (fuel : nat) (s : rolling_median_t) (i : Z) : option rolling_median_t :=
  if - rm_maxCt s <=? i then
    match fuel with
    | O => None
    | S fuel =>
        let i := if (- rm_maxCt s <? i) && mmless s i (i - 1) then i - 1 else i in
        let '(s, swapped) := mmCmpExch s (Z.quot i 2) i in
        if swapped then maxSortDown_loop fuel s (i * 2) else Some s
    end
  else Some s.

Definition maxSortDown (s : rolling_median_t) (i : Z) : option rolling_median_t :=
  maxSortDown_loop (Z.to_nat (rm_N s)) s (i * 2).

Fixpoint minSortUp_loop (fuel : nat) (s : rolling_median_t) (i : Z) : option (rolling_median_t * Z) :=
  if 0 <? i then
    let '(s, swapped) := mmCmpExch s i (Z.quot i 2) in
    if swapped then
      match fuel with O => None | S fuel => minSortUp_loop fuel s (Z.quot i 2) end
    else Some (s, i)
  else Some (s, i).

(** The state, and whether the median changed. *)
Definition minSortUp (s : rolling_median_t) (i : Z) : option (rolling_median_t * bool) :=
  '(s, i) ← minSortUp_loop (Z.to_nat (rm_N s)) s i; Some (s, i =? 0).

Fixpoint maxSortUp_loop (fuel : nat) (s : rolling_median_t) (i : Z) : option (rolling_median_t * Z) :=
  if i <? 0 then
    let '(s, swapped) := mmCmpExch s (Z.quot i 2) i in
    if swapped then
      match fuel with O => None | S fuel => maxSortUp_loop fuel s (Z.quot i 2) end
    else Some (s, i)
  else Some (s, i).

Definition maxSortUp (s : rolling_median_t) (i : Z) : option (rolling_median_t * bool) :=
  '(s, i) ← maxSortUp_loop (Z.to_nat (rm_N s)) s i; Some (s, i =? 0).

(** The initial fill pattern: median, max, min, max, ... *)
Definition init_pos (k : Z) : Z := Z.quot (k + 1) 2 * (if Z.odd k then -1 else 1).

(** [while (nItems--)]. *)
Fixpoint clear_loop (nItems : nat) (s : rolling_median_t) : rolling_median_t :=
  match nItems with
  | O => s
  | S n =>
      let k := Z.of_nat n in
      let s := set_pos s k (init_pos k) in
      clear_loop n (set_heap s (pos_at s k) k)
  end.

Definition clear (s : rolling_median_t) : rolling_median_t :=
  clear_loop (Z.to_nat (rm_N s)) (RM (rm_data s) (rm_pos s) (rm_heap s) (rm_N s) 0 0 0 0).

(** The constructor, with what [malloc] left in the three arrays. *)
Definition rolling_median_new (data pos heap : list Z) (N : Z) : rolling_median_t :=
  clear (RM data pos heap N 0 0 0 0).

Definition size (s : rolling_median_t) : Z := rm_sz s.

(** [data[idx] = v; idx = (idx + 1) % N; sz = min(sz + 1, N)]. *)
Definition enqueue (s : rolling_median_t) (v : Z) : rolling_median_t :=
  RM (<[Z.to_nat (rm_idx s) := v]> (rm_data s)) (rm_pos s) (rm_heap s) (rm_N s)
    (Z.rem (rm_idx s + 1) (rm_N s)) (rm_minCt s) (rm_maxCt s) (Z.min (rm_sz s + 1) (rm_N s)).
Definition with_counts (s : rolling_median_t) (minCt maxCt : Z) : rolling_median_t :=
  RM (rm_data s) (rm_pos s) (rm_heap s) (rm_N s) (rm_idx s) minCt maxCt (rm_sz s).

(** [if (minSortUp(p) && mmCmpExch(0, -1)) maxSortDown(-1)], and its mirror. *)
Definition raise_min (s : rolling_median_t) (p : Z) : option rolling_median_t :=
  '(s, changed) ← minSortUp s p;
  if changed : bool then
    let '(s, swapped) := mmCmpExch s 0 (-1) in
    if swapped then maxSortDown s (-1) else Some s
  else Some s.
Definition raise_max (s : rolling_median_t) (p : Z) : option rolling_median_t :=
  '(s, changed) ← maxSortUp s p;
  if changed && negb (rm_minCt s =? 0) then
    let '(s, swapped) := mmCmpExch s 1 0 in
    if swapped then minSortDown s 1 else Some s
  else Some s.

(** The new value at the median cell. *)
Definition settle (s : rolling_median_t) : option rolling_median_t :=
  s ← (if negb (rm_maxCt s =? 0) then
         '(s, changed) ← maxSortUp s (-1);
         if changed : bool then maxSortDown s (-1) else Some s
       else Some s);
  if negb (rm_minCt s =? 0) then
    '(s, changed) ← minSortUp s 1;
    if changed : bool then minSortDown s 1 else Some s
  else Some s.

Definition insert (s : rolling_median_t) (v : Z) : option rolling_median_t :=
  let p := pos_at s (rm_idx s) in
  let old := nth (Z.to_nat (rm_idx s)) (rm_data s) 0 in
  let s := enqueue s v in
  if 0 <? p then
    if rm_minCt s <? Z.quot (rm_N s - 1) 2
    then raise_min (with_counts s (rm_minCt s + 1) (rm_maxCt s)) p
    else if old <? v then minSortDown s p
    else raise_min s p
  else if p <? 0 then
    if rm_maxCt s <? Z.quot (rm_N s) 2
    then raise_max (with_counts s (rm_minCt s) (rm_maxCt s + 1)) p
    else if v <? old then maxSortDown s p
    else raise_max s p
  else settle s.

Definition rm_median (s : rolling_median_t) : Z :=
  let v := val s 0 in
  if rm_minCt s <? rm_maxCt s then get_mid v (val s (-1)) else v.

(** Values inserted one after the other. *)
Fixpoint insert_all (s : rolling_median_t) (vs : list Z) : option rolling_median_t :=
  match vs with [] => Some s | v :: vs => s ← insert s v; insert_all s vs end.

(** ** Heaps

    A heap as a function [W] of the cell: cell 0 is the root (the median),
    the parent of [j] is [j / 2] (so cell 1 is the only child of the root). *)

Definition heap_ok (W : Z -> Z) (n : Z) : Prop := forall j, 1 <= j <= n -> W (j / 2) <= W j.

(** In order but for the children of [i], which are above its parent. *)
Definition down_ok (W : Z -> Z) (n i : Z) : Prop :=
  (forall j, 1 <= j <= n -> j / 2 <> i -> W (j / 2) <= W j) /\
  (forall j, 1 <= j <= n -> j / 2 = i -> W (i / 2) <= W j).

(** In order but for [i] and its parent. *)
Definition up_ok (W : Z -> Z) (n i : Z) : Prop :=
  (forall j, 1 <= j <= n -> j <> i -> W (j / 2) <= W j) /\
  (forall j, 1 <= j <= n -> j / 2 = i -> 1 <= i -> W (i / 2) <= W j).

Definition swap_at (W W' : Z -> Z) (n a b : Z) : Prop :=
  W' a = W b /\ W' b = W a /\ forall j, 0 <= j <= n -> j <> a -> j <> b -> W' j = W j.

Lemma half_lt j : 1 <= j -> 0 <= j / 2 < j.
Proof. intros. zdm. Qed.

Lemma down_step W W' n i c :
  1 <= i -> c / 2 = i -> c <= n -> down_ok W n i -> W c < W i ->
  (forall j, 1 <= j <= n -> j / 2 = i -> W c <= W j) -> swap_at W W' n i c -> down_ok W' n c.
Proof.
  intros Hi Hc Hcn [H1 H2] Hlt Hmin (Ei & Ec & Eo). assert (i < c) by zdm. split.
  - intros j Hj Hp. pose proof (half_lt j ltac:(lia)).
    destruct (decide (j / 2 = i)) as [Ep|Np].
    + rewrite Ep, Ei. destruct (decide (j = c)) as [->|]; [lia|].
      rewrite Eo by lia. by apply Hmin.
    + assert (j <> c) by congruence. rewrite (Eo (j / 2)) by lia.
      destruct (decide (j = i)) as [->|]; [rewrite Ei; apply H2; [lia|done]|].
      rewrite Eo by lia. by apply H1.
  - intros j Hj Hp. rewrite Hc, Ei. pose proof (half_lt j ltac:(lia)).
    rewrite Eo by lia. rewrite <- Hp at 1. apply H1; [lia|congruence || lia].
Qed.

Lemma down_stop W n i : down_ok W n i ->
  (forall j, 1 <= j <= n -> j / 2 = i -> W i <= W j) -> heap_ok W n.
Proof.
  intros [H1 _] Hc j Hj. destruct (decide (j / 2 = i)) as [E|]; [rewrite E; by apply Hc|by apply H1].
Qed.

Lemma up_step W W' n i :
  1 <= i <= n -> up_ok W n i -> W i < W (i / 2) -> swap_at W W' n i (i / 2) -> up_ok W' n (i / 2).
Proof.
  intros Hi [H1 H2] Hlt (Ei & Ep & Eo). pose proof (half_lt i ltac:(lia)) as Hh. split.
  - intros j Hj Hp. pose proof (half_lt j ltac:(lia)).
    destruct (decide (j = i)) as [->|]; [lia|]. rewrite (Eo j) by lia.
    destruct (decide (j / 2 = i)) as [E|]; [rewrite E, Ei; apply H2; lia|].
    destruct (decide (j / 2 = i / 2)) as [E|].
    + rewrite E, Ep. specialize (H1 j Hj ltac:(done)). rewrite E in H1. lia.
    + rewrite Eo by lia. apply H1; lia.
  - intros j Hj Hp Hp1. pose proof (half_lt (i / 2) ltac:(lia)). rewrite (Eo (i / 2 / 2)) by lia.
    specialize (H1 (i / 2) ltac:(lia) ltac:(lia)) as Hq.
    destruct (decide (j = i)) as [->|]; [by rewrite Ei|].
    pose proof (half_lt j ltac:(lia)). rewrite Eo by lia.
    specialize (H1 j Hj ltac:(done)). rewrite Hp in H1. lia.
Qed.

Lemma up_stop W n i : up_ok W n i -> (i = 0 \/ W (i / 2) <= W i) -> heap_ok W n.
Proof.
  intros [H1 _] Hi j Hj. destruct (decide (j = i)) as [->|]; [|by apply H1].
  destruct Hi; [lia|done].
Qed.

(** The root is below every cell in order. *)
Lemma up_root W n i j : up_ok W n i -> i <> 0 -> 0 <= j <= n -> j <> i -> 0 <= i -> W 0 <= W j.
Proof.
  intros [H1 H2] Hi Hj Hji Hi0. revert Hj Hji. induction (Zwf_well_founded 0 j) as [j _ IH]; intros Hj Hji.
  destruct (decide (j = 0)) as [->|]; [lia|]. pose proof (half_lt j ltac:(lia)) as Hh.
  destruct (decide (j / 2 = i)) as [E|].
  - specialize (H2 j ltac:(lia) E ltac:(lia)). pose proof (half_lt i ltac:(lia)).
    specialize (IH (i / 2) ltac:(unfold Zwf; lia) ltac:(lia) ltac:(lia)). lia.
  - specialize (H1 j ltac:(lia) Hji). specialize (IH (j / 2) ltac:(unfold Zwf; lia) ltac:(lia) ltac:(done)). lia.
Qed.

Lemma heap_root W n j : heap_ok W n -> 0 <= j <= n -> W 0 <= W j.
Proof.
  intros H Hj. revert Hj. induction (Zwf_well_founded 0 j) as [j _ IH]; intros Hj.
  destruct (decide (j = 0)) as [->|]; [lia|]. pose proof (half_lt j ltac:(lia)) as Hh.
  specialize (H j ltac:(lia)). specialize (IH (j / 2) ltac:(unfold Zwf; lia) ltac:(lia)). lia.
Qed.

Lemma heap_top W n j : heap_ok W n -> 1 <= j <= n -> W 1 <= W j.
Proof.
  intros H Hj. revert Hj. induction (Zwf_well_founded 0 j) as [j _ IH]; intros Hj.
  destruct (decide (j = 1)) as [->|]; [lia|]. assert (1 <= j / 2 < j) by zdm.
  specialize (H j ltac:(lia)). specialize (IH (j / 2) ltac:(unfold Zwf; lia) ltac:(lia)). lia.
Qed.

(** ** The index arrays

    [heap] and [pos] are inverse to each other: cell [x] of the heap, from
    [-(N/2)] to [(N-1)/2], holds the queue index whose position is [x]. *)

Definition cell (s : rolling_median_t) (x : Z) : Prop := - (rm_N s / 2) <= x <= (rm_N s - 1) / 2.

Record perm_ok (s : rolling_median_t) : Prop := {
  perm_N : 0 < rm_N s;
  perm_data : Z.of_nat (length (rm_data s)) = rm_N s;
  perm_pos : Z.of_nat (length (rm_pos s)) = rm_N s;
  perm_heap : Z.of_nat (length (rm_heap s)) = rm_N s;
  perm_cell : forall x, cell s x -> 0 <= heap_at s x < rm_N s /\ pos_at s (heap_at s x) = x;
  perm_index : forall k, 0 <= k < rm_N s -> cell s (pos_at s k) /\ heap_at s (pos_at s k) = k;
}.

Lemma cell_offset s x : 0 < rm_N s -> cell s x -> 0 <= x + rm_N s / 2 < rm_N s.
Proof. unfold cell. intros. zdm. Qed.

(** [s'] is [s] with other [heap] and [pos]. *)
Record same_queue (s s' : rolling_median_t) : Prop := {
  same_data : rm_data s' = rm_data s;
  same_N : rm_N s' = rm_N s;
  same_idx : rm_idx s' = rm_idx s;
  same_min : rm_minCt s' = rm_minCt s;
  same_max : rm_maxCt s' = rm_maxCt s;
  same_sz : rm_sz s' = rm_sz s;
}.

Record swapped (a b : Z) (s s' : rolling_median_t) : Prop := {
  swapped_queue : same_queue s s';
  swapped_perm : perm_ok s';
  swapped_a : heap_at s' a = heap_at s b;
  swapped_b : heap_at s' b = heap_at s a;
  swapped_other : forall x, cell s x -> x <> a -> x <> b -> heap_at s' x = heap_at s x;
}.

Lemma heap_at_set s i x j : 0 < rm_N s -> Z.of_nat (length (rm_heap s)) = rm_N s ->
  cell s i -> cell s j -> heap_at (set_heap s i x) j = if decide (i = j) then x else heap_at s j.
Proof.
  intros HN Hl Hi Hj. unfold heap_at, set_heap. cbn [rm_heap rm_N].
  pose proof (cell_offset s i HN Hi). pose proof (cell_offset s j HN Hj).
  rewrite nth_insert by lia. repeat case_decide; try done; lia.
Qed.

Lemma pos_at_set s k x j : Z.of_nat (length (rm_pos s)) = rm_N s ->
  0 <= k < rm_N s -> 0 <= j -> pos_at (set_pos s k x) j = if decide (k = j) then x else pos_at s j.
Proof.
  intros Hl Hk Hj. unfold pos_at, set_pos. cbn [rm_pos]. rewrite nth_insert by lia.
  repeat case_decide; try done; lia.
Qed.

Lemma exchange_heap s i j x : perm_ok s -> cell s i -> cell s j -> cell s x ->
  heap_at (mmexchange s i j) x =
    if decide (x = j) then heap_at s i else if decide (x = i) then heap_at s j else heap_at s x.
Proof.
  intros [HN _ _ Hh _ _] Hi Hj Hx. unfold mmexchange.
  set (s1 := set_heap s i _). set (s2 := set_heap s1 j _).
  change (heap_at (set_pos _ _ _) x) with (heap_at s2 x). unfold s2.
  rewrite heap_at_set by (unfold s1; cbn; rewrite ?length_insert; done). unfold s1.
  rewrite heap_at_set by done. repeat case_decide; congruence.
Qed.

Lemma exchange_pos s i j k : perm_ok s -> cell s i -> cell s j -> i <> j -> 0 <= k < rm_N s ->
  pos_at (mmexchange s i j) k =
    if decide (pos_at s k = i) then j else if decide (pos_at s k = j) then i else pos_at s k.
Proof.
  intros Hok Hi Hj Hne Hk.
  pose proof (exchange_heap s i j i Hok Hi Hj Hi) as Ei. pose proof (exchange_heap s i j j Hok Hi Hj Hj) as Ej.
  destruct Hok as [HN Hd Hp Hh Hc Hx]. destruct (Hc i Hi) as [Hri Hpi], (Hc j Hj) as [Hrj Hpj].
  destruct (Hx k Hk) as [_ Hpk].
  rewrite decide_False, decide_True in Ei by done. rewrite decide_True in Ej by done.
  unfold mmexchange in *.
  set (s2 := set_heap (set_heap s i _) j _) in *. change (heap_at s2 i = heap_at s j) in Ei.
  change (heap_at (set_pos s2 (heap_at s2 i) i) j) with (heap_at s2 j) in *.
  change (heap_at s2 j = heap_at s i) in Ej. rewrite Ei, Ej.
  rewrite pos_at_set by (cbn; rewrite ?length_insert; lia).
  rewrite pos_at_set by (cbn; rewrite ?length_insert; lia).
  change (pos_at s2 k) with (pos_at s k). repeat case_decide; congruence.
Qed.

Lemma mmexchange_swapped s i j : perm_ok s -> cell s i -> cell s j -> i <> j ->
  swapped i j s (mmexchange s i j).
Proof.
  intros Hok Hi Hj Hne.
  pose proof (fun x => exchange_heap s i j x Hok Hi Hj) as Eh.
  pose proof (fun k => exchange_pos s i j k Hok Hi Hj Hne) as Ep.
  assert (same_queue s (mmexchange s i j)) as Hq by done.
  split; [done| | | |].
  - pose proof Hok as [HN Hd Hp Hh Hc Hx].
    split; try done; [cbn; by rewrite !length_insert|cbn; by rewrite !length_insert| |].
    + intros x Hxc. change (cell s x) in Hxc. change (rm_N (mmexchange s i j)) with (rm_N s).
      rewrite Eh by done. destruct (Hc i Hi), (Hc j Hj), (Hc x Hxc).
      repeat case_decide; subst; (split; [done|]); rewrite Ep by done; repeat case_decide; congruence.
    + intros k Hk. change (rm_N (mmexchange s i j)) with (rm_N s) in Hk. destruct (Hx k Hk) as [Hck Hhk].
      change (cell (mmexchange s i j)) with (cell s). rewrite Ep by done.
      repeat case_decide; (split; [done|]); rewrite Eh by done; repeat case_decide; congruence.
  - rewrite Eh by done. repeat case_decide; congruence.
  - rewrite Eh by done. repeat case_decide; congruence.
  - intros x Hx Ha Hb. rewrite Eh by done. repeat case_decide; congruence.
Qed.

Lemma swapped_sym a b s s' : swapped a b s s' -> swapped b a s s'.
Proof. intros [? ? ? ? H]. split; try done. intros x Hx ? ?. by apply H. Qed.

(** [s'] is [s] with the cells from [lo] to [hi] permuted. *)
Record moved (lo hi : Z) (s s' : rolling_median_t) : Prop := {
  moved_queue : same_queue s s';
  moved_perm : perm_ok s';
  moved_other : forall x, cell s x -> ~ lo <= x <= hi -> heap_at s' x = heap_at s x;
}.

Lemma same_queue_trans s1 s2 s3 : same_queue s1 s2 -> same_queue s2 s3 -> same_queue s1 s3.
Proof. intros [] []. split; congruence. Qed.

Lemma same_cell s s' x : same_queue s s' -> cell s' x <-> cell s x.
Proof. intros []. unfold cell. by rewrite same_N0. Qed.

Lemma moved_refl lo hi s : perm_ok s -> moved lo hi s s.
Proof. intros. by split. Qed.

Lemma moved_trans lo hi s1 s2 s3 : moved lo hi s1 s2 -> moved lo hi s2 s3 -> moved lo hi s1 s3.
Proof.
  intros [Q1 P1 O1] [Q2 P2 O2]. split; [by eapply same_queue_trans|done|].
  intros x Hx Hn. rewrite O2 by (by rewrite ?(same_cell s1)). by apply O1.
Qed.

Lemma moved_weaken lo hi lo' hi' s s' : lo' <= lo -> hi <= hi' -> moved lo hi s s' -> moved lo' hi' s s'.
Proof. intros ? ? [Q P O]. split; [done|done|]. intros x Hx Hn. apply O; [done|lia]. Qed.

Lemma swapped_moved lo hi a b s s' : lo <= a <= hi -> lo <= b <= hi -> swapped a b s s' -> moved lo hi s s'.
Proof.
  intros Ha Hb [Q P _ _ O]. split; [done|done|]. intros x Hx Hn.
  apply O; [done|intros ->; lia|intros ->; lia].
Qed.

(** A cell of the permuted range holds what another one held. *)
Lemma moved_from lo hi s s' x : perm_ok s -> moved lo hi s s' -> cell s x -> lo <= x <= hi ->
  exists y, lo <= y <= hi /\ cell s y /\ heap_at s y = heap_at s' x.
Proof.
  intros [_ _ _ _ Hc Hi] [Q [_ _ _ _ Hc' Hi'] O] Hx Hr.
  rewrite <- (same_cell s s') in Hx by done. destruct (Hc' x Hx) as [Hk Hp].
  rewrite (same_N s s') in Hk by done. destruct (Hi _ Hk) as [Hcy Hhy].
  exists (pos_at s (heap_at s' x)). split; [|done].
  destruct (decide (lo <= pos_at s (heap_at s' x) <= hi)) as [|Hn]; [done|].
  specialize (O _ Hcy Hn). rewrite Hhy in O.
  destruct (Hc' (pos_at s (heap_at s' x))) as [_ Hp2]; [by rewrite (same_cell s s') by done|].
  rewrite O, Hp in Hp2. lia.
Qed.

(** *** The two sides

    The max heap is a min heap of the opposite values at opposite cells. *)

Definition side (s : rolling_median_t) (sigma j : Z) : Z := sigma * val s (sigma * j).

Definition reach (s : rolling_median_t) (sigma n : Z) : Prop :=
  (sigma = 1 \/ sigma = -1) /\ forall j, 0 <= j <= n -> cell s (sigma * j).

Lemma val_same s s' x y : same_queue s s' -> heap_at s' x = heap_at s y -> val s' x = val s y.
Proof. intros [Hd _ _ _ _ _] E. unfold val. by rewrite E, Hd. Qed.

Lemma swapped_side s s' sigma n a b : reach s sigma n -> 0 <= a <= n -> 0 <= b <= n ->
  swapped (sigma * a) (sigma * b) s s' -> swap_at (side s sigma) (side s' sigma) n a b.
Proof.
  intros [Hs Hc] Ha Hb [Q P Ea Eb Eo]. unfold side.
  split; [f_equal; by apply val_same|]. split; [f_equal; by apply val_same|].
  intros j Hj Hja Hjb. f_equal. apply val_same; [done|]. apply Eo; [by apply Hc|lia|lia].
Qed.

Lemma reach_same s s' sigma n : same_queue s s' -> reach s sigma n -> reach s' sigma n.
Proof. intros Q [Hs Hc]. split; [done|]. intros j Hj. rewrite same_cell by done. by apply Hc. Qed.

Lemma pick_child W n i :
  let c := if (2 * i <? n) && (W (2 * i + 1) <? W (2 * i)) then 2 * i + 1 else 2 * i in
  1 <= i -> 2 * i <= n -> c / 2 = i /\ i < c <= n /\ forall j, 1 <= j <= n -> j / 2 = i -> W c <= W j.
Proof.
  intros c Hi Hn. unfold c.
  destruct (Z.ltb_spec (2 * i) n), (Z.ltb_spec (W (2 * i + 1)) (W (2 * i))); cbn [andb];
    (split; [zdm|]); (split; [lia|]); intros j Hj Hjp;
    assert (j = 2 * i \/ j = 2 * i + 1) as [->| ->] by zdm; lia.
Qed.

(** One round of a sift down: the smaller child goes up and the hole down. *)
Lemma down_round s s' sigma n i c :
  reach s sigma n -> 1 <= i -> c / 2 = i -> i < c <= n -> down_ok (side s sigma) n i ->
  (forall j, 1 <= j <= n -> j / 2 = i -> side s sigma c <= side s sigma j) ->
  side s sigma c < side s sigma i -> swapped (sigma * i) (sigma * c) s s' ->
  down_ok (side s' sigma) n c.
Proof.
  intros Hr Hi Hc Hcn Hd Hmin Hlt Hsw. eapply (down_step (side s sigma)); try done; [lia|].
  apply swapped_side; [done|lia|lia|done].
Qed.

Lemma quot_half x : 0 <= x -> Z.quot x 2 = x / 2 /\ Z.quot (- x) 2 = - (x / 2).
Proof. intros Hx. rewrite Z.quot_opp_l by lia. by rewrite Z.quot_div_nonneg by lia. Qed.

Lemma minSortDown_loop_spec n fuel s i :
  perm_ok s -> rm_minCt s = n -> reach s 1 n -> 1 <= i <= n -> (Z.to_nat (n - i) <= fuel)%nat ->
  down_ok (side s 1) n i ->
  exists s', minSortDown_loop fuel s (i * 2) = Some s' /\ moved 1 n s s' /\ heap_ok (side s' 1) n.
Proof.
  revert s i; induction fuel as [|fuel IH]; intros s i Hok Hn Hr Hi Hf Hd; cbn [minSortDown_loop]; rewrite Hn;
    (destruct (Z.leb_spec (i * 2) n) as [Hle|Hgt];
      [|exists s; split; [done|]; split; [by apply moved_refl|]; apply (down_stop _ n i Hd); intros; zdm]);
    [lia|].
  rewrite (Z.mul_comm i 2).
  replace (mmless s (2 * i + 1) (2 * i)) with (side s 1 (2 * i + 1) <? side s 1 (2 * i))
    by (unfold side, mmless; by rewrite !Z.mul_1_l).
  destruct (pick_child (side s 1) n i) as (Hc & Hcn & Hmin); [lia|lia|].
  set (c := if _ && _ then 2 * i + 1 else 2 * i) in *. clearbody c. unfold mmCmpExch.
  destruct (quot_half c) as [-> _]; [lia|]. rewrite Hc. unfold mmless.
  destruct (Z.ltb_spec (val s c) (val s i)) as [Hlt|Hge].
  - pose proof (mmexchange_swapped s c i Hok) as Hsw. destruct Hr as [Hsg Hcell].
    pose proof (Hcell c ltac:(lia)) as Hcc. pose proof (Hcell i ltac:(lia)) as Hci. rewrite Z.mul_1_l in Hcc, Hci.
    specialize (Hsw Hcc Hci ltac:(lia)). apply swapped_sym in Hsw.
    set (s1 := mmexchange s c i) in *. clearbody s1. pose proof Hsw as [Q P _ _ _].
    destruct (IH s1 c) as (s' & -> & Hm & Hh); [done|by rewrite same_min with (s := s)| |lia|lia| |].
    + by apply (reach_same s).
    + eapply (down_round s s1 1 n i c); try done; [lia|unfold side; rewrite !Z.mul_1_l; lia|by rewrite !Z.mul_1_l].
    + exists s'. split; [done|]. split; [|done]. eapply moved_trans; [|exact Hm].
      eapply swapped_moved; [| |exact Hsw]; lia.
  - exists s. split; [done|]. split; [by apply moved_refl|]. apply (down_stop _ n i Hd).
    intros j Hj Hjp. specialize (Hmin j Hj Hjp). unfold side in *. rewrite !Z.mul_1_l in *. lia.
Qed.

Lemma maxSortDown_loop_spec n fuel s i :
  perm_ok s -> rm_maxCt s = n -> reach s (-1) n -> 1 <= i <= n -> (Z.to_nat (n - i) <= fuel)%nat ->
  down_ok (side s (-1)) n i ->
  exists s', maxSortDown_loop fuel s (- i * 2) = Some s' /\ moved (- n) (-1) s s' /\ heap_ok (side s' (-1)) n.
Proof.
  revert s i; induction fuel as [|fuel IH]; intros s i Hok Hn Hr Hi Hf Hd; cbn [maxSortDown_loop]; rewrite Hn;
    (destruct (Z.leb_spec (- n) (- i * 2)) as [Hle|Hgt];
      [|exists s; split; [done|]; split; [by apply moved_refl|]; apply (down_stop _ n i Hd); intros; zdm]);
    [lia|].
  replace ((- n <? - i * 2) && mmless s (- i * 2) (- i * 2 - 1))
    with ((2 * i <? n) && (side s (-1) (2 * i + 1) <? side s (-1) (2 * i))).
  2: { unfold side, mmless. replace (-1 * (2 * i + 1)) with (- i * 2 - 1) by lia.
       replace (-1 * (2 * i)) with (- i * 2) by lia. f_equal; repeat bcase; lia. }
  destruct (pick_child (side s (-1)) n i) as (Hc & Hcn & Hmin); [lia|lia|].
  replace (if (2 * i <? n) && _ then - i * 2 - 1 else - i * 2)
    with (- (if (2 * i <? n) && (side s (-1) (2 * i + 1) <? side s (-1) (2 * i)) then 2 * i + 1 else 2 * i))
    by (destruct (_ && _); lia).
  set (c := if _ && _ then 2 * i + 1 else 2 * i) in *. clearbody c. unfold mmCmpExch.
  destruct (quot_half c) as [_ ->]; [lia|]. rewrite Hc. unfold mmless.
  assert (forall j, side s (-1) j = - val s (- j)) as Eside
    by (intros; unfold side; replace (-1 * j) with (- j) by lia; lia).
  destruct (Z.ltb_spec (val s (- i)) (val s (- c))) as [Hlt|Hge].
  - pose proof (mmexchange_swapped s (- i) (- c) Hok) as Hsw. destruct Hr as [Hsg Hcell].
    pose proof (Hcell c ltac:(lia)) as Hcc. pose proof (Hcell i ltac:(lia)) as Hci.
    replace (-1 * c) with (- c) in Hcc by lia. replace (-1 * i) with (- i) in Hci by lia.
    specialize (Hsw Hci Hcc ltac:(lia)).
    set (s1 := mmexchange s (- i) (- c)) in *. clearbody s1. pose proof Hsw as [Q P _ _ _].
    destruct (IH s1 c) as (s' & -> & Hm & Hh); [done|by rewrite same_max with (s := s)| |lia|lia| |].
    + by apply (reach_same s).
    + eapply (down_round s s1 (-1) n i c); try done; [lia|rewrite !Eside; lia].
    + exists s'. split; [done|]. split; [|done]. eapply moved_trans; [|exact Hm].
      eapply swapped_moved; [| |exact Hsw]; lia.
  - exists s. split; [done|]. split; [by apply moved_refl|]. apply (down_stop _ n i Hd).
    intros j Hj Hjp. specialize (Hmin j Hj Hjp). rewrite !Eside in *. lia.
Qed.

(** *** Sifting up *)

(** The value sifted from [i] ends at [i'], and the root changes only if [i'] is 0. *)
Definition raised (s s' : rolling_median_t) (sigma n i i' : Z) : Prop :=
  heap_ok (side s' sigma) n /\ 0 <= i' <= i /\ heap_at s' (sigma * i') = heap_at s (sigma * i) /\
  (i' <> 0 -> heap_at s' 0 = heap_at s 0).

Lemma raised_step s s1 s' sigma n i i' : (sigma = 1 \/ sigma = -1) -> 1 <= i ->
  swapped (sigma * i) (sigma * (i / 2)) s s1 -> cell s 0 -> raised s1 s' sigma n (i / 2) i' -> raised s s' sigma n i i'.
Proof.
  intros Hsg Hi [Q P Ea Eb Eo] H0 (Hh & Hr & Hheap & Hroot). pose proof (half_lt i Hi).
  split; [done|]. split; [lia|]. split; [by rewrite Hheap, Eb|].
  intros Hne. rewrite Hroot by done. apply Eo; [done|lia|lia].
Qed.

Lemma up_round s s' sigma n i :
  reach s sigma n -> 1 <= i <= n -> up_ok (side s sigma) n i ->
  side s sigma i < side s sigma (i / 2) -> swapped (sigma * i) (sigma * (i / 2)) s s' ->
  up_ok (side s' sigma) n (i / 2).
Proof.
  intros Hr Hi Hup Hlt Hsw. eapply (up_step (side s sigma)); try done.
  pose proof (half_lt i ltac:(lia)). apply swapped_side; [done|lia|lia|done].
Qed.

Lemma minSortUp_loop_spec n fuel s i :
  perm_ok s -> rm_minCt s = n -> reach s 1 n -> 0 <= i <= n -> (Z.to_nat i <= fuel)%nat ->
  up_ok (side s 1) n i ->
  exists s' i', minSortUp_loop fuel s i = Some (s', i') /\ moved 0 n s s' /\ raised s s' 1 n i i'.
Proof.
  assert (forall s j, side s 1 j = val s j) as Eside by (intros; unfold side; by rewrite !Z.mul_1_l).
  revert s i; induction fuel as [|fuel IH]; intros s i Hok Hn Hr Hi Hf Hup; cbn [minSortUp_loop];
    (destruct (Z.ltb_spec 0 i) as [Hpos|];
      [|exists s, i; split; [done|]; split; [by apply moved_refl|];
        split; [apply (up_stop _ n i Hup); left; lia|]; split; [lia|]; done]).
  { lia. }
  destruct (quot_half i) as [-> _]; [lia|]. pose proof (half_lt i ltac:(lia)) as Hh.
  unfold mmCmpExch, mmless. destruct (Z.ltb_spec (val s i) (val s (i / 2))) as [Hlt|Hge].
  - pose proof Hr as [Hsg Hcell].
    pose proof (Hcell i ltac:(lia)) as Hci. pose proof (Hcell (i / 2) ltac:(lia)) as Hcp.
    pose proof (Hcell 0 ltac:(lia)) as Hc0. rewrite Z.mul_1_l in Hci, Hcp, Hc0.
    pose proof (mmexchange_swapped s i (i / 2) Hok Hci Hcp ltac:(lia)) as Hsw.
    set (s1 := mmexchange s i (i / 2)) in *. clearbody s1. pose proof Hsw as [Q P _ _ _].
    assert (swapped (1 * i) (1 * (i / 2)) s s1) as Hsw1 by (by rewrite !Z.mul_1_l).
    destruct (IH s1 (i / 2)) as (s' & i' & -> & Hm & Hra);
      [done|by rewrite same_min with (s := s)|by apply (reach_same s)|lia|lia| |].
    + apply (up_round s s1 1 n i Hr ltac:(lia) Hup); [by rewrite !Eside|done].
    + exists s', i'. split; [done|]. split.
      { eapply moved_trans; [|exact Hm]. eapply swapped_moved; [| |exact Hsw]; lia. }
      by eapply raised_step; try done; lia.
  - exists s, i. split; [done|]. split; [by apply moved_refl|].
    split; [apply (up_stop _ n i Hup); right; rewrite !Eside; lia|]. split; [lia|]. done.
Qed.

Lemma maxSortUp_loop_spec n fuel s i :
  perm_ok s -> rm_maxCt s = n -> reach s (-1) n -> 0 <= i <= n -> (Z.to_nat i <= fuel)%nat ->
  up_ok (side s (-1)) n i ->
  exists s' i', maxSortUp_loop fuel s (- i) = Some (s', - i') /\ moved (- n) 0 s s' /\ raised s s' (-1) n i i'.
Proof.
  assert (forall s j, side s (-1) j = - val s (- j)) as Eside
    by (intros; unfold side; replace (-1 * j) with (- j) by lia; lia).
  revert s i; induction fuel as [|fuel IH]; intros s i Hok Hn Hr Hi Hf Hup; cbn [maxSortUp_loop];
    (destruct (Z.ltb_spec (- i) 0) as [Hpos|];
      [|exists s, i; split; [done|]; split; [by apply moved_refl|];
        split; [apply (up_stop _ n i Hup); left; lia|]; split; [lia|]; done]).
  { lia. }
  destruct (quot_half i) as [_ ->]; [lia|]. pose proof (half_lt i ltac:(lia)) as Hh.
  unfold mmCmpExch, mmless. destruct (Z.ltb_spec (val s (- (i / 2))) (val s (- i))) as [Hlt|Hge].
  - pose proof Hr as [Hsg Hcell].
    pose proof (Hcell i ltac:(lia)) as Hci. pose proof (Hcell (i / 2) ltac:(lia)) as Hcp.
    pose proof (Hcell 0 ltac:(lia)) as Hc0.
    pose proof (mmexchange_swapped s (- (i / 2)) (- i) Hok Hcp Hci ltac:(lia)) as Hsw.
    apply swapped_sym in Hsw.
    set (s1 := mmexchange s (- (i / 2)) (- i)) in *. clearbody s1. pose proof Hsw as [Q P _ _ _].
    destruct (IH s1 (i / 2)) as (s' & i' & -> & Hm & Hra);
      [done|by rewrite same_max with (s := s)|by apply (reach_same s)|lia|lia| |].
    + apply (up_round s s1 (-1) n i Hr ltac:(lia) Hup); [rewrite !Eside; lia|done].
    + exists s', i'. split; [done|]. split.
      { eapply moved_trans; [|exact Hm]. eapply swapped_moved; [| |exact Hsw]; lia. }
      by eapply raised_step; try done; lia.
  - exists s, i. split; [done|]. split; [by apply moved_refl|].
    split; [apply (up_stop _ n i Hup); right; rewrite !Eside; lia|]. split; [lia|]. done.
Qed.

(** ** The operations between the heaps *)

Record shape (s : rolling_median_t) : Prop := {
  shape_perm : perm_ok s;
  shape_min : 0 <= rm_minCt s <= (rm_N s - 1) / 2;
  shape_max : 0 <= rm_maxCt s <= rm_N s / 2;
}.

Definition count (s : rolling_median_t) (sigma : Z) : Z := if sigma =? 1 then rm_minCt s else rm_maxCt s.

Lemma shape_reach s sigma : shape s -> sigma = 1 \/ sigma = -1 -> reach s sigma (count s sigma).
Proof.
  intros [Hp Hm HM] Hsg. split; [done|]. intros j Hj. pose proof (perm_N s Hp).
  destruct Hsg as [->| ->]; cbn [count Z.eqb Pos.eqb] in Hj; unfold cell; zdm.
Qed.

Lemma shape_moved lo hi s s' : shape s -> moved lo hi s s' -> shape s'.
Proof. intros [Hp Hm HM] [[] P _]. split; [done|congruence|congruence]. Qed.

Lemma count_moved lo hi s s' sigma : moved lo hi s s' -> count s' sigma = count s sigma.
Proof. intros [[] _ _]. unfold count. by case_match. Qed.

Lemma minSortDown_spec s i : shape s -> 1 <= i <= rm_minCt s -> down_ok (side s 1) (rm_minCt s) i ->
  exists s', minSortDown s i = Some s' /\ moved 1 (rm_minCt s) s s' /\ heap_ok (side s' 1) (rm_minCt s).
Proof.
  intros Hs Hi Hd. pose proof Hs as [Hp Hm HM]. pose proof (perm_N s Hp).
  apply minSortDown_loop_spec; try done; [by apply (shape_reach s 1 Hs); left|].
  assert ((rm_N s - 1) / 2 <= rm_N s) by zdm. lia.
Qed.

Lemma maxSortDown_spec s i : shape s -> 1 <= i <= rm_maxCt s -> down_ok (side s (-1)) (rm_maxCt s) i ->
  exists s', maxSortDown s (- i) = Some s' /\ moved (- rm_maxCt s) (-1) s s' /\
    heap_ok (side s' (-1)) (rm_maxCt s).
Proof.
  intros Hs Hi Hd. pose proof Hs as [Hp Hm HM]. pose proof (perm_N s Hp).
  apply maxSortDown_loop_spec; try done; [by apply (shape_reach s (-1) Hs); right|].
  assert (rm_N s / 2 <= rm_N s) by zdm. lia.
Qed.

Lemma minSortUp_spec s i : shape s -> 0 <= i <= rm_minCt s -> up_ok (side s 1) (rm_minCt s) i ->
  exists s' i', minSortUp s i = Some (s', i' =? 0) /\ moved 0 (rm_minCt s) s s' /\
    raised s s' 1 (rm_minCt s) i i'.
Proof.
  intros Hs Hi Hd. pose proof Hs as [Hp Hm HM]. pose proof (perm_N s Hp).
  destruct (minSortUp_loop_spec (rm_minCt s) (Z.to_nat (rm_N s)) s i) as (s' & i' & Hl & H1 & H2);
    try done; [by apply (shape_reach s 1 Hs); left| |].
  - assert ((rm_N s - 1) / 2 <= rm_N s) by zdm. lia.
  - exists s', i'. unfold minSortUp. by rewrite Hl.
Qed.

Lemma maxSortUp_spec s i : shape s -> 0 <= i <= rm_maxCt s -> up_ok (side s (-1)) (rm_maxCt s) i ->
  exists s' i', maxSortUp s (- i) = Some (s', i' =? 0) /\ moved (- rm_maxCt s) 0 s s' /\
    raised s s' (-1) (rm_maxCt s) i i'.
Proof.
  intros Hs Hi Hd. pose proof Hs as [Hp Hm HM]. pose proof (perm_N s Hp).
  destruct (maxSortUp_loop_spec (rm_maxCt s) (Z.to_nat (rm_N s)) s i) as (s' & i' & Hl & H1 & H2);
    try done; [by apply (shape_reach s (-1) Hs); right| |].
  - assert (rm_N s / 2 <= rm_N s) by zdm. lia.
  - exists s', i'. unfold maxSortUp. rewrite Hl. cbn [mbind option_bind]. split; [|done].
    do 2 f_equal. repeat bcase; lia.
Qed.

(** The two heaps share their root with opposite signs: [B 0 = - A 0].
    [A1], [B1] is the pair after a value of [A] was sifted up to the root and
    [A2], [B2] the pair after the root and the top of [B] were exchanged. *)
Lemma heap_ok_stay B B1 m :
  heap_ok B m -> (forall j, 1 <= j <= m -> B1 j = B j) -> (1 <= m -> B1 0 <= B1 1) -> heap_ok B1 m.
Proof.
  intros HB E H0 j Hj. destruct (decide (j = 1)) as [->|]; [apply H0; lia|].
  assert (1 <= j / 2 <= m) by zdm. rewrite !E by lia. by apply HB.
Qed.

Lemma heap_ok_ext B B1 m : heap_ok B m -> (forall j, 0 <= j <= m -> B1 j = B j) -> heap_ok B1 m.
Proof. intros HB E j Hj. pose proof (half_lt j ltac:(lia)). rewrite !E by lia. by apply HB. Qed.

Lemma cross_swap A A1 A2 B B1 B2 n m p :
  1 <= p -> up_ok A n p -> heap_ok B m -> 1 <= m -> B 0 = - A 0 ->
  heap_ok A1 n -> (forall j, 1 <= j <= n -> exists y, 0 <= y <= n /\ y <> p /\ A1 j = A y) ->
  (forall j, 1 <= j <= m -> B1 j = B j) -> B1 1 < B1 0 ->
  A2 0 = - B1 1 -> (forall j, 1 <= j <= n -> A2 j = A1 j) ->
  B2 0 = B1 1 -> B2 1 = B1 0 -> (forall j, 2 <= j <= m -> B2 j = B1 j) ->
  heap_ok A2 n /\ down_ok B2 m 1.
Proof.
  intros Hp HA HB Hm H0 HA1 Hfrom HB1 Hlt HA20 HA2 HB20 HB21 HB2. split.
  - apply (heap_ok_stay A1); [done|done|]. intros Hn. destruct (Hfrom 1 ltac:(lia)) as (y & Hy & Hyp & Ey).
    rewrite HA20, HA2, Ey, HB1 by lia. pose proof (up_root A n p y HA ltac:(lia) Hy Hyp ltac:(lia)).
    specialize (HB 1 ltac:(lia)). change (1 / 2) with 0 in HB. lia.
  - split.
    + intros j Hj Hjp. destruct (decide (j = 1)) as [->|]; [change (1 / 2) with 0; lia|].
      assert (2 <= j / 2 <= m) by zdm. rewrite !HB2, !HB1 by zdm. apply HB. lia.
    + intros j Hj Hjp. change (1 / 2) with 0. assert (2 <= j) by zdm.
      rewrite HB20, HB2, !HB1 by lia. specialize (HB j Hj). by rewrite Hjp in HB.
Qed.

Lemma val_outside lo hi s s' x : moved lo hi s s' -> cell s x -> ~ lo <= x <= hi -> val s' x = val s x.
Proof. intros [Q P O] Hx Hn. apply val_same; [done|by apply O]. Qed.

Lemma perm_inj s x y : perm_ok s -> cell s x -> cell s y -> heap_at s x = heap_at s y -> x = y.
Proof. intros [_ _ _ _ H _] Hx Hy E. destruct (H x Hx) as [_ <-], (H y Hy) as [_ <-]. by rewrite E. Qed.

(** After the sift, the cells other than the root hold values that were
    elsewhere than at [p]. *)
Lemma raised_from s s' sigma n p : shape s -> count s sigma = n -> sigma = 1 \/ sigma = -1 -> 1 <= p <= n ->
  moved (if sigma =? 1 then 0 else - n) (if sigma =? 1 then n else 0) s s' ->
  raised s s' sigma n p 0 ->
  forall j, 1 <= j <= n -> exists y, 0 <= y <= n /\ y <> p /\ side s' sigma j = side s sigma y.
Proof.
  intros Hs Hn Hsg Hp Hm (_ & _ & Hheap & _) j Hj. rewrite Z.mul_0_r in Hheap.
  destruct (shape_reach s sigma Hs Hsg) as [_ Hcell]. rewrite Hn in Hcell.
  destruct (moved_from _ _ s s' (sigma * j) (shape_perm s Hs) Hm) as (x & Hx & Hcx & Ex).
  { by apply Hcell; lia. }
  { destruct Hsg as [->| ->]; cbn [Z.eqb Pos.eqb]; lia. }
  exists (sigma * x). assert (sigma * (sigma * x) = x) as Ess by (destruct Hsg; subst; lia).
  split; [destruct Hsg; subst; cbn [Z.eqb Pos.eqb] in Hx; lia|]. split.
  - intros E. assert (x = sigma * p) as -> by (destruct Hsg; subst; lia).
    rewrite <- Hheap in Ex. destruct Hm as [Q P _].
    apply (perm_inj s') in Ex; [destruct Hsg; subst; lia|done| |]; rewrite (same_cell s) by done.
    + replace 0 with (sigma * 0) by lia. apply Hcell. lia.
    + apply Hcell. lia.
  - unfold side. rewrite Ess. f_equal. apply val_same; [apply Hm|done].
Qed.

(** Both heaps in order, after a permutation of the cells in use. *)
Definition ordered (s s' : rolling_median_t) : Prop :=
  moved (- rm_maxCt s) (rm_minCt s) s s' /\
  heap_ok (side s' 1) (rm_minCt s) /\ heap_ok (side s' (-1)) (rm_maxCt s).

Lemma side_pos s j : side s 1 j = val s j.
Proof. unfold side. by rewrite !Z.mul_1_l. Qed.
Lemma side_neg s j : side s (-1) j = - val s (- j).
Proof. unfold side. replace (-1 * j) with (- j) by lia. lia. Qed.

Lemma side_neg0 s : side s (-1) 0 = - val s 0.
Proof. apply side_neg. Qed.
Lemma side_neg1 s : side s (-1) 1 = - val s (-1).
Proof. apply side_neg. Qed.

Lemma shape_cells s x : shape s -> - rm_maxCt s <= x <= rm_minCt s -> cell s x.
Proof. intros [Hp Hm HM] Hx. pose proof (perm_N s Hp). unfold cell. lia. Qed.

Lemma val_swapped a b s s' : swapped a b s s' ->
  val s' a = val s b /\ val s' b = val s a /\ (forall x, cell s x -> x <> a -> x <> b -> val s' x = val s x).
Proof.
  intros [Q P Ea Eb Eo]. split; [by apply val_same|]. split; [by apply val_same|].
  intros x Hx Ha Hb. apply val_same; [done|by apply Eo].
Qed.

Lemma raise_min_spec s p :
  shape s -> 1 <= p <= rm_minCt s -> 1 <= rm_maxCt s ->
  up_ok (side s 1) (rm_minCt s) p -> heap_ok (side s (-1)) (rm_maxCt s) ->
  exists s', raise_min s p = Some s' /\ ordered s s'.
Proof.
  intros Hs Hp HM HA HB. set (n := rm_minCt s) in *. set (m := rm_maxCt s) in *.
  destruct (minSortUp_spec s p) as (s1 & i' & E & Hm1 & Hra); [done|fold n; lia|done|]. fold n in Hm1, Hra.
  pose proof (shape_moved _ _ _ _ Hs Hm1) as Hs1. pose proof (moved_queue _ _ _ _ Hm1) as Q1.
  assert (rm_minCt s1 = n /\ rm_maxCt s1 = m) as [En Em] by (destruct Q1; done).
  assert (forall j, 1 <= j <= m -> side s1 (-1) j = side s (-1) j) as HB1.
  { intros j Hj. rewrite !side_neg. f_equal. apply (val_outside _ _ _ _ _ Hm1); [apply shape_cells; [done|]|]; lia. }
  unfold raise_min. rewrite E. cbn [mbind option_bind]. destruct (Z.eqb_spec i' 0) as [Hz|Hi'].
  2: { exists s1. split; [done|]. split; [by eapply moved_weaken, Hm1; lia|]. split; [apply Hra|].
       apply (heap_ok_ext (side s (-1))); [done|]. intros j Hj.
       destruct (decide (j = 0)) as [->|]; [|by apply HB1; lia].
       rewrite !side_neg. f_equal. apply val_same; [done|]. by apply Hra. }
  rewrite Hz in Hra. unfold mmCmpExch, mmless.
  destruct (Z.ltb_spec (val s1 0) (val s1 (-1))) as [Hlt|Hge].
  2: { exists s1. split; [done|]. split; [by eapply moved_weaken, Hm1; lia|]. split; [apply Hra|].
       apply (heap_ok_stay (side s (-1))); [done|done|]. intros _. rewrite side_neg0, side_neg1. lia. }
  assert (cell s1 0 /\ cell s1 (-1)) as [Hc0 Hc1] by (split; apply shape_cells; try done; lia).
  pose proof (mmexchange_swapped s1 0 (-1) (shape_perm _ Hs1) Hc0 Hc1 ltac:(lia)) as Hsw.
  set (s2 := mmexchange s1 0 (-1)) in *. clearbody s2.
  destruct (val_swapped _ _ _ _ Hsw) as (V0 & V1 & Vo).
  assert (moved (- m) 0 s1 s2) as Hm2 by (eapply swapped_moved; [| |exact Hsw]; lia).
  pose proof (shape_moved _ _ _ _ Hs1 Hm2) as Hs2. pose proof (moved_queue _ _ _ _ Hm2) as Q2.
  assert (rm_minCt s2 = n /\ rm_maxCt s2 = m) as [En2 Em2] by (destruct Q2; split; congruence).
  destruct (cross_swap (side s 1) (side s1 1) (side s2 1) (side s (-1)) (side s1 (-1)) (side s2 (-1)) n m p)
    as [HA2 HB2]; try done.
  - lia.
  - by rewrite side_pos, side_neg0.
  - apply Hra.
  - by apply (raised_from s s1 1 n p); try done; left.
  - rewrite ?side_neg0, ?side_neg1. lia.
  - rewrite side_pos, side_neg1. lia.
  - intros j Hj. rewrite !side_pos. apply Vo; [apply shape_cells; [done|]|..]; lia.
  - rewrite ?side_neg0, ?side_neg1. lia.
  - rewrite ?side_neg0, ?side_neg1. lia.
  - intros j Hj. rewrite !side_neg. f_equal. apply Vo; [apply shape_cells; [done|]|..]; lia.
  - destruct (maxSortDown_spec s2 1) as (s3 & E3 & Hm3 & HB3); [done|lia|by rewrite Em2|]. rewrite Em2 in *.
    exists s3. split; [done|]. split.
    + eapply moved_trans; [by eapply moved_weaken, Hm1; lia|].
      eapply moved_trans; [by eapply moved_weaken, Hm2; lia|]. by eapply moved_weaken, Hm3; lia.
    + split; [|done]. apply (heap_ok_ext (side s2 1)); [done|]. intros j Hj. rewrite !side_pos.
      apply (val_outside _ _ _ _ _ Hm3); [apply shape_cells; [done|]|]; lia.
Qed.

Lemma raise_max_spec s p :
  shape s -> 1 <= p <= rm_maxCt s ->
  up_ok (side s (-1)) (rm_maxCt s) p -> heap_ok (side s 1) (rm_minCt s) ->
  exists s', raise_max s (- p) = Some s' /\ ordered s s'.
Proof.
  intros Hs Hp HA HB. set (m := rm_minCt s) in *. set (n := rm_maxCt s) in *.
  pose proof (shape_min s Hs) as Hmr. fold m in Hmr.
  destruct (maxSortUp_spec s p) as (s1 & i' & E & Hm1 & Hra); [done|fold n; lia|done|]. fold n in Hm1, Hra.
  pose proof (shape_moved _ _ _ _ Hs Hm1) as Hs1. pose proof (moved_queue _ _ _ _ Hm1) as Q1.
  assert (rm_minCt s1 = m /\ rm_maxCt s1 = n) as [Em En] by (destruct Q1; done).
  assert (forall j, 1 <= j <= m -> side s1 1 j = side s 1 j) as HB1.
  { intros j Hj. rewrite !side_pos. apply (val_outside _ _ _ _ _ Hm1); [apply shape_cells; [done|]|]; lia. }
  unfold raise_max. rewrite E. cbn [mbind option_bind]. rewrite Em.
  destruct (Z.eqb_spec i' 0) as [Hz|Hi']; cbn [andb].
  2: { exists s1. split; [done|]. split; [by eapply moved_weaken, Hm1; lia|]. split; [|apply Hra].
       apply (heap_ok_ext (side s 1)); [done|]. intros j Hj.
       destruct (decide (j = 0)) as [->|]; [|by apply HB1; lia].
       rewrite !side_pos. apply val_same; [done|]. by apply Hra. }
  rewrite Hz in Hra. unfold mmCmpExch, mmless. destruct (Z.eqb_spec m 0) as [Hm0|Hm0]; cbn [negb].
  { exists s1. split; [done|]. split; [by eapply moved_weaken, Hm1; lia|]. split; [|apply Hra].
    intros j Hj. fold m in Hj. lia. }
  destruct (Z.ltb_spec (val s1 1) (val s1 0)) as [Hlt|Hge].
  2: { exists s1. split; [done|]. split; [by eapply moved_weaken, Hm1; lia|]. split; [|apply Hra].
       apply (heap_ok_stay (side s 1)); [done|done|]. intros _. by rewrite !side_pos. }
  assert (cell s1 0 /\ cell s1 1) as [Hc0 Hc1] by (split; apply shape_cells; try done; lia).
  pose proof (mmexchange_swapped s1 1 0 (shape_perm _ Hs1) Hc1 Hc0 ltac:(lia)) as Hsw.
  set (s2 := mmexchange s1 1 0) in *. clearbody s2.
  destruct (val_swapped _ _ _ _ Hsw) as (V1 & V0 & Vo).
  assert (moved 0 m s1 s2) as Hm2 by (eapply swapped_moved; [| |exact Hsw]; lia).
  pose proof (shape_moved _ _ _ _ Hs1 Hm2) as Hs2. pose proof (moved_queue _ _ _ _ Hm2) as Q2.
  assert (rm_minCt s2 = m /\ rm_maxCt s2 = n) as [Em2 En2] by (destruct Q2; split; congruence).
  destruct (cross_swap (side s (-1)) (side s1 (-1)) (side s2 (-1)) (side s 1) (side s1 1) (side s2 1) n m p)
    as [HA2 HB2]; try done.
  - lia.
  - lia.
  - rewrite side_pos, side_neg0. lia.
  - apply Hra.
  - by apply (raised_from s s1 (-1) n p); try done; right.
  - by rewrite !side_pos.
  - rewrite side_pos, side_neg0. lia.
  - intros j Hj. rewrite !side_neg. f_equal. apply Vo; [apply shape_cells; [done|]|..]; lia.
  - by rewrite !side_pos.
  - by rewrite !side_pos.
  - intros j Hj. rewrite !side_pos. apply Vo; [apply shape_cells; [done|]|..]; lia.
  - destruct (minSortDown_spec s2 1) as (s3 & E3 & Hm3 & HB3); [done|lia|by rewrite Em2|]. rewrite Em2 in *.
    exists s3. split; [done|]. split.
    + eapply moved_trans; [by eapply moved_weaken, Hm1; lia|].
      eapply moved_trans; [by eapply moved_weaken, Hm2; lia|]. by eapply moved_weaken, Hm3; lia.
    + split; [done|]. apply (heap_ok_ext (side s2 (-1))); [done|]. intros j Hj. rewrite !side_neg. f_equal.
      apply (val_outside _ _ _ _ _ Hm3); [apply shape_cells; [done|]|]; lia.
Qed.

(** *** A new value at the median *)

(** In order below the tops of the two heaps, and the tops in order. *)
Definition loose (s : rolling_median_t) : Prop :=
  (forall j, 2 <= j <= rm_minCt s -> side s 1 (j / 2) <= side s 1 j) /\
  (forall j, 2 <= j <= rm_maxCt s -> side s (-1) (j / 2) <= side s (-1) j) /\
  (1 <= rm_minCt s -> 1 <= rm_maxCt s -> - side s (-1) 1 <= side s 1 1).

Lemma swap_top B B2 m : (forall j, 2 <= j <= m -> B (j / 2) <= B j) -> B 1 < B 0 ->
  B2 0 = B 1 -> B2 1 = B 0 -> (forall j, 2 <= j <= m -> B2 j = B j) -> down_ok B2 m 1.
Proof.
  intros HB Hlt H0 H1 Ho. split; intros j Hj Hp.
  - destruct (decide (j = 1)) as [->|]; [change (1 / 2) with 0; lia|].
    assert (2 <= j / 2 <= m) by zdm. rewrite !Ho by zdm. apply HB. lia.
  - change (1 / 2) with 0. assert (2 <= j) by zdm. rewrite H0, Ho by lia.
    specialize (HB j ltac:(lia)). by rewrite Hp in HB.
Qed.

Lemma settle_heap A m : (forall j, 2 <= j <= m -> A (j / 2) <= A j) -> (1 <= m -> A 0 <= A 1) -> heap_ok A m.
Proof. intros HA H0 j Hj. destruct (decide (j = 1)) as [->|]; [apply H0; lia|apply HA; lia]. Qed.

Lemma up_one_max s : shape s -> 1 <= rm_maxCt s ->
  maxSortUp s (-1) = Some (if mmless s 0 (-1) then (mmexchange s 0 (-1), true) else (s, false)).
Proof.
  intros Hs Hm. pose proof (perm_N s (shape_perm s Hs)). unfold maxSortUp.
  destruct (Z.to_nat (rm_N s)) as [|f] eqn:E; [lia|]. cbn [maxSortUp_loop].
  change (Z.quot (-1) 2) with 0. unfold mmCmpExch. destruct (mmless s 0 (-1)); [|done].
  by destruct f.
Qed.

Lemma up_one_min s : shape s -> 1 <= rm_minCt s ->
  minSortUp s 1 = Some (if mmless s 1 0 then (mmexchange s 1 0, true) else (s, false)).
Proof.
  intros Hs Hm. pose proof (perm_N s (shape_perm s Hs)). unfold minSortUp.
  destruct (Z.to_nat (rm_N s)) as [|f] eqn:E; [lia|]. cbn [minSortUp_loop].
  change (Z.quot 1 2) with 0. unfold mmCmpExch. destruct (mmless s 1 0); [|done].
  by destruct f.
Qed.

Lemma settle_max s : shape s -> loose s -> 1 <= rm_maxCt s ->
  exists s', ('(s, changed) ← maxSortUp s (-1); if changed : bool then maxSortDown s (-1) else Some s) = Some s' /\
    moved (- rm_maxCt s) 0 s s' /\ heap_ok (side s' (-1)) (rm_maxCt s) /\ loose s'.
Proof.
  intros Hs (HA & HB & Ht) Hm. rewrite up_one_max by done. unfold mmless. cbn [mbind option_bind].
  pose proof Hs as [Hp Hmn _]. destruct (Z.ltb_spec (val s 0) (val s (-1))) as [Hlt|Hge].
  2: { exists s. split; [done|]. split; [by apply moved_refl|]. split; [|done].
       apply settle_heap; [done|]. intros _. rewrite side_neg0, side_neg1. lia. }
  assert (cell s 0 /\ cell s (-1)) as [Hc0 Hc1] by (split; apply shape_cells; try done; lia).
  pose proof (mmexchange_swapped s 0 (-1) Hp Hc0 Hc1 ltac:(lia)) as Hsw.
  set (s1 := mmexchange s 0 (-1)) in *. clearbody s1. destruct (val_swapped _ _ _ _ Hsw) as (V0 & V1 & Vo).
  assert (moved (- rm_maxCt s) 0 s s1) as Hm1 by (eapply swapped_moved; [| |exact Hsw]; lia).
  pose proof (shape_moved _ _ _ _ Hs Hm1) as Hs1. pose proof (moved_queue _ _ _ _ Hm1) as [_ _ _ En1 Em1 _].
  destruct (maxSortDown_spec s1 1) as (s2 & E2 & Hm2 & HB2); [done|lia| |].
  { rewrite Em1. apply (swap_top (side s (-1))); [done|..]; rewrite ?side_neg0, ?side_neg1; [lia|lia|lia|].
    intros j Hj. rewrite !side_neg. f_equal. apply Vo; [apply shape_cells; [done|]|..]; lia. }
  exists s2. split; [done|]. rewrite Em1 in *. split.
  { eapply moved_trans; [exact Hm1|]. eapply moved_weaken, Hm2; lia. }
  split; [done|]. pose proof (moved_queue _ _ _ _ Hm2) as [_ _ _ En2 Em2 _].
  assert (forall x, 0 <= x <= rm_minCt s -> val s2 x = val s1 x) as V2.
  { intros x Hx. apply (val_outside _ _ _ _ _ Hm2); [apply shape_cells; [done|]|]; lia. }
  assert (forall x, 1 <= x <= rm_minCt s -> val s2 x = val s x) as V2'.
  { intros x Hx. rewrite V2 by lia. apply Vo; [apply shape_cells; [done|]|..]; lia. }
  split; [|split].
  - intros j Hj. rewrite En2, En1 in Hj. rewrite !side_pos, !V2' by zdm. rewrite <- !side_pos. apply HA. lia.
  - intros j Hj. apply HB2. lia.
  - intros Hn _. rewrite En2, En1 in Hn. specialize (HB2 1 ltac:(lia)). change (1 / 2) with 0 in HB2.
    specialize (Ht ltac:(lia) ltac:(lia)).
    rewrite side_pos, side_neg1 in Ht. rewrite side_neg0, side_neg1, V2 in HB2 by lia.
    rewrite side_pos, side_neg1, (V2' 1) by lia. lia.
Qed.

Lemma settle_min s : shape s -> loose s -> heap_ok (side s (-1)) (rm_maxCt s) -> 1 <= rm_minCt s ->
  exists s', ('(s, changed) ← minSortUp s 1; if changed : bool then minSortDown s 1 else Some s) = Some s' /\
    ordered s s'.
Proof.
  intros Hs (HA & HB & Ht) HBk Hm. rewrite up_one_min by done. unfold mmless. cbn [mbind option_bind].
  pose proof Hs as [Hp _ HMr]. destruct (Z.ltb_spec (val s 1) (val s 0)) as [Hlt|Hge].
  2: { exists s. split; [done|]. split; [by apply moved_refl|]. split; [|done].
       apply settle_heap; [done|]. intros _. by rewrite !side_pos. }
  assert (cell s 0 /\ cell s 1) as [Hc0 Hc1] by (split; apply shape_cells; try done; lia).
  pose proof (mmexchange_swapped s 1 0 Hp Hc1 Hc0 ltac:(lia)) as Hsw.
  set (s1 := mmexchange s 1 0) in *. clearbody s1. destruct (val_swapped _ _ _ _ Hsw) as (V1 & V0 & Vo).
  assert (moved 0 (rm_minCt s) s s1) as Hm1 by (eapply swapped_moved; [| |exact Hsw]; lia).
  pose proof (shape_moved _ _ _ _ Hs Hm1) as Hs1. pose proof (moved_queue _ _ _ _ Hm1) as [_ _ _ En1 Em1 _].
  destruct (minSortDown_spec s1 1) as (s2 & E2 & Hm2 & HA2); [done|lia| |].
  { rewrite En1. apply (swap_top (side s 1)); [done|..]; rewrite ?side_pos; [lia|lia|lia|].
    intros j Hj. rewrite !side_pos. apply Vo; [apply shape_cells; [done|]|..]; lia. }
  exists s2. split; [done|]. rewrite En1 in *. split.
  { eapply moved_trans; [by eapply moved_weaken, Hm1; lia|]. eapply moved_weaken, Hm2; lia. }
  split; [done|].
  assert (forall x, - rm_maxCt s <= x <= 0 -> val s2 x = val s1 x) as V2.
  { intros x Hx. apply (val_outside _ _ _ _ _ Hm2); [apply shape_cells; [done|]|]; lia. }
  apply (heap_ok_stay (side s (-1))); [done| |].
  - intros j Hj. rewrite !side_neg. f_equal. rewrite V2 by lia. apply Vo; [apply shape_cells; [done|]|..]; lia.
  - intros Hn. specialize (Ht Hm Hn). rewrite side_neg0, side_neg1, !V2, V0 by lia.
    rewrite side_pos, side_neg1 in Ht. rewrite Vo; [lia|apply shape_cells; [done|]|..]; lia.
Qed.

Lemma settle_spec s : shape s -> loose s -> exists s', settle s = Some s' /\ ordered s s'.
Proof.
  intros Hs Hl. pose proof Hs as [Hp Hmr HMr]. unfold settle.
  assert (exists s1, (if negb (rm_maxCt s =? 0) then
         '(s, changed) ← maxSortUp s (-1);
         if changed : bool then maxSortDown s (-1) else Some s else Some s) = Some s1 /\
    moved (- rm_maxCt s) 0 s s1 /\ heap_ok (side s1 (-1)) (rm_maxCt s) /\ loose s1) as (s1 & -> & Hm1 & HB & Hl1).
  { destruct (Z.eqb_spec (rm_maxCt s) 0) as [E|]; cbn [negb]; [|apply settle_max; try done; lia].
    exists s. split; [done|]. split; [by apply moved_refl|]. split; [intros j Hj; lia|done]. }
  cbn [mbind option_bind]. pose proof (moved_queue _ _ _ _ Hm1) as [_ _ _ En Em _].
  pose proof (shape_moved _ _ _ _ Hs Hm1) as Hs1. rewrite En.
  destruct (Z.eqb_spec (rm_minCt s) 0) as [E|]; cbn [negb].
  - exists s1. split; [done|]. split; [by eapply moved_weaken, Hm1; lia|]. split; [intros j Hj; lia|done].
  - rewrite <- Em in HB. destruct (settle_min s1 Hs1 Hl1 HB ltac:(lia)) as (s2 & E2 & Hm2 & HA2 & HB2).
    rewrite En, Em in *. exists s2. split; [done|]. split; [|done].
    eapply moved_trans; [by eapply moved_weaken, Hm1; lia|exact Hm2].
Qed.

(** ** Insertion *)

(** A heap with the value of one cell replaced. *)
Lemma upd_down A A' n p : heap_ok A n -> 1 <= p <= n -> A p <= A' p ->
  (forall j, 0 <= j <= n -> j <> p -> A' j = A j) -> down_ok A' n p.
Proof.
  intros HA Hp Hle Ho. split; intros j Hj Hjp; pose proof (half_lt j ltac:(lia)); pose proof (half_lt p ltac:(lia)).
  - specialize (HA j Hj). rewrite (Ho (j / 2)) by lia. destruct (decide (j = p)) as [->|]; [lia|]. rewrite Ho by lia. lia.
  - specialize (HA j Hj) as H1. specialize (HA p ltac:(lia)). rewrite Hjp in H1. rewrite !Ho by lia. lia.
Qed.

Lemma upd_up A A' n p : heap_ok A n -> 1 <= p <= n -> A' p <= A p ->
  (forall j, 0 <= j <= n -> j <> p -> A' j = A j) -> up_ok A' n p.
Proof.
  intros HA Hp Hle Ho. split; intros j Hj Hjp; pose proof (half_lt j ltac:(lia)); pose proof (half_lt p ltac:(lia)).
  - specialize (HA j Hj). rewrite (Ho j) by lia. destruct (decide (j / 2 = p)) as [E|]; [rewrite E in *; lia|].
    rewrite Ho by lia. lia.
  - intros _. specialize (HA j Hj) as H1. specialize (HA p ltac:(lia)). rewrite Hjp in H1. rewrite !Ho by lia. lia.
Qed.

Lemma upd_new A A' n : heap_ok A n -> 0 <= n -> (forall j, 0 <= j <= n -> A' j = A j) -> up_ok A' (n + 1) (n + 1).
Proof.
  intros HA Hn Ho. split; intros j Hj Hjp; pose proof (half_lt j ltac:(lia)); [|lia].
  rewrite !Ho by lia. apply HA. lia.
Qed.

(** The queue holds the last [N] values of [vs], the oldest at [idx] once it is full. *)
Definition queue_ok (data : list Z) (N : nat) (vs : list Z) : Prop :=
  if (length vs <? N)%nat then take (length vs) data = vs
  else drop (length vs mod N) data ++ take (length vs mod N) data = lastn N vs.

Lemma insert_split (data : list Z) i v : (i < length data)%nat ->
  <[i := v]> data = (take i data ++ [v]) ++ drop (S i) data.
Proof. intros Hi. rewrite insert_take_drop by done. by rewrite <- app_assoc. Qed.

Lemma take_insert_snoc (data : list Z) i v : (i < length data)%nat ->
  take (S i) (<[i := v]> data) = take i data ++ [v] /\ drop (S i) (<[i := v]> data) = drop (S i) data.
Proof.
  intros Hi. rewrite insert_split by done.
  assert (length (take i data ++ [v]) = S i) as E by (rewrite length_app, length_take; cbn; lia).
  by rewrite take_app_length', drop_app_length'.
Qed.

Lemma queue_push data N vs v : (0 < N)%nat -> length data = N -> queue_ok data N vs ->
  queue_ok (<[(length vs mod N)%nat := v]> data) N (vs ++ [v]).
Proof.
  intros HN Hl. unfold queue_ok. rewrite length_app. cbn [length]. rewrite Nat.add_1_r.
  pose proof (Nat.mod_upper_bound (length vs) N ltac:(lia)) as Hb.
  destruct (Nat.ltb_spec (length vs) N) as [Hlt|Hge]; intros Hq.
  - rewrite (Nat.mod_small (length vs)) in * by done.
    destruct (take_insert_snoc data (length vs) v ltac:(lia)) as [E _]. rewrite Hq in E.
    destruct (Nat.ltb_spec (S (length vs)) N); [done|].
    replace (S (length vs)) with N in * by lia. rewrite Nat.Div0.mod_same.
    rewrite take_ge in E by (rewrite length_insert; lia). rewrite E. cbn [drop take].
    unfold lastn. rewrite length_app, app_nil_r. cbn [length].
    by replace (length vs + 1 - N)%nat with 0%nat by lia.
  - destruct (Nat.ltb_spec (S (length vs)) N); [lia|].
    rewrite <- Nat.add_1_r, <- Nat.Div0.add_mod_idemp_l. set (i := (length vs mod N)%nat) in *. clearbody i.
    assert (lastn N (vs ++ [v]) = drop (S i) data ++ take i data ++ [v]) as ->.
    { assert (lastn N (vs ++ [v]) = drop 1 (lastn N vs) ++ [v]) as ->.
      { destruct N as [|N']; [lia|]. rewrite lastn_snoc. f_equal. unfold lastn. rewrite drop_drop. f_equal. lia. }
      rewrite <- Hq, drop_app_le, drop_drop, Nat.add_1_r, <- app_assoc by (rewrite length_drop; lia). done. }
    destruct (take_insert_snoc data i v ltac:(lia)) as [E1 E2]. rewrite Nat.add_1_r.
    destruct (decide (S i = N)) as [EN|].
    + rewrite EN, Nat.Div0.mod_same, drop_0, take_0, app_nil_r.
      rewrite insert_split by lia. rewrite !drop_ge by lia. by rewrite app_nil_r.
    + rewrite (Nat.mod_small (S i)) by lia. by rewrite E1, E2.
Qed.

(** The state after the values [vs] were inserted. *)
Record rm_ok (s : rolling_median_t) (vs : list Z) : Prop := {
  ok_perm : perm_ok s;
  ok_sz : rm_sz s = Z.min (Z.of_nat (length vs)) (rm_N s);
  ok_min : rm_minCt s = Z.quot (rm_sz s - 1) 2;
  ok_max : rm_maxCt s = Z.quot (rm_sz s) 2;
  ok_idx : rm_idx s = Z.of_nat (length vs mod Z.to_nat (rm_N s));
  ok_active : forall k, 0 <= k < rm_sz s -> - rm_maxCt s <= pos_at s k <= rm_minCt s;
  ok_rest : forall k, rm_sz s <= k < rm_N s -> pos_at s k = init_pos k;
  ok_A : heap_ok (side s 1) (rm_minCt s);
  ok_B : heap_ok (side s (-1)) (rm_maxCt s);
  ok_queue : queue_ok (rm_data s) (Z.to_nat (rm_N s)) vs;
}.

(** The counts for [sz] values. *)
Lemma counts_half z : 0 <= z -> Z.quot z 2 = z / 2 /\ 0 <= Z.quot (z - 1) 2 <= z / 2 /\
  (1 <= z -> Z.quot (z - 1) 2 = (z - 1) / 2).
Proof.
  intros Hz. destruct (quot_half z Hz) as [-> _]. destruct (decide (z = 0)) as [->|]; [done|].
  destruct (quot_half (z - 1) ltac:(lia)) as [-> _]. split; [done|]. split; [zdm|done].
Qed.

Lemma ok_counts s vs : rm_ok s vs -> 0 <= rm_sz s <= rm_N s /\ shape s.
Proof.
  intros [Hp Hsz Hmin Hmax _ _ _ _ _ _]. pose proof (perm_N s Hp). split; [lia|].
  destruct (counts_half (rm_sz s)) as (E1 & E2 & E3); [lia|].
  split; [done|rewrite Hmin|rewrite Hmax, E1]; [|zdm].
  destruct (decide (rm_sz s = 0)) as [->|]; [change (Z.quot (0 - 1) 2) with 0; zdm|rewrite E3; zdm].
Qed.

Lemma odd_cases k : (Z.odd k = true /\ k mod 2 = 1) \/ (Z.odd k = false /\ k mod 2 = 0).
Proof.
  rewrite Zodd_mod. pose proof (Z.mod_pos_bound k 2). destruct (Z.eqb_spec (k mod 2) 1); lia.
Qed.

Lemma init_pos_value k : 0 <= k ->
  init_pos k = if Z.odd k then - ((k + 1) / 2) else k / 2.
Proof.
  intros Hk. unfold init_pos. destruct (quot_half (k + 1)) as [-> _]; [lia|].
  destruct (odd_cases k) as [[-> H]|[-> H]]; zdm.
Qed.

(** Positions under a permutation of a range of cells. *)
Lemma moved_pos lo hi s s' k : perm_ok s -> moved lo hi s s' -> 0 <= k < rm_N s ->
  (lo <= pos_at s k <= hi -> lo <= pos_at s' k <= hi) /\
  (~ lo <= pos_at s k <= hi -> pos_at s' k = pos_at s k).
Proof.
  intros Hp [Q Hp' O] Hk. pose proof Hp as [_ _ _ _ Hc Hi]. pose proof Hp' as [_ _ _ _ Hc' Hi'].
  destruct (Hi k Hk) as [Hck Hhk].
  assert (~ lo <= pos_at s k <= hi -> pos_at s' k = pos_at s k) as Hout.
  { intros Hn. specialize (O _ Hck Hn). rewrite Hhk in O. rewrite <- O at 1.
    apply Hc'. by rewrite (same_cell s). }
  split; [|done]. intros Hr. destruct (decide (lo <= pos_at s' k <= hi)) as [|Hn]; [done|].
  destruct (Hi' k) as [Hck' Hhk']; [by rewrite (same_N s s')|].
  rewrite (same_cell s s') in Hck' by done. specialize (O _ Hck' Hn). rewrite Hhk' in O.
  destruct (Hc _ Hck') as [_ E]. rewrite <- O in E. lia.
Qed.

(** The state [insert] works on: the value enqueued, the counts for the new size. *)
Definition pushed (s : rolling_median_t) (v : Z) : rolling_median_t :=
  with_counts (enqueue s v) (Z.quot (Z.min (rm_sz s + 1) (rm_N s) - 1) 2)
    (Z.quot (Z.min (rm_sz s + 1) (rm_N s)) 2).

Lemma pushed_perm s v : perm_ok s -> perm_ok (pushed s v).
Proof. intros [? ? ? ? ? ?]. split; try done. cbn. by rewrite length_insert. Qed.

Lemma pushed_val s v vs x : rm_ok s vs -> cell s x ->
  val (pushed s v) x = if decide (x = pos_at s (rm_idx s)) then v else val s x.
Proof.
  intros Hok Hx. pose proof (ok_perm _ _ Hok) as [HN Hd _ _ Hc Hi]. pose proof (ok_idx _ _ Hok) as Hidx.
  pose proof (Nat.mod_upper_bound (length vs) (Z.to_nat (rm_N s)) ltac:(lia)).
  destruct (Hi (rm_idx s)) as [_ Hh]; [lia|]. destruct (Hc x Hx) as [Hr Hp].
  unfold val. change (heap_at (pushed s v) x) with (heap_at s x). cbn [rm_data pushed with_counts enqueue].
  rewrite nth_insert by lia. repeat case_decide; try done; exfalso; subst; [|lia].
  assert (heap_at s x = rm_idx s) as E by lia. by rewrite E in Hp.
Qed.

Lemma pushed_shape s v vs : rm_ok s vs -> shape (pushed s v).
Proof.
  intros Hok. destruct (ok_counts s vs Hok) as [Hsz _]. pose proof (ok_perm _ _ Hok) as Hp. pose proof (perm_N s Hp).
  split; [by apply pushed_perm|..]; cbn; set (z := Z.min _ _); assert (1 <= z <= rm_N s) by lia;
    destruct (counts_half z) as (E1 & _ & E3); try lia; rewrite ?E1, ?E3 by lia; zdm.
Qed.

Lemma ordered_ok s v vs s' : rm_ok s vs -> ordered (pushed s v) s' -> rm_ok s' (vs ++ [v]).
Proof.
  intros Hok (Hm & HA & HB). destruct (ok_counts s vs Hok) as [Hsz _].
  pose proof Hok as [Hp Ez Emin Emax Eidx Hact Hrest _ _ Hq]. pose proof Hp as [HN Hd _ _ _ _].
  pose proof Hm as [[Ed EN Ei En Em Es] Hp' _].
  set (n := rm_minCt (pushed s v)) in *. set (m := rm_maxCt (pushed s v)) in *.
  cbn in Ed, EN, Ei, Es. set (z := Z.min (rm_sz s + 1) (rm_N s)) in *.
  assert (1 <= z <= rm_N s) as Hz by lia. destruct (counts_half z) as (E1 & _ & E3); [lia|].
  assert (n = (z - 1) / 2 /\ m = z / 2) as [En' Em'] by (split; [apply E3; lia|exact E1]).
  destruct (counts_half (rm_sz s)) as (F1 & _ & F3); [lia|].
  assert (forall k, 0 <= k -> pos_at (pushed s v) k = pos_at s k) as Epos by done.
  split.
  - done.
  - rewrite Es, EN, length_app. cbn. lia.
  - by rewrite En, Es.
  - by rewrite Em, Es.
  - rewrite Ei, EN, Eidx, length_app. cbn [length].
    rewrite Z.rem_mod_nonneg by lia. rewrite <- Nat.Div0.add_mod_idemp_l, (Nat2Z.inj_mod (_ + 1)).
    f_equal; lia.
  - intros k Hk. rewrite Es in Hk. rewrite En, Em.
    apply (moved_pos (- m) n (pushed s v) s' k); [by apply pushed_perm|done|cbn; lia|].
    change (pos_at (pushed s v) k) with (pos_at s k). fold n m.
    destruct (decide (k < rm_sz s)) as [Hlt|Hge].
    + specialize (Hact k ltac:(lia)). rewrite Emin, Emax, F1, F3 in Hact by lia.
      assert ((rm_sz s - 1) / 2 <= (z - 1) / 2) by zdm. assert (rm_sz s / 2 <= z / 2) by zdm. lia.
    + assert (k = rm_sz s) as -> by lia. rewrite Hrest, init_pos_value by lia.
      replace z with (rm_sz s + 1) in * by lia. rewrite En', Em'.
      destruct (odd_cases (rm_sz s)) as [[-> Ho]|[-> Ho]]; zdm.
  - intros k Hk. rewrite Es, EN in Hk. rewrite <- (Hrest k) by lia.
    apply (moved_pos (- m) n (pushed s v) s' k); [by apply pushed_perm|done|cbn; lia|].
    change (pos_at (pushed s v) k) with (pos_at s k). fold n m. rewrite Hrest, init_pos_value by lia.
    rewrite En', Em'. destruct (odd_cases k) as [[-> Ho]|[-> Ho]]; zdm.
  - by rewrite En.
  - by rewrite Em.
  - rewrite Ed, EN. replace (Z.to_nat (rm_idx s)) with (length vs mod Z.to_nat (rm_N s))%nat by lia.
    apply queue_push; [lia|lia|done].
Qed.

(** Where the new value goes: to the next free cell, or in place of the oldest value. *)
Lemma insert_place s vs : rm_ok s vs ->
  let p := pos_at s (rm_idx s) in
  let n := Z.quot (Z.min (rm_sz s + 1) (rm_N s) - 1) 2 in
  let m := Z.quot (Z.min (rm_sz s + 1) (rm_N s)) 2 in
  cell s p /\ heap_at s p = rm_idx s /\
  ((rm_sz s < rm_N s /\ 1 <= p /\ rm_minCt s < Z.quot (rm_N s - 1) 2 /\
      p = rm_minCt s + 1 /\ n = rm_minCt s + 1 /\ m = rm_maxCt s /\ 1 <= m) \/
   (rm_sz s < rm_N s /\ p <= -1 /\ rm_maxCt s < Z.quot (rm_N s) 2 /\
      p = - (rm_maxCt s + 1) /\ n = rm_minCt s /\ m = rm_maxCt s + 1) \/
   (rm_sz s = 0 /\ p = 0 /\ n = rm_minCt s /\ m = rm_maxCt s) \/
   (rm_sz s = rm_N s /\ - rm_maxCt s <= p <= rm_minCt s /\ n = rm_minCt s /\ m = rm_maxCt s /\
      rm_minCt s = Z.quot (rm_N s - 1) 2 /\ rm_maxCt s = Z.quot (rm_N s) 2 /\ (1 <= n -> 1 <= m))).
Proof.
  intros Hok p n m. destruct (ok_counts s vs Hok) as [Hsz _].
  pose proof Hok as [Hp Ez Emin Emax Eidx Hact Hrest _ _ _]. pose proof Hp as [HN _ _ _ _ Hi].
  pose proof (Nat.mod_upper_bound (length vs) (Z.to_nat (rm_N s)) ltac:(lia)).
  destruct (Hi (rm_idx s) ltac:(lia)) as [Hc Hh]. split; [done|]. split; [done|].
  destruct (counts_half (rm_sz s)) as (F1 & F2 & F3); [lia|].
  destruct (counts_half (rm_N s)) as (G1 & _ & G3); [lia|]. specialize (G3 ltac:(lia)).
  destruct (decide (rm_sz s = rm_N s)) as [E|E].
  - right; right; right. unfold n, m. rewrite Z.min_r by lia. specialize (Hact (rm_idx s) ltac:(lia)).
    rewrite Emin, Emax, E, G1, G3 in *. split_and!; try done; try lia; zdm.
  - assert (rm_idx s = rm_sz s) as Ei by (rewrite Eidx, Nat.mod_small by lia; lia).
    assert (p = init_pos (rm_sz s)) as Ep by (unfold p; rewrite Ei; apply Hrest; lia).
    rewrite init_pos_value in Ep by lia. unfold n, m. rewrite Z.min_l by lia.
    replace (rm_sz s + 1 - 1) with (rm_sz s) by lia.
    destruct (counts_half (rm_sz s + 1)) as (I1 & _ & _); [lia|]. rewrite Emin, Emax, F1, I1, G1, G3.
    destruct (odd_cases (rm_sz s)) as [[Eo Ho]|[Eo Ho]]; rewrite Eo in Ep.
    + right; left. rewrite F3 by zdm. clearbody p. split_and!; zdm.
    + destruct (decide (rm_sz s = 0)) as [E0|].
      * right; right; left. rewrite E0 in *. done.
      * left. rewrite F3 by zdm. clearbody p. split_and!; zdm.
Qed.

(** Cells other than that of the new value keep theirs. *)
Lemma pushed_sides s vs v : rm_ok s vs -> let p := pos_at s (rm_idx s) in
  (forall j, 0 <= j <= rm_minCt (pushed s v) -> j <> p -> side (pushed s v) 1 j = side s 1 j) /\
  (forall j, 0 <= j <= rm_maxCt (pushed s v) -> - j <> p -> side (pushed s v) (-1) j = side s (-1) j) /\
  val (pushed s v) p = v.
Proof.
  intros Hok p. pose proof (pushed_shape s v vs Hok) as Hs1. pose proof Hs1 as [_ Hmr HMr].
  pose proof (fun x => pushed_val s v vs x Hok) as Hv. fold p in Hv.
  assert (forall x, - rm_maxCt (pushed s v) <= x <= rm_minCt (pushed s v) -> cell s x) as Hcell
    by (intros x Hx; by apply (shape_cells (pushed s v) x Hs1)).
  split; [|split].
  - intros j Hj Hne. rewrite !side_pos, Hv by (apply Hcell; lia). by case_decide.
  - intros j Hj Hne. rewrite !side_neg, Hv by (apply Hcell; lia). by case_decide.
  - destruct (insert_place s vs Hok) as (Hc & _). rewrite Hv by done. by case_decide.
Qed.

(** The new value above 0, below 0 and at 0. *)
Lemma place_min s vs v p : rm_ok s vs -> p = pos_at s (rm_idx s) -> 1 <= p <= rm_minCt (pushed s v) ->
  1 <= rm_maxCt (pushed s v) -> rm_maxCt (pushed s v) = rm_maxCt s ->
  (rm_minCt (pushed s v) = rm_minCt s + 1 /\ p = rm_minCt s + 1) \/
    (rm_minCt (pushed s v) = rm_minCt s /\ v <= val s p) ->
  exists s', raise_min (pushed s v) p = Some s' /\ ordered (pushed s v) s'.
Proof.
  intros Hok Ep Hp Hm Em Hcase. destruct (pushed_sides s vs v Hok) as (HA1 & HB1 & Hv). rewrite <- Ep in *.
  pose proof (ok_A _ _ Hok) as HA. pose proof (ok_B _ _ Hok) as HB. pose proof (shape_min _ (proj2 (ok_counts s vs Hok))).
  apply raise_min_spec; try done; [by eapply pushed_shape| |].
  - destruct Hcase as [[En ->]|[En Hle]]; rewrite En in *.
    + apply (upd_new (side s 1)); [done|lia|]. intros j Hj. apply HA1; lia.
    + apply (upd_up (side s 1)); [done|lia|by rewrite !side_pos, Hv|]. intros j Hj Hne. by apply HA1.
  - rewrite Em in *. apply (heap_ok_ext (side s (-1))); [done|]. intros j Hj. apply HB1; lia.
Qed.

Lemma place_max s vs v p : rm_ok s vs -> - p = pos_at s (rm_idx s) -> 1 <= p <= rm_maxCt (pushed s v) ->
  rm_minCt (pushed s v) = rm_minCt s ->
  (rm_maxCt (pushed s v) = rm_maxCt s + 1 /\ p = rm_maxCt s + 1) \/
    (rm_maxCt (pushed s v) = rm_maxCt s /\ val s (- p) <= v) ->
  exists s', raise_max (pushed s v) (- p) = Some s' /\ ordered (pushed s v) s'.
Proof.
  intros Hok Ep Hp Em Hcase. destruct (pushed_sides s vs v Hok) as (HA1 & HB1 & Hv). rewrite <- Ep in *.
  pose proof (ok_A _ _ Hok) as HA. pose proof (ok_B _ _ Hok) as HB. pose proof (shape_max _ (proj2 (ok_counts s vs Hok))).
  apply raise_max_spec; try done; [by eapply pushed_shape| |].
  - destruct Hcase as [[En ->]|[En Hle]]; rewrite En in *.
    + apply (upd_new (side s (-1))); [done|lia|]. intros j Hj. apply HB1; lia.
    + apply (upd_up (side s (-1))); [done|lia|rewrite !side_neg, Hv; lia|]. intros j Hj Hne. apply HB1; lia.
  - rewrite Em in *. apply (heap_ok_ext (side s 1)); [done|]. intros j Hj. apply HA1; lia.
Qed.

Lemma sink_min s vs v p : rm_ok s vs -> p = pos_at s (rm_idx s) -> 1 <= p <= rm_minCt s -> val s p < v ->
  rm_minCt (pushed s v) = rm_minCt s -> rm_maxCt (pushed s v) = rm_maxCt s ->
  exists s', minSortDown (pushed s v) p = Some s' /\ ordered (pushed s v) s'.
Proof.
  intros Hok Ep Hp Hlt En Em. destruct (pushed_sides s vs v Hok) as (HA1 & HB1 & Hv). rewrite <- Ep in *.
  pose proof (ok_A _ _ Hok) as HA. pose proof (ok_B _ _ Hok) as HB. pose proof (pushed_shape s v vs Hok) as Hs1.
  pose proof Hs1 as [_ Hmr HMr].
  destruct (minSortDown_spec (pushed s v) p Hs1) as (s' & E & Hm & HA'); [lia| |].
  { rewrite En in *. apply (upd_down (side s 1)); [done|done|rewrite !side_pos, Hv; lia|].
    intros j Hj Hne. by apply HA1. }
  exists s'. split; [done|]. split; [eapply moved_weaken, Hm; lia|]. split; [done|]. rewrite Em in *.
  apply (heap_ok_ext (side s (-1))); [done|]. intros j Hj. rewrite <- HB1 by lia. rewrite !side_neg. f_equal.
  apply (val_outside _ _ _ _ _ Hm); [apply shape_cells; [done|]|]; lia.
Qed.

Lemma sink_max s vs v p : rm_ok s vs -> - p = pos_at s (rm_idx s) -> 1 <= p <= rm_maxCt s -> v < val s (- p) ->
  rm_minCt (pushed s v) = rm_minCt s -> rm_maxCt (pushed s v) = rm_maxCt s ->
  exists s', maxSortDown (pushed s v) (- p) = Some s' /\ ordered (pushed s v) s'.
Proof.
  intros Hok Ep Hp Hlt En Em. destruct (pushed_sides s vs v Hok) as (HA1 & HB1 & Hv). rewrite <- Ep in *.
  pose proof (ok_A _ _ Hok) as HA. pose proof (ok_B _ _ Hok) as HB. pose proof (pushed_shape s v vs Hok) as Hs1.
  pose proof Hs1 as [_ Hmr HMr].
  destruct (maxSortDown_spec (pushed s v) p Hs1) as (s' & E & Hm & HB'); [lia| |].
  { rewrite Em in *. apply (upd_down (side s (-1))); [done|done|rewrite !side_neg, Hv; lia|].
    intros j Hj Hne. apply HB1; lia. }
  exists s'. split; [done|]. split; [eapply moved_weaken, Hm; lia|]. split; [|done]. rewrite En in *.
  apply (heap_ok_ext (side s 1)); [done|]. intros j Hj. rewrite <- HA1 by lia. rewrite !side_pos.
  apply (val_outside _ _ _ _ _ Hm); [apply shape_cells; [done|]|]; lia.
Qed.

Lemma place_mid s vs v : rm_ok s vs -> pos_at s (rm_idx s) = 0 ->
  rm_minCt (pushed s v) = rm_minCt s -> rm_maxCt (pushed s v) = rm_maxCt s ->
  exists s', settle (pushed s v) = Some s' /\ ordered (pushed s v) s'.
Proof.
  intros Hok Ep En Em. destruct (pushed_sides s vs v Hok) as (HA1 & HB1 & _). rewrite Ep in *.
  pose proof (ok_A _ _ Hok) as HA. pose proof (ok_B _ _ Hok) as HB.
  apply settle_spec; [by eapply pushed_shape|]. rewrite En, Em in *. split; [|split]; rewrite ?En, ?Em.
  - intros j Hj. rewrite !HA1 by zdm. apply HA. lia.
  - intros j Hj. rewrite !HB1 by zdm. apply HB. lia.
  - intros H1 H2. rewrite HA1, HB1 by lia. specialize (HA 1 ltac:(lia)). specialize (HB 1 ltac:(lia)).
    change (1 / 2) with 0 in *. rewrite side_pos in HA. rewrite side_neg0 in HB. lia.
Qed.

Lemma insert_spec s vs v : rm_ok s vs ->
  exists s', insert s v = Some s' /\ rm_ok s' (vs ++ [v]) /\ rm_N s' = rm_N s.
Proof.
  intros Hok. enough (exists s', insert s v = Some s' /\ ordered (pushed s v) s') as (s' & E & Ho).
  { exists s'. split; [done|]. split; [by eapply ordered_ok|]. by destruct Ho as [[[] _ _] _]. }
  destruct (insert_place s vs Hok) as (Hcp & Hhp & Hcase).
  assert (nth (Z.to_nat (rm_idx s)) (rm_data s) 0 = val s (pos_at s (rm_idx s))) as Hold
    by (unfold val; by rewrite Hhp).
  unfold insert. rewrite Hold.
  set (n := Z.quot (Z.min (rm_sz s + 1) (rm_N s) - 1) 2) in *.
  set (m := Z.quot (Z.min (rm_sz s + 1) (rm_N s)) 2) in *.
  assert (forall a b, n = a -> m = b -> with_counts (enqueue s v) a b = pushed s v) as Hpush by (by intros; subst).
  assert (n = rm_minCt s -> m = rm_maxCt s -> enqueue s v = pushed s v) as Henq
    by (intros E1 E2; by rewrite <- (Hpush _ _ E1 E2)).
  assert (rm_minCt (pushed s v) = n /\ rm_maxCt (pushed s v) = m) as [Hn Hm] by done.
  cbn [rm_minCt rm_maxCt rm_N enqueue]. remember (pos_at s (rm_idx s)) as p eqn:Ep. clear Hcp Hhp Hold.
  destruct Hcase as [(_ & Hp & Hlt & Epn & En & Em & Hm1)|[(_ & Hp & Hlt & Epm & En & Em)|[(Hz & Hp & En & Em)|
    (_ & Hp & En & Em & Fn & Fm & Hnm)]]].
  - destruct (Z.ltb_spec 0 p); [|lia]. destruct (Z.ltb_spec (rm_minCt s) (Z.quot (rm_N s - 1) 2)); [|lia].
    rewrite Hpush by done. apply (place_min s vs); try done; lia.
  - destruct (Z.ltb_spec 0 p); [lia|]. destruct (Z.ltb_spec p 0); [|lia].
    destruct (Z.ltb_spec (rm_maxCt s) (Z.quot (rm_N s) 2)); [|lia]. rewrite Hpush by done.
    replace p with (- (- p)) by lia. apply (place_max s vs); try done; lia.
  - rewrite Hp. cbn. rewrite Henq by done. apply (place_mid s vs); [done|congruence|lia|lia].
  - rewrite Henq by done.
    destruct (Z.ltb_spec (rm_minCt s) (Z.quot (rm_N s - 1) 2)), (Z.ltb_spec (rm_maxCt s) (Z.quot (rm_N s) 2)); try lia.
    destruct (Z.ltb_spec 0 p); [|destruct (Z.ltb_spec p 0)].
    + destruct (Z.ltb_spec (val s p) v); [apply (sink_min s vs); try done; lia|].
      apply (place_min s vs); try done; try lia.
    + replace p with (- (- p)) in * by lia.
      destruct (Z.ltb_spec v (val s (- (- p)))); [apply (sink_max s vs); try done; lia|].
      apply (place_max s vs); try done; lia.
    + apply (place_mid s vs); [done|lia|lia|lia].
Qed.

(** ** The empty structure *)

Lemma init_pos_cell s k : 0 <= k < rm_N s -> cell s (init_pos k).
Proof.
  intros Hk. rewrite init_pos_value by lia. unfold cell.
  destruct (odd_cases k) as [[-> Ho]|[-> Ho]]; zdm.
Qed.

Lemma init_pos_inj k k' : 0 <= k -> 0 <= k' -> init_pos k = init_pos k' -> k = k'.
Proof.
  intros Hk Hk'. rewrite !init_pos_value by lia.
  destruct (odd_cases k) as [[-> Ho]|[-> Ho]], (odd_cases k') as [[-> Ho']|[-> Ho']]; zdm.
Qed.

Lemma init_pos_onto s x : 0 < rm_N s -> cell s x -> exists k, 0 <= k < rm_N s /\ init_pos k = x.
Proof.
  unfold cell. intros HN Hx. destruct (decide (x < 0)).
  - exists (- 2 * x - 1). split; [zdm|]. rewrite init_pos_value by lia.
    destruct (odd_cases (- 2 * x - 1)) as [[-> Ho]|[-> Ho]]; zdm.
  - exists (2 * x). split; [zdm|]. rewrite init_pos_value by lia.
    destruct (odd_cases (2 * x)) as [[-> Ho]|[-> Ho]]; zdm.
Qed.

Lemma clear_loop_spec n s :
  0 < rm_N s -> Z.of_nat (length (rm_pos s)) = rm_N s -> Z.of_nat (length (rm_heap s)) = rm_N s ->
  Z.of_nat n <= rm_N s ->
  (forall k, Z.of_nat n <= k < rm_N s -> pos_at s k = init_pos k /\ heap_at s (init_pos k) = k) ->
  let s' := clear_loop n s in
  same_queue s s' /\ Z.of_nat (length (rm_pos s')) = rm_N s /\ Z.of_nat (length (rm_heap s')) = rm_N s /\
  forall k, 0 <= k < rm_N s -> pos_at s' k = init_pos k /\ heap_at s' (init_pos k) = k.
Proof.
  revert s; induction n as [|n IH]; intros s HN Hp Hh Hn Hdone; cbn [clear_loop].
  { split; [done|]. split; [done|]. split; [done|]. intros k Hk. apply Hdone. lia. }
  set (s1 := set_pos s (Z.of_nat n) _). assert (pos_at s1 (Z.of_nat n) = init_pos (Z.of_nat n)) as ->.
  { unfold s1. rewrite pos_at_set by lia. by case_decide. }
  destruct (IH (set_heap s1 (init_pos (Z.of_nat n)) (Z.of_nat n))) as ([] & Hrest);
    [done|cbn; by rewrite length_insert|cbn; by rewrite length_insert|cbn; lia| |by split].
  intros k Hk. cbn in Hk. change (pos_at (set_heap _ _ _) k) with (pos_at s1 k).
  unfold s1 at 1. rewrite pos_at_set by lia.
  rewrite heap_at_set; [|done|done|apply (init_pos_cell s); lia|apply (init_pos_cell s); lia].
  change (heap_at s1 (init_pos k)) with (heap_at s (init_pos k)).
  destruct (decide (Z.of_nat n = k)) as [<-|Hne].
  - split; [done|]. by case_decide.
  - destruct (Hdone k ltac:(lia)) as [E1 E2]. split; [done|]. case_decide as E; [|done].
    apply init_pos_inj in E; lia.
Qed.

Lemma new_ok data pos heap N : 0 < N -> Z.of_nat (length data) = N -> Z.of_nat (length pos) = N ->
  Z.of_nat (length heap) = N ->
  rm_ok (rolling_median_new data pos heap N) [] /\ rm_N (rolling_median_new data pos heap N) = N.
Proof.
  intros HN Hd Hp Hh. unfold rolling_median_new, clear. cbn [rm_data rm_pos rm_heap rm_N].
  set (s0 := RM data pos heap N 0 0 0 0).
  destruct (clear_loop_spec (Z.to_nat N) s0) as ([Ed EN Ei En Em Es] & Hlp & Hlh & Hk); try done.
  { cbn. lia. }
  { cbn. lia. }
  set (s := clear_loop (Z.to_nat N) s0) in *. clearbody s. cbn in Ed, EN, Ei, En, Em, Es, Hlp, Hlh, Hk.
  assert (perm_ok s) as Hok.
  { split; rewrite ?EN, ?Ed; try done.
    - intros x Hx. destruct (init_pos_onto s x) as (k & Hkr & <-); [lia|done|]. rewrite EN in Hkr.
      destruct (Hk k Hkr) as [E1 E2]. by rewrite E2.
    - intros k Hkr. destruct (Hk k Hkr) as [E1 E2]. rewrite E1. split; [|done].
      apply init_pos_cell. lia. }
  split; [|done]. split; rewrite ?Es, ?En, ?Em, ?Ei, ?EN, ?Ed; try done; try lia.
  - cbn. lia.
  - by rewrite Nat.Div0.mod_0_l.
  - intros k Hkr. by apply Hk.
  - intros j Hj. lia.
  - intros j Hj. lia.
  - unfold queue_ok. cbn. by destruct (Z.to_nat N) eqn:E; [lia|].
Qed.

Lemma insert_all_spec s vs ws : rm_ok s vs ->
  exists s', insert_all s ws = Some s' /\ rm_ok s' (vs ++ ws) /\ rm_N s' = rm_N s.
Proof.
  revert s vs; induction ws as [|w ws IH]; intros s vs Hok; cbn [insert_all].
  - exists s. by rewrite app_nil_r.
  - destruct (insert_spec s vs w Hok) as (s1 & -> & Hok1 & EN1). cbn [mbind option_bind].
    destruct (IH s1 _ Hok1) as (s2 & E & Hok2 & EN2). exists s2. rewrite <- app_assoc in Hok2.
    split; [done|]. split; [done|congruence].
Qed.

(** ** The median *)

Lemma get_mid_comm a b : get_mid a b = get_mid b a.
Proof. unfold get_mid. by rewrite (Z.add_comm (a / 2)), (Z.add_comm (u64 (a - _))). Qed.

Lemma get_mid_spec a b : is_u64 a -> is_u64 b -> get_mid a b = (a + b) / 2.
Proof.
  intros Ha Hb. unfold get_mid.
  assert (u64 (a - u64 (2 * (a / 2))) = a mod 2) as -> by zdm.
  assert (u64 (b - u64 (2 * (b / 2))) = b mod 2) as -> by zdm.
  rewrite !(wrapu_small 64); unfold is_uint in *; zdm.
Qed.

(** The cells in use hold the queue indexes in use. *)
Lemma active_perm s vs : rm_ok s vs -> 0 < rm_sz s ->
  Permutation (map (heap_at s) (seqZ (- rm_maxCt s) (rm_maxCt s + rm_minCt s + 1))) (seqZ 0 (rm_sz s)).
Proof.
  intros Hok Hz. destruct (ok_counts s vs Hok) as [Hsz Hs].
  pose proof Hok as [Hp Ez Emin Emax _ Hact Hrest _ _ _]. pose proof Hp as [HN _ _ _ Hc Hi]. pose proof Hs as [_ Hmr HMr].
  apply NoDup_Permutation.
  - apply NoDup_fmap_2_strong; [|apply NoDup_seqZ]. intros x y Hx%elem_of_seqZ Hy%elem_of_seqZ.
    apply perm_inj; [done|apply shape_cells; [done|lia]..].
  - apply NoDup_seqZ.
  - intros k. rewrite elem_of_seqZ, list_elem_of_fmap. split.
    + intros (x & -> & Hx%elem_of_seqZ). destruct (Hc x) as [Hr Hpx]; [apply shape_cells; [done|lia]|].
      split; [lia|]. destruct (decide (heap_at s x < rm_sz s)) as [|Hge]; [lia|].
      specialize (Hrest (heap_at s x) ltac:(lia)). rewrite Hpx, init_pos_value in Hrest by lia.
      destruct (counts_half (rm_sz s)) as (F1 & _ & F3); [lia|]. exfalso.
      rewrite Emin, Emax, F1, F3 in * by lia.
      destruct (odd_cases (heap_at s x)) as [[E Ho]|[E Ho]]; rewrite E in *; zdm.
    + intros Hk. destruct (Hi k ltac:(lia)) as [_ Hh]. specialize (Hact k ltac:(lia)).
      exists (pos_at s k). split; [done|]. apply elem_of_seqZ. lia.
Qed.

Lemma take_as_map (data : list Z) (z : Z) : 0 <= z <= Z.of_nat (length data) ->
  take (Z.to_nat z) data = map (fun k => nth (Z.to_nat k) data 0) (seqZ 0 z).
Proof.
  intros Hz. apply list_eq. intros i. rewrite list_lookup_fmap.
  destruct (decide (i < Z.to_nat z)%nat) as [Hi|Hi].
  - rewrite lookup_take_lt by lia. rewrite lookup_seqZ_lt by lia. cbn.
    destruct (lookup_lt_is_Some_2 data i ltac:(lia)) as [x Hx]. rewrite Hx. f_equal.
    symmetry. apply nth_lookup_Some with (d := 0). by replace (Z.to_nat (0 + Z.of_nat i)) with i by lia.
  - rewrite lookup_take_ge by lia. by rewrite lookup_seqZ_ge by lia.
Qed.

(** The values in the cells are those of the window. *)
Lemma window_perm s vs : rm_ok s vs -> 0 < rm_sz s ->
  Permutation (lastn (Z.to_nat (rm_N s)) vs)
    (map (val s) (seqZ (- rm_maxCt s) (rm_maxCt s)) ++ val s 0 :: map (val s) (seqZ 1 (rm_minCt s))).
Proof.
  intros Hok Hz. destruct (ok_counts s vs Hok) as [Hsz Hs]. pose proof Hs as [Hp Hmr HMr].
  pose proof (active_perm s vs Hok Hz) as Hact. pose proof (perm_data s Hp). pose proof (perm_N s Hp).
  assert (Permutation (lastn (Z.to_nat (rm_N s)) vs) (take (Z.to_nat (rm_sz s)) (rm_data s))) as ->.
  { pose proof (ok_queue _ _ Hok) as Hq. pose proof (ok_sz _ _ Hok) as Ez. unfold queue_ok in Hq.
    destruct (Nat.ltb_spec (length vs) (Z.to_nat (rm_N s))).
    - replace (Z.to_nat (rm_sz s)) with (length vs) by lia. rewrite Hq. unfold lastn.
      by replace (length vs - Z.to_nat (rm_N s))%nat with 0%nat by lia.
    - rewrite <- Hq, (take_ge (rm_data s) (Z.to_nat (rm_sz s))) by lia.
      rewrite Permutation_app_comm. by rewrite take_drop. }
  rewrite take_as_map by lia. rewrite <- Hact, map_map.
  change (fun x => nth (Z.to_nat (heap_at s x)) (rm_data s) 0) with (val s).
  replace (rm_maxCt s + rm_minCt s + 1) with (rm_maxCt s + (1 + rm_minCt s)) by lia.
  rewrite seqZ_app, map_app by lia. replace (- rm_maxCt s + rm_maxCt s) with 0 by lia.
  rewrite (seqZ_cons 0 (1 + rm_minCt s)) by lia. by replace (Z.pred (1 + rm_minCt s)) with (rm_minCt s) by lia.
Qed.

(** Sorting a list cut around a value. *)
Lemma merge_sort_around l x r : Forall (fun a => a <= x) l -> Forall (fun a => x <= a) r ->
  merge_sort Z.le (l ++ x :: r) = merge_sort Z.le l ++ x :: merge_sort Z.le r.
Proof.
  intros Hl Hr. apply (StronglySorted_unique Z.le); [apply merge_sort_strongly| |by rewrite !merge_sort_Permutation].
  rewrite <- (merge_sort_Permutation Z.le l) in Hl. rewrite <- (merge_sort_Permutation Z.le r) in Hr.
  apply StronglySorted_app_2; [|apply merge_sort_strongly|constructor; [apply merge_sort_strongly|done]].
  intros a b Ha Hb. rewrite Forall_forall in Hl. specialize (Hl a Ha). apply elem_of_cons in Hb as [->|Hb]; [done|].
  rewrite Forall_forall in Hr. specialize (Hr b Hb). lia.
Qed.

(** The last of a sorted list is its maximum. *)
Lemma merge_sort_last l x : x ∈ l -> Forall (fun a => a <= x) l -> nth (length l - 1) (merge_sort Z.le l) 0 = x.
Proof.
  intros Hx Hl. pose proof (merge_sort_Permutation Z.le l) as Hp. pose proof (Permutation_length Hp) as Hlen.
  assert (0 < length l)%nat by (destruct l; [by apply elem_of_nil in Hx|cbn; lia]).
  rewrite <- Hp in Hx, Hl. apply Z.le_antisymm.
  - rewrite Forall_forall in Hl. apply Hl, list_elem_of_In, nth_In. lia.
  - apply list_elem_of_In, (In_nth _ _ 0) in Hx as (i & Hi & <-).
    destruct (decide (i = length l - 1)%nat) as [->|]; [lia|].
    apply (sorted_nth Z.le); [apply merge_sort_strongly|lia].
Qed.

Lemma median_eq v : v <> [] ->
  median v = let n := (length v / 2)%nat in let sorted := merge_sort Z.le v in
    if (length v mod 2 =? 0)%nat then get_mid (nth (n - 1) sorted 0) (nth n sorted 0) else nth n sorted 0.
Proof.
  destruct v as [|x [|y v]]; [done|done|]. intros _. unfold median.
  by rewrite (Permutation_length (merge_sort_Permutation Z.le (x :: y :: v))).
Qed.

Lemma median_range v B : 0 < B <= 2 ^ 64 -> Forall (fun x => 0 <= x < B) v -> 0 <= median v < B.
Proof.
  intros HB Hv. destruct (decide (v = [])) as [->|Hne]; [cbn; lia|]. rewrite median_eq by done. cbv zeta.
  rewrite <- (merge_sort_Permutation Z.le v) in Hv. rewrite Forall_forall in Hv.
  pose proof (Permutation_length (merge_sort_Permutation Z.le v)) as Hl.
  assert (0 < length v)%nat by (destruct v; [done|cbn; lia]).
  assert (length v / 2 < length v)%nat by (apply Nat.div_lt; lia).
  assert (forall i, (i < length v)%nat -> 0 <= nth i (merge_sort Z.le v) 0 < B) as Hn
    by (intros i Hi; apply Hv, list_elem_of_In, nth_In; lia).
  pose proof (Hn (length v / 2)%nat ltac:(lia)). pose proof (Hn (length v / 2 - 1)%nat ltac:(lia)).
  case_match; [|done]. rewrite get_mid_spec by (unfold is_uint; lia). zdm.
Qed.

Lemma rm_median_spec s vs : rm_ok s vs -> vs <> [] -> rm_median s = median (lastn (Z.to_nat (rm_N s)) vs).
Proof.
  intros Hok Hne. destruct (ok_counts s vs Hok) as [Hsz Hs]. pose proof Hs as [Hp Hmr HMr].
  pose proof (perm_N s Hp). pose proof (ok_sz _ _ Hok) as Ez.
  assert (0 < rm_sz s) as Hz by (destruct vs; [done|cbn in Ez; lia]).
  pose proof (window_perm s vs Hok Hz) as Hw. set (w := lastn _ vs) in *.
  set (L := map (val s) (seqZ (- rm_maxCt s) (rm_maxCt s))) in *. set (R := map (val s) (seqZ 1 _)) in *.
  assert (Z.of_nat (length L) = rm_maxCt s) as HlL by (unfold L; rewrite length_map, length_seqZ; lia).
  assert (Z.of_nat (length R) = rm_minCt s) as HlR by (unfold R; rewrite length_map, length_seqZ; lia).
  pose proof (Permutation_length Hw) as Hlw. rewrite length_app in Hlw. cbn [length] in Hlw.
  assert (Z.of_nat (length w) = rm_sz s) as Hlws by (unfold w; rewrite length_lastn; lia).
  assert (forall x, - rm_maxCt s <= x <= 0 -> val s x <= val s 0) as HL.
  { intros x Hx. pose proof (heap_root _ _ (- x) (ok_B _ _ Hok) ltac:(lia)) as Hr.
    rewrite side_neg0, side_neg, Z.opp_involutive in Hr. lia. }
  assert (merge_sort Z.le w = merge_sort Z.le L ++ val s 0 :: merge_sort Z.le R) as Esort.
  { rewrite (merge_sort_perm _ _ Hw). apply merge_sort_around; apply Forall_fmap, Forall_forall; cbn.
    - intros x Hx%elem_of_seqZ. apply HL. lia.
    - intros x Hx%elem_of_seqZ. pose proof (heap_root _ _ x (ok_A _ _ Hok) ltac:(lia)) as Hr.
      by rewrite !side_pos in Hr. }
  destruct (counts_half (rm_sz s)) as (F1 & _ & F3); [lia|]. pose proof (ok_min _ _ Hok) as Emin. pose proof (ok_max _ _ Hok) as Emax.
  rewrite F1 in Emax. rewrite F3 in Emin by lia.
  assert (length w / 2 = length L)%nat as Ehalf.
  { apply Nat2Z.inj. rewrite Nat2Z.inj_div, Hlws, HlL. done. }
  assert (nth (length w / 2) (merge_sort Z.le w) 0 = val s 0) as Emid.
  { rewrite Esort, Ehalf, <- (Permutation_length (merge_sort_Permutation Z.le L)). apply nth_middle. }
  rewrite median_eq by (intros E; rewrite E in Hlws; cbn in Hlws; lia). cbv zeta. rewrite Emid.
  assert (Z.of_nat (length w mod 2) = rm_sz s mod 2) as Emod by (rewrite Nat2Z.inj_mod; by rewrite Hlws).
  unfold rm_median. destruct (Nat.eqb_spec (length w mod 2) 0), (Z.ltb_spec (rm_minCt s) (rm_maxCt s));
    [|zdm|zdm|done].
  rewrite get_mid_comm. f_equal. rewrite Esort.
  assert (length (merge_sort Z.le L) = length L) as El by apply (Permutation_length (merge_sort_Permutation _ _)).
  rewrite Ehalf, app_nth1 by lia. symmetry. apply merge_sort_last.
  - apply list_elem_of_fmap. exists (-1). split; [done|]. apply elem_of_seqZ. lia.
  - apply Forall_fmap, Forall_forall. cbn. intros x Hx%elem_of_seqZ.
    pose proof (heap_top _ _ (- x) (ok_B _ _ Hok) ltac:(lia)) as Hr.
    rewrite side_neg1, side_neg, Z.opp_involutive in Hr. lia.
Qed.

Lemma clear_ok s vs : rm_ok s vs -> rm_ok (clear s) [] /\ rm_N (clear s) = rm_N s.
Proof.
  intros Hok. pose proof (ok_perm _ _ Hok) as [HN Hd Hp Hh _ _].
  by apply (new_ok (rm_data s) (rm_pos s) (rm_heap s) (rm_N s)).
Qed.

(** ** Properties *)

(** C32: The rolling median is the median: whatever the allocated arrays hold,
    after the values [vs] are inserted one by one the structure counts
    [min(|vs|, N)] values and its [median()] is the median, by sorting, of the
    last [N] of them.  Every insertion ends. *)
Theorem rolling_median_correct data pos heap N vs :
  0 < N -> Z.of_nat (length data) = N -> Z.of_nat (length pos) = N -> Z.of_nat (length heap) = N -> vs <> [] ->
  exists s, insert_all (rolling_median_new data pos heap N) vs = Some s /\
    size s = Z.min (Z.of_nat (length vs)) N /\ rm_median s = median (lastn (Z.to_nat N) vs).
Proof.
  intros HN Hd Hp Hh Hne. destruct (new_ok data pos heap N HN Hd Hp Hh) as [Hok EN].
  destruct (insert_all_spec _ _ vs Hok) as (s & E & Hs & EN'). rewrite EN in EN'. cbn [app] in Hs.
  exists s. split; [done|]. rewrite <- EN'. split; [by apply ok_sz|by apply rm_median_spec].
Qed.

Lemma rolling_median_witness : exists s,
  insert_all (rolling_median_new [7; 7; 7; 7] [0; 0; 0; 0] [0; 0; 0; 0] 4) [5; 1; 9; 4; 8; 2] = Some s /\
  size s = 4 /\ rm_median s = 6.
Proof.
  destruct (rolling_median_correct [7; 7; 7; 7] [0; 0; 0; 0] [0; 0; 0; 0] 4 [5; 1; 9; 4; 8; 2])
    as (s & E & Hs & Hm); [done..|]. by exists s.
Defined.
