(* ===== verification/BlockWeight.v ===== *)
(** * Block weight limits

    The dynamic block weight of [src/cryptonote_core/blockchain.cpp]: the
    long term median with its cache, the weight limit of the next block and
    the long term weight recorded for a block.  The block database is the
    list of the blocks' hashes, weights and long term weights.

    The cache is keyed by the hash of the last block of its window, which
    stands for the chain up to that block: [chain_of] is that reading of a
    hash, and the theorems ask the chains the database goes through to agree
    with it. *)

From S2P Require Import Prelude Config Median BasicImpl.

(** ** Definitions *)

Definition null_hash : list Z := replicate 32 0.

Record block_row := BlockRow { br_hash : list Z; br_weight : Z; br_long_term : Z }.

(** [m_db]: its height and rows; a missing height throws ([None]). *)
Definition db_height (db : list block_row) : Z := Z.of_nat (length db).

Definition get_block_hash_from_height (db : list block_row) (height : Z) : option (list Z) :=
  br_hash <$> db !! Z.to_nat height.

Definition get_block_info_64bit_fields (field : block_row -> Z) (db : list block_row) (start count : Z)
    : option (list Z) :=
  if db_height db <=? start then None
  else Some (map field (take (Z.to_nat count) (drop (Z.to_nat start) db))).

Definition get_block_weights := get_block_info_64bit_fields br_weight.
Definition get_long_term_block_weights := get_block_info_64bit_fields br_long_term.
Definition get_block_long_term_weight (db : list block_row) (height : Z) : option Z :=
  br_long_term <$> db !! Z.to_nat height.

(** The members of [Blockchain] about weights. *)
Record weight_state := WeightState {
  m_current_block_cumul_weight_limit : Z;
  m_current_block_cumul_weight_median : Z;
  m_long_term_block_weights_window : Z;
  m_long_term_effective_median_block_weight : Z;
  m_long_term_block_weights_cache_tip_hash : list Z;
  m_long_term_block_weights_cache_rolling_median : rolling_median_t;
}.

Definition with_cache (st : weight_state) (tip : list Z) (rm : rolling_median_t) : weight_state :=
  WeightState (m_current_block_cumul_weight_limit st) (m_current_block_cumul_weight_median st)
    (m_long_term_block_weights_window st) (m_long_term_effective_median_block_weight st) tip rm.

Definition get_last_n_blocks_weights (db : list block_row) (count : Z) : option (list Z) :=
  let h := db_height db in
  if h =? 0 then Some []
  else
    let start_offset := h - Z.min h count in
    get_block_weights db start_offset count.

(** The uncached branch: the window is read again. *)
Definition refill_long_term_cache (st : weight_state) (db : list block_row) (start_height count : Z)
    (tip_hash : list Z) : option (Z * weight_state) :=
  weights ← get_long_term_block_weights db start_height count;
  rm ← insert_all (clear (m_long_term_block_weights_cache_rolling_median st)) weights;
  Some (rm_median rm, with_cache st tip_hash rm).

(** The median, and the object with its (mutable) cache. *)
Definition get_long_term_block_weight_median (st : weight_state) (db : list block_row)
    (start_height count : Z) : option (Z * weight_state) :=
  if count =? 0 then None
  else
    let rm := m_long_term_block_weights_cache_rolling_median st in
    let cache_tip := m_long_term_block_weights_cache_tip_hash st in
    let blockchain_height := db_height db in
    let tip_height := u64 (u64 (start_height + count) - 1) in
    tip_hash ← (if tip_height <? blockchain_height then get_block_hash_from_height db tip_height
                else Some null_hash);
    if (tip_height <? blockchain_height) && (count =? size rm) && bool_decide (tip_hash = cache_tip)
    then Some (rm_median rm, st)
    else
      let rmsize := size rm in
      if (0 <? tip_height) && (tip_height <? blockchain_height)
         && ((count =? rmsize)
             || ((count =? u64 (rmsize + 1)) && (rmsize <? CRYPTONOTE_LONG_TERM_BLOCK_WEIGHT_WINDOW_SIZE)))
      then
        old_tip_hash ← get_block_hash_from_height db (tip_height - 1);
        if bool_decide (old_tip_hash = cache_tip) then
          w ← get_block_long_term_weight db tip_height;
          rm ← insert rm w;
          Some (rm_median rm, with_cache st tip_hash rm)
        else refill_long_term_cache st db start_height count tip_hash
      else refill_long_term_cache st db start_height count tip_hash.

Definition get_current_cumulative_block_weight_limit (st : weight_state) : Z :=
  m_current_block_cumul_weight_limit st.
Definition get_current_cumulative_block_weight_median (st : weight_state) : Z :=
  m_current_block_cumul_weight_median st.

Definition get_next_long_term_block_weight (st : weight_state) (db : list block_row)
    (hf_version block_weight : Z) : option (Z * weight_state) :=
  let db_height := db_height db in
  let nblocks := Z.min (m_long_term_block_weights_window st) db_height in
  if hf_version <? HF_VERSION_LONG_TERM_BLOCK_WEIGHT then Some (block_weight, st)
  else
    '(long_term_median, st) ← get_long_term_block_weight_median st db (db_height - nblocks) nblocks;
    let effective := Z.max CRYPTONOTE_BLOCK_GRANTED_FULL_REWARD_ZONE_V5 long_term_median in
    let '(block_weight, short_term_constraint) :=
      if HF_VERSION_2021_SCALING <=? hf_version
      then (Z.max block_weight (u64 (effective * 10) / 17), u64 (effective + u64 (effective * 7) / 10))
      else (block_weight, u64 (effective + u64 (effective * 2) / 5)) in
    Some (Z.min block_weight short_term_constraint, st).

Definition update_next_cumulative_weight_limit (st : weight_state) (db : list block_row)
    (hf_version : Z) : option weight_state :=
  let db_height := db_height db in
  let full_reward_zone := get_min_block_weight hf_version in
  '(median, st) ←
    (if hf_version <? HF_VERSION_LONG_TERM_BLOCK_WEIGHT then
       weights ← get_last_n_blocks_weights db CRYPTONOTE_REWARD_BLOCKS_WINDOW;
       Some (median weights, st)
     else
       let nblocks := Z.min (m_long_term_block_weights_window st) db_height in
       '(long_term_median, st) ← get_long_term_block_weight_median st db (db_height - nblocks) nblocks;
       let effective := Z.max CRYPTONOTE_BLOCK_GRANTED_FULL_REWARD_ZONE_V5 long_term_median in
       let st := WeightState (m_current_block_cumul_weight_limit st)
         (m_current_block_cumul_weight_median st) (m_long_term_block_weights_window st) effective
         (m_long_term_block_weights_cache_tip_hash st)
         (m_long_term_block_weights_cache_rolling_median st) in
       weights ← get_last_n_blocks_weights db CRYPTONOTE_REWARD_BLOCKS_WINDOW;
       let short_term_median := median weights in
       let surge := u64 (CRYPTONOTE_SHORT_TERM_BLOCK_WEIGHT_SURGE_FACTOR * effective) in
       let base := if HF_VERSION_2021_SCALING <=? hf_version then effective
                   else CRYPTONOTE_BLOCK_GRANTED_FULL_REWARD_ZONE_V5 in
       Some (Z.min (Z.max base short_term_median) surge, st));
  let median := if median <=? full_reward_zone then full_reward_zone else median in
  Some (WeightState (u64 (median * 2)) median (m_long_term_block_weights_window st)
          (m_long_term_effective_median_block_weight st)
          (m_long_term_block_weights_cache_tip_hash st)
          (m_long_term_block_weights_cache_rolling_median st)).

(** ** The cached median *)

Section Cache.
Variable chain_of : list Z -> list block_row.
Hypothesis chain_null : chain_of null_hash = [].

(** The hash of each block of the chain stands for the chain up to it. *)
Definition chain_agrees (db : list block_row) : Prop :=
  forall h row, db !! h = Some row -> chain_of (br_hash row) = take (S h) db.

(** The cache holds the long term weights of the window that ends at its tip. *)
Record cache_ok (st : weight_state) : Prop := {
  cache_window : 0 < m_long_term_block_weights_window st < 2 ^ 31;
  cache_N : rm_N (m_long_term_block_weights_cache_rolling_median st) = m_long_term_block_weights_window st;
  cache_values : exists ws, rm_ok (m_long_term_block_weights_cache_rolling_median st) ws /\
    lastn (Z.to_nat (m_long_term_block_weights_window st)) ws =
    lastn (Z.to_nat (m_long_term_block_weights_window st))
      (map br_long_term (chain_of (m_long_term_block_weights_cache_tip_hash st)));
}.

(** The median of the cache, when it is for the chain [db]. *)
Lemma cache_median st ws db :
  0 < m_long_term_block_weights_window st ->
  rm_N (m_long_term_block_weights_cache_rolling_median st) = m_long_term_block_weights_window st ->
  rm_ok (m_long_term_block_weights_cache_rolling_median st) ws -> db <> [] ->
  lastn (Z.to_nat (m_long_term_block_weights_window st)) ws =
    lastn (Z.to_nat (m_long_term_block_weights_window st)) (map br_long_term db) ->
  rm_median (m_long_term_block_weights_cache_rolling_median st) =
    median (lastn (Z.to_nat (m_long_term_block_weights_window st)) (map br_long_term db)).
Proof.
  intros HW HN Hok Hne E. rewrite <- E, <- HN. apply rm_median_spec; [done|]. intros ->.
  symmetry in E. replace (lastn _ []) with ([] : list Z) in E by (by unfold lastn; rewrite drop_nil).
  apply lastn_nil in E; [|lia]. by destruct db.
Qed.

Lemma window_rows (db : list block_row) (n : Z) : 0 <= n <= db_height db ->
  take (Z.to_nat n) (drop (Z.to_nat (db_height db - n)) db) = lastn (Z.to_nat n) db.
Proof.
  intros Hn. unfold db_height, lastn in *. rewrite take_ge by (rewrite length_drop; lia). f_equal. lia.
Qed.


(** Same members but for the cache. *)
Definition same_limits (st st' : weight_state) : Prop :=
  exists tip rm, st' = with_cache st tip rm.

Lemma same_limits_refl st : same_limits st st.
Proof.
  exists (m_long_term_block_weights_cache_tip_hash st), (m_long_term_block_weights_cache_rolling_median st).
  by destruct st.
Qed.

(** The cache of a new object. *)
Lemma cache_ok_new st :
  0 < m_long_term_block_weights_window st < 2 ^ 31 ->
  rm_ok (m_long_term_block_weights_cache_rolling_median st) [] ->
  rm_N (m_long_term_block_weights_cache_rolling_median st) = m_long_term_block_weights_window st ->
  m_long_term_block_weights_cache_tip_hash st = null_hash -> cache_ok st.
Proof.
  intros HW Hok HN Htip. split; [done|done|]. exists []. split; [done|]. by rewrite Htip, chain_null.
Qed.

Lemma refill_spec st db tip_hash :
  cache_ok st -> 0 < db_height db -> chain_of tip_hash = db ->
  let W := m_long_term_block_weights_window st in
  let n := Z.min W (db_height db) in
  exists st', refill_long_term_cache st db (db_height db - n) n tip_hash
      = Some (median (lastn (Z.to_nat W) (map br_long_term db)), st') /\
    cache_ok st' /\ same_limits st st'.
Proof.
  intros [HW HN (ws & Hok & _)] Hpos Htip W n. unfold refill_long_term_cache, get_long_term_block_weights,
    get_block_info_64bit_fields. destruct (Z.leb_spec (db_height db) (db_height db - n)); [lia|].
  cbn [mbind option_bind]. rewrite window_rows by lia.
  assert (lastn (Z.to_nat n) db = lastn (Z.to_nat W) db) as ->.
  { rewrite <- (lastn_min (Z.to_nat W)). f_equal. unfold n, db_height. lia. }
  destruct (clear_ok _ _ Hok) as [Hc HcN].
  destruct (insert_all_spec _ _ (map br_long_term (lastn (Z.to_nat W) db)) Hc) as (rm & E & Hrm & EN).
  rewrite E. cbn [mbind option_bind app] in *. rewrite map_lastn in *.
  assert (cache_ok (with_cache st tip_hash rm)) as Hst.
  { split; [done|cbn; congruence|]. cbn. exists (lastn (Z.to_nat W) (map br_long_term db)).
    split; [done|]. by rewrite Htip, lastn_idem. }
  exists (with_cache st tip_hash rm). split; [|split; [done|by exists tip_hash, rm]]. do 2 f_equal.
  apply (cache_median (with_cache st tip_hash rm) (lastn (Z.to_nat W) (map br_long_term db)) db);
    [cbn; lia|cbn; congruence|done|by destruct db|apply lastn_idem].
Qed.

Lemma long_term_median_spec st db :
  cache_ok st -> chain_agrees db -> 0 < db_height db < 2 ^ 63 ->
  let W := m_long_term_block_weights_window st in
  let n := Z.min W (db_height db) in
  exists st', get_long_term_block_weight_median st db (db_height db - n) n
      = Some (median (lastn (Z.to_nat W) (map br_long_term db)), st') /\
    cache_ok st' /\ same_limits st st'.
Proof.
  intros Hst Hdb HH W n. pose proof Hst as [HW HN (ws & Hok & Hws)]. fold W in HW, HN, Hws.
  unfold get_long_term_block_weight_median. fold W n. destruct (Z.eqb_spec n 0); [lia|].
  rewrite (wrapu_small 64 (db_height db - n + n)), (wrapu_small 64 (_ - 1)) by (unfold is_uint; lia).
  replace (db_height db - n + n - 1) with (db_height db - 1) by lia.
  destruct (Z.ltb_spec (db_height db - 1) (db_height db)); [|lia]. unfold get_block_hash_from_height.
  destruct (lookup_lt_is_Some_2 db (Z.to_nat (db_height db - 1)) ltac:(unfold db_height in *; lia)) as [row Hrow].
  rewrite Hrow. cbn [fmap option_fmap option_map mbind option_bind andb].
  pose proof (Hdb _ _ Hrow) as Htip. rewrite take_ge in Htip by (unfold db_height in *; lia).
  pose proof (refill_spec st db (br_hash row) Hst ltac:(lia) Htip) as Hrefill. cbv zeta in Hrefill. fold W n in Hrefill.
  destruct ((n =? size _) && bool_decide _) eqn:Ecached.
  { apply andb_true_iff in Ecached as [_ Et%bool_decide_eq_true].
    exists st. split; [|split; [done|apply same_limits_refl]]. do 2 f_equal.
    apply (cache_median st ws db); [lia|done|done|by destruct db|]. fold W. by rewrite Hws, <- Et, Htip. }
  rewrite andb_true_r. destruct (Z.ltb_spec 0 (db_height db - 1)) as [Hgt|]; cbn [andb]; [|done].
  destruct (_ || _); [|exact Hrefill].
  destruct (lookup_lt_is_Some_2 db (Z.to_nat (db_height db - 1 - 1)) ltac:(unfold db_height in *; lia)) as [old Hold].
  rewrite Hold. cbn [fmap option_fmap option_map mbind option_bind].
  destruct (bool_decide (br_hash old = _)) eqn:Eold; [|exact Hrefill]. apply bool_decide_eq_true in Eold.
  unfold get_block_long_term_weight. rewrite Hrow. cbn [fmap option_fmap option_map mbind option_bind].
  destruct (insert_spec _ _ (br_long_term row) Hok) as (rm & E & Hrm & EN). rewrite E. cbn [mbind option_bind].
  assert (lastn (Z.to_nat W) (ws ++ [br_long_term row]) = lastn (Z.to_nat W) (map br_long_term db)) as Hw.
  { rewrite <- (lastn_app_lastn _ ws) by (cbn [length]; lia). rewrite Hws, <- Eold, (Hdb _ _ Hold).
    rewrite lastn_app_lastn by (cbn [length]; lia). f_equal. change [br_long_term row] with (map br_long_term [row]). rewrite <- map_app. f_equal.
    rewrite <- (take_S_r db (S (Z.to_nat (db_height db - 1 - 1))) row).
    - rewrite take_ge by (unfold db_height in *; lia). done.
    - rewrite <- Hrow. f_equal. lia. }
  exists (with_cache st (br_hash row) rm). split; [|split; [|by exists (br_hash row), rm]].
  - do 2 f_equal. apply (cache_median (with_cache st (br_hash row) rm) (ws ++ [br_long_term row]) db);
      [cbn; fold W; lia|cbn; fold W; congruence|done|by destruct db|done].
  - split; [done|cbn; fold W; congruence|]. cbn. exists (ws ++ [br_long_term row]). split; [done|]. by rewrite Htip.
Qed.

(** The median at one chain after another, the cache carried along. *)
Fixpoint run_medians (st : weight_state) (dbs : list (list block_row)) : option (list Z * weight_state) :=
  match dbs with
  | [] => Some ([], st)
  | db :: dbs =>
      let n := Z.min (m_long_term_block_weights_window st) (db_height db) in
      '(m, st) ← get_long_term_block_weight_median st db (db_height db - n) n;
      '(ms, st) ← run_medians st dbs;
      Some (m :: ms, st)
  end.

Lemma run_medians_spec st dbs : cache_ok st ->
  Forall (fun db => chain_agrees db /\ 0 < db_height db < 2 ^ 63) dbs ->
  exists st', run_medians st dbs =
    Some (map (fun db => median (lastn (Z.to_nat (m_long_term_block_weights_window st)) (map br_long_term db))) dbs,
          st').
Proof.
  intros Hst Hdbs. revert st Hst; induction Hdbs as [|db dbs [Hdb HH] _ IH]; intros st Hst; cbn [run_medians map].
  { by exists st. }
  destruct (long_term_median_spec st db Hst Hdb HH) as (st1 & -> & Hst1 & tip & rm & ->). cbn [mbind option_bind].
  destruct (IH _ Hst1) as (st2 & ->). by exists st2.
Qed.

(** *** The limit *)

Definition short_term_median (db : list block_row) : Z :=
  median (lastn (Z.to_nat CRYPTONOTE_REWARD_BLOCKS_WINDOW) (map br_weight db)).
Definition long_term_effective (W : Z) (db : list block_row) : Z :=
  Z.max CRYPTONOTE_BLOCK_GRANTED_FULL_REWARD_ZONE_V5 (median (lastn (Z.to_nat W) (map br_long_term db))).

(** The median weight the rules give for the block after [db]. *)
Definition expected_median (hf_version W : Z) (db : list block_row) : Z :=
  Z.max (get_min_block_weight hf_version)
    (if hf_version <? HF_VERSION_LONG_TERM_BLOCK_WEIGHT then short_term_median db
     else Z.min (Z.max (if HF_VERSION_2021_SCALING <=? hf_version then long_term_effective W db
                        else CRYPTONOTE_BLOCK_GRANTED_FULL_REWARD_ZONE_V5) (short_term_median db))
            (CRYPTONOTE_SHORT_TERM_BLOCK_WEIGHT_SURGE_FACTOR * long_term_effective W db)).

Definition weights_ok (db : list block_row) : Prop :=
  Forall (fun r => 0 <= br_weight r < 2 ^ 56 /\ 0 <= br_long_term r < 2 ^ 56) db.

Lemma Forall_lastn {A} (P : A -> Prop) n l : Forall P l -> Forall P (lastn n l).
Proof. apply Forall_drop. Qed.

Lemma medians_range W db : weights_ok db ->
  0 <= short_term_median db < 2 ^ 56 /\ 300000 <= long_term_effective W db < 2 ^ 56.
Proof.
  intros Hdb. unfold short_term_median, long_term_effective, CRYPTONOTE_BLOCK_GRANTED_FULL_REWARD_ZONE_V5.
  split; [apply median_range; [lia|]|].
  - apply Forall_lastn, Forall_fmap. eapply Forall_impl; [exact Hdb|]. cbn. tauto.
  - enough (0 <= median (lastn (Z.to_nat W) (map br_long_term db)) < 2 ^ 56) by lia.
    apply median_range; [lia|]. apply Forall_lastn, Forall_fmap.
    eapply Forall_impl; [exact Hdb|]. cbn. tauto.
Qed.

Lemma last_weights_spec db : 0 < db_height db ->
  median <$> get_last_n_blocks_weights db CRYPTONOTE_REWARD_BLOCKS_WINDOW = Some (short_term_median db).
Proof.
  intros Hpos. unfold get_last_n_blocks_weights, get_block_weights, get_block_info_64bit_fields.
  destruct (Z.eqb_spec (db_height db) 0) as [|_]; [lia|].
  set (n := Z.min (db_height db) CRYPTONOTE_REWARD_BLOCKS_WINDOW).
  assert (0 < n <= db_height db) as Hn by (unfold n, CRYPTONOTE_REWARD_BLOCKS_WINDOW; lia).
  destruct (Z.leb_spec (db_height db) (db_height db - n)); [lia|]. cbn. unfold short_term_median.
  do 2 f_equal. rewrite <- map_lastn. f_equal. unfold lastn, n, db_height in *.
  rewrite take_ge by (rewrite length_drop; unfold CRYPTONOTE_REWARD_BLOCKS_WINDOW; lia).
  f_equal. unfold CRYPTONOTE_REWARD_BLOCKS_WINDOW. lia.
Qed.

Lemma min_block_weight_range hf_version : 0 <= get_min_block_weight hf_version <= 300000 /\
  (5 <= hf_version -> get_min_block_weight hf_version = 300000).
Proof.
  unfold get_min_block_weight, CRYPTONOTE_BLOCK_GRANTED_FULL_REWARD_ZONE_V1,
    CRYPTONOTE_BLOCK_GRANTED_FULL_REWARD_ZONE_V2, CRYPTONOTE_BLOCK_GRANTED_FULL_REWARD_ZONE_V5.
  repeat bcase; split; lia.
Qed.

Lemma update_limit_spec st db hf_version :
  cache_ok st -> chain_agrees db -> weights_ok db -> 0 < db_height db < 2 ^ 63 ->
  exists st', update_next_cumulative_weight_limit st db hf_version = Some st' /\ cache_ok st' /\
    m_long_term_block_weights_window st' = m_long_term_block_weights_window st /\
    m_current_block_cumul_weight_median st'
      = expected_median hf_version (m_long_term_block_weights_window st) db /\
    m_current_block_cumul_weight_limit st' = 2 * m_current_block_cumul_weight_median st'.
Proof.
  intros Hst Hdb Hw HH. set (W := m_long_term_block_weights_window st).
  destruct (medians_range W db Hw) as [Hs Hl]. destruct (min_block_weight_range hf_version) as [Hz _].
  pose proof (last_weights_spec db ltac:(lia)) as Hlast.
  destruct (get_last_n_blocks_weights db _) as [ws|] eqn:Ews; [|done]. cbn in Hlast. injection Hlast as Hlast.
  unfold update_next_cumulative_weight_limit, expected_median. rewrite Ews.
  destruct (hf_version <? HF_VERSION_LONG_TERM_BLOCK_WEIGHT).
  - cbn [mbind option_bind]. rewrite Hlast. eexists. split; [done|]. split; [by destruct Hst|].
    split; [done|]. cbn. split; [bcase; lia|]. rewrite Z.mul_comm. apply wrapu_small. unfold is_uint. bcase; lia.
  - destruct (long_term_median_spec st db Hst Hdb HH) as (st1 & -> & Hst1 & tip & rm & ->). cbn [mbind option_bind].
    rewrite Hlast. fold W. fold (long_term_effective W db).
    cbn [m_long_term_block_weights_window m_long_term_effective_median_block_weight with_cache
      m_long_term_block_weights_cache_tip_hash m_long_term_block_weights_cache_rolling_median].
    eexists. split; [done|]. split; [by destruct Hst1|]. split; [done|].
    cbn [m_current_block_cumul_weight_limit m_current_block_cumul_weight_median].
    set (base := if HF_VERSION_2021_SCALING <=? hf_version then _ else _).
    assert (300000 <= base < 2 ^ 56) as Hb
      by (unfold base, CRYPTONOTE_BLOCK_GRANTED_FULL_REWARD_ZONE_V5; case_match; lia).
    unfold CRYPTONOTE_SHORT_TERM_BLOCK_WEIGHT_SURGE_FACTOR.
    rewrite (wrapu_small 64 (50 * _)) by (unfold is_uint; lia).
    set (m := Z.min _ _). assert (0 <= m < 2 ^ 62) by (unfold m; lia).
    split; [bcase; lia|]. rewrite Z.mul_comm. apply wrapu_small. unfold is_uint. bcase; lia.
Qed.

Lemma next_long_term_spec st db hf_version block_weight :
  cache_ok st -> chain_agrees db -> weights_ok db -> 0 < db_height db < 2 ^ 63 ->
  HF_VERSION_LONG_TERM_BLOCK_WEIGHT <= hf_version ->
  let effective := long_term_effective (m_long_term_block_weights_window st) db in
  exists st', get_next_long_term_block_weight st db hf_version block_weight =
    Some (if HF_VERSION_2021_SCALING <=? hf_version
          then Z.min (Z.max block_weight (effective * 10 / 17)) (effective + effective * 7 / 10)
          else Z.min block_weight (effective + effective * 2 / 5), st') /\ cache_ok st'.
Proof.
  intros Hst Hdb Hw HH Hhf effective. unfold get_next_long_term_block_weight.
  destruct (Z.ltb_spec hf_version HF_VERSION_LONG_TERM_BLOCK_WEIGHT); [lia|].
  destruct (long_term_median_spec st db Hst Hdb HH) as (st1 & -> & Hst1 & _). cbn [mbind option_bind].
  fold (long_term_effective (m_long_term_block_weights_window st) db). fold effective.
  destruct (medians_range (m_long_term_block_weights_window st) db Hw) as [_ Hl]. fold effective in Hl.
  assert (0 <= effective * 7 / 10 < 2 ^ 59) by zdm. assert (0 <= effective * 2 / 5 < 2 ^ 59) by zdm.
  rewrite (wrapu_small 64 (effective * 10)), (wrapu_small 64 (effective * 7)), (wrapu_small 64 (effective * 2)),
    (wrapu_small 64 (effective + effective * 7 / 10)), (wrapu_small 64 (effective + effective * 2 / 5))
    by (unfold is_uint; lia).
  exists st1. destruct (_ <=? hf_version); done.
Qed.
End Cache.

(** ** Properties *)

(** C33: The cache of the long term median never shows: starting from a new
    object, for any sequence of chains the database goes through (blocks
    added, popped, reorganised) the cached computation returns at each chain
    the median of the long term weights of its last [window] blocks. *)
Theorem long_term_cache_correct chain_of limit med window effective data pos heap dbs :
  chain_of null_hash = [] -> 0 < window < 2 ^ 31 ->
  Z.of_nat (length data) = window -> Z.of_nat (length pos) = window -> Z.of_nat (length heap) = window ->
  Forall (fun db => chain_agrees chain_of db /\ 0 < db_height db < 2 ^ 63) dbs ->
  exists st', run_medians (WeightState limit med window effective null_hash
                             (rolling_median_new data pos heap window)) dbs
    = Some (map (fun db => median (lastn (Z.to_nat window) (map br_long_term db))) dbs, st').
Proof.
  intros Hnull HW Hd Hp Hh Hdbs. destruct (new_ok data pos heap window ltac:(lia) Hd Hp Hh) as [Hok HN].
  apply (run_medians_spec chain_of); [|done]. by apply cache_ok_new.
Qed.

(** The weight limit of the next block is twice the median weight of the
    rules: the short term median below fork 10, and from then on the short
    term median kept between the long term one (from fork 15) and 50 times
    it, never below the minimum weight.  The cache stays valid. *)
Theorem weight_limit_correct chain_of st db hf_version :
  cache_ok chain_of st -> chain_agrees chain_of db -> weights_ok db -> 0 < db_height db < 2 ^ 63 ->
  let W := m_long_term_block_weights_window st in
  exists st', update_next_cumulative_weight_limit st db hf_version = Some st' /\ cache_ok chain_of st' /\
    let m := m_current_block_cumul_weight_median st' in
    m = expected_median hf_version W db /\ m_current_block_cumul_weight_limit st' = 2 * m /\
    get_min_block_weight hf_version <= m /\
    (HF_VERSION_LONG_TERM_BLOCK_WEIGHT <= hf_version -> m <= 50 * long_term_effective W db) /\
    (HF_VERSION_2021_SCALING <= hf_version -> long_term_effective W db <= m).
Proof.
  intros Hst Hdb Hw HH W. destruct (update_limit_spec chain_of st db hf_version Hst Hdb Hw HH)
    as (st' & E & Hst' & _ & Em & El). exists st'. split; [done|]. split; [done|]. cbv zeta.
  rewrite El, Em. fold W. split; [done|]. split; [done|].
  destruct (medians_range W db Hw) as [Hs Hl]. destruct (min_block_weight_range hf_version) as [Hz Hz5].
  unfold expected_median, HF_VERSION_LONG_TERM_BLOCK_WEIGHT, HF_VERSION_2021_SCALING,
    CRYPTONOTE_SHORT_TERM_BLOCK_WEIGHT_SURGE_FACTOR, CRYPTONOTE_BLOCK_GRANTED_FULL_REWARD_ZONE_V5.
  split; [lia|]. split; intros Hv; repeat bcase; lia.
Qed.

(** The long term weight recorded for a block is its weight clamped to a
    band around the effective long term median: from fork 15 between 10/17 of
    it and 1.7 times it, before that at most 1.4 times it. *)
Theorem long_term_weight_clamped chain_of st db hf_version block_weight :
  cache_ok chain_of st -> chain_agrees chain_of db -> weights_ok db -> 0 < db_height db < 2 ^ 63 ->
  HF_VERSION_LONG_TERM_BLOCK_WEIGHT <= hf_version ->
  let e := long_term_effective (m_long_term_block_weights_window st) db in
  exists w st', get_next_long_term_block_weight st db hf_version block_weight = Some (w, st') /\
    cache_ok chain_of st' /\
    if HF_VERSION_2021_SCALING <=? hf_version
    then e * 10 / 17 <= w <= e + e * 7 / 10 /\ (e * 10 / 17 <= block_weight <= e + e * 7 / 10 -> w = block_weight)
    else w <= e + e * 2 / 5 /\ (block_weight <= e + e * 2 / 5 -> w = block_weight).
Proof.
  intros Hst Hdb Hw HH Hhf e.
  destruct (next_long_term_spec chain_of st db hf_version block_weight Hst Hdb Hw HH Hhf) as (st' & E & Hst').
  cbv zeta in E. fold e in E. eexists _, st'. split; [exact E|]. split; [done|].
  destruct (medians_range (m_long_term_block_weights_window st) db Hw) as [_ Hl]. fold e in Hl. clearbody e.
  assert (e * 10 / 17 <= e + e * 7 / 10) by zdm.
  destruct (HF_VERSION_2021_SCALING <=? hf_version); lia.
Qed.

(** *** Instances *)

Definition example_rows : list block_row :=
  [BlockRow (replicate 32 1) 400000 400000; BlockRow (replicate 32 2) 100 100; BlockRow (replicate 32 3) 600000 600000].

Definition example_chain_of (h : list Z) : list block_row :=
  if bool_decide (h = replicate 32 1) then take 1 example_rows
  else if bool_decide (h = replicate 32 2) then take 2 example_rows
  else if bool_decide (h = replicate 32 3) then example_rows else [].

Lemma example_agrees n : (n <= 3)%nat -> chain_agrees example_chain_of (take n example_rows).
Proof.
  intros Hn h row Hrow. assert (h < n)%nat as Hh by (apply lookup_lt_Some in Hrow; rewrite length_take in Hrow; lia).
  rewrite lookup_take_lt in Hrow by done. rewrite take_take, Nat.min_l by lia.
  destruct h as [|[|[|h]]]; cbn in Hrow; [..|lia]; injection Hrow as <-; by vm_compute.
Qed.

Definition example_state : weight_state :=
  WeightState 0 0 2 0 null_hash (rolling_median_new [9; 9] [9; 9] [9; 9] 2).

Lemma example_cache : cache_ok example_chain_of example_state.
Proof. apply cache_ok_new; [by vm_compute|done|apply new_ok; done|done|done]. Qed.

Lemma long_term_cache_witness : exists st',
  run_medians example_state [take 1 example_rows; take 2 example_rows; example_rows; take 2 example_rows]
    = Some ([400000; 200050; 300050; 200050], st').
Proof.
  apply (long_term_cache_correct example_chain_of); [by vm_compute|done|done|done|done|].
  repeat constructor; try by vm_compute.
  1, 2, 4: apply example_agrees; lia. apply (example_agrees 3); lia.
Defined.

Lemma example_weights : weights_ok example_rows.
Proof. repeat constructor; by vm_compute. Qed.

Lemma weight_limit_witness : exists st', update_next_cumulative_weight_limit example_state example_rows 15 = Some st' /\
  m_current_block_cumul_weight_limit st' = 800000.
Proof.
  destruct (weight_limit_correct example_chain_of example_state example_rows 15 example_cache
    (example_agrees 3 ltac:(lia)) example_weights ltac:(done)) as (st' & E & _ & Em & El & _).
  exists st'. split; [done|]. rewrite El, Em. by vm_compute.
Defined.

Lemma long_term_weight_witness : exists w st',
  get_next_long_term_block_weight example_state example_rows 15 10 = Some (w, st') /\ 176500 <= w.
Proof.
  destruct (long_term_weight_clamped example_chain_of example_state example_rows 15 10 example_cache
    (example_agrees 3 ltac:(lia)) example_weights ltac:(done) ltac:(done)) as (w & st' & E & _ & [Hw _] & _).
  exists w, st'. split; [done|]. eapply Z.le_trans; [|exact Hw]. by vm_compute.
Defined.
