(* ===== verification/BlockRules.v ===== *)
(** * Consensus rules of the block chain

    Rules of [src/cryptonote_core/blockchain.cpp] on one transaction or block:
    the fee and its estimate, the block time and lock times, the miner
    transaction and the output types of each fork.  What the rules read from the
    database (timestamps, weights, generated coins) and the
    system time are arguments. *)

From S2P Require Import Prelude Config IntUtil BinaryArchive RctTypes TxFormat FormatUtils Median BasicImpl BlockWeight.

(** ** Definitions *)

(** *** Fees *)

Definition CRYPTONOTE_DISPLAY_DECIMAL_POINT : Z := 12.

Definition get_fee_quantization_mask : Z :=
  10 ^ (CRYPTONOTE_DISPLAY_DECIMAL_POINT - PER_KB_FEE_QUANTIZATION_DECIMALS).

(** [None]: division by zero, or the assert that fails. *)
Definition get_dynamic_base_fee (block_reward median_block_weight : Z) : option Z :=
  let min_block_weight := CRYPTONOTE_BLOCK_GRANTED_FULL_REWARD_ZONE_V5 in
  let median_block_weight :=
    if median_block_weight <? min_block_weight then min_block_weight else median_block_weight in
  let '(lo, hi) := mul128 block_reward DYNAMIC_FEE_REFERENCE_TRANSACTION_WEIGHT in
  '((hi, lo), _) ← div128_64 hi lo median_block_weight;
  '((hi, lo), _) ← div128_64 hi lo median_block_weight;
  if negb (hi =? 0) then None
  else
    let lo := lo - lo / 20 in
    Some (if lo =? 0 then 1 else lo).

(** [st] holds the weight members of the object, [generated] the coins
    generated up to each block of the database. *)
Definition check_fee (st : weight_state) (generated : list Z) (version tx_weight fee : Z) : option bool :=
  let median := m_current_block_cumul_weight_limit st / 2 in
  let already_generated_coins := default 0 (last generated) in
  match get_block_reward median 1 already_generated_coins version with
  | None => Some false
  | Some base_reward =>
      fee_per_byte ← get_dynamic_base_fee base_reward 
        (Z.min median (m_long_term_effective_median_block_weight st));
      let needed_fee := u64 (tx_weight * fee_per_byte) in
      let mask := get_fee_quantization_mask in
      let needed_fee := u64 (u64 (u64 (needed_fee + mask) - 1) / mask * mask) in
      if fee <? u64 (needed_fee - needed_fee / 50) then Some false else Some true
  end.

(** [get_dynamic_base_fee_estimate_2021_scaling(base_reward, Mnw, Mlw, fees)]:
    the four fees; [None] is a division by zero or a rounding that throws. *)
Definition fee_estimate_2021 (base_reward Mnw Mlw : Z) : option (list Z) :=
  let ref := DYNAMIC_FEE_REFERENCE_TRANSACTION_WEIGHT in
  let zone := CRYPTONOTE_BLOCK_GRANTED_FULL_REWARD_ZONE_V5 in
  let Mfw := Z.min Mnw Mlw in
  let udiv a b := if b =? 0 then None else Some (a / b) in
  Fl ← udiv (u64 (base_reward * ref)) (u64 (Mfw * Mfw));
  Fn ← udiv (u64 (u64 (4 * base_reward) * ref)) (u64 (Mfw * Mfw));
  Fm ← udiv (u64 (u64 (16 * base_reward) * ref)) (u64 (zone * Mfw));
  Fs ← udiv (u64 (u64 (4 * Fm) * Mfw)) (u64 (32 * ref * Mnw) / zone);
  let Fh := Z.max (u64 (4 * Fm)) Fs in
  mapM (fun f => round_money_up f CRYPTONOTE_SCALING_2021_FEE_ROUNDING_PLACES) [Fl; Fn; Fm; Fh].

Definition BLOCK_REWARD_OVERESTIMATE : Z := 10 * 1000000000000.

(** [get_dynamic_base_fee_estimate_2021_scaling(grace_blocks, fees)]; the
    rolling median is a copy, so the members do not change. *)
Definition get_dynamic_base_fee_estimate_2021_scaling (st : weight_state) (db : list block_row)
    (generated : list Z) (version grace_blocks : Z) : option (list Z) :=
  if negb (grace_blocks <=? CRYPTONOTE_REWARD_BLOCKS_WINDOW) then None
  else
    let zeroes := replicate (Z.to_nat grace_blocks) 0 in
    rm ← insert_all (m_long_term_block_weights_cache_rolling_median st) zeroes;
    let Mlw := Z.max (if size rm =? 0 then 0 else rm_median rm) CRYPTONOTE_BLOCK_GRANTED_FULL_REWARD_ZONE_V5 in
    weights ← get_last_n_blocks_weights db (100 - grace_blocks);
    let Msw := Z.max (median (weights ++ zeroes)) Mlw in
    let Mnw := Z.min Msw (u64 (50 * Mlw)) in
    let already_generated_coins := default 0 (last generated) in
    let base_reward :=
      match get_block_reward (m_current_block_cumul_weight_limit st / 2) 1 already_generated_coins version with
      | Some base_reward => base_reward
      | None => BLOCK_REWARD_OVERESTIMATE
      end in
    fee_estimate_2021 base_reward Mnw Mlw.

(** *** Time *)

(** The verdict and [*median_ts_out]. *)
Definition check_block_timestamp (timestamps : list Z) (timestamp now : Z) : bool * Z :=
  if u64 (now + CRYPTONOTE_BLOCK_FUTURE_TIME_LIMIT) <? timestamp then (false, 0)
  else if (length timestamps <? BLOCKCHAIN_TIMESTAMP_CHECK_WINDOW)%nat then (true, 0)
  else
    let median_ts := median timestamps in
    (negb (timestamp <? median_ts), median_ts).

(** [db]: the timestamps of the chain. *)
Definition check_block_timestamp_main_chain (db : list Z) (timestamp now : Z) : bool * Z :=
  let h := length db in
  let offset := if (BLOCKCHAIN_TIMESTAMP_CHECK_WINDOW <=? h)%nat
                then (h - BLOCKCHAIN_TIMESTAMP_CHECK_WINDOW)%nat else 0%nat in
  check_block_timestamp (drop offset db) timestamp now.

(** [None]: a height that is not in the chain throws. *)
Definition get_adjusted_time (db : list Z) (height now : Z) : option Z :=
  let window := Z.of_nat BLOCKCHAIN_TIMESTAMP_CHECK_WINDOW in
  if height <? window then Some now
  else
    timestamps ← mapM (fun i => db !! i) (seq (Z.to_nat (height - window)) (Z.to_nat window));
    let median_ts := u64 (median timestamps + (window + 1) * DIFFICULTY_TARGET_V2 / 2) in
    back ← last timestamps;
    let adjusted_current_block_ts := u64 (back + DIFFICULTY_TARGET_V2) in
    Some (if adjusted_current_block_ts <? median_ts then adjusted_current_block_ts else median_ts).

Definition is_tx_spendtime_unlocked (db : list Z) (now current_version unlock_time hf_version : Z)
    : option bool :=
  let height := Z.of_nat (length db) in
  if unlock_time <? CRYPTONOTE_MAX_BLOCK_NUMBER then
    Some (unlock_time <=? u64 (u64 (height - 1) + CRYPTONOTE_LOCKED_TX_ALLOWED_DELTA_BLOCKS))
  else
    current_time ← (if HF_VERSION_DETERMINISTIC_UNLOCK_TIME <=? hf_version
                    then get_adjusted_time db height now else Some now);
    let delta := if current_version <? 2 then CRYPTONOTE_LOCKED_TX_ALLOWED_DELTA_SECONDS_V1
                 else CRYPTONOTE_LOCKED_TX_ALLOWED_DELTA_SECONDS_V2 in
    Some (unlock_time <=? u64 (current_time + delta)).

(** *** The miner transaction *)

Definition prevalidate_miner_transaction (b : block) (height hf_version : Z) : bool :=
  let p := tx_prefix (miner_tx b) in
  match vin p with
  | [Txin_gen h] =>
      if negb ((1 <? version p) || (hf_version <? HF_VERSION_MIN_V2_COINBASE_TX)) then false
      else if (HF_VERSION_REJECT_SIGS_IN_COINBASE <=? hf_version) && (2 <=? version p)
              && negb (rct_type (rct_base (rct_signatures (tx_sig (miner_tx b)))) =? RCTTypeNull) then false
      else if negb (h =? height) then false
      else if negb (unlock_time p =? u64 (height + CRYPTONOTE_MINED_MONEY_UNLOCK_WINDOW)) then false
      else if negb (check_outs_overflow (miner_tx b)) then false
      else check_output_types (miner_tx b) hf_version
  | _ => false
  end.

(** [base_reward] and [partial_block_reward] of an accepted miner transaction;
    [None] where the function returns false or throws. *)
Definition validate_miner_transaction (st : weight_state) (db : list block_row) (b : block)
    (cumulative_block_weight fee already_generated_coins version : Z) : option (Z * bool) :=
  let money_in_use := get_outs_money_amount (miner_tx b) in
  decomposed ← (if version =? 3 then
                  mapM (fun o => is_valid_decomposed_amount (out_amount o)) (vout (tx_prefix (miner_tx b)))
                else Some []);
  if negb (forallb id decomposed) then None
  else
    median_weight ← (if HF_VERSION_EFFECTIVE_SHORT_TERM_MEDIAN_IN_PENALTY <=? version
                     then Some (m_current_block_cumul_weight_median st)
                     else
                       last_blocks_weights ← get_last_n_blocks_weights db CRYPTONOTE_REWARD_BLOCKS_WINDOW;
                       Some (median last_blocks_weights));
    base_reward ← get_block_reward median_weight cumulative_block_weight already_generated_coins version;
    if u64 (base_reward + fee) <? money_in_use then None
    else if (version <? 2) || (HF_VERSION_EXACT_COINBASE <=? version) then
      if negb (u64 (base_reward + fee) =? money_in_use) then None else Some (base_reward, false)
    else if negb (u64 (money_in_use - fee) <=? base_reward) then None
    else Some (u64 (money_in_use - fee), negb (u64 (base_reward + fee) =? money_in_use)).

(** *** Outputs *)

(** The two transactions let in although they are not CLSAG. *)
Definition grandfathered : list (list Z) := [
  [0xc5; 0x15; 0x19; 0x44; 0xf0; 0x58; 0x30; 0x97; 0xba; 0x0c; 0x88; 0xcd; 0x0f; 0x43; 0xe7; 0xfa;
   0xbb; 0x38; 0x81; 0x27; 0x8a; 0xa2; 0xf7; 0x3b; 0x3b; 0x0a; 0x00; 0x7c; 0x5d; 0x34; 0xe9; 0x10];
  [0x6f; 0x2f; 0x11; 0x7c; 0xde; 0x6f; 0xbc; 0xf8; 0xd4; 0xa6; 0xef; 0x89; 0x74; 0xfc; 0xac; 0x74;
   0x47; 0x26; 0x57; 0x4a; 0xc3; 0x8c; 0xf2; 0x5d; 0x33; 0x22; 0xc9; 0x96; 0xb2; 0x1e; 0xdd; 0x4c]].

(** [tx_hash] is the transaction's hash. *)
Definition check_tx_outputs (tx_hash : list Z) (tx : transaction) (hf_version : Z) : option bool :=
  let p := tx_prefix tx in
  let rv := rct_signatures (tx_sig tx) in
  let type := rct_type (rct_base rv) in
  let v2 := 2 <=? version p in
  decomposed ← (if (2 <=? hf_version) && (version p =? 1) then
                  mapM (fun o => is_valid_decomposed_amount (out_amount o)) (vout p)
                else Some []);
  Some (
    if negb (forallb id decomposed) then false
    else if (3 <=? hf_version) && v2 && negb (forallb (fun o => out_amount o =? 0) (vout p)) then false
    else if (hf_version <? 8) && v2 && (is_rct_bulletproof type || negb (length (bulletproofs (rct_p rv)) =? 0)%nat)
    then false
    else if (8 <? hf_version) && v2 && is_rct_borromean type then false
    else if (hf_version <? HF_VERSION_SMALLER_BP) && v2 && (type =? RCTTypeBulletproof2) then false
    else if (HF_VERSION_SMALLER_BP <? hf_version) && v2 && (type =? RCTTypeBulletproof) then false
    else if (hf_version <? HF_VERSION_CLSAG) && v2 && (type =? RCTTypeCLSAG) then false
    else if (HF_VERSION_CLSAG <? hf_version) && v2 && (type <=? RCTTypeBulletproof2)
            && negb (bool_decide (tx_hash ∈ grandfathered)) then false
    else if (hf_version <? HF_VERSION_BULLETPROOF_PLUS) && v2
            && (is_rct_bulletproof_plus type || negb (length (bulletproofs_plus (rct_p rv)) =? 0)%nat) then false
    else if (HF_VERSION_BULLETPROOF_PLUS <? hf_version) && v2 && is_rct_bulletproof type then false
    else check_output_types tx hf_version).

(** ** Fees *)

(** The fee per byte for a block reward [B] and a fee median [M]: 95% of
    [3000 B / M^2], at least 1. *)
Definition fee_per_byte_of (B M : Z) : Z :=
  let x := B * DYNAMIC_FEE_REFERENCE_TRANSACTION_WEIGHT / (M * M) in
  Z.max 1 (x - x / 20).

Definition fee_median (st : weight_state) : Z :=
  Z.max CRYPTONOTE_BLOCK_GRANTED_FULL_REWARD_ZONE_V5
    (Z.min (m_current_block_cumul_weight_limit st / 2) (m_long_term_effective_median_block_weight st)).

(** What a transaction has to pay, rounded up to 8 decimals of a coin. *)
Definition needed_fee (B M tx_weight : Z) : Z := ceil_to 4 (tx_weight * fee_per_byte_of B M).

Lemma base_reward_small coins version : is_u64 coins -> 0 < base_reward coins version < 2 ^ 45.
Proof.
  unfold base_reward, is_uint, FINAL_SUBSIDY_PER_MINUTE, MONEY_SUPPLY. intros Hc.
  case_match; simpl Z.sub; zdm.
Qed.

Lemma last_coins generated : Forall is_u64 generated -> is_u64 (default 0 (last generated)).
Proof.
  intros Hg. destruct (last generated) eqn:E; [|done]. rewrite Forall_forall in Hg. by apply Hg, last_Some_elem_of.
Qed.

Lemma dynamic_base_fee_eq B m : is_u64 B -> is_u64 m ->
  get_dynamic_base_fee B m =
  Some (fee_per_byte_of B (Z.max CRYPTONOTE_BLOCK_GRANTED_FULL_REWARD_ZONE_V5 m)).
Proof.
  intros HB Hm. unfold get_dynamic_base_fee, fee_per_byte_of.
  set (zone := CRYPTONOTE_BLOCK_GRANTED_FULL_REWARD_ZONE_V5).
  assert ((if m <? zone then zone else m) = Z.max zone m) as -> by (bcase; lia).
  set (M := Z.max zone m). set (r := DYNAMIC_FEE_REFERENCE_TRANSACTION_WEIGHT).
  assert (300000 <= M < 2 ^ 64) as HM by (unfold M, is_uint in *; change zone with 300000; lia).
  assert (r = 3000) as Er by done. unfold is_uint in HB.
  assert (0 <= B * r / (M * M)) as Hx by (apply Z.div_pos; nia).
  etransitivity; [apply (reward_quotient (fun hi lo =>
    if negb (hi =? 0) then None else let lo := lo - lo / 20 in Some (if lo =? 0 then 1 else lo)));
    [done|by rewrite Er|lia|nia]|].
  cbn [Z.eqb negb]. cbv zeta. f_equal. bcase; zdm.
Qed.

Lemma fee_per_byte_range B M : 0 <= B < 2 ^ 45 -> 300000 <= M -> 1 <= fee_per_byte_of B M < 2 ^ 21.
Proof.
  intros HB HM. unfold fee_per_byte_of, DYNAMIC_FEE_REFERENCE_TRANSACTION_WEIGHT. cbv zeta.
  assert (B * 3000 / (M * M) < 2 ^ 21) by (apply Z.div_lt_upper_bound; nia).
  assert (0 <= B * 3000 / (M * M)) by (apply Z.div_pos; nia). zdm.
Qed.

Lemma check_fee_eq st generated version tx_weight fee :
  0 <= m_current_block_cumul_weight_limit st < 2 ^ 33 ->
  is_u64 (m_long_term_effective_median_block_weight st) ->
  Forall is_u64 generated -> 0 <= tx_weight <= 2 ^ 32 ->
  let need := needed_fee (base_reward (default 0 (last generated)) version) (fee_median st) tx_weight in
  check_fee st generated version tx_weight fee = Some (need - need / 50 <=? fee).
Proof.
  intros Hlim Hlt Hg Hw need. unfold check_fee.
  pose proof (last_coins generated Hg) as Hc.
  pose proof (base_reward_small _ version Hc) as HB. set (m := m_current_block_cumul_weight_limit st / 2).
  assert (0 <= m < 2 ^ 32) as Hm by (unfold m; zdm).
  rewrite get_block_reward_eq by (done || lia). cbv zeta.
  pose proof (effective_median_range m version ltac:(lia)).
  destruct (Z.leb_spec 1 (effective_median m version)); [|lia].
  rewrite dynamic_base_fee_eq by (unfold is_uint in *; lia). cbn [mbind option_bind].
  change (Z.max _ (Z.min m _)) with (fee_median st). unfold need, needed_fee. set (B := base_reward _ _) in *.
  pose proof (fee_per_byte_range B (fee_median st)) as Hf.
  destruct Hf as [Hf1 Hf2]; [lia|unfold fee_median, CRYPTONOTE_BLOCK_GRANTED_FULL_REWARD_ZONE_V5; lia|].
  set (t := tx_weight * fee_per_byte_of B (fee_median st)).
  assert (0 <= t < 2 ^ 54) as Ht by (unfold t; nia).
  pose proof (ceil_to_ge 4 t) as Hge. change get_fee_quantization_mask with (10 ^ 4).
  rewrite (wrapu_small 64 t), (wrapu_small 64 (t + _)), (wrapu_small 64 (t + _ - 1)) by (unfold is_uint; lia).
  fold (ceil_to 4 t). rewrite (wrapu_small 64 (ceil_to 4 t)) by (unfold is_uint; lia).
  rewrite wrapu_small by zdm. by destruct (Z.ltb_spec fee (ceil_to 4 t - ceil_to 4 t / 50)),
    (Z.leb_spec (ceil_to 4 t - ceil_to 4 t / 50) fee); try lia.
Qed.

(** The four estimates before rounding, with no wrap-around. *)
Lemma fee_estimate_eq B Mnw Mlw : 0 < B < 2 ^ 45 -> 300000 <= Mnw < 2 ^ 32 -> 300000 <= Mlw < 2 ^ 32 ->
  let M := Z.min Mnw Mlw in
  exists Fm Fh, B * 48000 / (300000 * M) = Fm /\ 4 * Fm <= Fh < 2 ^ 60 /\
  fee_estimate_2021 B Mnw Mlw =
    mapM (fun f => round_money_up f 2) [B * 3000 / (M * M); B * 12000 / (M * M); Fm; Fh].
Proof.
  intros HB Hn Hl M. unfold fee_estimate_2021, DYNAMIC_FEE_REFERENCE_TRANSACTION_WEIGHT,
    CRYPTONOTE_BLOCK_GRANTED_FULL_REWARD_ZONE_V5, CRYPTONOTE_SCALING_2021_FEE_ROUNDING_PLACES.
  fold M. assert (300000 <= M < 2 ^ 32) as HM by lia. cbv zeta.
  assert (9 * 10 ^ 10 <= M * M < 2 ^ 64) by nia.
  rewrite (wrapu_small 64 (M * M)), (wrapu_small 64 (B * 3000)), (wrapu_small 64 (4 * B)),
    (wrapu_small 64 (4 * B * 3000)), (wrapu_small 64 (16 * B)), (wrapu_small 64 (16 * B * 3000)),
    (wrapu_small 64 (300000 * M)), (wrapu_small 64 (32 * 3000 * Mnw)) by (unfold is_uint; lia).
  replace (4 * B * 3000) with (B * 12000) by lia. replace (16 * B * 3000) with (B * 48000) by lia.
  destruct (Z.eqb_spec (M * M) 0) as [|_]; [lia|]. destruct (Z.eqb_spec (300000 * M) 0) as [|_]; [lia|].
  cbn [mbind option_bind]. set (Fm := B * 48000 / (300000 * M)).
  assert (0 <= Fm < 2 ^ 25) as HFm.
  { unfold Fm. split; [apply Z.div_pos; lia|]. apply Z.div_lt_upper_bound; nia. }
  assert (96000 <= 32 * 3000 * Mnw / 300000) as Hd by (apply Z.div_le_lower_bound; lia).
  destruct (Z.eqb_spec (32 * 3000 * Mnw / 300000) 0) as [|_]; [lia|]. cbn [mbind option_bind].
  rewrite (wrapu_small 64 (4 * Fm)), (wrapu_small 64 (4 * Fm * M)) by (unfold is_uint; nia).
  exists Fm. eexists. split; [done|]. split; [|done].
  assert (4 * Fm * M / (32 * 3000 * Mnw / 300000) < 2 ^ 60) by (apply Z.div_lt_upper_bound; nia). lia.
Qed.

Lemma fee_estimate_order B M : 0 < B -> 300000 <= M ->
  0 <= B * 3000 / (M * M) <= B * 12000 / (M * M) /\ B * 12000 / (M * M) <= B * 48000 / (300000 * M).
Proof.
  intros HB HM. split; [split; [apply Z.div_pos; nia|apply Z.div_le_mono; nia]|].
  apply Z.div_le_lower_bound; [nia|].
  pose proof (Z.mul_div_le (B * 12000) (M * M)) as Hd. set (q := B * 12000 / (M * M)) in *.
  assert (0 <= q) by (apply Z.div_pos; nia). nia.
Qed.

Lemma get_last_n_weights_some db n : 0 < n -> exists ws,
  get_last_n_blocks_weights db n = Some ws /\ forall P, Forall (fun r => P (br_weight r)) db -> Forall P ws.
Proof.
  intros Hn. unfold get_last_n_blocks_weights, get_block_weights, get_block_info_64bit_fields.
  unfold db_height. destruct (Z.eqb_spec (Z.of_nat (length db)) 0); [by exists []|].
  destruct (Z.leb_spec (Z.of_nat (length db)) (Z.of_nat (length db) - Z.min (Z.of_nat (length db)) n)); [lia|].
  eexists. split; [done|]. intros P HP. by apply Forall_fmap, Forall_take, Forall_drop.
Qed.

(** The long term median a wallet with [grace_blocks] reads, from the weights
    [ws] the rolling median has been given. *)
Definition grace_median (st : weight_state) (ws : list Z) (grace_blocks : Z) : Z :=
  Z.max (median (lastn (Z.to_nat (rm_N (m_long_term_block_weights_cache_rolling_median st)))
                   (ws ++ replicate (Z.to_nat grace_blocks) 0)))
    CRYPTONOTE_BLOCK_GRANTED_FULL_REWARD_ZONE_V5.

Definition small (x : Z) : Prop := 0 <= x < 2 ^ 32.

Lemma small_zeroes n : Forall small (replicate n 0).
Proof. apply Forall_replicate. by vm_compute. Qed.

Lemma estimate_eq st ws db generated version grace_blocks :
  rm_ok (m_long_term_block_weights_cache_rolling_median st) ws ->
  Forall small ws -> Forall (fun r => small (br_weight r)) db -> Forall is_u64 generated ->
  0 <= m_current_block_cumul_weight_limit st < 2 ^ 33 -> 0 <= grace_blocks < 100 ->
  let Mlw := grace_median st ws grace_blocks in
  exists Mnw, Mlw <= Mnw < 2 ^ 32 /\ 300000 <= Mlw < 2 ^ 32 /\
  get_dynamic_base_fee_estimate_2021_scaling st db generated version grace_blocks =
    fee_estimate_2021 (base_reward (default 0 (last generated)) version) Mnw Mlw.
Proof.
  intros Hrm Hws Hdb Hg Hlim Hgr Mlw. unfold get_dynamic_base_fee_estimate_2021_scaling.
  unfold CRYPTONOTE_REWARD_BLOCKS_WINDOW. destruct (Z.leb_spec grace_blocks 100); [cbn [negb]|lia].
  set (zs := replicate (Z.to_nat grace_blocks) 0).
  destruct (insert_all_spec _ _ zs Hrm) as (rm & -> & Hrm' & HN). cbn [mbind option_bind].
  assert (Z.max (if size rm =? 0 then 0 else rm_median rm) CRYPTONOTE_BLOCK_GRANTED_FULL_REWARD_ZONE_V5 = Mlw) as ->.
  { unfold Mlw, grace_median. fold zs. rewrite <- HN. f_equal. unfold size.
    pose proof (ok_sz _ _ Hrm') as Hsz. pose proof (perm_N _ (ok_perm _ _ Hrm')) as HNp.
    destruct (Z.eqb_spec (rm_sz rm) 0) as [E|E].
    - assert (ws ++ zs = []) as -> by (apply length_zero_iff_nil; lia). by unfold lastn; rewrite drop_nil.
    - apply rm_median_spec; [done|]. intros E'. rewrite E' in Hsz. cbn in Hsz. lia. }
  assert (300000 <= Mlw < 2 ^ 32) as HM.
  { unfold Mlw, grace_median, CRYPTONOTE_BLOCK_GRANTED_FULL_REWARD_ZONE_V5. fold zs.
    enough (0 <= median (lastn (Z.to_nat (rm_N (m_long_term_block_weights_cache_rolling_median st))) (ws ++ zs)) < 2 ^ 32)
      by lia. apply median_range; [lia|]. apply Forall_lastn, Forall_app. split; [done|apply small_zeroes]. }
  destruct (get_last_n_weights_some db (100 - grace_blocks)) as (l & -> & Hl); [lia|]. cbn [mbind option_bind].
  apply Hl in Hdb. assert (0 <= median (l ++ zs) < 2 ^ 32) as Hmed.
  { apply median_range; [lia|]. apply Forall_app. split; [done|apply small_zeroes]. }
  rewrite (wrapu_small 64 (50 * Mlw)) by (unfold is_uint; lia).
  exists (Z.min (Z.max (median (l ++ zs)) Mlw) (50 * Mlw)). split; [lia|]. split; [done|].
  pose proof (effective_median_range (m_current_block_cumul_weight_limit st / 2) version) as HE.
  rewrite get_block_reward_eq; [|zdm|done|by apply last_coins].
  cbv zeta. destruct (Z.leb_spec 1 (effective_median (m_current_block_cumul_weight_limit st / 2) version)); [done|].
  assert (0 <= m_current_block_cumul_weight_limit st / 2 < 2 ^ 32) by zdm. lia.
Qed.

(** With 100 grace blocks, which the guard lets through, no block weight is
    left to read and the database throws. *)
Lemma full_grace_throws st ws db generated version :
  rm_ok (m_long_term_block_weights_cache_rolling_median st) ws -> db <> [] ->
  get_dynamic_base_fee_estimate_2021_scaling st db generated version 100 = None.
Proof.
  intros Hrm Hdb. unfold get_dynamic_base_fee_estimate_2021_scaling. cbn [negb Z.leb Z.compare].
  destruct (insert_all_spec _ _ (replicate (Z.to_nat 100) 0) Hrm) as (rm & E & _). cbv zeta. rewrite E. cbn [mbind option_bind].
  replace (get_last_n_blocks_weights db (100 - 100)) with (None : option (list Z)); [done|].
  unfold get_last_n_blocks_weights, get_block_weights, get_block_info_64bit_fields, db_height.
  destruct db as [|r db]; [done|]. rewrite (Z.min_r _ (100 - 100)) by lia. repeat bcase; try done; cbn [length] in *; lia.
Qed.

(** ** Time *)

(** How many of the values are at most [t]. *)
Definition count_le (t : Z) (l : list Z) : nat := length (filter (fun x => x <= t) l).

Lemma count_le_cons t x l : count_le t (x :: l) = ((if decide (x <= t)%Z then 1 else 0) + count_le t l)%nat.
Proof. unfold count_le. rewrite filter_cons. by destruct (decide (x <= t)). Qed.

Lemma count_le_sorted t l i : StronglySorted Z.le l -> (i < length l)%nat ->
  (nth i l 0 <= t -> (i < count_le t l)%nat) /\ (t < nth i l 0 -> (count_le t l <= i)%nat).
Proof.
  intros Hs. revert i; induction Hs as [|x l Hs IH Hx]; intros i Hi; [cbn in Hi; lia|].
  rewrite count_le_cons. destruct i as [|i]; cbn [nth length] in *.
  - split; intros Ht; destruct (decide (x <= t)); try lia.
    enough (count_le t l = 0%nat) by lia. clear -Hx Ht.
    induction Hx as [|y l Hy Hx IH]; [done|]. rewrite count_le_cons, IH. destruct (decide (y <= t)); lia.
  - destruct (IH i) as [H1 H2]; [lia|].
    assert (x <= nth i l 0) by (rewrite Forall_forall in Hx; apply Hx, list_elem_of_In, nth_In; lia).
    split; intros Ht; destruct (decide (x <= t)); lia.
Qed.

Lemma median_count t v n : (0 < n)%nat -> length v = (2 * n)%nat -> Forall is_u64 v ->
  (median v <= t -> (n <= count_le t v)%nat) /\ ((n < count_le t v)%nat -> median v <= t).
Proof.
  intros Hn Hl Hv. assert (v <> []) by (by intros ->; cbn in Hl; lia). rewrite median_eq by done. cbv zeta.
  rewrite Hl, Nat.mul_comm, Nat.Div0.mod_mul, Nat.div_mul by lia. cbn [Nat.eqb].
  pose proof (merge_sort_Permutation Z.le v) as Hp. pose proof (merge_sort_strongly v) as Hs.
  assert (count_le t v = count_le t (merge_sort Z.le v)) as -> by (unfold count_le; by rewrite Hp).
  rewrite <- Hp in Hv. pose proof (Permutation_length Hp) as Hl'. set (s := merge_sort Z.le v) in *.
  destruct (count_le_sorted t s (n - 1) Hs) as [H1 _]; [lia|]. destruct (count_le_sorted t s n Hs) as [_ H2]; [lia|].
  pose proof (sorted_nth Z.le s (n - 1) n Hs ltac:(lia)) as Hle.
  rewrite get_mid_spec by (rewrite Forall_forall in Hv; apply Hv, list_elem_of_In, nth_In; lia).
  split; intros Ht.
  - assert (nth (n - 1) s 0 <= t) as Hx by zdm. apply H1 in Hx. lia.
  - destruct (decide (nth n s 0 <= t)); [zdm|]. assert (count_le t s <= n)%nat; [apply H2|]; lia.
Qed.

Lemma timestamp_main_chain_eq db timestamp now : is_u64 (now + CRYPTONOTE_BLOCK_FUTURE_TIME_LIMIT) ->
  fst (check_block_timestamp_main_chain db timestamp now) = true <->
  timestamp <= now + CRYPTONOTE_BLOCK_FUTURE_TIME_LIMIT /\
  ((60 <= length db)%nat -> median (lastn 60 db) <= timestamp).
Proof.
  intros Hn. unfold check_block_timestamp_main_chain, check_block_timestamp, BLOCKCHAIN_TIMESTAMP_CHECK_WINDOW.
  rewrite wrapu_small by done. destruct (Z.ltb_spec (now + CRYPTONOTE_BLOCK_FUTURE_TIME_LIMIT) timestamp); cbn [fst].
  { split; [done|]. lia. }
  rewrite length_drop. destruct (Nat.leb_spec 60 (length db)).
  - destruct (Nat.ltb_spec (length db - (length db - 60)) 60); [lia|]. cbn [fst]. fold (lastn 60 db).
    rewrite negb_true_iff, Z.ltb_ge. tauto.
  - destruct (Nat.ltb_spec (length db - 0) 60); [|lia]. cbn [fst]. split; [|done]. intros _. lia.
Qed.

(** ** Miner transactions *)

Definition out_amounts (tx : transaction) : list Z := map out_amount (vout (tx_prefix tx)).

(** One decimal digit followed by zeroes. *)
Definition decomposed (amount : Z) : Prop := exists d k, 1 <= d <= 9 /\ 0 <= k /\ amount = d * 10 ^ k.

Lemma decomposed_all outs : Forall is_u64 (map out_amount outs) ->
  exists l, mapM (fun o => is_valid_decomposed_amount (out_amount o)) outs = Some l /\
    (forallb id l = true <-> Forall decomposed (map out_amount outs)).
Proof.
  induction outs as [|o outs IH]; cbn [map]; intros Ho.
  { exists []. split; [done|]. split; [intros _; constructor|done]. }
  inversion_clear Ho as [|? ? H1 H2]. destruct (IH H2) as (l & El & Hl).
  destruct (decomposed_amount_spec (out_amount o) H1) as (r & Er & Hr).
  exists (r :: l). cbn [mapM]. rewrite Er. cbn [mbind option_bind]. rewrite El. cbn. split; [done|].
  rewrite andb_true_iff, Forall_cons, Hl. unfold decomposed at 1, id. by rewrite Hr.
Qed.

(** The median of the penalty. *)
Definition penalty_median (st : weight_state) (db : list block_row) (version : Z) : Z :=
  if HF_VERSION_EFFECTIVE_SHORT_TERM_MEDIAN_IN_PENALTY <=? version
  then m_current_block_cumul_weight_median st else short_term_median db.

Lemma validate_median st db version : 0 < db_height db ->
  (if HF_VERSION_EFFECTIVE_SHORT_TERM_MEDIAN_IN_PENALTY <=? version
   then Some (m_current_block_cumul_weight_median st)
   else last_blocks_weights ← get_last_n_blocks_weights db CRYPTONOTE_REWARD_BLOCKS_WINDOW;
        Some (median last_blocks_weights)) = Some (penalty_median st db version).
Proof.
  intros Hdb. unfold penalty_median. destruct (_ <=? version); [done|].
  pose proof (last_weights_spec db Hdb) as E. by destruct (get_last_n_blocks_weights _ _); cbn in *.
Qed.

Lemma u64_diff a b r : is_u64 a -> is_u64 r -> r = u64 (a - b) <-> a = u64 (b + r).
Proof.
  unfold is_uint, wrapu. intros Ha Hr. split; intros ->.
  - rewrite Z.add_mod_idemp_r, Zplus_minus by lia. symmetry. by apply Z.mod_small.
  - rewrite Zminus_mod_idemp_l. replace (b + r - b) with r by lia. symmetry. by apply Z.mod_small.
Qed.

(** The tests on the two sums, taken modulo 2^64 as they are. *)
Lemma reward_split version R fee money r partial : is_u64 R -> is_u64 money ->
  (if u64 (R + fee) <? money then None
   else if (version <? 2) || (HF_VERSION_EXACT_COINBASE <=? version) then
     if negb (u64 (R + fee) =? money) then None else Some (R, false)
   else if negb (u64 (money - fee) <=? R) then None
   else Some (u64 (money - fee), negb (u64 (R + fee) =? money))) = Some (r, partial) <->
  money = u64 (fee + r) /\ 0 <= r <= R /\ money <= u64 (fee + R) /\
  (version < 2 \/ 13 <= version -> r = R) /\ partial = (r <? R).
Proof.
  intros HR Hm. rewrite (Z.add_comm R fee). unfold HF_VERSION_EXACT_COINBASE.
  set (d := u64 (money - fee)). assert (is_u64 d) as Hd by (apply wrapu_range; lia).
  assert (forall r, is_u64 r -> money = u64 (fee + r) <-> r = d) as Hu
    by (intros r' Hr'; by rewrite <- u64_diff).
  pose proof (Hu R HR) as HuR. set (total := u64 (fee + R)) in *.
  assert (0 <= r <= R -> money = u64 (fee + r) <-> r = d) as Hur
    by (intros; apply Hu; unfold is_uint in *; lia).
  clear Hu. unfold is_uint in Hd, HR. clearbody d total.
  destruct (Z.ltb_spec total money) as [|Hle]; [split; [done|]; lia|].
  destruct (Z.eqb_spec total money) as [He|He]; cbn [negb];
    destruct (Z.leb_spec d R); cbn [negb];
    destruct (Z.ltb_spec version 2), (Z.leb_spec 13 version); cbn [orb];
    (split; [intros [= <- <-] || done|intros (Hr1 & Hr2 & _ & Hr3 & ->)]);
    repeat split; try (lia || (f_equal; f_equal; destruct (Z.ltb_spec r R); lia));
    try (symmetry; (apply Z.ltb_ge || apply Z.ltb_lt); lia).
Qed.

(** Before the other tests, version 3 asks for round amounts. *)
Lemma decomposed_rule version (tx : transaction) {A} (k : option A) a : Forall is_u64 (out_amounts tx) ->
  (decomposed ← (if version =? 3 then
                   mapM (fun o => is_valid_decomposed_amount (out_amount o)) (vout (tx_prefix tx))
                 else Some []);
   if negb (forallb id decomposed) then None else k) = Some a <->
  (version = 3 -> Forall decomposed (out_amounts tx)) /\ k = Some a.
Proof.
  intros Ho. destruct (decomposed_all _ Ho) as (l & El & Hl). fold (out_amounts tx) in Hl.
  destruct (Z.eqb_spec version 3).
  - rewrite El. cbn [mbind option_bind]. destruct (forallb id l); cbn [negb]; [tauto|].
    split; [done|]. intros [H _]. apply Hl in H; done.
  - cbn. tauto.
Qed.

(** The tests together, on all amounts. *)
Lemma validate_miner_eq st db b weight fee coins version r partial :
  let amounts := out_amounts (miner_tx b) in
  0 < db_height db -> Forall is_u64 amounts ->
  is_u64 (penalty_median st db version) -> is_u64 weight -> is_u64 coins ->
  validate_miner_transaction st db b weight fee coins version = Some (r, partial) <->
  exists R, get_block_reward (penalty_median st db version) weight coins version = Some R /\
    u64 (sum_amounts amounts) = u64 (fee + r) /\ 0 <= r <= R /\
    u64 (sum_amounts amounts) <= u64 (fee + R) /\
    (version < 2 \/ 13 <= version -> r = R) /\ (version = 3 -> Forall decomposed amounts) /\
    partial = (r <? R).
Proof.
  intros amounts Hdb Ho Hm Hw Hc. unfold validate_miner_transaction. cbv zeta.
  rewrite (validate_median st db version Hdb), outs_money_spec.
  fold (out_amounts (miner_tx b)). fold amounts.
  set (money := u64 (sum_amounts amounts)). assert (is_u64 money) by (apply wrapu_range; lia).
  rewrite (decomposed_rule version (miner_tx b)) by done. fold amounts. cbn [mbind option_bind].
  set (reward := get_block_reward _ _ _ _).
  assert (forall R, reward = Some R -> is_u64 R) as HR by (intros R; by apply get_block_reward_range).
  clearbody money reward. destruct reward as [R|]; cbn [mbind option_bind];
    [|split; [by intros [_ ?]|]; by intros (R & ? & _)].
  rewrite reward_split by auto. split.
  - intros (Hd & H1 & H2 & H3 & H4 & H5). exists R. tauto.
  - intros (R' & [= <-] & ?). tauto.
Qed.

(** ** Transaction types *)

(** The ringct types a fork lets in. *)
Definition allowed_rct_types (hf_version : Z) : list Z :=
  if hf_version <? 8 then [RCTTypeNull; RCTTypeFull; RCTTypeSimple]
  else if hf_version =? 8 then [RCTTypeNull; RCTTypeFull; RCTTypeSimple; RCTTypeBulletproof]
  else if hf_version =? 9 then [RCTTypeNull; RCTTypeBulletproof]
  else if hf_version =? 10 then [RCTTypeNull; RCTTypeBulletproof; RCTTypeBulletproof2]
  else if hf_version <? 13 then [RCTTypeNull; RCTTypeBulletproof2]
  else if hf_version =? 13 then [RCTTypeNull; RCTTypeBulletproof2; RCTTypeCLSAG]
  else if hf_version =? 14 then [RCTTypeCLSAG]
  else if hf_version =? 15 then [RCTTypeCLSAG; RCTTypeBulletproofPlus]
  else [RCTTypeBulletproofPlus].

(** The checks of [check_tx_outputs] on the type of a version 2 transaction:
    they only depend on the fork within 7 to 16, so all cases are computed. *)
Definition rct_type_refused (hf type : Z) (bp bpp : bool) : bool :=
  (hf <? 8) && (is_rct_bulletproof type || negb bp)
  || (8 <? hf) && is_rct_borromean type
  || (hf <? 10) && (type =? RCTTypeBulletproof2)
  || (10 <? hf) && (type =? RCTTypeBulletproof)
  || (hf <? 13) && (type =? RCTTypeCLSAG)
  || (13 <? hf) && (type <=? RCTTypeBulletproof2)
  || (hf <? 15) && (is_rct_bulletproof_plus type || negb bpp)
  || (15 <? hf) && is_rct_bulletproof type.

Definition rct_type_allowed (hf type : Z) (bp bpp : bool) : bool :=
  bool_decide (type ∈ allowed_rct_types hf) && implb (hf <? 8) bp && implb (hf <? 15) bpp.

Lemma rct_type_clamp hf type bp bpp :
  let h := Z.max 7 (Z.min hf 16) in
  rct_type_refused hf type bp bpp = rct_type_refused h type bp bpp /\
  rct_type_allowed hf type bp bpp = rct_type_allowed h type bp bpp.
Proof.
  intros h. unfold rct_type_refused, rct_type_allowed, allowed_rct_types.
  assert (forall c, 8 <= c <= 15 -> (hf <? c) = (h <? c) /\ (c <? hf) = (c <? h) /\ (hf =? c) = (h =? c)) as E
    by (intros c Hc; unfold h; lia).
  by rewrite !(proj1 (E 8 ltac:(lia))), !(proj1 (E 10 ltac:(lia))), !(proj1 (E 13 ltac:(lia))),
    !(proj1 (E 15 ltac:(lia))), !(proj1 (proj2 (E 8 ltac:(lia)))), !(proj1 (proj2 (E 10 ltac:(lia)))),
    !(proj1 (proj2 (E 13 ltac:(lia)))), !(proj1 (proj2 (E 15 ltac:(lia)))), !(proj2 (proj2 (E 8 ltac:(lia)))),
    !(proj2 (proj2 (E 9 ltac:(lia)))), !(proj2 (proj2 (E 10 ltac:(lia)))), !(proj2 (proj2 (E 13 ltac:(lia)))),
    !(proj2 (proj2 (E 14 ltac:(lia)))), !(proj2 (proj2 (E 15 ltac:(lia)))).
Qed.

Lemma rct_type_schedule hf type bp bpp : 0 <= type <= 6 ->
  rct_type_refused hf type bp bpp = negb (rct_type_allowed hf type bp bpp).
Proof.
  intros Ht. destruct (rct_type_clamp hf type bp bpp) as [-> ->].
  set (h := Z.max 7 (Z.min hf 16)). assert (7 <= h <= 16) as Hh by (unfold h; lia). clearbody h.
  assert (forallb (fun '(h, t) => forallb (fun '(x, y) => eqb (rct_type_refused h t x y) (negb (rct_type_allowed h t x y)))
    (list_prod [true; false] [true; false])) (list_prod (seqZ 7 10) (seqZ 0 7)) = true) as Hall by (by vm_compute).
  rewrite forallb_forall in Hall. specialize (Hall (h, type)). rewrite in_prod_iff, <- !list_elem_of_In, !elem_of_seqZ in Hall.
  specialize (Hall ltac:(lia)). rewrite forallb_forall in Hall. specialize (Hall (bp, bpp)).
  apply eqb_prop, Hall. destruct bp, bpp; cbn; tauto.
Qed.

Lemma rct_type_allowed_spec hf type bp bpp : rct_type_allowed hf type bp bpp = true <->
  type ∈ allowed_rct_types hf /\ (hf < 8 -> bp = true) /\ (hf < 15 -> bpp = true).
Proof.
  unfold rct_type_allowed. rewrite !andb_true_iff, bool_decide_eq_true.
  destruct (Z.ltb_spec hf 8), (Z.ltb_spec hf 15), bp, bpp; cbn; intuition lia.
Qed.

Lemma if_false (a b : bool) : (if a then false else b) = negb a && b.
Proof. by destruct a. Qed.

Lemma length_eqb_0 {A} (l : list A) : (length l =? 0)%nat = true <-> l = [].
Proof. destruct l; done. Qed.

(** ** Properties *)

(** C16: A miner transaction is accepted exactly when its outputs add up to the
    fees plus a part [r] of the block reward [R] of its weight, where [r] is all
    of [R] before version 2 and from version 13 (and the outputs are round
    amounts in version 3); [r] is then the amount of new coins recorded, and
    the reward is flagged as partial exactly when [r < R].  The two sums are
    taken modulo 2^64: the first part says so for all amounts and fees; the
    second is the statement on the sums themselves, for outputs that add up
    without overflow, which [prevalidate_miner_transaction] checks, and fees
    that do not overflow with the reward. *)
Theorem miner_reward_correct st db b weight fee coins version r partial :
  let amounts := out_amounts (miner_tx b) in
  let reward := get_block_reward (penalty_median st db version) weight coins version in
  0 < db_height db -> Forall is_u64 amounts -> is_u64 fee ->
  is_u64 (penalty_median st db version) -> is_u64 weight -> is_u64 coins ->
  (validate_miner_transaction st db b weight fee coins version = Some (r, partial) <->
   exists R, reward = Some R /\ u64 (sum_amounts amounts) = u64 (fee + r) /\ 0 <= r <= R /\
     u64 (sum_amounts amounts) <= u64 (fee + R) /\
     (version < 2 \/ 13 <= version -> r = R) /\ (version = 3 -> Forall decomposed amounts) /\
     partial = (r <? R)) /\
  (sum_amounts amounts < 2 ^ 64 -> (forall R, reward = Some R -> fee + R < 2 ^ 64) ->
   validate_miner_transaction st db b weight fee coins version = Some (r, partial) <->
   exists R, reward = Some R /\ sum_amounts amounts = fee + r /\ 0 <= r <= R /\
     (version < 2 \/ 13 <= version -> r = R) /\ (version = 3 -> Forall decomposed amounts) /\
     partial = (r <? R)).
Proof.
  intros amounts reward Hdb Ho Hf Hm Hw Hc. split; [by apply validate_miner_eq|]. intros Hs HR.
  rewrite validate_miner_eq by done. fold amounts reward.
  pose proof (sum_amounts_nonneg _ Ho) as Hpos. unfold is_uint in Hf.
  rewrite (wrapu_small 64 (sum_amounts amounts)) by (unfold is_uint; lia).
  split; intros (R & E & H); specialize (HR R E); exists R; (split; [done|]).
  - rewrite (wrapu_small 64 (fee + r)) in H by (unfold is_uint; lia). tauto.
  - rewrite !wrapu_small by (unfold is_uint; lia). destruct H as (H1 & H2 & H3). split_and!; try done; try tauto. lia.
Qed.

(** A miner transaction that passes the first checks at a height [h] has
    only the input that names [h], its output amounts add up without
    overflow, and its outputs count as unlocked exactly for chains of at
    least [h + 60] blocks. *)
Theorem coinbase_unlock_correct b h hf_version :
  prevalidate_miner_transaction b h hf_version = true ->
  Forall is_u64 (out_amounts (miner_tx b)) -> 0 <= h -> h + 60 < CRYPTONOTE_MAX_BLOCK_NUMBER ->
  vin (tx_prefix (miner_tx b)) = [Txin_gen h] /\ sum_amounts (out_amounts (miner_tx b)) < 2 ^ 64 /\
  forall db now current_version hf_version', Z.of_nat (length db) < 2 ^ 63 ->
    is_tx_spendtime_unlocked db now current_version (unlock_time (tx_prefix (miner_tx b))) hf_version' =
    Some (h + 60 <=? Z.of_nat (length db)).
Proof.
  unfold prevalidate_miner_transaction, CRYPTONOTE_MAX_BLOCK_NUMBER. intros Hpre Ho Hh Hmax.
  destruct (vin (tx_prefix (miner_tx b))) as [|[h'| | |] [|]]; try done.
  do 2 (case_match; [done|]). destruct (Z.eqb_spec h' h) as [->|]; [cbn [negb] in Hpre|done].
  destruct (Z.eqb_spec (unlock_time (tx_prefix (miner_tx b))) (u64 (h + CRYPTONOTE_MINED_MONEY_UNLOCK_WINDOW))) as [Eu|];
    [cbn [negb] in Hpre|done].
  destruct (check_outs_overflow (miner_tx b)) eqn:Eo; [|done]. split; [done|]. split.
  { unfold check_outs_overflow in Eo. rewrite outs_overflow_loop_spec in Eo by done.
    apply Z.ltb_lt in Eo. unfold out_amounts. lia. }
  intros db now cv hf' Hdb. rewrite Eu. unfold CRYPTONOTE_MINED_MONEY_UNLOCK_WINDOW.
  rewrite (wrapu_small 64 (h + 60)) by (unfold is_uint; lia).
  unfold is_tx_spendtime_unlocked, CRYPTONOTE_MAX_BLOCK_NUMBER, CRYPTONOTE_LOCKED_TX_ALLOWED_DELTA_BLOCKS.
  destruct (Z.ltb_spec (h + 60) 500000000); [|lia]. do 2 f_equal. zdm.
Qed.

(** A block of the main chain has an acceptable time only if it is at most
    two hours ahead of the clock and, once the chain has 60 blocks, at least
    30 of the last 60 blocks are not later than it; both with 31 of the last
    60 blocks are enough. *)
Theorem block_timestamp_correct db timestamp now :
  Forall is_u64 db -> is_u64 (now + CRYPTONOTE_BLOCK_FUTURE_TIME_LIMIT) ->
  let accepted := fst (check_block_timestamp_main_chain db timestamp now) = true in
  let in_time := timestamp <= now + 7200 in
  (accepted -> in_time /\ ((60 <= length db)%nat -> (30 <= count_le timestamp (lastn 60 db))%nat)) /\
  (in_time /\ ((60 <= length db)%nat -> (31 <= count_le timestamp (lastn 60 db))%nat) -> accepted).
Proof.
  intros Hdb Hnow accepted in_time. unfold accepted. rewrite timestamp_main_chain_eq by done.
  change CRYPTONOTE_BLOCK_FUTURE_TIME_LIMIT with 7200. fold in_time.
  split; intros [Ht Hl]; (split; [done|]); intros H60; specialize (Hl H60);
    destruct (median_count timestamp (lastn 60 db) 30) as [Ha Hb];
    try (by apply Forall_lastn); try (rewrite length_lastn; lia); [lia|by apply Ha|lia|apply Hb; lia].
Qed.

(** The fee rule.  A transaction is accepted exactly when its fee is at
    least 98% of what it needs, which is its weight times the fee per byte
    (95% of [3000 B / M^2], at least 1, for the base reward [B] and the fee
    median [M]), rounded up to a multiple of 10^4 atomic units; no step of the
    computation wraps around, and a heavier transaction does not need less. *)
Theorem check_fee_correct st generated version tx_weight fee :
  0 <= m_current_block_cumul_weight_limit st < 2 ^ 33 ->
  is_u64 (m_long_term_effective_median_block_weight st) ->
  Forall is_u64 generated -> 0 <= tx_weight <= 2 ^ 32 ->
  let need := needed_fee (base_reward (default 0 (last generated)) version) (fee_median st) in
  check_fee st generated version tx_weight fee = Some (need tx_weight - need tx_weight / 50 <=? fee) /\
  tx_weight <= need tx_weight /\
  forall tx_weight', tx_weight <= tx_weight' -> need tx_weight <= need tx_weight'.
Proof.
  intros Hlim Hlt Hg Hw need. split; [by apply check_fee_eq|].
  set (B := base_reward _ _) in *. set (f := fee_per_byte_of B (fee_median st)).
  assert (1 <= f) as Hf by (unfold f, fee_per_byte_of; lia).
  unfold need, needed_fee. fold f. split.
  - pose proof (ceil_to_ge 4 (tx_weight * f)). nia.
  - intros w' Hw'. apply ceil_to_mono; nia.
Qed.

(** The wallet's fee estimates.  With fewer than 100 grace blocks the
    estimator returns four fees per byte in increasing order; and when the
    median it projects is not above the node's fee median, a transaction that
    pays its weight times the lowest of them, rounded up to 8 decimals, passes
    [check_fee]. *)
Theorem fee_estimate_correct st ws db generated version grace_blocks tx_weight :
  rm_ok (m_long_term_block_weights_cache_rolling_median st) ws ->
  Forall small ws -> Forall (fun r => small (br_weight r)) db -> Forall is_u64 generated ->
  0 <= m_current_block_cumul_weight_limit st < 2 ^ 33 ->
  is_u64 (m_long_term_effective_median_block_weight st) ->
  0 <= grace_blocks < 100 -> 0 <= tx_weight <= 2 ^ 32 ->
  let B := base_reward (default 0 (last generated)) version in
  let M := grace_median st ws grace_blocks in
  exists f1 f2 f3 f4,
    get_dynamic_base_fee_estimate_2021_scaling st db generated version grace_blocks = Some [f1; f2; f3; f4] /\
    0 <= f1 <= f2 /\ f2 <= f3 /\ f3 <= f4 /\
    (M <= fee_median st -> M * M <= B * 3000 ->
     check_fee st generated version tx_weight (ceil_to 4 (tx_weight * f1)) = Some true).
Proof.
  intros Hrm Hws Hdb Hg Hlim Hlt Hgr Hw B M. pose proof (base_reward_small _ version (last_coins _ Hg)) as HB. fold B in HB.
  destruct (estimate_eq st ws db generated version grace_blocks) as (Mnw & HMn & HM & ->); [done..|]. fold M B in HMn, HM |- *.
  destruct (fee_estimate_eq B Mnw M) as (Fm & Fh & EFm & HFh & ->); [lia..|].
  rewrite Z.min_r in * by lia. destruct (fee_estimate_order B M) as [[H0 H1] H2]; [lia..|]. rewrite EFm in H2.
  set (F1 := B * 3000 / (M * M)) in *. set (F2 := B * 12000 / (M * M)) in *.
  destruct (round_money_up_mono 2 F1 F2) as (f1 & f2 & E1 & E2 & L1); [lia..|].
  destruct (round_money_up_mono 2 F2 Fm) as (f2' & f3 & E2' & E3 & L2); [lia..|].
  destruct (round_money_up_mono 2 Fm Fh) as (f3' & f4 & E3' & E4 & L3); [lia..|].
  assert (f2' = f2) as -> by congruence. assert (f3' = f3) as -> by congruence.
  exists f1, f2, f3, f4. cbn [mapM]. rewrite E1, E2, E3, E4. split; [done|]. split_and!; [lia..|].
  intros HMs HBM. rewrite check_fee_eq by done. cbv zeta. fold B. f_equal. apply Z.leb_le.
  assert (fee_per_byte_of B (fee_median st) <= f1) as Hf.
  { unfold fee_per_byte_of, DYNAMIC_FEE_REFERENCE_TRANSACTION_WEIGHT.
    assert (1 <= F1) by (apply Z.div_le_lower_bound; nia).
    assert (B * 3000 / (fee_median st * fee_median st) <= F1).
    { unfold F1. apply Z.div_le_compat_l; [lia|]. nia. }
    assert (0 <= B * 3000 / (fee_median st * fee_median st)) by (apply Z.div_pos; nia). zdm. }
  pose proof (ceil_to_mono 4 (tx_weight * fee_per_byte_of B (fee_median st)) (tx_weight * f1)) as Hc.
  assert (0 <= tx_weight * f1) by nia.
  unfold needed_fee. set (q := ceil_to 4 (tx_weight * fee_per_byte_of B (fee_median st))) in *.
  assert (0 <= q). { unfold q. pose proof (ceil_to_ge 4 (tx_weight * fee_per_byte_of B (fee_median st))).
    assert (0 <= fee_per_byte_of B (fee_median st)) by (unfold fee_per_byte_of; lia). nia. }
  assert (q <= ceil_to 4 (tx_weight * f1)) by (apply Hc; nia). zdm.
Qed.

(** The schedule of transaction types.  The outputs of a version 2
    transaction (other than the two grandfathered ones) pass exactly when its
    ringct type is one of the fork's, range proofs of a later kind are absent,
    its amounts are hidden from fork 3 on and its output targets are those of
    the fork; a version 1 transaction needs round amounts from fork 2 on. *)
Theorem tx_types_correct tx_hash tx hf_version :
  let p := tx_prefix tx in
  let rv := rct_signatures (tx_sig tx) in
  Forall is_u64 (out_amounts tx) -> 0 <= rct_type (rct_base rv) <= 6 -> tx_hash ∉ grandfathered ->
  (2 <= version p ->
   check_tx_outputs tx_hash tx hf_version = Some true <->
   rct_type (rct_base rv) ∈ allowed_rct_types hf_version /\
   (hf_version < 8 -> bulletproofs (rct_p rv) = []) /\ (hf_version < 15 -> bulletproofs_plus (rct_p rv) = []) /\
   (3 <= hf_version -> Forall (eq 0) (out_amounts tx)) /\ check_output_types tx hf_version = true) /\
  (version p = 1 ->
   check_tx_outputs tx_hash tx hf_version = Some true <->
   (2 <= hf_version -> Forall decomposed (out_amounts tx)) /\ check_output_types tx hf_version = true).
Proof.
  intros p rv Ho Ht Hgf. unfold check_tx_outputs, HF_VERSION_SMALLER_BP, HF_VERSION_CLSAG, HF_VERSION_BULLETPROOF_PLUS.
  fold p rv. cbv zeta. rewrite (bool_decide_eq_false_2 _ Hgf). set (type := rct_type (rct_base rv)) in *. split; intros Hv.
  - destruct (Z.eqb_spec (version p) 1); [lia|]. rewrite andb_false_r. cbn [mbind option_bind forallb negb].
    destruct (Z.leb_spec 2 (version p)); [|lia].
    rewrite <- !length_eqb_0. pose proof (rct_type_schedule hf_version type
      (length (bulletproofs (rct_p rv)) =? 0)%nat (length (bulletproofs_plus (rct_p rv)) =? 0)%nat Ht) as Hs.
    pose proof (rct_type_allowed_spec hf_version type (length (bulletproofs (rct_p rv)) =? 0)%nat
      (length (bulletproofs_plus (rct_p rv)) =? 0)%nat) as Ha.
    rewrite <- negb_false_iff, <- Hs in Ha. unfold rct_type_refused in Ha. rewrite !orb_false_iff in Ha.
    rewrite !if_false, !andb_true_r.
    set (amounts := (3 <=? hf_version) && negb _).
    assert (negb amounts = true <-> (3 <= hf_version -> Forall (eq 0) (out_amounts tx))) as <-.
    { unfold amounts. rewrite negb_true_iff, andb_false_iff, negb_false_iff, Z.leb_gt, forallb_forall.
      unfold out_amounts. rewrite Forall_fmap, Forall_forall. setoid_rewrite list_elem_of_In. fold p. split.
      - intros [|Hf] H3 o Hin; [lia|]. specialize (Hf o Hin). cbn. lia.
      - intros Hf. destruct (decide (3 <= hf_version)) as [H3|]; [right|left; lia]. intros o Hin.
        specialize (Hf H3 o Hin). cbn in Hf. lia. }
    split; [intros [= E]|intros E; f_equal]; rewrite !andb_true_iff, !negb_true_iff in *; tauto.
  - rewrite Hv. destruct (Z.leb_spec 2 1); [lia|]. rewrite !andb_false_r. cbn [andb negb orb].
    destruct (decomposed_all (vout p) Ho) as (l & El & Hl). fold p in Hl. unfold out_amounts. fold p.
    destruct (Z.leb_spec 2 hf_version); cbn [andb Z.eqb Pos.eqb]; [rewrite El|]; cbn [mbind option_bind forallb negb].
    + destruct (forallb id l); cbn [negb]; [|split; [done|intros [Hd _]; apply Hl in Hd; [done|lia]]].
      split; [intros [= E]; split; [intros _; by apply Hl|done]|intros [_ E]; by rewrite E].
    + split; [intros [= E]; split; [lia|done]|intros [_ E]; by rewrite E].
Qed.

(** *** Instances *)

Definition rules_coinbase (version unlock amount : Z) : transaction :=
  Transaction (TransactionPrefix version unlock [Txin_gen (unlock - 60)]
    [TxOut amount (Txout_to_tagged_key (replicate 32 1) [7])] []) (TxSigs [] rctSig_null).

Definition rules_block (amount : Z) : block :=
  Block (BlockHeader 16 16 1700000000 (replicate 32 2) 0) (rules_coinbase 2 1060 amount) [].

Definition rules_state : weight_state :=
  WeightState 800000 400000 2 350000 null_hash (rolling_median_new [9; 9] [9; 9] [9; 9] 2).

Lemma rules_rolling : rm_ok (m_long_term_block_weights_cache_rolling_median rules_state) [].
Proof. by apply new_ok. Qed.

Lemma miner_reward_witness :
  validate_miner_transaction rules_state example_rows (rules_block 600000005000) 1000 5000 (2 ^ 64 - 1) 16
    = Some (600000000000, false) /\
  validate_miner_transaction rules_state example_rows (rules_block 600000004000) 1000 5000 (2 ^ 64 - 1) 12
    = Some (599999999000, true) /\
  validate_miner_transaction rules_state example_rows (rules_block 600000004000) 1000 5000 (2 ^ 64 - 1) 16 = None.
Proof.
  split; [|split; [|by vm_compute]].
  - apply (miner_reward_correct rules_state example_rows (rules_block 600000005000));
      [done|by repeat constructor|done|done|done|done|done|intros R [= <-]; by vm_compute|].
    exists 600000000000. split_and!; by vm_compute.
  - apply (miner_reward_correct rules_state example_rows (rules_block 600000004000));
      [done|by repeat constructor|done|done|done|done|done|intros R [= <-]; by vm_compute|].
    exists 600000000000. split_and!; try by vm_compute. intros [|]; lia.
Defined.

Lemma coinbase_unlock_witness :
  is_tx_spendtime_unlocked (replicate 1059 0) 0 16 1060 16 = Some false /\
  is_tx_spendtime_unlocked (replicate 1060 0) 0 16 1060 16 = Some true.
Proof.
  destruct (coinbase_unlock_correct (rules_block 5) 1000 16) as (_ & _ & H);
    [done|by repeat constructor|done|done|].
  split; [apply (H (replicate 1059 0) 0 16 16)|apply (H (replicate 1060 0) 0 16 16)]; by vm_compute.
Defined.

Lemma block_timestamp_witness :
  fst (check_block_timestamp_main_chain (seqZ 1000 60) 1030 0) = true /\
  fst (check_block_timestamp_main_chain (seqZ 1000 60) 1028 0) = false.
Proof.
  destruct (block_timestamp_correct (seqZ 1000 60) 1030 0) as [_ H]; [|done|].
  { apply Forall_forall. intros x Hx%elem_of_seqZ. unfold is_uint. lia. }
  split; [|by vm_compute]. apply H. split; [done|]. intros _. by vm_compute.
Defined.

Lemma check_fee_witness :
  check_fee rules_state [5; 2 ^ 64 - 1] 16 1500 21560000 = Some true /\
  check_fee rules_state [5; 2 ^ 64 - 1] 16 1500 20000000 = Some false.
Proof.
  split; rewrite (proj1 (check_fee_correct rules_state [5; 2 ^ 64 - 1] 16 1500 _ ltac:(done) ltac:(done)
    ltac:(by repeat constructor) ltac:(done))); by vm_compute.
Defined.

Lemma fee_estimate_witness : exists f1 f2 f3 f4,
  get_dynamic_base_fee_estimate_2021_scaling rules_state example_rows [2 ^ 64 - 1] 16 10 = Some [f1; f2; f3; f4] /\
  check_fee rules_state [2 ^ 64 - 1] 16 1500 (ceil_to 4 (1500 * f1)) = Some true.
Proof.
  destruct (fee_estimate_correct rules_state [] example_rows [2 ^ 64 - 1] 16 10 1500 rules_rolling)
    as (f1 & f2 & f3 & f4 & E & _ & _ & _ & H);
    [constructor|repeat constructor; by vm_compute|by repeat constructor|done|done|done|done|].
  exists f1, f2, f3, f4. split; [done|]. apply H; by vm_compute.
Defined.

Lemma tx_types_witness : check_tx_outputs (replicate 32 0) sample_tx 16 = Some true.
Proof.
  destruct (tx_types_correct (replicate 32 0) sample_tx 16) as [H _]; [by apply Forall_singleton|done| |].
  { apply (bool_decide_unpack _). by vm_compute. }
  apply H; [done|]. split_and!; [apply (bool_decide_unpack _); by vm_compute|done|done| |done].
  intros _. by apply Forall_singleton.
Defined.
